(* ===== verification/_CoqProject ===== *)
-Q . S2P
Prelude.v
Float32.v
FloatOrder.v
Proto.v
CircularBuffer.v
RingBuffer.v
Counters.v
SubscriberSlot.v
DeltaBus.v
SnapshotTick.v
OrderStateTracker.v
CommandQueue.v
CircuitAI.v
CapabilityProvider.v
CommandValidator.v
CommandDispatch.v
Config.v
AuthToken.v
AdminController.v
GrpcLog.v
State.v
SnapshotBuilder.v
CoordinatorClient.v
ServiceCore.v
AdminApply.v
Gateway.v
GatewaySpec.v
Handlers.v
StreamState.v
StreamHandshake.v
MultiQueue.v
Scheduler.v
SchedulerPool.v
BlockingMap.v
BlockMask.v
MapShape.v
StdSort.v
AllyMarks.v
BuildSite.v
MaskHandler.v
AvailList.v
Outcome.v
OpenQueue.v
OpenQueueSpec.v
MicroPather.v
PatherInv.v
PatherLoop.v
PatherResult.v
PatherRules.v
PatherSearch.v
PatherCorrect.v
PathSearch.v
PathFinder.v
PathFinderInv.v
PathLine.v
PathLineInv.v
PathQuery.v
PathPos.v
PathDemo.v
PathCircle.v
PathQueryInv.v
PathQueryMap.v
ActionList.v
Tasks.v
TaskInv.v
TaskOps.v
TaskCalls.v
TaskEvents.v
TaskSafety.v
TaskFairness.v
TaskRelease.v
