(* ===== verification/Prelude.v ===== *)
(** * HighBar gateway: a verification development

    HighBar embeds a gRPC gateway into a game AI (CircuitAI, C++).  The engine calls
    the AI once per simulation frame; the gateway turns what happens into a feed of
    state updates for observers, accepts command batches from one external AI and
    administrative actions from operators, and hands both to the engine on the
    engine thread.  gRPC worker threads, subscriber pump threads, a coordinator
    client and the AI's own job threads run beside it.  This library models that
    code (src/src/circuit/grpc, src/src/circuit/module/GrpcGatewayModule.cpp,
    src/src/circuit/scheduler and the wire messages of src/proto/highbar) and the
    parts of the AI it stands on (the task machinery of src/src/circuit/task, module
    and unit, the containers of src/src/circuit/util, the occupancy map, the
    site search and the path finding of src/src/circuit/terrain) as executable
    definitions and proves what each part promises.

    ** How the parts interact

    Every frame [OnFrameTick] (Gateway.v) first applies a fault a worker has
    requested, then binds the service or starts the coordinator client when due,
    resolves queued callbacks and admin actions, drains the command queue into the
    engine, pumps the snapshot scheduler and flushes the accumulated delta, or a
    keep-alive when nothing happened for 30 frames.  Each flush takes the next
    sequence number, serialises the update, pushes it into the resume ring,
    publishes it on the delta bus and hands it to the coordinator client.  Event
    hooks append to the delta between ticks.  Any exception disables the gateway
    for good through [TransitionToDisabled].  Subscribers hold a slot of the bus and
    a pump thread each; submitters go through validation into the command queue.

    Below the gateway the AI keeps a registry of its units.  Each unit has one task,
    handed out by a task module that updates its tasks a slice per frame, and a list
    of actions the AI updates in the same way; a unit without work sits in the idle
    task, which asks the module (and through it a script) for new work.  Builders
    look for a site on the occupancy map, after the allies' buildings have been
    marked on it, and the site they find is marked in turn.  Ways are found by the path
    finder: a query takes the cost array of its unit's mobile type, which is rebuilt from the
    occupancy map, and a worker thread answers it with one of the searches of the pather.

    ** Files, and the code each models

    - Prelude.v: machine integers with their wrap-around, record updates, the error
      type [res], the hint database [gw], lemmas shared by the components.
    - Float32.v: binary32 arithmetic and the printing of floats; FloatOrder.v: the order of
      floats as an order of integers, and how sums and products respect it.
    - Proto.v, State.v: the messages of commands.proto, common.proto and state.proto.
    - CircularBuffer.v, RingBuffer.v (RingBuffer.cpp): the resume history.
    - Counters.v (Counters.cpp): gauges and the flush-latency percentile.
    - SubscriberSlot.v (SubscriberSlot.cpp): a subscriber's bounded queue; Module
      [Wait] has its mutex and condition variable as separate steps.
    - DeltaBus.v (DeltaBus.cpp): fan-out over a heap of shared slots; Module
      [Interleave] runs its pieces between lock acquisitions in any order.
    - SnapshotTick.v (SnapshotTick.cpp): the periodic-snapshot scheduler.
    - OrderStateTracker.v (OrderStateTracker.cpp): per-unit order state.
    - CommandQueue.v (CommandQueue.cpp): the bounded command queue and the
      admission of coordinator batches; clients use it through the class [Fifo].
    - CircuitAI.v: the lookups of the host AI the gateway performs.
    - CapabilityProvider.v, CommandValidator.v, CommandDispatch.v: the discovery
      answers, batch validation, and the 66 arms of the dispatch switch.
    - Config.v (Config.cpp, and the accessors of the JSON values it uses).
    - AuthToken.v (AuthToken.cpp, AuthInterceptor.cpp): token file and interceptor.
    - AdminController.v (AdminController.cpp, AdminService.cpp), AdminApply.v
      ([ApplyAdminAction]): administrative actions.
    - GrpcLog.v (GrpcLog.cpp): escaping, the fault line, the health file.
    - SnapshotBuilder.v (SnapshotBuilder.cpp): the snapshot message.
    - CoordinatorClient.v (CoordinatorClient.cpp): heartbeats, push, commands.
    - ServiceCore.v, Handlers.v, StreamState.v, StreamHandshake.v
      (HighBarService.cpp): lifetime and session slots; the unary handlers and the
      command stream; a client's state stream against the running gateway; the
      handshake between its pump thread and the completion-queue worker.
    - Gateway.v, GatewaySpec.v (GrpcGatewayModule.cpp): the module as a state and
      exception monad [GM]; its invariants over any sequence of operations.
    - MultiQueue.v, Scheduler.v, SchedulerPool.v (MultiQueue.hpp, Scheduler.cpp):
      the AI's job scheduler and the worker threads all schedulers share.
    - BlockingMap.v, BlockMask.v (terrain/BlockingMap.hpp, BlockMask.cpp,
      BlockRectangle.cpp, BlockCircle.cpp, [CTerrainManager::MarkBlocker]): the
      occupancy map of the terrain manager, and the footprints marked on it;
      MapShape.v: when the operations of the map stay in range.
    - AllyMarks.v ([CTerrainManager::MarkAllyBuildings], the ally zones): the marks
      of allied buildings.  StdSort.v: what is known of std::sort (class [StdSort]).
    - BuildSite.v ([CTerrainManager::FindBuildSite], its variants and tables).
    - MaskHandler.v, AvailList.v (util/MaskHandler.cpp, util/AvailList.h): names as
      bits, and the list of what can be built now.
    - Outcome.v: the outcomes [Val], [Refused] (the caller broke the contract) and
      [UB] (undefined behaviour), and their weakest preconditions.
    - OpenQueue.v, OpenQueueSpec.v (the binary heap of path/MicroPather.h).  MicroPather.v
      (path/MicroPather.cpp): the four searches, as one loop with different rules.
      PatherInv.v, PatherLoop.v, PatherResult.v, PatherRules.v, PatherSearch.v,
      PatherCorrect.v, PathSearch.v: its invariant, termination and answers.
    - PathFinder.v, PathFinderInv.v (path/PathFinder.cpp): the cost arrays of the mobile
      types.  PathLine.v, PathLineInv.v: straight lines and the shortening of a path.
      PathQuery.v (path/PathQuery.cpp, the Query* files and the functions of PathFinder.cpp
      that prepare and answer them); PathPos.v, PathCircle.v, PathQueryInv.v, PathQueryMap.v:
      positions, the circle around a target, and the contracts of the queries; PathDemo.v: a
      small world for the witnesses.
    - ActionList.v (util/ActionList.cpp, util/Action.h, unit/action/UnitAction.h).
    - Tasks.v (task/UnitTask.cpp, IdleTask.cpp, NilTask.cpp, PlayerTask.cpp,
      common/WaitTask.cpp, module/TaskModule.cpp, unit/CircuitUnit.cpp): units, tasks
      and actions on a heap of addresses.  TaskEvents.v: the module's updates, the
      registry and the events of CircuitAI.cpp.  TaskInv.v, TaskOps.v, TaskCalls.v:
      the invariant, that each operation keeps it, and the trees of calls a script or
      a derived task may make when it is called back.  TaskSafety.v, TaskFairness.v:
      the theorems about any sequence of events.  TaskRelease.v: the release at the
      end of the match.

    ** What the theorems show

    - The feed: numbered without gaps, every event in exactly one delta, never silent
      for 30 frames (C1, C10); a client's stream is contiguous under any interleaving
      with the engine thread and other subscribers (C2), built on the ring (C5), the
      bus (C6) and the slot ([push_wakes_consumer]); snapshots cover the registries
      (C20) and come at least every 1024 frames ([emission_within_1024]).
    - Faults: the side effects happen once and in order, and the disabled state is
      final (C3); the token and the health file are replaced atomically
      ([Generate_atomic], [WriteHealthFile_atomic]); free text cannot break the log
      format (C17).
    - Commands: a stream accepts exactly the valid, increasing batches (C4), with
      validation sound and complete (C7; [ValidateBatch_first_offender] says which
      issue is reported), a lossless bounded queue (C8, [AdmitCommandBatch_exact]), an
      event per drained command (C9) and a dispatch that reaches the engine and
      restores the cheat flag (C14, [dispatch_restores_cheats]; [validated_options_preserved]).
    - Sessions and access: slot limits under any interleaving (C11), the interceptor
      denies exactly the unauthorised calls (C15), listeners are loopback only
      ([Bind_loopback_only]).
    - Administration: validation, leases, audit and effects (C12, C13, [audit_trail], C19).
    - Configuration: a configuration that loads is in range (C16), expansion
      ([ExpandVars_template]).
    - Coordinator: the push queue and the command channel (C18, [channel_accounting]).
    - Threads: one operation in flight per stream call (C21; where it can hang:
      [finish_race_deadlocks]); the job scheduler (C39, [RemoveJob_effective]), its
      queue ([RemoveAllIf_filters]) and its pause protocol (C40, [pause_completes]).
    - The map: the occupancy grids refine a counting abstraction (C22), marking a
      building and removing the mark is the identity (C23), the marks of allied
      buildings follow the allies (C28), the site search ends, stays in range and
      returns the nearest free site (C27), and what it returns can be marked (C29).
    - Paths: from whatever state earlier searches left, every query ends, stays inside its
      arrays and answers rightly: a way within the threat limit if there is one, and an empty
      path only if there is none (C30, C31, C33), and a cost map whose entries are the
      travel distances of cheapest ways (C32).  Below them: the heap is a priority queue
      (C34), the arrays are well formed (C35), the circle around a target (C36) and the
      straight line (C37, C38) consist of the right cells.
    - Tasks: no pointer to a freed unit, task or action is followed and every unit is
      in the set of its task only, whatever the engine, the scripts and the derived
      tasks do within their contracts (C24); the end of the match frees tasks and units,
      once (C25); no task is left out by the staggered updates (C26).
    - Containers: the availability list stands for what can be built, best first
      ([avail_tracks]); mask names survive the way into a bit field and back
      ([mask_names_roundtrip]).

    ** Modelling choices

    A class is a [Record] with its members' names; a method is a function on it, its
    early returns and guards in the order of the code; exceptions are values of
    [res].  Integers keep their width ([u32], [u64], [i32]) wherever the source's
    arithmetic could wrap.  Code between two synchronisation points is one step; the
    interleavings are sequences of such steps.  Engine, sockets, files, clocks,
    random bytes, protobuf serialisation and the JSON parser are parameters or
    scripted inputs, and what is assumed of them (a serialised update parses back to
    itself) is a hypothesis of the theorems that use it, with a witness.

    Fuel: [Config.expand] takes the length of its input, which every step shortens;
    [RemoveAllIf_loop] takes the length of the queue, since an iteration advances or
    shortens it; [Float32.dec_exp] searches at most 90 decimal exponents, more than
    binary32 has; [Scheduler.once_loop] and [repeat_loop] take the fuel as an
    argument and return [None] without it: C39 proves how much is enough when jobs
    behave, and [reschedule_never_returns] that no amount is when one does not.
    [GetMaskNames] runs its loop 33 times, one more than a 32-bit value has bits.
    [sweep] takes the number of tasks, each step of it frees one; [idle_loop] and
    [actions_loop] take the sizes of what they iterate over, and running out is [UB],
    so that C24, which excludes [UB], shows the fuel is enough.
    The loop of the searches takes its fuel as an argument; the contracts give an amount from
    which on every run returns (a node is expanded again only when it became cheaper, and
    floats cannot fall for ever).  [draw_line] takes one step more than the two distances add up to.
    What depends on the rounding of particular positions is checked by computation for maps
    of up to 1024 squares a side ([max_side]) and ranges of up to 128 squares ([max_radius]).

    ** Not modelled

    Generated protobuf and gRPC code and vendored libraries (parameters); the plain
    log lines other than the fault line (concatenations sent to the host log); the
    Save and Load calls (they answer OK with an empty message); spurious wake-ups.
    Of the upstream AI: what the managers and the retreat, builder, factory and fighter
    tasks decide, resources and economy, the analysis of the
    terrain into areas, the threat and influence maps (numeric
    folds over engine data whose outcome is tuning, not a contract), the engine wrappers and
    the script bindings (calls into libraries that are not part of the sources).  Where this code
    calls into the modelled parts it is a hook or a parameter.  Of the path queries, the
    debug views and the hand-over of a query to a worker are left out (the latter is a job of
    the scheduler); of the tasks, loading from a saved game.  The registry of enemies and the
    bookkeeping of the managers on top of the task module follow the patterns modelled for
    units and tasks and are not repeated. *)

From Stdlib Require Export Ascii.
From stdpp Require Export base tactics numbers list list_numbers option
  strings pretty gmap sorting relations.
From Stdlib Require Export ZArith Lia.

#[global] Open Scope Z_scope.

Declare Scope gw_scope.
Delimit Scope gw_scope with gw.

(** * Machine integers

    The C++ types keep their width: a [std::uint32_t] is a [Z] in
    [0, 2^32) and every arithmetic operation that the source performs at that
    width is written with its wrap-around. *)

Definition u8  (x : Z) : Z := x `mod` 2 ^ 8.
Definition u16 (x : Z) : Z := x `mod` 2 ^ 16.
Definition u32 (x : Z) : Z := x `mod` 2 ^ 32.
Definition u64 (x : Z) : Z := x `mod` 2 ^ 64.

(** [static_cast<std::int32_t>] and [static_cast<short>] of a wider integer. *)
Definition i32 (x : Z) : Z := (x + 2 ^ 31) `mod` 2 ^ 32 - 2 ^ 31.
Definition i16 (x : Z) : Z := (x + 2 ^ 15) `mod` 2 ^ 16 - 2 ^ 15.

Definition INT_MAX : Z := 2147483647.

Definition is_u32 (x : Z) : Prop := 0 <= x < 2 ^ 32.
Definition is_u64 (x : Z) : Prop := 0 <= x < 2 ^ 64.
Definition is_i32 (x : Z) : Prop := - 2 ^ 31 <= x < 2 ^ 31.

Create HintDb gw.
Create Rewrite HintDb gw.

Lemma u32_small (x : Z) : 0 <= x < 2 ^ 32 -> u32 x = x.
Proof. apply Z.mod_small. Qed.
Lemma u64_small (x : Z) : 0 <= x < 2 ^ 64 -> u64 x = x.
Proof. apply Z.mod_small. Qed.
Lemma u32_range (x : Z) : 0 <= u32 x < 2 ^ 32.
Proof. apply Z.mod_pos_bound. lia. Qed.
Lemma u64_range (x : Z) : 0 <= u64 x < 2 ^ 64.
Proof. apply Z.mod_pos_bound. lia. Qed.
Lemma i32_small (x : Z) : - 2 ^ 31 <= x < 2 ^ 31 -> i32 x = x.
Proof. intros. unfold i32. rewrite Z.mod_small; lia. Qed.
Lemma i16_small (x : Z) : - 2 ^ 15 <= x < 2 ^ 15 -> i16 x = x.
Proof. intros. unfold i16. rewrite Z.mod_small; lia. Qed.
Lemma u32_i32 (x : Z) : 0 <= x < 2 ^ 32 -> u32 (i32 x) = x.
Proof.
  intros. unfold u32, i32.
  rewrite Zminus_mod_idemp_l. replace (x + 2 ^ 31 - 2 ^ 31) with x by lia.
  apply Z.mod_small; lia.
Qed.

#[export] Hint Resolve u32_range u64_range : gw.

(** [width] rewrites away a wrap-around whose argument is known to be in
    range, discharging the range with [lia]. *)
Ltac width :=
  repeat first
    [ rewrite u32_small in * by lia | rewrite u64_small in * by lia
    | rewrite i32_small in * by lia | rewrite i16_small in * by lia ].

(** * Exceptions

    A C++ function that may throw returns a [res]; the classes are the ones
    the gateway's own handlers distinguish. *)

Inductive exn_class :=
  | std_bad_alloc | std_invalid_argument | std_range_error | std_logic_error
  | std_runtime_error | std_exception | unknown_exception.

#[export] Instance exn_class_eq_dec : EqDecision exn_class.
Proof. solve_decision. Defined.

Record exn := Exn { exn_kind : exn_class; exn_what : string }.

Inductive res (A : Type) :=
  | Ok (a : A)
  | Throw (e : exn).
Arguments Ok {A} _.
Arguments Throw {A} _.

#[export] Instance res_ret : MRet res := fun A a => Ok a.
#[export] Instance res_bind : MBind res := fun A B f m =>
  match m with Ok a => f a | Throw e => Throw e end.

Definition invalid_argument (w : string) : exn := Exn std_invalid_argument w.
Definition runtime_error (w : string) : exn := Exn std_runtime_error w.

Lemma res_bind_Ok {A B} (f : A -> res B) (m : res A) (b : B) :
  m ≫= f = Ok b <-> exists a, m = Ok a /\ f a = Ok b.
Proof. destruct m; cbn; split; [eauto | intros (a0 & [= <-] & H); exact H | done | by intros (? & ? & ?)]. Qed.

(** The value of a call that did not throw. *)
Definition is_ok {A} (r : res A) : bool := match r with Ok _ => true | Throw _ => false end.
Definition from_ok {A} (r : res A) : is_ok r = true -> A :=
  match r with Ok a => fun _ => a | Throw _ => fun H => False_rect A (Bool.diff_false_true H) end.

Lemma from_ok_eq {A} (r : res A) (H : is_ok r = true) : r = Ok (from_ok r H).
Proof. by destruct r. Qed.

(** The double quote, for texts that contain one. *)
Definition dq : string := String (ascii_of_nat 34) EmptyString.

(** * Record update

    [r <| f := v |>] is [r] with field [f] replaced by [v], and
    [r <| f ::= g |>] applies [g] to the field: the assignments [r.f = v] of the
    source.  A record opts in by giving its [Eta] expansion; setters are then
    found by instance search. *)

Class Eta (R : Type) := eta : R -> R.
Class SetField {R T : Type} (proj : R -> T) := set_field : (T -> T) -> R -> R.
Arguments set_field {R T} proj {_} _ _ /.
#[global] Hint Mode SetField ! ! ! : typeclass_instances.

Ltac solve_set_field :=
  lazymatch goal with
  | |- @SetField ?R ?T ?proj =>
      let g := fresh "g" in let r := fresh "r" in
      intros g r;
      let b := eval hnf in (@eta R _ r) in
      let b := eval pattern (proj r) in b in
      lazymatch b with
      | ?k _ => let u := eval cbv beta in (k (g (proj r))) in exact u
      end
  end.
#[export] Hint Extern 0 (SetField _) => solve_set_field : typeclass_instances.

Notation "r <| f := v |>" := (set_field f (fun _ => v) r)
  (at level 1, f at level 0, v at level 200, left associativity,
   format "r  <| f  :=  v |>") : gw_scope.
Notation "r <| f ::= g |>" := (set_field f g r)
  (at level 1, f at level 0, g at level 200, left associativity,
   format "r  <| f  ::=  g |>") : gw_scope.
#[global] Open Scope gw_scope.

(** * Tactics *)

(** Split every conjunction and existential of the context. *)
Ltac dest :=
  repeat match goal with
  | H : _ /\ _ |- _ => destruct H
  | H : exists x, _ |- _ => let y := fresh x in destruct H as [y H]
  end.

(** Turn the boolean tests of the source into propositions. *)
Ltac bools :=
  repeat match goal with
  | H : _ && _ = true |- _ => apply andb_true_iff in H; destruct H
  | H : _ || _ = false |- _ => apply orb_false_iff in H; destruct H
  | H : negb _ = true |- _ => apply negb_true_iff in H
  | H : negb _ = false |- _ => apply negb_false_iff in H
  | H : (_ <? _) = true |- _ => apply Z.ltb_lt in H
  | H : (_ <? _) = false |- _ => apply Z.ltb_ge in H
  | H : (_ <=? _) = true |- _ => apply Z.leb_le in H
  | H : (_ <=? _) = false |- _ => apply Z.leb_gt in H
  | H : (_ =? _) = true |- _ => apply Z.eqb_eq in H
  | H : (_ =? _) = false |- _ => apply Z.eqb_neq in H
  | H : bool_decide _ = true |- _ => apply bool_decide_eq_true_1 in H
  | H : bool_decide _ = false |- _ => apply bool_decide_eq_false_1 in H
  end.

(** Case analysis on every [match]/[if] in goal or context, then clean-up. *)
Ltac cases := repeat (case_match; simplify_eq/=).

(** * Lists *)

(** The length of a C++ container, as the [size_t] the code compares. *)
Definition size_of {A} (l : list A) : Z := Z.of_nat (length l).

Lemma size_of_nonneg {A} (l : list A) : 0 <= size_of l.
Proof. unfold size_of; lia. Qed.
Lemma size_of_app {A} (l k : list A) : size_of (l ++ k) = size_of l + size_of k.
Proof. unfold size_of. rewrite length_app. lia. Qed.
Lemma size_of_cons {A} (a : A) (l : list A) : size_of (a :: l) = 1 + size_of l.
Proof. unfold size_of. cbn. lia. Qed.
Lemma size_of_nil {A} : size_of (@nil A) = 0.
Proof. done. Qed.
#[export] Hint Rewrite @size_of_app @size_of_cons @size_of_nil : gw.
#[export] Hint Resolve size_of_nonneg : gw.

(** The last [n] elements of a list. *)
Definition last_n {A} (n : nat) (l : list A) : list A := drop (length l - n) l.

Lemma last_n_all {A} (n : nat) (l : list A) : (length l <= n)%nat -> last_n n l = l.
Proof. intros. unfold last_n. replace (length l - n)%nat with 0%nat by lia. done. Qed.

Lemma length_last_n {A} (n : nat) (l : list A) :
  length (last_n n l) = (n `min` length l)%nat.
Proof. unfold last_n. rewrite length_drop. lia. Qed.

(** Appending one element to the history shifts the window by one. *)
Lemma last_n_snoc {A} (n : nat) (l : list A) (x : A) :
  (0 < n)%nat ->
  last_n n (l ++ [x])
  = (if decide (length l < n)%nat then last_n n l else drop 1 (last_n n l)) ++ [x].
Proof.
  intros Hn. unfold last_n. rewrite length_app; cbn.
  rewrite drop_app_le by lia. f_equal. case_decide.
  - f_equal; lia.
  - rewrite drop_drop. f_equal; lia.
Qed.

(** Indexed [forM]: the loops [for (int i = 0; i < n; ++i)] over a message's
    repeated field. *)
Fixpoint imap_from {A B} (f : nat -> A -> B) (i : nat) (l : list A) : list B :=
  match l with
  | [] => []
  | a :: l' => f i a :: imap_from f (S i) l'
  end.

Lemma length_imap_from {A B} (f : nat -> A -> B) i l :
  length (imap_from f i l) = length l.
Proof. revert i; induction l; cbn; auto. Qed.

Lemma lookup_imap_from {A B} (f : nat -> A -> B) i l j :
  imap_from f i l !! j = f (i + j)%nat <$> l !! j.
Proof.
  revert i j; induction l as [|a l IH]; intros i [|j]; cbn; try done.
  - by rewrite Nat.add_0_r.
  - rewrite IH. by replace (S i + j)%nat with (i + S j)%nat by lia.
Qed.

Lemma filter_none {A} (P : A -> Prop) `{!forall a, Decision (P a)} (l : list A) :
  Forall (fun a => ~ P a) l -> filter P l = [].
Proof. induction 1; [done|]. rewrite filter_cons, decide_False; done. Qed.

Lemma filter_all {A} (P : A -> Prop) `{!forall a, Decision (P a)} (l : list A) :
  Forall P l -> filter P l = l.
Proof. induction 1; [done|]. rewrite filter_cons, decide_True by done. by f_equal. Qed.

Lemma filter_ext_in {A} (P Q : A -> Prop) `{!forall a, Decision (P a), !forall a, Decision (Q a)}
    (l : list A) :
  (forall a, a ∈ l -> P a <-> Q a) -> filter P l = filter Q l.
Proof.
  induction l as [|a l IH]; intros Hpq; [done|]. rewrite !filter_cons.
  rewrite IH by (intros; apply Hpq; by right). specialize (Hpq a ltac:(left)).
  repeat case_decide; tauto.
Qed.

(** * Maps *)

(** An update in place of a present key. *)
Lemma alter_some {K A} `{Countable K} (f : A -> A) (k : K) (m : gmap K A) (x : A) :
  m !! k = Some x -> alter f k m = <[k := f x]> m.
Proof.
  intros Hx. apply map_eq. intros i. destruct (decide (i = k)) as [->|].
  - by rewrite lookup_alter_eq, lookup_insert_eq, Hx.
  - by rewrite lookup_alter_ne, lookup_insert_ne.
Qed.
