(* ===== verification/Float32.v ===== *)
(** IEEE-754 binary32 values, as the C++ [float] fields of the protobuf
    messages and of the engine callbacks hold them.

    A [float] is a [spec_float] (sign, mantissa, exponent); the comparison
    operators are the IEEE ones (a NaN compares false with everything), and
    [fmt_float] is [operator<<(std::ostream&, float)] with the default
    precision, i.e. [printf]'s "%g". *)

From Stdlib Require Export SpecFloat.
From S2P Require Import Prelude.

Abbreviation float := spec_float.

#[export] Instance float_eq_dec : EqDecision float.
Proof. solve_decision. Defined.

(** [a < b], [a <= b] and the mirrored operators. *)
Definition flt (a b : float) : bool := SFltb a b.
Definition fle (a b : float) : bool := SFleb a b.

Definition isfinite (f : float) : bool :=
  match f with
  | S754_zero _ | S754_finite _ _ _ => true
  | S754_infinity _ | S754_nan => false
  end.

Definition f0 : float := S754_zero false.

(** Rounding of an integer to binary32 (round to nearest even):
    [static_cast<float>(int)]. *)
Definition float_of_Z (z : Z) : float :=
  binary_normalize 24 128 z 0 false.

(** [static_cast<unsigned char>(f * 255.0f)] and the like: the product is
    rounded to binary32, the conversion truncates toward zero. *)
Definition fmul (a b : float) : float := SFmul 24 128 a b.

(** Truncation toward zero of a finite value. *)
Definition ftrunc (f : float) : option Z :=
  match f with
  | S754_zero _ => Some 0
  | S754_finite s m e =>
      let v := if 0 <=? e then Zpos m * 2 ^ e else Zpos m / 2 ^ (- e) in
      Some (if s then - v else v)
  | _ => None
  end.

(** ** Printing with "%g" *)

Definition string_rep (c : Ascii.ascii) (n : nat) : string :=
  String.string_of_list_ascii (replicate n c).

(** [m * 2^e / 10^x], rounded half to even. *)
Definition scale10 (m e x : Z) : Z :=
  let num := m * (2 ^ Z.max 0 e) * (10 ^ Z.max 0 (- x)) in
  let den := (2 ^ Z.max 0 (- e)) * (10 ^ Z.max 0 x) in
  let q := num / den in
  let r := num `mod` den in
  if (2 * r <? den) then q
  else if (den <? 2 * r) then q + 1
  else if Z.even q then q else q + 1.

(** The decimal exponent of [m * 2^e]: the greatest [x] with
    [10^x <= m * 2^e], searched downwards from an upper bound. *)
Fixpoint dec_exp (fuel : nat) (m e x : Z) : Z :=
  match fuel with
  | O => x
  | S k =>
      if (10 ^ Z.max 0 x) * (2 ^ Z.max 0 (- e))
         <=? m * (2 ^ Z.max 0 e) * (10 ^ Z.max 0 (- x))
      then x else dec_exp k m e (x - 1)
  end.

(** Significant digits without trailing zeros. *)
Fixpoint strip_zeros (l : list Ascii.ascii) : list Ascii.ascii :=
  match l with
  | [] => []
  | c :: l' =>
      match strip_zeros l' with
      | [] => if Ascii.eqb c "0"%char then [] else [c]
      | k => c :: k
      end
  end.

Definition pad2 (n : Z) : string :=
  if n <? 10 then String "0" (pretty n) else pretty n.

Definition fmt_finite (m e : Z) : string :=
  let x := dec_exp 90 m e 39 in
  let d := scale10 m e (x - 5) in
  let '(d, x) := if 10 ^ 6 <=? d then (10 ^ 5, x + 1) else (d, x) in
  let digits := String.list_ascii_of_string (pretty d) in
  if (x <? -4) || (6 <=? x) then
    let frac := strip_zeros (drop 1 digits) in
    let mant := String.string_of_list_ascii (take 1 digits) +:+
                (if decide (frac = []) then "" else String "." (String.string_of_list_ascii frac)) in
    mant +:+ (if x <? 0 then "e-" else "e+") +:+ pad2 (Z.abs x)
  else if x <? 0 then
    "0." +:+ string_rep "0" (Z.to_nat (- x - 1))
         +:+ String.string_of_list_ascii (strip_zeros digits)
  else
    let n := Z.to_nat (x + 1) in
    let frac := strip_zeros (drop n digits) in
    String.string_of_list_ascii (take n digits) +:+
    (if decide (frac = []) then "" else String "." (String.string_of_list_ascii frac)).

Definition fmt_float (f : float) : string :=
  match f with
  | S754_zero s => if s then "-0" else "0"
  | S754_infinity s => if s then "-inf" else "inf"
  | S754_nan => "nan"
  | S754_finite s m e => (if s then "-" else "") +:+ fmt_finite (Zpos m) e
  end.

(** 0.1f, 1.5f, 123456.0f and 1e10f as the compiler stores them. *)
Example fmt_tenth : fmt_float (S754_finite false 13421773 (-27)) = "0.1".
Proof. vm_compute. reflexivity. Qed.
Example fmt_one_half : fmt_float (S754_finite true 12582912 (-23)) = "-1.5".
Proof. vm_compute. reflexivity. Qed.
Example fmt_big : fmt_float (float_of_Z 12345678) = "1.23457e+07".
Proof. vm_compute. reflexivity. Qed.
Example fmt_small : fmt_float (S754_finite false 10995116 (-40)) = "1e-05".
Proof. vm_compute. reflexivity. Qed.
Example fmt_int : fmt_float (float_of_Z 2048) = "2048".
Proof. vm_compute. reflexivity. Qed.
