(* ===== verification/FloatOrder.v ===== *)
(** Order and rounding of binary32: the facts a shortest-path search over [float]
    costs rests on.

    [okey] numbers the non-NaN values in increasing order, so that the IEEE comparisons
    are comparisons of integers; a sum is rounded monotonically, a representable value
    is rounded to itself, and therefore adding a nonnegative cost never lowers a cost and
    adding the same cost to a larger one never gives a smaller one. *)

From S2P Require Import Prelude Float32.

Create HintDb cost.

Definition fadd (a b : float) : float := SFadd 24 128 a b.
Definition fsub (a b : float) : float := SFsub 24 128 a b.

Definition fvalid (a : float) : Prop := valid_binary 24 128 a = true /\ a <> S754_nan.

(** The rank of infinity. *)
Definition oinf : Z := 255 * 2 ^ 23.

Definition okey (a : float) : Z :=
  match a with
  | S754_zero _ | S754_nan => 0
  | S754_infinity s => cond_Zopp s oinf
  | S754_finite s m e => cond_Zopp s ((e + 149) * 2 ^ 23 + Zpos m)
  end.

(** A cost: a value that is not NaN and not below zero. *)
Definition cost_ok (a : float) : Prop := fvalid a /\ 0 <= okey a.

(** [V / 2^k] rounded to nearest, ties to even. *)
Definition rne (V k : Z) : Z :=
  let q := V / 2 ^ k in
  let r := 2 * (V `mod` 2 ^ k) in
  if r <? 2 ^ k then q else if 2 ^ k <? r then q + 1 else if Z.even q then q else q + 1.

(** The rank a positive multiple [V] of 2^-149 is rounded to. *)
Definition rord (V : Z) : Z := let k := Z.max 0 (Zdigits2 V - 24) in k * 2 ^ 23 + rne V k.

(** ** Digits *)

Lemma digits2_bounds (p : positive) : 2 ^ (Zpos (digits2_pos p) - 1) <= Zpos p < 2 ^ Zpos (digits2_pos p).
Proof.
  induction p as [p IH|p IH|]; cbn [digits2_pos]; [| |done].
  all: rewrite Pos2Z.inj_succ; replace (Z.succ (Zpos (digits2_pos p)) - 1) with (Z.succ (Zpos (digits2_pos p) - 1)) by lia;
    rewrite !Z.pow_succ_r by lia; lia.
Qed.

Lemma digits_unique (p : positive) (d : Z) : 1 <= d -> 2 ^ (d - 1) <= Zpos p < 2 ^ d -> Zpos (digits2_pos p) = d.
Proof.
  intros Hd Hp. pose proof (digits2_bounds p) as Hb.
  destruct (Z.lt_trichotomy (Zpos (digits2_pos p)) d) as [H|[H|H]]; [|done|].
  - assert (2 ^ Zpos (digits2_pos p) <= 2 ^ (d - 1)) by (apply Z.pow_le_mono_r; lia). lia.
  - assert (2 ^ d <= 2 ^ (Zpos (digits2_pos p) - 1)) by (apply Z.pow_le_mono_r; lia). lia.
Qed.

(** ** Rounding to nearest even *)

Lemma rne_0 (V : Z) : rne V 0 = V.
Proof. unfold rne. change (2 ^ 0) with 1. rewrite Z.mod_1_r, Z.div_1_r. done. Qed.

Lemma rne_exact (m k : Z) : 0 <= k -> rne (m * 2 ^ k) k = m.
Proof.
  intros Hk. assert (0 < 2 ^ k) by (apply Z.pow_pos_nonneg; lia). unfold rne.
  rewrite Z.mod_mul, Z.div_mul by lia. case_match; [done|lia].
Qed.

(** Rounding does not depend on the unit. *)
Lemma rne_scale (p k j : Z) : 0 <= k -> 0 <= j -> rne (p * 2 ^ j) (k + j) = rne p k.
Proof.
  intros Hk Hj. unfold rne. rewrite (Z.pow_add_r 2 k j) by lia.
  assert (0 < 2 ^ j) by (apply Z.pow_pos_nonneg; lia). assert (0 < 2 ^ k) by (apply Z.pow_pos_nonneg; lia).
  rewrite Z.div_mul_cancel_r, Z.mul_mod_distr_r by lia.
  destruct (Z.ltb_spec (2 * (p `mod` 2 ^ k)) (2 ^ k)), (Z.ltb_spec (2 * (p `mod` 2 ^ k * 2 ^ j)) (2 ^ k * 2 ^ j)); try nia.
  destruct (Z.ltb_spec (2 ^ k) (2 * (p `mod` 2 ^ k))), (Z.ltb_spec (2 ^ k * 2 ^ j) (2 * (p `mod` 2 ^ k * 2 ^ j))); try nia.
Qed.

Lemma rne_mono (V V' k : Z) : 0 <= k -> V <= V' -> rne V k <= rne V' k.
Proof.
  intros Hk HV. assert (0 < 2 ^ k) by (apply Z.pow_pos_nonneg; lia). unfold rne.
  pose proof (Z.div_mod V (2 ^ k) ltac:(lia)). pose proof (Z.div_mod V' (2 ^ k) ltac:(lia)).
  pose proof (Z.mod_pos_bound V (2 ^ k) ltac:(lia)). pose proof (Z.mod_pos_bound V' (2 ^ k) ltac:(lia)).
  assert (V / 2 ^ k <= V' / 2 ^ k) by (apply Z.div_le_mono; lia).
  destruct (decide (V / 2 ^ k = V' / 2 ^ k)) as [E|].
  - rewrite E in *. repeat case_match; lia.
  - repeat case_match; lia.
Qed.

Lemma rne_pow (a k : Z) : 0 <= k <= a -> rne (2 ^ a) k = 2 ^ (a - k).
Proof.
  intros Hk. replace (2 ^ a) with (2 ^ (a - k) * 2 ^ k) by (rewrite <-Z.pow_add_r by lia; f_equal; lia).
  apply rne_exact. lia.
Qed.

(** With [d] digits kept, the result lies between the powers of two around it. *)
Lemma rne_bounds (V k : Z) (d : Z) : 0 <= k -> 1 <= d -> 2 ^ (k + d - 1) <= V < 2 ^ (k + d) -> 2 ^ (d - 1) <= rne V k <= 2 ^ d.
Proof.
  intros Hk Hd HV. split.
  - transitivity (rne (2 ^ (k + d - 1)) k); [rewrite rne_pow by lia; f_equal; apply Z.pow_le_mono_r; lia|apply rne_mono; lia].
  - transitivity (rne (2 ^ (k + d)) k); [apply rne_mono; lia|rewrite rne_pow by lia; apply Z.pow_le_mono_r; lia].
Qed.

Lemma rord_small (V : Z) : 0 < V < 2 ^ 24 -> rord V = V.
Proof.
  intros HV. destruct V as [|p|]; try lia. unfold rord. cbn [Zdigits2]. pose proof (digits2_bounds p) as Hb.
  assert (Zpos (digits2_pos p) <= 24).
  { destruct (Z.le_gt_cases (Zpos (digits2_pos p)) 24) as [|Hgt]; [done|].
    assert (2 ^ 24 <= 2 ^ (Zpos (digits2_pos p) - 1)) by (apply Z.pow_le_mono_r; lia). lia. }
  rewrite Z.max_l by lia. rewrite rne_0. lia.
Qed.

(** Rounding is monotone. *)
Lemma rord_mono (V V' : Z) : 0 < V <= V' -> rord V <= rord V'.
Proof.
  intros HV. destruct V as [|p|], V' as [|p'|]; try lia. unfold rord. cbn [Zdigits2].
  pose proof (digits2_bounds p) as Hb. pose proof (digits2_bounds p') as Hb'.
  set (d := Zpos (digits2_pos p)) in *. set (d' := Zpos (digits2_pos p')) in *.
  assert (d <= d').
  { destruct (Z.le_gt_cases d d') as [|Hgt]; [done|].
    assert (2 ^ d' <= 2 ^ (d - 1)) by (apply Z.pow_le_mono_r; lia). lia. }
  destruct (decide (Z.max 0 (d - 24) = Z.max 0 (d' - 24))) as [E|Hne].
  { rewrite E. pose proof (rne_mono (Zpos p) (Zpos p') (Z.max 0 (d' - 24)) ltac:(lia) ltac:(lia)). lia. }
  assert (rne (Zpos p) (Z.max 0 (d - 24)) <= 2 ^ 24) as H1.
  { destruct (Z.le_gt_cases d 24) as [Hd|Hd].
    - rewrite Z.max_l by lia. rewrite rne_0. assert (2 ^ d <= 2 ^ 24) by (apply Z.pow_le_mono_r; lia). lia.
    - rewrite Z.max_r by lia. apply (rne_bounds _ (d - 24) 24); try lia.
      replace (d - 24 + 24 - 1) with (d - 1) by lia. replace (d - 24 + 24) with d by lia. exact Hb. }
  assert (2 ^ 23 <= rne (Zpos p') (Z.max 0 (d' - 24))) as H2.
  { rewrite Z.max_r by lia. apply (rne_bounds _ (d' - 24) 24); try lia.
    replace (d' - 24 + 24 - 1) with (d' - 1) by lia. replace (d' - 24 + 24) with d' by lia. exact Hb'. }
  change (2 ^ 24) with (2 * 2 ^ 23) in H1. nia.
Qed.

(** ** What the shift and the rounding of [SpecFloat] compute *)

Lemma iter_pos_nat {A} (f : A -> A) (p : positive) (x : A) : iter_pos f p x = Nat.iter (Pos.to_nat p) f x.
Proof.
  revert x. induction p as [p IH|p IH|]; intros x; cbn [iter_pos]; [| |done].
  - rewrite !IH, <-Nat.iter_add, Pos2Nat.inj_xI. rewrite Nat.iter_succ_r. f_equal. lia.
  - rewrite !IH, <-Nat.iter_add, Pos2Nat.inj_xO. f_equal. lia.
Qed.

Lemma shr_1_eq (m : Z) (r s : bool) : 0 <= m -> shr_1 (Build_shr_record m r s) = Build_shr_record (m / 2) (Z.odd m) (r || s).
Proof. destruct m as [|[p|p|]|]; intros; try lia; cbn [shr_1]; f_equal; Z.div_mod_to_equations; lia. Qed.

(** After [S n] shifts of an exact [m]: the quotient, the last bit shifted out, and whether any bit below it was set. *)
Lemma iter_shr (m : Z) (n : nat) : 0 <= m ->
  Nat.iter (S n) shr_1 (Build_shr_record m false false) =
  Build_shr_record (m / 2 ^ Z.of_nat (S n)) (Z.odd (m / 2 ^ Z.of_nat n)) (negb (m `mod` 2 ^ Z.of_nat n =? 0)).
Proof.
  intros Hm. induction n as [|n IH].
  { cbn [Nat.iter]. rewrite shr_1_eq by done. change (Z.of_nat 0) with 0. change (2 ^ 0) with 1.
    rewrite Z.div_1_r, Z.mod_1_r. done. }
  change (Nat.iter (S (S n)) shr_1 (Build_shr_record m false false))
    with (shr_1 (Nat.iter (S n) shr_1 (Build_shr_record m false false))).
  assert (0 < 2 ^ Z.of_nat n) by (apply Z.pow_pos_nonneg; lia).
  assert (0 < 2 ^ Z.of_nat (S n)) by (apply Z.pow_pos_nonneg; lia).
  rewrite IH, shr_1_eq by (apply Z.div_pos; lia). f_equal.
  - rewrite Z.div_div by lia. f_equal. rewrite (Nat2Z.inj_succ (S n)), Z.pow_succ_r by lia. lia.
  - rewrite (Nat2Z.inj_succ n), Z.pow_succ_r by lia.
    assert (m `mod` (2 * 2 ^ Z.of_nat n) = m `mod` 2 ^ Z.of_nat n + 2 ^ Z.of_nat n * ((m / 2 ^ Z.of_nat n) `mod` 2)) as ->
      by (rewrite (Z.mul_comm 2); apply Z.rem_mul_r; lia).
    rewrite Zmod_odd. destruct (Z.odd (m / 2 ^ Z.of_nat n)); cbn [orb]; pose proof (Z.mod_pos_bound m (2 ^ Z.of_nat n) ltac:(lia)); lia.
Qed.

(** Shifting by [k] and rounding is [rne]. *)
Lemma shr_round (m e k : Z) : 0 <= m -> 0 <= k ->
  exists mrs, shr (shr_record_of_loc m loc_Exact) e k = (mrs, e + k) /\ round_nearest_even (shr_m mrs) (loc_of_shr_record mrs) = rne m k.
Proof.
  intros Hm Hk. destruct k as [|p|]; [| |lia].
  { exists (Build_shr_record m false false). rewrite Z.add_0_r, rne_0. done. }
  destruct (Pos2Nat.is_succ p) as [n Hn].
  eexists. split; [reflexivity|]. cbn [shr_record_of_loc]. rewrite iter_pos_nat, Hn, iter_shr by done.
  assert (Zpos p = Z.of_nat (S n)) as -> by lia.
  assert (0 < 2 ^ Z.of_nat n) by (apply Z.pow_pos_nonneg; lia).
  pose proof (Z.mod_pos_bound m (2 ^ Z.of_nat n) ltac:(lia)).
  unfold rne. rewrite (Nat2Z.inj_succ n), Z.pow_succ_r by lia.
  assert (m `mod` (2 * 2 ^ Z.of_nat n) = m `mod` 2 ^ Z.of_nat n + 2 ^ Z.of_nat n * ((m / 2 ^ Z.of_nat n) `mod` 2)) as ->
    by (rewrite (Z.mul_comm 2); apply Z.rem_mul_r; lia).
  rewrite Zmod_odd. cbn [shr_m]. set (q := m / (2 * 2 ^ Z.of_nat n)).
  destruct (Z.odd (m / 2 ^ Z.of_nat n)), (Z.eqb_spec (m `mod` 2 ^ Z.of_nat n) 0); cbn [negb loc_of_shr_record round_nearest_even];
    repeat case_match; lia.
Qed.

(** The exponent a positive value with [d] digits and exponent [e] is rounded at. *)
Abbreviation fexp32 := (fexp 24 128).

Lemma fexp32_eq (z : Z) : fexp32 z = Z.max (z - 24) (-149).
Proof. reflexivity. Qed.

(** Canonical mantissas. *)
Lemma valid_finite (s : bool) (m : positive) (e : Z) :
  valid_binary 24 128 (S754_finite s m e) = true <->
  -149 <= e <= 104 /\ Zpos m < 2 ^ 24 /\ (e = -149 \/ 2 ^ 23 <= Zpos m).
Proof.
  cbn [valid_binary]. unfold bounded, canonical_mantissa. rewrite andb_true_iff, Z.eqb_eq, Z.leb_le, fexp32_eq.
  pose proof (digits2_bounds m) as Hb. set (d := Zpos (digits2_pos m)) in *. assert (1 <= d) by lia. split.
  - intros [E He]. assert (d <= 24) by lia. assert (2 ^ d <= 2 ^ 24) by (apply Z.pow_le_mono_r; lia).
    repeat split; try lia. destruct (decide (e = -149)) as [|Hne]; [by left|right].
    assert (d = 24) by lia. replace (d - 1) with 23 in Hb by lia. lia.
  - intros (He & Hm & Hn).
    assert (d <= 24).
    { destruct (Z.le_gt_cases d 24) as [|Hgt]; [done|]. assert (2 ^ 24 <= 2 ^ (d - 1)) by (apply Z.pow_le_mono_r; lia). lia. }
    destruct Hn as [->|Hn]; [lia|].
    assert (24 <= d).
    { destruct (Z.le_gt_cases 24 d) as [|Hgt]; [done|]. assert (2 ^ d <= 2 ^ 23) by (apply Z.pow_le_mono_r; lia). lia. }
    lia.
Qed.

(** The second shift: a mantissa of at most 24 digits is kept, 2^24 is halved. *)
Lemma round_aux_second (s : bool) (r e : Z) : 0 < r <= 2 ^ 24 -> -149 <= e -> e = -149 \/ 2 ^ 23 <= r ->
  let f := (let '(mrs, e'') := shr_fexp 24 128 r e loc_Exact in
            match shr_m mrs with
            | Z0 => S754_zero s
            | Zpos m => if Z.leb e'' (128 - 24) then S754_finite s m e'' else S754_infinity s
            | _ => S754_nan
            end) in
  fvalid f /\ okey f = cond_Zopp s (Z.min oinf ((e + 149) * 2 ^ 23 + r)).
Proof.
  intros Hr He Hn. unfold shr_fexp. rewrite fexp32_eq. destruct r as [|p|]; try lia. cbn [Zdigits2].
  pose proof (digits2_bounds p) as Hb.
  destruct (decide (Zpos p = 2 ^ 24)) as [E|Hne].
  - assert (Zpos (digits2_pos p) = 25) as -> by (rewrite (digits_unique p 25) by lia; done).
    replace (Z.max (25 + e - 24) (-149) - e) with 1 by lia. change (2 ^ 24) with 16777216 in E. injection E as ->. cbn -[Z.add Z.mul Z.pow].
    destruct (Z.leb_spec (e + 1) (128 - 24)) as [Hle|Hgt].
    + split; [split; [apply valid_finite; lia|done]|]. cbn [okey]. f_equal. unfold oinf. lia.
    + split; [done|]. cbn [okey]. f_equal. unfold oinf. lia.
  - assert (Zpos (digits2_pos p) <= 24).
    { destruct (Z.le_gt_cases (Zpos (digits2_pos p)) 24) as [|Hgt]; [done|].
      assert (2 ^ 24 <= 2 ^ (Zpos (digits2_pos p) - 1)) by (apply Z.pow_le_mono_r; lia). lia. }
    assert (exists k, Z.max (Zpos (digits2_pos p) + e - 24) (-149) - e = - k /\ 0 <= k) as (k & -> & Hk) by (eexists (- _); split; [symmetry; apply Z.opp_involutive|lia]).
    assert (shr (shr_record_of_loc (Zpos p) loc_Exact) e (- k) = (Build_shr_record (Zpos p) false false, e)) as -> by (by destruct k).
    cbn [shr_m]. destruct (Z.leb_spec e (128 - 24)) as [Hle|Hgt].
    + split; [split; [apply valid_finite; lia|done]|]. cbn [okey]. f_equal. unfold oinf. lia.
    + split; [done|]. cbn [okey]. f_equal. unfold oinf. lia.
Qed.

(** Rounding of [m * 2^e], when the mantissa has at least as many digits as are kept. *)
Lemma binary_round_aux_spec (s : bool) (m : positive) (e : Z) :
  let k := fexp32 (Zpos (digits2_pos m) + e) - e in
  0 <= k ->
  let f := binary_round_aux 24 128 s (Zpos m) e loc_Exact in
  fvalid f /\ okey f = cond_Zopp s (Z.min oinf ((e + k + 149) * 2 ^ 23 + rne (Zpos m) k)).
Proof.
  intros k Hk f.
  assert (f = (let '(mrs, e'') := shr_fexp 24 128 (rne (Zpos m) k) (e + k) loc_Exact in
               match shr_m mrs with
               | Z0 => S754_zero s
               | Zpos m => if Z.leb e'' (128 - 24) then S754_finite s m e'' else S754_infinity s
               | _ => S754_nan
               end)) as ->.
  { unfold f, binary_round_aux. unfold shr_fexp at 1. cbn [Zdigits2]. fold k.
    destruct (shr_round (Zpos m) e k) as (mrs & -> & Hr); [lia|done|]. by rewrite Hr. }
  pose proof (digits2_bounds m) as Hb. set (d := Zpos (digits2_pos m)) in *.
  assert (e + k = Z.max (d + e - 24) (-149)) as Ek by (unfold k; rewrite fexp32_eq; lia).
  destruct (decide (d <= k)) as [Hle|Hgt].
  - assert (0 <= rne (Zpos m) k <= 1) as H01.
    { split.
      - pose proof (rne_exact 0 k ltac:(lia)). pose proof (rne_mono (0 * 2 ^ k) (Zpos m) k). lia.
      - transitivity (rne (2 ^ k) k); [|rewrite rne_pow, Z.sub_diag by lia; done].
        assert (2 ^ d <= 2 ^ k) by (apply Z.pow_le_mono_r; lia). apply rne_mono; lia. }
    destruct (decide (rne (Zpos m) k = 0)) as [E|Hne].
    + rewrite E. unfold shr_fexp. cbn [Zdigits2]. rewrite fexp32_eq.
      assert (exists j, Z.max (0 + (e + k) - 24) (-149) - (e + k) = - j /\ 0 <= j) as (j & -> & Hj) by (eexists (- _); split; [symmetry; apply Z.opp_involutive|lia]).
      assert (shr (shr_record_of_loc 0 loc_Exact) (e + k) (- j) = (Build_shr_record 0 false false, e + k)) as -> by (by destruct j).
      cbn [shr_m]. split; [done|]. cbn [okey]. assert (e + k = -149) as -> by lia. destruct s; reflexivity.
    + apply round_aux_second; lia.
  - assert (2 ^ (d - k - 1) <= rne (Zpos m) k <= 2 ^ (d - k)) as Hr'.
    { apply rne_bounds; try lia. replace (k + (d - k) - 1) with (d - 1) by lia. replace (k + (d - k)) with d by lia. done. }
    assert (0 < 2 ^ (d - k - 1)) by (apply Z.pow_pos_nonneg; lia).
    assert (2 ^ (d - k) <= 2 ^ 24) by (apply Z.pow_le_mono_r; lia).
    apply round_aux_second; try lia.
    destruct (decide (e + k = -149)) as [|Hne]; [by left|right].
    assert (d - k = 24) as Hdk by lia. replace (d - k - 1) with 23 in Hr' by lia. lia.
Qed.

Lemma shl_align_eq (m : positive) (e e' : Z) : e' <= e -> exists p, shl_align m e e' = (p, e') /\ Zpos p = Zpos m * 2 ^ (e - e').
Proof.
  intros He. unfold shl_align. destruct (e' - e) as [|d|d] eqn:E; [|lia|].
  - exists m. assert (e' = e) as -> by lia. rewrite Z.sub_diag, Z.mul_1_r. done.
  - eexists. split; [done|]. replace (e - e') with (Zpos d) by lia. clear E.
    induction d as [|d IH] using Pos.peano_ind; [cbn; lia|].
    rewrite Pos.iter_succ, Pos2Z.inj_xO, IH, Pos2Z.inj_succ, Z.pow_succ_r by lia. lia.
Qed.

Lemma digits_shift (m p : positive) (j : Z) : 0 <= j -> Zpos p = Zpos m * 2 ^ j -> Zpos (digits2_pos p) = Zpos (digits2_pos m) + j.
Proof.
  intros Hj E. pose proof (digits2_bounds m) as Hb. assert (0 < 2 ^ j) by (apply Z.pow_pos_nonneg; lia).
  apply digits_unique; [lia|]. rewrite E.
  replace (Zpos (digits2_pos m) + j - 1) with ((Zpos (digits2_pos m) - 1) + j) by lia.
  rewrite !Z.pow_add_r by lia. split; [apply Z.mul_le_mono_nonneg_r; lia|apply Z.mul_lt_mono_pos_r; lia].
Qed.

(** [m * 2^e] with [-149 <= e], in units of 2^-149: the result is the rank [rord] gives it. *)
Lemma binary_round_spec (s : bool) (m : positive) (e : Z) : -149 <= e ->
  let f := binary_round 24 128 s m e in
  fvalid f /\ okey f = cond_Zopp s (Z.min oinf (rord (Zpos m * 2 ^ (e + 149)))).
Proof.
  intros He. unfold binary_round. rewrite fexp32_eq. set (d := Zpos (digits2_pos m)). set (x := Z.max (d + e - 24) (-149)).
  assert (exists V, Zpos V = Zpos m * 2 ^ (e + 149)) as [V HV].
  { assert (0 < 2 ^ (e + 149)) by (apply Z.pow_pos_nonneg; lia). exists (Z.to_pos (Zpos m * 2 ^ (e + 149))). apply Z2Pos.id. lia. }
  pose proof (digits_shift m V (e + 149) ltac:(lia) HV) as HdV. fold d in HdV.
  assert (exists p e', shl_align m e x = (p, e') /\ Zpos p = Zpos m * 2 ^ (e - e') /\ -149 <= e' <= e /\ (e' = x \/ e' = e /\ e <= x)) as (p & e' & -> & Hp & He' & Hx).
  { destruct (Z.le_gt_cases x e) as [Hle|Hgt].
    - destruct (shl_align_eq m e x) as (p & Ep & Hp); [done|]. exists p, x. repeat split; try done; lia.
    - exists m, e. unfold shl_align. destruct (x - e) as [|?|?] eqn:E; try lia. rewrite Z.sub_diag, Z.mul_1_r. repeat split; lia. }
  pose proof (digits_shift m p (e - e') ltac:(lia) Hp) as Hdp. fold d in Hdp.
  destruct (binary_round_aux_spec s p e') as [Hv Ho]; [rewrite fexp32_eq; lia|].
  split; [exact Hv|]. rewrite Ho. rewrite <-HV. unfold rord. cbn [Zdigits2]. rewrite HdV, fexp32_eq, Hdp.
  f_equal. f_equal. set (k := Z.max (d + (e - e') + e' - 24) (-149) - e'). set (kV := Z.max 0 (d + (e + 149) - 24)).
  assert (kV = k + (e' + 149)) as HkV by lia. replace (e' + k + 149) with kV by lia. f_equal.
  (* the same quotient and the same comparison, scaled by 2^(e'+149) *)
  assert (Zpos V = Zpos p * 2 ^ (e' + 149)) as ->.
  { rewrite HV, Hp, <-Z.mul_assoc, <-Z.pow_add_r by lia. f_equal. f_equal. lia. }
  rewrite HkV. symmetry. apply rne_scale; lia.
Qed.

Lemma binary_normalize_pos (V e : Z) (b : bool) : -149 <= e -> 0 < V ->
  fvalid (binary_normalize 24 128 V e b) /\ okey (binary_normalize 24 128 V e b) = Z.min oinf (rord (V * 2 ^ (e + 149))).
Proof. intros He HV. destruct V as [|p|]; try lia. exact (binary_round_spec false p e He). Qed.

Lemma binary_normalize_valid (V e : Z) (b : bool) : -149 <= e -> fvalid (binary_normalize 24 128 V e b).
Proof. intros He. destruct V as [|p|p]; [done| |]; cbn [binary_normalize]; by apply binary_round_spec. Qed.

(** ** Order *)

Lemma finite_rank (m : positive) (e : Z) (s : bool) : valid_binary 24 128 (S754_finite s m e) = true ->
  0 < (e + 149) * 2 ^ 23 + Zpos m < oinf.
Proof. intros (He & Hm & _)%valid_finite. unfold oinf. change (2 ^ 24) with (2 * 2 ^ 23) in Hm. nia. Qed.

Lemma rank_lex (m m' : positive) (e e' : Z) (s s' : bool) :
  valid_binary 24 128 (S754_finite s m e) = true -> valid_binary 24 128 (S754_finite s' m' e') = true ->
  ((e + 149) * 2 ^ 23 + Zpos m ?= (e' + 149) * 2 ^ 23 + Zpos m') = match e ?= e' with Eq => Zpos m ?= Zpos m' | c => c end.
Proof.
  intros (He & Hm & Hn)%valid_finite (He' & Hm' & Hn')%valid_finite. change (2 ^ 24) with (2 * 2 ^ 23) in Hm, Hm'.
  destruct (Z.compare_spec e e') as [->|Hlt|Hgt].
  - destruct (Z.compare_spec (Zpos m) (Zpos m')); [apply Z.compare_eq_iff|apply Z.compare_lt_iff|apply Z.compare_gt_iff]; lia.
  - apply Z.compare_lt_iff. destruct Hn'; [lia|nia].
  - apply Z.compare_gt_iff. destruct Hn; [lia|nia].
Qed.

(** The IEEE comparison is the comparison of ranks. *)
Lemma SFcompare_okey (a b : float) : fvalid a -> fvalid b -> SFcompare a b = Some (okey a ?= okey b).
Proof.
  intros [Ha Na] [Hb Nb]. symmetry.
  destruct a as [s|s| |s m e], b as [s'|s'| |s' m' e']; try done; cbn [SFcompare okey]; f_equal;
    try (apply finite_rank in Ha as Ra); try (apply finite_rank in Hb as Rb);
    try (destruct s, s'; cbn [cond_Zopp]; try reflexivity; (apply Z.compare_lt_iff || apply Z.compare_gt_iff); unfold oinf in *; lia);
    try (destruct s; cbn [cond_Zopp]; try reflexivity; (apply Z.compare_lt_iff || apply Z.compare_gt_iff); unfold oinf in *; lia);
    try (destruct s'; cbn [cond_Zopp]; try reflexivity; (apply Z.compare_lt_iff || apply Z.compare_gt_iff); unfold oinf in *; lia).
  pose proof (rank_lex _ _ _ _ _ _ Ha Hb) as H. destruct s, s'; cbn [cond_Zopp].
  - rewrite Z.compare_opp, Z.compare_antisym, H. by destruct (e ?= e').
  - apply Z.compare_lt_iff. lia.
  - apply Z.compare_gt_iff. lia.
  - rewrite H. by destruct (e ?= e').
Qed.

Lemma flt_okey (a b : float) : fvalid a -> fvalid b -> flt a b = (okey a <? okey b).
Proof. intros Ha Hb. unfold flt, SFltb, Z.ltb. rewrite SFcompare_okey by done. by destruct (okey a ?= okey b). Qed.

Lemma fle_okey (a b : float) : fvalid a -> fvalid b -> fle a b = (okey a <=? okey b).
Proof. intros Ha Hb. unfold fle, SFleb, Z.leb. rewrite SFcompare_okey by done. by destruct (okey a ?= okey b). Qed.

(** ** Sums *)

(** The value of a nonnegative finite number in units of 2^-149. *)
Definition fval (a : float) : Z := match a with S754_finite _ m e => Zpos m * 2 ^ (e + 149) | _ => 0 end.

Lemma rord_canonical (s : bool) (m : positive) (e : Z) : valid_binary 24 128 (S754_finite s m e) = true ->
  rord (Zpos m * 2 ^ (e + 149)) = (e + 149) * 2 ^ 23 + Zpos m.
Proof.
  intros (He & Hm & Hn)%valid_finite. destruct Hn as [->|Hn].
  { change (-149 + 149) with 0. rewrite Z.mul_1_r. apply rord_small. lia. }
  assert (0 < 2 ^ (e + 149)) by (apply Z.pow_pos_nonneg; lia).
  assert (exists V, Zpos V = Zpos m * 2 ^ (e + 149)) as [V HV] by (exists (Z.to_pos (Zpos m * 2 ^ (e + 149))); apply Z2Pos.id; lia).
  rewrite <-HV. unfold rord. cbn [Zdigits2]. rewrite (digits_shift m V (e + 149)) by (done || lia).
  rewrite (digits_unique m 24) by lia. rewrite Z.max_r by lia.
  replace (24 + (e + 149) - 24) with (e + 149) by lia. rewrite HV, rne_exact by lia. done.
Qed.

Definition isinf (a : float) : bool := match a with S754_infinity _ => true | _ => false end.

(** A nonnegative value is infinite, zero, or positive and finite. *)
Inductive cost_view (a : float) : Prop :=
  | CvZero : okey a = 0 -> fval a = 0 -> (exists s, a = S754_zero s) -> cost_view a
  | CvInf : a = S754_infinity false -> cost_view a
  | CvPos m e : a = S754_finite false m e -> valid_binary 24 128 a = true -> cost_view a.

Lemma cost_cases (a : float) : cost_ok a -> cost_view a.
Proof.
  intros [[Hv Hn] H0]. destruct a as [s|[]| |[] m e]; cbn in H0; try done; try (unfold oinf in H0; lia).
  - apply CvZero; eauto.
  - by apply CvInf.
  - apply finite_rank in Hv. lia.
  - by eapply CvPos.
Qed.

Lemma okey_fval (a : float) : cost_ok a -> isinf a = false -> okey a = (if fval a =? 0 then 0 else rord (fval a)) /\ okey a < oinf /\ 0 <= fval a.
Proof.
  intros Ha Hi. destruct (cost_cases a Ha) as [-> -> _| ->|m e -> Hv]; [done|done|].
  cbn [fval okey cond_Zopp]. assert (0 < 2 ^ (e + 149)) by (apply Z.pow_pos_nonneg; apply valid_finite in Hv; lia).
  rewrite (rord_canonical _ _ _ Hv). apply finite_rank in Hv. destruct (Z.eqb_spec (Zpos m * 2 ^ (e + 149)) 0); lia.
Qed.

(** The rank of a sum of two finite costs. *)
Lemma fadd_finite (a b : float) : cost_ok a -> cost_ok b -> isinf a = false -> isinf b = false ->
  cost_ok (fadd a b) /\ okey (fadd a b) = Z.min oinf (if fval a + fval b =? 0 then 0 else rord (fval a + fval b)).
Proof.
  intros Ha Hb Ia Ib.
  destruct (okey_fval a Ha Ia) as (Ka & La & Va), (okey_fval b Hb Ib) as (Kb & Lb & Vb).
  assert (0 <= oinf) by (unfold oinf; lia).
  destruct (cost_cases a Ha) as [Oa Fa [s ->]| ->|m e -> Hv]; [|done|];
    destruct (cost_cases b Hb) as [Ob Fb [s' ->]| ->|m' e' -> Hv']; try done.
  - destruct s, s'; done.
  - cbn [fadd SFadd]. split; [done|]. rewrite Fa, Z.add_0_l. lia.
  - cbn [fadd SFadd]. split; [done|]. rewrite Fb, Z.add_0_r. lia.
  - cbn [fadd SFadd]. apply valid_finite in Hv as (He & _), Hv' as (He' & _).
    destruct (shl_align_eq m e (Z.min e e')) as (p & -> & Hp); [lia|].
    destruct (shl_align_eq m' e' (Z.min e e')) as (p' & -> & Hp'); [lia|]. cbn [fst cond_Zopp].
    destruct (binary_normalize_pos (Zpos p + Zpos p') (Z.min e e') false) as [Hf Ho]; [lia|lia|].
    assert ((Zpos p + Zpos p') * 2 ^ (Z.min e e' + 149) = fval (S754_finite false m e) + fval (S754_finite false m' e')) as HV.
    { cbn [fval]. rewrite Z.mul_add_distr_r, Hp, Hp', <-!Z.mul_assoc, <-!Z.pow_add_r by lia. do 3 f_equal; lia. }
    rewrite HV in Ho. assert (0 < 2 ^ (e + 149)) by (apply Z.pow_pos_nonneg; lia).
    assert (0 < fval (S754_finite false m e)) by (cbn [fval]; lia).
    destruct (Z.eqb_spec (fval (S754_finite false m e) + fval (S754_finite false m' e')) 0); [lia|].
    assert (0 <= rord (fval (S754_finite false m e) + fval (S754_finite false m' e'))).
    { transitivity (rord 1); [done|]. apply rord_mono. lia. }
    split; [split; [exact Hf|]|]; rewrite Ho; lia.
Qed.

Lemma cost_le_oinf (a : float) : cost_ok a -> okey a <= oinf.
Proof.
  intros Ha. destruct (isinf a) eqn:Hi.
  - destruct (cost_cases a Ha) as [? ? [? ->]| ->|m e -> ?]; done.
  - destruct (okey_fval a Ha Hi). lia.
Qed.

Lemma okey_inf (a : float) : cost_ok a -> isinf a = true <-> okey a = oinf.
Proof.
  intros Ha. destruct (isinf a) eqn:Hi.
  - destruct (cost_cases a Ha) as [? ? [? ->]| ->|m e -> ?]; done.
  - destruct (okey_fval a Ha Hi). split; [done|lia].
Qed.

(** A larger rank is a larger value. *)
Lemma fval_mono (a b : float) : cost_ok a -> cost_ok b -> isinf a = false -> isinf b = false -> okey a <= okey b -> fval a <= fval b.
Proof.
  intros Ha Hb Ia Ib Hle. destruct (okey_fval a Ha Ia) as (Ka & _ & Va), (okey_fval b Hb Ib) as (Kb & _ & Vb).
  destruct (Z.le_gt_cases (fval a) (fval b)) as [|Hgt]; [done|]. exfalso.
  assert (okey b <= okey a) as Hba.
  { rewrite Ka, Kb. destruct (Z.eqb_spec (fval a) 0); [lia|]. destruct (Z.eqb_spec (fval b) 0).
    - transitivity (rord 1); [done|apply rord_mono; lia].
    - apply rord_mono. lia. }
  assert (okey a = okey b) as E by lia.
  destruct (cost_cases a Ha) as [Oa Fa [s ->]| ->|m e -> Hv]; [lia|done|].
  destruct (cost_cases b Hb) as [Ob Fb [s' ->]| ->|m' e' -> Hv']; [apply finite_rank in Hv; cbn in E; lia|done|].
  pose proof (rank_lex _ _ _ _ _ _ Hv Hv') as Hlex. cbn [okey cond_Zopp] in E. rewrite E, Z.compare_refl in Hlex.
  destruct (Z.compare_spec e e') as [->| |]; try done. symmetry in Hlex. apply Z.compare_eq in Hlex. injection Hlex as ->. lia.
Qed.

Lemma fadd_inf_l (a b : float) : cost_ok a -> cost_ok b -> isinf a = true \/ isinf b = true -> fadd a b = S754_infinity false.
Proof.
  intros Ha Hb Hi. destruct (cost_cases a Ha) as [? ? [s ->]| ->|m e -> ?], (cost_cases b Hb) as [? ? [s' ->]| ->|m' e' -> ?];
    destruct Hi; done.
Qed.

Lemma fadd_ok (a b : float) : cost_ok a -> cost_ok b -> cost_ok (fadd a b).
Proof.
  intros Ha Hb. destruct (isinf a) eqn:Ia; [by rewrite fadd_inf_l by auto|].
  destruct (isinf b) eqn:Ib; [by rewrite fadd_inf_l by auto|]. by apply fadd_finite.
Qed.

(** Rounding and addition are monotone in both summands. *)
Lemma fadd_mono (a a' b b' : float) : cost_ok a -> cost_ok a' -> cost_ok b -> cost_ok b' ->
  okey a <= okey a' -> okey b <= okey b' -> okey (fadd a b) <= okey (fadd a' b').
Proof.
  intros Ha Ha' Hb Hb' Hle Hle'.
  destruct (isinf a' || isinf b') eqn:Hi.
  { rewrite orb_true_iff in Hi. rewrite (fadd_inf_l a' b') by done. apply cost_le_oinf, fadd_ok; done. }
  apply orb_false_iff in Hi as [Ia' Ib'].
  assert (isinf a = false) as Ia.
  { destruct (isinf a) eqn:E; [|done]. apply (okey_inf a Ha) in E. destruct (okey_fval a' Ha' Ia'). lia. }
  assert (isinf b = false) as Ib.
  { destruct (isinf b) eqn:E; [|done]. apply (okey_inf b Hb) in E. destruct (okey_fval b' Hb' Ib'). lia. }
  rewrite (proj2 (fadd_finite a b Ha Hb Ia Ib)), (proj2 (fadd_finite a' b' Ha' Hb' Ia' Ib')).
  pose proof (fval_mono a a' Ha Ha' Ia Ia' Hle). pose proof (fval_mono b b' Hb Hb' Ib Ib' Hle').
  destruct (okey_fval a Ha Ia) as (_ & _ & ?), (okey_fval b Hb Ib) as (_ & _ & ?).
  destruct (Z.eqb_spec (fval a + fval b) 0), (Z.eqb_spec (fval a' + fval b') 0); try lia.
  - assert (rord 1 <= rord (fval a' + fval b')) by (apply rord_mono; lia). change (rord 1) with 1 in *. unfold oinf. lia.
  - assert (rord (fval a + fval b) <= rord (fval a' + fval b')) by (apply rord_mono; lia). lia.
Qed.

(** Adding a cost never lowers a cost. *)
Lemma fadd_ge (a b : float) : cost_ok a -> cost_ok b -> okey a <= okey (fadd a b).
Proof.
  intros Ha Hb. assert (cost_ok f0) as H0 by done.
  assert (okey (fadd a f0) = okey a) as <-.
  { destruct (cost_cases a Ha) as [? ? [[] ->]| ->|m e -> ?]; done. }
  apply fadd_mono; try done. apply Hb.
Qed.

(** ** Validity of the other operations *)

Lemma fadd_valid (a b : float) : fvalid a -> isfinite a = true -> fvalid b -> fvalid (fadd a b).
Proof.
  intros [Va Na] Fa [Vb Nb]. destruct a as [s|s| |s m e], b as [s'|s'| |s' m' e']; try done; try (by destruct s, s').
  cbn [fadd SFadd]. apply binary_normalize_valid. apply valid_finite in Va, Vb. lia.
Qed.

Lemma fsub_valid (a b : float) : fvalid a -> isfinite a = true -> fvalid b -> fvalid (fsub a b).
Proof.
  intros [Va Na] Fa [Vb Nb]. destruct a as [s|s| |s m e], b as [s'|s'| |s' m' e']; try done; try (by destruct s, s').
  cbn [fsub SFsub]. apply binary_normalize_valid. apply valid_finite in Va, Vb. lia.
Qed.

Lemma digits_product (m m' : positive) : 2 ^ 23 <= Zpos m' -> 24 <= Zpos (digits2_pos (m * m')).
Proof.
  intros Hm'. pose proof (digits2_bounds (m * m')) as Hb.
  destruct (Z.le_gt_cases 24 (Zpos (digits2_pos (m * m')))) as [|Hlt]; [done|].
  assert (2 ^ Zpos (digits2_pos (m * m')) <= 2 ^ 23) by (apply Z.pow_le_mono_r; lia). rewrite Pos2Z.inj_mul in Hb. nia.
Qed.

(** A product with a normal number. *)
Lemma fmul_valid (a : float) (s' : bool) (m' : positive) (e' : Z) : fvalid a -> 2 ^ 23 <= Zpos m' -> fvalid (fmul a (S754_finite s' m' e')).
Proof.
  intros [Va Na] Hm'. destruct a as [s|s| |s m e]; try done. cbn [fmul SFmul].
  apply binary_round_aux_spec. rewrite fexp32_eq. pose proof (digits_product m m' Hm'). lia.
Qed.

Lemma fmul_ok (a : float) (m' : positive) (e' : Z) : cost_ok a -> 2 ^ 23 <= Zpos m' -> cost_ok (fmul a (S754_finite false m' e')).
Proof.
  intros Ha Hm'. split; [apply fmul_valid; [apply Ha|done]|].
  destruct (cost_cases a Ha) as [? ? [s ->]| ->|m e -> ?]; [by destruct s|done|]. cbn [fmul SFmul xorb].
  destruct (binary_round_aux_spec false (m * m') (e + e')) as [_ ->].
  - rewrite fexp32_eq. pose proof (digits_product m m' Hm'). lia.
  - cbn [cond_Zopp]. rewrite fexp32_eq. set (k := Z.max _ _ - _).
    assert (0 <= e + e' + k + 149) by (unfold k; lia).
    assert (0 <= rne (Zpos (m * m')) k); [|unfold oinf; nia].
    pose proof (Z.div_pos (Zpos (m * m')) (2 ^ k)). unfold rne.
    assert (0 < 2 ^ k \/ 2 ^ k = 0) as [Hk|Hk] by (pose proof (Z.pow_nonneg 2 k); lia).
    + repeat case_match; lia.
    + rewrite Hk, Z.div_0_r. repeat case_match; lia.
Qed.

(** An [int] converts to a finite value. *)
Lemma float_of_Z_valid (z : Z) : fvalid (float_of_Z z).
Proof. apply binary_normalize_valid. lia. Qed.

Lemma float_of_Z_finite (z : Z) : 0 <= z <= 2 ^ 31 -> isfinite (float_of_Z z) = true /\ cost_ok (float_of_Z z).
Proof.
  intros Hz. destruct (decide (z = 0)) as [->|Hnz]; [done|].
  destruct (binary_normalize_pos z 0 false) as [Hv Ho]; [lia|lia|]. fold (float_of_Z z) in Hv, Ho.
  assert (rord (z * 2 ^ (0 + 149)) <= rord (2 ^ 31 * 2 ^ (0 + 149))) as Hle by (apply rord_mono; lia).
  assert (rord 1 <= rord (z * 2 ^ (0 + 149))) as H1 by (apply rord_mono; lia).
  change (rord (2 ^ 31 * 2 ^ (0 + 149))) with 1325400064 in Hle. change (rord 1) with 1 in H1.
  assert (0 < okey (float_of_Z z) < oinf) as Hk by (rewrite Ho; unfold oinf; lia).
  split; [|split; [done|lia]]. destruct (float_of_Z z) as [|[]| |]; try done; cbn in Hk; unfold oinf in Hk; lia.
Qed.

Lemma float_of_Z_mono (z z' : Z) : 0 <= z <= z' -> z' <= 2 ^ 31 -> okey (float_of_Z z) <= okey (float_of_Z z').
Proof.
  intros Hz Hz'. destruct (decide (z = 0)) as [->|Hnz]; [apply float_of_Z_finite; lia|].
  destruct (binary_normalize_pos z 0 false) as [_ E]; [lia|lia|]. destruct (binary_normalize_pos z' 0 false) as [_ E']; [lia|lia|].
  unfold float_of_Z. rewrite E, E'. assert (rord (z * 2 ^ (0 + 149)) <= rord (z' * 2 ^ (0 + 149))) by (apply rord_mono; lia). lia.
Qed.

(** A positive integer is a number with an exponent of at least -23. *)
Lemma float_of_Z_exp (z : Z) : 0 < z <= 2 ^ 31 -> exists m e, float_of_Z z = S754_finite false m e /\ -23 <= e /\ valid_binary 24 128 (float_of_Z z) = true.
Proof.
  intros Hz. pose proof (float_of_Z_mono 1 z ltac:(lia) ltac:(lia)) as H1. destruct (float_of_Z_finite z ltac:(lia)) as [Hf Hc].
  change (okey (float_of_Z 1)) with 1065353216 in H1.
  destruct (cost_cases _ Hc) as [H0 _ _|E|m e E Hv]; [lia|by rewrite E in Hf|]. exists m, e. split_and!; try done.
  rewrite E in H1, Hv. cbn [okey cond_Zopp] in H1. apply valid_finite in Hv as (He & Hm & _). nia.
Qed.

(** A product with a constant below one is not larger. *)
Lemma fmul_le (c : positive) (m : positive) (e : Z) : 2 ^ 23 <= Zpos c < 2 ^ 24 -> -23 <= e -> valid_binary 24 128 (S754_finite false m e) = true ->
  cost_ok (fmul (S754_finite false c (-24)) (S754_finite false m e)) /\
  okey (fmul (S754_finite false c (-24)) (S754_finite false m e)) <= okey (S754_finite false m e).
Proof.
  intros Hc He Hv. assert (2 ^ 23 <= Zpos m) as Hm by (apply valid_finite in Hv; lia).
  assert (-24 + e + 149 = 0 + (e + 125)) as Eu by lia.
  destruct (binary_round_aux_spec false (c * m) (-24 + e)) as [Hf Ho]; [rewrite fexp32_eq; pose proof (digits_product c m Hm); lia|].
  cbn [fmul SFmul xorb]. set (f := binary_round_aux 24 128 false (Zpos (c * m)) (-24 + e) loc_Exact) in *.
  assert (exists V, Zpos V = Zpos (c * m) * 2 ^ (e + 125)) as [V HV].
  { assert (0 < 2 ^ (e + 125)) by (apply Z.pow_pos_nonneg; lia). exists (Z.to_pos (Zpos (c * m) * 2 ^ (e + 125))). apply Z2Pos.id. lia. }
  assert (okey f = Z.min oinf (rord (Zpos V))) as Hr.
  { rewrite Ho. cbn [cond_Zopp]. f_equal. unfold rord. cbn [Zdigits2]. rewrite (digits_shift (c * m) V (e + 125)) by (done || lia).
    rewrite fexp32_eq, HV. pose proof (digits_product c m Hm). set (d := Zpos (digits2_pos (c * m))) in *.
    replace (Z.max 0 (d + (e + 125) - 24)) with (d - 24 + (e + 125)) by lia.
    replace (Z.max (d + (-24 + e) - 24) (-149) - (-24 + e)) with (d - 24) by lia. rewrite rne_scale by lia. lia. }
  assert (rord (Zpos V) <= rord (Zpos m * 2 ^ (e + 149))) as Hle.
  { apply rord_mono. rewrite HV. split; [lia|]. replace (e + 149) with (24 + (e + 125)) by lia. rewrite (Z.pow_add_r 2 24 (e + 125)), Pos2Z.inj_mul by lia.
    assert (0 < 2 ^ (e + 125)) by (apply Z.pow_pos_nonneg; lia). nia. }
  rewrite (rord_canonical _ _ _ Hv) in Hle. assert (rord 1 <= rord (Zpos V)) as H1 by (apply rord_mono; lia). change (rord 1) with 1 in H1.
  split; [split; [done|]|]; rewrite Hr; cbn [okey cond_Zopp]; unfold oinf; lia.
Qed.

(** The difference of two costs, the second not larger. *)
Lemma fsub_ok (a b : float) : cost_ok a -> cost_ok b -> isinf a = false -> okey b <= okey a -> cost_ok (fsub a b).
Proof.
  intros Ha Hb Ia Hle. assert (isinf b = false) as Ib.
  { destruct (isinf b) eqn:Eb; [|done]. apply (okey_inf b Hb) in Eb. destruct (okey_fval a Ha Ia). lia. }
  pose proof (fval_mono b a Hb Ha Ib Ia Hle) as Hv.
  destruct (cost_cases a Ha) as [Oa Fa [s ->]| ->|m e -> Va]; [|done|]; destruct (cost_cases b Hb) as [Ob Fb [s' ->]| ->|m' e' -> Vb]; try done.
  - destruct s, s'; done.
  - apply finite_rank in Vb. rewrite Oa in Hle. cbn in Hle. lia.
  - cbn [fsub SFsub]. apply valid_finite in Va as (He & _), Vb as (He' & _).
    destruct (shl_align_eq m e (Z.min e e')) as (p & -> & Hp); [lia|]. destruct (shl_align_eq m' e' (Z.min e e')) as (p' & -> & Hp'); [lia|]. cbn [fst cond_Zopp].
    assert (Zpos p' <= Zpos p) as Hpp.
    { assert (Zpos m * 2 ^ (e + 149) = Zpos p * 2 ^ (Z.min e e' + 149)) as E1 by (rewrite Hp, <-Z.mul_assoc, <-Z.pow_add_r by lia; do 2 f_equal; lia).
      assert (Zpos m' * 2 ^ (e' + 149) = Zpos p' * 2 ^ (Z.min e e' + 149)) as E2 by (rewrite Hp', <-Z.mul_assoc, <-Z.pow_add_r by lia; do 2 f_equal; lia).
      cbn [fval] in Hv. rewrite E1, E2 in Hv. assert (0 < 2 ^ (Z.min e e' + 149)) by (apply Z.pow_pos_nonneg; lia). nia. }
    destruct (decide (Zpos p - Zpos p' = 0)) as [->|Hne]; [done|].
    destruct (binary_normalize_pos (Zpos p - Zpos p') (Z.min e e') false) as [Hf Ho]; [lia|lia|]. split; [exact Hf|]. rewrite Ho.
    assert (0 < 2 ^ (Z.min e e' + 149)) by (apply Z.pow_pos_nonneg; lia).
    assert (rord 1 <= rord ((Zpos p - Zpos p') * 2 ^ (Z.min e e' + 149))) as H1 by (apply rord_mono; nia). change (rord 1) with 1 in H1. unfold oinf. lia.
Qed.

(** ** No sum of moderate costs grows past 2^125: from there on, 2^100 is less than half a unit in the last place *)

Definition two125 : float := S754_finite false 8388608 102.
Definition two100 : float := S754_finite false 8388608 77.

Lemma fadd_bounded (a b : float) : cost_ok a -> cost_ok b -> okey a <= okey two125 -> okey b <= okey two100 -> okey (fadd a b) <= okey two125.
Proof.
  intros Ha Hb Hle Hle'. assert (okey (fadd two125 two100) = okey two125) as <- by (vm_compute; reflexivity).
  apply fadd_mono; done.
Qed.

(** The facts about costs that the searches use. *)
#[export] Hint Resolve fadd_ok fadd_ge : cost.
