(* ===== verification/Proto.v ===== *)
(** The command half of the wire contract (proto/highbar/commands.proto): the
    66 arms of the [AICommand] oneof with the fields of their messages, the
    [CommandBatch] envelope and the structured results.

    A message accessor of an unset sub-message returns the default instance, so
    a [Vector3] field is a plain record; an [optional] scalar is an [option].
    Enumerations that clients send are open in proto3: the last constructor
    carries any other number. *)

From S2P Require Import Prelude Float32.

Record Vector3 := { vx : float; vy : float; vz : float }.

Record DrawAddPointCommand := { DrawAddPoint_position : Vector3; DrawAddPoint_label :
  string }.
Record DrawAddLineCommand := { DrawAddLine_from_position : Vector3;
  DrawAddLine_to_position : Vector3 }.
Record DrawRemovePointCommand := { DrawRemovePoint_position : Vector3 }.
Record SendTextMessageCommand := { SendTextMessage_text : string; SendTextMessage_zone :
  Z }.
Record SetLastPosMessageCommand := { SetLastPosMessage_position : Vector3 }.
Record SendResourcesCommand := { SendResources_resource_id : Z; SendResources_amount :
  float; SendResources_receiving_team_id : Z }.
Record SetMyIncomeShareDirectCommand := { SetMyIncomeShareDirect_resource_id : Z;
  SetMyIncomeShareDirect_share : float }.
Record SetShareLevelCommand := { SetShareLevel_resource_id : Z;
  SetShareLevel_share_level : float }.
Record PauseTeamCommand := { PauseTeam_enable : bool }.
Record GroupAddUnitCommand := { GroupAddUnit_unit_id : Z; GroupAddUnit_group_id : Z }.
Record GroupRemoveUnitCommand := { GroupRemoveUnit_unit_id : Z; GroupRemoveUnit_group_id
  : Z }.
Record InitPathCommand := { InitPath_start_position : Vector3; InitPath_end_position :
  Vector3; InitPath_path_type : Z; InitPath_goal_radius : float }.
Record GetApproxLengthCommand := { GetApproxLength_start_position : Vector3;
  GetApproxLength_end_position : Vector3; GetApproxLength_path_type : Z;
  GetApproxLength_goal_radius : float }.
Record GetNextWaypointCommand := { GetNextWaypoint_path_id : Z }.
Record FreePathCommand := { FreePath_path_id : Z }.
Record GiveMeCommand := { GiveMe_resource_id : Z; GiveMe_amount : float }.
Record GiveMeNewUnitCommand := { GiveMeNewUnit_unit_def_id : Z; GiveMeNewUnit_position :
  Vector3 }.
Record CallLuaRulesCommand := { CallLuaRules_data : string }.
Record CallLuaUICommand := { CallLuaUI_data : string }.
Record CreateSplineFigureCommand := { CreateSplineFigure_position1 : Vector3;
  CreateSplineFigure_position2 : Vector3; CreateSplineFigure_position3 : Vector3;
  CreateSplineFigure_position4 : Vector3; CreateSplineFigure_width : float;
  CreateSplineFigure_arrow : bool; CreateSplineFigure_lifespan : Z;
  CreateSplineFigure_figure_group_id : Z }.
Record CreateLineFigureCommand := { CreateLineFigure_from_position : Vector3;
  CreateLineFigure_to_position : Vector3; CreateLineFigure_width : float;
  CreateLineFigure_arrow : bool; CreateLineFigure_lifespan : Z;
  CreateLineFigure_figure_group_id : Z }.
Record SetFigurePositionCommand := { SetFigurePosition_figure_id : Z;
  SetFigurePosition_position : Vector3 }.
Record SetFigureColorCommand := { SetFigureColor_figure_id : Z; SetFigureColor_r :
  float; SetFigureColor_g : float; SetFigureColor_b : float; SetFigureColor_a : float }.
Record RemoveFigureCommand := { RemoveFigure_figure_id : Z }.
Record DrawUnitCommand := { DrawUnit_unit_def_id : Z; DrawUnit_position : Vector3;
  DrawUnit_rotation : float; DrawUnit_lifespan : Z; DrawUnit_team_id : Z;
  DrawUnit_transparent : bool; DrawUnit_draw_border : bool; DrawUnit_facing : Z }.
Record BuildUnitCommand := { BuildUnit_unit_id : Z; BuildUnit_group_id : Z;
  BuildUnit_options : Z; BuildUnit_timeout : Z; BuildUnit_to_build_unit_def_id : Z;
  BuildUnit_build_position : Vector3; BuildUnit_facing : Z }.
Record StopCommand := { Stop_unit_id : Z; Stop_group_id : Z; Stop_options : Z;
  Stop_timeout : Z }.
Record WaitCommand := { Wait_unit_id : Z; Wait_group_id : Z; Wait_options : Z;
  Wait_timeout : Z }.
Record TimedWaitCommand := { TimedWait_unit_id : Z; TimedWait_group_id : Z;
  TimedWait_options : Z; TimedWait_timeout : Z; TimedWait_wait_time : Z }.
Record SquadWaitCommand := { SquadWait_unit_id : Z; SquadWait_group_id : Z;
  SquadWait_options : Z; SquadWait_timeout : Z; SquadWait_num_units : Z }.
Record DeathWaitCommand := { DeathWait_unit_id : Z; DeathWait_group_id : Z;
  DeathWait_options : Z; DeathWait_timeout : Z; DeathWait_death_unit_id : Z }.
Record GatherWaitCommand := { GatherWait_unit_id : Z; GatherWait_group_id : Z;
  GatherWait_options : Z; GatherWait_timeout : Z }.
Record MoveUnitCommand := { MoveUnit_unit_id : Z; MoveUnit_group_id : Z;
  MoveUnit_options : Z; MoveUnit_timeout : Z; MoveUnit_to_position : Vector3 }.
Record PatrolCommand := { Patrol_unit_id : Z; Patrol_group_id : Z; Patrol_options : Z;
  Patrol_timeout : Z; Patrol_to_position : Vector3 }.
Record FightCommand := { Fight_unit_id : Z; Fight_group_id : Z; Fight_options : Z;
  Fight_timeout : Z; Fight_to_position : Vector3 }.
Record AttackCommand := { Attack_unit_id : Z; Attack_group_id : Z; Attack_options : Z;
  Attack_timeout : Z; Attack_target_unit_id : Z }.
Record AttackAreaCommand := { AttackArea_unit_id : Z; AttackArea_group_id : Z;
  AttackArea_options : Z; AttackArea_timeout : Z; AttackArea_attack_position : Vector3;
  AttackArea_radius : float }.
Record GuardCommand := { Guard_unit_id : Z; Guard_group_id : Z; Guard_options : Z;
  Guard_timeout : Z; Guard_guard_unit_id : Z }.
Record RepairCommand := { Repair_unit_id : Z; Repair_group_id : Z; Repair_options : Z;
  Repair_timeout : Z; Repair_repair_unit_id : Z }.
Record ReclaimUnitCommand := { ReclaimUnit_unit_id : Z; ReclaimUnit_group_id : Z;
  ReclaimUnit_options : Z; ReclaimUnit_timeout : Z; ReclaimUnit_reclaim_unit_id : Z }.
Record ReclaimAreaCommand := { ReclaimArea_unit_id : Z; ReclaimArea_group_id : Z;
  ReclaimArea_options : Z; ReclaimArea_timeout : Z; ReclaimArea_position : Vector3;
  ReclaimArea_radius : float }.
Record ReclaimInAreaCommand := { ReclaimInArea_unit_id : Z; ReclaimInArea_group_id : Z;
  ReclaimInArea_options : Z; ReclaimInArea_timeout : Z; ReclaimInArea_position :
  Vector3; ReclaimInArea_radius : float }.
Record ReclaimFeatureCommand := { ReclaimFeature_unit_id : Z; ReclaimFeature_group_id :
  Z; ReclaimFeature_options : Z; ReclaimFeature_timeout : Z; ReclaimFeature_feature_id :
  Z }.
Record RestoreAreaCommand := { RestoreArea_unit_id : Z; RestoreArea_group_id : Z;
  RestoreArea_options : Z; RestoreArea_timeout : Z; RestoreArea_position : Vector3;
  RestoreArea_radius : float }.
Record ResurrectCommand := { Resurrect_unit_id : Z; Resurrect_group_id : Z;
  Resurrect_options : Z; Resurrect_timeout : Z; Resurrect_feature_id : Z }.
Record ResurrectInAreaCommand := { ResurrectInArea_unit_id : Z; ResurrectInArea_group_id
  : Z; ResurrectInArea_options : Z; ResurrectInArea_timeout : Z;
  ResurrectInArea_position : Vector3; ResurrectInArea_radius : float }.
Record CaptureCommand := { Capture_unit_id : Z; Capture_group_id : Z; Capture_options :
  Z; Capture_timeout : Z; Capture_target_unit_id : Z }.
Record CaptureAreaCommand := { CaptureArea_unit_id : Z; CaptureArea_group_id : Z;
  CaptureArea_options : Z; CaptureArea_timeout : Z; CaptureArea_position : Vector3;
  CaptureArea_radius : float }.
Record SetBaseCommand := { SetBase_unit_id : Z; SetBase_group_id : Z; SetBase_options :
  Z; SetBase_timeout : Z; SetBase_base_position : Vector3 }.
Record SelfDestructCommand := { SelfDestruct_unit_id : Z; SelfDestruct_group_id : Z;
  SelfDestruct_options : Z; SelfDestruct_timeout : Z }.
Record LoadUnitsCommand := { LoadUnits_unit_id : Z; LoadUnits_group_id : Z;
  LoadUnits_options : Z; LoadUnits_timeout : Z; LoadUnits_to_load_unit_ids : list Z }.
Record LoadUnitsAreaCommand := { LoadUnitsArea_unit_id : Z; LoadUnitsArea_group_id : Z;
  LoadUnitsArea_options : Z; LoadUnitsArea_timeout : Z; LoadUnitsArea_position :
  Vector3; LoadUnitsArea_radius : float }.
Record LoadOntoCommand := { LoadOnto_unit_id : Z; LoadOnto_group_id : Z;
  LoadOnto_options : Z; LoadOnto_timeout : Z; LoadOnto_transport_unit_id : Z }.
Record UnloadUnitCommand := { UnloadUnit_unit_id : Z; UnloadUnit_group_id : Z;
  UnloadUnit_options : Z; UnloadUnit_timeout : Z; UnloadUnit_to_position : Vector3;
  UnloadUnit_to_unload_unit_id : Z }.
Record UnloadUnitsAreaCommand := { UnloadUnitsArea_unit_id : Z; UnloadUnitsArea_group_id
  : Z; UnloadUnitsArea_options : Z; UnloadUnitsArea_timeout : Z;
  UnloadUnitsArea_to_position : Vector3; UnloadUnitsArea_radius : float }.
Record SetWantedMaxSpeedCommand := { SetWantedMaxSpeed_unit_id : Z;
  SetWantedMaxSpeed_group_id : Z; SetWantedMaxSpeed_options : Z;
  SetWantedMaxSpeed_timeout : Z; SetWantedMaxSpeed_wanted_max_speed : float }.
Record StockpileCommand := { Stockpile_unit_id : Z; Stockpile_group_id : Z;
  Stockpile_options : Z; Stockpile_timeout : Z }.
Record DGunCommand := { DGun_unit_id : Z; DGun_group_id : Z; DGun_options : Z;
  DGun_timeout : Z; DGun_target_unit_id : Z }.
Record CustomCommand := { Custom_unit_id : Z; Custom_group_id : Z; Custom_options : Z;
  Custom_timeout : Z; Custom_command_id : Z; Custom_params : list float }.
Record SetOnOffCommand := { SetOnOff_unit_id : Z; SetOnOff_group_id : Z;
  SetOnOff_options : Z; SetOnOff_timeout : Z; SetOnOff_on : bool }.
Record SetRepeatCommand := { SetRepeat_unit_id : Z; SetRepeat_group_id : Z;
  SetRepeat_options : Z; SetRepeat_timeout : Z; SetRepeat_repeat : bool }.
Record SetMoveStateCommand := { SetMoveState_unit_id : Z; SetMoveState_group_id : Z;
  SetMoveState_options : Z; SetMoveState_timeout : Z; SetMoveState_move_state : Z }.
Record SetFireStateCommand := { SetFireState_unit_id : Z; SetFireState_group_id : Z;
  SetFireState_options : Z; SetFireState_timeout : Z; SetFireState_fire_state : Z }.
Record SetTrajectoryCommand := { SetTrajectory_unit_id : Z; SetTrajectory_group_id : Z;
  SetTrajectory_options : Z; SetTrajectory_timeout : Z; SetTrajectory_trajectory : Z }.
Record SetAutoRepairLevelCommand := { SetAutoRepairLevel_unit_id : Z;
  SetAutoRepairLevel_group_id : Z; SetAutoRepairLevel_options : Z;
  SetAutoRepairLevel_timeout : Z; SetAutoRepairLevel_auto_repair_level : Z }.
Record SetIdleModeCommand := { SetIdleMode_unit_id : Z; SetIdleMode_group_id : Z;
  SetIdleMode_options : Z; SetIdleMode_timeout : Z; SetIdleMode_idle_mode : Z }.

Inductive AICommand :=
  | COMMAND_NOT_SET
  | kDrawAddPoint (m : DrawAddPointCommand)
  | kDrawAddLine (m : DrawAddLineCommand)
  | kDrawRemovePoint (m : DrawRemovePointCommand)
  | kSendTextMessage (m : SendTextMessageCommand)
  | kSetLastPosMessage (m : SetLastPosMessageCommand)
  | kSendResources (m : SendResourcesCommand)
  | kSetMyIncomeShareDirect (m : SetMyIncomeShareDirectCommand)
  | kSetShareLevel (m : SetShareLevelCommand)
  | kPauseTeam (m : PauseTeamCommand)
  | kGroupAddUnit (m : GroupAddUnitCommand)
  | kGroupRemoveUnit (m : GroupRemoveUnitCommand)
  | kInitPath (m : InitPathCommand)
  | kGetApproxLength (m : GetApproxLengthCommand)
  | kGetNextWaypoint (m : GetNextWaypointCommand)
  | kFreePath (m : FreePathCommand)
  | kGiveMe (m : GiveMeCommand)
  | kGiveMeNewUnit (m : GiveMeNewUnitCommand)
  | kCallLuaRules (m : CallLuaRulesCommand)
  | kCallLuaUi (m : CallLuaUICommand)
  | kCreateSplineFigure (m : CreateSplineFigureCommand)
  | kCreateLineFigure (m : CreateLineFigureCommand)
  | kSetFigurePosition (m : SetFigurePositionCommand)
  | kSetFigureColor (m : SetFigureColorCommand)
  | kRemoveFigure (m : RemoveFigureCommand)
  | kDrawUnit (m : DrawUnitCommand)
  | kBuildUnit (m : BuildUnitCommand)
  | kStop (m : StopCommand)
  | kWait (m : WaitCommand)
  | kTimedWait (m : TimedWaitCommand)
  | kSquadWait (m : SquadWaitCommand)
  | kDeathWait (m : DeathWaitCommand)
  | kGatherWait (m : GatherWaitCommand)
  | kMoveUnit (m : MoveUnitCommand)
  | kPatrol (m : PatrolCommand)
  | kFight (m : FightCommand)
  | kAttack (m : AttackCommand)
  | kAttackArea (m : AttackAreaCommand)
  | kGuard (m : GuardCommand)
  | kRepair (m : RepairCommand)
  | kReclaimUnit (m : ReclaimUnitCommand)
  | kReclaimArea (m : ReclaimAreaCommand)
  | kReclaimInArea (m : ReclaimInAreaCommand)
  | kReclaimFeature (m : ReclaimFeatureCommand)
  | kRestoreArea (m : RestoreAreaCommand)
  | kResurrect (m : ResurrectCommand)
  | kResurrectInArea (m : ResurrectInAreaCommand)
  | kCapture (m : CaptureCommand)
  | kCaptureArea (m : CaptureAreaCommand)
  | kSetBase (m : SetBaseCommand)
  | kSelfDestruct (m : SelfDestructCommand)
  | kLoadUnits (m : LoadUnitsCommand)
  | kLoadUnitsArea (m : LoadUnitsAreaCommand)
  | kLoadOnto (m : LoadOntoCommand)
  | kUnloadUnit (m : UnloadUnitCommand)
  | kUnloadUnitsArea (m : UnloadUnitsAreaCommand)
  | kSetWantedMaxSpeed (m : SetWantedMaxSpeedCommand)
  | kStockpile (m : StockpileCommand)
  | kDgun (m : DGunCommand)
  | kCustom (m : CustomCommand)
  | kSetOnOff (m : SetOnOffCommand)
  | kSetRepeat (m : SetRepeatCommand)
  | kSetMoveState (m : SetMoveStateCommand)
  | kSetFireState (m : SetFireStateCommand)
  | kSetTrajectory (m : SetTrajectoryCommand)
  | kSetAutoRepairLevel (m : SetAutoRepairLevelCommand)
  | kSetIdleMode (m : SetIdleModeCommand).

Inductive CommandConflictPolicy :=
  | COMMAND_CONFLICT_POLICY_UNSPECIFIED
  | COMMAND_CONFLICT_REJECT_IF_BUSY
  | COMMAND_CONFLICT_QUEUE_AFTER_CURRENT
  | COMMAND_CONFLICT_REPLACE_CURRENT
  | COMMAND_CONFLICT_OTHER (n : Z).

Inductive ValidationMode :=
  | VALIDATION_MODE_UNSPECIFIED
  | VALIDATION_MODE_COMPATIBILITY
  | VALIDATION_MODE_WARNING_ONLY
  | VALIDATION_MODE_STRICT.

Inductive CommandBatchStatus :=
  | COMMAND_BATCH_STATUS_UNSPECIFIED
  | COMMAND_BATCH_ACCEPTED
  | COMMAND_BATCH_REJECTED_INVALID
  | COMMAND_BATCH_REJECTED_QUEUE_FULL
  | COMMAND_BATCH_REJECTED_STALE
  | COMMAND_BATCH_REJECTED_CONFLICT
  | COMMAND_BATCH_ACCEPTED_WITH_WARNINGS.

Inductive RetryHint :=
  | RETRY_HINT_UNSPECIFIED
  | RETRY_NEVER
  | RETRY_AFTER_NEXT_SNAPSHOT
  | RETRY_AFTER_UNIT_IDLE
  | RETRY_AFTER_QUEUE_DRAINS
  | RETRY_WITH_FRESH_CAPABILITIES.

Inductive CommandIssueCode :=
  | COMMAND_ISSUE_CODE_UNSPECIFIED
  | EMPTY_COMMAND
  | TOO_MANY_COMMANDS
  | MISSING_COMMAND_INTENT
  | MULTIPLE_COMMAND_INTENTS
  | MISSING_TARGET_UNIT
  | TARGET_DRIFT
  | TARGET_UNIT_NOT_OWNED
  | TARGET_UNIT_DEAD
  | UNKNOWN_UNIT_DEF
  | BUILDER_CANNOT_BUILD_DEF
  | POSITION_NON_FINITE
  | POSITION_OUT_OF_MAP
  | INVALID_OPTION_BITS
  | INVALID_ENUM_VALUE
  | INVALID_TARGET_UNIT
  | INVALID_TARGET_FEATURE
  | QUEUE_FULL
  | STALE_OR_DUPLICATE_BATCH_SEQ
  | STALE_SNAPSHOT_EPOCH
  | STALE_UNIT_GENERATION
  | ORDER_CONFLICT
  | NON_QUEUE_REPLACES_ACTIVE_ORDER
  | COMMAND_ARM_NOT_DISPATCHED
  | COMMAND_REQUIRES_ADMIN_CHANNEL
  | LEGACY_AI_ADMIN_COMMAND_DISABLED
  | MISSING_CLIENT_COMMAND_ID
  | MISSING_STATE_BASIS.

#[export] Instance CommandConflictPolicy_eq_dec : EqDecision CommandConflictPolicy.
Proof. solve_decision. Defined.
#[export] Instance ValidationMode_eq_dec : EqDecision ValidationMode.
Proof. solve_decision. Defined.
#[export] Instance CommandBatchStatus_eq_dec : EqDecision CommandBatchStatus.
Proof. solve_decision. Defined.
#[export] Instance RetryHint_eq_dec : EqDecision RetryHint.
Proof. solve_decision. Defined.
#[export] Instance CommandIssueCode_eq_dec : EqDecision CommandIssueCode.
Proof. solve_decision. Defined.

(** [batch_options] and [target_generation] are read by no code of the
    gateway; they are kept so that a batch is the whole message. *)
Record CommandBatch := {
  batch_seq : Z;
  target_unit_id : Z;
  commands : list AICommand;
  batch_options : option Z;
  client_command_id : option Z;
  based_on_frame : option Z;
  based_on_state_seq : option Z;
  target_generation : option (Z * Z);
  conflict_policy : CommandConflictPolicy;
}.

(** A scalar with presence: [has_f()] and [f()] (0 when unset). *)
Definition has {A} (o : option A) : bool := match o with Some _ => true | None => false end.
Definition get0 (o : option Z) : Z := default 0 o.

Record CommandIssue := {
  issue_code : CommandIssueCode;
  issue_command_index : Z;
  issue_field_path : string;
  issue_detail : string;
  issue_retry_hint : RetryHint;
  issue_batch_seq : Z;
  issue_client_command_id : Z;
}.

(** A default-constructed [CommandIssue]. *)
Definition CommandIssue_default : CommandIssue := {|
  issue_code := COMMAND_ISSUE_CODE_UNSPECIFIED; issue_command_index := 0;
  issue_field_path := ""; issue_detail := "";
  issue_retry_hint := RETRY_HINT_UNSPECIFIED;
  issue_batch_seq := 0; issue_client_command_id := 0 |}.

(** The protobuf message of proto/highbar/commands.proto (the struct of the
    same name in CommandQueue.h is [CommandQueue.CommandBatchResult]). *)
Record BatchResult := {
  result_batch_seq : Z;
  result_client_command_id : Z;
  result_status : CommandBatchStatus;
  result_issues : list CommandIssue;
  result_accepted_command_count : Z;
  result_queued_frame : Z;
  result_mode : ValidationMode;
  result_would_reject : bool;
}.

Definition BatchResult_default : BatchResult := {|
  result_batch_seq := 0; result_client_command_id := 0;
  result_status := COMMAND_BATCH_STATUS_UNSPECIFIED; result_issues := [];
  result_accepted_command_count := 0; result_queued_frame := 0;
  result_mode := VALIDATION_MODE_UNSPECIFIED; result_would_reject := false |}.
