(* ===== verification/CircularBuffer.v ===== *)
(** Ring-indexed arrays: the storage discipline that [RingBuffer::entries_]
    and [Counters::flush_samples_] share.

    A ring is a fixed array, the next write position and the number of live
    slots.  [ring_ok] relates it to the list of everything ever written: slot
    [i mod cap] holds the [i]-th write as long as that write is one of the last
    [cap].  The two components instantiate these lemmas. *)

From S2P Require Import Prelude.

#[local] Open Scope nat_scope.

(** Stepping an index backwards, [(idx + cap - 1) % cap], undoes one forward
    step. *)
Lemma mod_pred (cap n : nat) : 0 < cap -> 0 < n ->
  (n mod cap + cap - 1) mod cap = (n - 1) mod cap.
Proof.
  intros Hc Hn. pose proof (Nat.div_mod_eq n cap) as E.
  pose proof (Nat.mod_upper_bound n cap ltac:(lia)) as B.
  set (r := n mod cap) in *. set (q := n / cap) in *. clearbody r q.
  destruct (decide (r = 0)) as [->|].
  - destruct q as [|q]; [lia|].
    replace (n - 1) with ((cap - 1) + q * cap) by lia.
    rewrite Nat.Div0.mod_add. f_equal; lia.
  - replace (r + cap - 1) with ((r - 1) + 1 * cap) by lia.
    replace (n - 1) with ((r - 1) + q * cap) by nia.
    by rewrite !Nat.Div0.mod_add.
Qed.

Lemma mod_succ_step (cap n : nat) : (n mod cap + 1) mod cap = (n + 1) mod cap.
Proof. apply Nat.Div0.add_mod_idemp_l. Qed.

(** Two positions of one window never share a slot. *)
Lemma mod_inj_window (cap i j : nat) : 0 < cap ->
  i mod cap = j mod cap -> i <= j -> j < i + cap -> i = j.
Proof.
  intros Hc E Hle Hlt.
  pose proof (Nat.div_mod_eq i cap). pose proof (Nat.div_mod_eq j cap).
  assert (i / cap = j / cap) by nia. nia.
Qed.

Section Ring.
Context {A : Type}.

(** [entries_[head_] = e; head_ = (head_ + 1) % cap; if (filled_ < cap) ++filled_]. *)
Definition ring_write (cap : nat) (r : list A * nat * nat) (e : A) : list A * nat * nat :=
  let '(entries, head, filled) := r in
  (<[head := e]> entries, (head + 1) mod cap,
   if filled <? cap then filled + 1 else filled).

(** The loop that copies [count] entries backwards from [idx]. *)
Fixpoint ring_read_back (cap : nat) (entries : list A) (idx count : nat) : list A :=
  match count with
  | O => []
  | S k =>
      match entries !! idx with
      | Some e => e :: ring_read_back cap entries ((idx + cap - 1) mod cap) k
      | None => []
      end
  end.

Record ring_ok (cap : nat) (r : list A * nat * nat) (hist : list A) : Prop := {
  ring_cap_pos : 0 < cap;
  ring_length : length r.1.1 = cap;
  ring_head : r.1.2 = length hist mod cap;
  ring_filled : r.2 = cap `min` length hist;
  ring_slot : forall i, i < length hist -> length hist <= i + cap ->
    r.1.1 !! (i mod cap) = hist !! i;
}.

Lemma ring_ok_init (cap : nat) (a : A) : 0 < cap ->
  ring_ok cap (replicate cap a, 0, 0) [].
Proof.
  intros Hc. constructor; cbn; try done.
  - apply length_replicate.
  - by rewrite Nat.Div0.mod_0_l.
  - lia.
  - intros; lia.
Qed.

Lemma ring_ok_write (cap : nat) (r : list A * nat * nat) (hist : list A) (e : A) :
  ring_ok cap r hist -> ring_ok cap (ring_write cap r e) (hist ++ [e]).
Proof.
  destruct r as [[entries head] filled].
  intros [Hc Hl Hh Hf Hs]; cbn in *. subst head filled.
  assert (Hb : length hist mod cap < cap) by (apply Nat.mod_upper_bound; lia).
  constructor; cbn; rewrite ?length_app; cbn; auto.
  - by rewrite length_insert.
  - apply mod_succ_step.
  - case_match eqn:E; [apply Nat.ltb_lt in E | apply Nat.ltb_ge in E]; lia.
  - intros i Hi Hw. destruct (decide (i = length hist)) as [->|Hne].
    + rewrite list_lookup_insert_eq by lia. by rewrite list_lookup_middle.
    + rewrite lookup_app_l by lia. rewrite list_lookup_insert_ne; [apply Hs; lia|].
      intros E. apply Hne. symmetry in E. eapply mod_inj_window; eauto; lia.
Qed.

(** Reading [count <= min cap n] entries back from the newest yields the last
    [count] writes, newest first. *)
Lemma ring_read_back_spec (cap : nat) (r : list A * nat * nat) (hist : list A) :
  ring_ok cap r hist -> forall count n, count <= n -> n <= length hist ->
  length hist <= (n - count) + cap ->
  ring_read_back cap r.1.1 ((n mod cap + cap - 1) mod cap) count
  = reverse (drop (n - count) (take n hist)).
Proof.
  intros [Hc Hl Hh Hf Hs]. induction count as [|k IH]; intros n Hk Hn Hw.
  - cbn. rewrite drop_ge; [done|]. rewrite length_take. lia.
  - cbn [ring_read_back]. rewrite mod_pred by lia.
    rewrite Hs by lia.
    destruct (hist !! (n - 1)) as [e|] eqn:E;
      [|apply lookup_ge_None in E; lia].
    rewrite IH by lia.
    replace (drop (n - S k) (take n hist))
      with (drop (n - 1 - k) (take (n - 1) hist) ++ [e]).
    + rewrite reverse_app. done.
    + assert (Et : take n hist = take (n - 1) hist ++ [e]).
      { rewrite <- (take_S_r _ _ _ E). f_equal; lia. }
      rewrite Et.
      rewrite drop_app_le by (rewrite length_take; lia).
      f_equal; f_equal; lia.
Qed.

(** The live prefix of the array is a permutation of the last writes: what
    [snap.assign(begin, begin + filled_)] copies. *)
Lemma ring_live_Permutation (cap : nat) (r : list A * nat * nat) (hist : list A) :
  ring_ok cap r hist -> take r.2 r.1.1 ≡ₚ last_n cap hist.
Proof.
  intros [Hc Hl Hh Hf Hs].
  destruct r as [[entries head] filled]; cbn in *. subst head filled.
  destruct (decide (length hist <= cap)) as [Hle|Hgt].
  - rewrite last_n_all by done. apply reflexive_eq, list_eq. intros i.
    destruct (decide (i < length hist)).
    + rewrite lookup_take_lt by lia. rewrite <- Hs by lia.
      by rewrite Nat.mod_small by lia.
    + rewrite !lookup_ge_None_2; [done | lia | rewrite length_take; lia].
  - rewrite take_ge by lia.
    set (d := length hist mod cap).
    assert (Hd : d < cap) by (apply Nat.mod_upper_bound; lia).
    transitivity (drop d entries ++ take d entries);
      [rewrite <- (take_drop d entries) at 1; apply Permutation_app_comm|].
    apply reflexive_eq, list_eq. intros i.
    unfold last_n. rewrite lookup_drop.
    assert (Hld : length (drop d entries) = cap - d) by (rewrite length_drop; lia).
    destruct (decide (i < cap)) as [Hi|Hi].
    + rewrite <- Hs by lia.
      replace (length hist - cap + i) with (length hist + i - cap) by lia.
      assert (E : (length hist + i - cap) mod cap = (d + i) mod cap).
      { unfold d. rewrite Nat.Div0.add_mod_idemp_l.
        rewrite <- (Nat.Div0.mod_add (length hist + i - cap) 1 cap).
        f_equal; lia. }
      rewrite E. destruct (decide (d + i < cap)).
      * rewrite lookup_app_l by lia. rewrite lookup_drop. by rewrite Nat.mod_small by lia.
      * rewrite lookup_app_r by lia. rewrite Hld.
        rewrite lookup_take_lt by lia.
        f_equal. transitivity (((d + i - cap) + 1 * cap) mod cap); [|f_equal; lia].
        rewrite Nat.Div0.mod_add, Nat.mod_small; lia.
    + rewrite !lookup_ge_None_2; [done | lia |].
      rewrite length_app, length_take; lia.
Qed.

End Ring.

Arguments ring_ok {A} _ _ _.
#[export] Hint Resolve ring_ok_init ring_ok_write : gw.
