(* ===== verification/RingBuffer.v ===== *)
(** The resume-history ring (grpc/RingBuffer.h, grpc/RingBuffer.cpp): the last
    [capacity_] serialized [StateUpdate]s keyed by sequence number.

    [New], [Push], [GetFromSeq], [HeadSeq] and [Size] are the class's members;
    each runs under [mutex_], so it is one atomic state transition.  [reach]
    relates a buffer to the list of everything pushed into it, and the theorems
    say what a resume request returns in terms of that list. *)

From S2P Require Import Prelude CircularBuffer.

(** A [shared_ptr<const std::string>] payload: [None] is the null pointer of a
    default-constructed slot. *)
Record RingEntry := { seq : Z; payload : option string }.

#[export] Instance RingEntry_eq_dec : EqDecision RingEntry.
Proof. solve_decision. Defined.

Record RingBuffer := {
  capacity_ : nat;
  entries_ : list RingEntry;
  head_ : nat;
  filled_ : nat;
  head_seq_ : Z;
}.

Definition New (capacity : nat) : res RingBuffer :=
  if decide (capacity = 0%nat)
  then Throw (invalid_argument "RingBuffer capacity must be > 0")
  else Ok {| capacity_ := capacity;
             entries_ := replicate capacity {| seq := 0; payload := None |};
             head_ := 0; filled_ := 0; head_seq_ := 0 |}.

Definition Push (r : RingBuffer) (s : Z) (p : option string) : res RingBuffer :=
  if negb (head_seq_ r =? 0) && (s <=? head_seq_ r)
  then Throw (invalid_argument "RingBuffer::Push: seq must be strictly increasing")
  else
    let '(entries, head, filled) :=
      ring_write (capacity_ r) (entries_ r, head_ r, filled_ r)
                 {| seq := s; payload := p |} in
    Ok {| capacity_ := capacity_ r; entries_ := entries; head_ := head;
          filled_ := filled; head_seq_ := s |}.

Definition GetFromSeq (r : RingBuffer) (from_seq : Z) : option (list RingEntry) :=
  if decide (filled_ r = 0%nat) then None
  else
    let tail_seq := u64 (head_seq_ r - (Z.of_nat (filled_ r) - 1)) in
    if u64 (from_seq + 1) <? tail_seq then None
    else if head_seq_ r <? from_seq then None
    else if from_seq =? head_seq_ r then Some []
    else
      let count := Z.to_nat (u64 (head_seq_ r - from_seq)) in
      let idx := ((head_ r + capacity_ r - 1) mod capacity_ r)%nat in
      Some (reverse (ring_read_back (capacity_ r) (entries_ r) idx count)).

Definition HeadSeq (r : RingBuffer) : Z := head_seq_ r.
Definition Size (r : RingBuffer) : nat := filled_ r.

(** * Reachable buffers *)

(** [reach r hist]: [r] is what the constructor and the successful pushes of
    [hist], in that order, leave behind. *)
Inductive reach : RingBuffer -> list RingEntry -> Prop :=
  | reach_new cap r : New cap = Ok r -> reach r []
  | reach_push r hist s p r' :
      reach r hist -> Push r s p = Ok r' ->
      reach r' (hist ++ [{| seq := s; payload := p |}]).

(** What the gateway pushes: sequence numbers 1, 2, 3, ... without gaps. *)
Definition gapless (hist : list RingEntry) : Prop :=
  forall i e, hist !! i = Some e -> seq e = Z.of_nat i + 1.

(** Every sequence number is a positive [uint64]. *)
Definition positive (hist : list RingEntry) : Prop :=
  Forall (fun e => 1 <= seq e < 2 ^ 64) hist.

Definition last_seq (hist : list RingEntry) : Z := default 0 (seq <$> last hist).

#[export] Hint Constructors reach : gw.

Lemma Push_Ok r s p r' : Push r s p = Ok r' ->
  (head_seq_ r = 0 \/ head_seq_ r < s) /\
  r' = {| capacity_ := capacity_ r;
          entries_ := <[head_ r := {| seq := s; payload := p |}]> (entries_ r);
          head_ := ((head_ r + 1) mod capacity_ r)%nat;
          filled_ := (if filled_ r <? capacity_ r then filled_ r + 1 else filled_ r)%nat;
          head_seq_ := s |}.
Proof.
  unfold Push, ring_write. case_match eqn:E; intros [= <-]. split; [|done].
  apply andb_false_iff in E as [E|E]; bools; lia.
Qed.

(** Pushing a list of entries, stopping at the first exception. *)
Fixpoint push_all (r : RingBuffer) (l : list RingEntry) : res RingBuffer :=
  match l with
  | [] => Ok r
  | e :: l' => r' ← Push r (seq e) (payload e); push_all r' l'
  end.

Lemma push_all_reach r hist l r' :
  reach r hist -> push_all r l = Ok r' -> reach r' (hist ++ l).
Proof.
  revert r hist. induction l as [|e l IH]; intros r hist Hr; cbn [push_all].
  - intros [= <-]. by rewrite app_nil_r.
  - intros (r1 & Hp & Hl)%res_bind_Ok.
    rewrite cons_middle, app_assoc. eapply IH; [|exact Hl].
    destruct e. eapply reach_push; eauto.
Qed.

(** The ring invariant of every reachable buffer. *)
Lemma reach_ok r hist : reach r hist ->
  ring_ok (capacity_ r) (entries_ r, head_ r, filled_ r) hist /\
  head_seq_ r = last_seq hist.
Proof.
  induction 1 as [cap r Hn | r hist s p r' Hr [IH IHs] Hp].
  - unfold New in Hn. cases. cbn. split; [apply ring_ok_init; lia|done].
  - apply Push_Ok in Hp as [_ ->]. cbn. split.
    + exact (ring_ok_write _ _ _ _ IH).
    + unfold last_seq. by rewrite last_snoc.
Qed.

Lemma positive_snoc hist e :
  positive (hist ++ [e]) <-> positive hist /\ 1 <= seq e < 2 ^ 64.
Proof. unfold positive. rewrite Forall_app, Forall_singleton. done. Qed.

(** Positive sequence numbers outrun their positions: no unsigned underflow in
    [head_seq_ - (filled_ - 1)]. *)
Lemma reach_last_seq r hist : reach r hist -> positive hist ->
  Z.of_nat (length hist) <= last_seq hist < 2 ^ 64.
Proof.
  induction 1 as [cap r Hn | r hist s p r' Hr IH Hp]; intros Hpos; [done|].
  apply positive_snoc in Hpos as [Hpos Hs]. specialize (IH Hpos). cbn in Hs.
  apply reach_ok in Hr as [_ Hh].
  apply Push_Ok in Hp as [Hlt _]. rewrite Hh in Hlt.
  unfold last_seq. rewrite last_snoc, length_app; cbn. fold (last_seq hist). lia.
Qed.

Lemma gapless_last hist : gapless hist -> last_seq hist = Z.of_nat (length hist).
Proof.
  intros Hg. unfold last_seq. rewrite last_lookup.
  destruct hist as [|e hist]; [done|]. cbn [length].
  destruct ((e :: hist) !! Nat.pred (S (length hist))) as [e'|] eqn:E.
  - cbn. rewrite (Hg _ _ E). lia.
  - apply lookup_ge_None in E. cbn in E. lia.
Qed.

Lemma gapless_positive hist :
  gapless hist -> Z.of_nat (length hist) < 2 ^ 64 -> positive hist.
Proof.
  intros Hg Hb. apply Forall_lookup. intros i e He. rewrite (Hg _ _ He).
  apply lookup_lt_Some in He. lia.
Qed.

(** For any strictly increasing history (gaps allowed) a successful resume
    returns a suffix of what was pushed: the copy loop never touches a slot
    outside the live window. *)
Lemma GetFromSeq_suffix r hist from l :
  reach r hist -> positive hist -> is_u64 from ->
  GetFromSeq r from = Some l -> l = last_n (Z.to_nat (last_seq hist - from)) hist.
Proof.
  intros Hr Hpos Hf. pose proof (reach_last_seq _ _ Hr Hpos) as Hls.
  destruct (reach_ok _ _ Hr) as [Hok Hh]. pose proof Hok as [Hc Hl Hhd Hfi Hs].
  cbn in *. unfold GetFromSeq, is_u64 in *. intros H.
  assert (Hn : (1 <= length hist)%nat) by (destruct hist; cbn in *; cases; lia).
  rewrite Hh, Hfi in H. repeat case_decide; try done.
  rewrite (u64_small (_ - _)) in H by lia.
  destruct (decide (from = 2 ^ 64 - 1)) as [->|].
  { change (u64 (2 ^ 64 - 1 + 1)) with 0 in H. case_match; bools; [done|lia]. }
  rewrite u64_small in H by lia.
  case_match eqn:E1; [done|]. case_match eqn:E2; [done|]. bools.
  case_match eqn:E3; bools; simplify_eq.
  { unfold last_n. rewrite drop_ge; [done|lia]. }
  rewrite u64_small by lia. rewrite Hhd.
  rewrite (ring_read_back_spec _ _ _ Hok _ (length hist)) by lia.
  rewrite reverse_involutive. unfold last_n. by rewrite take_ge.
Qed.

(** When a resume is answered at all. *)
Lemma GetFromSeq_is_Some r hist from :
  reach r hist -> positive hist -> last_seq hist + 1 < 2 ^ 64 -> is_u64 from ->
  is_Some (GetFromSeq r from) <->
  hist <> [] /\
  last_seq hist - Z.of_nat (capacity_ r `min` length hist) <= from <= last_seq hist.
Proof.
  intros Hr Hpos Hb Hf. pose proof (reach_last_seq _ _ Hr Hpos) as Hls.
  destruct (reach_ok _ _ Hr) as [[Hc Hl Hhd Hfi Hs] Hh]; cbn in *.
  unfold GetFromSeq, is_u64 in *. rewrite Hh, Hfi.
  destruct hist as [|e hist]; cbn [length] in *.
  { rewrite Nat.min_0_r. cbn. split; [by intros []|by intros []]. }
  rewrite decide_False by lia. rewrite (u64_small (_ - (_ - _))) by lia.
  destruct (decide (from = 2 ^ 64 - 1)) as [->|].
  - change (u64 (2 ^ 64 - 1 + 1)) with 0. case_match; bools; [|lia].
    split; [by intros []|lia].
  - rewrite u64_small by lia.
    repeat case_match; bools; split; intros Hx;
      solve [by destruct Hx | split; [done|lia] | lia | eauto].
Qed.

(** The answer on a gapless history, exactly. *)
Lemma GetFromSeq_exact (r : RingBuffer) (hist : list RingEntry) (from : Z) :
  reach r hist -> gapless hist -> Z.of_nat (length hist) + 1 < 2 ^ 64 ->
  is_u64 from ->
  GetFromSeq r from =
    if decide (hist <> [] /\
               Z.of_nat (length hist) - Z.of_nat (capacity_ r) <= from <= Z.of_nat (length hist))
    then Some (drop (Z.to_nat from) hist)
    else None.
Proof.
  intros Hr Hg Hb Hf.
  assert (Hpos : positive hist) by (apply gapless_positive; [done|lia]).
  pose proof (gapless_last _ Hg) as Hls.
  pose proof (GetFromSeq_is_Some r hist from Hr Hpos ltac:(lia) Hf) as Hsome.
  rewrite Hls in Hsome.
  destruct (GetFromSeq r from) as [l|] eqn:E; unfold is_u64 in *.
  - destruct Hsome as [[Hne Hrange] _]; [eauto|]. rewrite decide_True by (split; [done|lia]).
    rewrite (GetFromSeq_suffix _ _ _ _ Hr Hpos Hf E), Hls.
    unfold last_n. do 2 f_equal. lia.
  - rewrite decide_False; [done|]. intros [Hne Hrange].
    destruct Hsome as [_ [? [=]]]. split; [done|lia].
Qed.

(** C5. Resuming a gateway feed.  For a ring that has received the updates
    1, 2, ..., n, [GetFromSeq from] answers exactly when [from] is not older than
    the entry just before the oldest retained one and not ahead of the head; the
    answer is then precisely the updates [from+1 .. n], in order, each once.
    In every other case (empty ring, evicted or future [from]) it is [nullopt]. *)
Theorem GetFromSeq_gapless (r : RingBuffer) (hist : list RingEntry) (from : Z) :
  reach r hist -> gapless hist -> Z.of_nat (length hist) + 1 < 2 ^ 64 ->
  is_u64 from ->
  GetFromSeq r from =
    if decide (hist <> [] /\
               Z.of_nat (length hist) - Z.of_nat (capacity_ r) <= from <= Z.of_nat (length hist))
    then Some (drop (Z.to_nat from) hist)
    else None.
Proof. apply GetFromSeq_exact. Qed.

(** A three-slot ring after five updates: entry 2 is gone, 2 can still be
    resumed from (the next one is 3), 1 cannot. *)
Definition demo_entry (n : Z) : RingEntry := {| seq := n; payload := Some (pretty n) |}.

Definition demo_ring : RingBuffer :=
  {| capacity_ := 3; entries_ := [demo_entry 4; demo_entry 5; demo_entry 3];
     head_ := 2; filled_ := 3; head_seq_ := 5 |}.

Lemma demo_reach : reach demo_ring (demo_entry <$> [1; 2; 3; 4; 5]).
Proof.
  apply (push_all_reach {| capacity_ := 3; entries_ := replicate 3 {| seq := 0; payload := None |};
                           head_ := 0; filled_ := 0; head_seq_ := 0 |} []).
  - by apply (reach_new 3).
  - vm_compute. reflexivity.
Qed.

Lemma demo_gapless : gapless (demo_entry <$> [1; 2; 3; 4; 5]).
Proof. intros [|[|[|[|[|i]]]]] e; cbn; intros; simplify_eq; reflexivity || lia. Qed.

Lemma GetFromSeq_gapless_witness :
  GetFromSeq demo_ring 2 = Some (demo_entry <$> [3; 4; 5]) /\
  GetFromSeq demo_ring 1 = None.
Proof.
  split.
  - refine (eq_trans (GetFromSeq_gapless demo_ring _ 2 demo_reach demo_gapless _ _) _);
      vm_compute; intuition congruence.
  - refine (eq_trans (GetFromSeq_gapless demo_ring _ 1 demo_reach demo_gapless _ _) _);
      vm_compute; intuition congruence.
Defined.

(** [Push] keeps the feed strictly increasing.  On a buffer whose pushed
    sequence numbers are positive, a push succeeds exactly when its number is
    above the last one (or nothing was pushed yet); it then becomes the head and
    the size grows up to the capacity.  Otherwise it throws
    [std::invalid_argument]. *)
Theorem Push_spec (r : RingBuffer) (hist : list RingEntry) (s : Z) (p : option string) :
  reach r hist -> positive hist ->
  match Push r s p with
  | Ok r' => (hist = [] \/ last_seq hist < s) /\ HeadSeq r' = s /\
             Size r' = (capacity_ r `min` S (length hist))%nat
  | Throw e => hist <> [] /\ s <= last_seq hist /\ exn_kind e = std_invalid_argument
  end.
Proof.
  intros Hr Hpos. pose proof (reach_last_seq _ _ Hr Hpos) as Hls.
  destruct (reach_ok _ _ Hr) as [[Hc Hl Hhd Hfi Hs] Hh]; cbn in *.
  destruct (Push r s p) as [r'|e] eqn:E.
  - apply Push_Ok in E as [Hlt ->]. cbn. rewrite Hh in Hlt. split; [|split; [done|]].
    + destruct hist; [by left|right]. cbn [length] in *. lia.
    + rewrite Hfi. case_match eqn:Ef; [apply Nat.ltb_lt in Ef|apply Nat.ltb_ge in Ef]; lia.
  - unfold Push, ring_write in E. case_match eqn:Et; [|done]. simplify_eq.
    bools. rewrite Hh in *. split; [|split; [lia|done]]. by intros ->.
Qed.

Lemma Push_spec_witness :
  (exists r', Push demo_ring 6 None = Ok r' /\ HeadSeq r' = 6) /\
  (exists e, Push demo_ring 5 None = Throw e /\ exn_kind e = std_invalid_argument).
Proof.
  assert (Hp : positive (demo_entry <$> [1; 2; 3; 4; 5]))
    by (apply gapless_positive; [apply demo_gapless | cbn; lia]).
  split.
  - pose proof (Push_spec demo_ring _ 6 None demo_reach Hp) as H.
    destruct (Push demo_ring 6 None) as [r'|e] eqn:E; [|discriminate E].
    exists r'. split; [reflexivity | apply H].
  - pose proof (Push_spec demo_ring _ 5 None demo_reach Hp) as H.
    destruct (Push demo_ring 5 None) as [r'|e] eqn:E; [discriminate E|].
    exists e. split; [reflexivity | apply H].
Defined.
