(* ===== verification/Counters.v ===== *)
(** Runtime counters (grpc/Counters.h, grpc/Counters.cpp): the atomic gauges
    that the command queue, the delta bus and the session code update, and the
    rolling bucket of frame-flush latencies with its 99th percentile.

    Every gauge is an atomic of a fixed width, so a load or store is one step;
    the flush bucket is guarded by [flush_mutex_]. *)

From Stdlib Require Import SpecFloat.
From S2P Require Import Prelude CircularBuffer.

Record Counters := {
  subscriber_count : Z;
  cumulative_dropped_subscribers : Z;
  command_queue_depth : Z;
  command_submissions_rejected_resource_exhausted : Z;
  command_submissions_rejected_invalid_argument : Z;
  command_submissions_warning_only_would_reject : Z;
  command_dispatch_failures : Z;
  admin_actions_accepted : Z;
  admin_actions_rejected : Z;
  admin_audit_events : Z;
  frames_since_bind : Z;
  flush_samples_ : list Z;
  flush_head_ : nat;
  flush_filled_ : nat;
}.

Definition kFlushBucketSize : nat := 1024.

Definition Counters_new : Counters := {|
  subscriber_count := 0; cumulative_dropped_subscribers := 0;
  command_queue_depth := 0;
  command_submissions_rejected_resource_exhausted := 0;
  command_submissions_rejected_invalid_argument := 0;
  command_submissions_warning_only_would_reject := 0; command_dispatch_failures := 0;
  admin_actions_accepted := 0; admin_actions_rejected := 0; admin_audit_events := 0;
  frames_since_bind := 0;
  flush_samples_ := replicate kFlushBucketSize 0; flush_head_ := 0; flush_filled_ := 0 |}.

#[export] Instance Counters_eta : Eta Counters := fun c =>
  Build_Counters (subscriber_count c) (cumulative_dropped_subscribers c)
    (command_queue_depth c) (command_submissions_rejected_resource_exhausted c)
    (command_submissions_rejected_invalid_argument c)
    (command_submissions_warning_only_would_reject c) (command_dispatch_failures c)
    (admin_actions_accepted c) (admin_actions_rejected c) (admin_audit_events c)
    (frames_since_bind c)
    (flush_samples_ c) (flush_head_ c) (flush_filled_ c).

(** ** The flush bucket *)

Definition RecordFrameFlushUs (us : Z) (c : Counters) : Counters :=
  let '(samples, head, filled) :=
    ring_write kFlushBucketSize (flush_samples_ c, flush_head_ c, flush_filled_ c) us in
  c <| flush_samples_ := samples |> <| flush_head_ := head |> <| flush_filled_ := filled |>.

(** The binary64 computation of the index:
    [static_cast<size_t>(0.99 * static_cast<double>(n - 1) + 0.5)]. *)
Definition d_099 : spec_float := S754_finite false 8917127262193582 (-53).
Definition d_half : spec_float := S754_finite false 4503599627370496 (-53).

Definition d_of_Z (v : Z) : spec_float := binary_normalize 53 1024 v 0 false.

Definition d_trunc (d : spec_float) : Z :=
  match d with
  | S754_finite false m e => if 0 <=? e then Zpos m * 2 ^ e else Zpos m / 2 ^ (- e)
  | _ => 0
  end.

Definition p99_index (n : Z) : Z :=
  d_trunc (SFadd 53 1024 (SFmul 53 1024 d_099 (d_of_Z (n - 1))) d_half).

(** [std::nth_element] puts at position [k] the element that sorting would put
    there. *)
Definition nth_element (l : list Z) (k : nat) : Z := default 0 (merge_sort Z.le l !! k).

Definition FrameFlushP99Us (c : Counters) : Z :=
  if decide (flush_filled_ c = 0%nat) then 0
  else
    let snap := take (flush_filled_ c) (flush_samples_ c) in
    let k := Z.to_nat (p99_index (size_of snap)) in
    nth_element snap k.

(** ** The index is the rounded rank, never past the end *)

(** The floating-point index of every possible bucket size, checked by
    evaluation: it is 99 (n-1) / 100 rounded half up. *)
Definition p99_index_agrees (n : nat) : bool :=
  p99_index (Z.of_nat n) =? (99 * (Z.of_nat n - 1) + 50) / 100.

Lemma p99_index_table : forallb p99_index_agrees (seq 1 1024) = true.
Proof. vm_compute. reflexivity. Qed.

Lemma p99_index_exact (n : nat) : (1 <= n <= 1024)%nat ->
  p99_index (Z.of_nat n) = (99 * (Z.of_nat n - 1) + 50) / 100.
Proof.
  intros Hn. pose proof p99_index_table as H. rewrite forallb_forall in H.
  specialize (H n). rewrite in_seq in H. specialize (H ltac:(lia)).
  by apply Z.eqb_eq in H.
Qed.

Lemma p99_index_bound (n : nat) : (1 <= n <= 1024)%nat ->
  (Z.to_nat (p99_index (Z.of_nat n)) < n)%nat.
Proof.
  intros. rewrite p99_index_exact by lia.
  assert ((99 * (Z.of_nat n - 1) + 50) / 100 < Z.of_nat n)
    by (apply Z.div_lt_upper_bound; lia). lia.
Qed.

(** ** Order statistics *)

Definition count_le (v : Z) (l : list Z) : nat := length (filter (fun a => a <= v) l).
Definition count_lt (v : Z) (l : list Z) : nat := length (filter (fun a => a < v) l).

#[export] Instance count_le_perm v : Proper ((≡ₚ) ==> eq) (count_le v).
Proof. intros l k H. unfold count_le. by rewrite H. Qed.
#[export] Instance count_lt_perm v : Proper ((≡ₚ) ==> eq) (count_lt v).
Proof. intros l k H. unfold count_lt. by rewrite H. Qed.

Lemma StronglySorted_rank (l : list Z) (k : nat) (v : Z) :
  StronglySorted Z.le l -> l !! k = Some v ->
  (k < count_le v l)%nat /\ (count_lt v l <= k)%nat.
Proof.
  intros Hs. revert k. unfold count_le, count_lt.
  induction Hs as [|a l Hs IH Ha]; intros k Hk; [done|].
  rewrite !filter_cons. destruct k as [|k]; cbn in Hk.
  - simplify_eq. rewrite decide_True by lia. rewrite decide_False by lia.
    rewrite (filter_none (fun b => b < v)); [cbn; lia|].
    eapply Forall_impl; [exact Ha|]. cbn. lia.
  - destruct (IH _ Hk) as [Hle Hlt].
    assert (a <= v) by (rewrite Forall_lookup in Ha; eauto).
    rewrite decide_True by lia. cbn. split; [lia|]. case_decide; cbn; lia.
Qed.

Lemma nth_element_rank (l w : list Z) (k : nat) : l ≡ₚ w -> (k < length l)%nat ->
  let v := nth_element l k in
  v ∈ w /\ (k < count_le v w)%nat /\ (count_lt v w <= k)%nat.
Proof.
  intros Hw Hk v. rewrite <- Hw. subst v. unfold nth_element.
  pose proof (merge_sort_Permutation Z.le l) as Hp.
  destruct (merge_sort Z.le l !! k) as [v|] eqn:E;
    [|apply lookup_ge_None in E; rewrite Hp in E; lia].
  cbn. rewrite <- Hp. split; [by eapply list_elem_of_lookup_2|].
  apply StronglySorted_rank; [|done].
  apply (StronglySorted_merge_sort Z.le).
Qed.

(** Recording a list of latencies, oldest first. *)
Definition record_all (us : list Z) (c : Counters) : Counters :=
  fold_left (fun c u => RecordFrameFlushUs u c) us c.

Definition flush_ring (c : Counters) : list Z * nat * nat :=
  (flush_samples_ c, flush_head_ c, flush_filled_ c).

Lemma record_all_ok (us : list Z) (c : Counters) (hist : list Z) :
  ring_ok kFlushBucketSize (flush_ring c) hist ->
  ring_ok kFlushBucketSize (flush_ring (record_all us c)) (hist ++ us).
Proof.
  revert c hist. induction us as [|u us IH]; intros c hist H; cbn.
  - by rewrite app_nil_r.
  - rewrite cons_middle, app_assoc. apply IH. exact (ring_ok_write _ _ _ u H).
Qed.

(** The reported latency percentile is an order statistic of the last 1024
    recorded flushes: with n samples and k = (99(n-1) + 50) / 100, the value is
    one of the samples, more than k samples are at most the value and at most k
    are below it.  With no sample it is 0. *)
Theorem FrameFlushP99Us_rank (us : list Z) :
  let window := last_n kFlushBucketSize us in
  let n := size_of window in
  let k := Z.to_nat ((99 * (n - 1) + 50) / 100) in
  let v := FrameFlushP99Us (record_all us Counters_new) in
  match us with
  | [] => v = 0
  | _ => v ∈ window /\ (k < count_le v window)%nat /\ (count_lt v window <= k)%nat
  end.
Proof.
  set (c := record_all us Counters_new).
  assert (Hok : ring_ok kFlushBucketSize (flush_ring c) us).
  { apply (record_all_ok us Counters_new []). apply ring_ok_init. unfold kFlushBucketSize. lia. }
  pose proof (ring_live_Permutation _ _ _ Hok) as Hp.
  pose proof (ring_filled _ _ _ Hok) as Hf. pose proof (ring_length _ _ _ Hok) as Hl.
  cbn [flush_ring fst snd] in *. clearbody c. cbn zeta.
  destruct us as [|u us]; [by unfold FrameFlushP99Us; rewrite Hf|].
  set (window := last_n _ _) in *.
  assert (Hn : length (take (flush_filled_ c) (flush_samples_ c)) = length window)
    by by rewrite Hp.
  assert (Hw : (1 <= length window <= 1024)%nat)
    by (rewrite <- Hn, length_take, Hf, Hl; unfold kFlushBucketSize; cbn [length]; lia).
  unfold FrameFlushP99Us. rewrite decide_False
    by (rewrite Hf; unfold kFlushBucketSize; cbn [length]; lia).
  unfold size_of. rewrite Hn, p99_index_exact by lia.
  apply nth_element_rank; [done|]. rewrite Hn.
  pose proof (p99_index_bound _ Hw) as Hb. rewrite p99_index_exact in Hb by lia. done.
Qed.

Example p99_hundred : FrameFlushP99Us (record_all (seqZ 1 100) Counters_new) = 99.
Proof. vm_compute. reflexivity. Qed.
