(* ===== verification/SubscriberSlot.v ===== *)
(** The per-subscriber fan-out slot (grpc/SubscriberSlot.h, .cpp): a bounded
    queue of payloads, an eviction reason that is set once, and a count of
    dropped payloads.  [Module Wait] models the blocking pop with its condition
    variable at the granularity of lock acquisitions and notifications. *)

From S2P Require Import Prelude.

Inductive EvictionReason := kNone | kSlowConsumer | kCanceled | kFault.

#[export] Instance EvictionReason_eq_dec : EqDecision EvictionReason.
Proof. solve_decision. Defined.

Record SubscriberSlot := {
  capacity_ : nat;
  queue_ : list string;
  eviction_ : EvictionReason;
  dropped_ : Z;
  session_id_ : string;
}.

#[export] Instance SubscriberSlot_eta : Eta SubscriberSlot := fun s =>
  Build_SubscriberSlot (capacity_ s) (queue_ s) (eviction_ s) (dropped_ s) (session_id_ s).

Definition kDefaultCapacity : nat := Z.to_nat 8192.

Definition Slot_new (capacity : nat) : SubscriberSlot :=
  {| capacity_ := capacity; queue_ := []; eviction_ := kNone; dropped_ := 0; session_id_ := "" |}.

(** ** Producer side *)

Definition TryPush (payload : string) (s : SubscriberSlot) : SubscriberSlot * bool :=
  if negb (bool_decide (eviction_ s = kNone)) then (s, false)
  else if (capacity_ s <=? length (queue_ s))%nat
  then (s <| dropped_ ::= fun d => u64 (d + 1) |>, false)
  else (s <| queue_ ::= fun q => q ++ [payload] |>, true).

(** ** Consumer side *)

(** The predicate of the condition variable's wait. *)
Definition pop_ready (s : SubscriberSlot) : bool :=
  negb (bool_decide (queue_ s = [])) || negb (bool_decide (eviction_ s = kNone)).

(** What [BlockingPop] does once the predicate holds: the out-parameter (set
    when the call returns true) and the slot. *)
Definition pop_front (s : SubscriberSlot) : SubscriberSlot * option string :=
  match queue_ s with
  | p :: q => (s <| queue_ := q |>, Some p)
  | [] => (s, None)
  end.

(** [None]: the call blocks. *)
Definition BlockingPop (s : SubscriberSlot) : option (SubscriberSlot * option string) :=
  if pop_ready s then Some (pop_front s) else None.

(** A [compare_exchange_strong] from [kNone]; the flag says whether it won (and
    so whether the consumer is notified). *)
Definition Evict (reason : EvictionReason) (s : SubscriberSlot) : SubscriberSlot * bool :=
  if decide (eviction_ s = kNone) then (s <| eviction_ := reason |>, true) else (s, false).

Definition Eviction (s : SubscriberSlot) : EvictionReason := eviction_ s.
Definition DroppedCount (s : SubscriberSlot) : Z := dropped_ s.
Definition QueueDepth (s : SubscriberSlot) : nat := length (queue_ s).
Definition SetSessionId (i : string) (s : SubscriberSlot) : SubscriberSlot :=
  s <| session_id_ := i |>.

(** ** Lemmas *)

Lemma TryPush_true (p : string) (s s' : SubscriberSlot) :
  TryPush p s = (s', true) <->
  eviction_ s = kNone /\ (length (queue_ s) < capacity_ s)%nat /\
  s' = s <| queue_ := queue_ s ++ [p] |>.
Proof.
  unfold TryPush. case_bool_decide; cbn; [|split; intros; dest; simplify_eq; done].
  destruct (Nat.leb_spec (capacity_ s) (length (queue_ s))); split; intros; dest; simplify_eq; auto with lia.
Qed.

Lemma TryPush_false (p : string) (s s' : SubscriberSlot) :
  TryPush p s = (s', false) ->
  queue_ s' = queue_ s /\ eviction_ s' = eviction_ s /\ capacity_ s' = capacity_ s /\
  (eviction_ s = kNone -> (capacity_ s <= length (queue_ s))%nat).
Proof.
  unfold TryPush. case_bool_decide; cbn; [|by intros; simplify_eq].
  destruct (Nat.leb_spec (capacity_ s) (length (queue_ s))); intros; simplify_eq/=; auto with lia.
Qed.

Lemma Evict_spec (r : EvictionReason) (s : SubscriberSlot) :
  let s' := (Evict r s).1 in
  queue_ s' = queue_ s /\ capacity_ s' = capacity_ s /\ dropped_ s' = dropped_ s /\
  eviction_ s' = if decide (eviction_ s = kNone) then r else eviction_ s.
Proof. unfold Evict. case_decide; cbn; auto. Qed.

Lemma pop_front_spec (s s' : SubscriberSlot) (o : option string) :
  pop_front s = (s', o) ->
  queue_ s = option_list o ++ queue_ s' /\ eviction_ s' = eviction_ s /\
  capacity_ s' = capacity_ s /\ dropped_ s' = dropped_ s.
Proof. unfold pop_front. case_match eqn:E; intros; simplify_eq/=; rewrite ?E; auto. Qed.

(** * The blocking pop and its wake-ups

    The consumer's [BlockingPop] holds [mutex_] from the check of the predicate
    to the moment it goes to sleep; [TryPush] updates the queue under [mutex_]
    and notifies after releasing it; [Evict] sets the reason with a
    compare-exchange that does not take [mutex_] and then notifies.  A
    notification wakes the consumer only if it is asleep at that moment. *)
Module Wait.

Inductive Consumer :=
  | Outside                      (** not in [BlockingPop] *)
  | Checked                      (** predicate was false, [mutex_] still held *)
  | Asleep                       (** blocked in [cv_.wait], [mutex_] released *)
  | Awoken.                      (** notified, about to lock and re-check *)

Record World := {
  slot : SubscriberSlot;
  consumer : Consumer;
  push_notify : bool;            (** a successful push has not notified yet *)
  evict_notify : bool;           (** a successful evict has not notified yet *)
}.

Definition notify (c : Consumer) : Consumer :=
  match c with Asleep => Awoken | c => c end.

Definition mutex_free (c : Consumer) : bool :=
  match c with Checked => false | _ => true end.

Inductive label := LCheck | LSleep | LSpurious | LPush (p : string) | LPushNotify
  | LEvict (r : EvictionReason) | LEvictNotify.

(** One atomic action; [None] when it is not enabled. *)
Definition step (l : label) (w : World) : option World :=
  let '(Build_World s c pn en) := w in
  match l with
  | LCheck =>
      match c with
      | Outside | Awoken =>
          if pop_ready s then Some (Build_World (pop_front s).1 Outside pn en)
          else Some (Build_World s Checked pn en)
      | _ => None
      end
  | LSleep => match c with Checked => Some (Build_World s Asleep pn en) | _ => None end
  | LSpurious => match c with Asleep => Some (Build_World s Awoken pn en) | _ => None end
  | LPush p =>
      if mutex_free c && negb pn
      then let '(s', ok) := TryPush p s in Some (Build_World s' c ok en) else None
  | LPushNotify => if pn then Some (Build_World s (notify c) false en) else None
  | LEvict r =>
      if en then None
      else let '(s', won) := Evict r s in Some (Build_World s' c pn won)
  | LEvictNotify => if en then Some (Build_World s (notify c) pn false) else None
  end.

Fixpoint run (ls : list label) (w : World) : option World :=
  match ls with
  | [] => Some w
  | l :: ls' => step l w ≫= run ls'
  end.

Definition init (capacity : nat) : World := Build_World (Slot_new capacity) Outside false false.

(** The consumer never waits (or commits to waiting) on a non-empty queue
    unless the push that filled it is about to notify. *)
Definition wake_inv (w : World) : Prop :=
  match consumer w with
  | Checked => queue_ (slot w) = []
  | Asleep => queue_ (slot w) <> [] -> push_notify w = true
  | _ => True
  end.

Lemma step_wake_inv (l : label) (w w' : World) :
  step l w = Some w' -> wake_inv w -> wake_inv w'.
Proof.
  destruct w as [s c pn en]. unfold wake_inv. destruct l; cbn.
  - destruct c; try done; destruct (pop_ready s) eqn:E; intros; simplify_eq/=; try done.
    all: unfold pop_ready in E; bools; done.
  - destruct c; intros; simplify_eq/=; done.
  - destruct c; intros; simplify_eq/=; done.
  - destruct (mutex_free c && negb pn) eqn:E; [|done]. bools.
    destruct (TryPush p s) as [s' ok] eqn:Ep. intros; simplify_eq/=.
    destruct c; try done. destruct ok; [done|].
    apply TryPush_false in Ep as (Hq & _). rewrite Hq. auto.
  - destruct pn; [|done]. intros; simplify_eq/=. destruct c; done.
  - destruct en; [done|]. destruct (Evict r s) as [s' won] eqn:Ee. intros; simplify_eq/=.
    pose proof (Evict_spec r s) as (Hq & _). rewrite Ee in Hq; cbn in Hq. rewrite Hq. done.
  - destruct en; [|done]. intros; simplify_eq/=. destruct c; done.
Qed.

Lemma run_wake_inv (ls : list label) (w w' : World) :
  run ls w = Some w' -> wake_inv w -> wake_inv w'.
Proof.
  revert w; induction ls as [|l ls IH]; cbn; intros w H Hi; [by simplify_eq|].
  destruct (step l w) as [w1|] eqn:E; [|done]. eauto using step_wake_inv.
Qed.

(** A published payload is never stranded behind a sleeping consumer: in
    every interleaving of checks, sleeps, wake-ups, pushes, evictions and
    notifications, if the consumer sleeps while the queue holds a payload then
    the push that put it there has still to notify, and that notification wakes
    the consumer into a pop that returns the front of the queue. *)
Theorem push_wakes_consumer (capacity : nat) (ls : list label) (w : World) (p : string) (q : list string) :
  run ls (init capacity) = Some w -> consumer w = Asleep -> queue_ (slot w) = p :: q ->
  exists w1 w2, step LPushNotify w = Some w1 /\ step LCheck w1 = Some w2 /\
    consumer w2 = Outside /\ queue_ (slot w2) = q.
Proof.
  intros Hrun Hc Hq. pose proof (run_wake_inv _ _ _ Hrun ltac:(done)) as Hi.
  destruct w as [s c pn en]. unfold wake_inv in Hi; cbn in *. subst c.
  rewrite Hi by (rewrite Hq; done). eexists _, _. split; [done|]. cbn.
  unfold pop_ready, pop_front. rewrite Hq. cbn. eauto.
Qed.

Lemma push_wakes_consumer_witness :
  exists w w1 w2, run [LCheck; LSleep; LPush "a"] (init 2) = Some w /\
    step LPushNotify w = Some w1 /\ step LCheck w1 = Some w2 /\
    consumer w2 = Outside /\ queue_ (slot w2) = [].
Proof.
  eexists. pose proof (push_wakes_consumer 2 [LCheck; LSleep; LPush "a"] _ "a" []
    eq_refl eq_refl eq_refl) as (w1 & w2 & H).
  exists w1, w2. split; [reflexivity | exact H].
Defined.

(** ** An eviction's wake-up can be lost *)

(** A consumer asleep on an evicted, drained slot whose notification is spent. *)
Definition stranded (w : World) : Prop :=
  consumer w = Asleep /\ queue_ (slot w) = [] /\ eviction_ (slot w) <> kNone /\
  push_notify w = false /\ evict_notify w = false.

Lemma stranded_step (l : label) (w w' : World) :
  l <> LSpurious -> step l w = Some w' -> stranded w -> stranded w'.
Proof.
  destruct w as [s c pn en]. unfold stranded. intros Hl Hs (Hc & Hq & He & Hp & Hn); cbn in *.
  subst c pn en. destruct l; cbn in Hs; try done.
  - unfold TryPush in Hs. rewrite bool_decide_eq_false_2 in Hs by done. cbn in Hs. by simplify_eq/=.
  - unfold Evict in Hs. rewrite decide_False in Hs by done. by simplify_eq/=.
Qed.

(** Because [Evict] changes the reason without holding the mutex, its
    notification can fall between the consumer's check of the predicate and its
    going to sleep.  There is an interleaving after which the slot is evicted,
    nobody will notify any more, and no action of any thread ever wakes the
    consumer again (short of a spurious wake-up of the condition variable). *)
Theorem evict_wakeup_lost (capacity : nat) :
  exists ls w, run ls (init capacity) = Some w /\ eviction_ (slot w) = kFault /\
    consumer w = Asleep /\
    forall ls' w', Forall (fun l => l <> LSpurious) ls' -> run ls' w = Some w' ->
      consumer w' = Asleep.
Proof.
  exists [LCheck; LEvict kFault; LEvictNotify; LSleep], (Build_World
    ((Slot_new capacity) <| eviction_ := kFault |>) Asleep false false).
  split_and!; [done..|].
  intros ls' w' Hf Hrun.
  assert (Hst : stranded (Build_World ((Slot_new capacity) <| eviction_ := kFault |>) Asleep false false))
    by (unfold stranded; cbn; split_and!; done).
  cut (stranded w'); [by intros []|].
  revert Hst Hf Hrun. generalize (Build_World ((Slot_new capacity) <| eviction_ := kFault |>) Asleep false false).
  induction ls' as [|l ls' IH]; cbn; intros w Hst Hf Hrun; [by simplify_eq|].
  apply Forall_cons in Hf as [Hl Hf]. destruct (step l w) as [w1|] eqn:E; [|done].
  apply (IH w1); [by apply (stranded_step l w)|done..].
Qed.

End Wait.
