(* ===== verification/DeltaBus.v ===== *)
(** The fan-out bus (grpc/DeltaBus.h, .cpp): one engine thread publishes, each
    live subscriber slot receives every payload published while it is
    registered, and a slot whose queue is full is evicted without touching the
    others.

    The slots are shared objects: [heap] maps a slot's identity to its state and
    [strong] is the set of identities that some [shared_ptr] still holds, so that
    [weak_ptr::lock] succeeds exactly on it.  [Module Interleave] runs the pieces
    of the operations (a locked region, a push, an eviction) in any order. *)

From S2P Require Import Prelude Counters SubscriberSlot.

Record DeltaBus := {
  heap : gmap nat SubscriberSlot;
  strong : gset nat;
  next_slot : nat;
  counters_ : option Counters;
  slots_ : list nat;
}.

#[export] Instance DeltaBus_eta : Eta DeltaBus := fun b =>
  Build_DeltaBus (heap b) (strong b) (next_slot b) (counters_ b) (slots_ b).

Definition DeltaBus_new (counters : option Counters) : DeltaBus :=
  {| heap := ∅; strong := ∅; next_slot := 0; counters_ := counters; slots_ := [] |}.

(** [weak_ptr::lock]. *)
Definition lock (b : DeltaBus) (id : nat) : option SubscriberSlot :=
  if decide (id ∈ strong b) then heap b !! id else None.

Definition on_slot (id : nat) (f : SubscriberSlot -> SubscriberSlot) (b : DeltaBus) : DeltaBus :=
  b <| heap ::= alter f id |>.

Definition bump (f : Counters -> Counters) (b : DeltaBus) : DeltaBus :=
  b <| counters_ ::= fmap f |>.

(** ** Publish *)

(** The loop under the mutex: the registry without its expired entries, and the
    slots to publish to. *)
Fixpoint Publish_scan (b : DeltaBus) (it : list nat) : list nat * list nat :=
  match it with
  | [] => ([], [])
  | id :: it' =>
      let '(kept, live) := Publish_scan b it' in
      match lock b id with
      | Some sp => (id :: kept, if decide (Eviction sp = kNone) then id :: live else live)
      | None => (kept, live)
      end
  end.

Definition Publish_snapshot (b : DeltaBus) : DeltaBus * list nat :=
  let '(kept, live) := Publish_scan b (slots_ b) in (b <| slots_ := kept |>, live).

(** The body of the second loop: the push, and the eviction when it failed. *)
Definition Publish_try (payload : string) (id : nat) (b : DeltaBus) : DeltaBus * bool :=
  match heap b !! id with
  | Some s => let '(s', ok) := TryPush payload s in (on_slot id (fun _ => s') b, ok)
  | None => (b, true)
  end.

Definition Publish_evict (id : nat) (b : DeltaBus) : DeltaBus :=
  bump (fun c => c <| cumulative_dropped_subscribers ::= fun n => u64 (n + 1) |>)
    (on_slot id (fun s => (Evict kSlowConsumer s).1) b).

Definition Publish_one (payload : string) (b : DeltaBus) (id : nat) : DeltaBus :=
  let '(b', ok) := Publish_try payload id b in
  if ok then b' else Publish_evict id b'.

Definition Publish (payload : string) (b : DeltaBus) : DeltaBus :=
  let '(b', live) := Publish_snapshot b in fold_left (Publish_one payload) live b'.

(** ** Subscribe, Unsubscribe, EvictAll *)

Definition Subscribe (b : DeltaBus) : DeltaBus * nat :=
  let id := next_slot b in
  (bump (fun c => c <| subscriber_count ::= fun n => u32 (n + 1) |>)
     (b <| heap ::= insert id (Slot_new kDefaultCapacity) |>
        <| strong ::= fun s => {[id]} ∪ s |>
        <| next_slot ::= S |>
        <| slots_ ::= fun l => l ++ [id] |>), id).

(** The locked region of [Unsubscribe]: erases the slot and every expired entry;
    the flag is [was_live]. *)
Fixpoint Unsubscribe_scan (b : DeltaBus) (id : nat) (it : list nat) : list nat * bool :=
  match it with
  | [] => ([], false)
  | i :: it' =>
      let '(kept, was_live) := Unsubscribe_scan b id it' in
      match lock b i with
      | None => (kept, was_live)
      | Some _ => if decide (i = id) then (kept, true) else (i :: kept, was_live)
      end
  end.

Definition Unsubscribe_erase (id : nat) (b : DeltaBus) : DeltaBus :=
  let '(kept, was_live) := Unsubscribe_scan b id (slots_ b) in
  let b := b <| slots_ := kept |> in
  if was_live then bump (fun c => c <| subscriber_count ::= fun n => u32 (n - 1) |>) b else b.

Definition Unsubscribe (slot : option nat) (b : DeltaBus) : DeltaBus :=
  match slot with
  | None => b
  | Some id => Unsubscribe_erase id (on_slot id (fun s => (Evict kCanceled s).1) b)
  end.

Definition EvictAll_take (b : DeltaBus) : DeltaBus * list nat :=
  (b <| slots_ := [] |>, filter (fun id => is_Some (lock b id)) (slots_ b)).

Definition EvictAll_count (n : nat) (b : DeltaBus) : DeltaBus :=
  if decide (n = 0%nat) then b
  else bump (fun c => c <| subscriber_count ::= fun m => u32 (m - u32 (Z.of_nat n)) |>) b.

Definition EvictAll (reason : EvictionReason) (b : DeltaBus) : DeltaBus :=
  let '(b', live) := EvictAll_take b in
  EvictAll_count (length live)
    (fold_left (fun b id => on_slot id (fun s => (Evict reason s).1) b) live b').

Definition SubscriberCount (b : DeltaBus) : nat :=
  length (filter (fun id => Eviction <$> lock b id = Some kNone) (slots_ b)).

(** Dropping the last [shared_ptr] to a slot. *)
Definition Release (id : nat) (b : DeltaBus) : DeltaBus :=
  b <| strong ::= fun s => s ∖ {[id]} |>.

(** ** Lemmas *)

(** The slots a publish targets. *)
Definition targets (b : DeltaBus) : list nat :=
  filter (fun id => Eviction <$> lock b id = Some kNone) (slots_ b).

Lemma Publish_scan_spec (b : DeltaBus) (it : list nat) :
  Publish_scan b it = (filter (fun id => is_Some (lock b id)) it,
                       filter (fun id => Eviction <$> lock b id = Some kNone) it).
Proof.
  induction it as [|id it IH]; [done|]. cbn [Publish_scan]. rewrite IH, !filter_cons.
  destruct (lock b id) as [sp|]; cbn.
  - rewrite (decide_True (P := is_Some _)) by eauto. f_equal. repeat case_decide; congruence.
  - rewrite !decide_False by (try intros [? ?]; congruence). done.
Qed.

Lemma Unsubscribe_scan_spec (b : DeltaBus) (id : nat) (it : list nat) :
  Unsubscribe_scan b id it
  = (filter (fun i => is_Some (lock b i) /\ i <> id) it,
     bool_decide (id ∈ it /\ is_Some (lock b id))).
Proof.
  induction it as [|i it IH]; cbn [Unsubscribe_scan].
  { rewrite bool_decide_eq_false_2; [done|]. intros [H _]. by apply elem_of_nil in H. }
  rewrite IH, filter_cons. destruct (lock b i) as [sp|] eqn:E.
  - destruct (decide (i = id)) as [->|Hne].
    + rewrite (decide_False (P := _ /\ id <> id)) by tauto. f_equal.
      symmetry. apply bool_decide_eq_true_2. split; [left|eauto].
    + rewrite (decide_True (P := _ /\ i <> id)) by eauto. f_equal.
      apply bool_decide_ext. rewrite elem_of_cons. intuition congruence.
  - rewrite (decide_False (P := _ /\ i <> id)) by (intros [[? ?] _]; done). f_equal.
    apply bool_decide_ext. rewrite elem_of_cons. split; [tauto|].
    intros [[->|?] Hs]; [|done]. rewrite E in Hs. by destruct Hs.
Qed.

Record bus_wf (b : DeltaBus) : Prop := {
  wf_nodup : NoDup (slots_ b);
  wf_heap : forall id, id ∈ slots_ b -> is_Some (heap b !! id);
  wf_fresh : forall id, is_Some (heap b !! id) -> (id < next_slot b)%nat;
  wf_strong : forall id, id ∈ strong b -> is_Some (heap b !! id);
  wf_counters : forall c, counters_ b = Some c ->
    is_u64 (cumulative_dropped_subscribers c) /\ is_u32 (subscriber_count c);
}.

(** What one publish does to a slot it targets. *)
Definition full (s : SubscriberSlot) : bool := (capacity_ s <=? length (queue_ s))%nat.

Definition receive (payload : string) (s : SubscriberSlot) : SubscriberSlot :=
  if full s
  then s <| dropped_ ::= fun d => u64 (d + 1) |> <| eviction_ := kSlowConsumer |>
  else s <| queue_ ::= fun q => q ++ [payload] |>.

Definition add_dropped (k : Z) (c : Counters) : Counters :=
  c <| cumulative_dropped_subscribers ::= fun n => u64 (n + k) |>.

Definition full_at (b : DeltaBus) (id : nat) : Prop := full <$> heap b !! id = Some true.
#[export] Instance full_at_dec b id : Decision (full_at b id).
Proof. unfold full_at. apply _. Defined.

Lemma Publish_one_spec (p : string) (b : DeltaBus) (id : nat) (s : SubscriberSlot) :
  heap b !! id = Some s -> eviction_ s = kNone ->
  Publish_one p b id =
    let b' := b <| heap := <[id := receive p s]> (heap b) |> in
    if full s then b' <| counters_ := add_dropped 1 <$> counters_ b |> else b'.
Proof.
  intros Hs He. unfold Publish_one, Publish_try, TryPush, receive, full. rewrite Hs.
  rewrite bool_decide_eq_true_2 by done. cbn.
  destruct (Nat.leb _ _); cbn; unfold Publish_evict, bump, on_slot; cbn;
    rewrite (alter_some _ _ _ _ Hs); [|done].
  rewrite (alter_some _ _ _ _ (lookup_insert_eq _ _ _)), insert_insert_eq. unfold Evict; cbn.
  by rewrite decide_True.
Qed.

Lemma add_dropped_add (j k : Z) (c : Counters) : add_dropped j (add_dropped k c) = add_dropped (k + j) c.
Proof. unfold add_dropped; cbn. f_equal. unfold u64. rewrite Zplus_mod_idemp_l. f_equal; lia. Qed.

Lemma add_dropped_0 (c : Counters) : is_u64 (cumulative_dropped_subscribers c) -> add_dropped 0 c = c.
Proof. intros H. unfold add_dropped; cbn. rewrite Z.add_0_r, u64_small by done. by destruct c. Qed.

(** The second loop, on distinct live slots. *)
Lemma Publish_loop (p : string) (live : list nat) (b : DeltaBus) :
  NoDup live -> (forall id, id ∈ live -> eviction_ <$> heap b !! id = Some kNone) ->
  (forall c, counters_ b = Some c -> is_u64 (cumulative_dropped_subscribers c)) ->
  let b' := fold_left (Publish_one p) live b in
  (forall id, heap b' !! id = (if decide (id ∈ live) then receive p else fun s => s) <$> heap b !! id) /\
  slots_ b' = slots_ b /\ strong b' = strong b /\ next_slot b' = next_slot b /\
  counters_ b' = add_dropped (size_of (filter (full_at b) live)) <$> counters_ b.
Proof.
  intros Hnd. revert b. induction Hnd as [|id live Hid Hnd IH]; intros b He Hc; cbn [fold_left].
  { split_and!; try done.
    - intros id. rewrite decide_False by apply not_elem_of_nil. by destruct (heap b !! id).
    - cbn. destruct (counters_ b) as [c|]; cbn; [|done]. by rewrite add_dropped_0 by auto. }
  pose proof (He id ltac:(left)) as H. destruct (heap b !! id) as [s|] eqn:Hs; [|done].
  injection H as H. rewrite (Publish_one_spec p b id s Hs H).
  set (b1 := if full s then _ else _).
  assert (Hh : heap b1 = <[id := receive p s]> (heap b)) by (subst b1; by destruct (full s)).
  assert (Hne : forall i, i ∈ live -> heap b1 !! i = heap b !! i)
    by (intros i Hi; rewrite Hh, lookup_insert_ne; [done|]; intros ->; done).
  destruct (IH b1) as (IHh & -> & -> & -> & IHc).
  { intros i Hi. rewrite Hne by done. apply He. by right. }
  { intros c. subst b1. destruct (full s); cbn; [|apply Hc].
    destruct (counters_ b); cbn; intros; simplify_eq/=. apply u64_range. }
  split_and!.
  - intros i. rewrite IHh, Hh. destruct (decide (i = id)) as [->|Hi].
    + rewrite decide_False by done. rewrite decide_True by left.
      by rewrite lookup_insert_eq, Hs.
    + rewrite lookup_insert_ne by done. f_equal.
      destruct (decide (i ∈ live)); [rewrite decide_True by (by right); done|].
      rewrite decide_False; [done|]. by rewrite elem_of_cons; intros [|].
  - subst b1. by destruct (full s).
  - subst b1. by destruct (full s).
  - subst b1. by destruct (full s).
  - rewrite IHc. replace (filter (full_at b1) live) with (filter (full_at b) live).
    2:{ apply filter_ext_in. intros i Hi. unfold full_at. by rewrite Hne. }
    rewrite filter_cons. assert (Hf : full_at b id <-> full s = true)
      by (unfold full_at; rewrite Hs; cbn; split; congruence).
    subst b1. destruct (full s); cbn.
    + rewrite decide_True by tauto. rewrite size_of_cons. destruct (counters_ b); cbn; [|done].
      by rewrite add_dropped_add.
    + rewrite decide_False by (rewrite Hf; done). done.
Qed.

(** The effect of a publish on the whole bus. *)
Lemma Publish_effect (p : string) (b : DeltaBus) : bus_wf b ->
  (forall id, heap (Publish p b) !! id
     = (if decide (id ∈ targets b) then receive p else fun s => s) <$> heap b !! id) /\
  slots_ (Publish p b) = filter (fun id => is_Some (lock b id)) (slots_ b) /\
  counters_ (Publish p b) = add_dropped (size_of (filter (full_at b) (targets b))) <$> counters_ b.
Proof.
  intros [Hnd Hh Hf Hst Hc]. unfold Publish, Publish_snapshot. rewrite Publish_scan_spec.
  fold (targets b). set (b1 := set_field _ _ _).
  assert (Hlive : forall id, id ∈ targets b -> eviction_ <$> heap b !! id = Some kNone).
  { intros id [Hl _]%list_elem_of_filter. unfold lock in Hl. by case_decide. }
  destruct (Publish_loop p (targets b) b1) as (E1 & E2 & _ & _ & E4).
  - by apply NoDup_filter.
  - done.
  - intros c E. by apply Hc.
  - by rewrite E2, E4.
Qed.

(** A publish reaches exactly the registered, live, not-evicted slots: each
    of them gets the payload appended, or is evicted as a slow consumer with its
    queue unchanged when the queue was full; no other slot changes, the registry
    loses only its expired entries, and the drop counter grows by the number of
    full slots. *)
Theorem Publish_spec (p : string) (b : DeltaBus) : bus_wf b ->
  (forall id, heap (Publish p b) !! id
     = (if decide (id ∈ targets b) then receive p else fun s => s) <$> heap b !! id) /\
  slots_ (Publish p b) = filter (fun id => is_Some (lock b id)) (slots_ b) /\
  counters_ (Publish p b) = add_dropped (size_of (filter (full_at b) (targets b))) <$> counters_ b.
Proof. apply Publish_effect. Qed.

(** ** Every operation keeps the bus well formed *)

Lemma DeltaBus_new_wf (c : option Counters) :
  (forall x, c = Some x -> is_u64 (cumulative_dropped_subscribers x) /\ is_u32 (subscriber_count x)) ->
  bus_wf (DeltaBus_new c).
Proof.
  intros Hc. split; cbn; auto; [constructor|..]; intros id.
  - intros H. by apply elem_of_nil in H.
  - rewrite lookup_empty. by intros [? ?].
  - set_solver.
Qed.

Lemma on_slot_wf (id : nat) (f : SubscriberSlot -> SubscriberSlot) (b : DeltaBus) :
  bus_wf b -> bus_wf (on_slot id f b).
Proof.
  intros [Hnd Hh Hf Hst Hc]. split; unfold on_slot; cbn; intros *; rewrite ?lookup_alter_is_Some; auto.
Qed.

Lemma bump_wf (f : Counters -> Counters) (b : DeltaBus) :
  (forall c, counters_ b = Some c -> is_u64 (cumulative_dropped_subscribers (f c)) /\ is_u32 (subscriber_count (f c))) ->
  bus_wf b -> bus_wf (bump f b).
Proof.
  intros Hf [Hnd Hh Hfr Hst Hc]. split; unfold bump; cbn; auto.
  intros c. destruct (counters_ b); cbn; intros; simplify_eq. auto.
Qed.

(** Removing registry entries. *)
Lemma slots_sublist_wf (l : list nat) (b : DeltaBus) :
  l `sublist_of` slots_ b -> bus_wf b -> bus_wf (b <| slots_ := l |>).
Proof.
  intros Hl [Hnd Hh Hfr Hst Hc]. split; cbn; auto.
  - by eapply sublist_NoDup.
  - intros id Hi. apply Hh. by eapply elem_of_sublist.
Qed.

(** Publishing neither creates nor releases slots. *)
Lemma Publish_frame (p : string) (b : DeltaBus) :
  strong (Publish p b) = strong b /\ next_slot (Publish p b) = next_slot b.
Proof.
  assert (H : forall live b1, strong (fold_left (Publish_one p) live b1) = strong b1 /\
                              next_slot (fold_left (Publish_one p) live b1) = next_slot b1).
  { induction live as [|id l IH]; cbn; [done|]. intros b1.
    destruct (IH (Publish_one p b1 id)) as [-> ->].
    unfold Publish_one, Publish_try. destruct (heap b1 !! id); [|done].
    destruct (TryPush p s) as [? []]; done. }
  unfold Publish, Publish_snapshot. destruct (Publish_scan b (slots_ b)) as [kept live].
  exact (H live (b <| slots_ := kept |>)).
Qed.

Lemma Publish_wf (p : string) (b : DeltaBus) : bus_wf b -> bus_wf (Publish p b).
Proof.
  intros Hw. destruct (Publish_effect p b Hw) as (Eh & Es & Ec).
  destruct Hw as [Hnd Hh Hfr Hst Hc].
  destruct (Publish_frame p b) as [E1 E2]. split; rewrite ?Es, ?E1, ?E2, ?Ec.
  - by apply NoDup_filter.
  - intros id [_ ?]%list_elem_of_filter. rewrite Eh, fmap_is_Some. auto.
  - intros id. rewrite Eh, fmap_is_Some. auto.
  - intros id. rewrite Eh, fmap_is_Some. auto.
  - intros c. destruct (counters_ b) as [c0|]; cbn; intros; simplify_eq.
    destruct (Hc c0 eq_refl). split; [apply u64_range|done].
Qed.

Lemma Subscribe_wf (b : DeltaBus) : bus_wf b -> bus_wf (Subscribe b).1.
Proof.
  intros [Hnd Hh Hfr Hst Hc]. unfold Subscribe; cbn [fst].
  assert (Hn : heap b !! next_slot b = None).
  { apply eq_None_not_Some. intros H. apply Hfr in H. lia. }
  apply bump_wf; [intros c E; cbn in *; destruct (Hc c E); split; [done|apply u32_range]|].
  split; cbn; [| | | |exact Hc].
  - apply NoDup_app. split_and!; [done| |by apply NoDup_singleton].
    intros i Hi ->%list_elem_of_singleton. apply Hh in Hi as [? ?]. congruence.
  - intros i. rewrite elem_of_app, list_elem_of_singleton, lookup_insert_is_Some'. naive_solver.
  - intros i. rewrite lookup_insert_is_Some'. intros [<-|Hi]; [lia|]. apply Hfr in Hi. lia.
  - intros i. rewrite elem_of_union, elem_of_singleton, lookup_insert_is_Some'. naive_solver.
Qed.

Lemma Unsubscribe_wf (slot : option nat) (b : DeltaBus) : bus_wf b -> bus_wf (Unsubscribe slot b).
Proof.
  intros Hw. destruct slot as [id|]; [|done]. cbn. unfold Unsubscribe_erase.
  rewrite Unsubscribe_scan_spec. set (b1 := on_slot _ _ b).
  assert (H1 : bus_wf b1) by by apply on_slot_wf. clearbody b1.
  assert (H2 : bus_wf (b1 <| slots_ := filter (fun i => is_Some (lock b1 i) /\ i <> id) (slots_ b1) |>))
    by (apply slots_sublist_wf; [apply sublist_filter|done]).
  case_match; [|done]. apply bump_wf; [|done]. intros c E. cbn in *.
  destruct (wf_counters _ H1 c E). split; [done|apply u32_range].
Qed.

Lemma EvictAll_wf (r : EvictionReason) (b : DeltaBus) : bus_wf b -> bus_wf (EvictAll r b).
Proof.
  intros Hw. unfold EvictAll, EvictAll_take. set (live := filter _ _).
  assert (H1 : bus_wf (b <| slots_ := [] |>)) by (apply slots_sublist_wf; [apply sublist_nil_l|done]).
  revert H1. generalize (b <| slots_ := [] |>) (length live). clearbody live. clear Hw b.
  intros b1 n. revert n b1. induction live as [|id l IH]; cbn; intros n b1 H1; [|auto using on_slot_wf].
  unfold EvictAll_count. case_decide; [done|]. apply bump_wf; [|done]. intros c E.
  cbn. destruct (wf_counters _ H1 c E). split; [done|apply u32_range].
Qed.

(** ** The subscriber gauge *)

Inductive op :=
  | OpSubscribe | OpPublish (p : string) | OpUnsubscribe (id : nat)
  | OpEvictAll (r : EvictionReason) | OpPop (id : nat) | OpRelease (id : nat).

(** Sessions give up a slot's handle only after unsubscribing it. *)
Definition op_step (o : op) (b : DeltaBus) : option DeltaBus :=
  match o with
  | OpSubscribe => Some (Subscribe b).1
  | OpPublish p => Some (Publish p b)
  | OpUnsubscribe id => Some (Unsubscribe (Some id) b)
  | OpEvictAll r => Some (EvictAll r b)
  | OpPop id => Some (on_slot id (fun s => (pop_front s).1) b)
  | OpRelease id => if decide (id ∈ slots_ b) then None else Some (Release id b)
  end.

Fixpoint op_run (os : list op) (b : DeltaBus) : option DeltaBus :=
  match os with
  | [] => Some b
  | o :: os' => op_step o b ≫= op_run os'
  end.

Definition gauge_exact (b : DeltaBus) : Prop :=
  (forall id, id ∈ slots_ b -> id ∈ strong b) /\
  forall c, counters_ b = Some c -> subscriber_count c = u32 (size_of (slots_ b)).

Lemma lock_registered (b : DeltaBus) (id : nat) :
  bus_wf b -> (forall i, i ∈ slots_ b -> i ∈ strong b) -> id ∈ slots_ b -> is_Some (lock b id).
Proof. intros Hw Hs Hi. unfold lock. rewrite decide_True by auto. by apply (wf_heap _ Hw). Qed.

Lemma filter_live (b : DeltaBus) :
  bus_wf b -> (forall i, i ∈ slots_ b -> i ∈ strong b) ->
  filter (fun id => is_Some (lock b id)) (slots_ b) = slots_ b.
Proof. intros Hw Hs. apply filter_all, Forall_forall. auto using lock_registered. Qed.

Lemma size_filter_ne (id : nat) (l : list nat) : NoDup l -> id ∈ l ->
  size_of (filter (fun i => i <> id) l) = size_of l - 1.
Proof.
  induction 1 as [|a l Ha Hnd IH]; intros Hi; [by apply elem_of_nil in Hi|].
  rewrite filter_cons, size_of_cons. destruct (decide (a = id)) as [->|Hne].
  - rewrite decide_False by auto. rewrite filter_all; [lia|].
    apply Forall_forall. intros x Hx ->. done.
  - rewrite decide_True by done. rewrite size_of_cons. apply elem_of_cons in Hi as [|Hi]; [done|].
    rewrite IH by done. lia.
Qed.

Lemma u32_pred (n : Z) : u32 (u32 n - 1) = u32 (n - 1).
Proof. unfold u32. by rewrite Zminus_mod_idemp_l. Qed.
Lemma u32_succ (n : Z) : u32 (u32 n + 1) = u32 (n + 1).
Proof. unfold u32. by rewrite Zplus_mod_idemp_l. Qed.

Lemma Unsubscribe_gauge (id : nat) (b : DeltaBus) :
  bus_wf b -> gauge_exact b -> gauge_exact (Unsubscribe (Some id) b).
Proof.
  intros Hw [Hs Hg]. unfold Unsubscribe, Unsubscribe_erase. rewrite Unsubscribe_scan_spec.
  set (b1 := on_slot _ _ b).
  assert (Hlk : forall i, is_Some (lock b1 i) <-> is_Some (lock b i)).
  { intros i. unfold lock, b1, on_slot; cbn. case_decide; [|done]. by rewrite lookup_alter_is_Some. }
  change (slots_ b1) with (slots_ b).
  replace (filter (fun i => is_Some (lock b1 i) /\ i <> id) (slots_ b))
    with (filter (fun i => i <> id) (slots_ b)).
  2:{ apply filter_ext_in. intros i Hi. rewrite Hlk.
      pose proof (lock_registered b i Hw Hs Hi). tauto. }
  assert (Hs' : forall i, i ∈ filter (fun i => i <> id) (slots_ b) -> i ∈ strong b)
    by (intros i [_ ?]%list_elem_of_filter; auto).
  case_bool_decide as Hd; split; cbn; try done.
  - intros c. destruct (counters_ b) as [c0|] eqn:E; cbn; intros; simplify_eq/=.
    rewrite (Hg c0 eq_refl), u32_pred. destruct Hd. by rewrite size_filter_ne by (apply Hw || done).
  - intros c Hc. rewrite (Hg c Hc). f_equal. f_equal. symmetry. apply filter_all, Forall_forall.
    intros i Hi ->. apply Hd. split; [done|]. apply Hlk. by apply lock_registered.
Qed.

Lemma on_slots_frame (f : SubscriberSlot -> SubscriberSlot) (live : list nat) (b : DeltaBus) :
  let b' := fold_left (fun b id => on_slot id f b) live b in
  slots_ b' = slots_ b /\ counters_ b' = counters_ b.
Proof.
  revert b. induction live as [|i l IH]; cbn; intros b; [done|].
  by destruct (IH (on_slot i f b)) as [-> ->].
Qed.

Lemma EvictAll_gauge (r : EvictionReason) (b : DeltaBus) :
  bus_wf b -> gauge_exact b -> gauge_exact (EvictAll r b).
Proof.
  intros Hw [Hs Hg]. unfold EvictAll, EvictAll_take. rewrite filter_live by done.
  set (b1 := fold_left _ _ _).
  assert (Hb1 : slots_ b1 = [] /\ counters_ b1 = counters_ b).
  { exact (on_slots_frame _ _ (b <| slots_ := [] |>)). }
  destruct Hb1 as [Hsl Hc1]. unfold EvictAll_count. case_decide as Hd; split; cbn; rewrite Hsl.
  - intros i Hi. by apply elem_of_nil in Hi.
  - rewrite Hc1. intros c Hc. rewrite (Hg c Hc). unfold size_of. by rewrite Hd.
  - intros i Hi. by apply elem_of_nil in Hi.
  - rewrite Hc1. intros c. destruct (counters_ b) as [c0|] eqn:E; cbn; intros; simplify_eq/=.
    rewrite (Hg c0 eq_refl). unfold size_of. by rewrite Z.sub_diag.
Qed.

Lemma op_step_gauge (o : op) (b b' : DeltaBus) :
  op_step o b = Some b' -> bus_wf b -> gauge_exact b -> bus_wf b' /\ gauge_exact b'.
Proof.
  intros Ho Hw Hg. destruct o; cbn in Ho; simplify_eq.
  - split; [by apply Subscribe_wf|]. destruct Hg as [Hs Hg]. split; cbn.
    + intros i. rewrite elem_of_app, elem_of_union, list_elem_of_singleton, elem_of_singleton. naive_solver.
    + intros c. destruct (counters_ b) as [c0|]; cbn; intros; simplify_eq/=.
      by rewrite (Hg c0 eq_refl), u32_succ, size_of_app.
  - split; [by apply Publish_wf|]. destruct (Publish_spec p b Hw) as (_ & Es & Ec).
    destruct (Publish_frame p b) as [Est _]. destruct Hg as [Hs Hg].
    unfold gauge_exact. rewrite Es, Ec, Est, filter_live by done. split; [done|].
    intros c. destruct (counters_ b); cbn; intros; simplify_eq/=. auto.
  - split; [exact (Unsubscribe_wf (Some id) b Hw)|exact (Unsubscribe_gauge id b Hw Hg)].
  - split; [by apply EvictAll_wf|by apply EvictAll_gauge].
  - split; [by apply on_slot_wf|done].
  - case_decide; simplify_eq. destruct Hw as [Hnd Hh Hf Hst Hc]. destruct Hg as [Hs Hg]. split.
    + split; cbn; try done. intros i Hi. apply Hst. set_solver.
    + split; cbn; [|done]. intros i Hi. set_solver.
Qed.

(** As long as sessions unsubscribe a slot before dropping it, the
    [subscriber_count] gauge equals the number of registered slots after any
    sequence of subscribe, publish, unsubscribe, evict-all, pop and release. *)
Theorem subscriber_count_exact (os : list op) (b : DeltaBus) :
  op_run os (DeltaBus_new (Some Counters_new)) = Some b ->
  forall c, counters_ b = Some c -> subscriber_count c = u32 (size_of (slots_ b)).
Proof.
  intros Hr. cut (bus_wf b /\ gauge_exact b); [by intros [_ [_ H]]|].
  assert (H0 : bus_wf (DeltaBus_new (Some Counters_new)) /\ gauge_exact (DeltaBus_new (Some Counters_new))).
  { split; [apply DeltaBus_new_wf; intros ? [= <-]; by compute|].
    split; cbn; [intros i Hi; by apply elem_of_nil in Hi|by intros ? [= <-]]. }
  revert Hr H0. generalize (DeltaBus_new (Some Counters_new)).
  induction os as [|o os IH]; cbn; intros b0 Hr [Hw Hg]; [by simplify_eq|].
  destruct (op_step o b0) as [b1|] eqn:E; [|done].
  apply (IH b1 Hr). by eapply op_step_gauge.
Qed.

Lemma subscriber_count_exact_witness :
  exists b, op_run [OpSubscribe; OpSubscribe; OpPublish "x"; OpUnsubscribe 0; OpRelease 0]
              (DeltaBus_new (Some Counters_new)) = Some b /\
    forall c, counters_ b = Some c -> subscriber_count c = u32 1.
Proof.
  eexists. split; [vm_compute; reflexivity|].
  refine (subscriber_count_exact
    [OpSubscribe; OpSubscribe; OpPublish "x"; OpUnsubscribe 0; OpRelease 0] _ _).
  vm_compute. reflexivity.
Defined.

Lemma Publish_spec_witness :
  let b := (Subscribe (DeltaBus_new None)).1 in
  queue_ <$> heap (Publish "x" b) !! 0%nat = Some ["x"%string].
Proof.
  cbn zeta. rewrite (proj1 (Publish_spec "x" _ (Subscribe_wf _ (DeltaBus_new_wf None ltac:(done)))) 0%nat).
  vm_compute. reflexivity.
Defined.

(** * Interleavings

    The engine thread's publish runs as its pieces: the snapshot under the bus
    mutex, then one push (and, when it fails, one eviction) per live slot
    outside it.  Between any two pieces other threads subscribe, unsubscribe,
    evict and pop.  [published], [delivered] and [joined] are histories: what was
    handed to [Publish], what each consumer popped, and how many payloads had
    been published when the slot was created. *)
Module Interleave.

Record World := {
  bus : DeltaBus;
  inflight : option (string * list nat);   (** payload, slots still to push to *)
  failed : bool;                           (** the push to the first of them failed *)
  published : list string;
  delivered : gmap nat (list string);
  joined : gmap nat nat;
}.

#[export] Instance World_eta : Eta World := fun w =>
  Build_World (bus w) (inflight w) (failed w) (published w) (delivered w) (joined w).

Inductive act :=
  | ASubscribe
  | APublish (p : string)                  (** the engine thread takes its snapshot *)
  | ATryPush                               (** and pushes to the next live slot *)
  | AEvictSlow                             (** and evicts it after a failed push *)
  | ADone                                  (** and returns *)
  | AEvict (id : nat) (r : EvictionReason) (** first action of [Unsubscribe]; loop of [EvictAll] *)
  | AErase (id : nat)                      (** locked region of [Unsubscribe] *)
  | ATakeAll                               (** locked region of [EvictAll] *)
  | ACount (n : nat)                       (** its gauge update *)
  | APop (id : nat)
  | ARelease (id : nat).

Definition pending (w : World) : list nat :=
  match inflight w with Some (_, l) => l | None => [] end.

Definition act_step (a : act) (w : World) : option World :=
  match a with
  | ASubscribe =>
      let '(b, id) := Subscribe (bus w) in
      Some (w <| bus := b |> <| delivered ::= insert id [] |>
              <| joined ::= insert id (length (published w)) |>)
  | APublish p =>
      if inflight w is Some _ then None
      else let '(b, live) := Publish_snapshot (bus w) in
           Some (w <| bus := b |> <| inflight := Some (p, live) |>
                   <| published ::= fun h => h ++ [p] |>)
  | ATryPush =>
      match inflight w with
      | Some (p, id :: rest) =>
          if failed w then None
          else let '(b, ok) := Publish_try p id (bus w) in
               if ok then Some (w <| bus := b |> <| inflight := Some (p, rest) |>)
               else Some (w <| bus := b |> <| failed := true |>)
      | _ => None
      end
  | AEvictSlow =>
      match inflight w with
      | Some (p, id :: rest) =>
          if failed w
          then Some (w <| bus ::= Publish_evict id |> <| inflight := Some (p, rest) |>
                       <| failed := false |>)
          else None
      | _ => None
      end
  | ADone => match inflight w with Some (_, []) => Some (w <| inflight := None |>) | _ => None end
  | AEvict id r =>
      if decide (r = kNone) then None
      else Some (w <| bus ::= on_slot id (fun s => (Evict r s).1) |>)
  | AErase id => Some (w <| bus ::= Unsubscribe_erase id |>)
  | ATakeAll => Some (w <| bus ::= fun b => (EvictAll_take b).1 |>)
  | ACount n => Some (w <| bus ::= EvictAll_count n |>)
  | APop id =>
      match heap (bus w) !! id ≫= BlockingPop with
      | Some (s, o) =>
          Some (w <| bus ::= on_slot id (fun _ => s) |>
                  <| delivered ::= alter (fun d => d ++ option_list o) id |>)
      | None => None
      end
  | ARelease id =>
      if decide (id ∈ pending w) then None else Some (w <| bus ::= Release id |>)
  end.

Fixpoint act_run (acts : list act) (w : World) : option World :=
  match acts with
  | [] => Some w
  | a :: acts' => act_step a w ≫= act_run acts'
  end.

Definition World_new (c : option Counters) : World :=
  {| bus := DeltaBus_new c; inflight := None; failed := false; published := [];
     delivered := ∅; joined := ∅ |}.

(** ** The invariant of one slot *)

(** What the consumer received followed by what waits for it is a contiguous
    segment of the published history starting where the slot joined; [post] is
    the part it has not been offered. *)
Definition slot_inv (w : World) (id : nat) (s : SubscriberSlot) : Prop :=
  exists pre ds post,
    joined w !! id = Some (length pre) /\ delivered w !! id = Some ds /\
    published w = pre ++ (ds ++ queue_ s) ++ post /\
    capacity_ s = kDefaultCapacity /\ (length (queue_ s) <= capacity_ s)%nat /\
    (eviction_ s = kNone -> id ∈ pending w -> length post = 1%nat) /\
    (eviction_ s = kNone -> id ∈ slots_ (bus w) -> id ∉ pending w -> post = []).

Record world_inv (w : World) : Prop := {
  inv_slots : forall id s, heap (bus w) !! id = Some s -> slot_inv w id s;
  inv_nodup : NoDup (slots_ (bus w));
  inv_pending : NoDup (pending w);
  inv_last : forall p l, inflight w = Some (p, l) -> exists h, published w = h ++ [p];
  inv_fresh : forall id, is_Some (heap (bus w) !! id) -> (id < next_slot (bus w))%nat;
  inv_reg : forall id, id ∈ slots_ (bus w) ++ pending w -> is_Some (heap (bus w) !! id);
}.

(** A slot's invariant depends on the world only through its own histories and
    on whether it is registered and pending. *)
Lemma slot_inv_frame (w w' : World) (id : nat) (s s' : SubscriberSlot) :
  slot_inv w id s ->
  queue_ s' = queue_ s -> capacity_ s' = capacity_ s ->
  (eviction_ s' = kNone -> eviction_ s = kNone) ->
  joined w' !! id = joined w !! id -> delivered w' !! id = delivered w !! id ->
  published w' = published w ->
  (id ∈ pending w' -> id ∈ pending w) ->
  (id ∈ slots_ (bus w') -> id ∉ pending w' ->
     eviction_ s' = kNone -> id ∈ slots_ (bus w) /\ id ∉ pending w) ->
  slot_inv w' id s'.
Proof.
  intros (pre & ds & post & Hj & Hd & Hp & Hc & Hl & H1 & H2) Eq Ec Ee Ej Ed Ep Hpe Hsl.
  exists pre, ds, post. rewrite Eq, Ec, Ej, Ed, Ep. split_and!; try done; [by auto|].
  intros He Hs Hn. destruct (Hsl Hs Hn He). auto.
Qed.

(** Steps that leave the heap alone and at most shrink the registry. *)
Lemma world_inv_registry (w : World) (b : DeltaBus) :
  heap b = heap (bus w) -> next_slot b = next_slot (bus w) ->
  slots_ b `sublist_of` slots_ (bus w) ->
  world_inv w -> world_inv (w <| bus := b |>).
Proof.
  intros Eh En Hsub [H1 H2 H3 H4 H5 H6]. split; cbn; rewrite ?Eh, ?En; auto.
  - intros id s Hs. eapply slot_inv_frame; [by eauto|try done..]; cbn.
    intros Hi Hn _. split; [by eapply elem_of_sublist|done].
  - exact (sublist_NoDup _ _ H2 Hsub).
  - intros id [Hi|Hi]%elem_of_app; apply H6, elem_of_app; [left|by right].
    by eapply elem_of_sublist.
Qed.

(** Steps that change one slot's state and maybe shrink the pending list. *)
Lemma world_inv_slot (w w' : World) (id : nat) (f : SubscriberSlot -> SubscriberSlot) :
  heap (bus w') = alter f id (heap (bus w)) ->
  next_slot (bus w') = next_slot (bus w) -> slots_ (bus w') = slots_ (bus w) ->
  published w' = published w ->
  pending w' `sublist_of` pending w ->
  (forall i, i <> id -> i ∈ pending w -> i ∈ pending w') ->
  (forall i, i <> id -> joined w' !! i = joined w !! i /\ delivered w' !! i = delivered w !! i) ->
  (forall p l, inflight w' = Some (p, l) -> exists l', inflight w = Some (p, l')) ->
  (forall s, heap (bus w) !! id = Some s -> slot_inv w id s -> slot_inv w' id (f s)) ->
  world_inv w -> world_inv w'.
Proof.
  intros Eh En Es Ep Hsub Hkeep Hother Hin Hid [H1 H2 H3 H4 H5 H6].
  split; rewrite ?Eh, ?En, ?Es, ?Ep; auto.
  - intros i s. destruct (decide (i = id)) as [->|Hne].
    + rewrite lookup_alter_eq, fmap_Some. intros (s0 & Hs0 & ->). auto.
    + rewrite lookup_alter_ne by done. intros Hs. destruct (Hother i Hne).
      eapply slot_inv_frame; [by eauto|try done..].
      * intros Hi. by eapply elem_of_sublist.
      * rewrite Es. intros Hr Hn _. split; [done|]. auto.
  - exact (sublist_NoDup _ _ H3 Hsub).
  - intros p l Hp. destruct (Hin p l Hp) as [l' Hp']. eauto.
  - intros i. rewrite lookup_alter_is_Some. auto.
  - intros i Hi. rewrite lookup_alter_is_Some. apply H6. rewrite elem_of_app in *.
    destruct Hi as [|Hi]; [by left|right]. by eapply elem_of_sublist.
Qed.

Lemma pending_Some (w : World) (p : string) (l : list nat) :
  inflight w = Some (p, l) -> pending w = l.
Proof. unfold pending. by intros ->. Qed.

Lemma step_ASubscribe (w w' : World) :
  act_step ASubscribe w = Some w' -> world_inv w -> world_inv w'.
Proof.
  intros Hs [H1 H2 H3 H4 H5 H6]. cbn in Hs. injection Hs as <-.
  set (id := next_slot (bus w)) in *.
  assert (Hid : forall i, i ∈ slots_ (bus w) ++ pending w -> i <> id)
    by (intros i Hi ->; apply H6, H5 in Hi; lia).
  split; cbn; try done.
  - intros i s. destruct (decide (i = id)) as [->|Hne].
    + rewrite lookup_insert_eq. intros [= <-]. exists (published w), [], []. cbn.
      rewrite !lookup_insert_eq, app_nil_r. split_and!; try done; [lia|].
      intros _ Hp. exfalso. eapply (Hid id); [|done]. apply elem_of_app. by right.
    + rewrite lookup_insert_ne by done. intros Hs.
      eapply slot_inv_frame; [by eauto|try done..]; cbn; try (by rewrite lookup_insert_ne).
      intros Hi Hn _. split; [|done]. apply elem_of_app in Hi as [|Hi]; [done|].
      by apply list_elem_of_singleton in Hi.
  - apply NoDup_app. split_and!; [done| |by apply NoDup_singleton].
    intros i Hi ->%list_elem_of_singleton. apply (Hid id); [|done]. apply elem_of_app. by left.
  - intros i. rewrite lookup_insert_is_Some'. intros [<-|Hi]; [lia|]. apply H5 in Hi. subst id. lia.
  - intros i. change (pending _) with (pending w).
    rewrite lookup_insert_is_Some', !elem_of_app, list_elem_of_singleton.
    intros [[Hi| ->]|Hi]; [right|by left|right]; apply H6, elem_of_app; auto.
Qed.

Lemma step_APublish (p : string) (w w' : World) :
  act_step (APublish p) w = Some w' -> world_inv w -> world_inv w'.
Proof.
  intros Hs [H1 H2 H3 H4 H5 H6]. cbn in Hs. destruct (inflight w) as [|] eqn:Ei; [done|].
  assert (Hpn : pending w = []) by (unfold pending; by rewrite Ei).
  unfold Publish_snapshot in Hs. rewrite Publish_scan_spec in Hs. fold (targets (bus w)) in Hs.
  injection Hs as <-. split; cbn.
  - intros id s Hs. destruct (H1 id s Hs) as (pre & ds & post & Hj & Hd & Hp & Hc & Hl & Ha & Hb).
    assert (Hpost : eviction_ s = kNone -> id ∈ slots_ (bus w) -> post = [])
      by (intros; apply Hb; [done..|rewrite Hpn; apply not_elem_of_nil]).
    exists pre, ds, (post ++ [p]). cbn. split_and!; try done.
    + rewrite Hp. by rewrite <- !app_assoc.
    + unfold pending; cbn. intros He [_ Hi]%list_elem_of_filter. by rewrite Hpost.
    + unfold pending, targets; cbn. rewrite !list_elem_of_filter. intros He [Hlk Hi] Hn.
      exfalso. apply Hn. split; [|done]. unfold lock in *. case_decide; [|by destruct Hlk].
      rewrite Hs. cbn. by rewrite <- He.
  - by apply NoDup_filter.
  - unfold pending; cbn. by apply NoDup_filter.
  - intros ? ? [= <- <-]. eauto.
  - done.
  - intros id. unfold pending, targets; cbn. rewrite elem_of_app, !list_elem_of_filter.
    intros Hi. apply H6, elem_of_app. left. tauto.
Qed.

Lemma step_ATryPush (w w' : World) :
  act_step ATryPush w = Some w' -> world_inv w -> world_inv w'.
Proof.
  intros Hs Hw. cbn in Hs. destruct (inflight w) as [[p [|id rest]]|] eqn:Ei; try done.
  destruct (failed w); [done|]. pose proof (pending_Some _ _ _ Ei) as Hpe.
  pose proof (inv_pending _ Hw) as Hnd. rewrite Hpe in Hnd. apply NoDup_cons in Hnd as [Hid _].
  destruct (inv_reg _ Hw id) as [s Hsl]; [rewrite Hpe, elem_of_app; right; left|].
  unfold Publish_try in Hs. rewrite Hsl in Hs. destruct (TryPush p s) as [s' []] eqn:Et; injection Hs as <-.
  - apply TryPush_true in Et as (He & Hroom & ->).
    eapply (world_inv_slot w _ id); [reflexivity|try done..]; unfold pending; cbn; try rewrite Ei.
    + by apply sublist_cons.
    + intros i Hi. rewrite elem_of_cons. tauto.
    + intros ? ? [= <- <-]. eauto.
    + intros s0 Hs0; rewrite Hsl in Hs0; injection Hs0 as <-. intros (pre & ds & post & Hj & Hd & Hp & Hc & Hl & Ha & Hb).
      assert (Hpost : post = [p]).
      { destruct (inv_last _ Hw _ _ Ei) as [h Hh].
        destruct post as [|x [|]]; try (by rewrite Hpe in Ha; specialize (Ha He ltac:(left))).
        rewrite Hh in Hp. rewrite app_assoc in Hp. by apply app_inj_2 in Hp as [_ ->]. }
      exists pre, ds, []. cbn. split_and!; try done.
      * rewrite Hp, Hpost, app_nil_r. by rewrite <- !app_assoc.
      * rewrite length_app; cbn. lia.
  - apply TryPush_false in Et as (Hq & He & Hc & _).
    eapply (world_inv_slot w _ id); [reflexivity|try done..]; unfold pending; cbn; try rewrite Ei; try done.
    + intros ? ? [= <- <-]. eauto.
    + intros s0 Hs0; rewrite Hsl in Hs0; injection Hs0 as <-. intros Hi. eapply slot_inv_frame; [exact Hi|try done..];
        unfold pending; cbn; rewrite ?He, ?Ei; done.
Qed.

Lemma step_AEvictSlow (w w' : World) :
  act_step AEvictSlow w = Some w' -> world_inv w -> world_inv w'.
Proof.
  intros Hs Hw. cbn in Hs. destruct (inflight w) as [[p [|id rest]]|] eqn:Ei; try done.
  destruct (failed w); [|done]. injection Hs as <-.
  eapply (world_inv_slot w _ id); [reflexivity|try done..]; unfold pending; cbn; try rewrite Ei.
  - by apply sublist_cons.
  - intros i Hi. rewrite elem_of_cons. tauto.
  - intros ? ? [= <- <-]. eauto.
  - intros s _ Hi. pose proof (Evict_spec kSlowConsumer s) as (Eq & Ec & _ & Ee); cbn zeta in *.
    assert (Hne : eviction_ (Evict kSlowConsumer s).1 <> kNone) by (rewrite Ee; case_decide; done).
    eapply slot_inv_frame; [exact Hi|try done..]; unfold pending; cbn; rewrite Ei.
    intros ?. by right.
Qed.

Lemma step_APop (id : nat) (w w' : World) :
  act_step (APop id) w = Some w' -> world_inv w -> world_inv w'.
Proof.
  intros Hs Hw. cbn in Hs. destruct (heap (bus w) !! id) as [s|] eqn:Hsl; [|done]. cbn in Hs.
  unfold BlockingPop in Hs. destruct (pop_ready s); [|done].
  destruct (pop_front s) as [s' o] eqn:Ep. injection Hs as <-.
  apply pop_front_spec in Ep as (Eq & Ee & Ec & _).
  eapply (world_inv_slot w _ id); [reflexivity|try done..]; cbn.
  - intros i Hi. by rewrite lookup_alter_ne.
  - intros p l Hp. eauto.
  - intros s0 Hs0 (pre & ds & post & Hj & Hd & Hp & Hc & Hl & Ha & Hb). simplify_eq.
    exists pre, (ds ++ option_list o), post. cbn. rewrite lookup_alter_eq, Hd, Ee, Ec.
    split_and!; try done.
    + by rewrite Hp, Eq, <- !app_assoc.
    + rewrite Eq, length_app in Hl. lia.
Qed.

Lemma act_step_inv (a : act) (w w' : World) :
  act_step a w = Some w' -> world_inv w -> world_inv w'.
Proof.
  intros Hs Hw. destruct a.
  - by eapply step_ASubscribe.
  - by eapply step_APublish.
  - by eapply step_ATryPush.
  - by eapply step_AEvictSlow.
  - cbn in Hs. destruct (inflight w) as [[p [|]]|] eqn:Ei; try done. injection Hs as <-.
    pose proof (pending_Some _ _ _ Ei) as Hpe. destruct Hw as [H1 H2 H3 H4 H5 H6].
    assert (Hpn : forall w0, pending (w0 <| inflight := None |>) = []) by done.
    split; rewrite ?Hpn; cbn; try done; [|constructor|by rewrite Hpe in H6].
    intros id s Hs. eapply slot_inv_frame; [by eauto|try done..]; rewrite ?Hpn, Hpe; done.
  - cbn in Hs. case_decide as Hr; [done|]. injection Hs as <-.
    eapply (world_inv_slot w _ id); [reflexivity|try done..]; cbn; [by eauto|].
    intros s _ Hi. pose proof (Evict_spec r s) as (Eq & Ec & _ & Ee); cbn zeta in *.
    eapply slot_inv_frame; [exact Hi|try done..]. rewrite Ee. case_decide; done.
  - injection Hs as <-. unfold Unsubscribe_erase. rewrite Unsubscribe_scan_spec.
    case_match; apply world_inv_registry; try done; apply sublist_filter.
  - injection Hs as <-. apply world_inv_registry; try done. apply sublist_nil_l.
  - injection Hs as <-. apply world_inv_registry; try done; unfold EvictAll_count; by case_decide.
  - by eapply step_APop.
  - cbn in Hs. case_decide; [done|]. injection Hs as <-. by apply world_inv_registry.
Qed.

Lemma act_run_inv (acts : list act) (w w' : World) :
  act_run acts w = Some w' -> world_inv w -> world_inv w'.
Proof.
  revert w. induction acts as [|a acts IH]; cbn; intros w Hr Hw; [by simplify_eq|].
  destruct (act_step a w) as [w1|] eqn:E; [|done]. eauto using act_step_inv.
Qed.

Lemma World_new_inv (c : option Counters) : world_inv (World_new c).
Proof.
  split; cbn; [|constructor|constructor|done|..]; intros id.
  - intros s Hs. by rewrite lookup_empty in Hs.
  - rewrite lookup_empty. by intros [].
  - intros Hi. by apply elem_of_nil in Hi.
Qed.

(** Only a publish extends the published history. *)
Lemma act_step_published (a : act) (w w' : World) :
  act_step a w = Some w' -> published w' = published w ++ match a with APublish p => [p] | _ => [] end.
Proof.
  intros Ha. destruct a; cbn in Ha; rewrite ?app_nil_r; repeat case_match; simplify_eq; done.
Qed.

(** A slot persists, and its histories change only by its own pops. *)
Lemma act_step_frame (a : act) (w w' : World) (id : nat) :
  world_inv w -> act_step a w = Some w' -> is_Some (heap (bus w) !! id) -> a <> APop id ->
  is_Some (heap (bus w') !! id) /\ joined w' !! id = joined w !! id /\ delivered w' !! id = delivered w !! id.
Proof.
  intros Hw Ha Hid Hpop. destruct a; cbn in Ha.
  - injection Ha as <-. cbn. pose proof (inv_fresh _ Hw id Hid). rewrite lookup_insert_is_Some'.
    rewrite !lookup_insert_ne by lia. auto.
  - destruct (inflight w); [done|]. unfold Publish_snapshot in Ha. destruct (Publish_scan _ _).
    injection Ha as <-. done.
  - destruct (inflight w) as [[p [|i rest]]|]; try done. destruct (failed w); [done|].
    destruct (Publish_try p i (bus w)) as [b ok] eqn:E.
    assert (Hh : is_Some (heap b !! id)).
    { unfold Publish_try in E. destruct (heap (bus w) !! i); [|by injection E as <- <-].
      destruct (TryPush p s). injection E as <- <-. by apply lookup_alter_is_Some. }
    destruct ok; injection Ha as <-; done.
  - destruct (inflight w) as [[p [|i rest]]|]; try done. destruct (failed w); [|done]. injection Ha as <-.
    cbn. by rewrite lookup_alter_is_Some.
  - destruct (inflight w) as [[p [|]]|]; try done. by injection Ha as <-.
  - case_decide; [done|]. injection Ha as <-. cbn. by rewrite lookup_alter_is_Some.
  - injection Ha as <-. cbn. unfold Unsubscribe_erase. by destruct (Unsubscribe_scan _ _ _) as [? []].
  - injection Ha as <-. done.
  - injection Ha as <-. cbn. unfold EvictAll_count. by case_decide.
  - destruct (heap (bus w) !! id0 ≫= BlockingPop) as [[s o]|]; [|done]. injection Ha as <-. cbn.
    rewrite lookup_alter_is_Some, lookup_alter_ne by congruence. done.
  - case_decide; [done|]. by injection Ha as <-.
Qed.

(** C6. In-order, gap-free delivery under every interleaving of publishes,
    subscriptions, cancellations, evictions and pops: what a subscriber has
    received followed by what is queued for it is a contiguous segment of
    everything published, starting at the first payload published after it
    joined; and while it is registered and not evicted, it lacks at most the
    payload being published right now, and nothing once that publish returned.
    Its queue never exceeds 8192 payloads. *)
Theorem delivery_gap_free (c : option Counters) (acts : list act) (w : World)
    (id : nat) (s : SubscriberSlot) :
  act_run acts (World_new c) = Some w -> heap (bus w) !! id = Some s ->
  exists pre ds post,
    joined w !! id = Some (length pre) /\ delivered w !! id = Some ds /\
    published w = pre ++ (ds ++ queue_ s) ++ post /\
    (QueueDepth s <= Z.to_nat 8192)%nat /\
    (Eviction s = kNone -> id ∈ slots_ (bus w) -> (length post <= 1)%nat) /\
    (Eviction s = kNone -> id ∈ slots_ (bus w) -> inflight w = None -> post = []).
Proof.
  intros Hr Hs. pose proof (act_run_inv _ _ _ Hr (World_new_inv c)) as Hw.
  destruct (inv_slots _ Hw id s Hs) as (pre & ds & post & Hj & Hd & Hp & Hc & Hl & Ha & Hb).
  exists pre, ds, post. split_and!; try done.
  - rewrite Hc in Hl. exact Hl.
  - intros He Hi. destruct (decide (id ∈ pending w)) as [Hpe|Hpe]; [rewrite Ha by done; lia|rewrite Hb by done; cbn; lia].
  - intros He Hi Hin. apply Hb; [done..|]. unfold pending. rewrite Hin. apply not_elem_of_nil.
Qed.

Definition demo_world_of (c : option Counters) (acts : list act) : World :=
  default (World_new c) (act_run acts (World_new c)).
Definition demo_world : list act -> World := demo_world_of None.
Definition demo_slot (w : World) : SubscriberSlot := default (Slot_new 0) (heap (bus w) !! 0%nat).

Definition demo_acts : list act :=
  [ASubscribe; APublish "a"; ATryPush; ADone; ASubscribe; APop 0; APublish "b"; ATryPush].

Lemma delivery_gap_free_witness :
  exists pre ds post, joined (demo_world demo_acts) !! 0%nat = Some (length pre) /\
    delivered (demo_world demo_acts) !! 0%nat = Some ds /\
    published (demo_world demo_acts) = pre ++ (ds ++ queue_ (demo_slot (demo_world demo_acts))) ++ post.
Proof.
  destruct (delivery_gap_free None demo_acts (demo_world demo_acts) 0%nat (demo_slot (demo_world demo_acts)))
    as (pre & ds & post & Hj & Hd & Hp & _); [vm_compute; reflexivity..|].
  exists pre, ds, post. exact (conj Hj (conj Hd Hp)).
Defined.

(** ** An eviction is final *)

Lemma Evict_final (r : EvictionReason) (s : SubscriberSlot) :
  eviction_ s <> kNone -> Evict r s = (s, false).
Proof. intros H. unfold Evict. by rewrite decide_False. Qed.

Definition final (s s' : SubscriberSlot) : Prop :=
  eviction_ s' = eviction_ s /\ dropped_ s' = dropped_ s /\ queue_ s' `suffix_of` queue_ s.

Lemma final_refl (s : SubscriberSlot) : final s s.
Proof. done. Qed.

Lemma final_trans (s1 s2 s3 : SubscriberSlot) : final s1 s2 -> final s2 s3 -> final s1 s3.
Proof. unfold final. intros (-> & -> & ?) (-> & -> & ?). split_and!; try done. by etrans. Qed.

Lemma on_slot_final (i id : nat) (f : SubscriberSlot -> SubscriberSlot) (b : DeltaBus) (s : SubscriberSlot) :
  heap b !! id = Some s -> (i = id -> final s (f s)) ->
  exists s', heap (on_slot i f b) !! id = Some s' /\ final s s'.
Proof.
  intros Hs Hf. unfold on_slot; cbn. destruct (decide (i = id)) as [->|Hne].
  - rewrite lookup_alter_eq, Hs. cbn. eauto.
  - rewrite lookup_alter_ne by done. eauto using final_refl.
Qed.

Lemma act_step_final (a : act) (w w' : World) (id : nat) (s : SubscriberSlot) :
  world_inv w -> act_step a w = Some w' ->
  heap (bus w) !! id = Some s -> eviction_ s <> kNone ->
  exists s', heap (bus w') !! id = Some s' /\ final s s'.
Proof.
  intros Hw Ha Hs He.
  assert (Hev : forall i r, i = id -> final s (Evict r s).1)
    by (intros i r _; rewrite Evict_final by done; apply final_refl).
  destruct a; cbn in Ha.
  - injection Ha as <-. cbn. rewrite lookup_insert_ne; [eauto using final_refl|].
    intros <-. pose proof (inv_fresh _ Hw (next_slot (bus w)) ltac:(eauto)). lia.
  - destruct (inflight w); [done|]. destruct (Publish_snapshot (bus w)) as [b l] eqn:E.
    injection Ha as <-. cbn. unfold Publish_snapshot in E.
    destruct (Publish_scan _ _); injection E as <- <-. eauto using final_refl.
  - destruct (inflight w) as [[p [|i rest]]|]; try done. destruct (failed w); [done|].
    unfold Publish_try in Ha. destruct (heap (bus w) !! i) as [si|] eqn:Esi.
    2:{ injection Ha as <-. eauto using final_refl. }
    destruct (TryPush p si) as [s' ok] eqn:Et.
    assert (Hf : i = id -> final s s').
    { intros ->. rewrite Hs in Esi. injection Esi as <-. unfold TryPush in Et.
      rewrite bool_decide_eq_false_2 in Et by done. by simplify_eq/=. }
    destruct ok; injection Ha as <-; by apply on_slot_final.
  - destruct (inflight w) as [[p [|i rest]]|]; try done. destruct (failed w); [|done].
    injection Ha as <-. cbn. apply on_slot_final; eauto.
  - destruct (inflight w) as [[p [|]]|]; try done. injection Ha as <-. eauto using final_refl.
  - case_decide; [done|]. injection Ha as <-. apply on_slot_final; eauto.
  - injection Ha as <-. cbn. unfold Unsubscribe_erase. destruct (Unsubscribe_scan _ _ _) as [? []];
      eauto using final_refl.
  - injection Ha as <-. eauto using final_refl.
  - injection Ha as <-. cbn. unfold EvictAll_count. case_decide; eauto using final_refl.
  - destruct (heap (bus w) !! id0) as [si|] eqn:Esi; [|done]. cbn in Ha. unfold BlockingPop in Ha.
    destruct (pop_ready si); [|done]. destruct (pop_front si) as [s' o] eqn:Ep. injection Ha as <-.
    apply on_slot_final; [done|]. intros ->. rewrite Hs in Esi. injection Esi as <-.
    apply pop_front_spec in Ep as (Eq & Ee & _ & Ed). split_and!; try done. by exists (option_list o).
  - case_decide; [done|]. injection Ha as <-. eauto using final_refl.
Qed.

(** An eviction is final: whatever the threads do afterwards, the slot keeps
    the first reason it was given, and its queue is only drained, never extended,
    so the consumer receives what was queued and then stops. *)
Theorem eviction_final (c : option Counters) (acts acts' : list act) (w w' : World)
    (id : nat) (s : SubscriberSlot) :
  act_run acts (World_new c) = Some w -> heap (bus w) !! id = Some s -> Eviction s <> kNone ->
  act_run acts' w = Some w' ->
  exists s', heap (bus w') !! id = Some s' /\ Eviction s' = Eviction s /\
    queue_ s' `suffix_of` queue_ s.
Proof.
  intros Hr. pose proof (act_run_inv _ _ _ Hr (World_new_inv c)) as Hw. clear Hr.
  intros Hs He Hr. cut (exists s', heap (bus w') !! id = Some s' /\ final s s').
  { intros (s' & ? & ? & _ & ?). eauto. }
  revert w s Hw Hs He Hr. induction acts' as [|a acts' IH]; cbn; intros w s Hw Hs He Hr.
  - simplify_eq. eauto using final_refl.
  - destruct (act_step a w) as [w1|] eqn:Ea; [|done].
    destruct (act_step_final a w w1 id s Hw Ea Hs He) as (s1 & Hs1 & Hf1).
    destruct (IH w1 s1) as (s2 & Hs2 & Hf2); [by eapply act_step_inv|done| |done|].
    + destruct Hf1 as (Ee1 & _). unfold Eviction. by rewrite Ee1.
    + eauto using final_trans.
Qed.

Definition demo_evict : list act := [ASubscribe; APublish "a"; ATryPush; ADone; AEvict 0 kCanceled].
Definition demo_after : list act := [APop 0; APublish "b"; ADone; AEvict 0 kFault].

Lemma eviction_final_witness :
  exists s', heap (bus (demo_world (demo_evict ++ demo_after))) !! 0%nat = Some s' /\
    Eviction s' = kCanceled.
Proof.
  destruct (eviction_final None demo_evict demo_after (demo_world demo_evict)
    (demo_world (demo_evict ++ demo_after)) 0%nat (demo_slot (demo_world demo_evict)))
    as (s' & Hs & He & _);
    [vm_compute; reflexivity | vm_compute; reflexivity | vm_compute; discriminate
    | vm_compute; reflexivity |].
  exists s'. split; [exact Hs | exact He].
Defined.

(** The header promises that no push reaches a slot after [Unsubscribe]
    returned.  A publish that took its snapshot before still pushes to it: there
    is an interleaving in which [Unsubscribe] has completed, the engine thread
    then calls [TryPush] on the cancelled slot, and counts it as a dropped slow
    subscriber although its reason is [kCanceled] and its queue was empty. *)
Theorem push_after_unsubscribe :
  exists before after w w1 s,
    before = [ASubscribe; APublish "a"; AEvict 0 kCanceled; AErase 0] /\
    after = [ATryPush; AEvictSlow; ADone] /\
    act_run before (World_new (Some Counters_new)) = Some w /\
    slots_ (bus w) = [] /\ pending w = [0%nat] /\
    act_run after w = Some w1 /\
    heap (bus w1) !! 0%nat = Some s /\ Eviction s = kCanceled /\ queue_ s = [] /\
    cumulative_dropped_subscribers <$> counters_ (bus w1) = Some 1.
Proof.
  set (before := [ASubscribe; APublish "a"; AEvict 0 kCanceled; AErase 0]).
  set (after := [ATryPush; AEvictSlow; ADone]).
  set (w1 := demo_world_of (Some Counters_new) (before ++ after)).
  exists before, after, (demo_world_of (Some Counters_new) before), w1, (demo_slot w1).
  split_and!; vm_compute; reflexivity.
Qed.

End Interleave.
