(* ===== verification/SnapshotTick.v ===== *)
(** The snapshot scheduler (grpc/SnapshotTick.h, .cpp): a frame-driven
    decision whether to emit a periodic snapshot, with a cadence that doubles
    while the unit count is over its cap and a flag by which an RPC forces an
    emission.  All arithmetic is at 32 bits. *)

From S2P Require Import Prelude.

Record SnapshotTickConfig := {
  cfg_cadence_frames : Z;
  cfg_max_units : Z;
}.

Record SnapshotPumpResult := {
  emit : bool;
  stamped_cadence : Z;
  forced : bool;
}.

Record SnapshotTick := {
  snapshot_cadence_frames_ : Z;
  snapshot_max_units_ : Z;
  effective_cadence_frames_ : Z;
  next_snapshot_frame_ : Z;
  configured_ : bool;
  pending_request_ : bool;
}.

#[export] Instance SnapshotTick_eta : Eta SnapshotTick := fun t =>
  Build_SnapshotTick (snapshot_cadence_frames_ t) (snapshot_max_units_ t)
    (effective_cadence_frames_ t) (next_snapshot_frame_ t) (configured_ t) (pending_request_ t).

Definition kMaxEffectiveCadenceFrames : Z := 1024.

Definition SnapshotTick_default : SnapshotTick :=
  {| snapshot_cadence_frames_ := 30; snapshot_max_units_ := 1000;
     effective_cadence_frames_ := 30; next_snapshot_frame_ := 30;
     configured_ := false; pending_request_ := false |}.

Definition Configure (cfg : SnapshotTickConfig) (t : SnapshotTick) : SnapshotTick :=
  {| snapshot_cadence_frames_ := cfg_cadence_frames cfg;
     snapshot_max_units_ := cfg_max_units cfg;
     effective_cadence_frames_ := cfg_cadence_frames cfg;
     next_snapshot_frame_ := cfg_cadence_frames cfg;
     configured_ := true;
     pending_request_ := pending_request_ t |}.

(** A worker's [PendingRequest().store(true)]. *)
Definition RequestPending (t : SnapshotTick) : SnapshotTick := t <| pending_request_ := true |>.

(** The cadence in effect after an emission. *)
Definition next_cadence (own_units_count : Z) (t : SnapshotTick) : Z :=
  let eff := effective_cadence_frames_ t in
  if snapshot_max_units_ t <? own_units_count then
    let doubled := u32 (eff * 2) in
    let doubled := if doubled <? eff then kMaxEffectiveCadenceFrames else doubled in
    if kMaxEffectiveCadenceFrames <? doubled then kMaxEffectiveCadenceFrames else doubled
  else if snapshot_cadence_frames_ t <? eff then snapshot_cadence_frames_ t
  else eff.

Definition Pump (frame own_units_count : Z) (t : SnapshotTick) : SnapshotTick * SnapshotPumpResult :=
  let forced := pending_request_ t in
  let t := t <| pending_request_ := false |> in
  let cadence_due := next_snapshot_frame_ t <=? frame in
  if negb forced && negb cadence_due
  then (t, {| emit := false; stamped_cadence := 0; forced := false |})
  else
    let out := {| emit := true; stamped_cadence := effective_cadence_frames_ t; forced := forced |} in
    let eff := next_cadence own_units_count t in
    (t <| effective_cadence_frames_ := eff |>
       <| next_snapshot_frame_ := u32 (frame + eff) |>, out).

(** One pump per frame, on consecutive frames; an input is the unit count of
    the frame and whether a request arrived before it. *)
Fixpoint run_frames (frame : Z) (inputs : list (Z * bool)) (t : SnapshotTick)
    : SnapshotTick * list SnapshotPumpResult :=
  match inputs with
  | [] => (t, [])
  | (units, req) :: rest =>
      let t := if req then RequestPending t else t in
      let '(t, r) := Pump frame units t in
      let '(t, rs) := run_frames (frame + 1) rest t in (t, r :: rs)
  end.

(** ** The cadence stays between the configured base and 1024 *)

Definition cfg_ok (cfg : SnapshotTickConfig) : Prop :=
  1 <= cfg_cadence_frames cfg <= kMaxEffectiveCadenceFrames.

Definition tick_inv (t : SnapshotTick) : Prop :=
  1 <= snapshot_cadence_frames_ t <= effective_cadence_frames_ t /\
  effective_cadence_frames_ t <= kMaxEffectiveCadenceFrames.

Lemma next_cadence_inv (units : Z) (t : SnapshotTick) : tick_inv t ->
  snapshot_cadence_frames_ t <= next_cadence units t <= kMaxEffectiveCadenceFrames /\
  (snapshot_max_units_ t < units ->
     next_cadence units t = (2 * effective_cadence_frames_ t) `min` kMaxEffectiveCadenceFrames) /\
  (units <= snapshot_max_units_ t -> next_cadence units t = snapshot_cadence_frames_ t).
Proof.
  unfold tick_inv, next_cadence, kMaxEffectiveCadenceFrames. intros [? ?].
  rewrite (u32_small (effective_cadence_frames_ t * 2)) by lia.
  destruct (Z.ltb_spec (effective_cadence_frames_ t * 2) (effective_cadence_frames_ t)); [lia|].
  repeat match goal with |- context [?a <? ?b] => destruct (Z.ltb_spec a b) end; lia.
Qed.

Lemma Pump_inv (frame units : Z) (t : SnapshotTick) : tick_inv t -> tick_inv (Pump frame units t).1.
Proof.
  intros Hi. unfold Pump. case_match; [done|].
  destruct (next_cadence_inv units t Hi) as (H1 & _ & _).
  change (next_cadence units (t <| pending_request_ := false |>)) with (next_cadence units t).
  unfold tick_inv in *. cbn -[next_cadence]. lia.
Qed.

Lemma Pump_stamp (frame units : Z) (t : SnapshotTick) :
  emit (Pump frame units t).2 = true -> stamped_cadence (Pump frame units t).2 = effective_cadence_frames_ t.
Proof. unfold Pump. case_match; done. Qed.

Lemma Pump_frame (frame units : Z) (t : SnapshotTick) :
  snapshot_cadence_frames_ (Pump frame units t).1 = snapshot_cadence_frames_ t /\
  snapshot_max_units_ (Pump frame units t).1 = snapshot_max_units_ t.
Proof. unfold Pump. case_match; done. Qed.

(** Whatever the unit counts, the requests and the frames, a scheduler
    configured with a cadence in [1, 1024] stamps every emitted snapshot with a
    cadence between the configured one and 1024. *)
Theorem stamped_cadence_range (cfg : SnapshotTickConfig) (t0 : SnapshotTick) (frame : Z)
    (inputs : list (Z * bool)) (r : SnapshotPumpResult) :
  cfg_ok cfg -> r ∈ (run_frames frame inputs (Configure cfg t0)).2 -> emit r = true ->
  cfg_cadence_frames cfg <= stamped_cadence r <= kMaxEffectiveCadenceFrames.
Proof.
  intros Hc. assert (Hi : tick_inv (Configure cfg t0))
    by (unfold cfg_ok, tick_inv in *; cbn; lia).
  assert (Hb : snapshot_cadence_frames_ (Configure cfg t0) = cfg_cadence_frames cfg) by done.
  revert frame Hi Hb. generalize (Configure cfg t0).
  induction inputs as [|[units req] rest IH]; intros t frame Hi Hb Hr He; cbn in Hr.
  { by apply elem_of_nil in Hr. }
  set (t1 := if req then RequestPending t else t) in Hr.
  assert (Hi1 : tick_inv t1) by (subst t1; destruct req; done).
  assert (Hb1 : snapshot_cadence_frames_ t1 = cfg_cadence_frames cfg) by (subst t1; destruct req; done).
  pose proof (Pump_inv frame units t1 Hi1) as Hi2. pose proof (Pump_stamp frame units t1) as Hs.
  pose proof (Pump_frame frame units t1) as [Hf _].
  destruct (Pump frame units t1) as [t2 r2] eqn:Ep; cbn in *.
  destruct (run_frames (frame + 1) rest t2) as [t3 rs] eqn:Er; cbn in *.
  apply elem_of_cons in Hr as [->|Hr].
  - rewrite (Hs He). unfold tick_inv in Hi1. lia.
  - eapply (IH t2 (frame + 1)); [done|congruence|by rewrite Er|done].
Qed.

Lemma stamped_cadence_range_witness :
  30 <= stamped_cadence {| emit := true; stamped_cadence := 60; forced := true |} <= 1024.
Proof.
  apply (stamped_cadence_range {| cfg_cadence_frames := 30; cfg_max_units := 5 |} SnapshotTick_default 30
    [(9, false); (9, true)]); [unfold cfg_ok, kMaxEffectiveCadenceFrames; cbn; lia | | reflexivity].
  vm_compute. apply list_elem_of_further, list_elem_of_here.
Defined.

(** ** The steady schedule *)

(** An emission that nothing forced happens exactly when the frame reached the
    schedule, and reschedules at the frame plus the new cadence. *)
Lemma Pump_unforced (frame units : Z) (t : SnapshotTick) :
  pending_request_ t = false ->
  emit (Pump frame units t).2 = (next_snapshot_frame_ t <=? frame) /\
  forced (Pump frame units t).2 = false /\
  pending_request_ (Pump frame units t).1 = false /\
  next_snapshot_frame_ (Pump frame units t).1
  = (if next_snapshot_frame_ t <=? frame then u32 (frame + next_cadence units t)
     else next_snapshot_frame_ t) /\
  effective_cadence_frames_ (Pump frame units t).1
  = (if next_snapshot_frame_ t <=? frame then next_cadence units t
     else effective_cadence_frames_ t).
Proof.
  intros Hp. unfold Pump. rewrite Hp. cbn.
  destruct (next_snapshot_frame_ t <=? frame); cbn; split_and!; done.
Qed.

(** The schedule of a steady scheduler at frame [f]: the next multiple of the
    cadence that was not emitted yet. *)
Record steady (cadence f : Z) (t : SnapshotTick) : Prop := {
  st_base : snapshot_cadence_frames_ t = cadence;
  st_eff : effective_cadence_frames_ t = cadence;
  st_pending : pending_request_ t = false;
  st_next : exists k, 1 <= k /\ next_snapshot_frame_ t = k * cadence /\
              (k - 1) * cadence < f + (if decide (k = 1) then 1 else 0) /\ f <= k * cadence;
}.

Lemma Pump_steady (cadence f units : Z) (t : SnapshotTick) :
  1 <= cadence <= kMaxEffectiveCadenceFrames -> 0 <= f -> f + kMaxEffectiveCadenceFrames < 2 ^ 32 ->
  units <= snapshot_max_units_ t -> steady cadence f t ->
  steady cadence (f + 1) (Pump f units t).1 /\
  (emit (Pump f units t).2 = true <-> 0 < f /\ f `mod` cadence = 0).
Proof.
  intros Hc Hf Hw Hu [Hb He Hp (k & Hk & Hn & Hlo & Hhi)]. unfold kMaxEffectiveCadenceFrames in *.
  assert (Hnc : next_cadence units t = cadence).
  { rewrite <- Hb. apply (next_cadence_inv units t); [|done].
    unfold tick_inv, kMaxEffectiveCadenceFrames. lia. }
  destruct (Pump_unforced f units t Hp) as (Ee & _ & Ep & En & Eeff).
  destruct (Pump_frame f units t) as [Eb _].
  rewrite Hnc in *. split.
  - split; [congruence| |done|].
    + rewrite Eeff. by case_match.
    + rewrite En. destruct (Z.leb_spec (next_snapshot_frame_ t) f).
      * exists (k + 1). rewrite u32_small by lia. rewrite decide_False by lia.
        assert (f = k * cadence) by lia. subst f. split_and!; nia.
      * exists k. rewrite Hn in *. split_and!; lia.
  - rewrite Ee. rewrite Z.leb_le, Hn. split.
    + intros ?. assert (f = k * cadence) as -> by lia. split; [nia|]. apply Z_mod_mult.
    + intros [Hpos Hm]. apply Z.mod_divide in Hm as [j ->]; [|lia].
      assert (0 < j) by nia. assert (k <= j) by (case_decide; subst; nia). nia.
Qed.

Lemma run_steady (cadence f : Z) (units : list Z) (t : SnapshotTick) (i : nat) (r : SnapshotPumpResult) :
  1 <= cadence <= kMaxEffectiveCadenceFrames -> 0 <= f ->
  f + size_of units + kMaxEffectiveCadenceFrames <= 2 ^ 32 ->
  Forall (fun u => u <= snapshot_max_units_ t) units -> steady cadence f t ->
  (run_frames f ((fun u => (u, false)) <$> units) t).2 !! i = Some r ->
  emit r = true <-> 0 < f + Z.of_nat i /\ (f + Z.of_nat i) `mod` cadence = 0.
Proof.
  intros Hc. revert f t i. induction units as [|u units IH]; intros f t i Hf Hw Hu Hs Hr; [done|].
  rewrite size_of_cons in Hw. pose proof (size_of_nonneg units).
  apply Forall_cons in Hu as [Hu0 Hu]. cbn in Hr.
  destruct (Pump_steady cadence f u t Hc Hf ltac:(lia) Hu0 Hs) as [Hs' He].
  destruct (Pump_frame f u t) as [_ Em].
  destruct (Pump f u t) as [t1 r1]; cbn [fst snd] in *.
  destruct (run_frames (f + 1) _ t1) as [t2 rs] eqn:Er; cbn in Hr.
  destruct i as [|i]; cbn in Hr.
  - simplify_eq. by rewrite Z.add_0_r.
  - replace (f + Z.of_nat (S i)) with (f + 1 + Z.of_nat i) by lia.
    apply (IH (f + 1) t1 i); [lia|lia|by rewrite Em|done|by rewrite Er].
Qed.

(** While the unit count stays within its cap and nothing is requested, a
    scheduler configured with a cadence in [1, 1024] and pumped once per frame
    from frame 0 emits at exactly the positive multiples of the cadence, for
    as long as frame numbers fit their width. *)
Theorem steady_schedule (cfg : SnapshotTickConfig) (units : list Z) (i : nat) (r : SnapshotPumpResult) :
  cfg_ok cfg -> size_of units + kMaxEffectiveCadenceFrames <= 2 ^ 32 ->
  Forall (fun u => u <= cfg_max_units cfg) units ->
  (run_frames 0 ((fun u => (u, false)) <$> units) (Configure cfg SnapshotTick_default)).2 !! i = Some r ->
  emit r = true <-> 0 < Z.of_nat i /\ Z.of_nat i `mod` cfg_cadence_frames cfg = 0.
Proof.
  intros Hc Hw Hu Hr. apply (run_steady (cfg_cadence_frames cfg) 0 units) in Hr; try done.
  split; try done. exists 1. unfold cfg_ok in Hc. rewrite decide_True by done. cbn. lia.
Qed.

Definition demo_cfg : SnapshotTickConfig := {| cfg_cadence_frames := 30; cfg_max_units := 1000 |}.
Definition demo_run : list SnapshotPumpResult :=
  (run_frames 0 ((fun u => (u, false)) <$> replicate 100 7) (Configure demo_cfg SnapshotTick_default)).2.
Definition demo_frame (i : nat) : SnapshotPumpResult :=
  default {| emit := false; stamped_cadence := 0; forced := false |} (demo_run !! i).

Lemma steady_schedule_witness : emit (demo_frame 60) = true /\ ~ emit (demo_frame 61) = true.
Proof.
  pose proof (fun i r => steady_schedule demo_cfg (replicate 100 7) i r
    ltac:(unfold cfg_ok, kMaxEffectiveCadenceFrames; cbn; lia) ltac:(vm_compute; discriminate)
    ltac:(apply Forall_replicate; cbn; lia)) as H.
  split.
  - apply (H 60%nat (demo_frame 60)); [vm_compute; reflexivity | split; [lia | reflexivity]].
  - rewrite (H 61%nat (demo_frame 61)); [|vm_compute; reflexivity]. vm_compute. intros [_ Hm]. discriminate Hm.
Defined.

(** ** No starvation *)

Lemma Pump_no_emit (f units : Z) (t : SnapshotTick) :
  emit (Pump f units t).2 = false ->
  f < next_snapshot_frame_ t /\ next_snapshot_frame_ (Pump f units t).1 = next_snapshot_frame_ t.
Proof. unfold Pump. case_match; cbn; [|done]. bools. done. Qed.

Lemma run_emits (f : Z) (inputs : list (Z * bool)) (t : SnapshotTick) :
  next_snapshot_frame_ t < f + size_of inputs ->
  f <= next_snapshot_frame_ t ->
  exists r, r ∈ (run_frames f inputs t).2 /\ emit r = true.
Proof.
  revert f t. induction inputs as [|[u q] inputs IH]; intros f t Hlt Hge.
  { rewrite size_of_nil in Hlt. lia. }
  rewrite size_of_cons in Hlt. cbn. set (t0 := if q then RequestPending t else t).
  assert (En : next_snapshot_frame_ t0 = next_snapshot_frame_ t) by (subst t0; by destruct q).
  pose proof (Pump_no_emit f u t0) as Hn. destruct (Pump f u t0) as [t1 r1]; cbn in *.
  destruct (run_frames (f + 1) inputs t1) as [t2 rs] eqn:Er; cbn.
  destruct (emit r1) eqn:Ee; [exists r1; split; [left|done]|].
  destruct (Hn eq_refl) as [H1 H2].
  destruct (IH (f + 1) t1) as (r & Hr & He); [lia..|]. rewrite Er in Hr. exists r. split; [by right|done].
Qed.

(** The stream is never starved: after an emission at any frame (below the
    wrap of the frame counter), every run of 1024 further frames contains
    another emission, however many units there are. *)
Theorem emission_within_1024 (f units : Z) (t : SnapshotTick) (inputs : list (Z * bool)) :
  tick_inv t -> 0 <= f -> f + kMaxEffectiveCadenceFrames < 2 ^ 32 ->
  emit (Pump f units t).2 = true -> length inputs = 1024%nat ->
  exists r, r ∈ (run_frames (f + 1) inputs (Pump f units t).1).2 /\ emit r = true.
Proof.
  intros Hi Hf Hw He Hl. apply run_emits; unfold size_of; rewrite ?Hl;
    destruct (next_cadence_inv units t Hi) as (Hn & _ & _);
    unfold Pump in *; case_match; try done; cbn -[next_cadence];
    change (next_cadence units _) with (next_cadence units t);
    unfold tick_inv, kMaxEffectiveCadenceFrames in *; rewrite u32_small by lia; lia.
Qed.

Lemma emission_within_1024_witness :
  exists r, r ∈ (run_frames 31 (replicate 1024 (5000, false)) (Pump 30 5000 SnapshotTick_default).1).2 /\ emit r = true.
Proof.
  apply (emission_within_1024 30 5000 SnapshotTick_default (replicate 1024 (5000, false))).
  - unfold tick_inv, kMaxEffectiveCadenceFrames; cbn; lia.
  - lia.
  - unfold kMaxEffectiveCadenceFrames; lia.
  - reflexivity.
  - apply length_replicate.
Defined.

(** A pending request is served by the very next pump, exactly once: that
    pump emits and reports the emission as forced, however many requests were
    made, the flag is cleared, the periodic schedule restarts from that frame,
    and the pump of the following frame emits only if the cadence is one. *)
Theorem forced_emission_once (f units units' : Z) (n : nat) (t : SnapshotTick) :
  tick_inv t -> 0 <= f -> f + kMaxEffectiveCadenceFrames < 2 ^ 32 ->
  let t1 := Nat.iter (S n) RequestPending t in
  let '(t2, r) := Pump f units t1 in
  emit r = true /\ forced r = true /\ pending_request_ t2 = false /\
  next_snapshot_frame_ t2 = f + effective_cadence_frames_ t2 /\
  (emit (Pump (f + 1) units' t2).2 = true <-> effective_cadence_frames_ t2 = 1).
Proof.
  intros Hi Hf Hw t1.
  assert (Ht1 : t1 = t <| pending_request_ := true |>).
  { subst t1. induction n as [|n IH]; cbn in *; [done|]. by rewrite IH. }
  rewrite Ht1. destruct (next_cadence_inv units t Hi) as (Hn & _ & _).
  unfold Pump at 1. cbn -[next_cadence u32 Pump].
  change (next_cadence units _) with (next_cadence units t).
  unfold tick_inv, kMaxEffectiveCadenceFrames in *. rewrite u32_small by lia.
  split_and!; try done.
  match goal with |- emit (Pump _ _ ?t2).2 = true <-> _ =>
    rewrite (proj1 (Pump_unforced (f + 1) units' t2 eq_refl)) end. cbn -[next_cadence].
  rewrite Z.leb_le. lia.
Qed.

Lemma forced_emission_once_witness :
  emit (Pump 7 3 (Nat.iter 2 RequestPending SnapshotTick_default)).2 = true.
Proof.
  refine (proj1 (forced_emission_once 7 3 3 1 SnapshotTick_default _ _ _));
    unfold tick_inv, kMaxEffectiveCadenceFrames; cbn; lia.
Defined.

(** Clients are told to expect the next snapshot at the frame number plus
    the stamped cadence.  On an emission over the unit cap the next periodic
    snapshot is scheduled at twice the stamped cadence (up to 1024) instead. *)
Theorem stamp_is_not_next (f units : Z) (t : SnapshotTick) :
  tick_inv t -> 0 <= f -> f + kMaxEffectiveCadenceFrames < 2 ^ 32 ->
  snapshot_max_units_ t < units -> emit (Pump f units t).2 = true ->
  next_snapshot_frame_ (Pump f units t).1
  = f + (2 * stamped_cadence (Pump f units t).2) `min` kMaxEffectiveCadenceFrames.
Proof.
  intros Hi Hf Hw Hu He. rewrite (Pump_stamp _ _ _ He).
  destruct (next_cadence_inv units t Hi) as (Hn & Hd & _). rewrite <- (Hd Hu).
  unfold Pump in *. case_match; [done|]. cbn -[next_cadence u32].
  change (next_cadence units _) with (next_cadence units t).
  unfold tick_inv, kMaxEffectiveCadenceFrames in *. apply u32_small. lia.
Qed.

Lemma stamp_is_not_next_witness :
  next_snapshot_frame_ (Pump 120 2000 (SnapshotTick_default <| effective_cadence_frames_ := 240 |>)).1 = 120 + 480.
Proof.
  refine (stamp_is_not_next 120 2000 (SnapshotTick_default <| effective_cadence_frames_ := 240 |>) _ _ _ _ _);
    unfold tick_inv, kMaxEffectiveCadenceFrames; cbn; (reflexivity || lia).
Defined.
