(* ===== verification/OrderStateTracker.v ===== *)
(** The engine-thread order tracker (grpc/OrderStateTracker.h, .cpp): per unit,
    the last accepted batch, whether an order is active, and a generation that
    changes when the unit is removed. *)

From S2P Require Import Prelude Proto.

Record OrderState := {
  unit_id : Z;
  generation : Z;
  last_command_frame : Z;
  last_batch_seq : Z;
  active_client_command_id : Z;
  active_intent_class : string;
  busy : bool;
  released : bool;
}.

#[export] Instance OrderState_eta : Eta OrderState := fun s =>
  Build_OrderState (unit_id s) (generation s) (last_command_frame s) (last_batch_seq s)
    (active_client_command_id s) (active_intent_class s) (busy s) (released s).

Definition OrderState_default : OrderState :=
  {| unit_id := 0; generation := 0; last_command_frame := 0; last_batch_seq := 0;
     active_client_command_id := 0; active_intent_class := ""; busy := false; released := true |}.

Record OrderCheckResult := { ok : bool; issue : CommandIssue }.

(** [states_]. *)
Abbreviation OrderStateTracker := (gmap Z OrderState).

(** [states_[unit_id]], which inserts a default state. *)
Definition state_of (u : Z) (t : OrderStateTracker) : OrderState :=
  default OrderState_default (t !! u).

Definition FillIssue (code : CommandIssueCode) (batch_seq client_command_id : Z)
    (field_path detail : string) (retry_hint : RetryHint) : CommandIssue :=
  {| issue_code := code; issue_command_index := 0; issue_field_path := field_path;
     issue_detail := detail; issue_retry_hint := retry_hint;
     issue_batch_seq := batch_seq; issue_client_command_id := client_command_id |}.

Definition CheckAcceptedBatch (u batch_seq client_command_id : Z)
    (policy : CommandConflictPolicy) (t : OrderStateTracker) : OrderCheckResult :=
  match t !! u with
  | None => {| ok := true; issue := CommandIssue_default |}
  | Some state =>
      if batch_seq <=? last_batch_seq state then
        {| ok := false;
           issue := FillIssue STALE_OR_DUPLICATE_BATCH_SEQ batch_seq client_command_id "batch_seq"
                      "batch_seq must increase per unit" RETRY_AFTER_NEXT_SNAPSHOT |}
      else if busy state
           && negb (bool_decide (policy = COMMAND_CONFLICT_REPLACE_CURRENT))
           && negb (bool_decide (policy = COMMAND_CONFLICT_QUEUE_AFTER_CURRENT)) then
        {| ok := false;
           issue := FillIssue ORDER_CONFLICT batch_seq client_command_id "conflict_policy"
                      "unit has an active order" RETRY_AFTER_UNIT_IDLE |}
      else {| ok := true; issue := CommandIssue_default |}
  end.

(** [if (state.generation == 0) state.generation = 1;] *)
Definition first_generation (g : Z) : Z := if g =? 0 then 1 else g.

Definition MarkAccepted (u batch_seq client_command_id frame : Z) (intent_class : string)
    (t : OrderStateTracker) : OrderStateTracker :=
  <[u := (state_of u t) <| unit_id := u |> <| last_batch_seq := batch_seq |>
           <| active_client_command_id := client_command_id |>
           <| last_command_frame := frame |> <| active_intent_class := intent_class |>
           <| busy := true |> <| released := false |>
           <| generation ::= first_generation |>]> t.

Definition MarkIdle (u frame : Z) (t : OrderStateTracker) : OrderStateTracker :=
  <[u := (state_of u t) <| unit_id := u |> <| last_command_frame := frame |>
           <| busy := false |> <| released := true |> <| generation ::= first_generation |>]> t.

Definition MarkUnitRemoved (u frame : Z) (t : OrderStateTracker) : OrderStateTracker :=
  <[u := (state_of u t) <| unit_id := u |> <| last_command_frame := frame |>
           <| busy := false |> <| released := true |>
           <| generation ::= fun g => u64 (g + 1) |>]> t.

Definition Generation (u : Z) (t : OrderStateTracker) : Z :=
  match t !! u with None => 0 | Some s => generation s end.

Definition Get (u : Z) (t : OrderStateTracker) : option OrderState := t !! u.

(** ** The tracker as an admission protocol *)

Inductive event :=
  | EBatch (u batch_seq client_command_id frame : Z) (policy : CommandConflictPolicy) (intent : string)
  | EIdle (u frame : Z)
  | ERemoved (u frame : Z).

(** A batch is checked and, when the check passes, recorded.  The output is the
    accepted (unit, batch_seq) pair. *)
Definition event_step (e : event) (t : OrderStateTracker) : OrderStateTracker * list (Z * Z) :=
  match e with
  | EBatch u seq ccid frame policy intent =>
      if ok (CheckAcceptedBatch u seq ccid policy t)
      then (MarkAccepted u seq ccid frame intent t, [(u, seq)]) else (t, [])
  | EIdle u frame => (MarkIdle u frame t, [])
  | ERemoved u frame => (MarkUnitRemoved u frame t, [])
  end.

Fixpoint event_run (es : list event) (t : OrderStateTracker) : OrderStateTracker * list (Z * Z) :=
  match es with
  | [] => (t, [])
  | e :: es' =>
      let '(t1, a) := event_step e t in
      let '(t2, b) := event_run es' t1 in (t2, a ++ b)
  end.

Definition accepted_of (u : Z) (l : list (Z * Z)) : list Z :=
  (filter (fun p => p.1 = u) l).*2.

Lemma accepted_of_app (u : Z) (l k : list (Z * Z)) :
  accepted_of u (l ++ k) = accepted_of u l ++ accepted_of u k.
Proof. unfold accepted_of. by rewrite filter_app, fmap_app. Qed.

(** ** Lemmas *)

Lemma CheckAcceptedBatch_ok (u seq ccid : Z) (policy : CommandConflictPolicy) (t : OrderStateTracker) :
  ok (CheckAcceptedBatch u seq ccid policy t) = true <->
  forall s, t !! u = Some s ->
    last_batch_seq s < seq /\
    (busy s = true -> policy = COMMAND_CONFLICT_REPLACE_CURRENT \/
                      policy = COMMAND_CONFLICT_QUEUE_AFTER_CURRENT).
Proof.
  unfold CheckAcceptedBatch. destruct (t !! u) as [s|]; [|by split].
  destruct (Z.leb_spec seq (last_batch_seq s)); cbn.
  { split; [done|]. intros H'. destruct (H' s eq_refl). lia. }
  destruct (busy s) eqn:Eb; cbn; [|split; [intros _ ? [= <-]; split; [lia|congruence]|done]].
  repeat case_bool_decide; cbn; (split; [intros Ht ? [= <-]; auto with lia|intros Hs]); try done.
  destruct (Hs s eq_refl) as [_ [|]]; done.
Qed.

Definition known_seq (t : OrderStateTracker) (u : Z) : option Z := last_batch_seq <$> t !! u.

Lemma known_seq_insert (t : OrderStateTracker) (u v : Z) (st : OrderState) :
  known_seq (<[v := st]> t) u = if decide (v = u) then Some (last_batch_seq st) else known_seq t u.
Proof.
  unfold known_seq. case_decide; subst; [by rewrite lookup_insert_eq|].
  by rewrite lookup_insert_ne.
Qed.

Lemma known_seq_state (t : OrderStateTracker) (u b : Z) :
  known_seq t u = Some b -> last_batch_seq (state_of u t) = b.
Proof. unfold known_seq, state_of. destruct (t !! u); naive_solver. Qed.

(** Only an accepted batch changes the last sequence number of a unit. *)
Lemma event_step_seq (e : event) (t t' : OrderStateTracker) (acc : list (Z * Z)) (u : Z) :
  event_step e t = (t', acc) ->
  (accepted_of u acc = [] /\ forall b, known_seq t u = Some b -> known_seq t' u = Some b) \/
  (exists s, accepted_of u acc = [s] /\ (forall b, known_seq t u = Some b -> b < s) /\
     known_seq t' u = Some s).
Proof.
  destruct e as [v seq ccid frame policy intent|v frame|v frame]; cbn.
  - destruct (ok _) eqn:E; intros; simplify_eq; [|by left].
    unfold accepted_of, MarkAccepted. rewrite known_seq_insert, filter_cons.
    rewrite CheckAcceptedBatch_ok in E. cbn.
    destruct (decide (v = u)) as [->|Hne]; [right|left; split; done].
    exists seq. split_and!; try done. unfold known_seq. intros b (s & Hs & ->)%fmap_Some.
    by apply E in Hs as [].
  - intros; simplify_eq. left. split; [done|]. intros b Hb. unfold MarkIdle.
    rewrite known_seq_insert. case_decide; [|done]. subst. cbn. f_equal. by apply known_seq_state.
  - intros; simplify_eq. left. split; [done|]. intros b Hb. unfold MarkUnitRemoved.
    rewrite known_seq_insert. case_decide; [|done]. subst. cbn. f_equal. by apply known_seq_state.
Qed.

Lemma event_run_increasing (es : list event) (t : OrderStateTracker) (u : Z) :
  let l := accepted_of u (event_run es t).2 in
  StronglySorted Z.lt l /\ forall b, known_seq t u = Some b -> Forall (Z.lt b) l.
Proof.
  revert t. induction es as [|e es IH]; intros t; cbn.
  { split; [constructor|]. intros; constructor. }
  destruct (event_step e t) as [t1 a] eqn:E. specialize (IH t1).
  destruct (event_run es t1) as [t2 b]; cbn [snd] in *. rewrite accepted_of_app.
  destruct IH as [Hs Hb].
  destruct (event_step_seq e t t1 a u E) as [[-> Hk]|(s & -> & Hlt & Hk)]; cbn.
  - split; [done|]. auto.
  - split; [constructor; auto|]. intros x Hx. apply Hlt in Hx as Hxs. constructor; [done|].
    eapply Forall_impl; [exact (Hb s Hk)|]. cbn. lia.
Qed.

(** Through any interleaving of batches, idle reports and removals, over
    any units and with any conflict policies, the batch sequence numbers
    accepted for one unit are strictly increasing: a stale or duplicated batch
    is never accepted, not even after the unit was idle or removed. *)
Theorem accepted_seqs_increasing (es : list event) (u : Z) :
  StronglySorted Z.lt (accepted_of u (event_run es ∅).2).
Proof. apply (event_run_increasing es ∅ u). Qed.

Lemma CheckAcceptedBatch_issue (u seq ccid : Z) (policy : CommandConflictPolicy) (t : OrderStateTracker) :
  let r := CheckAcceptedBatch u seq ccid policy t in
  ok r = false ->
  exists s, t !! u = Some s /\
    ((seq <= last_batch_seq s /\ issue_code (issue r) = STALE_OR_DUPLICATE_BATCH_SEQ /\
      issue_retry_hint (issue r) = RETRY_AFTER_NEXT_SNAPSHOT) \/
     (last_batch_seq s < seq /\ busy s = true /\ issue_code (issue r) = ORDER_CONFLICT /\
      issue_retry_hint (issue r) = RETRY_AFTER_UNIT_IDLE)) /\
    issue_batch_seq (issue r) = seq /\ issue_client_command_id (issue r) = ccid.
Proof.
  unfold CheckAcceptedBatch. destruct (t !! u) as [s|]; [|done]. cbn zeta. intros Hr.
  exists s. destruct (Z.leb_spec seq (last_batch_seq s)); cbn in *; [split_and!; auto|].
  destruct (busy s); [|done]. repeat case_bool_decide; cbn in *; try done. split_and!; auto.
Qed.

(** The exact admission rule: a batch passes the check iff the unit was
    never seen, or the batch's number is above the last one and the unit is free
    or the batch says to replace or to queue; a refused batch carries the reason
    (staleness first), its own identifiers and the matching retry hint. *)
Theorem CheckAcceptedBatch_exact (u seq ccid : Z) (policy : CommandConflictPolicy) (t : OrderStateTracker) :
  let r := CheckAcceptedBatch u seq ccid policy t in
  if ok r then
    forall s, Get u t = Some s -> last_batch_seq s < seq /\
      (busy s = true -> policy = COMMAND_CONFLICT_REPLACE_CURRENT \/
                        policy = COMMAND_CONFLICT_QUEUE_AFTER_CURRENT)
  else exists s, Get u t = Some s /\
    ((seq <= last_batch_seq s /\ issue_code (issue r) = STALE_OR_DUPLICATE_BATCH_SEQ /\
      issue_retry_hint (issue r) = RETRY_AFTER_NEXT_SNAPSHOT) \/
     (last_batch_seq s < seq /\ busy s = true /\ issue_code (issue r) = ORDER_CONFLICT /\
      issue_retry_hint (issue r) = RETRY_AFTER_UNIT_IDLE)) /\
    issue_batch_seq (issue r) = seq /\ issue_client_command_id (issue r) = ccid.
Proof.
  cbn zeta. destruct (ok _) eqn:E; [exact (proj1 (CheckAcceptedBatch_ok _ _ _ _ _) E)|].
  by apply CheckAcceptedBatch_issue.
Qed.

(** ** Generations *)

Lemma Generation_insert (t : OrderStateTracker) (u v : Z) (st : OrderState) :
  Generation u (<[v := st]> t) = if decide (v = u) then generation st else Generation u t.
Proof.
  unfold Generation. case_decide; subst; [by rewrite lookup_insert_eq|].
  by rewrite lookup_insert_ne.
Qed.

Lemma generation_state_of (t : OrderStateTracker) (u : Z) : generation (state_of u t) = Generation u t.
Proof. unfold Generation, state_of. by destruct (t !! u). Qed.

Definition removed_unit (e : event) : option Z :=
  match e with ERemoved v _ => Some v | _ => None end.

Definition removals (u : Z) (es : list event) : Z :=
  size_of (filter (fun e => removed_unit e = Some u) es).

Lemma removals_nonneg (u : Z) (es : list event) : 0 <= removals u es.
Proof. apply size_of_nonneg. Qed.

Lemma removals_cons (u : Z) (e : event) (es : list event) :
  removals u (e :: es) = removals u [e] + removals u es.
Proof. unfold removals. rewrite !filter_cons. case_decide; cbn; unfold size_of; cbn; lia. Qed.

Lemma event_step_generation (e : event) (t : OrderStateTracker) (u : Z) :
  0 < Generation u t -> Generation u t + removals u [e] < 2 ^ 64 ->
  Generation u (event_step e t).1 = Generation u t + removals u [e].
Proof.
  unfold removals. intros H0.
  assert (Hfg : first_generation (Generation u t) = Generation u t)
    by (unfold first_generation; destruct (Z.eqb_spec (Generation u t) 0); lia).
  rewrite filter_cons. destruct e as [v seq ccid frame policy intent|v frame|v frame]; cbn;
    [rewrite decide_False by done; rewrite size_of_nil..|].
  - intros _. destruct (ok _); cbn; [|lia]. unfold MarkAccepted. rewrite Generation_insert.
    case_decide; [|lia]. subst. cbn. rewrite generation_state_of, Hfg. lia.
  - intros _. unfold MarkIdle. rewrite Generation_insert. case_decide; [|lia]. subst. cbn.
    rewrite generation_state_of, Hfg. lia.
  - unfold MarkUnitRemoved. rewrite Generation_insert.
    repeat case_decide; simplify_eq; [|rewrite size_of_nil; lia].
    change (size_of [ERemoved u frame]) with 1. cbn. rewrite generation_state_of. intros Hw. rewrite u64_small; lia.
Qed.

(** Once a unit has been seen, its generation grows by one for each removal
    and never otherwise, so a client that remembers a generation can tell a
    reused unit id from the unit it knew. *)
Theorem generation_counts_removals (es : list event) (t : OrderStateTracker) (u : Z) :
  0 < Generation u t -> Generation u t + removals u es < 2 ^ 64 ->
  Generation u (event_run es t).1 = Generation u t + removals u es.
Proof.
  revert t. induction es as [|e es IH]; intros t H0 Hw; [change (removals u []) with 0; cbn; lia|].
  rewrite removals_cons in *. pose proof (removals_nonneg u es). pose proof (removals_nonneg u [e]).
  pose proof (event_step_generation e t u H0 ltac:(lia)) as Hg. cbn.
  destruct (event_step e t) as [t1 a]; cbn [fst] in *. specialize (IH t1).
  destruct (event_run es t1) as [t2 b]; cbn [fst] in *. rewrite IH; lia.
Qed.

Lemma generation_counts_removals_witness :
  Generation 42 (event_run [ERemoved 42 36; EBatch 42 11 1 40 COMMAND_CONFLICT_QUEUE_AFTER_CURRENT "move"]
                  (MarkAccepted 42 10 100 30 "move" ∅)).1 = 2.
Proof.
  refine (generation_counts_removals
    [ERemoved 42 36; EBatch 42 11 1 40 COMMAND_CONFLICT_QUEUE_AFTER_CURRENT "move"]
    (MarkAccepted 42 10 100 30 "move" ∅) 42 _ _); vm_compute; reflexivity.
Defined.
