(* ===== verification/CommandQueue.v ===== *)
(** The bounded command queue (grpc/CommandQueue.h, .cpp) between the gRPC
    workers that push and the engine thread that drains, and the admission of a
    coordinator batch.  Every operation holds [mutex_] for its whole body, so an
    operation is one atomic step and concurrent use is a sequence of them.

    [Class Fifo] is what the queue promises to its clients: the admission and
    the engine thread's drain are reasoned about through it. *)

From S2P Require Import Prelude Proto Counters.

Record QueuedCommand := {
  q_session_id : string;
  q_batch_seq : Z;
  q_client_command_id : Z;
  q_command_index : Z;
  q_authoritative_target_unit_id : Z;
  q_command : AICommand;
}.

Inductive CommandBatchAdmissionStatus :=
  | kAccepted | kInvalidEmpty | kInvalidOversized | kInvalidTarget
  | kInvalidBatchSequence | kInvalidCorrelation | kQueueFull.

#[export] Instance CommandBatchAdmissionStatus_eq_dec : EqDecision CommandBatchAdmissionStatus.
Proof. solve_decision. Defined.

Record CommandBatchResult := {
  status : CommandBatchAdmissionStatus;
  accepted_command_count : Z;
}.

Definition accepted (r : CommandBatchResult) : bool := bool_decide (status r = kAccepted).

Record CommandQueue := {
  counters_ : option Counters;
  capacity_ : Z;
  queue_ : list QueuedCommand;
}.

#[export] Instance CommandQueue_eta : Eta CommandQueue := fun q =>
  Build_CommandQueue (counters_ q) (capacity_ q) (queue_ q).

Definition CommandQueue_new (counters : option Counters) (capacity : Z) : CommandQueue :=
  {| counters_ := counters; capacity_ := capacity; queue_ := [] |}.

(** [counters_->command_queue_depth.store(queue_.size())]. *)
Definition store_depth (q : CommandQueue) : CommandQueue :=
  q <| counters_ ::= fmap (fun c => c <| command_queue_depth := u32 (size_of (queue_ q)) |>) |>.

Definition TryPush (cmd : QueuedCommand) (q : CommandQueue) : CommandQueue * bool :=
  if capacity_ q <=? size_of (queue_ q) then (q, false)
  else (store_depth (q <| queue_ ::= fun l => l ++ [cmd] |>), true).

Definition AvailableCapacity (q : CommandQueue) : Z := u64 (capacity_ q - size_of (queue_ q)).

Definition TryPushBatch (cmds : list QueuedCommand) (q : CommandQueue) : CommandQueue * bool :=
  if u64 (capacity_ q - size_of (queue_ q)) <? size_of cmds then (q, false)
  else (store_depth (q <| queue_ ::= fun l => l ++ cmds |>), true).

(** [out] is the caller's vector, [None] for a null pointer. *)
Definition Drain (out : option (list QueuedCommand)) (max : nat) (q : CommandQueue)
    : CommandQueue * option (list QueuedCommand) * nat :=
  match out with
  | None => (q, None, 0%nat)
  | Some out =>
      let budget := if (max =? 0)%nat then length (queue_ q) else (max `min` length (queue_ q))%nat in
      (store_depth (q <| queue_ := drop budget (queue_ q) |>),
       Some (out ++ take budget (queue_ q)), budget)
  end.

Definition Depth (q : CommandQueue) : Z := size_of (queue_ q).
Definition Capacity (q : CommandQueue) : Z := capacity_ q.

(** ** Batch admission *)

Definition kMaxCoordinatorBatchCommands : Z := 64.

(** The command [i] of a batch as a queue entry. *)
Definition child_of (batch : CommandBatch) (session_id : string) (i : nat) (c : AICommand) : QueuedCommand :=
  {| q_session_id := session_id;
     q_batch_seq := batch_seq batch;
     q_client_command_id := get0 (client_command_id batch);
     q_command_index := u32 (Z.of_nat i);
     q_authoritative_target_unit_id := i32 (target_unit_id batch);
     q_command := c |}.

Definition children (batch : CommandBatch) (session_id : string) : list QueuedCommand :=
  imap_from (child_of batch session_id) 0 (commands batch).

Definition AdmitCommandBatch (queue : CommandQueue) (batch : CommandBatch) (session_id : string)
    : CommandQueue * CommandBatchResult :=
  let command_count := size_of (commands batch) in
  let reject s := (queue, {| status := s; accepted_command_count := 0 |}) in
  if command_count =? 0 then reject kInvalidEmpty
  else if kMaxCoordinatorBatchCommands <? command_count then reject kInvalidOversized
  else if INT_MAX <? target_unit_id batch then reject kInvalidTarget
  else if batch_seq batch =? 0 then reject kInvalidBatchSequence
  else if negb (has (client_command_id batch)) || (get0 (client_command_id batch) =? 0)
  then reject kInvalidCorrelation
  else
    let '(queue', pushed) := TryPushBatch (children batch session_id) queue in
    if pushed then (queue', {| status := kAccepted; accepted_command_count := command_count |})
    else reject kQueueFull.

(** ** The promise to clients *)

(** A bounded first-in first-out queue with atomic batches. *)
Class Fifo (Q A : Type) := {
  fifo_wf : Q -> Prop;
  fifo_contents : Q -> list A;
  fifo_capacity : Q -> Z;
  fifo_push : list A -> Q -> Q * bool;
  fifo_drain : nat -> Q -> Q * list A;
  fifo_bounded : forall q, fifo_wf q -> size_of (fifo_contents q) <= fifo_capacity q;
  fifo_push_ok : forall l q, fifo_wf q ->
    size_of (fifo_contents q) + size_of l <= fifo_capacity q ->
    exists q', fifo_push l q = (q', true) /\ fifo_wf q' /\
      fifo_contents q' = fifo_contents q ++ l /\ fifo_capacity q' = fifo_capacity q;
  fifo_push_full : forall l q, fifo_wf q ->
    fifo_capacity q < size_of (fifo_contents q) + size_of l -> fifo_push l q = (q, false);
  fifo_drain_spec : forall n q q' l, fifo_wf q -> fifo_drain n q = (q', l) ->
    fifo_wf q' /\ fifo_contents q = l ++ fifo_contents q' /\ fifo_capacity q' = fifo_capacity q /\
    (n = 0%nat -> fifo_contents q' = []);
}.

(** The depth gauge mirrors the size, and the queue fits its capacity. *)
Definition depth_ok (q : CommandQueue) : Prop :=
  forall c, counters_ q = Some c -> command_queue_depth c = u32 (Depth q).

Definition queue_wf (q : CommandQueue) : Prop :=
  0 <= size_of (queue_ q) <= capacity_ q /\ capacity_ q < 2 ^ 64 /\ depth_ok q.

Lemma store_depth_ok (q : CommandQueue) : depth_ok (store_depth q).
Proof. unfold depth_ok, store_depth; cbn. intros c (c0 & _ & ->)%fmap_Some. done. Qed.

Lemma CommandQueue_new_wf (capacity : Z) :
  0 <= capacity < 2 ^ 64 -> queue_wf (CommandQueue_new (Some Counters_new) capacity).
Proof. intros. unfold queue_wf, size_of. cbn. split; [lia|]. split; [lia|]. by intros ? [= <-]. Qed.

Lemma TryPushBatch_full (l : list QueuedCommand) (q : CommandQueue) :
  queue_wf q -> capacity_ q < size_of (queue_ q) + size_of l -> TryPushBatch l q = (q, false).
Proof.
  intros (Hc & Hw & _) Hf. unfold TryPushBatch. rewrite u64_small by lia.
  destruct (Z.ltb_spec (capacity_ q - size_of (queue_ q)) (size_of l)); [done|lia].
Qed.

Lemma TryPushBatch_fits (l : list QueuedCommand) (q : CommandQueue) :
  queue_wf q -> size_of (queue_ q) + size_of l <= capacity_ q ->
  TryPushBatch l q = (store_depth (q <| queue_ := queue_ q ++ l |>), true).
Proof.
  intros (Hc & Hw & _) Hf. unfold TryPushBatch. rewrite u64_small by lia.
  destruct (Z.ltb_spec (capacity_ q - size_of (queue_ q)) (size_of l)); [lia|done].
Qed.

Lemma pushed_wf (l : list QueuedCommand) (q : CommandQueue) :
  queue_wf q -> size_of (queue_ q) + size_of l <= capacity_ q ->
  queue_wf (store_depth (q <| queue_ := queue_ q ++ l |>)).
Proof.
  intros (Hc & Hw & _) Hf. split_and!; try apply store_depth_ok; cbn; rewrite ?size_of_app;
    pose proof (size_of_nonneg l); lia.
Qed.

Definition drain_into (n : nat) (q : CommandQueue) : CommandQueue * list QueuedCommand :=
  let '(q', out, _) := Drain (Some []) n q in (q', default [] out).

Lemma drain_into_wf (n : nat) (q : CommandQueue) : queue_wf q -> queue_wf (drain_into n q).1.
Proof.
  intros (Hc & Hw & _). unfold drain_into, Drain; cbn [fst].
  split_and!; try apply store_depth_ok; cbn; unfold size_of in *; rewrite ?length_drop; lia.
Qed.

#[export, refine] Instance CommandQueue_Fifo : Fifo CommandQueue QueuedCommand := {
  fifo_wf := queue_wf;
  fifo_contents := queue_;
  fifo_capacity := capacity_;
  fifo_push := TryPushBatch;
  fifo_drain := drain_into;
}.
Proof.
  - by intros q ([_ H] & _).
  - intros l q Hw Hf. rewrite TryPushBatch_fits by done. eexists. split; [done|].
    split; [by apply pushed_wf|done].
  - intros. by apply TryPushBatch_full.
  - intros n q q' l Hw Hd. pose proof (drain_into_wf n q Hw) as Hw'. rewrite Hd in Hw'.
    split; [done|]. unfold drain_into, Drain in Hd. injection Hd as <- <-. cbn.
    rewrite take_drop. split_and!; try done. intros ->. cbn. apply drop_all.
Defined.

Lemma TryPush_as_batch (cmd : QueuedCommand) (q : CommandQueue) :
  queue_wf q -> TryPush cmd q = TryPushBatch [cmd] q.
Proof.
  intros (Hc & Hw & _). unfold TryPush, TryPushBatch. rewrite u64_small by lia.
  change (size_of [cmd]) with 1.
  destruct (Z.leb_spec (capacity_ q) (size_of (queue_ q)));
    destruct (Z.ltb_spec (capacity_ q - size_of (queue_ q)) 1); lia || done.
Qed.

(** ** Clients of the promise *)

Section FifoClient.
Context {Q A : Type} `{Fifo Q A}.

(** A push that reports success appended everything; one that fails changed
    nothing. *)
Lemma fifo_push_inv (l : list A) (q q' : Q) (b : bool) :
  fifo_wf q -> fifo_push l q = (q', b) ->
  fifo_wf q' /\ fifo_capacity q' = fifo_capacity q /\
  fifo_contents q' = fifo_contents q ++ (if b then l else []) /\
  (b = true <-> size_of (fifo_contents q) + size_of l <= fifo_capacity q).
Proof.
  intros Hw Hp. destruct (decide (size_of (fifo_contents q) + size_of l <= fifo_capacity q)) as [Hf|Hf].
  - destruct (fifo_push_ok l q Hw Hf) as (q1 & E & Hw1 & Hc & Hk). rewrite E in Hp. by simplify_eq.
  - rewrite fifo_push_full in Hp by (done || lia). simplify_eq. by rewrite app_nil_r.
Qed.

Inductive fifo_op := FPush (l : list A) | FDrain (n : nat).

(** The state, what was accepted and what was drained. *)
Definition fifo_step (o : fifo_op) (w : Q * list A * list A) : Q * list A * list A :=
  let '(q, acc, out) := w in
  match o with
  | FPush l => let '(q', b) := fifo_push l q in (q', acc ++ (if b then l else []), out)
  | FDrain n => let '(q', l) := fifo_drain n q in (q', acc, out ++ l)
  end.

Definition fifo_run (os : list fifo_op) (w : Q * list A * list A) : Q * list A * list A :=
  fold_left (fun w o => fifo_step o w) os w.

Definition fifo_inv (w : Q * list A * list A) : Prop :=
  fifo_wf w.1.1 /\ w.1.2 = w.2 ++ fifo_contents w.1.1.

Lemma fifo_run_inv (os : list fifo_op) (w : Q * list A * list A) :
  fifo_inv w -> fifo_inv (fifo_run os w).
Proof.
  revert w. induction os as [|o os IH]; intros [[q acc] out] Hi; cbn; [done|]. apply IH.
  destruct Hi as [Hw Hacc]; cbn in *. destruct o as [l|n]; cbn.
  - destruct (fifo_push l q) as [q' b] eqn:E. apply fifo_push_inv in E as (? & _ & Ec & _); [|done].
    split; [done|]; cbn. by rewrite Ec, Hacc, app_assoc.
  - destruct (fifo_drain n q) as [q' l] eqn:E. apply fifo_drain_spec in E as (? & Ec & _); [|done].
    split; [done|]; cbn. rewrite Hacc, Ec. by rewrite <- app_assoc.
Qed.
End FifoClient.

(** ** The queue loses, duplicates and reorders nothing *)

Inductive queue_op :=
  | QPush (cmd : QueuedCommand)
  | QPushBatch (cmds : list QueuedCommand)
  | QAdmit (batch : CommandBatch) (session_id : string)
  | QDrain (max : nat).

(** The queue, the commands accepted so far and the commands drained so far. *)
Definition queue_step (o : queue_op) (w : CommandQueue * list QueuedCommand * list QueuedCommand)
    : CommandQueue * list QueuedCommand * list QueuedCommand :=
  let '(q, acc, out) := w in
  match o with
  | QPush c => let '(q', b) := TryPush c q in (q', acc ++ (if b then [c] else []), out)
  | QPushBatch l => let '(q', b) := TryPushBatch l q in (q', acc ++ (if b then l else []), out)
  | QAdmit batch sid =>
      let '(q', r) := AdmitCommandBatch q batch sid in
      (q', acc ++ (if accepted r then children batch sid else []), out)
  | QDrain n => let '(q', out', _) := Drain (Some out) n q in (q', acc, default [] out')
  end.

Definition queue_run (os : list queue_op) (w : CommandQueue * list QueuedCommand * list QueuedCommand) :=
  fold_left (fun w o => queue_step o w) os w.

(** Every guard of the admission. *)
Definition admissible (batch : CommandBatch) : bool :=
  negb (size_of (commands batch) =? 0)
  && (size_of (commands batch) <=? kMaxCoordinatorBatchCommands)
  && (target_unit_id batch <=? INT_MAX)
  && negb (batch_seq batch =? 0)
  && has (client_command_id batch) && negb (get0 (client_command_id batch) =? 0).

Lemma AdmitCommandBatch_cases (q : CommandQueue) (batch : CommandBatch) (sid : string) :
  AdmitCommandBatch q batch sid =
  if admissible batch then
    let '(q', pushed) := TryPushBatch (children batch sid) q in
    if pushed then (q', {| status := kAccepted; accepted_command_count := size_of (commands batch) |})
    else (q, {| status := kQueueFull; accepted_command_count := 0 |})
  else (q, (AdmitCommandBatch q batch sid).2).
Proof.
  unfold AdmitCommandBatch, admissible. rewrite !Z.leb_antisym.
  destruct (size_of (commands batch) =? 0); [done|].
  destruct (kMaxCoordinatorBatchCommands <? _); [done|]. destruct (INT_MAX <? _); [done|].
  destruct (batch_seq batch =? 0); [done|]. destruct (has (client_command_id batch)); [|done].
  destruct (get0 (client_command_id batch) =? 0); done.
Qed.

Lemma admit_rejects (q : CommandQueue) (batch : CommandBatch) (sid : string) :
  admissible batch = false -> accepted (AdmitCommandBatch q batch sid).2 = false /\
    status (AdmitCommandBatch q batch sid).2 <> kQueueFull /\
    accepted_command_count (AdmitCommandBatch q batch sid).2 = 0.
Proof.
  unfold AdmitCommandBatch, admissible. rewrite !Z.leb_antisym.
  destruct (size_of (commands batch) =? 0); [done|].
  destruct (kMaxCoordinatorBatchCommands <? _); [done|]. destruct (INT_MAX <? _); [done|].
  destruct (batch_seq batch =? 0); [done|]. destruct (has (client_command_id batch)); [|done].
  destruct (get0 (client_command_id batch) =? 0); done.
Qed.

(** Each operation is one step of the abstract FIFO (or none). *)
Definition queue_op_fifo (o : queue_op) (w : CommandQueue * list QueuedCommand * list QueuedCommand)
    : list (fifo_op (A := QueuedCommand)) :=
  match o with
  | QPush c => [FPush [c]]
  | QPushBatch l => [FPush l]
  | QAdmit batch sid => if admissible batch then [FPush (children batch sid)] else []
  | QDrain n => [FDrain n]
  end.

Lemma queue_step_refines (o : queue_op) (w : CommandQueue * list QueuedCommand * list QueuedCommand) :
  queue_wf w.1.1 -> queue_step o w = fifo_run (queue_op_fifo o w) w.
Proof.
  destruct w as [[q acc] out]; cbn. intros Hw. destruct o as [c|l|batch sid|n]; cbn.
  - by rewrite TryPush_as_batch.
  - done.
  - rewrite AdmitCommandBatch_cases. destruct (admissible batch) eqn:Ea; cbn.
    + destruct (TryPushBatch _ q) as [q' []] eqn:Ep; cbn; [done|].
      unfold TryPushBatch in Ep. case_match; by simplify_eq.
    + destruct (admit_rejects q batch sid Ea) as (-> & _). by rewrite app_nil_r.
  - unfold drain_into, Drain. done.
Qed.

Lemma queue_step_counters (o : queue_op) (w : CommandQueue * list QueuedCommand * list QueuedCommand) :
  is_Some (counters_ w.1.1) -> is_Some (counters_ (queue_step o w).1.1).
Proof.
  destruct w as [[q acc] out]; cbn. intros Hk.
  assert (Hs : forall q0, counters_ q0 = counters_ q -> is_Some (counters_ (store_depth q0)))
    by (intros q0 Hq; cbn; by rewrite fmap_is_Some, Hq).
  assert (Hb : forall l, is_Some (counters_ (TryPushBatch l q).1))
    by (intros l; unfold TryPushBatch; case_match; [done|by apply Hs]).
  destruct o as [c|l|batch sid|n]; cbn -[store_depth].
  - unfold TryPush. destruct (capacity_ q <=? _); [done|by apply Hs].
  - specialize (Hb l). by destruct (TryPushBatch l q).
  - rewrite AdmitCommandBatch_cases. specialize (Hb (children batch sid)).
    destruct (admissible batch); [|done]. by destruct (TryPushBatch _ q) as [q' []].
  - by apply Hs.
Qed.

(** C8. The queue is a faithful bounded FIFO: over any sequence of pushes, batch
    pushes, coordinator admissions and drains (the sequence the mutex serialises
    the threads into), the accepted commands are, in order, exactly the drained
    ones followed by the queued ones; the queue never exceeds its capacity and
    the depth gauge always shows its size. *)
Theorem queue_lossless (capacity : Z) (os : list queue_op) :
  0 <= capacity < 2 ^ 64 ->
  let '(q, acc, out) := queue_run os (CommandQueue_new (Some Counters_new) capacity, [], []) in
  acc = out ++ queue_ q /\ Depth q <= Capacity q /\
  command_queue_depth <$> counters_ q = Some (u32 (Depth q)).
Proof.
  intros Hc. set (w0 := (CommandQueue_new _ _, [], [])).
  assert (Hi : fifo_inv (A := QueuedCommand) w0) by (split; [by apply CommandQueue_new_wf|done]).
  assert (Hk : is_Some (counters_ w0.1.1)) by (cbn; eauto). clearbody w0.
  revert w0 Hi Hk. induction os as [|o os IH]; intros [[q acc] out] [Hw Ha] Hk.
  - cbn in *. destruct Hw as ([_ Hle] & _ & Hd), Hk as [c Hk]. split; [done|]. split; [done|].
    rewrite Hk. cbn. f_equal. auto.
  - apply (IH (queue_step o (q, acc, out))).
    + rewrite queue_step_refines by done. by apply fifo_run_inv.
    + by apply queue_step_counters.
Qed.

Definition demo_cmd (i : Z) : QueuedCommand :=
  {| q_session_id := "s"; q_batch_seq := 1; q_client_command_id := 1; q_command_index := i;
     q_authoritative_target_unit_id := 7; q_command := COMMAND_NOT_SET |}.

Lemma queue_lossless_witness :
  let '(q, acc, out) := queue_run [QPush (demo_cmd 0); QPushBatch [demo_cmd 1; demo_cmd 2]; QDrain 1;
      QPushBatch [demo_cmd 3; demo_cmd 4]] (CommandQueue_new (Some Counters_new) 3, [], []) in
  acc = out ++ queue_ q /\ Depth q <= Capacity q /\
  command_queue_depth <$> counters_ q = Some (u32 (Depth q)).
Proof. apply (queue_lossless 3); lia. Defined.

(** A coordinator batch is admitted all or nothing, and exactly under the
    documented conditions: between 1 and 64 commands, a target id that fits a
    signed 32-bit integer, a nonzero batch sequence, a present and nonzero client
    command id, and room for the whole batch.  When admitted, the queue grows by
    one entry per command, in order, each carrying its index, the batch's
    identifiers and the target unchanged; otherwise the queue is untouched. *)
Theorem AdmitCommandBatch_exact (q : CommandQueue) (batch : CommandBatch) (sid : string) :
  queue_wf q -> 0 <= target_unit_id batch ->
  let '(q', r) := AdmitCommandBatch q batch sid in
  (accepted r = true <->
     1 <= size_of (commands batch) <= 64 /\ target_unit_id batch <= 2147483647 /\
     batch_seq batch <> 0 /\ (exists id, client_command_id batch = Some id /\ id <> 0) /\
     Depth q + size_of (commands batch) <= Capacity q) /\
  (accepted r = false -> q' = q /\ accepted_command_count r = 0) /\
  (accepted r = true ->
     accepted_command_count r = size_of (commands batch) /\
     exists added, queue_ q' = queue_ q ++ added /\ length added = length (commands batch) /\
       forall i c, commands batch !! i = Some c ->
         exists e, added !! i = Some e /\ q_command e = c /\ q_command_index e = Z.of_nat i /\
           q_batch_seq e = batch_seq batch /\ Some (q_client_command_id e) = client_command_id batch /\
           q_authoritative_target_unit_id e = target_unit_id batch /\ q_session_id e = sid).
Proof.
  intros Hw Ht. rewrite AdmitCommandBatch_cases.
  assert (Hlen : size_of (children batch sid) = size_of (commands batch))
    by (unfold size_of, children; by rewrite length_imap_from).
  assert (Hadm : admissible batch = true <->
     1 <= size_of (commands batch) <= 64 /\ target_unit_id batch <= 2147483647 /\
     batch_seq batch <> 0 /\ (exists id, client_command_id batch = Some id /\ id <> 0)).
  { unfold admissible, kMaxCoordinatorBatchCommands, INT_MAX, has, get0.
    rewrite !andb_true_iff, !negb_true_iff, !Z.eqb_neq, !Z.leb_le.
    pose proof (size_of_nonneg (commands batch)).
    destruct (client_command_id batch) as [id|]; cbn; split; intros Ha; dest; simplify_eq; split_and!; eauto; lia. }
  destruct (admissible batch) eqn:Ea.
  - destruct (proj1 Hadm eq_refl) as (Hn & Htg & Hs & Hid).
    destruct (decide (size_of (queue_ q) + size_of (children batch sid) <= capacity_ q)) as [Hf|Hf].
    + rewrite TryPushBatch_fits by done. unfold accepted; cbn.
      split; [|split; [done|]].
      { split; [|done]. intros _. unfold Depth, Capacity. split_and!; try done; lia. }
      intros _. split; [done|]. exists (children batch sid). split; [done|].
      split; [by unfold children; rewrite length_imap_from|]. intros i c Hi.
      unfold children. rewrite lookup_imap_from, Hi. cbn. eexists. split; [done|]. cbn.
      apply lookup_lt_Some in Hi. unfold size_of in Hn. destruct Hid as (id & -> & _).
      rewrite u32_small by lia. rewrite i32_small by lia. done.
    + rewrite TryPushBatch_full by (done || lia). unfold accepted; cbn.
      split; [|split; [done|done]]. split; [done|]. unfold Depth, Capacity. intros. dest. lia.
  - destruct (admit_rejects q batch sid Ea) as (Hr & _ & Hcnt). rewrite Hr.
    split; [|split; [by auto|done]]. split; [done|]. intros (? & ? & ? & ? & _).
    apply (proj2 Hadm). auto.
Qed.

Definition demo_batch (n : nat) : CommandBatch :=
  {| batch_seq := 9; target_unit_id := 42; commands := replicate n COMMAND_NOT_SET;
     batch_options := None; client_command_id := Some 5; based_on_frame := None;
     based_on_state_seq := None; target_generation := None;
     conflict_policy := COMMAND_CONFLICT_REPLACE_CURRENT |}.

Lemma AdmitCommandBatch_exact_witness :
  accepted (AdmitCommandBatch (CommandQueue_new (Some Counters_new) 2) (demo_batch 2) "s").2 = true /\
  accepted (AdmitCommandBatch (CommandQueue_new (Some Counters_new) 2) (demo_batch 3) "s").2 = false.
Proof.
  pose proof (fun n => AdmitCommandBatch_exact (CommandQueue_new (Some Counters_new) 2) (demo_batch n) "s"
    (CommandQueue_new_wf 2 ltac:(lia)) ltac:(cbn; lia)) as H.
  pose proof (H 2%nat) as H2. pose proof (H 3%nat) as H3.
  destruct (AdmitCommandBatch _ (demo_batch 2) _) as [q2 r2].
  destruct (AdmitCommandBatch _ (demo_batch 3) _) as [q3 r3]. cbn [snd]. split.
  - apply H2. unfold Depth, Capacity, size_of; cbn. split_and!; try lia. exists 5. done.
  - destruct (accepted r3); [|done]. destruct H3 as [[H3 _] _]. specialize (H3 eq_refl).
    unfold Depth, Capacity, size_of in H3; cbn in H3. lia.
Defined.
