(* ===== verification/CircuitAI.v ===== *)
(** The part of the host AI (CircuitAI.h, CircuitAI.cpp, unit/CircuitUnit.h)
    that the gateway consults: the registry of the team's units and of the unit
    definitions. *)

From S2P Require Import Prelude.

Record CircuitUnit := { unit_def_id : Z; isDead : bool }.

Record CircuitAI := {
  teamUnits : gmap Z CircuitUnit;
  defsById_size : Z;
}.

Definition GetTeamUnit (ai : CircuitAI) (unitId : Z) : option CircuitUnit := teamUnits ai !! unitId.

Definition IsValidUnitDefId (ai : CircuitAI) (unitDefId : Z) : bool :=
  (0 <? unitDefId) && (unitDefId <=? defsById_size ai).

(** The definition's index in [defsById], or null. *)
Definition GetCircuitDefSafe (ai : CircuitAI) (unitDefId : Z) : option Z :=
  if IsValidUnitDefId ai unitDefId then Some (unitDefId - 1) else None.
