(* ===== verification/CapabilityProvider.v ===== *)
(** Command capability discovery (grpc/CapabilityProvider.h, .cpp): the table of
    command arms the gateway advertises, their option masks, and the two
    discovery responses. *)

From S2P Require Import Prelude Float32 Proto CommandQueue CircuitAI.

Definition kQueuedCommandOptionMask : Z := 7.

Definition kSupportedUnitArms : list string :=
  ["move_unit"; "patrol"; "fight"; "attack_area"; "stop"; "wait"; "build_unit"; "repair";
   "reclaim_unit"; "reclaim_area"; "resurrect_in_area"; "self_destruct";
   "set_wanted_max_speed"; "set_fire_state"; "set_move_state"]%string.

Definition IsSupportedCommandArm (arm : string) : bool := bool_decide (arm ∈ kSupportedUnitArms).

Definition ValidOptionMaskFor (arm : string) : Z :=
  if IsSupportedCommandArm arm then kQueuedCommandOptionMask else 0.

Definition feature_flags : list string :=
  ["protobuf_proxy_safety"; "structured_command_diagnostics"; "dry_run_validation";
   "command_capabilities"]%string.

Definition kSchemaVersion : string := "1.0.0".

Record CapabilitySettings := {
  cap_validation_mode : ValidationMode;
  cap_max_batch_commands : Z;
}.

Record CommandSchemaResponse := {
  schema_version : string;
  schema_feature_flags : list string;
  supported_command_arms : list string;
  option_masks : list (string * Z);
  validation_mode : ValidationMode;
  max_batch_commands : Z;
  schema_queue_depth : Z;
  schema_queue_capacity : Z;
  map_limits : float * float * float * float;   (** min_x, min_z, max_x, max_z *)
  resource_ids : list string;
}.

(** A map extent that the terrain manager has not set yet is reported as 1. *)
Definition map_limit (v : float) : float := if flt f0 v then v else float_of_Z 1.

Definition CommandSchema (settings : CapabilitySettings) (queue : option CommandQueue)
    (max_x max_z : float) : CommandSchemaResponse :=
  {| schema_version := kSchemaVersion;
     schema_feature_flags := feature_flags;
     supported_command_arms := kSupportedUnitArms;
     option_masks := (fun arm => (arm, kQueuedCommandOptionMask)) <$> kSupportedUnitArms;
     validation_mode := cap_validation_mode settings;
     max_batch_commands := cap_max_batch_commands settings;
     schema_queue_depth := match queue with Some q => u32 (Depth q) | None => 0 end;
     schema_queue_capacity := match queue with Some q => u32 (Capacity q) | None => 0 end;
     map_limits := (f0, f0, map_limit max_x, map_limit max_z);
     resource_ids := ["metal"; "energy"]%string |}.

Record UnitCapabilitiesResponse := {
  cap_unit_id : Z;
  cap_generation : option (Z * Z);
  cap_feature_flags : list string;
  legal_command_arms : list string;
  cap_queue_depth : Z;
}.

Definition UnitCapabilities (queue : option CommandQueue) (unit_id : Z) (generation : option (Z * Z))
    : UnitCapabilitiesResponse :=
  {| cap_unit_id := unit_id;
     cap_generation := generation;
     cap_feature_flags := feature_flags;
     legal_command_arms := kSupportedUnitArms;
     cap_queue_depth := match queue with Some q => u32 (Depth q) | None => 0 end |}.

(** The mask advertised for an arm is the mask the validator enforces. *)
Lemma CommandSchema_masks (settings : CapabilitySettings) (queue : option CommandQueue) (x z : float) (arm : string) :
  arm ∈ supported_command_arms (CommandSchema settings queue x z) <->
  (arm, ValidOptionMaskFor arm) ∈ option_masks (CommandSchema settings queue x z) /\ ValidOptionMaskFor arm <> 0.
Proof.
  cbn [supported_command_arms option_masks CommandSchema].
  unfold ValidOptionMaskFor, IsSupportedCommandArm.
  rewrite list_elem_of_fmap. case_bool_decide as Hm; split; try done.
  - intros _. split; [by eauto|done].
  - by intros [_ ?].
Qed.
