(* ===== verification/CommandValidator.v ===== *)
(** Server-side batch validation (grpc/CommandValidator.h, .cpp): the arm tables,
    the per-command checks in their order, and the batch check that accepts or
    rejects a batch as a whole. *)

From S2P Require Import Prelude Float32 Proto CircuitAI CapabilityProvider.

Record CommandValidationSettings := {
  mode : ValidationMode;
  set_max_batch_commands : Z;
  require_correlation : bool;
  require_state_basis : bool;
  allow_legacy_ai_admin : bool;
  reject_unsupported_arms : bool;
}.

Definition default_settings : CommandValidationSettings :=
  {| mode := VALIDATION_MODE_COMPATIBILITY; set_max_batch_commands := 64;
     require_correlation := false; require_state_basis := false;
     allow_legacy_ai_admin := true; reject_unsupported_arms := false |}.

Record ValidationResult := {
  ok : bool;
  error : string;
  batch_result : BatchResult;
}.

(** ** The arm tables *)

Definition PositionOf (cmd : AICommand) : option Vector3 :=
  match cmd with
  | kDrawAddPoint m => Some (DrawAddPoint_position m)
  | kDrawRemovePoint m => Some (DrawRemovePoint_position m)
  | kSetLastPosMessage m => Some (SetLastPosMessage_position m)
  | kGiveMeNewUnit m => Some (GiveMeNewUnit_position m)
  | kSetFigurePosition m => Some (SetFigurePosition_position m)
  | kDrawUnit m => Some (DrawUnit_position m)
  | kBuildUnit m => Some (BuildUnit_build_position m)
  | kMoveUnit m => Some (MoveUnit_to_position m)
  | kPatrol m => Some (Patrol_to_position m)
  | kFight m => Some (Fight_to_position m)
  | kAttackArea m => Some (AttackArea_attack_position m)
  | kReclaimArea m => Some (ReclaimArea_position m)
  | kReclaimInArea m => Some (ReclaimInArea_position m)
  | kRestoreArea m => Some (RestoreArea_position m)
  | kResurrectInArea m => Some (ResurrectInArea_position m)
  | kCaptureArea m => Some (CaptureArea_position m)
  | kSetBase m => Some (SetBase_base_position m)
  | kLoadUnitsArea m => Some (LoadUnitsArea_position m)
  | kUnloadUnit m => Some (UnloadUnit_to_position m)
  | kUnloadUnitsArea m => Some (UnloadUnitsArea_to_position m)
  | _ => None
  end.

Definition CommandArmName (cmd : AICommand) : string :=
  match cmd with
  | kMoveUnit _ => "move_unit"
  | kPatrol _ => "patrol"
  | kFight _ => "fight"
  | kAttackArea _ => "attack_area"
  | kStop _ => "stop"
  | kWait _ => "wait"
  | kBuildUnit _ => "build_unit"
  | kRepair _ => "repair"
  | kReclaimUnit _ => "reclaim_unit"
  | kReclaimArea _ => "reclaim_area"
  | kResurrectInArea _ => "resurrect_in_area"
  | kSelfDestruct _ => "self_destruct"
  | kSetWantedMaxSpeed _ => "set_wanted_max_speed"
  | kSetFireState _ => "set_fire_state"
  | kSetMoveState _ => "set_move_state"
  | kPauseTeam _ => "pause_team"
  | kGiveMe _ => "give_me"
  | kGiveMeNewUnit _ => "give_me_new_unit"
  | _ => "unsupported"
  end.

Definition CommandOptionsOf (cmd : AICommand) : Z :=
  match cmd with
  | kBuildUnit m => BuildUnit_options m
  | kStop m => Stop_options m
  | kWait m => Wait_options m
  | kTimedWait m => TimedWait_options m
  | kSquadWait m => SquadWait_options m
  | kDeathWait m => DeathWait_options m
  | kGatherWait m => GatherWait_options m
  | kMoveUnit m => MoveUnit_options m
  | kPatrol m => Patrol_options m
  | kFight m => Fight_options m
  | kAttack m => Attack_options m
  | kAttackArea m => AttackArea_options m
  | kGuard m => Guard_options m
  | kRepair m => Repair_options m
  | kReclaimUnit m => ReclaimUnit_options m
  | kReclaimArea m => ReclaimArea_options m
  | kReclaimInArea m => ReclaimInArea_options m
  | kReclaimFeature m => ReclaimFeature_options m
  | kRestoreArea m => RestoreArea_options m
  | kResurrect m => Resurrect_options m
  | kResurrectInArea m => ResurrectInArea_options m
  | kCapture m => Capture_options m
  | kCaptureArea m => CaptureArea_options m
  | kSetBase m => SetBase_options m
  | kSelfDestruct m => SelfDestruct_options m
  | kLoadUnits m => LoadUnits_options m
  | kLoadUnitsArea m => LoadUnitsArea_options m
  | kLoadOnto m => LoadOnto_options m
  | kUnloadUnit m => UnloadUnit_options m
  | kUnloadUnitsArea m => UnloadUnitsArea_options m
  | kSetWantedMaxSpeed m => SetWantedMaxSpeed_options m
  | kStockpile m => Stockpile_options m
  | kDgun m => DGun_options m
  | kCustom m => Custom_options m
  | kSetOnOff m => SetOnOff_options m
  | kSetRepeat m => SetRepeat_options m
  | kSetMoveState m => SetMoveState_options m
  | kSetFireState m => SetFireState_options m
  | kSetTrajectory m => SetTrajectory_options m
  | kSetAutoRepairLevel m => SetAutoRepairLevel_options m
  | kSetIdleMode m => SetIdleMode_options m
  | _ => 0
  end.

Definition TryCommandUnitId (cmd : AICommand) : option Z :=
  match cmd with
  | kBuildUnit m => Some (BuildUnit_unit_id m)
  | kStop m => Some (Stop_unit_id m)
  | kWait m => Some (Wait_unit_id m)
  | kTimedWait m => Some (TimedWait_unit_id m)
  | kSquadWait m => Some (SquadWait_unit_id m)
  | kDeathWait m => Some (DeathWait_unit_id m)
  | kGatherWait m => Some (GatherWait_unit_id m)
  | kMoveUnit m => Some (MoveUnit_unit_id m)
  | kPatrol m => Some (Patrol_unit_id m)
  | kFight m => Some (Fight_unit_id m)
  | kAttack m => Some (Attack_unit_id m)
  | kAttackArea m => Some (AttackArea_unit_id m)
  | kGuard m => Some (Guard_unit_id m)
  | kRepair m => Some (Repair_unit_id m)
  | kReclaimUnit m => Some (ReclaimUnit_unit_id m)
  | kReclaimArea m => Some (ReclaimArea_unit_id m)
  | kReclaimInArea m => Some (ReclaimInArea_unit_id m)
  | kReclaimFeature m => Some (ReclaimFeature_unit_id m)
  | kRestoreArea m => Some (RestoreArea_unit_id m)
  | kResurrect m => Some (Resurrect_unit_id m)
  | kResurrectInArea m => Some (ResurrectInArea_unit_id m)
  | kCapture m => Some (Capture_unit_id m)
  | kCaptureArea m => Some (CaptureArea_unit_id m)
  | kSetBase m => Some (SetBase_unit_id m)
  | kSelfDestruct m => Some (SelfDestruct_unit_id m)
  | kLoadUnits m => Some (LoadUnits_unit_id m)
  | kLoadUnitsArea m => Some (LoadUnitsArea_unit_id m)
  | kLoadOnto m => Some (LoadOnto_unit_id m)
  | kUnloadUnit m => Some (UnloadUnit_unit_id m)
  | kUnloadUnitsArea m => Some (UnloadUnitsArea_unit_id m)
  | kSetWantedMaxSpeed m => Some (SetWantedMaxSpeed_unit_id m)
  | kStockpile m => Some (Stockpile_unit_id m)
  | kDgun m => Some (DGun_unit_id m)
  | kCustom m => Some (Custom_unit_id m)
  | kSetOnOff m => Some (SetOnOff_unit_id m)
  | kSetRepeat m => Some (SetRepeat_unit_id m)
  | kSetMoveState m => Some (SetMoveState_unit_id m)
  | kSetFireState m => Some (SetFireState_unit_id m)
  | kSetTrajectory m => Some (SetTrajectory_unit_id m)
  | kSetAutoRepairLevel m => Some (SetAutoRepairLevel_unit_id m)
  | kSetIdleMode m => Some (SetIdleMode_unit_id m)
  | kGroupAddUnit m => Some (GroupAddUnit_unit_id m)
  | kGroupRemoveUnit m => Some (GroupRemoveUnit_unit_id m)
  | _ => None
  end.

(** ** Issues *)

(** A failed check: the error text and the issue reported for it. *)
Definition Failure : Type := (string * CommandIssue)%type.

(** [FillIssue] without the batch: the caller adds the batch's identifiers. *)
Definition FillCommandIssue (code : CommandIssueCode) (command_index : Z) (field_path detail : string)
    (retry_hint : RetryHint) : CommandIssue :=
  {| issue_code := code; issue_command_index := command_index; issue_field_path := field_path;
     issue_detail := detail; issue_retry_hint := retry_hint;
     issue_batch_seq := 0; issue_client_command_id := 0 |}.

#[export] Instance CommandIssue_eta : Eta CommandIssue := fun i =>
  Build_CommandIssue (issue_code i) (issue_command_index i) (issue_field_path i) (issue_detail i)
    (issue_retry_hint i) (issue_batch_seq i) (issue_client_command_id i).

(** [set_batch_seq] and, when the batch has one, [set_client_command_id]. *)
Definition stamp_issue (batch : CommandBatch) (i : CommandIssue) : CommandIssue :=
  let i := i <| issue_batch_seq := batch_seq batch |> in
  if has (client_command_id batch)
  then i <| issue_client_command_id := get0 (client_command_id batch) |> else i.

Definition FillIssue (batch : CommandBatch) (code : CommandIssueCode) (command_index : Z)
    (field_path detail : string) (retry_hint : RetryHint) : CommandIssue :=
  stamp_issue batch (FillCommandIssue code command_index field_path detail retry_hint).

Definition path_of (index : Z) (suffix : string) : string :=
  ("commands[" +:+ pretty index +:+ "]" +:+ suffix)%string.

Definition fail (code : CommandIssueCode) (index : Z) (path detail : string) (hint : RetryHint) : option Failure :=
  Some (detail, FillCommandIssue code index path detail hint).

(** ** The checks *)

Section Validator.
Context (ai : option CircuitAI) (settings : CommandValidationSettings).
Context (max_x max_z : float).   (** [AIFloat3::maxxpos], [AIFloat3::maxzpos] *)

Definition ValidateCommandTarget (cmd : AICommand) (batch_target_unit_id command_index : Z)
    : option Failure :=
  match TryCommandUnitId cmd with
  | None => None
  | Some command_unit_id =>
      if command_unit_id <=? 0 then
        fail MISSING_TARGET_UNIT command_index (path_of command_index ".unit_id")
          ("unit-bound command missing unit_id for batch target " +:+ pretty batch_target_unit_id)
          RETRY_NEVER
      else if negb (command_unit_id =? batch_target_unit_id) then
        fail TARGET_DRIFT command_index (path_of command_index ".unit_id")
          ("target_drift: batch target_unit_id " +:+ pretty batch_target_unit_id
           +:+ " disagrees with command unit_id " +:+ pretty command_unit_id)
          RETRY_NEVER
      else None
  end.

Definition OwnsLiveUnit (unit_id : Z) : bool :=
  match ai with
  | None => false
  | Some ai =>
      if unit_id <=? 0 then false
      else match GetTeamUnit ai unit_id with None => false | Some u => negb (isDead u) end
  end.

Definition InMapExtents (x z : float) : bool :=
  fle f0 x && fle f0 z && fle x max_x && fle z max_z.

Definition KnownBuildDef (def_id : Z) : bool :=
  match ai with
  | None => false
  | Some ai => if def_id <=? 0 then false else has (GetCircuitDefSafe ai def_id)
  end.

Definition is_legacy_admin (cmd : AICommand) : bool :=
  match cmd with kPauseTeam _ | kGiveMe _ | kGiveMeNewUnit _ => true | _ => false end.

(** [(options & ~valid_mask) != 0] at 32 bits. *)
Definition stray_bits (options valid_mask : Z) : bool :=
  negb (Z.land options (Z.lxor valid_mask (2 ^ 32 - 1)) =? 0).

Definition ValidateEnums (cmd : AICommand) (command_index : Z) : option Failure :=
  match cmd with
  | kSetMoveState m =>
      let value := SetMoveState_move_state m in
      if (value <? 0) || (2 <? value) then
        fail INVALID_ENUM_VALUE command_index (path_of command_index ".set_move_state.move_state")
          "move_state enum value out of range" RETRY_NEVER
      else None
  | kSetFireState m =>
      let value := SetFireState_fire_state m in
      if (value <? 0) || (2 <? value) then
        fail INVALID_ENUM_VALUE command_index (path_of command_index ".set_fire_state.fire_state")
          "fire_state enum value out of range" RETRY_NEVER
      else None
  | _ => None
  end.

Definition ValidatePosition (cmd : AICommand) (command_index : Z) : option Failure :=
  match PositionOf cmd with
  | None => None
  | Some pos =>
      if negb (isfinite (vx pos)) || negb (isfinite (vy pos)) || negb (isfinite (vz pos)) then
        fail POSITION_NON_FINITE command_index (path_of command_index ".position")
          "position contains non-finite coordinate" RETRY_NEVER
      else if negb (InMapExtents (vx pos) (vz pos)) then
        fail POSITION_OUT_OF_MAP command_index (path_of command_index ".position")
          ("position out of map extents: x=" +:+ fmt_float (vx pos) +:+ " z=" +:+ fmt_float (vz pos))
          RETRY_NEVER
      else None
  end.

Definition ValidateBuildDef (cmd : AICommand) (command_index : Z) : option Failure :=
  match cmd with
  | kBuildUnit m =>
      let def_id := BuildUnit_to_build_unit_def_id m in
      if negb (KnownBuildDef def_id) then
        fail UNKNOWN_UNIT_DEF command_index
          (path_of command_index ".build_unit.to_build_unit_def_id")
          ("build.def_id unknown or non-constructible: " +:+ pretty def_id)
          RETRY_WITH_FRESH_CAPABILITIES
      else None
  | _ => None
  end.

(** Sequencing of checks: the first failure wins. *)
Definition first_failure (a b : option Failure) : option Failure :=
  match a with Some f => Some f | None => b end.

Definition ValidateCommand (cmd : AICommand) (command_index : Z) : option Failure :=
  match cmd with
  | COMMAND_NOT_SET =>
      fail MISSING_COMMAND_INTENT command_index (path_of command_index "")
        "command batch contains an empty AICommand" RETRY_NEVER
  | _ =>
      if negb (allow_legacy_ai_admin settings) && is_legacy_admin cmd then
        fail COMMAND_REQUIRES_ADMIN_CHANNEL command_index (path_of command_index "")
          "AI command arm requires the HighBarAdmin service" RETRY_NEVER
      else
        let arm := CommandArmName cmd in
        if (reject_unsupported_arms settings || bool_decide (mode settings = VALIDATION_MODE_STRICT))
           && negb (IsSupportedCommandArm arm) then
          fail COMMAND_ARM_NOT_DISPATCHED command_index (path_of command_index "")
            "command arm is not dispatched by this gateway" RETRY_WITH_FRESH_CAPABILITIES
        else
          let valid_mask := ValidOptionMaskFor arm in
          let options := CommandOptionsOf cmd in
          if negb (valid_mask =? 0) && stray_bits options valid_mask then
            fail INVALID_OPTION_BITS command_index (path_of command_index ".options")
              "command options contain invalid bits" RETRY_NEVER
          else
            first_failure (ValidateEnums cmd command_index)
              (first_failure (ValidatePosition cmd command_index)
                 (ValidateBuildDef cmd command_index))
  end.

(** ** The batch *)

(** [batch_result] before any verdict. *)
Definition base_result (batch : CommandBatch) : BatchResult :=
  {| result_batch_seq := batch_seq batch;
     result_client_command_id := if has (client_command_id batch) then get0 (client_command_id batch) else 0;
     result_status := COMMAND_BATCH_STATUS_UNSPECIFIED; result_issues := [];
     result_accepted_command_count := 0; result_queued_frame := 0;
     result_mode := mode settings; result_would_reject := false |}.

Definition rejected (batch : CommandBatch) (status : CommandBatchStatus) (detail : string)
    (issue : CommandIssue) : ValidationResult :=
  let b := base_result batch in
  {| ok := false; error := detail;
     batch_result :=
       {| result_batch_seq := result_batch_seq b;
          result_client_command_id := result_client_command_id b;
          result_status := status; result_issues := [issue];
          result_accepted_command_count := 0; result_queued_frame := result_queued_frame b;
          result_mode := result_mode b; result_would_reject := result_would_reject b |} |}.

Definition reject (batch : CommandBatch) (status : CommandBatchStatus) (code : CommandIssueCode)
    (command_index : Z) (field_path detail : string) (hint : RetryHint) : ValidationResult :=
  rejected batch status detail (FillIssue batch code command_index field_path detail hint).

(** The loop over the commands: the first failure, or whether a command was
    unit-bound. *)
Fixpoint ValidateLoop (batch_target : Z) (i : Z) (bound : bool) (cmds : list AICommand)
    : bool + Failure :=
  match cmds with
  | [] => inl bound
  | cmd :: rest =>
      let bound := bound || has (TryCommandUnitId cmd) in
      match first_failure (ValidateCommandTarget cmd batch_target i) (ValidateCommand cmd i) with
      | Some f => inr f
      | None => ValidateLoop batch_target (u32 (i + 1)) bound rest
      end
  end.

Definition ValidateBatch (batch : CommandBatch) : ValidationResult :=
  let n := size_of (commands batch) in
  let batch_target := i32 (target_unit_id batch) in
  if n =? 0 then
    reject batch COMMAND_BATCH_REJECTED_INVALID EMPTY_COMMAND 0 "commands"
      "command batch must contain at least one AICommand" RETRY_NEVER
  else if (0 <? set_max_batch_commands settings) && (set_max_batch_commands settings <? u32 n) then
    reject batch COMMAND_BATCH_REJECTED_INVALID TOO_MANY_COMMANDS 0 "commands"
      "command batch exceeds max_batch_commands" RETRY_NEVER
  else if require_correlation settings && negb (has (client_command_id batch)) then
    reject batch COMMAND_BATCH_REJECTED_INVALID MISSING_CLIENT_COMMAND_ID 0 "client_command_id"
      "strict validation requires client_command_id" RETRY_NEVER
  else if require_state_basis settings
       && (negb (has (based_on_frame batch)) || negb (has (based_on_state_seq batch))) then
    reject batch COMMAND_BATCH_REJECTED_STALE MISSING_STATE_BASIS 0
      (if negb (has (based_on_frame batch)) then "based_on_frame" else "based_on_state_seq")
      "strict validation requires based_on_frame and based_on_state_seq" RETRY_AFTER_NEXT_SNAPSHOT
  else
    match ValidateLoop batch_target 0 false (commands batch) with
    | inr (detail, issue) =>
        rejected batch COMMAND_BATCH_REJECTED_INVALID detail (stamp_issue batch issue)
    | inl has_unit_bound_command =>
        if has_unit_bound_command && negb (OwnsLiveUnit batch_target) then
          reject batch COMMAND_BATCH_REJECTED_INVALID TARGET_UNIT_NOT_OWNED 0 "target_unit_id"
            ("target_unit_id " +:+ pretty (target_unit_id batch)
             +:+ " is not a live unit owned by this AI")
            RETRY_AFTER_NEXT_SNAPSHOT
        else
          let b := base_result batch in
          {| ok := true; error := "";
             batch_result :=
               {| result_batch_seq := result_batch_seq b;
                  result_client_command_id := result_client_command_id b;
                  result_status := COMMAND_BATCH_ACCEPTED; result_issues := [];
                  result_accepted_command_count := u32 n;
                  result_queued_frame := result_queued_frame b;
                  result_mode := result_mode b; result_would_reject := result_would_reject b |} |}
    end.

(** ** What an accepted command satisfies *)

Definition position_ok (pos : Vector3) : Prop :=
  isfinite (vx pos) = true /\ isfinite (vy pos) = true /\ isfinite (vz pos) = true /\
  fle f0 (vx pos) = true /\ fle (vx pos) max_x = true /\
  fle f0 (vz pos) = true /\ fle (vz pos) max_z = true.

Record command_ok (cmd : AICommand) : Prop := {
  ok_set : cmd <> COMMAND_NOT_SET;
  ok_admin : allow_legacy_ai_admin settings = true \/ is_legacy_admin cmd = false;
  ok_arm : reject_unsupported_arms settings = true \/ mode settings = VALIDATION_MODE_STRICT ->
           CommandArmName cmd ∈ kSupportedUnitArms;
  ok_options : CommandArmName cmd ∈ kSupportedUnitArms ->
               Z.land (CommandOptionsOf cmd) (Z.lxor 7 (2 ^ 32 - 1)) = 0;
  ok_move_state : forall m, cmd = kSetMoveState m -> 0 <= SetMoveState_move_state m <= 2;
  ok_fire_state : forall m, cmd = kSetFireState m -> 0 <= SetFireState_fire_state m <= 2;
  ok_position : forall pos, PositionOf cmd = Some pos -> position_ok pos;
  ok_build : forall m, cmd = kBuildUnit m -> KnownBuildDef (BuildUnit_to_build_unit_def_id m) = true;
}.

(** A command's target agrees with the batch target. *)
Definition target_ok (batch_target : Z) (cmd : AICommand) : Prop :=
  forall u, TryCommandUnitId cmd = Some u -> 0 < u /\ u = batch_target.

Lemma first_failure_None (a b : option Failure) : first_failure a b = None <-> a = None /\ b = None.
Proof. destruct a; cbn; naive_solver. Qed.

Lemma if_fail_None (b : bool) (f : Failure) (k : option Failure) :
  (if b then Some f else k) = None <-> b = false /\ k = None.
Proof. destruct b; naive_solver. Qed.

Lemma range_check (v : Z) : (v <? 0) || (2 <? v) = false <-> 0 <= v <= 2.
Proof. rewrite orb_false_iff, !Z.ltb_ge. lia. Qed.

Lemma ValidateEnums_None (cmd : AICommand) (i : Z) :
  ValidateEnums cmd i = None <->
  (forall m, cmd = kSetMoveState m -> 0 <= SetMoveState_move_state m <= 2) /\
  (forall m, cmd = kSetFireState m -> 0 <= SetFireState_fire_state m <= 2).
Proof.
  destruct cmd; cbn; try (split; [by intros _; split; intros|done]).
  all: unfold fail; rewrite if_fail_None, range_check; naive_solver.
Qed.

Lemma ValidatePosition_None (cmd : AICommand) (i : Z) :
  ValidatePosition cmd i = None <-> forall pos, PositionOf cmd = Some pos -> position_ok pos.
Proof.
  unfold ValidatePosition. destruct (PositionOf cmd) as [pos|]; [|by split].
  unfold position_ok, InMapExtents. split.
  - intros Hv ? [= <-]. destruct (isfinite (vx pos)), (isfinite (vy pos)), (isfinite (vz pos)); try done; cbn in Hv.
    destruct (fle f0 (vx pos)), (fle f0 (vz pos)), (fle (vx pos) max_x), (fle (vz pos) max_z); done.
  - intros Hp. destruct (Hp pos eq_refl) as (-> & -> & -> & -> & -> & -> & ->). done.
Qed.

Lemma ValidateBuildDef_None (cmd : AICommand) (i : Z) :
  ValidateBuildDef cmd i = None <->
  forall m, cmd = kBuildUnit m -> KnownBuildDef (BuildUnit_to_build_unit_def_id m) = true.
Proof.
  destruct cmd; cbn; try (split; [by intros _; intros|done]).
  unfold fail. rewrite if_fail_None, negb_false_iff. naive_solver.
Qed.

Lemma options_check (cmd : AICommand) :
  negb (ValidOptionMaskFor (CommandArmName cmd) =? 0)
    && stray_bits (CommandOptionsOf cmd) (ValidOptionMaskFor (CommandArmName cmd)) = false <->
  (CommandArmName cmd ∈ kSupportedUnitArms -> Z.land (CommandOptionsOf cmd) (Z.lxor 7 (2 ^ 32 - 1)) = 0).
Proof.
  unfold ValidOptionMaskFor, IsSupportedCommandArm, stray_bits, kQueuedCommandOptionMask.
  case_bool_decide as Hs; cbn -[Z.land Z.lxor]; [|by split].
  rewrite negb_false_iff, Z.eqb_eq. tauto.
Qed.

Lemma admin_check (cmd : AICommand) :
  negb (allow_legacy_ai_admin settings) && is_legacy_admin cmd = false <->
  allow_legacy_ai_admin settings = true \/ is_legacy_admin cmd = false.
Proof. destruct (allow_legacy_ai_admin settings), (is_legacy_admin cmd); cbn; intuition congruence. Qed.

Lemma arm_check (cmd : AICommand) :
  (reject_unsupported_arms settings || bool_decide (mode settings = VALIDATION_MODE_STRICT))
    && negb (IsSupportedCommandArm (CommandArmName cmd)) = false <->
  (reject_unsupported_arms settings = true \/ mode settings = VALIDATION_MODE_STRICT ->
   CommandArmName cmd ∈ kSupportedUnitArms).
Proof.
  unfold IsSupportedCommandArm. destruct (reject_unsupported_arms settings);
    repeat case_bool_decide; cbn; intuition congruence.
Qed.

(** The check of one command is exactly its declarative reading. *)
Lemma ValidateCommand_None (cmd : AICommand) (i : Z) :
  ValidateCommand cmd i = None <-> command_ok cmd.
Proof.
  assert (cmd = COMMAND_NOT_SET \/ cmd <> COMMAND_NOT_SET) as [->|Hne]
    by (destruct cmd; auto).
  { split; [done|]. by intros [? _ _ _ _ _ _ _]. }
  assert (E : ValidateCommand cmd i =
    if negb (allow_legacy_ai_admin settings) && is_legacy_admin cmd then
      fail COMMAND_REQUIRES_ADMIN_CHANNEL i (path_of i "")
        "AI command arm requires the HighBarAdmin service" RETRY_NEVER
    else if (reject_unsupported_arms settings || bool_decide (mode settings = VALIDATION_MODE_STRICT))
             && negb (IsSupportedCommandArm (CommandArmName cmd)) then
            fail COMMAND_ARM_NOT_DISPATCHED i (path_of i "")
              "command arm is not dispatched by this gateway" RETRY_WITH_FRESH_CAPABILITIES
    else if negb (ValidOptionMaskFor (CommandArmName cmd) =? 0)
            && stray_bits (CommandOptionsOf cmd) (ValidOptionMaskFor (CommandArmName cmd)) then
              fail INVALID_OPTION_BITS i (path_of i ".options")
                "command options contain invalid bits" RETRY_NEVER
    else first_failure (ValidateEnums cmd i) (first_failure (ValidatePosition cmd i) (ValidateBuildDef cmd i)))
    by (destruct cmd; done || reflexivity).
  rewrite E. clear E. unfold fail. rewrite !if_fail_None, options_check, !first_failure_None.
  rewrite ValidateEnums_None, ValidatePosition_None, ValidateBuildDef_None.
  rewrite admin_check, arm_check. split.
  - intros (? & ? & ? & [? ?] & ? & ?). by split.
  - intros [? ? ? ? ? ? ? ?]. done.
Qed.

Lemma ValidateCommandTarget_None (cmd : AICommand) (batch_target i : Z) :
  ValidateCommandTarget cmd batch_target i = None <-> target_ok batch_target cmd.
Proof.
  unfold ValidateCommandTarget, target_ok. destruct (TryCommandUnitId cmd) as [u|]; [|by split].
  unfold fail. rewrite !if_fail_None, negb_false_iff, Z.leb_gt, Z.eqb_eq. naive_solver.
Qed.

Definition unit_bound (cmd : AICommand) : bool := has (TryCommandUnitId cmd).

Lemma ValidateLoop_inl (batch_target i : Z) (b r : bool) (cmds : list AICommand) :
  ValidateLoop batch_target i b cmds = inl r <->
  Forall (fun c => target_ok batch_target c /\ command_ok c) cmds /\ r = b || existsb unit_bound cmds.
Proof.
  revert i b. induction cmds as [|c cmds IH]; intros i b; cbn.
  { rewrite orb_false_r. split; [intros; simplify_eq; auto|intros [_ ->]; done]. }
  rewrite Forall_cons. destruct (first_failure _ _) as [f|] eqn:E.
  - split; [done|]. intros [[[Ht Hc] _] _]. exfalso.
    cut (first_failure (ValidateCommandTarget c batch_target i) (ValidateCommand c i) = None); [congruence|].
    rewrite first_failure_None, ValidateCommandTarget_None, ValidateCommand_None. auto.
  - rewrite first_failure_None, ValidateCommandTarget_None, ValidateCommand_None in E.
    rewrite IH. unfold unit_bound at 2. rewrite orb_assoc. naive_solver.
Qed.

(** Every failure of a command check names the command and repeats its text. *)
Definition failure_at (i : Z) (f : Failure) : Prop :=
  issue_command_index f.2 = i /\ issue_detail f.2 = f.1 /\ f.1 <> ""%string.

Lemma fail_at (code : CommandIssueCode) (i : Z) (path detail : string) (hint : RetryHint) (f : Failure) :
  fail code i path detail hint = Some f -> detail <> ""%string -> failure_at i f.
Proof. unfold fail, failure_at. intros [= <-]; cbn. auto. Qed.

Lemma ValidateCommandTarget_at (cmd : AICommand) (batch_target i : Z) (f : Failure) :
  ValidateCommandTarget cmd batch_target i = Some f -> failure_at i f.
Proof.
  unfold ValidateCommandTarget. destruct (TryCommandUnitId cmd); [|done].
  repeat case_match; try done; intros Hf; by apply fail_at in Hf.
Qed.

Lemma first_failure_at (i : Z) (a b : option Failure) :
  (forall f, a = Some f -> failure_at i f) -> (forall f, b = Some f -> failure_at i f) ->
  forall f, first_failure a b = Some f -> failure_at i f.
Proof. destruct a; cbn; auto. Qed.

Lemma ValidateCommand_at (cmd : AICommand) (i : Z) (f : Failure) :
  ValidateCommand cmd i = Some f -> failure_at i f.
Proof.
  assert (He : forall f, ValidateEnums cmd i = Some f -> failure_at i f).
  { intros g. unfold ValidateEnums. repeat case_match; try done; intros Hf; by apply fail_at in Hf. }
  assert (Hp : forall f, ValidatePosition cmd i = Some f -> failure_at i f).
  { intros g. unfold ValidatePosition. repeat case_match; try done; intros Hf; by apply fail_at in Hf. }
  assert (Hb : forall f, ValidateBuildDef cmd i = Some f -> failure_at i f).
  { intros g. unfold ValidateBuildDef. repeat case_match; try done; intros Hf; by apply fail_at in Hf. }
  pose proof (first_failure_at i _ _ He (first_failure_at i _ _ Hp Hb)) as Hall.
  unfold ValidateCommand. destruct cmd; [intros Hf; by apply fail_at in Hf|..].
  all: repeat (case_match; [intros Hf; by apply fail_at in Hf|]); apply Hall.
Qed.

(** A failing loop reports its first offending command. *)
Lemma ValidateLoop_inr (batch_target i : Z) (b : bool) (cmds : list AICommand) (f : Failure) :
  0 <= i -> i + size_of cmds < 2 ^ 32 ->
  ValidateLoop batch_target i b cmds = inr f ->
  exists k c, cmds !! k = Some c /\ failure_at (i + Z.of_nat k) f /\
    ~ (target_ok batch_target c /\ command_ok c) /\
    Forall (fun c => target_ok batch_target c /\ command_ok c) (take k cmds).
Proof.
  revert i b. induction cmds as [|c cmds IH]; intros i b Hi Hw Hl; cbn in Hl; [done|].
  rewrite size_of_cons in Hw. pose proof (size_of_nonneg cmds).
  destruct (first_failure _ _) as [g|] eqn:E.
  - simplify_eq. exists 0%nat, c. rewrite Z.add_0_r. split; [done|]. split; [|split; [|by constructor]].
    + eapply first_failure_at; [..|exact E]; eauto using ValidateCommandTarget_at, ValidateCommand_at.
    + rewrite <- (ValidateCommandTarget_None c batch_target i), <- (ValidateCommand_None c i).
      rewrite <- first_failure_None. congruence.
  - rewrite u32_small in Hl by lia. rewrite first_failure_None, ValidateCommandTarget_None, ValidateCommand_None in E.
    destruct (IH (i + 1) _ ltac:(lia) ltac:(lia) Hl) as (k & c' & Hk & Hf & Hn & Hall).
    exists (S k), c'. replace (i + Z.of_nat (S k)) with (i + 1 + Z.of_nat k) by lia.
    split_and!; try done. cbn. constructor; done.
Qed.

(** Everything an accepted batch satisfies. *)
Record batch_ok (batch : CommandBatch) : Prop := {
  bok_size : 1 <= size_of (commands batch);
  bok_max : set_max_batch_commands settings <= 0 \/ size_of (commands batch) <= set_max_batch_commands settings;
  bok_correlation : require_correlation settings = true -> is_Some (client_command_id batch);
  bok_basis : require_state_basis settings = true ->
              is_Some (based_on_frame batch) /\ is_Some (based_on_state_seq batch);
  bok_commands : Forall (fun c => target_ok (i32 (target_unit_id batch)) c /\ command_ok c) (commands batch);
  bok_owned : forall c, c ∈ commands batch -> unit_bound c = true ->
              OwnsLiveUnit (i32 (target_unit_id batch)) = true;
}.

End Validator.

Lemma has_is_Some {A} (o : option A) : has o = true <-> is_Some o.
Proof. destruct o; cbn; split; eauto; [done|by intros []]. Qed.

Section BatchTheorems.
Context (ai : option CircuitAI) (settings : CommandValidationSettings) (max_x max_z : float).

Lemma existsb_owned (cmds : list AICommand) (b : bool) :
  existsb unit_bound cmds && negb b = false <-> (forall c, c ∈ cmds -> unit_bound c = true -> b = true).
Proof.
  destruct b; cbn; [rewrite andb_false_r; by split|]. rewrite andb_true_r, <- not_true_iff_false, existsb_exists.
  split.
  - intros Hn c Hc Hu. exfalso. apply Hn. exists c. by rewrite <- list_elem_of_In.
  - intros Hall (c & Hc%list_elem_of_In & Hu). by specialize (Hall c Hc Hu).
Qed.

Lemma ValidateBatch_loop (batch : CommandBatch) :
  size_of (commands batch) < 2 ^ 31 ->
  (ok (ValidateBatch ai settings max_x max_z batch) = true <-> batch_ok ai settings max_x max_z batch).
Proof.
  intros Hw. pose proof (size_of_nonneg (commands batch)) as Hn. unfold ValidateBatch.
  rewrite u32_small by lia.
  destruct (Z.eqb_spec (size_of (commands batch)) 0) as [He|He]; [split; [done|intros [? _ _ _ _ _]; lia]|].
  destruct ((0 <? _) && _) eqn:Em.
  { bools. split; [done|]. intros [_ [?|?] _ _ _ _]; lia. }
  destruct (require_correlation settings && _) eqn:Ec.
  { bools. split; [done|]. intros [_ _ Hc _ _ _]. destruct (Hc H) as [? E]. by rewrite E in H0. }
  destruct (require_state_basis settings && _) eqn:Es.
  { apply andb_true_iff in Es as [Hb Ho]. split; [done|]. intros [_ _ _ Hs _ _]. destruct (Hs Hb) as [[? E1] [? E2]].
    by rewrite E1, E2 in Ho. }
  destruct (ValidateLoop ai settings max_x max_z (i32 (target_unit_id batch)) 0 false (commands batch))
    as [bound|[d iss]] eqn:El.
  - apply ValidateLoop_inl in El as [Hall ->]. cbn [orb].
    destruct (existsb unit_bound (commands batch) && negb (OwnsLiveUnit ai (i32 (target_unit_id batch)))) eqn:Eo.
    + split; [done|]. intros [_ _ _ _ _ Ho].
      rewrite <- existsb_owned in Ho. congruence.
    + split; [|done]. intros _. rewrite existsb_owned in Eo.
      split; [lia| | | |done|done].
      * destruct (Z.ltb_spec 0 (set_max_batch_commands settings)); [|lia]. cbn in Em. apply Z.ltb_ge in Em. lia.
      * intros Hc. rewrite Hc in Ec. cbn in Ec. apply negb_false_iff in Ec. by apply has_is_Some.
      * intros Hc. rewrite Hc in Es. cbn in Es. apply orb_false_iff in Es as [E1%negb_false_iff E2%negb_false_iff].
        split; by apply has_is_Some.
  - split; [done|]. intros [_ _ _ _ Hall _].
    assert (Hl : ValidateLoop ai settings max_x max_z (i32 (target_unit_id batch)) 0 false (commands batch)
                 = inl (existsb unit_bound (commands batch))) by by apply ValidateLoop_inl.
    congruence.
Qed.

(** C7. Batch validation is sound and complete: a batch is accepted iff it is
    non-empty and within the size limit, carries the identifiers the settings
    require, every command passes its checks (set arm, admin and arm policy,
    option bits, enum ranges, finite in-map position, known build definition),
    every unit-bound command names exactly the batch's target, and, when there is
    one, that target is a live unit of the team. *)
Theorem ValidateBatch_accepts_iff (batch : CommandBatch) :
  size_of (commands batch) < 2 ^ 31 ->
  ok (ValidateBatch ai settings max_x max_z batch) = true <-> batch_ok ai settings max_x max_z batch.
Proof. apply ValidateBatch_loop. Qed.

(** The report of a rejection. *)
Definition is_rejection (batch : CommandBatch) (r : ValidationResult) : Prop :=
  result_accepted_command_count (batch_result r) = 0 /\
  (result_status (batch_result r) = COMMAND_BATCH_REJECTED_INVALID \/
   result_status (batch_result r) = COMMAND_BATCH_REJECTED_STALE) /\
  error r <> ""%string /\
  exists i, result_issues (batch_result r) = [i] /\ issue_detail i = error r /\
    issue_batch_seq i = batch_seq batch /\ issue_client_command_id i = get0 (client_command_id batch).

Lemma stamp_issue_spec (batch : CommandBatch) (i : CommandIssue) :
  issue_client_command_id i = 0 ->
  issue_detail (stamp_issue batch i) = issue_detail i /\
  issue_command_index (stamp_issue batch i) = issue_command_index i /\
  issue_batch_seq (stamp_issue batch i) = batch_seq batch /\
  issue_client_command_id (stamp_issue batch i) = get0 (client_command_id batch).
Proof. intros Hz. unfold stamp_issue, has. destruct (client_command_id batch); cbn; auto. Qed.

Lemma reject_report (batch : CommandBatch) (st : CommandBatchStatus) (code : CommandIssueCode)
    (path detail : string) (hint : RetryHint) :
  st = COMMAND_BATCH_REJECTED_INVALID \/ st = COMMAND_BATCH_REJECTED_STALE -> detail <> ""%string ->
  is_rejection batch (reject settings batch st code 0 path detail hint).
Proof.
  intros Hst Hd. unfold is_rejection, reject, rejected; cbn -[stamp_issue]. split_and!; try done.
  eexists. split; [done|]. unfold FillIssue.
  destruct (stamp_issue_spec batch (FillCommandIssue code 0 path detail hint) eq_refl) as (-> & _ & -> & ->). done.
Qed.

(** The failures of the command checks leave the identifiers to the caller. *)
Definition unstamped (f : Failure) : Prop := issue_client_command_id f.2 = 0.

Lemma ValidateLoop_unstamped (batch_target i : Z) (b : bool) (cmds : list AICommand) (f : Failure) :
  ValidateLoop ai settings max_x max_z batch_target i b cmds = inr f -> unstamped f.
Proof.
  assert (Hff : forall x y : option Failure, (forall g, x = Some g -> unstamped g) ->
    (forall g, y = Some g -> unstamped g) -> forall g, first_failure x y = Some g -> unstamped g)
    by (intros [] ? ? ?; cbn; auto).
  assert (Hfail : forall code j path d h g, fail code j path d h = Some g -> unstamped g)
    by (intros; unfold fail in *; by simplify_eq).
  assert (Hv : forall c j g, ValidateCommand ai settings max_x max_z c j = Some g -> unstamped g).
  { intros c j. unfold ValidateCommand.
    assert (Ht : forall g, first_failure (ValidateEnums c j) (first_failure
       (ValidatePosition max_x max_z c j) (ValidateBuildDef ai c j)) = Some g -> unstamped g).
    { apply Hff; [|apply Hff]; intros g;
        unfold ValidateEnums, ValidatePosition, ValidateBuildDef; repeat case_match; try done; apply Hfail. }
    destruct c; intros g; [apply Hfail|..]; repeat (case_match; [apply Hfail|]); apply Ht. }
  revert i b. induction cmds as [|c cmds IH]; intros i b; cbn; [done|].
  destruct (first_failure _ _) as [g|] eqn:E; [|apply IH]. intros [= <-].
  eapply Hff; [..|exact E]; [|by apply Hv]. intros g'. unfold ValidateCommandTarget.
  repeat case_match; try done; apply Hfail.
Qed.

(** The verdict is all or nothing and explains itself: an accepted batch
    reports all its commands and no issue; a rejected batch reports zero accepted
    commands and exactly one issue, which carries the batch's identifiers and the
    error text. *)
Theorem ValidateBatch_report (batch : CommandBatch) :
  size_of (commands batch) < 2 ^ 31 ->
  let r := ValidateBatch ai settings max_x max_z batch in
  if ok r then
    result_status (batch_result r) = COMMAND_BATCH_ACCEPTED /\ result_issues (batch_result r) = [] /\
    result_accepted_command_count (batch_result r) = size_of (commands batch) /\ error r = ""%string
  else is_rejection batch r.
Proof.
  intros Hw. pose proof (size_of_nonneg (commands batch)) as Hn. unfold ValidateBatch.
  rewrite u32_small by lia. cbn zeta.
  destruct (size_of (commands batch) =? 0); [by apply reject_report; [left|]|].
  destruct ((0 <? _) && _); [by apply reject_report; [left|]|].
  destruct (require_correlation settings && _); [by apply reject_report; [left|]|].
  destruct (require_state_basis settings && _); [by apply reject_report; [right|]|].
  destruct (ValidateLoop _ _ _ _ _ _ _ _) as [bound|[d iss]] eqn:El.
  - destruct (bound && _); [by apply reject_report; [left|]|]. done.
  - unfold is_rejection, rejected; cbn -[stamp_issue].
    pose proof (ValidateLoop_unstamped _ _ _ _ _ El) as Hu; cbn in Hu.
    apply ValidateLoop_inr in El as (k & c & _ & (_ & Hd & Hne) & _); [|lia..]. cbn in *.
    destruct (stamp_issue_spec batch iss Hu) as (E1 & _ & E3 & E4).
    split_and!; auto. exists (stamp_issue batch iss). rewrite E1, E3, E4. done.
Qed.

(** The shape requirements that precede the commands. *)
Definition shape_ok (batch : CommandBatch) : Prop :=
  1 <= size_of (commands batch) /\
  (set_max_batch_commands settings <= 0 \/ size_of (commands batch) <= set_max_batch_commands settings) /\
  (require_correlation settings = true -> is_Some (client_command_id batch)) /\
  (require_state_basis settings = true ->
     is_Some (based_on_frame batch) /\ is_Some (based_on_state_seq batch)).

(** When a batch is rejected because of a command, the issue points at the
    first offending one: its [command_index] is the position of the first command
    that fails its checks, every earlier command passes them. *)
Theorem ValidateBatch_first_offender (batch : CommandBatch) :
  size_of (commands batch) < 2 ^ 31 -> shape_ok batch ->
  ~ Forall (fun c => target_ok (i32 (target_unit_id batch)) c /\ command_ok ai settings max_x max_z c) (commands batch) ->
  exists k c i,
    commands batch !! k = Some c /\
    ~ (target_ok (i32 (target_unit_id batch)) c /\ command_ok ai settings max_x max_z c) /\
    Forall (fun c => target_ok (i32 (target_unit_id batch)) c /\ command_ok ai settings max_x max_z c)
      (take k (commands batch)) /\
    result_issues (batch_result (ValidateBatch ai settings max_x max_z batch)) = [i] /\
    issue_command_index i = Z.of_nat k.
Proof.
  intros Hw (Hn & Hmax & Hcor & Hbas) Hbad. unfold ValidateBatch. rewrite u32_small by lia.
  destruct (Z.eqb_spec (size_of (commands batch)) 0); [lia|].
  destruct ((0 <? _) && _) eqn:Em; [bools; lia|].
  destruct (require_correlation settings && _) eqn:Ec.
  { bools. destruct (Hcor H) as [? E]. by rewrite E in H0. }
  destruct (require_state_basis settings && _) eqn:Es.
  { apply andb_true_iff in Es as [Hb Ho]. destruct (Hbas Hb) as [[? E1] [? E2]]. by rewrite E1, E2 in Ho. }
  destruct (ValidateLoop _ _ _ _ _ _ _ _) as [bound|[d iss]] eqn:El.
  - apply ValidateLoop_inl in El as [Hall _]. done.
  - pose proof (ValidateLoop_unstamped _ _ _ _ _ El) as Hu; cbn in Hu.
    apply ValidateLoop_inr in El as (k & c & Hk & (Hi & _) & Hnot & Hall); [|lia..].
    exists k, c, (stamp_issue batch iss). split_and!; try done.
    destruct (stamp_issue_spec batch iss Hu) as (_ & -> & _ & _). cbn in Hi. lia.
Qed.

End BatchTheorems.

(** ** Stricter settings accept less *)

Record settings_le (s s' : CommandValidationSettings) : Prop := {
  le_max : set_max_batch_commands s <= 0 \/
           0 < set_max_batch_commands s' <= set_max_batch_commands s;
  le_correlation : require_correlation s = true -> require_correlation s' = true;
  le_basis : require_state_basis s = true -> require_state_basis s' = true;
  le_admin : allow_legacy_ai_admin s' = true -> allow_legacy_ai_admin s = true;
  le_arms : reject_unsupported_arms s = true \/ mode s = VALIDATION_MODE_STRICT ->
            reject_unsupported_arms s' = true \/ mode s' = VALIDATION_MODE_STRICT;
}.

(** Tightening the settings never admits a batch that was refused before:
    whatever a stricter configuration accepts, the looser one accepts too. *)
Theorem stricter_accepts_less (ai : option CircuitAI) (max_x max_z : float)
    (s s' : CommandValidationSettings) (batch : CommandBatch) :
  size_of (commands batch) < 2 ^ 31 -> settings_le s s' ->
  ok (ValidateBatch ai s' max_x max_z batch) = true -> ok (ValidateBatch ai s max_x max_z batch) = true.
Proof.
  intros Hw [Hm Hc Hb Ha Hr]. rewrite !ValidateBatch_loop by done.
  intros [H1 H2 H3 H4 H5 H6]. split; auto; [lia|].
  eapply Forall_impl; [exact H5|]. cbn. intros c [Ht [? Had Harm ? ? ? ? ?]]. split; [done|].
  split; auto. destruct Had; auto.
Qed.

(** ** Concrete batches *)

Definition demo_ai : CircuitAI :=
  {| teamUnits := {[7 := {| unit_def_id := 3; isDead := false |}]}; defsById_size := 10 |}.

Definition demo_position (x : Z) : Vector3 := {| vx := float_of_Z x; vy := f0; vz := float_of_Z 5 |}.

Definition demo_move (unit x : Z) : AICommand :=
  kMoveUnit {| MoveUnit_unit_id := unit; MoveUnit_group_id := 0; MoveUnit_options := 1;
               MoveUnit_timeout := 0; MoveUnit_to_position := demo_position x |}.

Definition demo_batch_of (cmds : list AICommand) : CommandBatch :=
  {| batch_seq := 3; target_unit_id := 7; commands := cmds; batch_options := None;
     client_command_id := Some 11; based_on_frame := None; based_on_state_seq := None;
     target_generation := None; conflict_policy := COMMAND_CONFLICT_REPLACE_CURRENT |}.

Definition demo_validate (s : CommandValidationSettings) (cmds : list AICommand) : ValidationResult :=
  ValidateBatch (Some demo_ai) s (float_of_Z 100) (float_of_Z 100) (demo_batch_of cmds).

Definition strict_settings : CommandValidationSettings :=
  {| mode := VALIDATION_MODE_STRICT; set_max_batch_commands := 8; require_correlation := true;
     require_state_basis := false; allow_legacy_ai_admin := false; reject_unsupported_arms := true |}.

Lemma ValidateBatch_accepts_iff_witness :
  batch_ok (Some demo_ai) default_settings (float_of_Z 100) (float_of_Z 100) (demo_batch_of [demo_move 7 50]) /\
  ~ batch_ok (Some demo_ai) default_settings (float_of_Z 100) (float_of_Z 100) (demo_batch_of [demo_move 7 500]).
Proof.
  pose proof (fun b => ValidateBatch_accepts_iff (Some demo_ai) default_settings (float_of_Z 100) (float_of_Z 100) b) as H.
  split.
  - apply H; vm_compute; reflexivity.
  - rewrite <- H; [vm_compute; discriminate | vm_compute; reflexivity].
Defined.

Lemma ValidateBatch_report_witness :
  is_rejection (demo_batch_of [demo_move 8 50]) (demo_validate default_settings [demo_move 8 50]).
Proof.
  exact (ValidateBatch_report (Some demo_ai) default_settings (float_of_Z 100) (float_of_Z 100)
    (demo_batch_of [demo_move 8 50]) eq_refl).
Defined.

Lemma ValidateBatch_first_offender_witness :
  exists k c i, commands (demo_batch_of [demo_move 7 50; demo_move 7 500]) !! k = Some c /\
    result_issues (batch_result (demo_validate default_settings [demo_move 7 50; demo_move 7 500])) = [i] /\
    issue_command_index i = Z.of_nat k.
Proof.
  destruct (ValidateBatch_first_offender (Some demo_ai) default_settings (float_of_Z 100) (float_of_Z 100)
    (demo_batch_of [demo_move 7 50; demo_move 7 500])) as (k & c & i & Hk & _ & _ & Hi & Hx).
  - reflexivity.
  - unfold shape_ok, size_of; cbn. split_and!; try lia; done.
  - intros Hall. apply Forall_cons in Hall as [_ Hall]. apply Forall_cons in Hall as [[_ Hc] _].
    pose proof (proj2 (ValidateCommand_None (Some demo_ai) default_settings (float_of_Z 100) (float_of_Z 100) _ 0) Hc) as E.
    vm_compute in E. discriminate E.
  - exists k, c, i. exact (conj Hk (conj Hi Hx)).
Defined.

Lemma stricter_accepts_less_witness : ok (demo_validate default_settings [demo_move 7 50]) = true.
Proof.
  apply (stricter_accepts_less (Some demo_ai) (float_of_Z 100) (float_of_Z 100) default_settings strict_settings
    (demo_batch_of [demo_move 7 50])).
  - reflexivity.
  - split; cbn; (lia || tauto || discriminate || intuition discriminate).
  - vm_compute. reflexivity.
Defined.
