(* ===== verification/CommandDispatch.v ===== *)
(** Command dispatch on the engine thread (grpc/CommandDispatch.h, .cpp): from a
    command and the live unit it targets to the calls made into the engine.

    The engine is outside the repository: [Engine] says which of its objects are
    present and how its fallible calls answer.  A dispatch is the list of calls
    made, the cheats flag afterwards and the value returned. *)

From S2P Require Import Prelude Float32 Proto CircuitAI CapabilityProvider CommandValidator.

(** ** Routing *)

Definition IsGameWideCommand (cmd : AICommand) : bool :=
  match cmd with
  | kSendTextMessage _
  | kSetLastPosMessage _
  | kPauseTeam _
  | kInitPath _
  | kGetApproxLength _
  | kGetNextWaypoint _
  | kFreePath _
  | kCallLuaRules _
  | kCallLuaUi _
  | kSetMyIncomeShareDirect _
  | kSetShareLevel _
  | kDrawAddPoint _
  | kDrawAddLine _
  | kDrawRemovePoint _
  | kCreateSplineFigure _
  | kCreateLineFigure _
  | kSetFigurePosition _
  | kSetFigureColor _
  | kRemoveFigure _
  | kDrawUnit _
  | kGiveMeNewUnit _
  | kSendResources _
  | kGiveMe _ => true
  | _ => false
  end.

Definition EffectiveDispatchTargetUnitId (authoritative_target_unit_id : Z) (cmd : AICommand) : option Z :=
  if IsGameWideCommand cmd then Some (-1)
  else if authoritative_target_unit_id =? 0 then None
  else Some authoritative_target_unit_id.

(** ** Options and timeouts *)

(** [static_cast<short>(options)]; 0 for the arms the switch does not list. *)
Definition OptionsOf (cmd : AICommand) : Z :=
  match cmd with
  | kBuildUnit m => i16 (BuildUnit_options m)
  | kStop m => i16 (Stop_options m)
  | kWait m => i16 (Wait_options m)
  | kTimedWait m => i16 (TimedWait_options m)
  | kMoveUnit m => i16 (MoveUnit_options m)
  | kPatrol m => i16 (Patrol_options m)
  | kFight m => i16 (Fight_options m)
  | kAttack m => i16 (Attack_options m)
  | kAttackArea m => i16 (AttackArea_options m)
  | kGuard m => i16 (Guard_options m)
  | kRepair m => i16 (Repair_options m)
  | kReclaimUnit m => i16 (ReclaimUnit_options m)
  | kReclaimArea m => i16 (ReclaimArea_options m)
  | kReclaimInArea m => i16 (ReclaimInArea_options m)
  | kReclaimFeature m => i16 (ReclaimFeature_options m)
  | kResurrectInArea m => i16 (ResurrectInArea_options m)
  | kSelfDestruct m => i16 (SelfDestruct_options m)
  | kDgun m => i16 (DGun_options m)
  | kSetWantedMaxSpeed m => i16 (SetWantedMaxSpeed_options m)
  | kSetFireState m => i16 (SetFireState_options m)
  | kSetMoveState m => i16 (SetMoveState_options m)
  | _ => 0
  end.

Definition raw_timeout (cmd : AICommand) : Z :=
  match cmd with
  | kMoveUnit m => MoveUnit_timeout m
  | kPatrol m => Patrol_timeout m
  | kFight m => Fight_timeout m
  | kAttack m => Attack_timeout m
  | kAttackArea m => AttackArea_timeout m
  | kRepair m => Repair_timeout m
  | kReclaimUnit m => ReclaimUnit_timeout m
  | kReclaimInArea m => ReclaimInArea_timeout m
  | kResurrectInArea m => ResurrectInArea_timeout m
  | kBuildUnit m => BuildUnit_timeout m
  | kDgun m => DGun_timeout m
  | _ => 0
  end.

Definition TimeoutOf (cmd : AICommand) : Z :=
  let t := raw_timeout cmd in if t <=? 0 then INT_MAX else t.

(** ** The engine *)

Inductive EngineCall :=
  | CmdMoveTo (pos : Vector3) (opts timeout : Z)
  | CmdPatrolTo (pos : Vector3) (opts timeout : Z)
  | CmdFightTo (pos : Vector3) (opts timeout : Z)
  | CmdAttackGround (pos : Vector3) (opts timeout : Z)
  | CmdStop (opts timeout : Z)
  | CmdWait (state : bool)
  | CmdBuild (def : Z) (pos : Vector3) (facing opts timeout : Z)
  | CmdRepair (target opts timeout : Z)
  | CmdReclaimUnit (target opts timeout : Z)
  | CmdReclaimInArea (pos : Vector3) (radius : float) (opts timeout : Z)
  | CmdResurrectInArea (pos : Vector3) (radius : float) (opts timeout : Z)
  | CmdSelfD (state : bool)
  | CmdWantedSpeed (speed : float)
  | CmdSetFireState (state : Z)
  | CmdSetMoveState (state : Z)
  | ExecuteCustomCommand (cmdId : Z) (params : list float) (opts timeout : Z)
  | SendTextMessage (text : string) (zone : Z)
  | SetLastMessagePosition (pos : Vector3)
  | SetPause (enable : bool) (reason : string)
  | InitPath (from to : Vector3) (path_type : Z) (goal_radius : float)
  | GetApproximateLength (from to : Vector3) (path_type : Z) (goal_radius : float)
  | GetNextWaypoint (path_id : Z)
  | FreePath (path_id : Z)
  | CallRules (data : string) (size : Z)
  | CallUI (data : string) (size : Z)
  | SetMyIncomeMultiplier (factor : float)
  | AddPoint (pos : Vector3) (label : string)
  | AddLine (from to : Vector3)
  | DeletePointsAndLines (pos : Vector3)
  | DrawSpline (p1 p2 p3 p4 : Vector3) (width : float) (arrow : bool) (lifespan group : Z)
  | DrawLine (from to : Vector3) (width : float) (arrow : bool) (lifespan group : Z)
  | SetColor (figure : Z) (r g b alpha : option Z)
  | RemoveFigure (figure : Z)
  | DrawUnit (def : Z) (pos : Vector3) (rotation : float) (lifespan team : Z)
             (transparent border : bool) (facing : Z)
  | GiveMeUnit (def : Z) (pos : Vector3)
  | SendResource (resource : string) (amount : float) (team : Z)
  | GiveMeResource (resource : string) (amount : float)
  | SetEnabled (enable : bool)       (** cheats toggle *)
  | LogError (message : string).

(** The engine behind the AI's accessors: which pointers are non-null, and how
    the calls that can fail answer.  [SetEnabled_] also gives the cheats flag
    after the call. *)
Record Engine := {
  eng_ai : CircuitAI;
  GetGame : bool; GetPathing : bool; GetLua : bool; GetDrawer : bool; GetFigure : bool;
  GetCheats : bool; GetCallback : bool; GetEconomy : bool;
  GetUnit : bool;                            (** the wrapped [springai::Unit] of the target *)
  GetFriendlyUnit : Z -> bool;
  GetDef : Z -> bool;                        (** the wrapped [UnitDef] of a definition *)
  GetResourceByName : string -> bool;
  IsEnabled_ : bool -> res bool;
  SetEnabled_ : bool -> bool -> res bool * bool;
  SetMyIncomeMultiplier_ : float -> res unit;
  GiveMeUnit_ : Z -> Vector3 -> res Z;
  GiveMeResource_ : string -> float -> res unit;
}.

(** The calls made, the cheats flag afterwards, the value returned. *)
Record Outcome := { calls : list EngineCall; cheats_flag : bool; returned : bool }.

Definition done_ (flag : bool) (c : EngineCall) : Outcome :=
  {| calls := [c]; cheats_flag := flag; returned := true |}.
Definition nothing (flag : bool) : Outcome := {| calls := []; cheats_flag := flag; returned := false |}.
Definition logged (flag : bool) (msg : string) : Outcome :=
  {| calls := [LogError msg]; cheats_flag := flag; returned := false |}.

(** [e.what()], or the text of the catch-all handler. *)
Definition what_of (e : exn) : string :=
  if decide (exn_kind e = unknown_exception) then "unknown exception" else exn_what e.

Section Dispatch.
Context (eng : Engine).

(** [p == nullptr ? return false : call]. *)
Definition guarded (present : bool) (flag : bool) (o : Outcome) : Outcome :=
  if present then o else nothing flag.

(** The orders with a [CCircuitUnit::Cmd*] method. *)
Definition DispatchUnitOrders (cmd : AICommand) (flag : bool) : option Outcome :=
  let opts := OptionsOf cmd in
  let timeout := TimeoutOf cmd in
  let done_ := done_ flag in
  match cmd with
  | kMoveUnit m => Some (done_ (CmdMoveTo (MoveUnit_to_position m) opts timeout))
  | kPatrol m => Some (done_ (CmdPatrolTo (Patrol_to_position m) opts timeout))
  | kFight m => Some (done_ (CmdFightTo (Fight_to_position m) opts timeout))
  | kAttackArea m => Some (done_ (CmdAttackGround (AttackArea_attack_position m) opts timeout))
  | kStop _ => Some (done_ (CmdStop opts timeout))
  | kWait _ => Some (done_ (CmdWait true))
  | kBuildUnit m =>
      let def_id := BuildUnit_to_build_unit_def_id m in
      Some (if def_id <=? 0 then logged flag "build: invalid def_id <= 0"
            else match GetCircuitDefSafe (eng_ai eng) def_id with
                 | None => logged flag "build: unknown def_id (validated away — should not happen)"
                 | Some def => done_ (CmdBuild def (BuildUnit_build_position m) (BuildUnit_facing m) opts timeout)
                 end)
  | kRepair m =>
      Some (guarded (GetFriendlyUnit eng (Repair_repair_unit_id m)) flag
              (done_ (CmdRepair (Repair_repair_unit_id m) opts timeout)))
  | kReclaimUnit m =>
      Some (guarded (GetFriendlyUnit eng (ReclaimUnit_reclaim_unit_id m)) flag
              (done_ (CmdReclaimUnit (ReclaimUnit_reclaim_unit_id m) opts timeout)))
  | kReclaimInArea m =>
      Some (done_ (CmdReclaimInArea (ReclaimInArea_position m) (ReclaimInArea_radius m) opts timeout))
  | kResurrectInArea m =>
      Some (done_ (CmdResurrectInArea (ResurrectInArea_position m) (ResurrectInArea_radius m) opts timeout))
  | kSelfDestruct _ => Some (done_ (CmdSelfD true))
  | kSetWantedMaxSpeed m => Some (done_ (CmdWantedSpeed (SetWantedMaxSpeed_wanted_max_speed m)))
  | kSetFireState m => Some (done_ (CmdSetFireState (SetFireState_fire_state m)))
  | kSetMoveState m => Some (done_ (CmdSetMoveState (SetMoveState_move_state m)))
  | _ => None
  end.

Definition float_of_bool (b : bool) : float := if b then float_of_Z 1 else f0.
Definition xyz (p : Vector3) : list float := [vx p; vy p; vz p].

(** The command id and parameters of the orders sent through the raw
    [springai::Unit::ExecuteCustomCommand], first half. *)
Definition RawOrderA (cmd : AICommand) : option (Z * list float) :=
  match cmd with
  | kAttack m => Some (20, [float_of_Z (Attack_target_unit_id m)])
  | kGuard m => Some (25, [float_of_Z (Guard_guard_unit_id m)])
  | kDgun m => Some (105, [float_of_Z (DGun_target_unit_id m)])
  | kCapture m => Some (130, [float_of_Z (Capture_target_unit_id m)])
  | kSetOnOff m => Some (85, [float_of_bool (SetOnOff_on m)])
  | kSetRepeat m => Some (115, [float_of_bool (SetRepeat_repeat m)])
  | kStockpile _ => Some (100, [])
  | kTimedWait m => Some (6, [float_of_Z (TimedWait_wait_time m)])
  | kSquadWait m => Some (8, [float_of_Z (SquadWait_num_units m)])
  | kDeathWait m => Some (7, [float_of_Z (DeathWait_death_unit_id m)])
  | kGatherWait _ => Some (9, [])
  | kReclaimArea m => Some (90, xyz (ReclaimArea_position m) ++ [ReclaimArea_radius m])
  | kReclaimFeature m => Some (90, [float_of_Z (ReclaimFeature_feature_id m)])
  | _ => None
  end.

(** And second half, with the group orders. *)
Definition RawOrderB (cmd : AICommand) : option (Z * list float) :=
  match cmd with
  | kRestoreArea m => Some (110, xyz (RestoreArea_position m) ++ [RestoreArea_radius m])
  | kResurrect m => Some (125, [float_of_Z (Resurrect_feature_id m)])
  | kCaptureArea m => Some (130, xyz (CaptureArea_position m) ++ [CaptureArea_radius m])
  | kSetBase m => Some (55, xyz (SetBase_base_position m))
  | kLoadUnits m => Some (75, float_of_Z <$> LoadUnits_to_load_unit_ids m)
  | kLoadUnitsArea m => Some (75, xyz (LoadUnitsArea_position m) ++ [LoadUnitsArea_radius m])
  | kLoadOnto m => Some (76, [float_of_Z (LoadOnto_transport_unit_id m)])
  | kUnloadUnit m => Some (81, xyz (UnloadUnit_to_position m) ++ [float_of_Z (UnloadUnit_to_unload_unit_id m)])
  | kUnloadUnitsArea m => Some (80, xyz (UnloadUnitsArea_to_position m) ++ [UnloadUnitsArea_radius m])
  | kSetTrajectory m => Some (120, [float_of_Z (SetTrajectory_trajectory m)])
  | kSetAutoRepairLevel m => Some (135, [float_of_Z (SetAutoRepairLevel_auto_repair_level m)])
  | kSetIdleMode m => Some (145, [float_of_Z (SetIdleMode_idle_mode m)])
  | _ => None
  end.

Definition RawGroupOrder (cmd : AICommand) : option (Z * list float) :=
  match cmd with
  | kGroupAddUnit m => Some (36, [float_of_Z (GroupAddUnit_group_id m)])
  | kGroupRemoveUnit _ => Some (37, [])
  | _ => None
  end.

Definition execute_raw (cmd : AICommand) (flag : bool) (raw : Z * list float) : Outcome :=
  guarded (GetUnit eng) flag
    (done_ flag (ExecuteCustomCommand raw.1 raw.2 (OptionsOf cmd) (TimeoutOf cmd))).

(** Parameter counts the custom command ids require; [Some msg] on a mismatch. *)
Definition CustomParamsError (customId paramsSize : Z) : option string :=
  if customId =? 32102 then                                   (* CMD_MANUAL_LAUNCH *)
    if negb (paramsSize =? 1) && negb (paramsSize =? 3)
    then Some "custom: MANUAL_LAUNCH expects unit-id or map-position params"%string else None
  else if (customId =? 34571) || (customId =? 37382) then     (* CMD_BAR_PRIORITY, CMD_WANT_CLOAK *)
    if negb (paramsSize =? 1)
    then Some "custom: mode-toggle command expects exactly one param"%string else None
  else if (customId =? 34922) || (customId =? 34923) then
    if negb (paramsSize =? 1) && negb (paramsSize =? 3)
    then Some "custom: set-target command expects unit-id or map-position params"%string else None
  else if customId =? 34924 then
    if negb (paramsSize =? 0)
    then Some "custom: UNIT_CANCEL_TARGET expects no params"%string else None
  else if customId =? 34925 then
    if paramsSize <? 3
    then Some "custom: UNIT_SET_TARGET_RECTANGLE expects area params"%string else None
  else None.

Definition DispatchCustom (m : CustomCommand) (cmd : AICommand) (flag : bool) : Outcome :=
  if negb (GetUnit eng) then nothing flag
  else match CustomParamsError (Custom_command_id m) (size_of (Custom_params m)) with
       | Some msg => logged flag msg
       | None => done_ flag (ExecuteCustomCommand (Custom_command_id m) (Custom_params m)
                               (OptionsOf cmd) (TimeoutOf cmd))
       end.

(** Game, pathing and Lua calls. *)
Definition DispatchGame (cmd : AICommand) (flag : bool) : option Outcome :=
  let done_ := done_ flag in
  match cmd with
  | kSendTextMessage m =>
      Some (guarded (GetGame eng) flag (done_ (SendTextMessage (SendTextMessage_text m) (SendTextMessage_zone m))))
  | kSetLastPosMessage m =>
      Some (guarded (GetGame eng) flag (done_ (SetLastMessagePosition (SetLastPosMessage_position m))))
  | kPauseTeam m => Some (guarded (GetGame eng) flag (done_ (SetPause (PauseTeam_enable m) "via highbar gRPC")))
  | kInitPath m =>
      Some (guarded (GetPathing eng) flag
              (done_ (InitPath (InitPath_start_position m) (InitPath_end_position m)
                        (InitPath_path_type m) (InitPath_goal_radius m))))
  | kGetApproxLength m =>
      Some (guarded (GetPathing eng) flag
              (done_ (GetApproximateLength (GetApproxLength_start_position m) (GetApproxLength_end_position m)
                        (GetApproxLength_path_type m) (GetApproxLength_goal_radius m))))
  | kGetNextWaypoint m =>
      Some (guarded (GetPathing eng) flag (done_ (GetNextWaypoint (GetNextWaypoint_path_id m))))
  | kFreePath m => Some (guarded (GetPathing eng) flag (done_ (FreePath (FreePath_path_id m))))
  | kCallLuaRules m =>
      let d := CallLuaRules_data m in
      Some (guarded (GetLua eng) flag (done_ (CallRules d (i32 (Z.of_nat (String.length d))))))
  | kCallLuaUi m =>
      let d := CallLuaUI_data m in
      Some (guarded (GetLua eng) flag (done_ (CallUI d (i32 (Z.of_nat (String.length d))))))
  | _ => None
  end.

(** [static_cast<unsigned char>(c * 255.0f)] and the [short] of the alpha:
    [None] where the conversion is undefined. *)
Definition color_byte (c : float) : option Z :=
  v ← ftrunc (fmul c (float_of_Z 255)); if (0 <=? v) && (v <=? 255) then Some v else None.
Definition color_short (c : float) : option Z :=
  v ← ftrunc (fmul c (float_of_Z 255)); if (-32768 <=? v) && (v <=? 32767) then Some v else None.

Definition DispatchDrawer (cmd : AICommand) (flag : bool) : option Outcome :=
  let on_drawer o := guarded (GetDrawer eng) flag o in
  let on_figure o := guarded (GetDrawer eng) flag (guarded (GetFigure eng) flag o) in
  let done_ := done_ flag in
  match cmd with
  | kDrawAddPoint m => Some (on_drawer (done_ (AddPoint (DrawAddPoint_position m) (DrawAddPoint_label m))))
  | kDrawAddLine m => Some (on_drawer (done_ (AddLine (DrawAddLine_from_position m) (DrawAddLine_to_position m))))
  | kDrawRemovePoint m => Some (on_drawer (done_ (DeletePointsAndLines (DrawRemovePoint_position m))))
  | kCreateSplineFigure m =>
      Some (on_figure (done_ (DrawSpline (CreateSplineFigure_position1 m) (CreateSplineFigure_position2 m)
        (CreateSplineFigure_position3 m) (CreateSplineFigure_position4 m) (CreateSplineFigure_width m)
        (CreateSplineFigure_arrow m) (CreateSplineFigure_lifespan m) (CreateSplineFigure_figure_group_id m))))
  | kCreateLineFigure m =>
      Some (on_figure (done_ (DrawLine (CreateLineFigure_from_position m) (CreateLineFigure_to_position m)
        (CreateLineFigure_width m) (CreateLineFigure_arrow m) (CreateLineFigure_lifespan m)
        (CreateLineFigure_figure_group_id m))))
  | kSetFigurePosition _ =>
      Some (on_drawer {| calls := []; cheats_flag := flag; returned := true |})
  | kSetFigureColor m =>
      Some (on_figure (done_ (SetColor (SetFigureColor_figure_id m) (color_byte (SetFigureColor_r m))
        (color_byte (SetFigureColor_g m)) (color_byte (SetFigureColor_b m)) (color_short (SetFigureColor_a m)))))
  | kRemoveFigure m => Some (on_figure (done_ (RemoveFigure (RemoveFigure_figure_id m))))
  | kDrawUnit m =>
      Some (on_drawer
        match GetCircuitDefSafe (eng_ai eng) (DrawUnit_unit_def_id m) with
        | None => nothing flag
        | Some def =>
            guarded (GetDef eng def) flag
              (done_ (DrawUnit def (DrawUnit_position m) (DrawUnit_rotation m) (DrawUnit_lifespan m)
                        (DrawUnit_team_id m) (DrawUnit_transparent m) (DrawUnit_draw_border m) (DrawUnit_facing m)))
        end)
  | _ => None
  end.

(** [ScopedCheatEnable]: enable cheats if they are off, run the body, and turn
    them off again when the scope ends if this scope turned them on. *)
Definition with_cheats (command_name : string) (flag : bool) (body : bool -> Outcome) : Outcome :=
  match IsEnabled_ eng flag with
  | Throw e => logged flag (command_name +:+ ": cheat enable failed: " +:+ what_of e)
  | Ok true => body flag
  | Ok false =>
      let '(r, flag1) := SetEnabled_ eng true flag in
      let entered := SetEnabled true in
      match r with
      | Throw e =>
          {| calls := [entered; LogError (command_name +:+ ": cheat enable failed: " +:+ what_of e)];
             cheats_flag := flag1; returned := false |}
      | Ok false =>
          {| calls := [entered; LogError (command_name +:+ ": unable to enable cheats")];
             cheats_flag := flag1; returned := false |}
      | Ok true =>
          let o := body flag1 in
          let '(r2, flag2) := SetEnabled_ eng false (cheats_flag o) in
          {| calls := entered :: calls o ++ SetEnabled false ::
               match r2 with
               | Throw e => [LogError (command_name +:+ ": cheat disable failed: " +:+ what_of e)]
               | Ok _ => []
               end;
             cheats_flag := flag2; returned := returned o |}
      end
  end.

(** A cheat call that may throw: its log line on an exception. *)
Definition try_cheat (command_name : string) (flag : bool) (c : EngineCall) (r : res unit) : Outcome :=
  match r with
  | Ok _ => done_ flag c
  | Throw e =>
      {| calls := [c; LogError (command_name +:+ ": " +:+ what_of e)]; cheats_flag := flag; returned := false |}
  end.

Definition resource_name (resource_id : Z) : string := if resource_id =? 0 then "Metal" else "Energy".

Definition GiveNewUnit (m : GiveMeNewUnitCommand) (flag : bool) : Outcome :=
  let def_id := GiveMeNewUnit_unit_def_id m in
  if def_id <=? 0 then logged flag "give_me_new_unit: invalid def_id <= 0"
  else match GetCircuitDefSafe (eng_ai eng) def_id with
       | None => nothing flag
       | Some def =>
           guarded (GetDef eng def) flag
             (let c := GiveMeUnit def (GiveMeNewUnit_position m) in
              match GiveMeUnit_ eng def (GiveMeNewUnit_position m) with
              | Ok spawned =>
                  if spawned <=? 0
                  then {| calls := [c; LogError "give_me_new_unit: engine returned unit_id <= 0"];
                          cheats_flag := flag; returned := false |}
                  else done_ flag c
              | Throw e =>
                  {| calls := [c; LogError ("give_me_new_unit: " +:+ what_of e)];
                     cheats_flag := flag; returned := false |}
              end)
       end.

Definition GiveResource (m : GiveMeCommand) (flag : bool) : Outcome :=
  if fle (GiveMe_amount m) f0 then logged flag "give_me: invalid amount <= 0"
  else guarded (GetCallback eng) flag
    (let name := resource_name (GiveMe_resource_id m) in
     guarded (GetResourceByName eng name) flag
       (try_cheat "give_me" flag (GiveMeResource name (GiveMe_amount m)) (GiveMeResource_ eng name (GiveMe_amount m)))).

Definition DispatchCheats (cmd : AICommand) (flag : bool) : option Outcome :=
  let on_cheats name body := guarded (GetCheats eng) flag (with_cheats name flag body) in
  match cmd with
  | kSetMyIncomeShareDirect m =>
      let share := SetMyIncomeShareDirect_share m in
      Some (on_cheats "set_my_income_share_direct"%string (fun flag =>
        try_cheat "set_my_income_share_direct" flag (SetMyIncomeMultiplier share) (SetMyIncomeMultiplier_ eng share)))
  | kSetShareLevel m =>
      let share := SetShareLevel_share_level m in
      Some (on_cheats "set_share_level"%string (fun flag =>
        try_cheat "set_share_level" flag (SetMyIncomeMultiplier share) (SetMyIncomeMultiplier_ eng share)))
  | kGiveMeNewUnit m => Some (on_cheats "give_me_new_unit"%string (GiveNewUnit m))
  | kGiveMe m => Some (on_cheats "give_me"%string (GiveResource m))
  | _ => None
  end.

Definition DispatchResources (m : SendResourcesCommand) (flag : bool) : Outcome :=
  guarded (GetCallback eng) flag (guarded (GetEconomy eng) flag
    (let name := resource_name (SendResources_resource_id m) in
     guarded (GetResourceByName eng name) flag
       (done_ flag (SendResource name (SendResources_amount m) (SendResources_receiving_team_id m))))).

(** The whole switch; [unit] is whether the caller resolved a unit. *)
Definition DispatchCommand (ai unit : bool) (cmd : AICommand) (flag : bool) : Outcome :=
  if negb ai || negb unit then nothing flag
  else
    match DispatchUnitOrders cmd flag with
    | Some o => o
    | None =>
        match RawOrderA cmd ∪ RawOrderB cmd ∪ RawGroupOrder cmd with
        | Some raw => execute_raw cmd flag raw
        | None =>
            match DispatchGame cmd flag ∪ DispatchDrawer cmd flag ∪ DispatchCheats cmd flag with
            | Some o => o
            | None =>
                match cmd with
                | kCustom m => DispatchCustom m cmd flag
                | kSendResources m => DispatchResources m flag
                | _ => logged flag "command arm not yet wired to engine (skipped)"
                end
            end
        end
    end.

End Dispatch.

(** ** Theorems *)

(** The two classifications of the command arms agree: for every arm of the
    oneof, either it is game-wide and carries no unit id, or it is unit-bound
    (the validator finds a unit id) and is dispatched to the batch's target. *)
Theorem arms_partition (cmd : AICommand) (target : Z) :
  cmd <> COMMAND_NOT_SET ->
  (IsGameWideCommand cmd = true /\ TryCommandUnitId cmd = None /\
     EffectiveDispatchTargetUnitId target cmd = Some (-1)) \/
  (IsGameWideCommand cmd = false /\ is_Some (TryCommandUnitId cmd) /\
     EffectiveDispatchTargetUnitId target cmd = if target =? 0 then None else Some target).
Proof. intros Hne. destruct cmd; try done; cbn; eauto. Qed.

Lemma arms_partition_witness :
  IsGameWideCommand (demo_move 7 3) = false /\ is_Some (TryCommandUnitId (demo_move 7 3)).
Proof.
  destruct (arms_partition (demo_move 7 3) 7 ltac:(discriminate)) as [(H & _)|(H1 & H2 & _)];
    [discriminate H | exact (conj H1 H2)].
Defined.

(** An effect on the game, as opposed to a log line or a toggle of the cheats. *)
Definition is_effect (c : EngineCall) : bool :=
  match c with LogError _ | SetEnabled _ => false | _ => true end.

Definition effects (o : Outcome) : list EngineCall := List.filter is_effect (calls o).

(** The command was not recognised. *)
Definition unwired : EngineCall := LogError "command arm not yet wired to engine (skipped)".

Section DispatchTheorems.
Context (eng : Engine).

(** Arms whose engine call can itself fail. *)
Definition is_cheat_arm (cmd : AICommand) : bool :=
  match cmd with
  | kSetMyIncomeShareDirect _ | kSetShareLevel _ | kGiveMeNewUnit _ | kGiveMe _ => true
  | _ => false
  end.

(** At most one effect, exactly one when the dispatch reports success, and none
    on failure unless the arm may fail inside the engine. *)
Definition one_effect (cheat noop : bool) (o : Outcome) : Prop :=
  if returned o then length (effects o) = (if noop then 0 else 1)%nat
  else if cheat then (length (effects o) <= 1)%nat else effects o = [].

Lemma guarded_one (b cheat noop flag : bool) (o : Outcome) :
  one_effect cheat noop o -> one_effect cheat noop (guarded b flag o).
Proof. destruct b; [done|]. intros _. destruct cheat; unfold one_effect; cbn; [lia|done]. Qed.

Lemma with_cheats_one (name : string) (flag : bool) (body : bool -> Outcome) :
  (forall f, one_effect true false (body f)) -> one_effect true false (with_cheats eng name flag body).
Proof.
  intros Hb. unfold with_cheats.
  destruct (IsEnabled_ eng flag) as [[]|e]; [done| |unfold one_effect; cbn; lia].
  destruct (SetEnabled_ eng true flag) as [[[]|e] flag1]; [|unfold one_effect; cbn; lia..].
  specialize (Hb flag1). destruct (body flag1) as [cs f1 r]; cbn in *.
  destruct (SetEnabled_ eng false f1) as [r2 f2]. unfold one_effect, effects in *; cbn in *.
  replace (List.filter is_effect (cs ++ _ :: _)) with (List.filter is_effect cs); [done|].
  rewrite List.filter_app. destruct r2; cbn; by rewrite app_nil_r.
Qed.

Lemma try_cheat_one (name : string) (flag : bool) (c : EngineCall) (r : res unit) :
  is_effect c = true -> one_effect true false (try_cheat name flag c r).
Proof. intros Hc. destruct r; unfold one_effect, effects; cbn; rewrite Hc; cbn; lia. Qed.

Lemma GiveNewUnit_one (m : GiveMeNewUnitCommand) (flag : bool) : one_effect true false (GiveNewUnit eng m flag).
Proof.
  unfold GiveNewUnit. case_match; [unfold one_effect; cbn; lia|].
  destruct (GetCircuitDefSafe _ _); [|unfold one_effect; cbn; lia].
  apply guarded_one. destruct (GiveMeUnit_ _ _ _); [case_match|]; unfold one_effect; cbn; lia.
Qed.

Lemma GiveResource_one (m : GiveMeCommand) (flag : bool) : one_effect true false (GiveResource eng m flag).
Proof.
  unfold GiveResource. case_match; [unfold one_effect; cbn; lia|]. apply guarded_one, guarded_one. by apply try_cheat_one.
Qed.

Lemma DispatchCheats_one (cmd : AICommand) (flag : bool) (o : Outcome) :
  DispatchCheats eng cmd flag = Some o -> one_effect true false o.
Proof.
  destruct cmd; try done; intros [= <-]; apply guarded_one, with_cheats_one; intros f.
  - by apply try_cheat_one.
  - by apply try_cheat_one.
  - apply GiveResource_one.
  - apply GiveNewUnit_one.
Qed.

(** A dispatch acts at most once: when
    it reports success exactly one call with an effect was made into the engine
    (none for [set_figure_position], which the engine cannot perform); when it
    reports failure no effect was made, except that the four cheat arms may have
    attempted their call and seen it fail. *)
Theorem dispatch_acts_once (ai unit : bool) (cmd : AICommand) (flag : bool) :
  let o := DispatchCommand eng ai unit cmd flag in
  if returned o
  then cmd <> COMMAND_NOT_SET /\ ai = true /\ unit = true /\
       length (effects o) = (match cmd with kSetFigurePosition _ => 0 | _ => 1 end)%nat
  else if is_cheat_arm cmd then (length (effects o) <= 1)%nat else effects o = [].
Proof.
  cbn zeta. unfold DispatchCommand. destruct ai, unit; cbn [negb orb]; try (by destruct (is_cheat_arm cmd); cbn; lia).
  assert (Hc : forall noop o, noop = (match cmd with kSetFigurePosition _ => true | _ => false end) ->
    cmd <> COMMAND_NOT_SET -> one_effect (is_cheat_arm cmd) noop o ->
    if returned o then cmd <> COMMAND_NOT_SET /\ true = true /\ true = true /\
       length (effects o) = (match cmd with kSetFigurePosition _ => 0 | _ => 1 end)%nat
    else if is_cheat_arm cmd then (length (effects o) <= 1)%nat else effects o = []).
  { intros noop o -> Hne Ho. unfold one_effect in Ho. destruct (returned o); [|done].
    split_and!; try done. rewrite Ho. by destruct cmd. }
  pose proof (DispatchCheats_one cmd flag) as Hch.
  destruct cmd; cbn [DispatchUnitOrders RawOrderA RawOrderB RawGroupOrder DispatchGame DispatchDrawer
    union option_union union_with]; try done; (eapply Hc; [reflexivity|discriminate|]); cbn [is_cheat_arm].
  all: try (by apply Hch).
  all: unfold execute_raw, DispatchCustom, DispatchResources; repeat apply guarded_one; try done.
  all: repeat case_match; try done; repeat apply guarded_one; try done; cbn; lia.
Qed.

(** ** Cheats *)

(** The engine's documented behaviour: [IsEnabled] reports the flag, a
    successful [SetEnabled] sets it, a failed one leaves it, and disabling cheats
    succeeds. *)
Record cheats_laws : Prop := {
  law_is_enabled : forall f b, IsEnabled_ eng f = Ok b -> b = f;
  law_set_true : forall b f f', SetEnabled_ eng b f = (Ok true, f') -> f' = b;
  law_set_fail : forall b f f' r, SetEnabled_ eng b f = (r, f') -> r <> Ok true -> f' = f;
  law_disable : forall f, (SetEnabled_ eng false f).1 = Ok true;
}.

Lemma with_cheats_flag (name : string) (flag : bool) (body : bool -> Outcome) :
  cheats_laws -> (forall f, cheats_flag (body f) = f) -> cheats_flag (with_cheats eng name flag body) = flag.
Proof.
  intros [H1 H2 H3 H4] Hb. unfold with_cheats. destruct (IsEnabled_ eng flag) as [[]|e] eqn:Ei; [by rewrite Hb| |done].
  apply H1 in Ei. destruct (SetEnabled_ eng true flag) as [[[]|e] flag1] eqn:Es; cbn.
  - destruct (SetEnabled_ eng false (cheats_flag (body flag1))) as [r2 f2] eqn:E2. cbn.
    specialize (H4 (cheats_flag (body flag1))). rewrite E2 in H4. cbn in H4. subst r2.
    apply H2 in E2. by rewrite E2, Ei.
  - by eapply H3.
  - by eapply H3.
Qed.

Lemma guarded_flag (b flag : bool) (o : Outcome) : cheats_flag o = flag -> cheats_flag (guarded b flag o) = flag.
Proof. by destruct b. Qed.

Lemma GiveNewUnit_flag (m : GiveMeNewUnitCommand) (flag : bool) : cheats_flag (GiveNewUnit eng m flag) = flag.
Proof.
  unfold GiveNewUnit. case_match; [done|]. destruct (GetCircuitDefSafe _ _); [|done].
  apply guarded_flag. destruct (GiveMeUnit_ _ _ _); [case_match|]; done.
Qed.

Lemma GiveResource_flag (m : GiveMeCommand) (flag : bool) : cheats_flag (GiveResource eng m flag) = flag.
Proof.
  unfold GiveResource. case_match; [done|]. apply guarded_flag, guarded_flag. by destruct (GiveMeResource_ _ _ _).
Qed.

(** Dispatch never leaves cheats switched on: whatever the command and
    whatever fails or throws on the way, the cheats flag after a dispatch is the
    flag before it. *)
Theorem dispatch_restores_cheats (ai unit : bool) (cmd : AICommand) (flag : bool) :
  cheats_laws -> cheats_flag (DispatchCommand eng ai unit cmd flag) = flag.
Proof.
  intros HL. unfold DispatchCommand. destruct (negb ai || negb unit); [done|].
  destruct cmd; cbn [DispatchUnitOrders RawOrderA RawOrderB RawGroupOrder DispatchGame DispatchDrawer
    DispatchCheats union option_union union_with]; try done.
  all: unfold execute_raw, DispatchCustom, DispatchResources; repeat apply guarded_flag; try done.
  all: try (apply with_cheats_flag; [done|]; intros f).
  all: try apply GiveNewUnit_flag; try apply GiveResource_flag.
  all: try (by destruct (SetMyIncomeMultiplier_ _ _)).
  all: repeat case_match; try done; by repeat apply guarded_flag.
Qed.

(** ** Every arm is wired *)

(** An engine that has every object and whose calls succeed. *)
Record responsive : Prop := {
  resp_objects : GetGame eng && GetPathing eng && GetLua eng && GetDrawer eng && GetFigure eng
                 && GetCheats eng && GetCallback eng && GetEconomy eng && GetUnit eng = true;
  resp_friendly : forall u, GetFriendlyUnit eng u = true;
  resp_def : forall d, GetDef eng d = true;
  resp_resource : forall r, GetResourceByName eng r = true;
  resp_is_enabled : forall f, IsEnabled_ eng f = Ok f;
  resp_set_enabled : forall b f, SetEnabled_ eng b f = (Ok true, b);
  resp_income : forall x, SetMyIncomeMultiplier_ eng x = Ok tt;
  resp_give_unit : forall d p, exists n, GiveMeUnit_ eng d p = Ok n /\ 0 < n;
  resp_give_resource : forall r x, GiveMeResource_ eng r x = Ok tt;
}.

(** The checks an arm makes on its own arguments. *)
Definition arguments_ok (cmd : AICommand) : bool :=
  match cmd with
  | COMMAND_NOT_SET => false
  | kBuildUnit m => has (GetCircuitDefSafe (eng_ai eng) (BuildUnit_to_build_unit_def_id m))
  | kDrawUnit m => has (GetCircuitDefSafe (eng_ai eng) (DrawUnit_unit_def_id m))
  | kGiveMeNewUnit m => has (GetCircuitDefSafe (eng_ai eng) (GiveMeNewUnit_unit_def_id m))
  | kGiveMe m => negb (fle (GiveMe_amount m) f0)
  | kCustom m => negb (has (CustomParamsError (Custom_command_id m) (size_of (Custom_params m))))
  | _ => true
  end.

Lemma GetCircuitDefSafe_pos (a : CircuitAI) (d : Z) : (d <=? 0) = true -> GetCircuitDefSafe a d = None.
Proof.
  intros ?. bools. unfold GetCircuitDefSafe, IsValidUnitDefId.
  destruct (Z.ltb_spec 0 d); [lia|done].
Qed.

Lemma with_cheats_returns (name : string) (flag : bool) (body : bool -> Outcome) (b : bool) :
  responsive -> (forall f, returned (body f) = b) -> returned (with_cheats eng name flag body) = b.
Proof.
  intros [_ _ _ _ Hi Hs _ _ _] Hb. unfold with_cheats. rewrite Hi, !Hs. destruct flag; cbn; auto.
Qed.


End DispatchTheorems.

(** ** Options on their way to the engine *)

(** Only the three low bits survive the mask check. *)
Lemma mask7_small (o : Z) : 0 <= o < 2 ^ 32 -> Z.land o (Z.lxor 7 (2 ^ 32 - 1)) = 0 -> 0 <= o <= 7.
Proof.
  intros Ho Hm. split; [lia|]. assert (Hs : Z.shiftr o 3 = 0).
  { apply Z.bits_inj'. intros n Hn. rewrite Z.bits_0, Z.shiftr_spec by lia.
    destruct (decide (n + 3 < 32)) as [Hlt|Hge].
    - assert (Hb : Z.testbit (Z.land o (Z.lxor 7 (2 ^ 32 - 1))) (n + 3) = false) by by rewrite Hm, Z.bits_0.
      rewrite Z.land_spec, Z.lxor_spec in Hb.
      replace (2 ^ 32 - 1) with (Z.ones 32) in Hb by done. rewrite Z.ones_spec_low in Hb by lia.
      replace 7 with (Z.ones 3) in Hb by done. rewrite Z.ones_spec_high in Hb by lia.
      by rewrite andb_true_r in Hb.
    - apply Z.bits_above_log2; [lia|]. destruct (decide (o = 0)) as [->|]; [cbn; lia|].
      apply Z.log2_lt_pow2; [lia|]. eapply Z.lt_le_trans; [apply Ho|]. apply Z.pow_le_mono_r; lia. }
  rewrite Z.shiftr_div_pow2 in Hs by lia. apply Z.div_small_iff in Hs; lia.
Qed.

(** What validation lets through reaches the engine unchanged: for a
    command that passes validation on an advertised arm, the option bits handed
    to the engine are the client's, in spite of the narrowing to 16 bits, and the
    timeout handed over is always positive. *)
Theorem validated_options_preserved (ai : option CircuitAI) (settings : CommandValidationSettings)
    (max_x max_z : float) (cmd : AICommand) :
  0 <= CommandOptionsOf cmd < 2 ^ 32 -> CommandArmName cmd ∈ kSupportedUnitArms ->
  command_ok ai settings max_x max_z cmd ->
  OptionsOf cmd = CommandOptionsOf cmd /\ 0 <= OptionsOf cmd <= 7 /\ 0 < TimeoutOf cmd.
Proof.
  intros Ho Harm [_ _ _ Hmask _ _ _ _]. specialize (Hmask Harm).
  assert (H7 : 0 <= CommandOptionsOf cmd <= 7) by by apply mask7_small.
  assert (Ht : 0 < TimeoutOf cmd).
  { unfold TimeoutOf. destruct (Z.leb_spec (raw_timeout cmd) 0); [done|lia]. }
  assert (He : OptionsOf cmd = CommandOptionsOf cmd).
  { destruct cmd; cbn in *; try (by rewrite i16_small by lia); exfalso;
      apply (bool_decide_eq_true_2 (_ ∈ _)) in Harm; vm_compute in Harm; discriminate Harm. }
  rewrite He. auto.
Qed.

Lemma validated_options_preserved_witness :
  OptionsOf (demo_move 7 50) = 1 /\ 0 < TimeoutOf (demo_move 7 50).
Proof.
  destruct (validated_options_preserved (Some demo_ai) default_settings (float_of_Z 100) (float_of_Z 100)
    (demo_move 7 50)) as (H1 & _ & H2).
  - cbn. lia.
  - apply (bool_decide_eq_true_1 (_ ∈ _)). vm_compute. reflexivity.
  - apply (ValidateCommand_None _ _ _ _ _ 0). vm_compute. reflexivity.
  - split; [exact H1 | exact H2].
Defined.

(** The unit orders that carry options but are not listed in [OptionsOf]. *)
Definition options_ignored (cmd : AICommand) : bool :=
  match cmd with
  | kSquadWait _ | kDeathWait _ | kGatherWait _ | kRestoreArea _ | kResurrect _ | kCapture _
  | kCaptureArea _ | kSetBase _ | kLoadUnits _ | kLoadUnitsArea _ | kLoadOnto _ | kUnloadUnit _
  | kUnloadUnitsArea _ | kStockpile _ | kCustom _ | kSetOnOff _ | kSetRepeat _ | kSetTrajectory _
  | kSetAutoRepairLevel _ | kSetIdleMode _ => true
  | _ => false
  end.

(** Twenty unit orders lose their options: although their messages carry an
    options field, whatever a client puts there (a queued order, say) the engine
    is called with options 0 and no timeout, so a queued order replaces the
    current one. *)
Theorem options_lost (eng : Engine) (cmd : AICommand) (flag : bool) :
  options_ignored cmd = true ->
  forall c, c ∈ calls (DispatchCommand eng true true cmd flag) -> is_effect c = true ->
  exists id params, c = ExecuteCustomCommand id params 0 INT_MAX.
Proof.
  intros Hi c Hc He. unfold DispatchCommand, execute_raw, DispatchCustom, guarded in Hc.
  destruct cmd; try done; cbn -[CustomParamsError] in Hc; destruct (GetUnit eng); cbn -[CustomParamsError] in Hc;
    try (by apply elem_of_nil in Hc); try (apply list_elem_of_singleton in Hc as ->; eauto).
  destruct (CustomParamsError _ _); apply list_elem_of_singleton in Hc as ->; [done|eauto].
Qed.

(** An engine on which everything is present and succeeds. *)
Definition demo_engine : Engine :=
  {| eng_ai := demo_ai; GetGame := true; GetPathing := true; GetLua := true; GetDrawer := true;
     GetFigure := true; GetCheats := true; GetCallback := true; GetEconomy := true; GetUnit := true;
     GetFriendlyUnit := fun _ => true; GetDef := fun _ => true; GetResourceByName := fun _ => true;
     IsEnabled_ := Ok; SetEnabled_ := fun b _ => (Ok true, b);
     SetMyIncomeMultiplier_ := fun _ => Ok tt; GiveMeUnit_ := fun _ _ => Ok 1;
     GiveMeResource_ := fun _ _ => Ok tt |}.

Definition demo_give : AICommand :=
  kGiveMe {| GiveMe_resource_id := 0; GiveMe_amount := float_of_Z 100 |}.

Definition demo_capture : AICommand :=
  kCapture {| Capture_unit_id := 7; Capture_group_id := 0; Capture_options := 32;
              Capture_timeout := 0; Capture_target_unit_id := 9 |}.

Lemma dispatch_restores_cheats_witness :
  cheats_flag (DispatchCommand demo_engine true true demo_give false) = false.
Proof.
  apply dispatch_restores_cheats. split; cbn; intros; congruence.
Defined.


Lemma options_lost_witness :
  exists id params, ExecuteCustomCommand 130 [float_of_Z 9] 0 INT_MAX = ExecuteCustomCommand id params 0 INT_MAX.
Proof.
  refine (options_lost demo_engine demo_capture false eq_refl (ExecuteCustomCommand 130 [float_of_Z 9] 0 INT_MAX) _ eq_refl).
  vm_compute. apply list_elem_of_here.
Defined.
