(* ===== verification/Config.v ===== *)
(** The endpoint configuration (grpc/Config.h, .cpp): the checked reading of
    config/grpc.json, the expansion of variables in paths, and the choice of a
    socket path that fits the kernel's limit.

    A JSON document is the tree that the vendored jsoncpp parses; the accessors
    keep jsoncpp's conversions and the exceptions they throw.  The parser itself,
    the printing of a double and the process environment are parameters. *)

From S2P Require Import Prelude.

Inductive Transport := kUds | kTcp.

#[export] Instance Transport_eq_dec : EqDecision Transport.
Proof. solve_decision. Defined.

Record SnapshotTickSettings := {
  snapshot_cadence_frames : Z;
  snapshot_max_units : Z;
}.

Record CommandValidationConfig := {
  cv_mode : string;
  cv_strict : bool;
  cv_warning_only : bool;
  cv_allow_legacy_ai_pause : bool;
  cv_allow_legacy_ai_cheats : bool;
  cv_reject_unsupported_arms : bool;
  cv_reject_order_conflicts : bool;
  cv_max_state_age_frames : Z;
  cv_max_batch_commands : Z;
}.

Record TransportEndpoint := {
  transport : Transport;
  uds_path : string;
  tcp_bind : string;
  ai_token_path : string;
  max_recv_mb : Z;
  ring_size : Z;
  snapshot_tick : SnapshotTickSettings;
  command_validation : CommandValidationConfig;
}.

#[export] Instance SnapshotTickSettings_eta : Eta SnapshotTickSettings := fun s =>
  Build_SnapshotTickSettings (snapshot_cadence_frames s) (snapshot_max_units s).
#[export] Instance CommandValidationConfig_eta : Eta CommandValidationConfig := fun c =>
  Build_CommandValidationConfig (cv_mode c) (cv_strict c) (cv_warning_only c)
    (cv_allow_legacy_ai_pause c) (cv_allow_legacy_ai_cheats c) (cv_reject_unsupported_arms c)
    (cv_reject_order_conflicts c) (cv_max_state_age_frames c) (cv_max_batch_commands c).
#[export] Instance TransportEndpoint_eta : Eta TransportEndpoint := fun e =>
  Build_TransportEndpoint (transport e) (uds_path e) (tcp_bind e) (ai_token_path e)
    (max_recv_mb e) (ring_size e) (snapshot_tick e) (command_validation e).

Definition default_endpoint : TransportEndpoint := {|
  transport := kUds;
  uds_path := "$XDG_RUNTIME_DIR/highbar-${gameid}.sock";
  tcp_bind := "127.0.0.1:50511";
  ai_token_path := "$writeDir/highbar.token";
  max_recv_mb := 32;
  ring_size := 2048;
  snapshot_tick := {| snapshot_cadence_frames := 30; snapshot_max_units := 1000 |};
  command_validation := {|
    cv_mode := "compatibility"; cv_strict := false; cv_warning_only := false;
    cv_allow_legacy_ai_pause := true; cv_allow_legacy_ai_cheats := true;
    cv_reject_unsupported_arms := false; cv_reject_order_conflicts := false;
    cv_max_state_age_frames := 300; cv_max_batch_commands := 64 |} |}.

(** * JSON values *)

(** A double as its exact value: [m] times two to the [e]. *)
Inductive Double := Finite (m e : Z) | Infinite (neg : bool) | NaN.

(** [InRange(d, 0, max)] and the truncation that follows it. *)
Definition in_uint_range (d : Double) : bool :=
  match d with
  | Finite m e => (0 <=? m) && (if 0 <=? e then m * 2 ^ e <=? 2 ^ 32 - 1
                                else m <=? (2 ^ 32 - 1) * 2 ^ (- e))
  | _ => false
  end.

Definition trunc_double (d : Double) : Z :=
  match d with
  | Finite m e => if 0 <=? e then m * 2 ^ e else m `quot` 2 ^ (- e)
  | _ => 0
  end.

Inductive Json :=
  | JNull
  | JBool (b : bool)
  | JInt (z : Z)
  | JReal (d : Double)
  | JString (s : string)
  | JArray (l : list Json)
  | JObject (fields : list (string * Json)).

Definition json_error (w : string) : exn := Exn std_exception w.

Fixpoint assoc {A} (key : string) (l : list (string * A)) : option A :=
  match l with
  | [] => None
  | (k, v) :: l' => if decide (k = key) then Some v else assoc key l'
  end.

(** [Value::find]: the member, or none; throws on a value that is no object. *)
Definition find (v : Json) (key : string) : res (option Json) :=
  match v with
  | JNull => Ok None
  | JObject fields => Ok (assoc key fields)
  | _ => Throw (json_error "in Json::Value::find(begin, end): requires objectValue or nullValue")
  end.

Section Reader.
Context (real_to_string : Double -> string).

Definition asString (v : Json) : res string :=
  match v with
  | JNull => Ok ""%string
  | JString s => Ok s
  | JBool b => Ok (if b then "true" else "false")%string
  | JInt z => Ok (pretty z)
  | JReal d => Ok (real_to_string d)
  | _ => Throw (json_error "Type is not convertible to string")
  end.

Definition real_as_uint (d : Double) : res Z :=
  if in_uint_range d then Ok (trunc_double d)
  else Throw (json_error "double out of UInt range").

Definition asUInt (v : Json) : res Z :=
  match v with
  | JInt z => if (0 <=? z) && (z <=? 2 ^ 32 - 1) then Ok z
              else Throw (json_error "LargestInt out of UInt range")
  | JReal d => real_as_uint d
  | JNull => Ok 0
  | JBool b => Ok (if b then 1 else 0)
  | _ => Throw (json_error "Value is not convertible to UInt.")
  end.

Definition asBool (v : Json) : res bool :=
  match v with
  | JBool b => Ok b
  | JNull => Ok false
  | JInt z => Ok (negb (z =? 0))
  | JReal d => Ok (match d with Finite m _ => negb (m =? 0) | NaN => false | Infinite _ => true end)
  | _ => Throw (json_error "Value is not convertible to bool.")
  end.

(** [if (root.isMember(key)) { body(root[key]) }]. *)
Definition when_member {A} (v : Json) (key : string) (body : Json -> A -> res A) (a : A) : res A :=
  m ← find v key; match m with Some x => body x a | None => Ok a end.

(** * Reading grpc.json *)

Definition read_transport (v : Json) (cfg : TransportEndpoint) : res TransportEndpoint :=
  t ← asString v;
  if decide (t = "uds"%string) then Ok (cfg <| transport := kUds |>)
  else if decide (t = "tcp"%string) then Ok (cfg <| transport := kTcp |>)
  else Throw (runtime_error ("grpc.json: transport must be " +:+ dq +:+ "uds" +:+ dq +:+ " or " +:+ dq +:+ "tcp" +:+ dq
         +:+ ", got " +:+ dq +:+ t +:+ dq)).

Definition read_max_recv_mb (v : Json) (cfg : TransportEndpoint) : res TransportEndpoint :=
  n ← asUInt v;
  if n =? 0 then Throw (runtime_error "grpc.json: max_recv_mb must be > 0")
  else Ok (cfg <| max_recv_mb := n |>).

Definition read_ring_size (v : Json) (cfg : TransportEndpoint) : res TransportEndpoint :=
  n ← asUInt v;
  if n <? 256 then Throw (runtime_error ("grpc.json: ring_size must be >= 256 (got " +:+ pretty n +:+ ")"))
  else Ok (cfg <| ring_size := n |>).

Definition read_cadence (v : Json) (st : SnapshotTickSettings) : res SnapshotTickSettings :=
  n ← asUInt v;
  if (n <? 1) || (1024 <? n)
  then Throw (runtime_error
    ("grpc.json: snapshot_tick.snapshot_cadence_frames must be in [1, 1024] (got " +:+ pretty n +:+ ")"))
  else Ok (st <| snapshot_cadence_frames := n |>).

Definition read_max_units (v : Json) (st : SnapshotTickSettings) : res SnapshotTickSettings :=
  n ← asUInt v;
  if (n <? 1) || (100000 <? n)
  then Throw (runtime_error
    ("grpc.json: snapshot_tick.snapshot_max_units must be in [1, 100000] (got " +:+ pretty n +:+ ")"))
  else Ok (st <| snapshot_max_units := n |>).

Definition read_snapshot_tick (v : Json) (cfg : TransportEndpoint) : res TransportEndpoint :=
  st ← when_member v "snapshot_cadence_frames" read_cadence (snapshot_tick cfg);
  st ← when_member v "snapshot_max_units" read_max_units st;
  Ok (cfg <| snapshot_tick := st |>).

Definition read_mode (v : Json) (cv : CommandValidationConfig) : res CommandValidationConfig :=
  mode ← asString v;
  if bool_decide (mode = "compatibility"%string) || bool_decide (mode = "warning-only"%string)
     || bool_decide (mode = "strict"%string)
  then Ok (cv <| cv_mode := mode |> <| cv_warning_only := bool_decide (mode = "warning-only"%string) |>
              <| cv_strict := bool_decide (mode = "strict"%string) |>)
  else Throw (runtime_error
    "grpc.json: command_validation.mode must be compatibility, warning-only, or strict").

Definition read_max_batch (v : Json) (cv : CommandValidationConfig) : res CommandValidationConfig :=
  n ← asUInt v;
  if n =? 0 then Throw (runtime_error "grpc.json: command_validation.max_batch_commands must be > 0")
  else Ok (cv <| cv_max_batch_commands := n |>).

Definition read_command_validation (v : Json) (cfg : TransportEndpoint) : res TransportEndpoint :=
  cv ← when_member v "mode" read_mode (command_validation cfg);
  cv ← when_member v "strict" (fun x cv => b ← asBool x; Ok (cv <| cv_strict := b |>)) cv;
  cv ← when_member v "warning_only" (fun x cv => b ← asBool x; Ok (cv <| cv_warning_only := b |>)) cv;
  cv ← when_member v "allow_legacy_ai_pause"
         (fun x cv => b ← asBool x; Ok (cv <| cv_allow_legacy_ai_pause := b |>)) cv;
  cv ← when_member v "allow_legacy_ai_cheats"
         (fun x cv => b ← asBool x; Ok (cv <| cv_allow_legacy_ai_cheats := b |>)) cv;
  cv ← when_member v "reject_unsupported_arms"
         (fun x cv => b ← asBool x; Ok (cv <| cv_reject_unsupported_arms := b |>)) cv;
  cv ← when_member v "reject_order_conflicts"
         (fun x cv => b ← asBool x; Ok (cv <| cv_reject_order_conflicts := b |>)) cv;
  cv ← when_member v "max_state_age_frames"
         (fun x cv => n ← asUInt x; Ok (cv <| cv_max_state_age_frames := n |>)) cv;
  cv ← when_member v "max_batch_commands" read_max_batch cv;
  Ok (cfg <| command_validation := cv |>).

Definition read_root (root : Json) (cfg : TransportEndpoint) : res TransportEndpoint :=
  cfg ← when_member root "transport" read_transport cfg;
  cfg ← when_member root "uds_path" (fun x cfg => s ← asString x; Ok (cfg <| uds_path := s |>)) cfg;
  cfg ← when_member root "tcp_bind" (fun x cfg => s ← asString x; Ok (cfg <| tcp_bind := s |>)) cfg;
  cfg ← when_member root "ai_token_path" (fun x cfg => s ← asString x; Ok (cfg <| ai_token_path := s |>)) cfg;
  cfg ← when_member root "max_recv_mb" read_max_recv_mb cfg;
  cfg ← when_member root "ring_size" read_ring_size cfg;
  cfg ← when_member root "snapshot_tick" read_snapshot_tick cfg;
  when_member root "command_validation" read_command_validation cfg.

(** [file] is the file's content as [utils::ReadFile] returns it (empty when
    absent), [None] without an AI; [parse] is [Json::parseFromStream]. *)
Definition LoadTransportConfig (parse : string -> Json + string) (file : option string) : res TransportEndpoint :=
  match file with
  | None => Ok default_endpoint
  | Some contents =>
      if decide (contents = ""%string) then Ok default_endpoint
      else match parse contents with
           | inr errs => Throw (runtime_error ("grpc.json parse failed: " +:+ errs))
           | inl root => read_root root default_endpoint
           end
  end.

(** ** What a loaded configuration satisfies *)

Record endpoint_ok (cfg : TransportEndpoint) : Prop := {
  ep_recv : 1 <= max_recv_mb cfg < 2 ^ 32;
  ep_ring : 256 <= ring_size cfg < 2 ^ 32;
  ep_cadence : 1 <= snapshot_cadence_frames (snapshot_tick cfg) <= 1024;
  ep_units : 1 <= snapshot_max_units (snapshot_tick cfg) <= 100000;
  ep_mode : cv_mode (command_validation cfg) = "compatibility"%string \/
            cv_mode (command_validation cfg) = "warning-only"%string \/
            cv_mode (command_validation cfg) = "strict"%string;
  ep_batch : 1 <= cv_max_batch_commands (command_validation cfg) < 2 ^ 32;
}.

Lemma when_member_inv {A} (P : A -> Prop) (v : Json) (key : string) (body : Json -> A -> res A) (a b : A) :
  (forall x a b, body x a = Ok b -> P a -> P b) -> when_member v key body a = Ok b -> P a -> P b.
Proof.
  intros Hb. unfold when_member. rewrite res_bind_Ok. intros (m & _ & Hm) Ha.
  destruct m as [x|]; [by eapply Hb|]. by simplify_eq.
Qed.

Lemma asUInt_range (v : Json) (z : Z) : asUInt v = Ok z -> 0 <= z < 2 ^ 32.
Proof.
  destruct v as [|b|n|d| | |]; cbn; intros Hv; try done; try (by simplify_eq; destruct b); [by simplify_eq|..].
  - case_match eqn:E; simplify_eq. bools. lia.
  - unfold real_as_uint in Hv. case_match eqn:E; simplify_eq. destruct d as [m e| |]; try done. cbn in *.
    bools. destruct (Z.leb_spec 0 e); bools; [nia|]. split; [apply Z.quot_pos; [lia|]; lia|].
    assert (0 < 2 ^ (- e)) by lia. apply Z.le_lt_trans with ((2 ^ 32 - 1) * 2 ^ (- e) ÷ 2 ^ (- e)).
    + apply Z.quot_le_mono; lia.
    + rewrite Z.quot_mul by lia. lia.
Qed.

Lemma read_snapshot_tick_ok (v : Json) (cfg cfg' : TransportEndpoint) :
  read_snapshot_tick v cfg = Ok cfg' -> endpoint_ok cfg -> endpoint_ok cfg'.
Proof.
  unfold read_snapshot_tick. rewrite res_bind_Ok. intros (st1 & H1 & H). rewrite res_bind_Ok in H.
  destruct H as (st2 & H2 & [= <-]). intros [? ? Hc Hu ? ?].
  assert (Hst : 1 <= snapshot_cadence_frames st2 <= 1024 /\ 1 <= snapshot_max_units st2 <= 100000).
  { eapply (when_member_inv (fun st => 1 <= snapshot_cadence_frames st <= 1024 /\
        1 <= snapshot_max_units st <= 100000)); [|exact H2|].
    - intros x a b. unfold read_max_units. rewrite res_bind_Ok. intros (n & _ & Hn) Ha.
      case_match eqn:E; simplify_eq/=. bools. lia.
    - eapply (when_member_inv (fun st => 1 <= snapshot_cadence_frames st <= 1024 /\
        1 <= snapshot_max_units st <= 100000)); [|exact H1|done].
      intros x a b. unfold read_cadence. rewrite res_bind_Ok. intros (n & _ & Hn) Ha.
      case_match eqn:E; simplify_eq/=. bools. lia. }
  split; cbn; tauto.
Qed.

(** The command-validation block's own invariant. *)
Definition cv_ok (cv : CommandValidationConfig) : Prop :=
  (cv_mode cv = "compatibility"%string \/ cv_mode cv = "warning-only"%string \/ cv_mode cv = "strict"%string) /\
  1 <= cv_max_batch_commands cv < 2 ^ 32.

Lemma read_command_validation_ok (v : Json) (cfg cfg' : TransportEndpoint) :
  read_command_validation v cfg = Ok cfg' -> endpoint_ok cfg -> endpoint_ok cfg'.
Proof.
  unfold read_command_validation. intros H [? ? ? ? Hm Hb].
  assert (Hcv : cv_ok (command_validation cfg)) by done. clear Hm Hb.
  repeat (rewrite res_bind_Ok in H; let cv := fresh "cv" in let Hw := fresh "Hw" in destruct H as (cv & Hw & H);
    apply (when_member_inv cv_ok) in Hw; [| |exact Hcv]; [clear Hcv; rename Hw into Hcv|]).
  all: try (intros x a b; rewrite res_bind_Ok; intros (y & _ & [= <-]); done).
  - simplify_eq. destruct Hcv. by split.
  - intros x a b. unfold read_max_batch. rewrite res_bind_Ok. intros (n & Hn & Hk) [? ?].
    case_match eqn:E; simplify_eq. apply asUInt_range in Hn. bools. split; cbn; [done|lia].
  - intros x a b. unfold read_mode. rewrite res_bind_Ok. intros (s & _ & Hk) [? ?].
    case_match eqn:E; simplify_eq. split; cbn; [|done].
    repeat case_bool_decide; cbn in E; auto; done.
Qed.

(** C16. A configuration that loads is usable: whatever the file contains, either
    loading throws or every numeric setting is within its documented range (at
    least 1 MB, a ring of at least 256, a snapshot cadence in [1, 1024], a unit
    cap in [1, 100000], batches of at least one command) and the validation mode
    is one of the three known ones. *)
Theorem LoadTransportConfig_ok (parse : string -> Json + string) (file : option string) (cfg : TransportEndpoint) :
  LoadTransportConfig parse file = Ok cfg -> endpoint_ok cfg.
Proof.
  assert (Hd : endpoint_ok default_endpoint) by (split; cbn; auto; lia).
  unfold LoadTransportConfig. destruct file as [c|]; [|by intros [= <-]].
  case_decide as Hempty; [by intros [= <-]|]. destruct (parse c) as [root|]; [|done]. unfold read_root.
  generalize default_endpoint as cfg0, Hd. intros cfg0 Hok H.
  repeat (rewrite res_bind_Ok in H; let c1 := fresh "cfg" in let Hw := fresh "Hw" in destruct H as (c1 & Hw & H);
    apply (when_member_inv endpoint_ok) in Hw; [| |exact Hok]; [clear Hok; rename Hw into Hok|]).
  all: try (intros x a b; rewrite res_bind_Ok; intros (y & _ & [= <-]) [? ? ? ? ? ?]; by split).
  - eapply (when_member_inv endpoint_ok); [|exact H|done]. apply read_command_validation_ok.
  - apply read_snapshot_tick_ok.
  - intros x a b. unfold read_ring_size. rewrite res_bind_Ok. intros (n & Hn & Hk) [? ? ? ? ? ?].
    case_match eqn:E; simplify_eq. apply asUInt_range in Hn. bools. split; cbn; done || lia.
  - intros x a b. unfold read_max_recv_mb. rewrite res_bind_Ok. intros (n & Hn & Hk) [? ? ? ? ? ?].
    case_match eqn:E; simplify_eq. apply asUInt_range in Hn. bools. split; cbn; done || lia.
  - intros x a b. unfold read_transport. rewrite res_bind_Ok. intros (n & _ & Hk) [? ? ? ? ? ?].
    repeat case_decide; simplify_eq; by split.
Qed.

End Reader.

Definition demo_json : Json :=
  JObject [("ring_size"%string, JInt 512);
           ("snapshot_tick"%string, JObject [("snapshot_cadence_frames"%string, JReal (Finite 121 (-1)))])].

Definition demo_parse (s : string) : Json + string := inl demo_json.

Definition demo_endpoint : TransportEndpoint :=
  match LoadTransportConfig (fun _ => "0"%string) demo_parse (Some "x"%string) with
  | Ok cfg => cfg
  | Throw _ => default_endpoint
  end.

Lemma LoadTransportConfig_ok_witness : endpoint_ok demo_endpoint /\ ring_size demo_endpoint = 512.
Proof.
  split; [|vm_compute; reflexivity].
  apply (LoadTransportConfig_ok (fun _ => "0"%string) demo_parse (Some "x"%string)). vm_compute. reflexivity.
Defined.

(** * Paths *)

Definition kSunPathMax : Z := 108.

(** [std::isalnum] in the C locale, or an underscore. *)
Definition is_name_char (c : ascii) : bool :=
  let n := nat_of_ascii c in
  ((48 <=? n) && (n <=? 57) || (65 <=? n) && (n <=? 90) || (97 <=? n) && (n <=? 122) || (n =? 95))%nat.

(** The longest prefix of name characters, and the rest. *)
Fixpoint span_name (l : list ascii) : list ascii * list ascii :=
  match l with
  | c :: l' => if is_name_char c then let '(n, r) := span_name l' in (c :: n, r) else ([], l)
  | [] => ([], [])
  end.

(** [in.find('}', name_start)]: what precedes the first closing brace and what
    follows it. *)
Fixpoint split_brace (l : list ascii) : option (list ascii * list ascii) :=
  match l with
  | [] => None
  | c :: l' => if decide (c = "}"%char) then Some ([], l')
               else match split_brace l' with Some (n, r) => Some (c :: n, r) | None => None end
  end.

Section Expand.
Context (getenv : string -> option string) (gameid : string).

Definition var_value (name : list ascii) : list ascii :=
  let name := String.string_of_list_ascii name in
  String.list_ascii_of_string
    (if decide (name = "gameid"%string) then gameid else default EmptyString (getenv name)).

(** One iteration of the loop per unit of fuel. *)
Fixpoint expand (fuel : nat) (l : list ascii) : list ascii :=
  match fuel with
  | O => []
  | S fuel =>
      match l with
      | [] => []
      | c :: l' =>
          if decide (c = "$"%char) then
            match l' with
            | b :: l'' =>
                if decide (b = "{"%char) then
                  match split_brace l'' with
                  | None => l                          (* unclosed: keep literal *)
                  | Some (name, rest) => var_value name ++ expand fuel rest
                  end
                else let '(name, rest) := span_name l' in var_value name ++ expand fuel rest
            | [] => let '(name, rest) := span_name l' in var_value name ++ expand fuel rest
            end
          else c :: expand fuel l'
      end
  end.

Definition ExpandVars (s : string) : string :=
  let l := String.list_ascii_of_string s in
  String.string_of_list_ascii (expand (S (length l)) l).

(** ** The loop ends *)

Lemma span_name_length (l : list ascii) : (length (span_name l).2 <= length l)%nat.
Proof.
  induction l as [|c l IH]; cbn; [lia|]. destruct (is_name_char c); cbn; [|lia].
  destruct (span_name l); cbn in *. lia.
Qed.

Lemma split_brace_length (l n r : list ascii) : split_brace l = Some (n, r) -> (length r < length l)%nat.
Proof.
  revert n r. induction l as [|c l IH]; intros n r; cbn; [done|]. case_decide.
  - intros [= <- <-]. lia.
  - destruct (split_brace l) as [[n' r']|]; [|done]. intros [= <- <-]. specialize (IH _ _ eq_refl). lia.
Qed.

(** One more unit of fuel than characters is enough, and more changes nothing. *)
Lemma expand_fuel (f g : nat) (l : list ascii) :
  (length l < f)%nat -> (length l < g)%nat -> expand f l = expand g l.
Proof.
  revert g l. induction f as [|f IH]; intros g l Hf Hg; [lia|]. destruct g as [|g]; [lia|].
  destruct l as [|c l]; [done|]. cbn [expand]. cbn in Hf, Hg. case_decide; [|f_equal; apply IH; lia].
  destruct l as [|b l].
  - cbn. by rewrite (IH g) by (cbn; lia).
  - case_decide.
    + destruct (split_brace l) as [[n r]|] eqn:E; [|done]. apply split_brace_length in E. cbn in *.
      f_equal. apply IH; lia.
    + pose proof (span_name_length (b :: l)). destruct (span_name (b :: l)); cbn in *. f_equal. apply IH; lia.
Qed.

(** ** Meaning of a template *)

(** A template is a sequence of characters and variables. *)
Inductive token := Lit (c : ascii) | Var (name : list ascii) | Braced (name : list ascii).

Definition token_text (t : token) : list ascii :=
  match t with
  | Lit c => [c]
  | Var name => "$"%char :: name
  | Braced name => "$"%char :: "{"%char :: name ++ ["}"%char]
  end.

Definition template_text (ts : list token) : list ascii := concat (token_text <$> ts).

Definition token_value (t : token) : list ascii :=
  match t with Lit c => [c] | Var name | Braced name => var_value name end.

Definition head_is (P : ascii -> bool) (l : list ascii) : bool :=
  match l with [] => false | c :: _ => P c end.

(** A token sequence that is read back as itself: no literal dollar, names of
    name characters, and a plain variable is not followed by a name character or
    (when its name is empty) by a brace. *)
Fixpoint template_ok (ts : list token) : Prop :=
  match ts with
  | [] => True
  | Lit c :: ts' => c <> "$"%char /\ template_ok ts'
  | Braced name :: ts' => ("}"%char ∉ name) /\ template_ok ts'
  | Var name :: ts' =>
      name <> [] /\ Forall (fun c => is_name_char c = true) name /\
      head_is is_name_char (template_text ts') = false /\ template_ok ts'
  end.

Lemma split_brace_app (name rest : list ascii) :
  "}"%char ∉ name -> split_brace (name ++ "}"%char :: rest) = Some (name, rest).
Proof.
  induction name as [|c name IH]; intros Hn; cbn; [done|].
  rewrite not_elem_of_cons in Hn. destruct Hn as [Hc Hn]. rewrite decide_False by done. by rewrite IH.
Qed.

Lemma span_name_app (name rest : list ascii) :
  Forall (fun c => is_name_char c = true) name -> head_is is_name_char rest = false ->
  span_name (name ++ rest) = (name, rest).
Proof.
  induction 1 as [|c name Hc _ IH]; intros Hr; cbn.
  - destruct rest as [|c rest]; [done|]. cbn in *. by rewrite Hr.
  - by rewrite Hc, IH.
Qed.

Lemma expand_template (ts : list token) (f : nat) :
  template_ok ts -> (length (template_text ts) < f)%nat ->
  expand f (template_text ts) = concat (token_value <$> ts).
Proof.
  revert f. induction ts as [|t ts IH]; intros f Hok Hf.
  { destruct f; [lia|done]. }
  destruct f as [|f]; [lia|]. unfold template_text in *. cbn [fmap list_fmap concat] in *.
  rewrite length_app in Hf. destruct t as [c|name|name]; cbn [token_text token_value app length] in *.
  - destruct Hok as [Hc Hok]. cbn [expand]. rewrite decide_False by done. f_equal. apply IH; [done|lia].
  - destruct Hok as (Hne & Hn & Hr & Hok). cbn [expand]. rewrite decide_True by done.
    destruct name as [|c name]; [done|]. cbn [app].
    assert (Hb : c <> "{"%char) by (intros ->; by apply Forall_cons in Hn as [? _]).
    rewrite decide_False by done. change (c :: name ++ ?r) with ((c :: name) ++ r).
    rewrite span_name_app by done. f_equal. apply IH; [done|]. cbn in Hf. lia.
  - destruct Hok as [Hn Hok]. cbn [expand app]. rewrite decide_True, decide_True by done.
    rewrite <- app_assoc. cbn [app]. rewrite split_brace_app by done. f_equal. apply IH; [done|]. cbn in Hf. lia.
Qed.

(** Variable expansion means what it says: for any template made of literal
    characters, [$NAME] and [${NAME}], the expansion is the concatenation of the
    literals and of the variables' values (the game id for [gameid], otherwise
    the environment, with an unset variable empty). *)
Theorem ExpandVars_template (ts : list token) :
  template_ok ts ->
  String.list_ascii_of_string (ExpandVars (String.string_of_list_ascii (template_text ts)))
  = concat (token_value <$> ts).
Proof.
  intros Hok. unfold ExpandVars. rewrite !String.list_ascii_of_string_of_list_ascii.
  apply expand_template; [done|lia].
Qed.

(** ** The socket path *)

Definition fnv_step (h : Z) (c : ascii) : Z :=
  u64 (Z.lxor h (Z.of_nat (nat_of_ascii c)) * 1099511628211).

Definition fnv (s : string) : Z := fold_left fnv_step (String.list_ascii_of_string s) 1469598103934665603.

Definition hex_digit (d : Z) : ascii :=
  ascii_of_nat (Z.to_nat (if d <? 10 then 48 + d else 87 + d)).

(** The [n] low hexadecimal digits of [h], most significant first. *)
Fixpoint hex_digits (n : nat) (h : Z) : list ascii :=
  match n with
  | O => []
  | S n' => hex_digits n' (h / 16) ++ [hex_digit (h `mod` 16)]
  end.

Definition ShortHash (s : string) : string :=
  String.string_of_list_ascii (take 12 (hex_digits 16 (fnv s))).

(** The path used, and the endpoint with it; [log] is whether the fallback was
    reported. *)
Definition ResolveUdsPath (endpoint : TransportEndpoint) : string * TransportEndpoint :=
  let resolved := ExpandVars (uds_path endpoint) in
  let path :=
    if Z.of_nat (String.length resolved) + 1 <=? kSunPathMax then resolved
    else ("/tmp/hb-" +:+ ShortHash resolved +:+ ".sock")%string in
  (path, endpoint <| uds_path := path |>).

Lemma hex_digits_length (n : nat) (h : Z) : length (hex_digits n h) = n.
Proof. revert h; induction n as [|n IH]; intros h; cbn; [done|]. rewrite length_app, IH. cbn. lia. Qed.

Lemma string_length_of_list (l : list ascii) : String.length (String.string_of_list_ascii l) = length l.
Proof. induction l; cbn; auto. Qed.

Lemma string_length_app (s t : string) : String.length (s +:+ t) = (String.length s + String.length t)%nat.
Proof.
  induction s as [|c s IH]; [done|].
  change (String c s +:+ t) with (String c (s +:+ t)). cbn. by rewrite IH.
Qed.

Lemma ShortHash_length (s : string) : String.length (ShortHash s) = 12%nat.
Proof. unfold ShortHash. by rewrite string_length_of_list, length_take, hex_digits_length. Qed.

(** The resolved socket path always fits the kernel's [sun_path] with its
    terminating NUL, whatever the template and the environment; it is the
    expanded template whenever that fits. *)
Theorem ResolveUdsPath_fits (endpoint : TransportEndpoint) :
  let '(path, endpoint') := ResolveUdsPath endpoint in
  Z.of_nat (String.length path) + 1 <= kSunPathMax /\ uds_path endpoint' = path /\
  (Z.of_nat (String.length (ExpandVars (uds_path endpoint))) + 1 <= kSunPathMax ->
   path = ExpandVars (uds_path endpoint)).
Proof.
  unfold ResolveUdsPath. destruct (Z.leb_spec (Z.of_nat (String.length (ExpandVars (uds_path endpoint))) + 1) kSunPathMax).
  - split_and!; done || lia.
  - split_and!; [|done|lia]. rewrite !string_length_app, ShortHash_length. unfold kSunPathMax. cbn. lia.
Qed.

End Expand.

Definition demo_env (n : string) : option string :=
  if decide (n = "XDG_RUNTIME_DIR"%string) then Some "/run/user/1000"%string else None.

Definition demo_template : list token :=
  Var (String.list_ascii_of_string "XDG_RUNTIME_DIR") :: (Lit <$> String.list_ascii_of_string "/highbar-")
  ++ [Braced (String.list_ascii_of_string "gameid")] ++ (Lit <$> String.list_ascii_of_string ".sock").

Lemma ExpandVars_template_witness :
  String.list_ascii_of_string (ExpandVars demo_env "7" (uds_path default_endpoint))
  = String.list_ascii_of_string "/run/user/1000/highbar-7.sock".
Proof.
  refine (eq_trans (ExpandVars_template demo_env "7" demo_template _) _); [|vm_compute; reflexivity].
  cbn. repeat split; try discriminate; try reflexivity;
    try (intros H; repeat (apply elem_of_cons in H as [H|H]; [discriminate H|]); by apply elem_of_nil in H).
  repeat constructor.
Defined.

Example default_path : ExpandVars demo_env "7" (uds_path default_endpoint) = "/run/user/1000/highbar-7.sock"%string.
Proof. vm_compute. reflexivity. Qed.
