(* ===== verification/AuthToken.v ===== *)
(** The session token and its check (grpc/AuthToken.h, .cpp and
    grpc/AuthInterceptor.h, .cpp): generation of the token from the kernel's
    random source, its atomic publication as a file, the constant-time
    comparison, and the decision of the server interceptor.

    System calls are inputs: a script of the results that [getrandom] and
    [write] return, and whether [open], [fsync] and [rename] succeed.  The file
    system is a map from paths to contents, and generation also yields every
    file system it passes through. *)

From S2P Require Import Prelude.

Definition byte : Type := Z.

(** * Hexadecimal *)

Definition kHex (d : Z) : ascii := ascii_of_nat (Z.to_nat (if d <? 10 then 48 + d else 87 + d)).

Definition HexEncode (bytes : list byte) : list ascii :=
  concat ((fun b => [kHex (Z.shiftr b 4); kHex (Z.land b 15)]) <$> bytes).

(** * Comparison *)

Definition byte_of (c : ascii) : Z := Z.of_nat (nat_of_ascii c).

Fixpoint diff_loop (diff : Z) (a b : list ascii) : Z :=
  match a, b with
  | x :: a', y :: b' => diff_loop (Z.lor diff (Z.lxor (byte_of x) (byte_of y))) a' b'
  | _, _ => diff
  end.

Definition ConstantTimeEquals (a b : string) : bool :=
  if negb (String.length a =? String.length b)%nat then false
  else diff_loop 0 (String.list_ascii_of_string a) (String.list_ascii_of_string b) =? 0.

(** * Roles *)

Inductive AdminRole :=
  | ADMIN_ROLE_UNSPECIFIED | ADMIN_ROLE_AI | ADMIN_ROLE_OBSERVER
  | ADMIN_ROLE_OPERATOR | ADMIN_ROLE_ADMIN | ADMIN_ROLE_TEST_HARNESS.

#[export] Instance AdminRole_eq_dec : EqDecision AdminRole.
Proof. solve_decision. Defined.

Definition ParseAdminRole (role : string) : AdminRole :=
  if decide (role = "operator"%string) then ADMIN_ROLE_OPERATOR
  else if decide (role = "admin"%string) then ADMIN_ROLE_ADMIN
  else if decide (role = "test-harness"%string \/ role = "test_harness"%string) then ADMIN_ROLE_TEST_HARNESS
  else if decide (role = "ai"%string) then ADMIN_ROLE_AI
  else if decide (role = "observer"%string) then ADMIN_ROLE_OBSERVER
  else ADMIN_ROLE_UNSPECIFIED.

Definition IsPrivilegedAdminRole (role : AdminRole) : bool :=
  bool_decide (role = ADMIN_ROLE_OPERATOR) || bool_decide (role = ADMIN_ROLE_ADMIN)
  || bool_decide (role = ADMIN_ROLE_TEST_HARNESS).

(** * Generation *)

Record AuthToken := { value_ : list ascii; file_path_ : string }.

Definition kTokenBytes : nat := 32.

(** The result of one [getrandom] or [write] call. *)
Inductive io_result (A : Type) := Done (a : A) | Interrupted | Failed (errno : string).
Arguments Done {A} _.
Arguments Interrupted {A}.
Arguments Failed {A} _.

(** The outcome of a loop: a value, an exception, or the script ran out (the
    call is still waiting). *)
Inductive loop_result (A : Type) := LDone (a : A) | LThrow (e : exn) | LWaiting.
Arguments LDone {A} _.
Arguments LThrow {A} _.
Arguments LWaiting {A}.

(** [while (filled < kTokenBytes)]: a call returns at most what was asked. *)
Fixpoint fill_raw (raw : list byte) (script : list (io_result (list byte))) : loop_result (list byte) :=
  if (kTokenBytes <=? length raw)%nat then LDone raw
  else match script with
       | [] => LWaiting
       | Done bytes :: script' => fill_raw (raw ++ take (kTokenBytes - length raw) bytes) script'
       | Interrupted :: script' => fill_raw raw script'
       | Failed errno :: _ => LThrow (runtime_error ("getrandom failed: " +:+ errno))
       end.

(** The write loop: the file systems passed through (latest first), and whether
    the whole line was written. *)
Fixpoint write_line (tmp : string) (line : list ascii) (fs : gmap string (list ascii))
    (script : list (io_result nat)) : list (gmap string (list ascii)) * loop_result unit :=
  match line with
  | [] => ([fs], LDone tt)
  | _ =>
      match script with
      | [] => ([fs], LWaiting)
      | Interrupted :: script' => write_line tmp line fs script'
      | Failed errno :: _ => ([fs], LThrow (runtime_error ("write " +:+ tmp +:+ ": " +:+ errno)))
      | Done n :: script' =>
          let fs' := alter (fun c => c ++ take n line) tmp fs in
          let '(trace, r) := write_line tmp (drop n line) fs' script' in (trace ++ [fs], r)
      end
  end.

(** The results of the single calls. *)
Record Syscalls := {
  sys_getrandom : list (io_result (list byte));
  sys_open : option string;                 (** the error, if any *)
  sys_write : list (io_result nat);
  sys_fsync : option string;
  sys_rename : option string;
}.

(** The part after the token's value is known: open, write, fsync, rename. *)
Definition publish (sys : Syscalls) (path : string) (line : list ascii) (fs : gmap string (list ascii))
    : list (gmap string (list ascii)) * loop_result unit :=
  let tmp := path +:+ ".tmp" in
  match sys_open sys with
  | Some errno => ([fs], LThrow (runtime_error ("open " +:+ tmp +:+ ": " +:+ errno)))
  | None =>
      let '(trace, r) := write_line tmp line (<[tmp := []]> fs) (sys_write sys) in
      let last := default fs (head trace) in
      match r with
      | LThrow e => (delete tmp last :: trace ++ [fs], LThrow e)
      | LWaiting => (trace ++ [fs], LWaiting)
      | LDone _ =>
          match sys_fsync sys with
          | Some errno => (delete tmp last :: trace ++ [fs],
                           LThrow (runtime_error ("fsync " +:+ tmp +:+ ": " +:+ errno)))
          | None =>
              match sys_rename sys with
              | Some errno => (delete tmp last :: trace ++ [fs],
                               LThrow (runtime_error ("rename " +:+ tmp +:+ " → " +:+ path +:+ ": " +:+ errno)))
              | None => (<[path := default [] (last !! tmp)]> (delete tmp last) :: trace ++ [fs], LDone tt)
              end
          end
      end
  end.

Definition newline : ascii := ascii_of_nat 10.

(** The file systems passed through (latest first) and the token. *)
Definition Generate (sys : Syscalls) (path : string) (fs : gmap string (list ascii))
    : list (gmap string (list ascii)) * loop_result AuthToken :=
  match fill_raw [] (sys_getrandom sys) with
  | LThrow e => ([fs], LThrow e)
  | LWaiting => ([fs], LWaiting)
  | LDone raw =>
      let t := {| value_ := HexEncode raw; file_path_ := path |} in
      let '(trace, r) := publish sys path (value_ t ++ [newline]) fs in
      (trace, match r with LDone _ => LDone t | LThrow e => LThrow e | LWaiting => LWaiting end)
  end.

Definition Unlink (t : AuthToken) (fs : gmap string (list ascii)) : gmap string (list ascii) :=
  if decide (file_path_ t = EmptyString) then fs else delete (file_path_ t) fs.

(** * The interceptor *)

Definition kTokenHeader : string := "x-highbar-ai-token".

Definition kTokenProtected : list string :=
  ["/highbar.v1.HighBarProxy/SubmitCommands"; "/highbar.v1.HighBarProxy/ValidateCommandBatch";
   "/highbar.v1.HighBarProxy/GetCommandSchema"; "/highbar.v1.HighBarProxy/GetUnitCapabilities";
   "/highbar.v1.HighBarProxy/InvokeCallback"; "/highbar.v1.HighBarProxy/Save";
   "/highbar.v1.HighBarProxy/Load"; "/highbar.v1.HighBarProxy/GetRuntimeCounters";
   "/highbar.v1.HighBarProxy/RequestSnapshot"; "/highbar.v1.HighBarAdmin/GetAdminCapabilities";
   "/highbar.v1.HighBarAdmin/ValidateAdminAction"; "/highbar.v1.HighBarAdmin/ExecuteAdminAction"]%string.

Definition RequiresToken (full_method : string) : bool := existsb (String.eqb full_method) kTokenProtected.

(** What the interceptor does with the batch. *)
Inductive intercept_action :=
  | LogAuthReject (peer method : string)
  | ModifySendStatus (code message : string)
  | Proceed.

(** [md] is the received metadata as name/value pairs ([None] for a null
    pointer), [token] the expected value. *)
Definition Intercept (hook_is_recv_metadata : bool) (full_method : string)
    (md : option (list (string * string))) (token : option string) : list intercept_action :=
  let ok :=
    match md, token with
    | Some md, Some t =>
        existsb (fun kv => String.eqb kv.1 kTokenHeader && ConstantTimeEquals kv.2 t) md
    | _, _ => false
    end in
  (if hook_is_recv_metadata && RequiresToken full_method && negb ok
   then [LogAuthReject "unknown" full_method;
         ModifySendStatus "PERMISSION_DENIED" "AI-role RPC requires x-highbar-ai-token"]
   else []) ++ [Proceed].

(** ** The comparison is equality *)

Lemma byte_of_inj (x y : ascii) : byte_of x = byte_of y -> x = y.
Proof.
  unfold byte_of. intros H%Nat2Z.inj. rewrite <- (ascii_nat_embedding x), <- (ascii_nat_embedding y). by f_equal.
Qed.

Lemma byte_of_nonneg (x : ascii) : 0 <= byte_of x.
Proof. unfold byte_of. lia. Qed.

Lemma diff_loop_zero (a b : list ascii) (d : Z) : length a = length b -> 0 <= d ->
  diff_loop d a b = 0 <-> d = 0 /\ a = b.
Proof.
  revert b d. induction a as [|x a IH]; intros [|y b] d Hl Hd; try done; cbn.
  - tauto.
  - assert (0 <= Z.lxor (byte_of x) (byte_of y)).
    { apply Z.lxor_nonneg. pose proof (byte_of_nonneg x). pose proof (byte_of_nonneg y). tauto. }
    rewrite IH; [|by injection Hl|by apply Z.lor_nonneg]. rewrite Z.lor_eq_0_iff, Z.lxor_eq_0_iff.
    split.
    + intros [[-> Hxy%byte_of_inj] ->]. by subst.
    + intros [-> [= -> ->]]. done.
Qed.

Lemma list_ascii_inj (a b : string) : String.list_ascii_of_string a = String.list_ascii_of_string b -> a = b.
Proof. intros H. rewrite <- (String.string_of_list_ascii_of_string a), H. apply String.string_of_list_ascii_of_string. Qed.

Lemma length_list_ascii (a : string) : length (String.list_ascii_of_string a) = String.length a.
Proof. induction a; cbn; auto. Qed.

Lemma ConstantTimeEquals_spec (a b : string) : ConstantTimeEquals a b = true <-> a = b.
Proof.
  unfold ConstantTimeEquals. destruct (Nat.eqb_spec (String.length a) (String.length b)) as [Hl|Hl]; cbn.
  - rewrite Z.eqb_eq, diff_loop_zero; [|by rewrite !length_list_ascii|lia].
    split; [intros [_ H]; by apply list_ascii_inj|by intros ->].
  - split; [done|]. by intros ->.
Qed.


Lemma Intercept_denies_iff_example :
  Intercept true "/highbar.v1.HighBarProxy/Save" (Some [(kTokenHeader, "abc"%string)]) (Some "abd"%string)
  <> [Proceed].
Proof. by vm_compute. Qed.

(** ** Publication is atomic *)

Lemma write_line_spec (tmp : string) (line c0 : list ascii) (fs : gmap string (list ascii))
    (script : list (io_result nat)) (trace : list (gmap string (list ascii))) (r : loop_result unit) :
  write_line tmp line fs script = (trace, r) -> fs !! tmp = Some c0 ->
  (exists last rest, trace = last :: rest /\ (r = LDone tt -> last !! tmp = Some (c0 ++ line))) /\
  Forall (fun fs' => forall p, p <> tmp -> fs' !! p = fs !! p) trace.
Proof.
  revert line c0 fs trace r. induction script as [|x script IH]; intros [|c line] c0 fs trace r Hw H0; cbn in Hw.
  - simplify_eq. rewrite app_nil_r. split; [eexists _, _; split; [done|done]|]. by repeat constructor.
  - simplify_eq. split; [by eexists _, _|]. by repeat constructor.
  - simplify_eq. rewrite app_nil_r. split; [eexists _, _; split; [done|done]|]. by repeat constructor.
  - destruct x as [n| |e].
    + destruct (write_line _ _ _ script) as [tr r'] eqn:Ew. simplify_eq.
      apply (IH _ (c0 ++ take n (c :: line))) in Ew as [(last & rest & -> & Hl) Hall];
        [|by rewrite lookup_alter_eq, H0].
      split.
      * exists last, (rest ++ [fs]). split; [done|]. intros ->. rewrite Hl by done.
        by rewrite <- app_assoc, take_drop.
      * apply Forall_app. split; [|by repeat constructor]. eapply Forall_impl; [exact Hall|]. cbn.
        intros fs' Hp p Hne. by rewrite Hp, lookup_alter_ne.
    + eauto.
    + simplify_eq. split; [by eexists _, _|]. by repeat constructor.
Qed.

Lemma tmp_ne (path : string) : path <> path +:+ ".tmp".
Proof.
  intros H. apply (f_equal String.length) in H.
  assert (Hl : String.length (path +:+ ".tmp") = (String.length path + 4)%nat).
  { clear H. induction path as [|c p IH]; [done|].
    change (String c p +:+ ".tmp") with (String c (p +:+ ".tmp")). cbn. by rewrite IH. }
  rewrite Hl in H. lia.
Qed.

(** What an observer of [path] can see. *)
Definition sees (fs : gmap string (list ascii)) (path : string) (line : list ascii) (fs' : gmap string (list ascii)) : Prop :=
  fs' !! path = fs !! path \/ fs' !! path = Some line.

Lemma publish_spec (sys : Syscalls) (path : string) (line : list ascii) (fs : gmap string (list ascii))
    (trace : list (gmap string (list ascii))) (r : loop_result unit) :
  publish sys path line fs = (trace, r) ->
  Forall (sees fs path line) trace /\
  exists last rest, trace = last :: rest /\
    match r with
    | LDone _ => last !! path = Some line /\ last !! (path +:+ ".tmp") = None
    | LThrow _ => last !! path = fs !! path /\ (sys_open sys = None -> last !! (path +:+ ".tmp") = None)
    | LWaiting => True
    end.
Proof.
  pose proof (tmp_ne path) as Hne. unfold publish. set (tmp := path +:+ ".tmp") in *.
  destruct (sys_open sys) as [e|].
  { intros; simplify_eq. split; [repeat constructor; by left|]. eexists _, _. done. }
  destruct (write_line tmp line (<[tmp := []]> fs) (sys_write sys)) as [tr wr] eqn:Ew.
  apply (write_line_spec _ _ []) in Ew as [(last & rest & -> & Hl) Hall]; [|by rewrite lookup_insert_eq].
  assert (Hall' : Forall (fun fs' => fs' !! path = fs !! path) ((last :: rest) ++ [fs])).
  { apply Forall_app. split; [|by repeat constructor]. eapply Forall_impl; [exact Hall|]. cbn.
    intros fs' Hp. by rewrite Hp, lookup_insert_ne. }
  assert (Hsees : Forall (sees fs path line) ((last :: rest) ++ [fs]))
    by (eapply Forall_impl; [exact Hall'|]; intros; by left).
  assert (Hlast : last !! path = fs !! path) by (by apply Forall_cons in Hall' as [? _]).
  assert (Hdel : delete tmp last !! path = fs !! path) by (by rewrite lookup_delete_ne).
  cbn [head]. change (default fs (Some last)) with last. destruct wr as [[]|e|].
  2:{ intros; simplify_eq. split; [constructor; [by left|done]|]. eexists _, _. split; [done|].
      split; [done|]. intros _. by rewrite lookup_delete_eq. }
  2:{ intros; simplify_eq. split; [done|]. by eexists _, _. }
  destruct (sys_fsync sys), (sys_rename sys); intros; simplify_eq;
    try (split; [constructor; [by left|done]|]; eexists _, _; split; [done|]; split; [done|];
         intros _; by rewrite lookup_delete_eq).
  rewrite Hl by done. cbn. split.
  - constructor; [right; by rewrite lookup_insert_eq|done].
  - eexists _, _. split; [done|]. rewrite lookup_insert_eq, lookup_insert_ne by done.
    by rewrite lookup_delete_eq.
Qed.

Lemma fill_raw_length (raw bytes : list byte) (script : list (io_result (list byte))) :
  (length raw <= kTokenBytes)%nat -> fill_raw raw script = LDone bytes -> length bytes = kTokenBytes.
Proof.
  revert raw. induction script as [|x script IH]; intros raw Hl; cbn [fill_raw];
    destruct (Nat.leb_spec kTokenBytes (length raw)); try done; try (intros [= <-]; lia).
  destruct x as [l| |e]; [|by apply IH|done]. apply IH. rewrite length_app, length_take. lia.
Qed.

Lemma HexEncode_length (bytes : list byte) : length (HexEncode bytes) = (2 * length bytes)%nat.
Proof. unfold HexEncode. induction bytes as [|b l IH]; cbn in *; lia. Qed.

(** The token file is published atomically and fails closed: whatever the
    system calls return, in every state the file system passes through the token
    path holds either what it held before or the complete 64-digit token and its
    newline; success means it holds the token and no temporary file remains, and
    a failure after the temporary file was opened leaves the path as it was and
    removes the temporary file. *)
Theorem Generate_atomic (sys : Syscalls) (path : string) (fs : gmap string (list ascii)) :
  let '(trace, r) := Generate sys path fs in
  exists value, Forall (sees fs path (value ++ [newline])) trace /\
  exists last rest, trace = last :: rest /\
    match r with
    | LDone t => t = {| value_ := value; file_path_ := path |} /\ length value = 64%nat /\
                 last !! path = Some (value ++ [newline]) /\ last !! (path +:+ ".tmp") = None
    | LThrow _ => last !! path = fs !! path /\
                  (last <> fs -> last !! (path +:+ ".tmp") = None)
    | LWaiting => True
    end.
Proof.
  assert (Hid : forall v, Forall (sees fs path v) [fs]) by (intros; repeat constructor; by left).
  unfold Generate. destruct (fill_raw [] (sys_getrandom sys)) as [raw|e|] eqn:Ef.
  2:{ exists []. split; [done|]. by eexists _, _. }
  2:{ exists []. split; [done|]. by eexists _, _. }
  cbn [value_]. destruct (publish sys path (HexEncode raw ++ [newline]) fs) as [trace r] eqn:Ep.
  exists (HexEncode raw). pose proof (publish_spec _ _ _ _ _ _ Ep) as [Hs (last & rest & -> & Hr)].
  split; [done|]. exists last, rest. split; [done|]. destruct r as [[]|e|]; [|split; [tauto|]|done].
  - split; [done|]. split; [|done]. rewrite HexEncode_length, (fill_raw_length [] raw _ ltac:(cbn; lia) Ef). done.
  - intros Hne. destruct Hr as [_ Hr]. apply Hr. unfold publish in Ep.
    destruct (sys_open sys); [|done]. by simplify_eq.
Qed.
