(* ===== verification/AdminController.v ===== *)
(** Privileged controls (grpc/AdminController.h, .cpp and grpc/AdminService.h,
    .cpp): the ordered validation of an admin action, its execution with leases
    on the shared controls, lease expiry, the audit log, and the handlers of the
    two action RPCs. *)

From S2P Require Import Prelude Float32 Proto AuthToken.

(** * Messages *)

Inductive AdminActionStatus :=
  | ADMIN_ACTION_STATUS_UNSPECIFIED | ADMIN_ACTION_ACCEPTED | ADMIN_ACTION_EXECUTED
  | ADMIN_ACTION_REJECTED_PERMISSION_DENIED | ADMIN_ACTION_REJECTED_DISABLED
  | ADMIN_ACTION_REJECTED_RUN_MODE | ADMIN_ACTION_REJECTED_STALE
  | ADMIN_ACTION_REJECTED_CONFLICT | ADMIN_ACTION_REJECTED_INVALID_TARGET
  | ADMIN_ACTION_REJECTED_INVALID_VALUE | ADMIN_ACTION_NOT_DISPATCHED.

Inductive AdminIssueCode :=
  | ADMIN_ISSUE_CODE_UNSPECIFIED | ADMIN_PERMISSION_DENIED | ADMIN_ACTION_DISABLED
  | ADMIN_RUN_MODE_FORBIDS_CHEATS | ADMIN_STALE_SNAPSHOT_EPOCH | ADMIN_CONTROL_CONFLICT
  | ADMIN_INVALID_SPEED | ADMIN_INVALID_SPEED_RANGE | ADMIN_INVALID_RESOURCE
  | ADMIN_INVALID_AMOUNT | ADMIN_UNKNOWN_UNIT_DEF | ADMIN_POSITION_OUT_OF_MAP
  | ADMIN_INVALID_TEAM | ADMIN_ENGINE_NOT_READY | ADMIN_ISSUE_ACTION_NOT_DISPATCHED
  | ADMIN_UNKNOWN_UNIT | ADMIN_UNIT_OWNER_MISMATCH.

Inductive AdminConflictPolicy :=
  | ADMIN_CONFLICT_POLICY_UNSPECIFIED | ADMIN_CONFLICT_REJECT_IF_CONTROLLED
  | ADMIN_CONFLICT_HEARTBEAT_EXISTING_LEASE | ADMIN_CONFLICT_RELEASE_EXISTING_LEASE.

#[export] Instance AdminActionStatus_eq_dec : EqDecision AdminActionStatus.
Proof. solve_decision. Defined.
#[export] Instance AdminIssueCode_eq_dec : EqDecision AdminIssueCode.
Proof. solve_decision. Defined.
#[export] Instance AdminConflictPolicy_eq_dec : EqDecision AdminConflictPolicy.
Proof. solve_decision. Defined.

Record ResourceGrantAction := { grant_team_id : Z; grant_resource_id : Z; grant_amount : float }.
Record UnitSpawnAction := { spawn_team_id : Z; spawn_unit_def_id : Z; spawn_position : Vector3; spawn_facing : Z }.
Record UnitTransferAction := { transfer_unit_id : Z; transfer_from_team_id : Z; transfer_to_team_id : Z;
  transfer_preserve_orders : bool }.

Inductive action_oneof :=
  | ACTION_NOT_SET
  | kPause (paused : bool)
  | kGlobalSpeed (speed : float)
  | kCheatPolicy (enabled : bool)
  | kResourceGrant (g : ResourceGrantAction)
  | kUnitSpawn (s : UnitSpawnAction)
  | kLifecycle (command : string)
  | kUnitTransfer (t : UnitTransferAction).

Record AdminAction := {
  action_seq : Z;
  client_action_id : Z;
  act_based_on_frame : Z;
  act_based_on_state_seq : Z;
  act_conflict_policy : AdminConflictPolicy;
  reason : string;
  action : action_oneof;
}.

#[export] Instance AdminAction_eta : Eta AdminAction := fun a =>
  Build_AdminAction (action_seq a) (client_action_id a) (act_based_on_frame a) (act_based_on_state_seq a)
    (act_conflict_policy a) (reason a) (action a).

Record AdminLease := {
  control : string;
  owner_client_id : string;
  owner_role : AdminRole;
  acquired_frame : Z;
  last_heartbeat_frame : Z;
  expires_frame : Z;
}.

#[export] Instance AdminLease_eta : Eta AdminLease := fun l =>
  Build_AdminLease (control l) (owner_client_id l) (owner_role l) (acquired_frame l)
    (last_heartbeat_frame l) (expires_frame l).

Record AdminIssue := {
  adm_code : AdminIssueCode;
  adm_field_path : string;
  adm_detail : string;
  adm_retry_hint : RetryHint;
}.

Record AdminActionResult := {
  res_action_seq : Z;
  res_client_action_id : Z;
  res_status : AdminActionStatus;
  res_issues : list AdminIssue;
  res_lease : option AdminLease;
  res_frame : Z;
  res_state_seq : Z;
  res_dry_run : bool;
}.

#[export] Instance AdminActionResult_eta : Eta AdminActionResult := fun r =>
  Build_AdminActionResult (res_action_seq r) (res_client_action_id r) (res_status r) (res_issues r)
    (res_lease r) (res_frame r) (res_state_seq r) (res_dry_run r).

Record AdminAuditEvent := {
  event_id : Z;
  caller_identity : string;
  event_role : AdminRole;
  action_type : string;
  event_frame : Z;
  event_state_seq : Z;
  event_result : AdminActionStatus;
  event_reason : string;
  lease_control : string;
  run_mode : string;
}.

(** * The controller *)

Record AdminCaller := { identity : string; role : AdminRole }.

Record Settings := {
  enabled : bool;
  cheats_allowed : bool;
  unit_transfer_enabled : bool;
  headless_fixture : bool;
  lease_ttl_frames : Z;
  min_speed : float;
  max_speed : float;
  map_min_x : float;
  map_min_z : float;
  map_max_x : float;
  map_max_z : float;
  valid_team_ids : list Z;
  valid_resource_ids : list Z;
  valid_unit_def_ids : list Z;
  live_unit_owners : gmap Z Z;
}.

Record AdminController := {
  settings_ : Settings;
  leases_ : gmap string AdminLease;
  audit_log_ : list AdminAuditEvent;
  next_audit_id_ : Z;
}.

#[export] Instance AdminController_eta : Eta AdminController := fun c =>
  Build_AdminController (settings_ c) (leases_ c) (audit_log_ c) (next_audit_id_ c).

Definition AdminController_new (s : Settings) : AdminController :=
  {| settings_ := s; leases_ := ∅; audit_log_ := []; next_audit_id_ := 1 |}.

Definition RoleCanExecute (role : AdminRole) : bool :=
  bool_decide (role = ADMIN_ROLE_OPERATOR) || bool_decide (role = ADMIN_ROLE_ADMIN)
  || bool_decide (role = ADMIN_ROLE_TEST_HARNESS).

Definition ControlName (a : AdminAction) : string :=
  match action a with
  | kPause _ => "pause"
  | kGlobalSpeed _ => "global_speed"
  | kCheatPolicy _ => "cheat_policy"
  | kResourceGrant _ => "resource_grant"
  | kUnitSpawn _ => "unit_spawn"
  | kLifecycle _ => "lifecycle"
  | kUnitTransfer _ => "unit_transfer"
  | ACTION_NOT_SET => "unknown"
  end.

Section Checks.
Context (s : Settings).

Definition HasFixtureTeams : bool := negb (bool_decide (valid_team_ids s = [])).

Definition HasMapExtents : bool := flt (map_min_x s) (map_max_x s) && flt (map_min_z s) (map_max_z s).

Definition IsValidTeam (team_id : Z) : bool :=
  if negb HasFixtureTeams then 0 <=? team_id else existsb (Z.eqb team_id) (valid_team_ids s).

Definition IsValidResource (resource_id : Z) : bool :=
  if bool_decide (valid_resource_ids s = []) then (resource_id =? 0) || (resource_id =? 1)
  else existsb (Z.eqb resource_id) (valid_resource_ids s).

Definition IsValidUnitDef (unit_def_id : Z) : bool :=
  if bool_decide (valid_unit_def_ids s = []) then 0 <? unit_def_id
  else existsb (Z.eqb unit_def_id) (valid_unit_def_ids s).

Definition IsWithinMap (p : Vector3) : bool :=
  if negb HasMapExtents then true
  else fle (map_min_x s) (vx p) && fle (vx p) (map_max_x s)
       && fle (map_min_z s) (vz p) && fle (vz p) (map_max_z s).

(** A rejection: the status and the issue. *)
Definition Rejection : Type := (AdminActionStatus * AdminIssue)%type.

Definition rejection (st : AdminActionStatus) (code : AdminIssueCode) (path detail : string) : option Rejection :=
  Some (st, {| adm_code := code; adm_field_path := path; adm_detail := detail; adm_retry_hint := RETRY_NEVER |}).

(** [if (cond) return Reject(...)], followed by the rest of the checks. *)
Definition reject_if (cond : bool) (r k : option Rejection) : option Rejection := if cond then r else k.

Definition CheckSpeed (speed : float) (k : option Rejection) : option Rejection :=
  reject_if (negb (isfinite speed) || flt speed (min_speed s) || flt (max_speed s) speed)
    (rejection ADMIN_ACTION_REJECTED_INVALID_VALUE ADMIN_INVALID_SPEED_RANGE
       "global_speed.speed" "speed must be finite and within advertised bounds") k.

Definition CheckGrant (g : ResourceGrantAction) (k : option Rejection) : option Rejection :=
  reject_if (negb (IsValidTeam (grant_team_id g)))
    (rejection ADMIN_ACTION_REJECTED_INVALID_TARGET ADMIN_INVALID_TEAM
       "resource_grant.team_id" "unknown admin fixture team")
  (reject_if (negb (IsValidResource (grant_resource_id g)))
    (rejection ADMIN_ACTION_REJECTED_INVALID_TARGET ADMIN_INVALID_RESOURCE
       "resource_grant.resource_id" "unknown admin fixture resource")
  (reject_if (negb (isfinite (grant_amount g)) || fle (grant_amount g) f0)
    (rejection ADMIN_ACTION_REJECTED_INVALID_VALUE ADMIN_INVALID_AMOUNT
       "resource_grant.amount" "resource grant amount must be finite and positive") k)).

Definition CheckSpawn (sp : UnitSpawnAction) (k : option Rejection) : option Rejection :=
  let p := spawn_position sp in
  reject_if (negb (IsValidTeam (spawn_team_id sp)))
    (rejection ADMIN_ACTION_REJECTED_INVALID_TARGET ADMIN_INVALID_TEAM
       "unit_spawn.team_id" "unknown admin fixture team")
  (reject_if (negb (IsValidUnitDef (spawn_unit_def_id sp)))
    (rejection ADMIN_ACTION_REJECTED_INVALID_TARGET ADMIN_UNKNOWN_UNIT_DEF
       "unit_spawn.unit_def_id" "unknown admin fixture unit definition")
  (reject_if (negb (isfinite (vx p)) || negb (isfinite (vy p)) || negb (isfinite (vz p)) || negb (IsWithinMap p))
    (rejection ADMIN_ACTION_REJECTED_INVALID_VALUE ADMIN_POSITION_OUT_OF_MAP
       "unit_spawn.position" "spawn position is outside advertised map extents") k)).

Definition CheckTransfer (t : UnitTransferAction) (k : option Rejection) : option Rejection :=
  let owner := live_unit_owners s !! transfer_unit_id t in
  reject_if ((transfer_unit_id t <=? 0)
             || (negb (bool_decide (live_unit_owners s = ∅)) && negb (has owner)))
    (rejection ADMIN_ACTION_REJECTED_INVALID_TARGET ADMIN_UNKNOWN_UNIT
       "unit_transfer.unit_id" "unknown live unit")
  (reject_if (negb (IsValidTeam (transfer_to_team_id t)))
    (rejection ADMIN_ACTION_REJECTED_INVALID_TARGET ADMIN_INVALID_TEAM
       "unit_transfer.to_team_id" "unknown destination team")
  (reject_if (match owner with Some o => negb (transfer_from_team_id t =? o) | None => false end)
    (rejection ADMIN_ACTION_REJECTED_INVALID_TARGET ADMIN_UNIT_OWNER_MISMATCH
       "unit_transfer.from_team_id" "source team does not own unit")
  (reject_if (match owner with Some o => transfer_to_team_id t =? o | None => false end)
    (rejection ADMIN_ACTION_REJECTED_INVALID_VALUE ADMIN_UNIT_OWNER_MISMATCH
       "unit_transfer.to_team_id" "destination team already owns unit") k))).

(** The checks on the arm's own arguments. *)
Definition CheckAction (a : AdminAction) (k : option Rejection) : option Rejection :=
  match action a with
  | kCheatPolicy _ =>
      reject_if (negb (cheats_allowed s))
        (rejection ADMIN_ACTION_REJECTED_RUN_MODE ADMIN_RUN_MODE_FORBIDS_CHEATS
           "cheat_policy" "run mode forbids cheat controls") k
  | kUnitTransfer t =>
      reject_if (negb (unit_transfer_enabled s))
        (rejection ADMIN_ACTION_REJECTED_RUN_MODE ADMIN_ACTION_DISABLED
           "unit_transfer" "run mode forbids unit transfer") (CheckTransfer t k)
  | kGlobalSpeed speed => CheckSpeed speed k
  | kResourceGrant g => CheckGrant g k
  | kUnitSpawn sp => CheckSpawn sp k
  | _ => k
  end.

End Checks.

(** A lease held by someone else. *)
Definition foreign_lease (c : AdminController) (caller : AdminCaller) (control : string) : bool :=
  match leases_ c !! control with
  | Some l => negb (bool_decide (owner_client_id l = identity caller))
  | None => false
  end.

Definition check_all (caller : AdminCaller) (a : AdminAction) (frame : Z) (c : AdminController) : option Rejection :=
  let s := settings_ c in
  reject_if (negb (RoleCanExecute (role caller)))
    (rejection ADMIN_ACTION_REJECTED_PERMISSION_DENIED ADMIN_PERMISSION_DENIED
       "role" "admin action requires operator/admin/test-harness role")
  (reject_if (negb (enabled s))
    (rejection ADMIN_ACTION_REJECTED_DISABLED ADMIN_ACTION_DISABLED "action" "admin controls are disabled")
  (CheckAction s a
  (reject_if (negb (act_based_on_frame a =? 0) && (u32 (act_based_on_frame a + 300) <? frame))
    (rejection ADMIN_ACTION_REJECTED_STALE ADMIN_STALE_SNAPSHOT_EPOCH
       "based_on_frame" "admin action basis is stale")
  (reject_if (foreign_lease c caller (ControlName a)
              && negb (bool_decide (act_conflict_policy a = ADMIN_CONFLICT_RELEASE_EXISTING_LEASE)))
    (rejection ADMIN_ACTION_REJECTED_CONFLICT ADMIN_CONTROL_CONFLICT
       "conflict_policy" "admin control is leased by another caller")
  None)))).

Definition Reject (a : AdminAction) (r : Rejection) (frame state_seq : Z) (dry_run : bool) : AdminActionResult :=
  {| res_action_seq := action_seq a; res_client_action_id := client_action_id a;
     res_status := r.1; res_issues := [r.2]; res_lease := None;
     res_frame := frame; res_state_seq := state_seq; res_dry_run := dry_run |}.

Definition Validate (caller : AdminCaller) (a : AdminAction) (frame state_seq : Z) (c : AdminController)
    : AdminActionResult :=
  match check_all caller a frame c with
  | Some r => Reject a r frame state_seq true
  | None =>
      {| res_action_seq := action_seq a; res_client_action_id := client_action_id a;
         res_status := ADMIN_ACTION_ACCEPTED; res_issues := []; res_lease := None;
         res_frame := frame; res_state_seq := state_seq; res_dry_run := true |}
  end.

Definition Audit (caller : AdminCaller) (a : AdminAction) (result : AdminActionResult) (control : string)
    (c : AdminController) : AdminController :=
  c <| audit_log_ ::= fun l => l ++ [{|
         event_id := next_audit_id_ c; caller_identity := identity caller; event_role := role caller;
         action_type := control; event_frame := res_frame result; event_state_seq := res_state_seq result;
         event_result := res_status result; event_reason := reason a; lease_control := control;
         run_mode := if cheats_allowed (settings_ c) then "test" else "normal" |}] |>
    <| next_audit_id_ ::= fun n => u64 (n + 1) |>.

Definition lease_of (caller : AdminCaller) (control : string) (frame : Z) (c : AdminController) : AdminLease :=
  {| control := control; owner_client_id := identity caller; owner_role := role caller;
     acquired_frame := frame; last_heartbeat_frame := frame;
     expires_frame := u32 (frame + lease_ttl_frames (settings_ c)) |}.

Definition is_leased_control (control : string) : bool :=
  bool_decide (control = "pause"%string) || bool_decide (control = "global_speed"%string).

Definition Execute (caller : AdminCaller) (a : AdminAction) (frame state_seq : Z) (c : AdminController)
    : AdminController * AdminActionResult :=
  let result := (Validate caller a frame state_seq c) <| res_dry_run := false |> in
  let control := ControlName a in
  if negb (bool_decide (res_status result = ADMIN_ACTION_ACCEPTED))
  then (Audit caller a result control c, result)
  else
    let result := result <| res_status := ADMIN_ACTION_EXECUTED |> in
    if is_leased_control control then
      let lease := lease_of caller control frame c in
      let result := result <| res_lease := Some lease |> in
      (Audit caller a result control (c <| leases_ ::= insert control lease |>), result)
    else (Audit caller a result control c, result).

Definition Heartbeat (control : string) (caller : AdminCaller) (frame : Z) (c : AdminController) : AdminController :=
  match leases_ c !! control with
  | None => c
  | Some l =>
      if negb (bool_decide (owner_client_id l = identity caller)) then c
      else c <| leases_ ::= insert control (l <| last_heartbeat_frame := frame |>
                 <| expires_frame := u32 (frame + lease_ttl_frames (settings_ c)) |>) |>
  end.

Definition lease_live (frame : Z) (l : AdminLease) : Prop := expires_frame l = 0 \/ frame < expires_frame l.
#[export] Instance lease_live_dec frame l : Decision (lease_live frame l).
Proof. unfold lease_live. apply _. Defined.

Definition ExpireLeases (frame : Z) (c : AdminController) : AdminController :=
  c <| leases_ ::= filter (fun kv => lease_live frame kv.2) |>.

Definition AuditLog (c : AdminController) : list AdminAuditEvent := audit_log_ c.

Record AdminCapabilitiesResponse := {
  cap_enabled : bool;
  roles : list AdminRole;
  supported_actions : list string;
  adm_feature_flags : list string;
  cap_min_speed : float;
  cap_max_speed : float;
  cap_cheats_allowed : bool;
  cap_unit_transfer_enabled : bool;
  cap_headless_fixture : bool;
  cap_team_ids : list Z;
  cap_resource_ids : list Z;
  cap_unit_def_ids : list Z;
  cap_map_limits : option (float * float * float * float);   (** min_x, min_z, max_x, max_z *)
}.

Definition Capabilities (c : AdminController) : AdminCapabilitiesResponse :=
  let s := settings_ c in
  {| cap_enabled := enabled s;
     roles := [ADMIN_ROLE_OPERATOR; ADMIN_ROLE_ADMIN; ADMIN_ROLE_TEST_HARNESS];
     supported_actions :=
       (["pause"%string; "global_speed"%string; "cheat_policy"%string; "resource_grant"%string;
         "unit_spawn"%string]
        ++ (if unit_transfer_enabled s then ["unit_transfer"%string] else []) ++ ["lifecycle"%string])%list;
     adm_feature_flags := ["admin_control_service"%string; "admin_leases"%string; "admin_audit_events"%string];
     cap_min_speed := min_speed s; cap_max_speed := max_speed s;
     cap_cheats_allowed := cheats_allowed s; cap_unit_transfer_enabled := unit_transfer_enabled s;
     cap_headless_fixture := headless_fixture s;
     cap_team_ids := valid_team_ids s; cap_resource_ids := valid_resource_ids s;
     cap_unit_def_ids := valid_unit_def_ids s;
     cap_map_limits := if HasMapExtents s
       then Some (map_min_x s, map_min_z s, map_max_x s, map_max_z s) else None |}.

(** * The service *)

Definition kRoleHeader : string := "x-highbar-admin-role".
Definition kClientHeader : string := "x-highbar-client-id".

(** The first value of a key in the call's metadata. *)
Fixpoint MetadataValue (md : list (string * string)) (key : string) : string :=
  match md with
  | [] => ""
  | (k, v) :: md' => if decide (k = key) then v else MetadataValue md' key
  end.

Definition CallerFrom (md : list (string * string)) (peer : string) : AdminCaller :=
  let id := MetadataValue md kClientHeader in
  {| identity := if decide (id = ""%string) then peer else id;
     role := ParseAdminRole (MetadataValue md kRoleHeader) |}.

(** The answer of a handler: the response, or the status UNAVAILABLE. *)
Inductive admin_reply := Reply (r : AdminActionResult) | Unavailable (detail : string).

Definition ValidateAdminAction (md : list (string * string)) (peer : string) (a : AdminAction)
    (frame state_seq : Z) (controller : option AdminController) : admin_reply :=
  match controller with
  | None => Unavailable "admin controller not wired"
  | Some c => Reply (Validate (CallerFrom md peer) a frame state_seq c)
  end.

(** [execute_fn] hands an accepted action to the engine thread; it may change
    the controller. *)
Definition ExecuteAdminAction
    (execute_fn : option (AdminCaller -> AdminAction -> AdminController -> AdminController * AdminActionResult))
    (md : list (string * string)) (peer : string) (a : AdminAction)
    (frame state_seq : Z) (controller : option AdminController) : option AdminController * admin_reply :=
  match controller with
  | None => (None, Unavailable "admin controller not wired")
  | Some c =>
      let caller := CallerFrom md peer in
      let v := Validate caller a frame state_seq c in
      let '(c', r) :=
        if decide (res_status v = ADMIN_ACTION_ACCEPTED) then
          match execute_fn with
          | Some f => f caller a c
          | None => Execute caller a frame state_seq c
          end
        else Execute caller a frame state_seq c in
      (Some c', Reply r)
  end.

(** * Theorems *)

Lemma reject_if_None (b : bool) (r k : option Rejection) :
  is_Some r -> reject_if b r k = None <-> b = false /\ k = None.
Proof. intros [x ->]. destruct b; cbn; naive_solver. Qed.

(** What an action's own arguments must satisfy. *)
Definition arguments_ok (s : Settings) (a : AdminAction) : Prop :=
  match action a with
  | kCheatPolicy _ => cheats_allowed s = true
  | kGlobalSpeed v => isfinite v = true /\ flt v (min_speed s) = false /\ flt (max_speed s) v = false
  | kResourceGrant g =>
      IsValidTeam s (grant_team_id g) = true /\ IsValidResource s (grant_resource_id g) = true /\
      isfinite (grant_amount g) = true /\ fle (grant_amount g) f0 = false
  | kUnitSpawn sp =>
      IsValidTeam s (spawn_team_id sp) = true /\ IsValidUnitDef s (spawn_unit_def_id sp) = true /\
      isfinite (vx (spawn_position sp)) = true /\ isfinite (vy (spawn_position sp)) = true /\
      isfinite (vz (spawn_position sp)) = true /\ IsWithinMap s (spawn_position sp) = true
  | kUnitTransfer t =>
      unit_transfer_enabled s = true /\ 0 < transfer_unit_id t /\
      IsValidTeam s (transfer_to_team_id t) = true /\
      (live_unit_owners s = ∅ \/
       exists o, live_unit_owners s !! transfer_unit_id t = Some o /\
         transfer_from_team_id t = o /\ transfer_to_team_id t <> o)
  | _ => True
  end.

Lemma CheckTransfer_None (s : Settings) (t : UnitTransferAction) (k : option Rejection) :
  CheckTransfer s t k = None <->
  (0 < transfer_unit_id t /\ IsValidTeam s (transfer_to_team_id t) = true /\
   (live_unit_owners s = ∅ \/
    exists o, live_unit_owners s !! transfer_unit_id t = Some o /\
      transfer_from_team_id t = o /\ transfer_to_team_id t <> o)) /\ k = None.
Proof.
  unfold CheckTransfer. rewrite !reject_if_None by eauto.
  rewrite orb_false_iff, andb_false_iff, Z.leb_gt, !negb_false_iff.
  destruct (live_unit_owners s !! transfer_unit_id t) as [o|] eqn:E; cbn.
  - rewrite negb_false_iff, Z.eqb_eq, Z.eqb_neq. split.
    + intros ([? _] & ? & ? & ? & ?). split; [|done]. split_and!; try done. right. eauto.
    + intros ((? & ? & [Hem|(o' & [= <-] & ? & ?)]) & ?); [|by auto 10].
      rewrite Hem, lookup_empty in E. done.
  - split.
    + intros ([? [He|?]] & ? & _ & _ & ?); [|done]. apply bool_decide_eq_true_1 in He. tauto.
    + intros ((? & ? & [Hem|(o' & [=] & _)]) & ?). rewrite bool_decide_eq_true_2 by done. auto.
Qed.

Lemma CheckAction_None (s : Settings) (a : AdminAction) (k : option Rejection) :
  CheckAction s a k = None <-> arguments_ok s a /\ k = None.
Proof.
  unfold CheckAction, arguments_ok. destruct (action a); try tauto.
  - unfold CheckSpeed. rewrite reject_if_None, !orb_false_iff, negb_false_iff by eauto. tauto.
  - rewrite reject_if_None, negb_false_iff by eauto. tauto.
  - unfold CheckGrant. rewrite !reject_if_None, !orb_false_iff, !negb_false_iff by eauto. tauto.
  - unfold CheckSpawn. rewrite !reject_if_None, !orb_false_iff, !negb_false_iff by eauto. tauto.
  - rewrite reject_if_None, negb_false_iff, CheckTransfer_None by eauto. tauto.
Qed.

Lemma Validate_accepted_check (caller : AdminCaller) (a : AdminAction) (frame state_seq : Z) (c : AdminController) :
  res_status (Validate caller a frame state_seq c) = ADMIN_ACTION_ACCEPTED <-> check_all caller a frame c = None.
Proof.
  unfold Validate. destruct (check_all caller a frame c) as [[st i]|] eqn:E; [|by split].
  split; [|done]. cbn. intros ->. exfalso. revert E. unfold check_all, CheckAction, CheckSpeed,
    CheckGrant, CheckSpawn, CheckTransfer, reject_if, rejection. repeat case_match; congruence.
Qed.

Lemma check_all_None (caller : AdminCaller) (a : AdminAction) (frame : Z) (c : AdminController) :
  check_all caller a frame c = None <->
  IsPrivilegedAdminRole (role caller) = true /\ enabled (settings_ c) = true /\
  arguments_ok (settings_ c) a /\
  (act_based_on_frame a = 0 \/ frame <= u32 (act_based_on_frame a + 300)) /\
  (forall l, leases_ c !! ControlName a = Some l ->
     owner_client_id l = identity caller \/
     act_conflict_policy a = ADMIN_CONFLICT_RELEASE_EXISTING_LEASE).
Proof.
  unfold check_all. rewrite !reject_if_None by eauto. rewrite CheckAction_None, !reject_if_None by eauto.
  rewrite !negb_false_iff, !andb_false_iff, negb_false_iff, Z.eqb_eq, Z.ltb_ge, negb_false_iff, bool_decide_eq_true.
  change (RoleCanExecute (role caller)) with (IsPrivilegedAdminRole (role caller)).
  assert (Hl : (foreign_lease c caller (ControlName a) = false \/
                act_conflict_policy a = ADMIN_CONFLICT_RELEASE_EXISTING_LEASE) <->
    (forall l, leases_ c !! ControlName a = Some l -> owner_client_id l = identity caller \/
       act_conflict_policy a = ADMIN_CONFLICT_RELEASE_EXISTING_LEASE)).
  { unfold foreign_lease. destruct (leases_ c !! ControlName a) as [l|]; [|naive_solver].
    rewrite negb_false_iff, bool_decide_eq_true. naive_solver. }
  rewrite Hl. tauto.
Qed.

(** C12. Admin validation is sound and complete: an action is accepted iff the
    caller's role is operator, admin or test harness, admin controls are enabled,
    the action's own arguments are valid, its basis is fresh (within 300 frames)
    or unstated, and its control is not leased by another caller unless the action
    asks to release that lease. *)
Theorem Validate_accepts_iff (caller : AdminCaller) (a : AdminAction) (frame state_seq : Z) (c : AdminController) :
  res_status (Validate caller a frame state_seq c) = ADMIN_ACTION_ACCEPTED <->
  IsPrivilegedAdminRole (role caller) = true /\ enabled (settings_ c) = true /\
  arguments_ok (settings_ c) a /\
  (act_based_on_frame a = 0 \/ frame <= u32 (act_based_on_frame a + 300)) /\
  (forall l, leases_ c !! ControlName a = Some l ->
     owner_client_id l = identity caller \/
     act_conflict_policy a = ADMIN_CONFLICT_RELEASE_EXISTING_LEASE).
Proof. rewrite Validate_accepted_check. apply check_all_None. Qed.

(** ** Sequences of operations *)

(** The operations on the controller: an executed RPC, a heartbeat, and the
    engine thread's lease expiry. *)
Inductive admin_op :=
  | OpExecute (caller : AdminCaller) (a : AdminAction) (frame state_seq : Z)
  | OpHeartbeat (control : string) (caller : AdminCaller) (frame : Z)
  | OpExpireLeases (frame : Z).

(** The controller after an operation, and what the caller was answered. *)
Definition apply_op (c : AdminController) (op : admin_op)
    : AdminController * list (AdminCaller * AdminAction * AdminActionResult) :=
  match op with
  | OpExecute caller a frame state_seq =>
      let '(c', r) := Execute caller a frame state_seq c in (c', [(caller, a, r)])
  | OpHeartbeat control caller frame => (Heartbeat control caller frame c, [])
  | OpExpireLeases frame => (ExpireLeases frame c, [])
  end.

Fixpoint run_ops (c : AdminController) (ops : list admin_op)
    : AdminController * list (AdminCaller * AdminAction * AdminActionResult) :=
  match ops with
  | [] => (c, [])
  | op :: ops' =>
      let '(c1, out) := apply_op c op in
      let '(c2, outs) := run_ops c1 ops' in (c2, out ++ outs)
  end.

(** [Execute] on its two branches. *)
Lemma Execute_rejected (caller : AdminCaller) (a : AdminAction) (frame seq : Z) (c : AdminController) :
  res_status (Validate caller a frame seq c) <> ADMIN_ACTION_ACCEPTED ->
  let r := (Validate caller a frame seq c) <| res_dry_run := false |> in
  Execute caller a frame seq c = (Audit caller a r (ControlName a) c, r).
Proof. intros Hr. unfold Execute. cbn. by rewrite bool_decide_eq_false_2. Qed.

Lemma Execute_accepted (caller : AdminCaller) (a : AdminAction) (frame seq : Z) (c : AdminController) :
  res_status (Validate caller a frame seq c) = ADMIN_ACTION_ACCEPTED ->
  exists r, res_status r = ADMIN_ACTION_EXECUTED /\
    Execute caller a frame seq c =
    (Audit caller a r (ControlName a)
       (if is_leased_control (ControlName a)
        then c <| leases_ ::= insert (ControlName a) (lease_of caller (ControlName a) frame c) |> else c), r).
Proof.
  intros Hr. unfold Execute. cbn. rewrite bool_decide_eq_true_2 by done. cbn.
  destruct (is_leased_control _); eexists; (split; [|reflexivity]); done.
Qed.

(** What the audit log holds of an answered call. *)
Definition audit_view (e : AdminAuditEvent) : string * string * AdminActionStatus * string :=
  (caller_identity e, action_type e, event_result e, event_reason e).
Definition reply_view (x : AdminCaller * AdminAction * AdminActionResult) : string * string * AdminActionStatus * string :=
  let '(caller, a, r) := x in (identity caller, ControlName a, res_status r, reason a).

(** One operation appends one event per answered call. *)
Lemma apply_op_audit (c : AdminController) (op : admin_op) :
  exists new, audit_log_ (apply_op c op).1 = audit_log_ c ++ new /\
    audit_view <$> new = reply_view <$> (apply_op c op).2 /\
    (new = [] /\ next_audit_id_ (apply_op c op).1 = next_audit_id_ c \/
     exists e, new = [e] /\ event_id e = next_audit_id_ c /\
       next_audit_id_ (apply_op c op).1 = u64 (next_audit_id_ c + 1)).
Proof.
  destruct op as [caller a frame seq|k caller frame|frame]; cbn.
  - destruct (decide (res_status (Validate caller a frame seq c) = ADMIN_ACTION_ACCEPTED)) as [Ha|Ha].
    + destruct (Execute_accepted _ _ _ _ _ Ha) as (r & Hr & ->). destruct (is_leased_control _); cbn; eauto 10.
    + rewrite Execute_rejected by done. cbn. eauto 10.
  - exists []. rewrite app_nil_r. unfold Heartbeat. split_and!; [by cases | done | left; by cases].
  - exists []. rewrite app_nil_r. auto.
Qed.

Lemma run_ops_audit (ops : list admin_op) (c : AdminController) :
  0 <= next_audit_id_ c -> next_audit_id_ c + size_of ops < 2 ^ 64 ->
  exists new, audit_log_ (run_ops c ops).1 = audit_log_ c ++ new /\
    audit_view <$> new = reply_view <$> (run_ops c ops).2 /\
    event_id <$> new = seqZ (next_audit_id_ c) (size_of new).
Proof.
  revert c. induction ops as [|op ops IH]; intros c H0 Hn.
  { exists []. by rewrite app_nil_r. }
  rewrite size_of_cons in Hn. pose proof (size_of_nonneg ops).
  destruct (apply_op_audit c op) as (new & Hlog & Hview & Hid). cbn.
  destruct (apply_op c op) as [c1 out]; cbn in *.
  destruct (IH c1) as (new' & Hlog' & Hview' & Hid').
  { destruct Hid as [[_ ->]|(e & _ & _ & ->)]; [done|]. width. lia. }
  { destruct Hid as [[_ ->]|(e & _ & _ & ->)]; [lia|]. width. lia. }
  destruct (run_ops c1 ops) as [c2 outs]; cbn in *.
  exists (new ++ new'). rewrite Hlog', Hlog, <- app_assoc, !fmap_app, Hview, Hview'. split_and!; [done..|].
  rewrite Hid'. destruct Hid as [[-> ->]|(e & -> & He & ->)]; [done|]. cbn. rewrite He. width.
  unfold size_of. cbn [length]. rewrite Nat2Z.inj_succ. rewrite (seqZ_cons _ (Z.succ _)) by lia. f_equal; f_equal; lia.
Qed.

(** The audit log is complete and ordered: after any sequence of
    executed actions, heartbeats and expiries on a fresh controller it holds
    exactly one event per answered action, in order, with the caller, control,
    reason and the status that was returned to the caller -- rejections
    included -- and the event ids are 1, 2, 3, ... *)
Theorem audit_trail (s : Settings) (ops : list admin_op) :
  size_of ops < 2 ^ 64 - 1 ->
  let c := (run_ops (AdminController_new s) ops).1 in
  audit_view <$> AuditLog c = reply_view <$> (run_ops (AdminController_new s) ops).2 /\
  event_id <$> AuditLog c = seqZ 1 (size_of (AuditLog c)).
Proof.
  intros Hn. destruct (run_ops_audit ops (AdminController_new s)) as (new & H1 & H2 & H3); cbn; [lia..|].
  destruct (run_ops _ ops) as [c replies]. cbn in *. unfold AuditLog. by rewrite H1.
Qed.

(** Leases are only on the shared controls, are keyed by their control, and are
    owned by privileged callers. *)
Definition leases_wf (c : AdminController) : Prop :=
  forall k l, leases_ c !! k = Some l ->
    control l = k /\ is_leased_control k = true /\ IsPrivilegedAdminRole (owner_role l) = true.

(** The owner of a control, if it is leased. *)
Definition lease_owner (c : AdminController) (k : string) : option string := owner_client_id <$> leases_ c !! k.

Lemma apply_op_leases_wf (c : AdminController) (op : admin_op) :
  leases_wf c -> leases_wf (apply_op c op).1.
Proof.
  intros Hwf. destruct op as [caller a frame seq|k caller frame|frame]; cbn.
  - destruct (decide (res_status (Validate caller a frame seq c) = ADMIN_ACTION_ACCEPTED)) as [Ha|Ha].
    + destruct (Execute_accepted _ _ _ _ _ Ha) as (r & Hr & ->).
      destruct (is_leased_control _) eqn:El; [|done]. intros k l. cbn. rewrite lookup_insert. case_decide; [|apply Hwf].
      subst k. intros [= <-]. cbn. rewrite Validate_accepted_check, check_all_None in Ha. tauto.
    + by rewrite Execute_rejected.
  - unfold Heartbeat. destruct (leases_ c !! k) as [l|] eqn:El; [|done]. case_match; [done|].
    intros k' l'. cbn. rewrite lookup_insert. destruct (decide (k = k')) as [<-|]; [|apply Hwf].
    intros [= <-]. cbn. by apply Hwf.
  - intros k l. cbn. rewrite map_lookup_filter_Some. intros [Hl _]. by apply Hwf.
Qed.

Lemma run_ops_leases_wf (ops : list admin_op) (c : AdminController) :
  leases_wf c -> leases_wf (run_ops c ops).1.
Proof.
  revert c. induction ops as [|op ops IH]; intros c Hwf; [done|]. cbn.
  apply (apply_op_leases_wf _ op) in Hwf. destruct (apply_op c op) as [c1 out]. cbn in Hwf.
  apply IH in Hwf. by destruct (run_ops c1 ops).
Qed.

(** How the owner of a control can change: the three ways the code has. *)
Inductive owner_change (c : AdminController) (k : string) : admin_op -> option string -> Prop :=
  | acquired caller a frame seq :
      ControlName a = k -> is_leased_control k = true ->
      res_status (Execute caller a frame seq c).2 = ADMIN_ACTION_EXECUTED ->
      IsPrivilegedAdminRole (role caller) = true ->
      (forall o, lease_owner c k = Some o -> o <> identity caller ->
        act_conflict_policy a = ADMIN_CONFLICT_RELEASE_EXISTING_LEASE) ->
      owner_change c k (OpExecute caller a frame seq) (Some (identity caller))
  | expired frame l :
      leases_ c !! k = Some l -> expires_frame l <> 0 -> expires_frame l <= frame ->
      owner_change c k (OpExpireLeases frame) None.

(** C13. Lease discipline: in every reachable state each lease is on pause or
    global speed and owned by a privileged caller, and an operation changes who
    owns a control only by executing an action on that control -- which, against
    another caller's lease, must ask for its release -- or by expiring a lease
    whose frame has come.  Rejected actions and other callers' heartbeats change
    no owner. *)
Theorem lease_discipline (s : Settings) (ops : list admin_op) (op : admin_op) (k : string) :
  let c := (run_ops (AdminController_new s) ops).1 in
  let c' := (apply_op c op).1 in
  leases_wf c /\
  (lease_owner c' k = lease_owner c k \/ owner_change c k op (lease_owner c' k)).
Proof.
  intros c c'. split; [apply run_ops_leases_wf; intros ? ? [=]|].
  unfold c'. clearbody c. clear c' ops. destruct op as [caller a frame seq|k' caller frame|frame]; cbn.
  - destruct (decide (res_status (Validate caller a frame seq c) = ADMIN_ACTION_ACCEPTED)) as [Ha|Ha].
    2:{ left. by rewrite Execute_rejected. }
    destruct (Execute_accepted _ _ _ _ _ Ha) as (r & Hr & He).
    rewrite He. destruct (is_leased_control (ControlName a)) eqn:El; [|by left].
    unfold lease_owner at 1 3. cbn. rewrite lookup_insert. case_decide as Hk; [|by left].
    right. rewrite Validate_accepted_check, check_all_None in Ha. destruct Ha as (? & _ & _ & _ & Hc). subst k. cbn.
    apply acquired; try done; [by rewrite He|].
    intros o Ho Hne. unfold lease_owner in Ho. destruct (leases_ c !! ControlName a) as [l|] eqn:E; [|done].
    cbn in Ho. destruct (Hc l eq_refl); [congruence | done].
  - left. unfold Heartbeat, lease_owner. destruct (leases_ c !! k') as [l|] eqn:El; [|done]. case_match; [done|].
    destruct (decide (k' = k)) as [<-|Hne]; [rewrite El|]; cbn; [by rewrite lookup_insert_eq | by rewrite lookup_insert_ne].
  - unfold lease_owner. cbn. destruct (leases_ c !! k) as [l|] eqn:El.
    + destruct (decide (lease_live frame l)) as [Hv|Hv].
      * left. rewrite (proj2 (map_lookup_filter_Some _ _ _ _) (conj El Hv)). done.
      * right. replace (filter _ (leases_ c) !! k) with (None (A:=AdminLease)).
        2:{ symmetry. apply map_lookup_filter_None. right. intros l' Hl'. by rewrite El in Hl'; simplify_eq. }
        unfold lease_live in Hv. eapply expired; eauto; lia.
    + left. replace (filter _ (leases_ c) !! k) with (None (A:=AdminLease)); [done|].
      symmetry. apply map_lookup_filter_None. by left.
Qed.

(** ** Witness *)

Definition demo_settings : Settings :=
  {| enabled := true; cheats_allowed := false; unit_transfer_enabled := true; headless_fixture := false;
     lease_ttl_frames := 90; min_speed := f0; max_speed := f0; map_min_x := f0; map_min_z := f0;
     map_max_x := f0; map_max_z := f0; valid_team_ids := []; valid_resource_ids := [];
     valid_unit_def_ids := []; live_unit_owners := ∅ |}.
Definition demo_pause : AdminAction :=
  {| action_seq := 1; client_action_id := 1; act_based_on_frame := 0; act_based_on_state_seq := 0;
     act_conflict_policy := ADMIN_CONFLICT_REJECT_IF_CONTROLLED; reason := "demo"; action := kPause true |}.
Definition demo_ops : list admin_op :=
  [OpExecute {| identity := "alice"; role := ADMIN_ROLE_OPERATOR |} demo_pause 10 5;
   OpExecute {| identity := "bob"; role := ADMIN_ROLE_OPERATOR |} demo_pause 20 6;
   OpExpireLeases 100;
   OpExecute {| identity := "bob"; role := ADMIN_ROLE_OPERATOR |} demo_pause 110 7].

Lemma audit_trail_witness :
  let c := (run_ops (AdminController_new demo_settings) demo_ops).1 in
  let replies := (run_ops (AdminController_new demo_settings) demo_ops).2 in
  ((res_status <$> replies.*2) = [ADMIN_ACTION_EXECUTED; ADMIN_ACTION_REJECTED_CONFLICT; ADMIN_ACTION_EXECUTED] /\
   lease_owner c "pause" = Some "bob"%string) /\
  (audit_view <$> AuditLog c = reply_view <$> replies /\
   event_id <$> AuditLog c = seqZ 1 (size_of (AuditLog c))).
Proof.
  intros c replies. refine (conj (conj _ _) _).
  - vm_compute. reflexivity.
  - vm_compute. reflexivity.
  - apply (audit_trail demo_settings demo_ops). vm_compute. reflexivity.
Defined.
