(* ===== verification/GrpcLog.v ===== *)
(** Structured logging and the health file (grpc/GrpcLog.h, .cpp): the JSON
    escaping of free text, the reason code of an exception, the fault line, and
    the health file's body and its publication by write-temp-and-rename. *)

From S2P Require Import Prelude AuthToken.

Definition kPrefix : string := "[hb-gateway]".

(** * Escaping *)

Definition chr (n : nat) : ascii := ascii_of_nat n.
Definition cquote : ascii := chr 34.
Definition cbackslash : ascii := chr 92.

(** One character: the cases of the switch, in its order. *)
Definition JsonEscape_char (c : ascii) : list ascii :=
  if decide (c = cquote) then [cbackslash; cquote]
  else if decide (c = cbackslash) then [cbackslash; cbackslash]
  else if decide (c = chr 10) then [cbackslash; chr 110]
  else if decide (c = chr 13) then [cbackslash; chr 114]
  else if decide (c = chr 9) then [cbackslash; chr 116]
  else if (nat_of_ascii c <? 32)%nat
  then [cbackslash; chr 117; chr 48; chr 48;
        kHex (Z.shiftr (byte_of c) 4); kHex (Z.land (byte_of c) 15)]   (** [\u%04x] *)
  else [c].

Definition JsonEscape (s : list ascii) : list ascii := concat (JsonEscape_char <$> s).

Definition bytes_of (s : string) : list ascii := String.list_ascii_of_string s.
Definition escaped (s : string) : string := String.string_of_list_ascii (JsonEscape (bytes_of s)).

(** * Reason codes *)

(** [None] is a null [exception_ptr]. *)
Definition ReasonCodeFor (ep : option exn) : string :=
  match ep with
  | None => "rpc_internal"
  | Some e =>
      match exn_kind e with
      | std_bad_alloc => "oom"
      | std_invalid_argument => "malformed_frame"
      | std_range_error => "malformed_frame"
      | std_logic_error => "assertion_failed"
      | std_runtime_error => "rpc_internal"
      | std_exception => "rpc_internal"
      | unknown_exception => "rpc_internal"
      end
  end.

(** * The fault line and the health file *)

Definition LogFault (pid : Z) (subsystem reason detail : string) (frame : Z) : string :=
  kPrefix +:+ " fault subsystem=" +:+ subsystem +:+ " reason=" +:+ reason +:+ " detail=" +:+ dq
  +:+ escaped detail +:+ dq +:+ " schema=highbar.v1 pid=" +:+ pretty pid +:+ " frame=" +:+ pretty frame.

Definition q (s : string) : string := dq +:+ s +:+ dq.

Definition health_body (pid : Z) (healthy : bool) (subsystem reason detail : string) (frame : Z) : string :=
  "{" +:+ q "status" +:+ ":" +:+ q (if healthy then "healthy" else "disabled")
  +:+ "," +:+ q "schema" +:+ ":" +:+ q "highbar.v1" +:+ "," +:+ q "pid" +:+ ":" +:+ pretty pid
  +:+ (if healthy then ""
       else "," +:+ q "subsystem" +:+ ":" +:+ q (escaped subsystem)
            +:+ "," +:+ q "reason" +:+ ":" +:+ q (escaped reason)
            +:+ "," +:+ q "detail" +:+ ":" +:+ q (escaped detail)
            +:+ "," +:+ q "frame" +:+ ":" +:+ pretty frame)
  +:+ "}" +:+ String (chr 10) EmptyString.

(** What the library calls answered: [written] is the value of [fwrite]. *)
Record HealthIo := {
  fopen_ok : bool;
  written : nat;
  fflush_ok : bool;
  fclose_ok : bool;
  rename_ok : bool;
}.

(** The file systems passed through (latest first) and the returned flag.  A
    short write or a failed flush leaves some prefix of the body behind. *)
Definition WriteHealthFile (io : HealthIo) (path : string) (body : list ascii) (fs : gmap string (list ascii))
    : list (gmap string (list ascii)) * bool :=
  if decide (path = ""%string) then ([fs], false)
  else
    let tmp := path +:+ ".tmp" in
    if negb (fopen_ok io) then ([fs], false)
    else
      let fs1 := <[tmp := []]> fs in
      let fs2 := <[tmp := take (written io) body]> fs1 in
      if negb (written io =? length body)%nat || negb (fflush_ok io) || negb (fclose_ok io)
      then ([delete tmp fs2; fs2; fs1; fs], false)
      else if negb (rename_ok io) then ([delete tmp fs2; fs2; fs1; fs], false)
      else ([<[path := take (written io) body]> (delete tmp fs2); fs2; fs1; fs], true).

(** * Reading the escaped text back *)

Definition hex_value (c : ascii) : option Z :=
  let n := byte_of c in
  if (48 <=? n) && (n <=? 57) then Some (n - 48)
  else if (97 <=? n) && (n <=? 102) then Some (n - 87) else None.

Definition simple_escape (e : ascii) : ascii :=
  if decide (e = chr 110) then chr 10 else if decide (e = chr 114) then chr 13
  else if decide (e = chr 116) then chr 9 else e.

(** A JSON string literal, from after its opening quote: the text and what
    follows the closing quote.  Control characters are not allowed in it. *)
Fixpoint read_json_string (s : list ascii) : option (list ascii * list ascii) :=
  match s with
  | [] => None
  | c :: s' =>
      if decide (c = cquote) then Some ([], s')
      else if decide (c = cbackslash) then
        match s' with
        | e :: s1 =>
            if decide (e = chr 117) then
              match s1 with
              | z0 :: z1 :: h :: l :: s2 =>
                  if decide (z0 = chr 48 /\ z1 = chr 48) then
                    match hex_value h, hex_value l, read_json_string s2 with
                    | Some hi, Some lo, Some (t, rest) => Some (chr (Z.to_nat (16 * hi + lo)) :: t, rest)
                    | _, _, _ => None
                    end
                  else None
              | _ => None
              end
            else
              match read_json_string s1 with Some (t, rest) => Some (simple_escape e :: t, rest) | None => None end
        | [] => None
        end
      else if (nat_of_ascii c <? 32)%nat then None
      else match read_json_string s' with Some (t, rest) => Some (c :: t, rest) | None => None end
  end.

Lemma hex_byte (c : ascii) :
  exists hi lo, hex_value (kHex (Z.shiftr (byte_of c) 4)) = Some hi /\
    hex_value (kHex (Z.land (byte_of c) 15)) = Some lo /\ chr (Z.to_nat (16 * hi + lo)) = c.
Proof.
  exists (Z.shiftr (byte_of c) 4), (Z.land (byte_of c) 15).
  destruct c as [[] [] [] [] [] [] [] []]; repeat split; vm_compute; reflexivity.
Qed.

Lemma read_simple_escape (e : ascii) (s t rest : list ascii) :
  e <> chr 117 -> read_json_string s = Some (t, rest) ->
  read_json_string ([cbackslash; e] ++ s) = Some (simple_escape e :: t, rest).
Proof.
  intros He Hs. cbn -[chr cquote cbackslash simple_escape].
  rewrite decide_False by (vm_compute; discriminate).
  rewrite decide_True by done. rewrite decide_False by done. by rewrite Hs.
Qed.

(** One character reads back. *)
Lemma read_escaped_char (c : ascii) (s t rest : list ascii) :
  read_json_string s = Some (t, rest) ->
  read_json_string (JsonEscape_char c ++ s) = Some (c :: t, rest).
Proof.
  intros Hs. unfold JsonEscape_char. destruct (hex_byte c) as (hi & lo & Hhi & Hlo & Hc).
  repeat (case_decide; [clear Hhi Hlo Hc; subst c; (rewrite read_simple_escape with (t := t) (rest := rest); [vm_compute; reflexivity | vm_compute; discriminate | exact Hs])|]).
  destruct (Nat.ltb_spec (nat_of_ascii c) 32) as [Hlt|Hge].
  - cbn -[chr cquote cbackslash hex_value kHex]. rewrite decide_False by (vm_compute; discriminate).
    rewrite !decide_True by done. by rewrite Hhi, Hlo, Hs, Hc.
  - cbn -[chr cquote cbackslash Nat.ltb nat_of_ascii]. rewrite !decide_False by done.
    by rewrite (proj2 (Nat.ltb_ge _ _) Hge), Hs.
Qed.

Lemma escaped_char_printable (c : ascii) : Forall (fun x => (32 <= nat_of_ascii x)%nat) (JsonEscape_char c).
Proof. destruct c as [[] [] [] [] [] [] [] []]; repeat constructor; vm_compute; lia. Qed.

(** C17. Escaped free text is injection-safe: whatever bytes an exception
    message holds, the escaped text contains no control character (the fault
    line and the health file stay single-line), and a reader of the JSON string
    literal that contains it gets the original bytes back and stops exactly at
    the closing quote the code wrote. *)
Theorem JsonEscape_roundtrip (s rest : list ascii) :
  Forall (fun x => (32 <= nat_of_ascii x)%nat) (JsonEscape s) /\
  read_json_string (JsonEscape s ++ cquote :: rest) = Some (s, rest).
Proof.
  unfold JsonEscape. induction s as [|c s [IH1 IH2]]; [done|]. rewrite fmap_cons. cbn [concat]. split.
  - apply Forall_app. split; [apply escaped_char_printable | done].
  - rewrite <- app_assoc. by apply read_escaped_char.
Qed.

(** The health file is replaced atomically: whatever the library calls
    answer, every state of the file system shows the path with its old content or
    with the complete body; the function returns true only when the body is in
    place, and on false the path is unchanged and no temporary file remains if
    one was opened. *)
Theorem WriteHealthFile_atomic (io : HealthIo) (path : string) (body : list ascii) (fs : gmap string (list ascii)) :
  let '(trace, ok) := WriteHealthFile io path body fs in
  Forall (sees fs path body) trace /\
  exists last rest, trace = last :: rest /\
    (if ok then last !! path = Some body
     else last !! path = fs !! path /\ (last = fs \/ last !! (path +:+ ".tmp") = None)).
Proof.
  pose proof (tmp_ne path) as Hne. unfold WriteHealthFile, sees.
  destruct (decide (path = ""%string)). { split; [repeat constructor; by left|]. by eexists _, _; eauto. }
  destruct (fopen_ok io); cbn [negb]; [|split; [repeat constructor; by left|]; by eexists _, _; eauto].
  assert (Htmp : forall x y : list ascii, <[path +:+ ".tmp" := x]> (<[path +:+ ".tmp" := y]> fs) !! path = fs !! path)
    by (intros; by rewrite !lookup_insert_ne).
  assert (H1 : forall y : list ascii, <[path +:+ ".tmp" := y]> fs !! path = fs !! path)
    by (intros; by rewrite !lookup_insert_ne).
  assert (Hd : forall x y : list ascii, delete (path +:+ ".tmp") (<[path +:+ ".tmp" := x]> (<[path +:+ ".tmp" := y]> fs)) !! path
               = fs !! path) by (intros; by rewrite lookup_delete_ne, Htmp).
  destruct (Nat.eqb_spec (written io) (length body)) as [Hw|Hw]; cbn [negb orb].
  2:{ split; [repeat (apply Forall_cons_2; [left; auto|]); apply Forall_nil_2|]. eexists _, _. split; [done|]. rewrite lookup_delete_eq. auto. }
  destruct (fflush_ok io), (fclose_ok io), (rename_ok io); cbn [negb orb];
    try (split; [repeat (apply Forall_cons_2; [left; auto|]); apply Forall_nil_2|]; eexists _, _; (split; [done|]); rewrite lookup_delete_eq; auto).
  rewrite Hw, firstn_all. split.
  - apply Forall_cons_2; [right; by rewrite lookup_insert_eq|].
    repeat (apply Forall_cons_2; [left; auto|]); apply Forall_nil_2.
  - eexists _, _. split; [done|]. by rewrite lookup_insert_eq.
Qed.
