(* ===== verification/State.v ===== *)
(** The messages of the state feed (proto/highbar/state.proto and events.proto):
    snapshots, the delta events the gateway produces, and the [StateUpdate] that
    carries either of them or a keep-alive. *)

From S2P Require Import Prelude Float32 Proto.

Record OwnUnit := {
  own_unit_id : Z; own_def_id : Z; own_position : Vector3; own_health : float; own_max_health : float;
  own_under_construction : bool; own_build_progress : float; own_team_id : Z;
}.

Record EnemyUnit := {
  enemy_unit_id : Z; enemy_def_id : Z; enemy_position : Vector3; enemy_health : float;
  enemy_max_health : float; enemy_team_id : Z;       (** [los_quality] is always LOS_VISUAL *)
}.

Record RadarBlip := { blip_id : Z; blip_position : Vector3; suspected_def_id : Z }.

Record MapFeature := {
  feature_id : Z; feature_def_id : Z; feature_position : Vector3;
  reclaim_value_metal : float; reclaim_value_energy : float;
}.

Record TeamEconomy := {
  econ_metal : float; econ_metal_income : float; econ_metal_storage : float;
  econ_energy : float; econ_energy_income : float; econ_energy_storage : float;
}.

Record StaticMap := { width_cells : Z; height_cells : Z; metal_spots : list Vector3 }.

Record StateSnapshot := {
  frame_number : Z;
  own_units : list OwnUnit;
  visible_enemies : list EnemyUnit;
  radar_enemies : list RadarBlip;
  map_features : list MapFeature;
  economy : option TeamEconomy;
  static_map : option StaticMap;
  effective_cadence_frames : Z;
}.

#[export] Instance StateSnapshot_eta : Eta StateSnapshot := fun s =>
  Build_StateSnapshot (frame_number s) (own_units s) (visible_enemies s) (radar_enemies s) (map_features s)
    (economy s) (static_map s) (effective_cadence_frames s).

Definition StateSnapshot_default : StateSnapshot :=
  {| frame_number := 0; own_units := []; visible_enemies := []; radar_enemies := []; map_features := [];
     economy := None; static_map := None; effective_cadence_frames := 0 |}.

Record EconomyTickEvent := {
  tick_metal : float; tick_metal_storage : float; tick_metal_usage : float;
  tick_energy : float; tick_energy_storage : float; tick_energy_usage : float;
}.

Inductive CommandDispatchStatus :=
  | COMMAND_DISPATCH_STATUS_UNSPECIFIED
  | COMMAND_DISPATCH_APPLIED
  | COMMAND_DISPATCH_SKIPPED_TARGET_MISSING
  | COMMAND_DISPATCH_SKIPPED_TARGET_NOT_OWNED
  | COMMAND_DISPATCH_SKIPPED_TARGET_DEAD
  | COMMAND_DISPATCH_SKIPPED_CAPABILITY_CHANGED
  | COMMAND_DISPATCH_SKIPPED_UNSUPPORTED_ARM
  | COMMAND_DISPATCH_SKIPPED_ENGINE_NOT_READY
  | COMMAND_DISPATCH_SKIPPED_UNKNOWN.

#[export] Instance CommandDispatchStatus_eq_dec : EqDecision CommandDispatchStatus.
Proof. solve_decision. Defined.

Record CommandDispatchEvent := {
  disp_batch_seq : Z;
  disp_client_command_id : Z;
  disp_command_index : Z;
  disp_target_unit_id : Z;
  disp_status : CommandDispatchStatus;
  disp_issue : option CommandIssue;
  disp_frame : Z;
}.

(** The arms of [DeltaEvent] that the gateway emits. *)
Inductive DeltaEvent :=
  | unit_created (unit_id builder_id : Z)
  | unit_finished (unit_id : Z)
  | unit_damaged (unit_id : Z) (attacker_id : option Z) (damage : float) (direction : Vector3)
      (weapon_def_id : Z) (is_paralyzer : bool)
  | unit_destroyed (unit_id : Z) (attacker_id : option Z)
  | unit_idle (unit_id : Z)
  | unit_move_failed (unit_id : Z)
  | unit_given (unit_id old_team_id new_team_id : Z)
  | unit_captured (unit_id old_team_id new_team_id : Z)
  | enemy_enter_los (enemy_id : Z)
  | enemy_leave_los (enemy_id : Z)
  | enemy_enter_radar (enemy_id : Z)
  | enemy_leave_radar (enemy_id : Z)
  | enemy_damaged (enemy_id : Z)
  | enemy_destroyed (enemy_id : Z)
  | feature_created (id def_id : Z) (position : Vector3)
  | feature_destroyed (id : Z)
  | economy_tick (values : option EconomyTickEvent)       (** [None]: all fields default *)
  | command_dispatch (e : CommandDispatchEvent).

Inductive payload_oneof :=
  | PSnapshot (s : StateSnapshot)
  | PDelta (events : list DeltaEvent)
  | PKeepAlive.

Record StateUpdate := {
  upd_seq : Z;
  upd_frame : Z;
  upd_payload : payload_oneof;
  send_monotonic_ns : Z;
}.

#[export] Instance StateUpdate_eta : Eta StateUpdate := fun u =>
  Build_StateUpdate (upd_seq u) (upd_frame u) (upd_payload u) (send_monotonic_ns u).

(** [clock_gettime(CLOCK_MONOTONIC)] as nanoseconds at 64 bits. *)
Definition monotonic_ns (tv_sec tv_nsec : Z) : Z := u64 (u64 (u64 tv_sec * 1000000000) + u64 tv_nsec).
