(* ===== verification/SnapshotBuilder.v ===== *)
(** The snapshot builder (grpc/SnapshotBuilder.h, .cpp): the walk over the AI's
    units, enemies, features and economy that fills a [StateSnapshot], and the
    cached static map.

    What the AI's managers and the engine's wrapper objects answer is a
    [SnapSource]; a nullable pointer is an option. *)

From S2P Require Import Prelude Float32 Proto State.

(** [CCircuitDef]: its id and, when [GetDef()] is not null, the def's health. *)
Record DefView := { dv_id : Z; dv_def_health : option float }.

(** [springai::Unit]. *)
Record WrappedUnit := { wu_health : float; wu_being_built : bool; wu_build_progress : float }.

Record UnitView := { uv_cdef : option DefView; uv_pos : Vector3; uv_unit : option WrappedUnit }.

Record EnemyView := { ev_cdef : option DefView; ev_in_los : bool; ev_pos : Vector3; ev_health : float }.

Record FeatureView := {
  fv_id : Z; fv_pos : Vector3;
  fv_def : option (Z * float * float);        (** id, contained metal, contained energy *)
}.

Record EconomyView := {
  em_metal_cur : float; em_metal_store : float; em_energy_cur : float; em_energy_store : float;
  em_has_metal_res : bool; em_has_energy_res : bool;
}.

Record SnapSource := {
  src_last_frame : Z;
  src_team_id : Z;
  src_team_units : list (Z * option UnitView);                (** in the map's iteration order *)
  src_enemy_units : option (list (Z * option EnemyView));
  src_features : option (list (option FeatureView));           (** through the callback, if any *)
  src_economy : option EconomyView;
  src_metal_spots : option (list Vector3);
}.

Definition FrameForWire (ai : option Z) : Z :=
  match ai with None => 0 | Some frame => if 0 <=? frame then u32 frame else 0 end.

Definition def_id_of (cdef : option DefView) : Z := match cdef with Some d => u32 (dv_id d) | None => 0 end.

Definition FillOwnUnit (team_id : Z) (unit_id : Z) (unit : UnitView) : OwnUnit :=
  let health := match uv_unit unit with Some su => wu_health su | None => f0 end in
  let max_hp := match uv_cdef unit with
                | Some d => match dv_def_health d with Some h => h | None => health end
                | None => health
                end in
  {| own_unit_id := u32 unit_id; own_team_id := team_id; own_def_id := def_id_of (uv_cdef unit);
     own_position := uv_pos unit; own_health := health;
     own_max_health := if flt f0 max_hp then max_hp else health;
     own_under_construction := match uv_unit unit with Some su => wu_being_built su | None => false end;
     own_build_progress := match uv_unit unit with Some su => wu_build_progress su | None => f0 end |}.

Fixpoint FillOwnUnits (team_id : Z) (units : list (Z * option UnitView)) (out : StateSnapshot) : StateSnapshot :=
  match units with
  | [] => out
  | (_, None) :: units' => FillOwnUnits team_id units' out
  | (id, Some u) :: units' =>
      FillOwnUnits team_id units' (out <| own_units ::= fun l => l ++ [FillOwnUnit team_id id u] |>)
  end.

Definition visible_of (enemy_id : Z) (eu : EnemyView) : EnemyUnit :=
  {| enemy_unit_id := u32 enemy_id; enemy_team_id := -1; enemy_def_id := def_id_of (ev_cdef eu);
     enemy_position := ev_pos eu; enemy_health := ev_health eu;
     enemy_max_health := match ev_cdef eu with
                         | Some d => default (ev_health eu) (dv_def_health d)
                         | None => ev_health eu
                         end |}.

Definition blip_of (enemy_id : Z) (eu : EnemyView) : RadarBlip :=
  {| blip_id := u32 enemy_id; blip_position := ev_pos eu; suspected_def_id := def_id_of (ev_cdef eu) |}.

Fixpoint FillEnemies (enemies : list (Z * option EnemyView)) (out : StateSnapshot) : StateSnapshot :=
  match enemies with
  | [] => out
  | (_, None) :: enemies' => FillEnemies enemies' out
  | (id, Some eu) :: enemies' =>
      FillEnemies enemies'
        (if ev_in_los eu then out <| visible_enemies ::= fun l => l ++ [visible_of id eu] |>
         else out <| radar_enemies ::= fun l => l ++ [blip_of id eu] |>)
  end.

Definition feature_of (econ : EconomyView) (f : FeatureView) : MapFeature :=
  match fv_def f with
  | Some (id, metal, energy) =>
      {| feature_id := u32 (fv_id f); feature_position := fv_pos f; feature_def_id := u32 id;
         reclaim_value_metal := if em_has_metal_res econ then metal else f0;
         reclaim_value_energy := if em_has_energy_res econ then energy else f0 |}
  | None =>
      {| feature_id := u32 (fv_id f); feature_position := fv_pos f; feature_def_id := 0;
         reclaim_value_metal := f0; reclaim_value_energy := f0 |}
  end.

Definition FillFeatures (features : option (list (option FeatureView))) (econ : option EconomyView)
    (out : StateSnapshot) : StateSnapshot :=
  match features, econ with
  | Some fs, Some em => out <| map_features ::= fun l => l ++ (feature_of em <$> omap id fs) |>
  | _, _ => out
  end.

Definition FillEconomy (econ : option EconomyView) (out : StateSnapshot) : StateSnapshot :=
  match econ with
  | None => out
  | Some em => out <| economy := Some {|
      econ_metal := em_metal_cur em; econ_metal_storage := em_metal_store em; econ_metal_income := f0;
      econ_energy := em_energy_cur em; econ_energy_storage := em_energy_store em; econ_energy_income := f0 |} |>
  end.

(** [None]: a builder without an AI. *)
Definition BuildIncremental (ai : option SnapSource) : StateSnapshot :=
  match ai with
  | None => StateSnapshot_default
  | Some src =>
      let out := StateSnapshot_default <| frame_number := FrameForWire (Some (src_last_frame src)) |> in
      let out := FillOwnUnits (src_team_id src) (src_team_units src) out in
      let out := match src_enemy_units src with Some es => FillEnemies es out | None => out end in
      let out := FillFeatures (src_features src) (src_economy src) out in
      FillEconomy (src_economy src) out
  end.

Definition FillStaticMap (ai : option SnapSource) : StaticMap :=
  match ai with
  | None => {| width_cells := 0; height_cells := 0; metal_spots := [] |}
  | Some src => {| width_cells := 0; height_cells := 0; metal_spots := default [] (src_metal_spots src) |}
  end.

(** The mutable cache: [static_map_cache_] when [static_map_cached_]. *)
Definition StaticMap_ (ai : option SnapSource) (cache : option StaticMap) : option StaticMap * StaticMap :=
  match cache with
  | Some m => (cache, m)
  | None => let m := FillStaticMap ai in (Some m, m)
  end.

Definition Build (ai : option SnapSource) (cache : option StaticMap) : option StaticMap * StateSnapshot :=
  let out := BuildIncremental ai in
  let '(cache', m) := StaticMap_ ai cache in
  (cache', out <| static_map := Some m |>).

(** * Theorems *)

(** The non-null entries of a registry. *)
Definition present {A} (l : list (Z * option A)) : list (Z * A) :=
  omap (fun x => (fun a => (x.1, a)) <$> x.2) l.

Lemma FillOwnUnits_spec (team : Z) (units : list (Z * option UnitView)) (out : StateSnapshot) :
  FillOwnUnits team units out
  = out <| own_units ::= fun l => l ++ ((fun x => FillOwnUnit team x.1 x.2) <$> present units) |>.
Proof.
  revert out. induction units as [|[i [u|]] units IH]; intros out; cbn.
  - destruct out; cbn. by rewrite app_nil_r.
  - rewrite IH. destruct out; cbn. by rewrite <- app_assoc.
  - apply IH.
Qed.

Lemma FillEnemies_spec (enemies : list (Z * option EnemyView)) (out : StateSnapshot) :
  FillEnemies enemies out
  = out <| visible_enemies ::= fun l => l ++ ((fun x => visible_of x.1 x.2) <$>
             filter (fun x => ev_in_los x.2 = true) (present enemies)) |>
        <| radar_enemies ::= fun l => l ++ ((fun x => blip_of x.1 x.2) <$>
             filter (fun x => ev_in_los x.2 = false) (present enemies)) |>.
Proof.
  revert out. induction enemies as [|[i [u|]] es IH]; intros out; cbn -[filter].
  - destruct out; cbn. by rewrite !app_nil_r.
  - rewrite IH, !filter_cons. cbn -[filter]. destruct (ev_in_los u); destruct out; cbn -[filter]; rewrite <- app_assoc; done.
  - apply IH.
Qed.


Definition demo_source : SnapSource :=
  {| src_last_frame := 7; src_team_id := 2;
     src_team_units := [(5, Some {| uv_cdef := None; uv_pos := Build_Vector3 f0 f0 f0; uv_unit := None |}); (6, None)];
     src_enemy_units := Some [(9, Some {| ev_cdef := None; ev_in_los := false; ev_pos := Build_Vector3 f0 f0 f0; ev_health := f0 |})];
     src_features := None; src_economy := None; src_metal_spots := None |}.

