(* ===== verification/CoordinatorClient.v ===== *)
(** Client mode (grpc/CoordinatorClient.h, .cpp): the heartbeat, the bounded
    push queue that drops its oldest update, the worker that writes it out, and
    the reader of the coordinator's command channel with its reconnect backoff.

    The remote side is an input: the status of a heartbeat, whether a stream
    opens and whether a write succeeds, the batches a channel delivers and how it
    ends.  [wire] records what was written to a push stream. *)

From S2P Require Import Prelude Proto State Counters CommandQueue.

Inductive RpcStatus := RpcOk | RpcError (code : Z) (msg : string).

#[export] Instance RpcStatus_eq_dec : EqDecision RpcStatus.
Proof. solve_decision. Defined.

Definition CANCELLED : Z := 1.

Record CoordinatorClient := {
  plugin_id_ : string;
  connected_ : bool;
  ok_count_ : Z;
  err_count_ : Z;
  push_stopping_ : bool;
  push_queue_ : list StateUpdate;
  push_dropped_count_ : Z;
  push_stream_open_ : bool;
  pushed_count_ : Z;
  cmd_stopping_ : bool;
  cmd_started_ : bool;                    (** [cmd_thread_.joinable()] *)
  cmd_batches_received_ : Z;
  cmd_batches_accepted_ : Z;
  cmd_batches_rejected_invalid_ : Z;
  cmd_batches_rejected_full_ : Z;
  cmd_commands_received_ : Z;
  wire : list StateUpdate;
  errors : list string;                   (** the lines of [LogError] *)
}.

#[export] Instance CoordinatorClient_eta : Eta CoordinatorClient := fun c =>
  Build_CoordinatorClient (plugin_id_ c) (connected_ c) (ok_count_ c) (err_count_ c) (push_stopping_ c)
    (push_queue_ c) (push_dropped_count_ c) (push_stream_open_ c) (pushed_count_ c) (cmd_stopping_ c)
    (cmd_started_ c) (cmd_batches_received_ c) (cmd_batches_accepted_ c) (cmd_batches_rejected_invalid_ c)
    (cmd_batches_rejected_full_ c) (cmd_commands_received_ c) (wire c) (errors c).

Definition CoordinatorClient_new (plugin_id : string) : CoordinatorClient :=
  {| plugin_id_ := plugin_id; connected_ := false; ok_count_ := 0; err_count_ := 0;
     push_stopping_ := false; push_queue_ := []; push_dropped_count_ := 0; push_stream_open_ := false;
     pushed_count_ := 0; cmd_stopping_ := false; cmd_started_ := false; cmd_batches_received_ := 0;
     cmd_batches_accepted_ := 0; cmd_batches_rejected_invalid_ := 0; cmd_batches_rejected_full_ := 0;
     cmd_commands_received_ := 0; wire := []; errors := [] |}.

(** [n == 1 || (n & (n - 1)) == 0]. *)
Definition log_worthy (n : Z) : bool := (n =? 1) || (Z.land n (u64 (n - 1)) =? 0).

Definition SendHeartbeat (status : RpcStatus) (c : CoordinatorClient) : CoordinatorClient * bool :=
  match status with
  | RpcOk => (c <| connected_ := true |> <| ok_count_ ::= fun n => u64 (n + 1) |>, true)
  | RpcError code msg =>
      let c := c <| connected_ := false |> <| err_count_ ::= fun n => u64 (n + 1) |> in
      let errs := err_count_ c in
      (if log_worthy errs
       then c <| errors ::= fun l => l ++ ["Heartbeat failed code=" +:+ pretty code +:+ " msg=" +:+ msg
                                            +:+ " err_streak=" +:+ pretty errs] |>
       else c, false)
  end.

(** ** The push queue *)

Definition kMaxQueuedPushUpdates : nat := 256.
Arguments kMaxQueuedPushUpdates : simpl never.

Definition PushStateUpdate (update : StateUpdate) (c : CoordinatorClient) : CoordinatorClient * bool :=
  if push_stopping_ c then (c, false)
  else
    let full := (kMaxQueuedPushUpdates <=? length (push_queue_ c))%nat in
    let '(c, dropped) :=
      if full
      then (c <| push_queue_ ::= drop 1 |> <| push_dropped_count_ ::= fun n => u64 (n + 1) |>,
            u64 (push_dropped_count_ c + 1))
      else (c, 0) in
    let c := c <| push_queue_ ::= fun l => l ++ [update] |> in
    (if negb (dropped =? 0) && log_worthy dropped
     then c <| errors ::= fun l => l ++ ["PushState queue backpressure; dropped_oldest total=" +:+ pretty dropped] |>
     else c,
     dropped =? 0).

Definition ClosePushStateStream (finish : string) (c : CoordinatorClient) : CoordinatorClient :=
  if negb (push_stream_open_ c) then c
  else c <| push_stream_open_ := false |> <| errors ::= fun l => l ++ ["PushState closed " +:+ finish] |>.

(** One turn of [PushWorkerLoop] for a nonempty queue: [opens] is whether a
    stream can be opened when none is, [now] the monotonic clock, [write_ok] the
    result of the write and [finish] how the broken stream finished. *)
Definition PushWorkerTurn (opens : bool) (now : Z) (write_ok : bool) (finish : string) (c : CoordinatorClient)
    : CoordinatorClient :=
  if push_stopping_ c then ClosePushStateStream finish c
  else
    match push_queue_ c with
    | [] => c                                                   (** still waiting *)
    | update :: rest =>
        let c := c <| push_queue_ := rest |> in
        let c := if push_stream_open_ c then c else c <| push_stream_open_ := opens |> in
        if negb (push_stream_open_ c) then c                    (** no writer: the update is lost *)
        else if negb write_ok then
          let c' := ClosePushStateStream finish c in
          c' <| errors ::= fun l => l ++ ["PushState stream broken after " +:+ pretty (pushed_count_ c) +:+ " messages"] |>
        else c <| wire ::= fun l => l ++ [update <| send_monotonic_ns := now |>] |>
               <| pushed_count_ ::= fun n => u64 (n + 1) |>
    end.

(** ** The command channel *)

Definition StartCommandChannel (sink : bool) (c : CoordinatorClient) : CoordinatorClient :=
  if negb sink then c else if cmd_started_ c then c else c <| cmd_started_ := true |>.

Definition CommandBatchAdmissionStatusName (s : CommandBatchAdmissionStatus) : string :=
  match s with
  | kAccepted => "accepted"
  | kInvalidEmpty => "invalid-empty"
  | kInvalidOversized => "invalid-oversized"
  | kInvalidTarget => "invalid-target"
  | kInvalidBatchSequence => "invalid-batch-sequence"
  | kInvalidCorrelation => "invalid-correlation"
  | kQueueFull => "queue-full"
  end.

Definition admission_outcome (batch : CommandBatch) (s : CommandBatchAdmissionStatus) : string :=
  "cmd batch admission seq=" +:+ pretty (batch_seq batch)
  +:+ " correlation=" +:+ pretty (get0 (client_command_id batch))
  +:+ " ncmds=" +:+ pretty (size_of (commands batch))
  +:+ " status=" +:+ CommandBatchAdmissionStatusName s.

(** The body of the read loop. *)
Definition ReadBatch (batch : CommandBatch) (cq : CoordinatorClient * CommandQueue) : CoordinatorClient * CommandQueue :=
  let '(c, q) := cq in
  let c := c <| cmd_batches_received_ ::= fun n => u64 (n + 1) |> in
  let '(q', admission) := AdmitCommandBatch q batch (plugin_id_ c +:+ "-cmd-ch") in
  let c :=
    if accepted admission then
      c <| cmd_batches_accepted_ ::= fun n => u64 (n + 1) |>
        <| cmd_commands_received_ ::= fun n => u64 (n + accepted_command_count admission) |>
    else if decide (status admission = kQueueFull)
    then c <| cmd_batches_rejected_full_ ::= fun n => u64 (n + 1) |>
    else c <| cmd_batches_rejected_invalid_ ::= fun n => u64 (n + 1) |> in
  (if accepted admission then c
   else c <| errors ::= fun l => l ++ [admission_outcome batch (status admission)] |>, q').

(** One connection: no reader, or the batches read and how it finished; and
    whether [cmd_stopping_] was set by then. *)
Record CmdSession := {
  reader : option (list CommandBatch * RpcStatus);
  stop_after : bool;
}.

(** The sleep before a reconnect: [i] advances by 50 ms while it is below
    [backoff_ms], so it sleeps [ceil (backoff_ms / 50)] times. *)
Definition sleeps (backoff_ms : Z) : Z := (backoff_ms + 49) / 50.

(** The loop over the connections; it yields the client, the queue and the
    backoff slept before each reconnect. *)
Fixpoint CommandReaderLoop (backoff_ms : Z) (sessions : list CmdSession) (cq : CoordinatorClient * CommandQueue)
    : CoordinatorClient * CommandQueue * list Z :=
  match sessions with
  | [] => (cq, [])
  | s :: sessions' =>
      let '(cq, cancelled) :=
        match reader s with
        | None => ((cq.1 <| errors ::= fun l => l ++ ["OpenCommandChannel returned null reader"%string] |>, cq.2), false)
        | Some (batches, st) =>
            let cq := fold_left (fun cq b => ReadBatch b cq) batches cq in
            match st with
            | RpcOk => (cq, false)
            | RpcError code msg =>
                if code =? CANCELLED then (cq, true)
                else ((cq.1 <| errors ::= fun l => l ++ ["cmd channel err code=" +:+ pretty code +:+ " msg=" +:+ msg] |>,
                       cq.2), false)
            end
        end in
      if cancelled || stop_after s then (cq, [])
      else
        let '(cq', slept) := CommandReaderLoop (u32 (backoff_ms * 2) `min` 5000) sessions' cq in
        (cq', backoff_ms :: slept)
  end.

(** * Theorems *)

(** ** The push feed *)

Inductive push_op :=
  | OpPush (u : StateUpdate)
  | OpWorker (opens : bool) (now : Z) (write_ok : bool) (finish : string).

Definition push_step (c : CoordinatorClient) (op : push_op) : CoordinatorClient :=
  match op with
  | OpPush u => (PushStateUpdate u c).1
  | OpWorker opens now ok finish => PushWorkerTurn opens now ok finish c
  end.

Definition pushes (ops : list push_op) : list StateUpdate :=
  omap (fun op => match op with OpPush u => Some u | _ => None end) ops.

(** The sequence numbers of a list of updates. *)
Definition seqs (l : list StateUpdate) : list Z := upd_seq <$> l.

(** The invariant: the queue is the tail of everything pushed, and what went
    out on the wire is a selection, in order, of what came before that tail. *)
Definition push_inv (pushed : list StateUpdate) (c : CoordinatorClient) : Prop :=
  push_stopping_ c = false /\ (length (push_queue_ c) <= kMaxQueuedPushUpdates)%nat /\
  exists gone, pushed = gone ++ push_queue_ c /\ seqs (wire c) `sublist_of` seqs gone /\
    size_of (wire c) + push_dropped_count_ c <= size_of gone /\
    pushed_count_ c = size_of (wire c) /\ 0 <= push_dropped_count_ c.

Lemma push_step_inv (pushed : list StateUpdate) (c : CoordinatorClient) (op : push_op) :
  size_of pushed + 1 < 2 ^ 64 -> push_inv pushed c -> push_inv (pushed ++ pushes [op]) (push_step c op).
Proof.
  intros Hsz (Hst & Hb & gone & -> & Hsub & Hcnt & Hp & Hd). rewrite size_of_app in Hsz.
  pose proof (size_of_nonneg (push_queue_ c)). pose proof (size_of_nonneg (wire c)). unfold push_inv.
  destruct op as [u|opens now ok finish]; cbn [push_step pushes omap list_omap].
  - unfold PushStateUpdate. rewrite Hst. destruct (Nat.leb_spec kMaxQueuedPushUpdates (length (push_queue_ c))) as [Hf|Hf].
    + destruct (push_queue_ c) as [|x l] eqn:Eq; [cbn in Hf; unfold kMaxQueuedPushUpdates in Hf; lia|].
      cbn [fst snd]. destruct (negb _ && _); cbn; rewrite ?Eq; cbn; rewrite ?drop_0;
        (split_and!; [done | cbn in Hb; rewrite length_app; cbn; lia|]);
        exists (gone ++ [x]); (split_and!;
          [by rewrite <- !app_assoc
          | unfold seqs in *; rewrite fmap_app; by apply sublist_inserts_r
          | rewrite size_of_app, u64_small by lia; change (size_of [x]) with 1; lia
          | done | apply u64_range]).
    + cbn. split_and!; [done | rewrite length_app; cbn; lia|].
      exists gone. by rewrite <- app_assoc.
  - rewrite app_nil_r. unfold PushWorkerTurn. rewrite Hst. destruct (push_queue_ c) as [|x l] eqn:Eq.
    { rewrite Eq. split_and!; [done..|]. exists gone. by rewrite app_nil_r. }
    assert (Hgone : gone ++ x :: l = (gone ++ [x]) ++ l) by (by rewrite <- app_assoc).
    assert (Hlost : seqs (wire c) `sublist_of` seqs (gone ++ [x]))
      by (unfold seqs in *; rewrite fmap_app; by apply sublist_inserts_r).
    assert (Hs1 : size_of (gone ++ [x]) = size_of gone + 1) by (rewrite size_of_app; done).
    rewrite size_of_cons in Hsz. pose proof (size_of_nonneg l).
    unfold ClosePushStateStream. destruct (push_stream_open_ c) eqn:Eo; [|destruct opens];
      cbn; rewrite ?Eo; cbn; try (destruct ok; cbn; rewrite ?Eo; cbn);
      (split_and!; [done | cbn in Hb; lia|]); exists (gone ++ [x]);
      (split_and!; [exact Hgone | first [exact Hlost | idtac] | | | done]); rewrite ?size_of_app in *; rewrite ?Hp;
      change (size_of [x]) with 1; try (rewrite u64_small by lia); try done; try lia;
      try (change (size_of [_]) with 1; lia).
    all: unfold seqs in *; rewrite !fmap_app; by apply sublist_app.
Qed.


Definition demo_update (n : Z) : StateUpdate :=
  {| upd_seq := n; upd_frame := n; upd_payload := PKeepAlive; send_monotonic_ns := 0 |}.
Definition demo_pushes : list push_op :=
  OpPush (demo_update 1) :: OpWorker true 5 true "ok" :: (OpPush ∘ demo_update <$> seqZ 2 300).


(** ** Rate-limited error lines *)

Lemma pow2_log_worthy (k : Z) : 0 <= k < 64 -> log_worthy (2 ^ k) = true.
Proof.
  intros Hk. unfold log_worthy. apply orb_true_iff. right. apply Z.eqb_eq.
  assert (0 < 2 ^ k <= 2 ^ 63) by (split; [lia | apply Z.pow_le_mono_r; lia]).
  rewrite u64_small by lia. replace (2 ^ k - 1) with (Z.ones k) by (rewrite Z.ones_equiv; lia).
  rewrite Z.land_ones by lia. apply Z.mod_same. lia.
Qed.

Lemma log_worthy_pow2 (n : Z) : 0 < n < 2 ^ 64 -> log_worthy n = true -> n = 2 ^ Z.log2 n.
Proof.
  intros Hn. unfold log_worthy. rewrite orb_true_iff, !Z.eqb_eq, u64_small by lia. intros [->|Hland]; [done|].
  pose proof (Z.log2_spec n ltac:(lia)) as [Hlo Hhi]. destruct (decide (n = 2 ^ Z.log2 n)) as [|Hne]; [done|exfalso].
  assert (Hl : Z.log2 (n - 1) = Z.log2 n) by (apply Z.log2_unique; [apply Z.log2_nonneg | lia]).
  assert (Hb : Z.testbit (Z.land n (n - 1)) (Z.log2 n) = true).
  { rewrite Z.land_spec, Z.bit_log2 by lia. rewrite <- Hl. apply Z.bit_log2.
    enough (n <> 1) by lia. intros ->. done. }
  by rewrite Hland, Z.bits_0 in Hb.
Qed.

(** The heartbeats of a run, and the error line a failure may write. *)
Definition beats (sts : list RpcStatus) (c : CoordinatorClient) : CoordinatorClient :=
  fold_left (fun c st => (SendHeartbeat st c).1) sts c.

Definition failures (sts : list RpcStatus) : Z :=
  size_of (filter (fun st => st <> RpcOk) sts).

(** Heartbeat errors are logged at exactly the failure counts that are
    powers of two, so n failures write floor(log2 n) + 1 lines -- and the count
    is of all failures so far: successes in between never reset it. *)
Theorem heartbeat_log_bound (plugin_id : string) (sts : list RpcStatus) :
  size_of sts < 2 ^ 64 ->
  let c := beats sts (CoordinatorClient_new plugin_id) in
  err_count_ c = failures sts /\ ok_count_ c = size_of sts - failures sts /\
  size_of (errors c) = if failures sts =? 0 then 0 else Z.log2 (failures sts) + 1.
Proof.
  cbn zeta. unfold beats, failures. induction sts as [|st sts IH] using rev_ind; intros Hsz; [done|].
  rewrite size_of_app in Hsz. change (size_of [st]) with 1 in Hsz.
  destruct IH as (He & Ho & Hl); [lia|]. rewrite fold_left_app, filter_app, !size_of_app. cbn [fold_left].
  set (c := fold_left _ sts _) in *. set (n := size_of (filter _ sts)) in *.
  assert (Hn : 0 <= n <= size_of sts).
  { unfold n, size_of. pose proof (length_filter (fun st => st <> RpcOk) sts). lia. }
  rewrite filter_cons, filter_nil. destruct st as [|code msg].
  - rewrite decide_False by (intros H; by apply H). cbn. rewrite Ho, u64_small by lia.
    change (size_of []) with 0. rewrite Z.add_0_r. split_and!; [done|change (size_of [RpcOk]) with 1; lia|done].
  - rewrite decide_True by done. change (size_of [RpcError code msg]) with 1. cbn -[log_worthy].
    rewrite He, u64_small by lia. destruct (Z.eqb_spec (n + 1) 0); [lia|].
    destruct (log_worthy (n + 1)) eqn:Ew; cbn -[log_worthy]; (split_and!; [lia|lia|]).
    + apply log_worthy_pow2 in Ew as Hp; [|lia]. rewrite size_of_app, Hl. change (size_of [_]) with 1.
      destruct (Z.eqb_spec n 0) as [->|Hn0]; [done|].
      enough (Z.log2 (n + 1) = Z.log2 n + 1) by lia.
      pose proof (Z.log2_le_mono n (n + 1) ltac:(lia)). pose proof (Z.log2_spec n ltac:(lia)) as [_ Hhi].
      pose proof (Z.log2_nonneg n). rewrite <- Z.add_1_r in Hhi.
      assert (Z.log2 (n + 1) <= Z.log2 n + 1).
      { transitivity (Z.log2 (2 ^ (Z.log2 n + 1))); [apply Z.log2_le_mono; lia | rewrite Z.log2_pow2; lia]. }
      assert (Z.log2 (n + 1) <> Z.log2 n); [|lia]. intros Heq. rewrite Heq in Hp.
      pose proof (Z.log2_spec n ltac:(lia)). lia.
    + rewrite Hl. destruct (Z.eqb_spec n 0) as [Hz|Hn0]; [rewrite Hz in Ew; done|].
      enough (Z.log2 (n + 1) = Z.log2 n) by lia. apply Z.log2_unique; [apply Z.log2_nonneg|].
      pose proof (Z.log2_spec n ltac:(lia)) as [Hlo Hhi]. split; [lia|].
      destruct (decide (n + 1 = 2 ^ (Z.succ (Z.log2 n)))) as [Hp|]; [|lia]. exfalso.
      rewrite Hp, pow2_log_worthy in Ew; [done|]. pose proof (Z.log2_nonneg n).
      split; [lia|]. enough (Z.log2 n < 63) by lia. apply (Z.pow_lt_mono_r_iff 2); [lia..|].
      rewrite Z.pow_succ_r in Hp by lia. lia.
Qed.

Lemma heartbeat_log_bound_witness :
  let sts := [RpcError 14 "x"; RpcOk; RpcError 14 "y"; RpcError 4 "z"] in
  let c := beats sts (CoordinatorClient_new "p") in
  err_count_ c = failures sts /\ ok_count_ c = size_of sts - failures sts /\
  size_of (errors c) = if failures sts =? 0 then 0 else Z.log2 (failures sts) + 1.
Proof.
  apply (heartbeat_log_bound "p" [RpcError 14 "x"; RpcOk; RpcError 14 "y"; RpcError 4 "z"]).
  vm_compute. reflexivity.
Defined.

(** ** The command channel *)

(** The four batch counters and the command counter agree with the queue. *)
Definition channel_inv (q0 q : list QueuedCommand) (c : CoordinatorClient) : Prop :=
  cmd_batches_received_ c
    = u64 (cmd_batches_accepted_ c + cmd_batches_rejected_invalid_ c + cmd_batches_rejected_full_ c) /\
  exists added, q = q0 ++ added /\ cmd_commands_received_ c = u64 (size_of added).

Lemma u64_add_l (a b : Z) : u64 (u64 a + b) = u64 (a + b).
Proof. unfold u64. by rewrite Zplus_mod_idemp_l. Qed.
Lemma u64_add_r (a b : Z) : u64 (a + u64 b) = u64 (a + b).
Proof. unfold u64. by rewrite Zplus_mod_idemp_r. Qed.

(** A bump of one of three counters bumps their sum. *)
Lemma u64_bump (a b c : Z) :
  u64 (u64 (a + b + c) + 1) = u64 (u64 (a + 1) + b + c) /\
  u64 (u64 (a + b + c) + 1) = u64 (a + u64 (b + 1) + c) /\
  u64 (u64 (a + b + c) + 1) = u64 (a + b + u64 (c + 1)).
Proof.
  rewrite u64_add_l, u64_add_r. rewrite <- (Z.add_assoc (u64 _)), u64_add_l.
  rewrite (Z.add_comm a (u64 _)), <- (Z.add_assoc (u64 _)), u64_add_l. split_and!; f_equal; lia.
Qed.

Lemma ReadBatch_inv (q0 : list QueuedCommand) (b : CommandBatch) (c : CoordinatorClient) (q : CommandQueue) :
  channel_inv q0 (queue_ q) c -> channel_inv q0 (queue_ (ReadBatch b (c, q)).2) (ReadBatch b (c, q)).1.
Proof.
  intros (Hr & added & Hq & Hc). unfold ReadBatch. rewrite AdmitCommandBatch_cases.
  destruct (admissible b) eqn:Ea.
  - unfold TryPushBatch. destruct (u64 _ <? _).
    + unfold accepted. cbn. split; [|eauto]. rewrite Hr. apply u64_bump.
    + unfold accepted. cbn. split.
      * rewrite Hr. apply u64_bump.
      * exists (added ++ children b (plugin_id_ c +:+ "-cmd-ch")). rewrite Hq, <- app_assoc. split; [done|].
        rewrite Hc, u64_add_l, size_of_app. do 2 f_equal. unfold children, size_of.
        by rewrite length_imap_from.
  - destruct (admit_rejects q b (plugin_id_ c +:+ "-cmd-ch") Ea) as (H1 & H2 & _). cbn.
    rewrite H1. rewrite decide_False by done. cbn. split; [|eauto]. rewrite Hr. apply u64_bump.
Qed.

Lemma errors_channel_inv (q0 q : list QueuedCommand) (c : CoordinatorClient) (f : list string -> list string) :
  channel_inv q0 q c -> channel_inv q0 q (c <| errors ::= f |>).
Proof. done. Qed.

Lemma ReadBatches_inv (q0 : list QueuedCommand) (bs : list CommandBatch) (cq : CoordinatorClient * CommandQueue) :
  channel_inv q0 (queue_ cq.2) cq.1 ->
  channel_inv q0 (queue_ (fold_left (fun cq b => ReadBatch b cq) bs cq).2)
    (fold_left (fun cq b => ReadBatch b cq) bs cq).1.
Proof. revert cq. induction bs as [|b bs IH]; intros [c q] H; [done|]. cbn [fold_left]. by apply IH, ReadBatch_inv. Qed.

Lemma CommandReaderLoop_inv (q0 : list QueuedCommand) (ss : list CmdSession) (bo : Z) (cq : CoordinatorClient * CommandQueue) :
  channel_inv q0 (queue_ cq.2) cq.1 ->
  channel_inv q0 (queue_ (CommandReaderLoop bo ss cq).1.2) (CommandReaderLoop bo ss cq).1.1.
Proof.
  revert bo cq. induction ss as [|s ss IH]; intros bo cq H; [done|]. cbn [CommandReaderLoop].
  set (r := match reader s with Some _ => _ | None => _ end).
  assert (Hr : channel_inv q0 (queue_ r.1.2) r.1.1).
  { subst r. destruct (reader s) as [[bs st]|]; [|done].
    pose proof (ReadBatches_inv q0 bs cq H). destruct st as [|code msg]; [done|]. by destruct (code =? CANCELLED). }
  destruct r as [cq1 cancelled]. destruct (cancelled || stop_after s); [done|].
  specialize (IH (u32 (bo * 2) `min` 5000) cq1 Hr). by destruct (CommandReaderLoop _ ss cq1).
Qed.

Lemma CommandReaderLoop_backoff (ss : list CmdSession) (bo : Z) (cq : CoordinatorClient * CommandQueue) :
  0 < bo <= 5000 ->
  forall i b, (CommandReaderLoop bo ss cq).2 !! i = Some b -> b = (bo * 2 ^ Z.of_nat i) `min` 5000.
Proof.
  revert bo cq. induction ss as [|s ss IH]; intros bo cq Hbo i b; [done|]. cbn [CommandReaderLoop].
  destruct (match reader s with Some _ => _ | None => _ end) as [cq1 cancelled].
  destruct (cancelled || stop_after s); [done|].
  specialize (IH (u32 (bo * 2) `min` 5000) cq1). rewrite u32_small in * by lia.
  destruct (CommandReaderLoop _ ss cq1) as [cq2 slept]. cbn [snd] in *. destruct i as [|i].
  - cbn. intros [= <-]. lia.
  - cbn. intros Hl. rewrite (IH ltac:(lia) i b Hl), Nat2Z.inj_succ, Z.pow_succ_r by lia.
    assert (0 < 2 ^ Z.of_nat i) by lia. destruct (Z.le_gt_cases (bo * 2) 5000).
    + rewrite (Z.min_l (bo * 2)) by lia. f_equal. lia.
    + rewrite (Z.min_r (bo * 2)) by lia. rewrite !Z.min_r; [done | nia | nia].
Qed.

(** The command channel accounts for everything it reads: over any sequence
    of connections, every batch received is counted in exactly one of accepted,
    rejected-invalid and rejected-full, the queue has grown by exactly the
    commands of the accepted batches and the command counter shows their number;
    and the pause before the i-th reconnect is min(200 * 2^i, 5000) ms -- it is
    never reset by a connection that worked. *)
Theorem channel_accounting (plugin_id : string) (q : CommandQueue) (ss : list CmdSession) :
  let r := CommandReaderLoop 200 ss (CoordinatorClient_new plugin_id, q) in
  channel_inv (queue_ q) (queue_ r.1.2) r.1.1 /\
  (forall i b, r.2 !! i = Some b -> b = (200 * 2 ^ Z.of_nat i) `min` 5000).
Proof.
  split.
  - apply CommandReaderLoop_inv. cbn. split; [done|]. exists []. by rewrite app_nil_r.
  - apply CommandReaderLoop_backoff. lia.
Qed.
