(* ===== verification/ServiceCore.v ===== *)
(** The session core of the gRPC service (grpc/HighBarService.h, .cpp): the
    observer and AI slots, the frame counter, session ids, the loopback guard of
    [Bind], and the life cycle bind / fault-close / shutdown / destruction.

    The slots are atomics used from several threads: [Module Slots] runs their
    loads and compare-and-swaps in any order. *)

From S2P Require Import Prelude AuthToken SubscriberSlot Counters DeltaBus Config.

Record HighBarService := {
  observer_count_ : Z;
  ai_slot_taken_ : bool;
  frames_since_bind_ : Z;
  shutting_down_ : bool;
  faulted_ : bool;
  server_ : bool;                 (** [server_ != nullptr] *)
  cq_ : bool;
  cq_workers_ : nat;              (** the threads in [cq_workers_], all joinable *)
}.

#[export] Instance HighBarService_eta : Eta HighBarService := fun s =>
  Build_HighBarService (observer_count_ s) (ai_slot_taken_ s) (frames_since_bind_ s) (shutting_down_ s)
    (faulted_ s) (server_ s) (cq_ s) (cq_workers_ s).

Definition HighBarService_new : HighBarService :=
  {| observer_count_ := 0; ai_slot_taken_ := false; frames_since_bind_ := 0; shutting_down_ := false;
     faulted_ := false; server_ := false; cq_ := false; cq_workers_ := 0 |}.

Definition AdvanceFrame (s : HighBarService) : HighBarService :=
  s <| frames_since_bind_ ::= fun n => u32 (n + 1) |>.

(** ** Session ids *)

(** The fill loop: a failed call fills the rest with a fixed pattern. *)
Fixpoint fill_session (raw : list byte) (script : list (io_result (list byte))) : option (list byte) :=
  if (16 <=? length raw)%nat then Some raw
  else match script with
       | [] => None
       | Done bytes :: script' => fill_session (raw ++ take (16 - length raw) bytes) script'
       | Interrupted :: script' => fill_session raw script'
       | Failed _ :: _ => Some (raw ++ ((fun i => u8 (Z.of_nat i * 31 + 7)) <$> seq (length raw) (16 - length raw)))
       end.

Definition NewSessionId (script : list (io_result (list byte))) : option (list ascii) :=
  HexEncode <$> fill_session [] script.

(** ** The loopback guard *)

(** [host_port.rfind(':')]: what is before and after the last colon. *)
Fixpoint rsplit_colon (l : list ascii) : option (list ascii * list ascii) :=
  match l with
  | [] => None
  | c :: l' =>
      match rsplit_colon l' with
      | Some (h, p) => Some (c :: h, p)
      | None => if decide (c = ":"%char) then Some ([], l') else None
      end
  end.

Definition strip_brackets (host : list ascii) : list ascii :=
  if (2 <=? length host)%nat
     && bool_decide (head host = Some "["%char) && bool_decide (last host = Some "]"%char)
  then take (length host - 2) (drop 1 host) else host.

(** What [inet_pton] answers for a host: an IPv4 address in host order, an IPv6
    address. *)
Section Loopback.
Context (inet_pton4 inet_pton6 : string -> option Z).

Definition str (l : list ascii) : string := String.string_of_list_ascii l.

(** [Ok] when accepted, else the reason. *)
Definition IsLoopbackTcpBind (host_port : string) : unit + string :=
  match rsplit_colon (String.list_ascii_of_string host_port) with
  | None => inr "tcp_bind missing ':port' — expected host:port"%string
  | Some (h, _) =>
      let host := str (strip_brackets h) in
      if decide (host = "localhost"%string \/ host = "ip6-localhost"%string) then inl tt
      else match inet_pton4 host with
           | Some v4 => if u8 (Z.shiftr v4 24) =? 127 then inl tt
                        else inr ("tcp_bind host must be loopback (127.0.0.0/8); got " +:+ host)
           | None =>
               match inet_pton6 host with
               | Some v6 => if v6 =? 1 then inl tt
                            else inr ("tcp_bind host must be loopback (::1); got " +:+ host)
               | None => inr ("tcp_bind host is neither a valid IPv4/IPv6 literal nor 'localhost': " +:+ host)
               end
           end
  end.

(** ** Life cycle *)

(** [starts] is whether [BuildAndStart] returned a server.  The result also has
    the maximal message size handed to the builder and the address. *)
Definition Bind (endpoint : TransportEndpoint) (starts : bool) (s : HighBarService)
    : HighBarService * res (Z * string) :=
  let max_size := i32 (i32 (max_recv_mb endpoint) * 1024 * 1024) in
  let uri :=
    match transport endpoint with
    | kUds => Ok ("unix:" +:+ uds_path endpoint)
    | kTcp =>
        match IsLoopbackTcpBind (tcp_bind endpoint) with
        | inl _ => Ok (tcp_bind endpoint)
        | inr reason => Throw (runtime_error ("HighBarService::Bind: " +:+ reason
            +:+ " (set transport=uds or fix tcp_bind in data/config/grpc.json)"))
        end
    end in
  match uri with
  | Throw e => (s, Throw e)
  | Ok uri =>
      let s := s <| cq_ := true |> in
      if negb starts
      then (s, Throw (runtime_error ("HighBarService::Bind: BuildAndStart returned null (transport=" +:+ uri +:+ ")")))
      else (s <| server_ := true |> <| cq_workers_ ::= S |>, Ok (max_size, uri))
  end.

End Loopback.

Definition Shutdown (s : HighBarService) (bus : DeltaBus) : HighBarService * DeltaBus :=
  if shutting_down_ s then (s, bus)
  else (s <| shutting_down_ := true |> <| cq_workers_ := 0%nat |> <| server_ := false |> <| cq_ := false |>,
        EvictAll kCanceled bus).

Definition FaultCloseAllStreams (s : HighBarService) (bus : DeltaBus) : HighBarService * DeltaBus :=
  let bus := EvictAll kFault bus in
  if server_ s && negb (shutting_down_ s) then (s <| shutting_down_ := true |>, bus) else (s, bus).

(** The destructor; [None] is [std::terminate], which the destructor of a
    joinable [std::thread] calls. *)
Definition destroy (s : HighBarService) (bus : DeltaBus) : option DeltaBus :=
  let '(s, bus) := if shutting_down_ s then (s, bus) else Shutdown s bus in
  if decide (cq_workers_ s = 0%nat) then Some bus else None.

(** The handler of an exception that escapes a [Proceed]: only the first one is
    reported to the fault sink. *)
Definition CqWorker_catch (e : exn) (reason : string) (s : HighBarService)
    : HighBarService * option (string * string * string) :=
  if faulted_ s then (s, None)
  else (s <| faulted_ := true |>,
        Some ("handler"%string, reason,
              if decide (exn_kind e = unknown_exception) then "unknown"%string else exn_what e)).

(** * Theorems *)

Lemma rsplit_colon_None (l : list ascii) : rsplit_colon l = None <-> ":"%char ∉ l.
Proof.
  induction l as [|c l IH]; cbn; [split; [intros _; apply not_elem_of_nil|done]|]. rewrite not_elem_of_cons.
  destruct (rsplit_colon l) as [[h p]|].
  - split; [done|]. intros [_ H]. by apply IH in H.
  - case_decide as Hc.
    + split; [done|]. intros [H _]. by subst.
    + split; [|done]. intros _. split; [congruence|by apply IH].
Qed.

Lemma rsplit_colon_Some (l h p : list ascii) :
  rsplit_colon l = Some (h, p) <-> l = h ++ (":"%char :: p) /\ ":"%char ∉ p.
Proof.
  revert h p. induction l as [|c l IH]; intros h p; cbn.
  - split; [done|]. by intros [H _]; destruct h.
  - destruct (rsplit_colon l) as [[h' p']|] eqn:E.
    + destruct (proj1 (IH h' p') eq_refl) as [-> Hp']. split.
      * by intros [= <- <-].
      * intros [H1 H2]. destruct h as [|x h]; cbn in H1; injection H1 as -> H1.
        -- exfalso. apply H2. rewrite <- H1. apply elem_of_app. right. left.
        -- by injection (proj2 (IH h p) (conj H1 H2)) as -> ->.
    + apply rsplit_colon_None in E. case_decide as Hc.
      * subst c. split; [by intros [= <- <-]|]. intros [H1 H2]. destruct h as [|x h]; cbn in H1; simplify_eq; [done|].
        exfalso. apply E, elem_of_app. right. left.
      * split; [done|]. intros [H1 H2]. destruct h as [|x h]; cbn in H1; simplify_eq.
        exfalso. apply E, elem_of_app. right. left.
Qed.

(** The addresses the guard is meant to accept. *)
Definition loopback_bind (inet_pton4 inet_pton6 : string -> option Z) (host_port : string) : Prop :=
  exists h port,
    String.list_ascii_of_string host_port = h ++ (":"%char :: port) /\ (":"%char ∉ port) /\
    let host := str (strip_brackets h) in
    host = "localhost"%string \/ host = "ip6-localhost"%string \/
    (exists v4, inet_pton4 host = Some v4 /\ u8 (Z.shiftr v4 24) = 127) \/
    (inet_pton4 host = None /\ inet_pton6 host = Some 1).

Lemma IsLoopbackTcpBind_spec (pton4 pton6 : string -> option Z) (hp : string) :
  IsLoopbackTcpBind pton4 pton6 hp = inl tt <-> loopback_bind pton4 pton6 hp.
Proof.
  unfold IsLoopbackTcpBind, loopback_bind.
  destruct (rsplit_colon (String.list_ascii_of_string hp)) as [[h p]|] eqn:E.
  - assert (Hh : forall P : list ascii -> Prop,
      (exists h' port, String.list_ascii_of_string hp = h' ++ (":"%char :: port) /\ (":"%char ∉ port) /\ P h') <-> P h).
    { intros P. split.
      - intros (h' & port & H1 & H2 & H3). rewrite (proj2 (rsplit_colon_Some _ h' port) (conj H1 H2)) in E. by simplify_eq.
      - intros HP. apply rsplit_colon_Some in E as [H1 H2]. eauto. }
    rewrite Hh. clear Hh. cbn zeta. set (host := str (strip_brackets h)).
    case_decide as Hl; [tauto|].
    destruct (pton4 host) as [v4|].
    + destruct (Z.eqb_spec (u8 (Z.shiftr v4 24)) 127); naive_solver.
    + destruct (pton6 host) as [v6|]; [|naive_solver]. destruct (Z.eqb_spec v6 1); naive_solver.
  - apply rsplit_colon_None in E. split; [done|]. intros (h & p & H1 & _). exfalso. apply E. rewrite H1.
    apply elem_of_app. right. left.
Qed.

(** A TCP listener is never exposed off the host: [Bind] on a TCP endpoint
    succeeds (when the server starts) if the configured address is host:port with
    a loopback host -- the names localhost and ip6-localhost, an IPv4 literal in
    127.0.0.0/8 or the IPv6 literal ::1, bracketed or not -- and for every other
    address it throws before a completion queue or a server exists. *)
Theorem Bind_loopback_only (pton4 pton6 : string -> option Z)
    (endpoint : TransportEndpoint) (starts : bool) (s : HighBarService) :
  transport endpoint = kTcp ->
  let s' := (Bind pton4 pton6 endpoint starts s).1 in
  let r := (Bind pton4 pton6 endpoint starts s).2 in
  (loopback_bind pton4 pton6 (tcp_bind endpoint) -> starts = true ->
     (exists size, r = Ok (size, tcp_bind endpoint)) /\ server_ s' = true /\ cq_workers_ s' = S (cq_workers_ s)) /\
  (~ loopback_bind pton4 pton6 (tcp_bind endpoint) -> s' = s /\ exists w, r = Throw (runtime_error w)).
Proof.
  intros Ht. cbn zeta. rewrite <- IsLoopbackTcpBind_spec. unfold Bind. rewrite Ht.
  destruct (IsLoopbackTcpBind pton4 pton6 (tcp_bind endpoint)) as [[]|w].
  - split; [|done]. intros _ ->. cbn. eauto.
  - split; [done|]. intros _. cbn. eauto.
Qed.

Definition demo_tcp (addr : string) : TransportEndpoint :=
  default_endpoint <| transport := kTcp |> <| tcp_bind := addr |>.
(** An [inet_pton] that knows two IPv4 literals. *)
Definition demo_pton4 (h : string) : option Z :=
  if decide (h = "127.0.0.1"%string) then Some 2130706433
  else if decide (h = "192.168.0.1"%string) then Some 3232235521 else None.

Lemma Bind_loopback_only_witness :
  server_ (Bind demo_pton4 (fun _ => None) (demo_tcp "127.0.0.1:50511") true HighBarService_new).1 = true /\
  (Bind demo_pton4 (fun _ => None) (demo_tcp "192.168.0.1:50511") true HighBarService_new).1 = HighBarService_new.
Proof.
  split.
  - apply (Bind_loopback_only demo_pton4 (fun _ => None) (demo_tcp "127.0.0.1:50511") true HighBarService_new);
      [done| |done].
    apply IsLoopbackTcpBind_spec. vm_compute. reflexivity.
  - apply (Bind_loopback_only demo_pton4 (fun _ => None) (demo_tcp "192.168.0.1:50511") true HighBarService_new);
      [done|].
    rewrite <- IsLoopbackTcpBind_spec. vm_compute. discriminate.
Defined.

(** After a fault the service cannot be destroyed: closing the streams of a
    bound service marks it as shutting down without joining the completion-queue
    worker, so [Shutdown] becomes a no-op and the destructor, which skips it too,
    destroys a joinable thread -- [std::terminate].  Without a fault destruction
    always succeeds. *)
Theorem fault_then_destroy_terminates (s : HighBarService) (bus : DeltaBus) :
  shutting_down_ s = false -> server_ s = true -> cq_workers_ s <> 0%nat ->
  let '(s1, bus1) := FaultCloseAllStreams s bus in
  Shutdown s1 bus1 = (s1, bus1) /\ destroy s1 bus1 = None /\
  (exists bus2, destroy s bus = Some bus2) /\
  (exists bus3, destroy (Shutdown s bus).1 (Shutdown s bus).2 = Some bus3).
Proof.
  intros Hs Hsv Hw. unfold FaultCloseAllStreams. rewrite Hs, Hsv. cbn.
  unfold destroy, Shutdown. rewrite Hs. cbn. rewrite decide_False by done. split_and!; eauto.
Qed.

Definition demo_bound : HighBarService :=
  (Bind demo_pton4 (fun _ => None) (demo_tcp "127.0.0.1:50511") true HighBarService_new).1.

Lemma fault_then_destroy_terminates_witness :
  let '(s1, bus1) := FaultCloseAllStreams demo_bound (DeltaBus_new None) in
  Shutdown s1 bus1 = (s1, bus1) /\ destroy s1 bus1 = None /\
  (exists bus2, destroy demo_bound (DeltaBus_new None) = Some bus2) /\
  (exists bus3, destroy (Shutdown demo_bound (DeltaBus_new None)).1 (Shutdown demo_bound (DeltaBus_new None)).2 = Some bus3).
Proof. apply (fault_then_destroy_terminates demo_bound (DeltaBus_new None)); vm_compute; [reflexivity|reflexivity|discriminate]. Defined.

(** * The slots under interleaving *)

Module Slots.

Definition kObserverHardCap : Z := 4.

(** What one call is doing with the observer counter. *)
Inductive ObserverThread :=
  | OIdle | OLoaded (cur : Z) | OHolding | ORefused.

Record World := {
  observers : gmap nat ObserverThread;
  ai_holders : gset nat;
  count : Z;                            (** [observer_count_] *)
  taken : bool;                         (** [ai_slot_taken_] *)
}.

#[export] Instance World_eta : Eta World := fun w => Build_World (observers w) (ai_holders w) (count w) (taken w).

Definition World_new : World := {| observers := ∅; ai_holders := ∅; count := 0; taken := false |}.

Inductive label :=
  | LStart (t : nat)                     (** a call of [TryReserveObserverSlot] begins *)
  | LLoad (t : nat)                      (** [observer_count_.load()] and the cap check *)
  | LCas (t : nat) (spurious : bool)     (** [compare_exchange_weak] *)
  | LRelease (t : nat)                   (** [ReleaseObserverSlot] by a holder *)
  | LClaim (t : nat)                     (** [TryClaimAiSlot] *)
  | LReleaseAi (t : nat).                (** [ReleaseAiSlot] by the holder *)

(** The loop re-loads after a failed compare-and-swap: [OIdle] is the loop head. *)
Definition step (l : label) (w : World) : option World :=
  match l with
  | LStart t => match observers w !! t with
                | None | Some ORefused => Some (w <| observers ::= insert t OIdle |>)
                | _ => None
                end
  | LLoad t => match observers w !! t with
               | Some OIdle =>
                   Some (w <| observers ::= insert t (if kObserverHardCap <=? count w then ORefused else OLoaded (count w)) |>)
               | _ => None
               end
  | LCas t spurious =>
      match observers w !! t with
      | Some (OLoaded cur) =>
          if negb spurious && (count w =? cur)
          then Some (w <| observers ::= insert t OHolding |> <| count := u32 (cur + 1) |>)
          else Some (w <| observers ::= insert t OIdle |>)
      | _ => None
      end
  | LRelease t => match observers w !! t with
                  | Some OHolding => Some (w <| observers ::= delete t |> <| count ::= fun n => u32 (n - 1) |>)
                  | _ => None
                  end
  | LClaim t => if taken w then Some w
                else Some (w <| taken := true |> <| ai_holders ::= fun s => {[t]} ∪ s |>)
  | LReleaseAi t => if decide (t ∈ ai_holders w)
                    then Some (w <| taken := false |> <| ai_holders ::= fun s => s ∖ {[t]} |>) else None
  end.

Fixpoint run (ls : list label) (w : World) : option World :=
  match ls with
  | [] => Some w
  | l :: ls' => match step l w with Some w' => run ls' w' | None => None end
  end.

Definition holding (x : nat * ObserverThread) : Prop := x.2 = OHolding.
#[export] Instance holding_dec x : Decision (holding x).
Proof. unfold holding. destruct x as [? []]; cbn; (left; done) || (right; done). Defined.

Definition holders (w : World) : gmap nat ObserverThread := filter holding (observers w).

Record slots_inv (w : World) : Prop := {
  inv_count : count w = Z.of_nat (size (holders w));
  inv_cap : count w <= kObserverHardCap;
  inv_loaded : forall t cur, observers w !! t = Some (OLoaded cur) -> 0 <= cur < kObserverHardCap;
  inv_ai : ai_holders w = ∅ /\ taken w = false \/ (exists t, ai_holders w = {[t]}) /\ taken w = true;
}.

(** A thread that changes between non-holding states. *)
Lemma holders_insert_other (w : World) (t : nat) (x : ObserverThread) :
  x <> OHolding -> observers w !! t <> Some OHolding ->
  filter holding (<[t := x]> (observers w)) = filter holding (observers w).
Proof.
  intros Hx Ht. rewrite map_filter_insert_False by done.
  apply map_filter_delete_not. intros y Hy. unfold holding. cbn. congruence.
Qed.

Lemma holders_insert_new (w : World) (t : nat) :
  observers w !! t <> Some OHolding ->
  size (filter holding (<[t := OHolding]> (observers w))) = S (size (filter holding (observers w))).
Proof.
  intros Ht. rewrite map_filter_insert_True by done. apply map_size_insert_None.
  apply map_lookup_filter_None. destruct (observers w !! t) as [x|] eqn:E; [right|by left].
  intros y [= <-]. unfold holding. cbn. congruence.
Qed.

Lemma holders_delete (w : World) (t : nat) :
  observers w !! t = Some OHolding ->
  size (filter holding (observers w)) = S (size (filter holding (delete t (observers w)))).
Proof.
  intros Ht. rewrite map_filter_delete.
  rewrite map_size_delete, (proj2 (map_lookup_filter_Some holding (observers w) t OHolding) (conj Ht eq_refl)).
  assert (size (filter holding (observers w)) <> 0%nat); [|lia].
  intros H0%map_size_empty_inv. assert (filter holding (observers w) !! t = Some OHolding) as Hl
    by (by apply map_lookup_filter_Some). by rewrite H0, lookup_empty in Hl.
Qed.

Lemma step_inv (l : label) (w w' : World) : step l w = Some w' -> slots_inv w -> slots_inv w'.
Proof.
  intros Hs [Hc Hcap Hl Hai]. unfold kObserverHardCap, holders in *. destruct l as [t|t|t sp|t|t|t]; cbn in Hs.
  - destruct (observers w !! t) as [[]|] eqn:E; simplify_eq; (split; unfold holders, kObserverHardCap; cbn;
      [by rewrite holders_insert_other by (done || congruence) | done
      | intros t' cur; rewrite lookup_insert; case_decide; [done|apply Hl] | done]).
  - destruct (observers w !! t) as [[]|] eqn:E; simplify_eq.
    split; unfold holders, kObserverHardCap; cbn; [rewrite holders_insert_other; [done|by case_match|congruence] | done | | done].
    intros t' cur. rewrite lookup_insert. case_decide; [|apply Hl].
    unfold kObserverHardCap. destruct (Z.leb_spec 4 (count w)); [done|]. intros [= <-]. lia.
  - destruct (observers w !! t) as [[|cur| |]|] eqn:E; try done.
    destruct (negb sp && (count w =? cur)) eqn:Ec; simplify_eq.
    + bools. subst cur. pose proof (Hl _ _ E). split; unfold holders, kObserverHardCap; cbn; [| | |done].
      * rewrite holders_insert_new by congruence. rewrite u32_small by lia. lia.
      * rewrite u32_small by lia. lia.
      * intros t' cur. rewrite lookup_insert. case_decide; [done|apply Hl].
    + split; unfold holders, kObserverHardCap; cbn; [by rewrite holders_insert_other by (done || congruence) | done | | done].
      intros t' cur'. rewrite lookup_insert. case_decide; [done|apply Hl].
  - destruct (observers w !! t) as [[]|] eqn:E; simplify_eq. apply holders_delete in E as Hsz.
    split; unfold holders, kObserverHardCap; cbn; [| | |done].
    + rewrite u32_small by lia. rewrite Hc, Hsz. lia.
    + rewrite u32_small by lia. lia.
    + intros t' cur. rewrite lookup_delete. case_decide; [done|apply Hl].
  - destruct (taken w) eqn:E; simplify_eq; [by split; rewrite ?E|]. split; cbn; try done.
    destruct Hai as [[-> _]|[_ ?]]; [|congruence]. right. split; [|done]. exists t. set_solver.
  - destruct (decide (t ∈ ai_holders w)) as [Hin|]; simplify_eq. split; cbn; try done. left. split; [|done].
    destruct Hai as [[H0 _]|[[t' H0] _]]; rewrite H0 in Hin |- *; [by apply elem_of_empty in Hin|].
    apply elem_of_singleton in Hin as ->. apply difference_diag_L.
Qed.

(** C11. The session limits hold under any interleaving: whatever the worker
    threads' loads, compare-and-swaps (spurious failures included), releases and
    AI-slot claims, at most four observers hold a slot, the counter always equals
    the number of holders, and at most one call holds the AI slot, which is taken
    exactly when one does. *)
Theorem session_limits (ls : list label) (w : World) :
  run ls World_new = Some w ->
  count w = Z.of_nat (size (holders w)) /\ (size (holders w) <= 4)%nat /\
  (size (ai_holders w) <= 1)%nat /\ (taken w = true <-> size (ai_holders w) = 1%nat).
Proof.
  intros Hr. assert (Hi : slots_inv w).
  { assert (H0 : slots_inv World_new) by (split; cbn; try done; by left).
    revert H0 Hr. generalize World_new. induction ls as [|l ls IH]; intros w0 H0; cbn; [by intros [= <-]|].
    destruct (step l w0) as [w1|] eqn:E; [|done]. apply IH. by eapply step_inv. }
  destruct Hi as [Hc Hcap _ Hai]. unfold kObserverHardCap in Hcap. split; [done|]. split; [lia|].
  destruct Hai as [[-> ->]|[[t ->] ->]]; rewrite ?size_empty, ?size_singleton; split; (lia || split; done).
Qed.

Definition demo_labels : list label :=
  [LStart 1; LStart 2; LLoad 1; LLoad 2; LCas 1 false; LCas 2 false; LLoad 2; LCas 2 true; LLoad 2; LCas 2 false;
   LClaim 7; LClaim 8; LRelease 1].
Definition demo_slots : World := default World_new (run demo_labels World_new).

Lemma session_limits_witness :
  count demo_slots = Z.of_nat (size (holders demo_slots)) /\ (size (holders demo_slots) <= 4)%nat /\
  (size (ai_holders demo_slots) <= 1)%nat /\ (taken demo_slots = true <-> size (ai_holders demo_slots) = 1%nat).
Proof. apply (session_limits demo_labels). vm_compute. reflexivity. Defined.

End Slots.
