(* ===== verification/AdminApply.v ===== *)
(** The application of an accepted admin action to the engine
    (module/GrpcGatewayModule.cpp, [ApplyAdminAction] and its helpers): the
    pause, the global speed by autohost datagrams or Lua, the cheat switch,
    resource grants, unit spawns and transfers. *)

From S2P Require Import Prelude Float32 Proto AuthToken AdminController CircuitAI CommandDispatch.

(** ** Global speed *)

Definition GlobalSpeedLuaMessage (speed : float) : string := "highbar_admin_speed:" +:+ fmt_float speed.

Definition GlobalSpeedAutohostCommands (speed : float) : list string :=
  let s := fmt_float speed in
  ["/setmaxspeed " +:+ s; "/setminspeed " +:+ s; "/setmaxspeed " +:+ s].

Definition is_space (c : ascii) : bool :=
  let n := nat_of_ascii c in ((9 <=? n) && (n <=? 13) || (n =? 32))%nat.

Fixpoint skip_spaces (l : list ascii) : list ascii :=
  match l with c :: l' => if is_space c then skip_spaces l' else l | [] => [] end.

(** All the characters are digits: the number. *)
Fixpoint digits_value (acc : Z) (l : list ascii) : option Z :=
  match l with
  | [] => Some acc
  | c :: l' =>
      let d := byte_of c - 48 in
      if (0 <=? d) && (d <=? 9) then digits_value (10 * acc + d) l' else None
  end.

(** [std::strtol(s, &end, 10)] with [end] at the end of a string that has at
    least one digit.  A value out of [long]'s range sets [errno]; it is out of
    the port range too. *)
Definition strtol_all (s : string) : option Z :=
  match skip_spaces (String.list_ascii_of_string s) with
  | [] => None
  | c :: l' =>
      if decide (c = "-"%char) then match l' with [] => None | _ => Z.opp <$> digits_value 0 l' end
      else if decide (c = "+"%char) then match l' with [] => None | _ => digits_value 0 l' end
      else digits_value 0 (c :: l')
  end.

(** What the sockets answer, and the environment variable. *)
Record AutohostIo := {
  port_env : option string;
  socket_ok : bool;
  sent_ok : string -> bool;            (** the whole datagram was sent *)
}.

(** The datagrams sent, with their port, and the result. *)
Definition SendAutohostCommandDatagrams (io : AutohostIo) (cmds : list string) : list (Z * string) * bool :=
  match port_env io with
  | None => ([], false)
  | Some s =>
      if decide (s = ""%string) then ([], false)
      else match strtol_all s with
           | None => ([], false)
           | Some port =>
               if (port <=? 0) || (65535 <? port) then ([], false)
               else if negb (socket_ok io) then ([], false)
               else (pair port <$> cmds, forallb (sent_ok io) cmds)
           end
  end.

(** ** The switch *)

(** The calls beyond those of the command dispatcher. *)
Inductive AdminCall :=
  | AEngine (c : EngineCall)
  | ADatagram (port : Z) (text : string)
  | AGiveUnits (unit_id team : Z).

(** The calls, the cheats flag afterwards, and the value returned or the
    exception that escapes. *)
Record AdminOutcome := { acalls : list AdminCall; acheats : bool; applied : res bool }.

(** The host beyond [Engine]. *)
Record AdminHost := {
  host_engine : Engine;
  host_team : Z;
  host_io : AutohostIo;
  CallUI_ : string -> string;                 (** what the Lua handlers answer *)
  CallRules_ : string -> string;
  GetOrRegTeamUnit : Z -> bool;               (** the spawned unit could be registered *)
}.

Section Apply.
Context (h : AdminHost).
Let eng := host_engine h.

Definition refuse (flag : bool) : AdminOutcome := {| acalls := []; acheats := flag; applied := Ok false |}.

Definition ApplyGlobalSpeed (speed : float) (flag : bool) : AdminOutcome :=
  let '(sent, ok) := SendAutohostCommandDatagrams (host_io h) (GlobalSpeedAutohostCommands speed) in
  let sent := (fun x => ADatagram x.1 x.2) <$> sent in
  if ok then {| acalls := sent; acheats := flag; applied := Ok true |}
  else if negb (GetLua eng) then {| acalls := sent; acheats := flag; applied := Ok false |}
  else
    let message := GlobalSpeedLuaMessage speed in
    let size := i32 (Z.of_nat (String.length message)) in
    let ui := AEngine (CallUI message size) in
    if decide (CallUI_ h message = "ok"%string)
    then {| acalls := sent ++ [ui]; acheats := flag; applied := Ok true |}
    else {| acalls := sent ++ [ui; AEngine (CallRules message size)]; acheats := flag;
            applied := Ok (bool_decide (CallRules_ h message = "ok"%string)) |}.

(** [was_enabled = IsEnabled(); if (!was_enabled) SetEnabled(true)], the body, and
    [SetEnabled(false)] if this call had to enable; the [catch] of the source
    disables (again) and refuses. *)
Definition with_enabled (flag : bool) (body : list AdminCall * res unit) : AdminOutcome :=
  let on := AEngine (SetEnabled true) in
  let off := AEngine (SetEnabled false) in
  match IsEnabled_ eng flag with
  | Throw _ => refuse flag
  | Ok true => {| acalls := body.1; acheats := flag; applied := Ok (match body.2 with Ok _ => true | Throw _ => false end) |}
  | Ok false =>
      let '(r, flag1) := SetEnabled_ eng true flag in
      match r with
      | Throw _ | Ok false => {| acalls := [on]; acheats := flag1; applied := Ok false |}
      | Ok true =>
          let '(r2, flag2) := SetEnabled_ eng false flag1 in
          match body.2, r2 with
          | Ok _, Ok _ => {| acalls := on :: body.1 ++ [off]; acheats := flag2; applied := Ok true |}
          | Ok _, Throw _ =>
              {| acalls := on :: body.1 ++ [off; off]; acheats := (SetEnabled_ eng false flag2).2; applied := Ok false |}
          | Throw _, _ => {| acalls := on :: body.1 ++ [off]; acheats := flag2; applied := Ok false |}
          end
      end
  end.

Definition ApplyResourceGrant (g : ResourceGrantAction) (flag : bool) : AdminOutcome :=
  if negb (GetCallback eng) then refuse flag
  else
    let name := if grant_resource_id g =? 0 then "Metal"%string else "Energy"%string in
    if negb (GetResourceByName eng name) then refuse flag
    else if grant_team_id g =? host_team h then
      if negb (GetCheats eng) then refuse flag
      else with_enabled flag
        ([AEngine (GiveMeResource name (grant_amount g))], GiveMeResource_ eng name (grant_amount g))
    else if negb (GetEconomy eng) then refuse flag
    else {| acalls := [AEngine (SendResource name (grant_amount g) (grant_team_id g))]; acheats := flag; applied := Ok true |}.

(** The part after the spawn: the unit is handed to its team. *)
Definition give_spawned (s : UnitSpawnAction) (unit_id : Z) : list AdminCall * bool :=
  if unit_id <=? 0 then ([], false)
  else if spawn_team_id s =? host_team h then ([], true)
  else if negb (GetOrRegTeamUnit h unit_id) then ([], false)
  else ([AGiveUnits unit_id (spawn_team_id s)], true).

Definition ApplyUnitSpawn (s : UnitSpawnAction) (flag : bool) : AdminOutcome :=
  if negb (GetCheats eng) then refuse flag
  else match GetCircuitDefSafe (eng_ai eng) (spawn_unit_def_id s) with
       | None => refuse flag
       | Some def =>
           if negb (GetDef eng def) then refuse flag
           else
             let spawned := GiveMeUnit_ eng def (spawn_position s) in
             let call := AEngine (GiveMeUnit def (spawn_position s)) in
             let o := with_enabled flag ([call], match spawned with Ok _ => Ok tt | Throw e => Throw e end) in
             (** the hand-over happens after cheats are off again *)
             match applied o with
             | Ok true =>
               let '(calls, ok) := give_spawned s (match spawned with Ok u => u | Throw _ => 0 end) in
               {| acalls := acalls o ++ calls; acheats := acheats o; applied := Ok ok |}
             | _ => o
             end
       end.

Definition ApplyUnitTransfer (t : UnitTransferAction) (flag : bool) : AdminOutcome :=
  match GetTeamUnit (eng_ai eng) (transfer_unit_id t) with
  | None => refuse flag
  | Some u =>
      if isDead u then refuse flag
      else {| acalls := [AGiveUnits (transfer_unit_id t) (transfer_to_team_id t)]; acheats := flag; applied := Ok true |}
  end.

Definition ApplyAdminAction (a : AdminAction) (flag : bool) : AdminOutcome :=
  match action a with
  | kPause paused =>
      if negb (GetGame eng) then refuse flag
      else {| acalls := [AEngine (SetPause paused "via highbar admin")]; acheats := flag; applied := Ok true |}
  | kGlobalSpeed speed => ApplyGlobalSpeed speed flag
  | kCheatPolicy enabled =>
      if negb (GetCheats eng) then refuse flag
      else let '(r, flag') := SetEnabled_ eng enabled flag in
           {| acalls := [AEngine (SetEnabled enabled)]; acheats := flag';
              applied := r |}
  | kResourceGrant g => ApplyResourceGrant g flag
  | kUnitSpawn s => ApplyUnitSpawn s flag
  | kUnitTransfer t => ApplyUnitTransfer t flag
  | kLifecycle _ => {| acalls := []; acheats := flag; applied := Ok true |}
  | ACTION_NOT_SET => refuse flag
  end.

(** * Theorems *)

Lemma with_enabled_flag (flag : bool) (body : list AdminCall * res unit) :
  cheats_laws eng -> acheats (with_enabled flag body) = flag.
Proof.
  intros [H1 H2 H3 H4]. unfold with_enabled. destruct (IsEnabled_ eng flag) as [[]|e] eqn:Ei; [done|apply H1 in Ei|done].
  destruct (SetEnabled_ eng true flag) as [[[]|e] flag1] eqn:Es; cbn; [|by eapply H3..].
  destruct (SetEnabled_ eng false flag1) as [r2 flag2] eqn:E2.
  specialize (H4 flag1). rewrite E2 in H4. cbn in H4. subst r2. apply H2 in E2. by destruct body as [? []]; cbn; rewrite E2, Ei.
Qed.

Lemma with_enabled_applied (flag : bool) (body : list AdminCall * res unit) :
  applied (with_enabled flag body) = Ok true -> forall c, c ∈ body.1 -> c ∈ acalls (with_enabled flag body).
Proof.
  unfold with_enabled. destruct (IsEnabled_ eng flag) as [[]|e]; [by intros _| |done].
  destruct (SetEnabled_ eng true flag) as [[[]|e] flag1]; [|done..].
  destruct (SetEnabled_ eng false flag1) as [r2 flag2]. destruct body as [calls [u|e]]; [|done].
  destruct r2; [|done]. intros _ c Hc. cbn in *. right. apply elem_of_app. by left.
Qed.

(** The effect an applied action must have had on the game. *)
Definition has_effect (a : AdminAction) (calls : list AdminCall) : Prop :=
  match action a with
  | kPause paused => AEngine (SetPause paused "via highbar admin") ∈ calls
  | kGlobalSpeed speed =>
      (exists port, forall t, t ∈ GlobalSpeedAutohostCommands speed -> ADatagram port t ∈ calls) \/
      (exists n, AEngine (CallUI (GlobalSpeedLuaMessage speed) n) ∈ calls)
  | kCheatPolicy b => AEngine (SetEnabled b) ∈ calls
  | kResourceGrant g => exists name,
      AEngine (GiveMeResource name (grant_amount g)) ∈ calls \/
      AEngine (SendResource name (grant_amount g) (grant_team_id g)) ∈ calls
  | kUnitSpawn s => exists def, AEngine (GiveMeUnit def (spawn_position s)) ∈ calls /\
      (spawn_team_id s <> host_team h -> exists u, AGiveUnits u (spawn_team_id s) ∈ calls)
  | kUnitTransfer t => AGiveUnits (transfer_unit_id t) (transfer_to_team_id t) ∈ calls
  | kLifecycle _ | ACTION_NOT_SET => False
  end.

Lemma ApplyUnitSpawn_effect (s : UnitSpawnAction) (flag : bool) :
  applied (ApplyUnitSpawn s flag) = Ok true ->
  exists def, AEngine (GiveMeUnit def (spawn_position s)) ∈ acalls (ApplyUnitSpawn s flag) /\
    (spawn_team_id s <> host_team h -> exists u, AGiveUnits u (spawn_team_id s) ∈ acalls (ApplyUnitSpawn s flag)).
Proof.
  unfold ApplyUnitSpawn. destruct (GetCheats eng); [|done]. destruct (GetCircuitDefSafe _ _) as [def|]; [|done].
  destruct (GetDef eng def); [|done]. cbn [negb].
  destruct (applied (with_enabled _ _)) as [[]|] eqn:Ea; [|congruence..].
  unfold give_spawned. intros Hap. pose proof (with_enabled_applied _ _ Ea) as Hin. cbn [fst] in Hin. exists def.
  destruct (_ <=? 0); [done|]. destruct (Z.eqb_spec (spawn_team_id s) (host_team h)) as [He|He]; cbn in Hap |- *.
  - rewrite app_nil_r. split; [apply Hin; left|done].
  - destruct (GetOrRegTeamUnit h _); [|done]. cbn. split; [apply elem_of_app; left; apply Hin; left|].
    intros _. eexists. apply elem_of_app. right. left.
Qed.

Lemma ApplyResourceGrant_effect (g : ResourceGrantAction) (flag : bool) :
  applied (ApplyResourceGrant g flag) = Ok true ->
  exists name, AEngine (GiveMeResource name (grant_amount g)) ∈ acalls (ApplyResourceGrant g flag) \/
      AEngine (SendResource name (grant_amount g) (grant_team_id g)) ∈ acalls (ApplyResourceGrant g flag).
Proof.
  unfold ApplyResourceGrant. destruct (GetCallback eng); [|done]. destruct (GetResourceByName _ _); [|done]. cbn [negb].
  destruct (grant_team_id g =? host_team h).
  - destruct (GetCheats eng); [|done]. cbn [negb]. intros Ha. eexists. left.
    apply (with_enabled_applied _ _ Ha). left.
  - destruct (GetEconomy eng); [|done]. intros _. eexists. right. left.
Qed.


End Apply.

Definition demo_host : AdminHost :=
  {| host_engine := demo_engine; host_team := 0;
     host_io := {| port_env := Some "8452"%string; socket_ok := true; sent_ok := fun _ => true |};
     CallUI_ := fun _ => ""%string; CallRules_ := fun _ => ""%string; GetOrRegTeamUnit := fun _ => true |}.
Definition demo_spawn : AdminAction := demo_pause <| action := kUnitSpawn {|
  spawn_team_id := 3; spawn_unit_def_id := 1; spawn_position := Build_Vector3 f0 f0 f0; spawn_facing := 0 |} |>.

