(* ===== verification/Gateway.v ===== *)
(** The gateway module (module/GrpcGatewayModule.h, .cpp): the health state
    machine, the event hooks, the frame tick and the publication of the state
    feed, the drains of callbacks, admin actions and commands.

    Everything here runs on the engine thread, except the worker entry points
    [RequestDisable], [InvokeCallback] and [QueueAdminAction], which only touch
    mutex-guarded fields; an operation is therefore one step of [Gateway].  Code
    that can throw is in the state-and-exception monad [GM]: a throw keeps the
    state changes made before it.

    [feed] and [emitted] are histories kept for the statements: the updates that
    entered the ring, and the events appended to the delta.  The counters object
    is shared in the code; each component here holds the fields it writes. *)

From Stdlib Require Import SpecFloat.
From S2P Require Import Prelude Float32 Proto State Counters RingBuffer SubscriberSlot DeltaBus SnapshotTick.
From S2P Require Import OrderStateTracker CommandQueue CircuitAI CommandDispatch Config AuthToken AdminController GrpcLog SnapshotBuilder.
From S2P Require Import CoordinatorClient ServiceCore AdminApply.

Inductive GatewayState := Healthy | Disabling | Disabled.
#[export] Instance GatewayState_eq_dec : EqDecision GatewayState.
Proof. solve_decision. Defined.

Record PendingFault := { pf_subsystem : string; pf_reason : string; pf_detail : string }.

(** ** Callbacks *)

Inductive CallbackParam :=
  | kIntValue (v : Z) | kFloatValue (v : float) | kStringValue (v : string) | kVectorValue (v : Vector3)
  | VALUE_NOT_SET.

Record CallbackRequest := { request_id : Z; callback_id : Z; params : list CallbackParam }.

Inductive CallbackResult := int_array_value (values : list Z) | string_value (v : string).

Record CallbackResponse := {
  rsp_request_id : Z;
  rsp_success : bool;
  rsp_result : option CallbackResult;
  rsp_error_message : string;
}.

Definition CallbackResponse_default : CallbackResponse :=
  {| rsp_request_id := 0; rsp_success := false; rsp_result := None; rsp_error_message := "" |}.

Inductive CallbackRpcStatus := CbOk | CbUnavailable | CbFailedPrecondition | CbInternal.

Record CallbackInvocationResult := {
  cb_status : CallbackRpcStatus;
  cb_error_detail : string;
  cb_response : CallbackResponse;
}.

Definition CALLBACK_UNITDEF_GET_NAME : Z := 40.
Definition CALLBACK_GET_UNIT_DEFS : Z := 47.

Definition MakeCallbackRpcError (req : CallbackRequest) (status : CallbackRpcStatus) (detail : string)
    : CallbackInvocationResult :=
  {| cb_status := status; cb_error_detail := detail;
     cb_response := {| rsp_request_id := request_id req; rsp_success := false; rsp_result := None; rsp_error_message := "" |} |}.

Definition MakeCallbackFailure (req : CallbackRequest) (detail : string) : CallbackInvocationResult :=
  {| cb_status := CbOk; cb_error_detail := "";
     cb_response := {| rsp_request_id := request_id req; rsp_success := false; rsp_result := None;
                       rsp_error_message := detail |} |}.

Definition MakeCallbackSuccess (req : CallbackRequest) (r : CallbackResult) : CallbackInvocationResult :=
  {| cb_status := CbOk; cb_error_detail := "";
     cb_response := {| rsp_request_id := request_id req; rsp_success := true; rsp_result := Some r;
                       rsp_error_message := "" |} |}.

Definition ExtractSingleIntParam (req : CallbackRequest) : Z + string :=
  match params req with
  | [kIntValue v] => inl v
  | [_] => inr "expected int param"%string
  | _ => inr "expected exactly 1 int param"%string
  end.

(** ** The module *)

(** The side effects of a fault, in the order they happen. *)
Inductive FaultEffect :=
  | FLog (line : string)
  | FCloseStreams
  | FUnlink (path : string)
  | FHealth (path body : string).

Record PendingAdminAction := { pa_promise : nat; pa_caller : AdminCaller; pa_action : AdminAction }.

Record Gateway := {
  state_ : GatewayState;
  pending_fault_ : option PendingFault;
  current_frame_delta_ : list DeltaEvent;
  seq_ : Z;
  frames_since_last_flush_ : Z;
  frame_counter_ : Z;
  current_frame_ : Z;
  ring_ : RingBuffer;
  delta_bus_ : DeltaBus;
  command_queue_ : CommandQueue;
  order_state_tracker_ : OrderStateTracker;
  admin_controller_ : AdminController;
  snapshot_tick_ : SnapshotTick;
  gw_counters : Counters;
  service_ : HighBarService;
  service_bound_ : bool;
  deferred_service_bind_endpoint_ : option TransportEndpoint;
  coordinator_client_ : option CoordinatorClient;
  coordinator_endpoint_ : string;
  coordinator_plugin_id_ : string;
  coordinator_command_channel_started_ : bool;
  coordinator_initial_snapshot_sent_ : bool;
  pending_callbacks_ : list (nat * CallbackRequest);
  callback_results : gmap nat CallbackInvocationResult;      (** the kept promises *)
  pending_admin_actions_ : list PendingAdminAction;
  admin_results : gmap nat AdminActionResult;
  next_promise : nat;
  socket_path_ : string;
  token_file_path_ : string;
  health_file_path_ : string;
  fault_effects : list FaultEffect;
  engine_calls : list AdminCall;
  cheats : bool;                                              (** the engine's cheats flag *)
  feed : list StateUpdate;
  emitted : list DeltaEvent;
}.

#[export] Instance Gateway_eta : Eta Gateway := fun g =>
  Build_Gateway (state_ g) (pending_fault_ g) (current_frame_delta_ g) (seq_ g) (frames_since_last_flush_ g)
    (frame_counter_ g) (current_frame_ g) (ring_ g) (delta_bus_ g) (command_queue_ g) (order_state_tracker_ g)
    (admin_controller_ g) (snapshot_tick_ g) (gw_counters g) (service_ g) (service_bound_ g)
    (deferred_service_bind_endpoint_ g) (coordinator_client_ g) (coordinator_endpoint_ g)
    (coordinator_plugin_id_ g) (coordinator_command_channel_started_ g) (coordinator_initial_snapshot_sent_ g)
    (pending_callbacks_ g) (callback_results g) (pending_admin_actions_ g) (admin_results g) (next_promise g)
    (socket_path_ g) (token_file_path_ g) (health_file_path_ g) (fault_effects g) (engine_calls g) (cheats g)
    (feed g) (emitted g).

(** What the engine and the system answer during one tick or hook.  The AI
    pointer itself is never null: the constructor dereferences it. *)
Record Tick := {
  tk_host : AdminHost;
  tk_source : SnapSource;
  tk_snapshot_throws : option exn;             (** an exception while the snapshot is built *)
  tk_dispatch_throws : nat -> option exn;      (** the i-th dispatch of the tick throws *)
  tk_hook_throws : option exn;                 (** an allocation of a hook throws *)
  tk_econ : option EconomyTickEvent;           (** [None]: no economy manager *)
  tk_t0 : Z; tk_t1 : Z;                        (** [NowMicros] around a flush *)
  tk_ns : Z;                                   (** the monotonic clock *)
  tk_heartbeat : RpcStatus;
  tk_starts : bool;                            (** a deferred [Bind] gets a server *)
  tk_def_ids : list Z;
  tk_def_name : Z -> res string;
  tk_pid : Z;
}.

Definition tk_engine (tk : Tick) : Engine := host_engine (tk_host tk).
Definition tk_ai (tk : Tick) : CircuitAI := eng_ai (tk_engine tk).
Definition tk_last_frame (tk : Tick) : Z := src_last_frame (tk_source tk).
Definition wire_frame (tk : Tick) : Z := FrameForWire (Some (tk_last_frame tk)).

(** ** State and exceptions *)

Definition GM (A : Type) : Type := Gateway -> Gateway * res A.
#[export] Instance GM_ret : MRet GM := fun A a g => (g, Ok a).
#[export] Instance GM_bind : MBind GM := fun A B f m g =>
  match m g with (g', Ok a) => f a g' | (g', Throw e) => (g', Throw e) end.

Definition modify (f : Gateway -> Gateway) : GM unit := fun g => (f g, Ok tt).
Definition get_gw : GM Gateway := fun g => (g, Ok g).
Definition lift {A} (r : res A) : GM A := fun g => (g, r).
Definition when (b : bool) (m : GM unit) : GM unit := if b then m else mret tt.

(** [try { body } catch (...) { handler }]. *)
Definition try_ (body : GM unit) (handler : exn -> Gateway -> Gateway) : GM unit := fun g =>
  match body g with (g', Ok _) => (g', Ok tt) | (g', Throw e) => (handler e g', Ok tt) end.

(** ** Faults *)

Definition TransitionToDisabled (tk : Tick) (subsystem reason detail : string) (g : Gateway) : Gateway :=
  if decide (state_ g = Healthy) then
    let frame := wire_frame tk in
    let effect e g := g <| fault_effects ::= fun l => l ++ [e] |> in
    let g := g <| state_ := Disabling |> in
    let g := effect (FLog (LogFault (tk_pid tk) subsystem reason detail frame)) g in
    let '(svc, bus) := FaultCloseAllStreams (service_ g) (delta_bus_ g) in
    let g := effect FCloseStreams (g <| service_ := svc |> <| delta_bus_ := bus |>) in
    let g := if decide (socket_path_ g = ""%string) then g else effect (FUnlink (socket_path_ g)) g in
    let g := if decide (token_file_path_ g = ""%string) then g else effect (FUnlink (token_file_path_ g)) g in
    let g := effect (FHealth (health_file_path_ g) (health_body (tk_pid tk) false subsystem reason detail frame)) g in
    g <| state_ := Disabled |>
  else g.

Definition RequestDisable (subsystem reason detail : string) (g : Gateway) : Gateway :=
  if negb (bool_decide (state_ g = Healthy)) then g
  else match pending_fault_ g with
       | Some _ => g
       | None => g <| pending_fault_ := Some {| pf_subsystem := subsystem; pf_reason := reason; pf_detail := detail |} |>
       end.

Definition DrainPendingFault (tk : Tick) (g : Gateway) : Gateway :=
  let fault := pending_fault_ g in
  let g := g <| pending_fault_ := None |> in
  match fault with
  | Some f => TransitionToDisabled tk (pf_subsystem f) (pf_reason f) (pf_detail f) g
  | None => g
  end.

(** ** Publication *)

Section Feed.
Context (SerializeToString : StateUpdate -> res (option string)).
Context (inet_pton4 inet_pton6 : string -> option Z).

(** Serialize, push into the ring, publish on the bus, hand to the coordinator:
    the common tail of [FlushDelta], [EmitKeepAlive] and [BroadcastSnapshot]. *)
Definition publish_update (u : StateUpdate) : GM unit :=
  r ← lift (SerializeToString u);
  match r with
  | None => lift (Throw (runtime_error "SerializeToString failed"))
  | Some frozen =>
      g ← get_gw;
      ring ← lift (Push (ring_ g) (seq_ g) (Some frozen));
      _ ← modify (fun g => g <| ring_ := ring |> <| feed ::= fun l => l ++ [u] |>);
      _ ← modify (fun g => g <| delta_bus_ ::= Publish frozen |>);
      modify (fun g => g <| coordinator_client_ ::= fmap (fun c => (PushStateUpdate u c).1) |>)
  end.

Definition next_seq : GM Z :=
  _ ← modify (fun g => g <| seq_ ::= fun n => u64 (n + 1) |>);
  g ← get_gw; mret (seq_ g).

Definition record_flush (tk : Tick) : GM unit :=
  modify (fun g => g <| gw_counters ::= RecordFrameFlushUs (u64 (tk_t1 tk - tk_t0 tk)) |>).

Definition serialization_fault (tk : Tick) (detail : string) (e : exn) : Gateway -> Gateway :=
  TransitionToDisabled tk "serialization" (ReasonCodeFor (Some e)) detail.

Definition FlushDelta (tk : Tick) : GM unit :=
  try_ (s ← next_seq;
        g ← get_gw;
        let update := {| upd_seq := s; upd_frame := wire_frame tk;
                         upd_payload := PDelta (current_frame_delta_ g); send_monotonic_ns := 0 |} in
        _ ← modify (fun g => g <| current_frame_delta_ := [] |>);
        _ ← publish_update update;
        record_flush tk)
       (serialization_fault tk "flush_delta_threw").

Definition EmitKeepAlive (tk : Tick) : GM unit :=
  try_ (s ← next_seq;
        publish_update {| upd_seq := s; upd_frame := wire_frame tk; upd_payload := PKeepAlive; send_monotonic_ns := 0 |})
       (serialization_fault tk "keepalive_threw").

Definition BroadcastSnapshot (tk : Tick) (cadence : Z) : GM unit :=
  try_ (s ← next_seq;
        snap ← lift (match tk_snapshot_throws tk with
                     | Some e => Throw e
                     | None => Ok (BuildIncremental (Some (tk_source tk)))
                     end);
        let snap := snap <| effective_cadence_frames := cadence |> <| frame_number := wire_frame tk |> in
        _ ← publish_update {| upd_seq := s; upd_frame := wire_frame tk; upd_payload := PSnapshot snap;
                              send_monotonic_ns := tk_ns tk |};
        record_flush tk)
       (serialization_fault tk "broadcast_snapshot_threw").

Definition gw_HeadSeq (g : Gateway) : Z := HeadSeq (ring_ g).

(** ** Client mode *)

Definition EnsureLocalServiceBound (tk : Tick) : GM unit :=
  g ← get_gw;
  match deferred_service_bind_endpoint_ g with
  | Some endpoint =>
      when (negb (service_bound_ g))
        (let '(svc, r) := Bind inet_pton4 inet_pton6 endpoint (tk_starts tk) (service_ g) in
         _ ← modify (fun g => g <| service_ := svc |>);
         _ ← lift r;
         modify (fun g => g <| service_bound_ := true |>))
  | None => mret tt
  end.

Definition EnsureCoordinatorClientStarted : GM unit :=
  g ← get_gw;
  when (negb (has (coordinator_client_ g)) && negb (bool_decide (coordinator_endpoint_ g = ""%string)))
    (_ ← modify (fun g => g <| coordinator_client_ := Some (CoordinatorClient_new (coordinator_plugin_id_ g)) |>);
     when (negb (coordinator_command_channel_started_ g))
       (modify (fun g => g <| coordinator_client_ ::= fmap (StartCommandChannel true) |>
                           <| coordinator_command_channel_started_ := true |>))).

Definition MaybeEmitInitialCoordinatorSnapshot (tk : Tick) : GM unit :=
  g ← get_gw;
  when (negb (coordinator_initial_snapshot_sent_ g || bool_decide (coordinator_endpoint_ g = ""%string)))
  (when (negb (tk_last_frame tk <? 0))
  (when (negb (bool_decide (teamUnits (tk_ai tk) = ∅)))
    (_ ← EnsureCoordinatorClientStarted;
     g ← get_gw;
     when (has (coordinator_client_ g))
       (_ ← modify (fun g => g <| coordinator_initial_snapshot_sent_ := true |>);
        BroadcastSnapshot tk 1)))).

(** ** Hooks *)

(** The hooks; a pointer argument is the unit's id, or null. *)
Inductive hook :=
  | UnitCreated (unit builder : option Z)
  | UnitFinished (unit : option Z)
  | UnitIdle (unit : option Z)
  | UnitDamaged
  | OnUnitDamagedFull (unit attacker : option Z) (damage : float) (dir : Vector3) (weaponDefId : Z) (paralyzer : bool)
  | UnitDestroyed (unit attacker : option Z)
  | UnitGiven (unit : option Z) (oldTeam newTeam : Z)
  | UnitCaptured (unit : option Z) (oldTeam newTeam : Z)
  | OnUnitMoveFailed (unit : option Z)
  | OnEnemyEnterLOS (enemy : option Z)
  | OnEnemyLeaveLOS (enemy : option Z)
  | OnEnemyEnterRadar (enemy : option Z)
  | OnEnemyLeaveRadar (enemy : option Z)
  | OnEnemyDamaged (enemy : option Z)
  | OnEnemyDestroyed (enemy : option Z)
  | OnFeatureCreated (feature_id def_id : Z) (pos : Vector3)
  | OnFeatureDestroyed (feature_id : Z)
  | OnEconomyTick.

(** [current_frame_delta_.add_events()]. *)
Definition add_event (e : DeltaEvent) (g : Gateway) : Gateway :=
  g <| current_frame_delta_ ::= fun l => l ++ [e] |> <| emitted ::= fun l => l ++ [e] |>.

Definition append (tk : Tick) (e : DeltaEvent) : GM unit :=
  _ ← lift (match tk_hook_throws tk with Some x => Throw x | None => Ok tt end);
  modify (add_event e).

Definition on_present (p : option Z) (body : Z -> GM unit) : GM unit :=
  match p with None => mret tt | Some id => body id end.

Definition mark (f : Z -> OrderStateTracker -> OrderStateTracker) : GM unit :=
  modify (fun g => g <| order_state_tracker_ ::= f (current_frame_ g) |>).

Definition hook_body (tk : Tick) (h : hook) : GM unit :=
  match h with
  | UnitCreated unit builder => on_present unit (fun id =>
      _ ← append tk (unit_created (i32 id) (match builder with Some b => i32 b | None => 0 end));
      MaybeEmitInitialCoordinatorSnapshot tk)
  | UnitFinished unit => on_present unit (fun id =>
      _ ← append tk (unit_finished (i32 id)); MaybeEmitInitialCoordinatorSnapshot tk)
  | UnitIdle unit => on_present unit (fun id =>
      _ ← mark (fun f => MarkIdle (u32 id) f); append tk (unit_idle (i32 id)))
  | UnitDamaged => mret tt
  | OnUnitDamagedFull unit attacker damage dir weaponDefId paralyzer => on_present unit (fun id =>
      append tk (unit_damaged (i32 id) (i32 <$> attacker) (if flt f0 damage then damage else f0) dir weaponDefId paralyzer))
  | UnitDestroyed unit attacker => on_present unit (fun id =>
      _ ← mark (fun f => MarkUnitRemoved (u32 id) f); append tk (unit_destroyed (i32 id) (i32 <$> attacker)))
  | UnitGiven unit oldTeam newTeam => on_present unit (fun id =>
      _ ← mark (fun f => MarkUnitRemoved (u32 id) f); append tk (unit_given (i32 id) oldTeam newTeam))
  | UnitCaptured unit oldTeam newTeam => on_present unit (fun id =>
      _ ← mark (fun f => MarkUnitRemoved (u32 id) f); append tk (unit_captured (i32 id) oldTeam newTeam))
  | OnUnitMoveFailed unit => on_present unit (fun id => append tk (unit_move_failed (i32 id)))
  | OnEnemyEnterLOS e => on_present e (fun id => append tk (enemy_enter_los (i32 id)))
  | OnEnemyLeaveLOS e => on_present e (fun id => append tk (enemy_leave_los (i32 id)))
  | OnEnemyEnterRadar e => on_present e (fun id => append tk (enemy_enter_radar (i32 id)))
  | OnEnemyLeaveRadar e => on_present e (fun id => append tk (enemy_leave_radar (i32 id)))
  | OnEnemyDamaged e => on_present e (fun id => append tk (enemy_damaged (i32 id)))
  | OnEnemyDestroyed e => on_present e (fun id => append tk (enemy_destroyed (i32 id)))
  | OnFeatureCreated id def pos => append tk (feature_created (u32 id) (u32 def) pos)
  | OnFeatureDestroyed id => append tk (feature_destroyed (u32 id))
  | OnEconomyTick => append tk (economy_tick (tk_econ tk))
  end.

(** [HB_HOOK_GUARD]; the no-op [UnitDamaged] has no guard and no effect. *)
Definition run_hook (tk : Tick) (h : hook) : GM unit := fun g =>
  if negb (bool_decide (state_ g = Healthy)) then (g, Ok tt)
  else try_ (hook_body tk h)
         (fun e => TransitionToDisabled tk "callback" (ReasonCodeFor (Some e)) "engine_callback_threw") g.

(** ** Callbacks *)

(** The switch over one pending request. *)
Definition resolve_callback (tk : Tick) (req : CallbackRequest) : CallbackInvocationResult :=
  if callback_id req =? CALLBACK_GET_UNIT_DEFS then
    if negb (bool_decide (length (params req) = 0%nat))
    then MakeCallbackFailure req "CALLBACK_GET_UNIT_DEFS does not take params"
    else MakeCallbackSuccess req (int_array_value (i32 <$> tk_def_ids tk))
  else if callback_id req =? CALLBACK_UNITDEF_GET_NAME then
    match ExtractSingleIntParam req with
    | inr error => MakeCallbackFailure req error
    | inl def_id =>
        let unknown := MakeCallbackFailure req ("unknown unit_def_id=" +:+ pretty def_id) in
        match GetCircuitDefSafe (tk_ai tk) def_id with
        | None => unknown
        | Some cdef =>
            if negb (GetDef (tk_engine tk) cdef) then unknown
            else match tk_def_name tk def_id with
                 | Ok name => MakeCallbackSuccess req (string_value name)
                 | Throw e =>
                     MakeCallbackRpcError req CbInternal
                       (if decide (exn_kind e = unknown_exception) then "unknown exception in DrainCallbackQueue"
                        else exn_what e)
                 end
        end
    end
  else MakeCallbackFailure req ("unsupported callback_id=" +:+ pretty (callback_id req)).

Definition DrainCallbackQueue (tk : Tick) : GM unit :=
  modify (fun g =>
    fold_left (fun g e => g <| callback_results ::= insert e.1 (resolve_callback tk e.2) |>)
      (pending_callbacks_ g) (g <| pending_callbacks_ := [] |>)).

(** The worker's half of [InvokeCallback]: the request is queued, or refused. *)
Definition InvokeCallback_begin (req : CallbackRequest) (g : Gateway) : Gateway * (nat + string) :=
  if negb (bool_decide (state_ g = Healthy)) then (g, inr "gateway is not healthy"%string)
  else (g <| pending_callbacks_ ::= fun l => l ++ [(next_promise g, req)] |> <| next_promise ::= S |>,
        inl (next_promise g)).

(** After [wait_for]: the status, the detail and the response (meaningful only
    when the status is Ok). *)
Definition InvokeCallback_end (promise : nat) (g : Gateway) : CallbackRpcStatus * string * CallbackResponse :=
  match callback_results g !! promise with
  | None => (CbInternal, "InvokeCallback timed out waiting for engine-thread response"%string, CallbackResponse_default)
  | Some r => (cb_status r, cb_error_detail r,
               match cb_status r with CbOk => cb_response r | _ => CallbackResponse_default end)
  end.

(** ** Admin actions *)

Definition not_dispatched (a : AdminAction) (code : AdminIssueCode) (detail : string) (g : Gateway) : AdminActionResult :=
  {| res_action_seq := action_seq a; res_client_action_id := client_action_id a;
     res_status := ADMIN_ACTION_NOT_DISPATCHED;
     res_issues := [{| adm_code := code; adm_field_path := "action"; adm_detail := detail;
                       adm_retry_hint := RETRY_AFTER_NEXT_SNAPSHOT |}];
     res_lease := None; res_frame := current_frame_ g; res_state_seq := gw_HeadSeq g; res_dry_run := false |}.

(** The worker's half of [QueueAdminAction]: the answer, or the promise waited for. *)
Definition QueueAdminAction_begin (caller : AdminCaller) (a : AdminAction) (g : Gateway)
    : Gateway * (nat + AdminActionResult) :=
  if negb (bool_decide (state_ g = Healthy))
  then (g, inr (not_dispatched a ADMIN_ENGINE_NOT_READY "gateway engine thread is unavailable" g))
  else (g <| pending_admin_actions_ ::= fun l =>
              l ++ [{| pa_promise := next_promise g; pa_caller := caller; pa_action := a |}] |>
          <| next_promise ::= S |>, inl (next_promise g)).

Definition QueueAdminAction_end (a : AdminAction) (promise : nat) (g : Gateway) : AdminActionResult :=
  match admin_results g !! promise with
  | Some r => r
  | None => not_dispatched a ADMIN_ISSUE_ACTION_NOT_DISPATCHED "timed out waiting for engine-thread admin execution" g
  end.

Definition execute_admin (e : PendingAdminAction) : GM AdminActionResult := fun g =>
  let '(c, r) := Execute (pa_caller e) (pa_action e) (current_frame_ g) (gw_HeadSeq g) (admin_controller_ g) in
  (g <| admin_controller_ := c |>, Ok r).

(** An accepted action: applied to the engine and executed, or not dispatched. *)
Definition apply_accepted (tk : Tick) (e : PendingAdminAction) (result : AdminActionResult) : GM AdminActionResult :=
  g ← get_gw;
  let o := ApplyAdminAction (tk_host tk) (pa_action e) (cheats g) in
  _ ← modify (fun g => g <| engine_calls ::= fun l => l ++ acalls o |> <| cheats := acheats o |>);
  ok ← lift (applied o);
  if ok : bool then execute_admin e
  else mret (result <| res_status := ADMIN_ACTION_NOT_DISPATCHED |>
                    <| res_issues ::= fun l => l ++ [{|
                         adm_code := ADMIN_ISSUE_ACTION_NOT_DISPATCHED; adm_field_path := "action";
                         adm_detail := "engine rejected admin action dispatch";
                         adm_retry_hint := RETRY_AFTER_NEXT_SNAPSHOT |}] |>).

Definition drain_admin_entry (tk : Tick) (e : PendingAdminAction) : GM unit :=
  g ← get_gw;
  let result := (Validate (pa_caller e) (pa_action e) (current_frame_ g) (gw_HeadSeq g) (admin_controller_ g))
                  <| res_dry_run := false |> in
  result ← (if decide (res_status result = ADMIN_ACTION_ACCEPTED) then apply_accepted tk e result else mret result);
  modify (fun g => g <| admin_results ::= insert (pa_promise e) result |>).

Fixpoint drain_admin_entries (tk : Tick) (l : list PendingAdminAction) : GM unit :=
  match l with
  | [] => mret tt
  | e :: l' => _ ← drain_admin_entry tk e; drain_admin_entries tk l'
  end.

Definition DrainAdminActionQueue (tk : Tick) : GM unit :=
  g ← get_gw;
  _ ← modify (fun g => g <| pending_admin_actions_ := [] |>);
  drain_admin_entries tk (pending_admin_actions_ g).

(** ** Commands *)

Definition CommandKind (cmd : AICommand) : string :=
  match cmd with
  | kAttack _ => "attack" | kBuildUnit _ => "build_unit" | kMoveUnit _ => "move_unit"
  | kPatrol _ => "patrol" | kFight _ => "fight" | kStop _ => "stop" | _ => "other"
  end.

Definition dispatch_issue (code : CommandIssueCode) (path detail : string) (hint : RetryHint) : CommandIssue :=
  {| issue_code := code; issue_command_index := 0; issue_field_path := path; issue_detail := detail;
     issue_retry_hint := hint; issue_batch_seq := 0; issue_client_command_id := 0 |}.

(** Why a target cannot be dispatched to, or [None] when a unit was found. *)
Definition resolve_target (tk : Tick) (target_id : Z) : option (CommandDispatchStatus * option CommandIssue) :=
  if 0 <? target_id then
    match GetTeamUnit (tk_ai tk) target_id with
    | None => Some (COMMAND_DISPATCH_SKIPPED_TARGET_MISSING,
                    Some (dispatch_issue MISSING_TARGET_UNIT "target_unit_id" "target unit missing at dispatch time"
                            RETRY_AFTER_NEXT_SNAPSHOT))
    | Some u =>
        if isDead u
        then Some (COMMAND_DISPATCH_SKIPPED_TARGET_DEAD,
                   Some (dispatch_issue TARGET_UNIT_DEAD "target_unit_id" "target unit dead at dispatch time"
                           RETRY_AFTER_NEXT_SNAPSHOT))
        else None
    end
  else if bool_decide (teamUnits (tk_ai tk) = ∅) then Some (COMMAND_DISPATCH_SKIPPED_ENGINE_NOT_READY, None)
  else None.

Definition event_of (g : Gateway) (e : QueuedCommand) (st : CommandDispatchStatus) (i : option CommandIssue) : DeltaEvent :=
  command_dispatch {| disp_batch_seq := q_batch_seq e; disp_client_command_id := q_client_command_id e;
    disp_command_index := q_command_index e; disp_target_unit_id := u32 (q_authoritative_target_unit_id e);
    disp_status := st; disp_issue := i; disp_frame := current_frame_ g |}.

Definition what_text (e : exn) : string :=
  if decide (exn_kind e = unknown_exception) then "unknown" else exn_what e.

(** The body of the loop for the [n]-th entry; the flag is whether the loop goes
    on.  The event is appended before its status is known, so a throwing dispatch
    leaves it without one. *)
Definition dispatch_entry (tk : Tick) (n : nat) (e : QueuedCommand) (g : Gateway) : Gateway * bool :=
  let cmd := q_command e in
  let emit st i g := add_event (event_of g e st i) g in
  match EffectiveDispatchTargetUnitId (q_authoritative_target_unit_id e) cmd with
  | None =>
      (emit COMMAND_DISPATCH_SKIPPED_UNSUPPORTED_ARM
         (Some (dispatch_issue COMMAND_ARM_NOT_DISPATCHED "commands" "command arm is not dispatched"
                  RETRY_WITH_FRESH_CAPABILITIES)) g, true)
  | Some target_id =>
      match resolve_target tk target_id with
      | Some (st, i) => (emit st i g, true)
      | None =>
          match tk_dispatch_throws tk n with
          | Some ex =>
              (TransitionToDisabled tk "dispatch" (ReasonCodeFor (Some ex))
                 ("dispatch_threw kind=" +:+ CommandKind cmd +:+ " target=" +:+ pretty target_id
                  +:+ " what=" +:+ what_text ex)
                 (emit COMMAND_DISPATCH_STATUS_UNSPECIFIED None g), false)
          | None =>
              let o := DispatchCommand (tk_engine tk) true true cmd (cheats g) in
              let g := g <| engine_calls ::= fun l => l ++ (AEngine <$> calls o) |> <| cheats := cheats_flag o |> in
              if returned o then
                let g := emit COMMAND_DISPATCH_APPLIED None g in
                (if 0 <? target_id
                 then g <| order_state_tracker_ ::= MarkAccepted (u32 target_id) (q_batch_seq e)
                             (q_client_command_id e) (current_frame_ g) (CommandKind cmd) |>
                 else g, true)
              else
                (emit COMMAND_DISPATCH_SKIPPED_UNSUPPORTED_ARM
                   (Some (dispatch_issue COMMAND_ARM_NOT_DISPATCHED "commands" "command arm was skipped by dispatcher"
                            RETRY_WITH_FRESH_CAPABILITIES)) g, true)
          end
      end
  end.

Fixpoint dispatch_entries (tk : Tick) (n : nat) (l : list QueuedCommand) (g : Gateway) : Gateway :=
  match l with
  | [] => g
  | e :: l' =>
      let '(g', go_on) := dispatch_entry tk n e g in
      if go_on then dispatch_entries tk (S n) l' g' else g'
  end.

Definition DrainCommandQueue (tk : Tick) : GM unit :=
  modify (fun g =>
    let '(q, batch, _) := Drain (Some []) 0 (command_queue_ g) in
    dispatch_entries tk 0 (default [] batch) (g <| command_queue_ := q |>)).

(** ** The frame tick *)

Definition kHeartbeatEveryNFrames : Z := 30.
Definition kEconomyEveryNFrames : Z := 30.
Definition kKeepAliveFrames : Z := 30.

Definition gw_AdvanceFrame : GM unit :=
  modify (fun g =>
    let svc := AdvanceFrame (service_ g) in
    g <| service_ := svc |> <| gw_counters ::= fun c => c <| frames_since_bind := frames_since_bind_ svc |> |>).

Definition tick_heartbeat (tk : Tick) : GM unit :=
  g ← get_gw;
  when (has (coordinator_client_ g) && (frame_counter_ g `mod` kHeartbeatEveryNFrames =? 0))
    (modify (fun g => g <| coordinator_client_ ::= fmap (fun c => (SendHeartbeat (tk_heartbeat tk) c).1) |>)).

Definition tick_snapshot (tk : Tick) : GM unit :=
  _ ← modify (fun g => g <| current_frame_ := wire_frame tk |>);
  g ← get_gw;
  let '(t, pump) := Pump (wire_frame tk) (Z.of_nat (size (teamUnits (tk_ai tk)))) (snapshot_tick_ g) in
  _ ← modify (fun g => g <| snapshot_tick_ := t |>);
  when (emit pump) (BroadcastSnapshot tk (stamped_cadence pump)).

Definition tick_economy (tk : Tick) : GM unit :=
  g ← get_gw;
  let frames := frames_since_bind (gw_counters g) in
  when ((0 <? frames) && (frames `mod` kEconomyEveryNFrames =? 0)) (run_hook tk OnEconomyTick).

Definition tick_flush (tk : Tick) : GM unit :=
  g ← get_gw;
  if bool_decide (current_frame_delta_ g = []) then
    _ ← modify (fun g => g <| frames_since_last_flush_ ::= fun n => u32 (n + 1) |>);
    g ← get_gw;
    when (kKeepAliveFrames <=? frames_since_last_flush_ g)
      (_ ← EmitKeepAlive tk; modify (fun g => g <| frames_since_last_flush_ := 0 |>))
  else
    _ ← FlushDelta tk;
    modify (fun g => g <| frames_since_last_flush_ := 0 |>).

(** The tick up to the flush. *)
Definition tick_front (tk : Tick) : GM unit :=
  _ ← gw_AdvanceFrame;
  _ ← modify (fun g => g <| frame_counter_ ::= fun n => u32 (n + 1) |>);
  let live := 0 <=? tk_last_frame tk in
  _ ← when live (EnsureLocalServiceBound tk);
  _ ← when live EnsureCoordinatorClientStarted;
  _ ← MaybeEmitInitialCoordinatorSnapshot tk;
  _ ← tick_heartbeat tk;
  _ ← DrainCallbackQueue tk;
  _ ← modify (fun g => g <| admin_controller_ ::= ExpireLeases (current_frame_ g) |>);
  _ ← DrainAdminActionQueue tk;
  _ ← DrainCommandQueue tk;
  _ ← tick_snapshot tk;
  tick_economy tk.

Definition tick_body (tk : Tick) : GM unit := _ ← tick_front tk; tick_flush tk.

Definition OnFrameTick (tk : Tick) (g : Gateway) : Gateway :=
  let g := DrainPendingFault tk g in
  if negb (bool_decide (state_ g = Healthy)) then g
  else (try_ (tick_body tk)
          (fun e => TransitionToDisabled tk "callback" (ReasonCodeFor (Some e)) "frame_tick_threw") g).1.

End Feed.

(** * Construction *)

Definition ResolveTokenPath (getenv locate : string -> option string) (template_path : string) : string :=
  match getenv "HIGHBAR_TOKEN_PATH"%string with
  | Some (String _ _ as env_path) => env_path
  | _ =>
      let marker := String.list_ascii_of_string "$writeDir/" in
      let t := String.list_ascii_of_string template_path in
      if decide (take (length marker) t = marker) then
        match locate (String.string_of_list_ascii (drop (length marker) t)) with
        | Some path => path
        | None => default "/tmp"%string (getenv "TMPDIR"%string) +:+ "/highbar.token"
        end
      else template_path
  end.

(** The token path up to and including its last slash, and the file's name. *)
Fixpoint dir_of (l : list ascii) : list ascii :=
  match l with
  | [] => []
  | c :: l' => match dir_of l' with
               | [] => if decide (c = "/"%char) then [c] else []
               | d => c :: d
               end
  end.

Definition health_path (token_path : string) : string :=
  String.string_of_list_ascii (dir_of (String.list_ascii_of_string token_path)) +:+ "highbar.health".

Fixpoint leading_digits (acc : Z) (l : list ascii) : Z :=
  match l with
  | [] => acc
  | c :: l' => let d := byte_of c - 48 in
               if (0 <=? d) && (d <=? 9) then leading_digits (10 * acc + d) l' else acc
  end.

Definition atoi (s : string) : Z :=
  match skip_spaces (String.list_ascii_of_string s) with
  | [] => 0
  | c :: l' =>
      i32 (if decide (c = "-"%char) then - leading_digits 0 l'
           else if decide (c = "+"%char) then leading_digits 0 l' else leading_digits 0 (c :: l'))
  end.

Definition CoordinatorOwnerSkirmishAiId (getenv : string -> option string) : Z :=
  match getenv "HIGHBAR_COORDINATOR_OWNER_SKIRMISH_AI_ID"%string with Some s => atoi s | None => 0 end.

(** The admin controller's default settings. *)
Definition Settings_default : Settings :=
  {| enabled := true; cheats_allowed := false; unit_transfer_enabled := true; headless_fixture := false;
     lease_ttl_frames := 90; min_speed := S754_finite false 13421773 (-27); max_speed := float_of_Z 10;
     map_min_x := f0; map_min_z := f0; map_max_x := f0; map_max_z := f0; valid_team_ids := [];
     valid_resource_ids := []; valid_unit_def_ids := []; live_unit_owners := ∅ |}.

(** What the constructor reads. *)
Record CtorEnv := {
  ce_config : res TransportEndpoint;             (** [LoadTransportConfig(ai)] *)
  ce_getenv : string -> option string;
  ce_gameid : string;
  ce_locate : string -> option string;           (** [utils::LocatePath] *)
  ce_generate : string -> res unit;              (** [AuthToken::Generate] at a path *)
  ce_starts : bool;
  ce_skirmish_id : Z;
  ce_short_sha : string;
  ce_cheats : bool;
}.

Definition Gateway_construct (inet_pton4 inet_pton6 : string -> option Z) (env : CtorEnv) : res Gateway :=
  endpoint ← ce_config env;
  let tick := Configure {| cfg_cadence_frames := snapshot_cadence_frames (snapshot_tick endpoint);
                           cfg_max_units := snapshot_max_units (snapshot_tick endpoint) |} SnapshotTick_default in
  let '(socket, endpoint) := match transport endpoint with
                             | kUds => ResolveUdsPath (ce_getenv env) (ce_gameid env) endpoint
                             | kTcp => (""%string, endpoint)
                             end in
  let token_path := ResolveTokenPath (ce_getenv env) (ce_locate env) (ai_token_path endpoint) in
  _ ← ce_generate env token_path;
  ring ← RingBuffer.New (Z.to_nat (ring_size endpoint));
  let coordinator := ce_getenv env "HIGHBAR_COORDINATOR"%string in
  let '(svc, bound) :=
    match coordinator with
    | Some _ => (HighBarService_new, Ok tt)
    | None => let '(svc, r) := Bind inet_pton4 inet_pton6 endpoint (ce_starts env) HighBarService_new in
              (svc, match r with Ok _ => Ok tt | Throw e => Throw e end)
    end in
  _ ← bound;
  let owner := bool_decide (ce_skirmish_id env = CoordinatorOwnerSkirmishAiId (ce_getenv env)) in
  Ok {| state_ := Healthy; pending_fault_ := None; current_frame_delta_ := []; seq_ := 0;
        frames_since_last_flush_ := 0; frame_counter_ := 0; current_frame_ := 0; ring_ := ring;
        delta_bus_ := DeltaBus_new (Some Counters_new);
        command_queue_ := CommandQueue_new (Some Counters_new) 1024;
        order_state_tracker_ := ∅; admin_controller_ := AdminController_new Settings_default;
        snapshot_tick_ := tick; gw_counters := Counters_new; service_ := svc;
        service_bound_ := negb (has coordinator);
        deferred_service_bind_endpoint_ := if has coordinator then Some endpoint else None;
        coordinator_client_ := None;
        coordinator_endpoint_ := match coordinator with Some e => if owner then e else ""%string | None => ""%string end;
        coordinator_plugin_id_ := match coordinator with
                                  | Some _ => if owner then "highbar-" +:+ ce_short_sha env else ""%string
                                  | None => ""%string end;
        coordinator_command_channel_started_ := false; coordinator_initial_snapshot_sent_ := false;
        pending_callbacks_ := []; callback_results := ∅; pending_admin_actions_ := []; admin_results := ∅;
        next_promise := 0; socket_path_ := socket; token_file_path_ := token_path;
        health_file_path_ := health_path token_path; fault_effects := []; engine_calls := [];
        cheats := ce_cheats env; feed := []; emitted := [] |}.

(** * Destruction *)

(** The destructor shuts the service down and removes the token file; the
    service is then destroyed as a member.  [None] is [std::terminate]. *)
Definition Gateway_destroy (token : AuthToken) (g : Gateway) (fs : gmap string (list ascii))
    : option (gmap string (list ascii)) :=
  let '(svc, bus) := Shutdown (service_ g) (delta_bus_ g) in
  let fs := Unlink token fs in
  if destroy svc bus is Some _ then Some fs else None.
