(* ===== verification/GatewaySpec.v ===== *)
(** What the gateway module guarantees over any sequence of operations: the
    fault protocol, the integrity of the published feed, the keep-alive bound,
    and the accounting of dispatched commands.

    The proofs run each monadic body through [triple], a Hoare triple with one
    postcondition for a normal end and one for an escaping exception. *)

From S2P Require Import Prelude Float32 Proto State Counters RingBuffer SubscriberSlot DeltaBus SnapshotTick.
From S2P Require Import OrderStateTracker CommandQueue CircuitAI CommandValidator CommandDispatch Config AuthToken AdminController GrpcLog.
From S2P Require Import SnapshotBuilder CoordinatorClient ServiceCore AdminApply Gateway.

(** * Triples *)

Definition triple {A} (P Q : Gateway -> Prop) (m : GM A) : Prop :=
  forall g, P g -> match m g with (g', Ok _) => P g' | (g', Throw _) => Q g' end.

Section Triples.
Context (P Q : Gateway -> Prop).

Lemma triple_ret {A} (a : A) : triple P Q (mret a).
Proof. by intros g. Qed.
Lemma triple_get : triple P Q get_gw.
Proof. by intros g. Qed.
Lemma triple_bind {A B} (m : GM A) (f : A -> GM B) :
  triple P Q m -> (forall a, triple P Q (f a)) -> triple P Q (m ≫= f).
Proof.
  intros Hm Hf g Hg. unfold mbind, GM_bind. specialize (Hm g Hg). destruct (m g) as [g' [a|e]]; [by apply Hf|done].
Qed.
Lemma triple_modify (f : Gateway -> Gateway) : (forall g, P g -> P (f g)) -> triple P Q (modify f).
Proof. intros Hf g Hg. by apply Hf. Qed.
Lemma triple_lift {A} (r : res A) : (forall g, P g -> Q g) -> triple P Q (lift r).
Proof. intros HQ g Hg. unfold lift. destruct r; auto. Qed.
Lemma triple_when (b : bool) (m : GM unit) : triple P Q m -> triple P Q (when b m).
Proof. destruct b; [done|]. intros _. apply triple_ret. Qed.
Lemma triple_try (m : GM unit) (h : exn -> Gateway -> Gateway) :
  triple P Q m -> (forall e g, Q g -> P (h e g)) -> triple P Q (try_ m h).
Proof. intros Hm Hh g Hg. unfold try_. specialize (Hm g Hg). destruct (m g) as [g' [a|e]]; auto. Qed.

End Triples.

#[export] Hint Resolve triple_ret triple_get triple_bind triple_modify triple_lift triple_when : gw.

(** Decompose a body into its primitive steps. *)
Ltac steps :=
  repeat match goal with
  | |- forall _, triple _ _ _ => intros ?
  | |- triple _ _ (mret _) => apply triple_ret
  | |- triple _ _ get_gw => apply triple_get
  | |- triple _ _ (_ ≫= _) => apply triple_bind
  | |- triple _ _ (when _ _) => apply triple_when
  | |- triple _ _ (modify _) => apply triple_modify
  | |- triple _ _ (lift _) => apply triple_lift
  end.

(** * Operations *)

Inductive gw_op :=
  | OpTick (tk : Tick)
  | OpHook (tk : Tick) (h : hook)
  | OpRequestDisable (subsystem reason detail : string)
  | OpSubmit (cmds : list QueuedCommand)
  | OpSubscribe
  | OpUnsubscribe (slot : nat)
  | OpRequestSnapshot
  | OpInvokeCallback (req : CallbackRequest)
  | OpQueueAdmin (caller : AdminCaller) (a : AdminAction).

Section Ops.
Context (SerializeToString : StateUpdate -> res (option string)).
Context (inet_pton4 inet_pton6 : string -> option Z).

Definition gw_step (g : Gateway) (op : gw_op) : Gateway :=
  match op with
  | OpTick tk => OnFrameTick SerializeToString inet_pton4 inet_pton6 tk g
  | OpHook tk h => (run_hook SerializeToString tk h g).1
  | OpRequestDisable s r d => RequestDisable s r d g
  | OpSubmit cmds => g <| command_queue_ := (TryPushBatch cmds (command_queue_ g)).1 |>
  | OpSubscribe => g <| delta_bus_ := (Subscribe (delta_bus_ g)).1 |>
  | OpUnsubscribe slot => g <| delta_bus_ ::= Unsubscribe (Some slot) |>
  | OpRequestSnapshot => g <| snapshot_tick_ ::= RequestPending |>
  | OpInvokeCallback req => (InvokeCallback_begin req g).1
  | OpQueueAdmin caller a => (QueueAdminAction_begin caller a g).1
  end.

Definition gw_run (g : Gateway) (ops : list gw_op) : Gateway := fold_left gw_step ops g.

(** * Invariants

    An invariant [P] that is kept by the three emissions, by appending an event
    and by a fault, and that ignores the other fields, is kept by every operation;
    [Q] is what is left when an exception escapes, from which a fault restores
    [P]. *)

(** The fields an invariant may look at. *)
Definition core (g : Gateway) :=
  (state_ g, current_frame_delta_ g, seq_ g, frames_since_last_flush_ g, ring_ g, fault_effects g, feed g,
   emitted g, (socket_path_ g, token_file_path_ g, health_file_path_ g)).

Section Invariant.
Context (P Q : Gateway -> Prop).
Hypothesis HQ : forall g, P g -> Q g.
Hypothesis Hcore : forall g g', core g' = core g -> P g -> P g'.
Hypothesis Hevent : forall e g, P g -> P (add_event e g).
Hypothesis Hfault : forall tk s r d g, Q g -> P (TransitionToDisabled tk s r d g).
Hypothesis Hflush : forall tk, triple P Q (FlushDelta SerializeToString tk).
Hypothesis Hkeepalive : forall tk, triple P Q (EmitKeepAlive SerializeToString tk).
Hypothesis Hsnapshot : forall tk c, triple P Q (BroadcastSnapshot SerializeToString tk c).
Hypothesis Hquiet : forall f g, P g -> P (g <| frames_since_last_flush_ ::= f |>).

(** A step outside the core. *)
Ltac side := let g := fresh in let H := fresh in intros g H; apply (Hcore g); [reflexivity|exact H].

Lemma append_keeps (tk : Tick) (e : DeltaEvent) : triple P Q (append tk e).
Proof. unfold append. steps; [done|]. intros; by apply Hevent. Qed.

Lemma EnsureLocalServiceBound_keeps (tk : Tick) : triple P Q (EnsureLocalServiceBound inet_pton4 inet_pton6 tk).
Proof.
  unfold EnsureLocalServiceBound. steps. destruct (deferred_service_bind_endpoint_ a); [|apply triple_ret].
  steps. destruct (Bind _ _ _ _ _) as [svc r]. steps; [side|done|side].
Qed.

Lemma EnsureCoordinatorClientStarted_keeps : triple P Q EnsureCoordinatorClientStarted.
Proof. unfold EnsureCoordinatorClientStarted. steps; side. Qed.

Lemma MaybeEmit_keeps (tk : Tick) : triple P Q (MaybeEmitInitialCoordinatorSnapshot SerializeToString tk).
Proof.
  unfold MaybeEmitInitialCoordinatorSnapshot. steps; [apply EnsureCoordinatorClientStarted_keeps|side|apply Hsnapshot].
Qed.

Lemma mark_keeps (f : Z -> OrderStateTracker -> OrderStateTracker) : triple P Q (mark f).
Proof. unfold mark. steps. side. Qed.

Lemma hook_body_keeps (tk : Tick) (h : hook) : triple P Q (hook_body SerializeToString tk h).
Proof.
  destruct h as [u b|u|u| |u a d v w p|u a|u o n|u o n|u|u|u|u|u|u|u|i d v|i|];
    try (destruct u as [id|]; [|apply triple_ret]); cbn [hook_body on_present];
    repeat first [apply append_keeps | apply mark_keeps | apply MaybeEmit_keeps | apply triple_ret
                 | apply triple_bind; intros].
Qed.

Lemma run_hook_keeps (tk : Tick) (h : hook) : triple P Q (run_hook SerializeToString tk h).
Proof.
  intros g Hg. unfold run_hook. destruct (negb _); [done|].
  apply (triple_try P Q _ _ (hook_body_keeps tk h)); [|done]. intros. by apply Hfault.
Qed.

Lemma fold_core {A} (f : Gateway -> A -> Gateway) (l : list A) (g : Gateway) :
  (forall g x, core (f g x) = core g) -> core (fold_left f l g) = core g.
Proof. intros Hf. revert g. induction l as [|x l IH]; intros g; [done|]. cbn. by rewrite IH, Hf. Qed.

Lemma DrainCallbackQueue_keeps (tk : Tick) : triple P Q (DrainCallbackQueue tk).
Proof. apply triple_modify. intros g Hg. eapply Hcore; [|exact Hg]. by rewrite fold_core. Qed.

Lemma drain_admin_entry_keeps (tk : Tick) (e : PendingAdminAction) : triple P Q (drain_admin_entry tk e).
Proof.
  unfold drain_admin_entry. steps; [|side]. case_decide; [|apply triple_ret].
  unfold apply_accepted. steps; [side|done|].
  match goal with b : bool |- _ => destruct b end; [|apply triple_ret].
  intros g Hg. unfold execute_admin. destruct (Execute _ _ _ _ _). (eapply Hcore; [|exact Hg]; reflexivity).
Qed.

Lemma DrainAdminActionQueue_keeps (tk : Tick) : triple P Q (DrainAdminActionQueue tk).
Proof.
  unfold DrainAdminActionQueue. steps; [side|]. generalize (pending_admin_actions_ a). clear a a0.
  induction l as [|e l IH]; cbn; steps; [apply drain_admin_entry_keeps|apply IH].
Qed.

Lemma dispatch_entry_keeps (tk : Tick) (n : nat) (e : QueuedCommand) (g : Gateway) :
  P g -> P (dispatch_entry tk n e g).1.
Proof.
  intros Hg. unfold dispatch_entry. repeat (case_match; cbn [fst]); try (by apply Hevent).
  - by apply Hfault, HQ, Hevent.
  - eapply Hcore; [|apply (Hevent (event_of g e COMMAND_DISPATCH_APPLIED None))]; [reflexivity|]. (eapply Hcore; [|exact Hg]; reflexivity).
  - apply Hevent. (eapply Hcore; [|exact Hg]; reflexivity).
  - apply Hevent. (eapply Hcore; [|exact Hg]; reflexivity).
Qed.

Lemma DrainCommandQueue_keeps (tk : Tick) : triple P Q (DrainCommandQueue tk).
Proof.
  apply triple_modify. intros g Hg. destruct (Drain _ _ _) as [[q batch] n0]. generalize (default [] batch) as l.
  assert (Hg' : P (g <| command_queue_ := q |>)) by ((eapply Hcore; [|exact Hg]; reflexivity)).
  revert Hg'. generalize (g <| command_queue_ := q |>) 0%nat. clear g Hg. intros g n Hg l. revert n g Hg.
  induction l as [|e l IH]; intros n g Hg; [done|]. cbn. pose proof (dispatch_entry_keeps tk n e g Hg) as He.
  destruct (dispatch_entry tk n e g) as [g' []]; [by apply IH|done].
Qed.

Lemma tick_front_keeps (tk : Tick) : triple P Q (tick_front SerializeToString inet_pton4 inet_pton6 tk).
Proof.
  unfold tick_front, gw_AdvanceFrame, tick_heartbeat, tick_snapshot, tick_economy.
  steps; try side; auto using EnsureLocalServiceBound_keeps, EnsureCoordinatorClientStarted_keeps, MaybeEmit_keeps,
    DrainCallbackQueue_keeps, DrainAdminActionQueue_keeps, DrainCommandQueue_keeps, run_hook_keeps.
  destruct (Pump _ _ _) as [t pump]. steps; [side|apply Hsnapshot].
Qed.

Lemma tick_flush_keeps (tk : Tick) : triple P Q (tick_flush SerializeToString tk).
Proof. unfold tick_flush. steps. case_match; steps; auto; intros; by apply Hquiet. Qed.

Lemma DrainPendingFault_keeps (tk : Tick) (g : Gateway) : P g -> P (DrainPendingFault tk g).
Proof.
  intros Hg. unfold DrainPendingFault. assert (P (g <| pending_fault_ := None |>)) by (by apply (Hcore g)).
  destruct (pending_fault_ g); [by apply Hfault, HQ|done].
Qed.

Lemma OnFrameTick_keeps (tk : Tick) (g : Gateway) :
  P g -> P (OnFrameTick SerializeToString inet_pton4 inet_pton6 tk g).
Proof.
  intros Hg%(DrainPendingFault_keeps tk). unfold OnFrameTick. destruct (negb _); [done|].
  assert (Hb : triple P Q (tick_body SerializeToString inet_pton4 inet_pton6 tk))
    by (apply triple_bind; [apply tick_front_keeps | intros; apply tick_flush_keeps]).
  specialize (Hb _ Hg). unfold try_. destruct (tick_body _ _ _ _ _) as [g' [x|e]]; [done|]. by apply Hfault.
Qed.

Lemma gw_step_keeps (g : Gateway) (op : gw_op) : P g -> P (gw_step g op).
Proof.
  intros Hg. destruct op as [tk|tk h|s r d|cmds| |slot| |req|caller a]; cbn [gw_step].
  - by apply OnFrameTick_keeps.
  - pose proof (run_hook_keeps tk h g Hg) as Hh. unfold run_hook in *. destruct (negb _); [done|].
    unfold try_ in *. by destruct (hook_body _ _ _ _) as [g' [x|e]].
  - unfold RequestDisable. repeat case_match; try done. by apply (Hcore g).
  - by apply (Hcore g).
  - by apply (Hcore g).
  - by apply (Hcore g).
  - by apply (Hcore g).
  - unfold InvokeCallback_begin. case_match; [done|]. by apply (Hcore g).
  - unfold QueueAdminAction_begin. case_match; [done|]. by apply (Hcore g).
Qed.

Lemma gw_run_keeps (ops : list gw_op) (g : Gateway) : P g -> P (gw_run g ops).
Proof. revert g. induction ops as [|op ops IH]; intros g Hg; [done|]. by apply IH, gw_step_keeps. Qed.

End Invariant.

(** A gateway as the constructor leaves it. *)
Lemma construct_fresh (env : CtorEnv) (g : Gateway) :
  Gateway_construct inet_pton4 inet_pton6 env = Ok g ->
  state_ g = Healthy /\ fault_effects g = [] /\ feed g = [] /\ emitted g = [] /\ current_frame_delta_ g = [] /\
  seq_ g = 0 /\ frames_since_last_flush_ g = 0 /\ reach (ring_ g) [].
Proof.
  unfold Gateway_construct. rewrite res_bind_Ok. intros (ep & _ & H).
  destruct (match transport ep with kUds => _ | kTcp => _ end) as [socket ep'].
  rewrite res_bind_Ok in H. destruct H as (_ & _ & H). rewrite res_bind_Ok in H. destruct H as (ring & Hr & H).
  destruct (match ce_getenv env _ with Some _ => _ | None => _ end) as [svc bound].
  rewrite res_bind_Ok in H. destruct H as (_ & _ & H). injection H as <-. cbn. split_and!; try done. by eapply reach_new.
Qed.

(** * The fault protocol *)

(** The six side effects of the only fault a gateway can have, in order. *)
Definition fault_sequence (g : Gateway) (line body : string) : list FaultEffect :=
  [FLog line; FCloseStreams]
  ++ (if decide (socket_path_ g = ""%string) then [] else [FUnlink (socket_path_ g)])
  ++ (if decide (token_file_path_ g = ""%string) then [] else [FUnlink (token_file_path_ g)])
  ++ [FHealth (health_file_path_ g) body].

Definition fault_ok (g : Gateway) : Prop :=
  match state_ g with
  | Healthy => fault_effects g = []
  | Disabling => False
  | Disabled => exists tk s r d,
      fault_effects g = fault_sequence g (LogFault (tk_pid tk) s r d (wire_frame tk))
                          (health_body (tk_pid tk) false s r d (wire_frame tk))
  end.

Lemma TransitionToDisabled_state (tk : Tick) (s r d : string) (g : Gateway) :
  state_ (TransitionToDisabled tk s r d g) <> Healthy /\
  (state_ g <> Healthy -> TransitionToDisabled tk s r d g = g).
Proof.
  unfold TransitionToDisabled. case_decide as Hs; [|by split]. split; [|done].
  destruct (FaultCloseAllStreams _ _) as [svc bus]. by repeat case_decide.
Qed.

Lemma fault_ok_transition (tk : Tick) (s r d : string) (g : Gateway) :
  fault_ok g -> fault_ok (TransitionToDisabled tk s r d g).
Proof.
  intros Hg. unfold TransitionToDisabled. destruct (decide (state_ g = Healthy)) as [Hs|]; [|done].
  unfold fault_ok in Hg. rewrite Hs in Hg. cbn. destruct (FaultCloseAllStreams _ _) as [svc bus].
  unfold fault_ok, fault_sequence. repeat (case_decide; cbn in *; try done); exists tk, s, r, d; rewrite Hg; done.
Qed.

Lemma publish_keeps_fault (u : StateUpdate) : triple fault_ok fault_ok (publish_update SerializeToString u).
Proof. unfold publish_update. steps; [done|]. destruct a; steps; done. Qed.

Lemma next_seq_keeps_fault : triple fault_ok fault_ok next_seq.
Proof. unfold next_seq. steps; done. Qed.

Lemma emissions_keep_fault (tk : Tick) (c : Z) :
  triple fault_ok fault_ok (FlushDelta SerializeToString tk) /\
  triple fault_ok fault_ok (EmitKeepAlive SerializeToString tk) /\
  triple fault_ok fault_ok (BroadcastSnapshot SerializeToString tk c).
Proof.
  unfold FlushDelta, EmitKeepAlive, BroadcastSnapshot, record_flush.
  refine (conj _ (conj _ _)); (apply triple_try; [|intros e g Hg; unfold serialization_fault; apply fault_ok_transition; exact Hg]);
    steps; first [apply next_seq_keeps_fault | apply publish_keeps_fault | let H := fresh in intros ? H; exact H].
Qed.

Lemma gw_run_fault_ok (ops : list gw_op) (g : Gateway) : fault_ok g -> fault_ok (gw_run g ops).
Proof.
  apply (gw_run_keeps fault_ok fault_ok); try done.
  - intros g1 g2 Hc Hg. unfold fault_ok, fault_sequence in *. unfold core in Hc. injection Hc as H1 _ _ _ _ H6 _ _ H9 H10 H11.
    rewrite H1. destruct (state_ g1); rewrite ?H6, ?H9, ?H10, ?H11; done.
  - intros. by apply fault_ok_transition.
  - intros. by apply (emissions_keep_fault tk 0).
  - intros. by apply (emissions_keep_fault tk 0).
  - intros. apply emissions_keep_fault.
Qed.

(** C3. The fault protocol: over any sequence of ticks, hooks, worker requests
    and submissions, whatever throws, a gateway is either healthy with no fault
    side effect, or disabled with the whole sequence exactly once and in order --
    the fault line, the closing of the streams, the removal of the socket and of
    the token file, the health file -- and a disabled gateway is final: hooks and
    fault requests change nothing, a tick only clears a pending request, and no
    operation leaves the disabled state. *)
Theorem fault_protocol (env : CtorEnv) (g0 : Gateway) (ops : list gw_op) :
  Gateway_construct inet_pton4 inet_pton6 env = Ok g0 ->
  let g := gw_run g0 ops in
  fault_ok g /\
  (state_ g <> Healthy ->
   (forall tk, gw_step g (OpTick tk) = g <| pending_fault_ := None |>) /\
   (forall tk h, gw_step g (OpHook tk h) = g) /\
   (forall s r d, gw_step g (OpRequestDisable s r d) = g) /\
   (forall op, state_ (gw_step g op) = Disabled)).
Proof.
  intros (Hs & He & _)%construct_fresh. cbn zeta.
  assert (Hf : fault_ok (gw_run g0 ops)) by (apply gw_run_fault_ok; unfold fault_ok; by rewrite Hs).
  revert Hf. generalize (gw_run g0 ops) as g. intros g Hf. split; [done|]. intros Hn.
  assert (Hdis : state_ g = Disabled) by (unfold fault_ok in Hf; destruct (state_ g); done).
  assert (Htick : forall tk, gw_step g (OpTick tk) = g <| pending_fault_ := None |>).
  { intros tk. cbn [gw_step]. unfold OnFrameTick, DrainPendingFault.
    assert (Hd : match pending_fault_ g with
                 | Some f => TransitionToDisabled tk (pf_subsystem f) (pf_reason f) (pf_detail f) (g <| pending_fault_ := None |>)
                 | None => g <| pending_fault_ := None |> end = g <| pending_fault_ := None |>).
    { destruct (pending_fault_ g) as [f|] eqn:E; [|done].
      apply TransitionToDisabled_state. cbn. by rewrite Hdis. }
    rewrite Hd. cbn. by rewrite Hdis. }
  assert (Hhook : forall tk h, gw_step g (OpHook tk h) = g).
  { intros tk h. cbn [gw_step]. unfold run_hook. by rewrite bool_decide_eq_false_2. }
  assert (Hreq : forall s r d, gw_step g (OpRequestDisable s r d) = g).
  { intros s r d. cbn [gw_step]. unfold RequestDisable. by rewrite bool_decide_eq_false_2. }
  split_and!; [done..|]. intros op. destruct op.
  - rewrite Htick. done.
  - by rewrite Hhook.
  - by rewrite Hreq.
  - done.
  - done.
  - done.
  - done.
  - cbn [gw_step]. unfold InvokeCallback_begin. by rewrite bool_decide_eq_false_2.
  - cbn [gw_step]. unfold QueueAdminAction_begin. by rewrite bool_decide_eq_false_2.
Qed.

(** * The feed *)

(** What the ring holds of an update, and the events an update carries. *)
Definition entry_of (u : StateUpdate) : RingEntry :=
  {| seq := upd_seq u; payload := match SerializeToString u with Ok p => p | Throw _ => None end |}.

Definition events_of (u : StateUpdate) : list DeltaEvent :=
  match upd_payload u with PDelta es => es | _ => [] end.

(** The feed while the gateway is healthy. *)
Definition feed_ok (g : Gateway) : Prop :=
  state_ g = Healthy -> size_of (feed g) < 2 ^ 64 ->
  reach (ring_ g) (entry_of <$> feed g) /\ gapless (entry_of <$> feed g) /\
  seq_ g = size_of (feed g) /\
  emitted g = concat (events_of <$> feed g) ++ current_frame_delta_ g.

(** An update about to be published. *)
Definition ready (u : StateUpdate) (g : Gateway) : Prop :=
  state_ g = Healthy -> size_of (feed g) + 1 < 2 ^ 64 ->
  reach (ring_ g) (entry_of <$> feed g) /\ gapless (entry_of <$> feed g) /\
  seq_ g = size_of (feed g) + 1 /\ upd_seq u = seq_ g /\
  emitted g = concat (events_of <$> feed g) ++ events_of u ++ current_frame_delta_ g.

Lemma gapless_snoc (hist : list RingEntry) (e : RingEntry) :
  gapless hist -> seq e = size_of hist + 1 -> gapless (hist ++ [e]).
Proof.
  intros Hg He i x. rewrite lookup_app. destruct (hist !! i) as [y|] eqn:E; [intros [= <-]; by apply Hg|].
  apply lookup_ge_None in E. intros Hx. rewrite list_lookup_singleton_Some in Hx. destruct Hx as [Hi <-].
  rewrite He. unfold size_of. lia.
Qed.

Lemma publish_feed (u : StateUpdate) (g : Gateway) :
  ready u g -> match publish_update SerializeToString u g with (g', Ok _) => feed_ok g' | _ => True end.
Proof.
  intros Hr. unfold publish_update, lift, get_gw, modify, mbind, GM_bind.
  destruct (SerializeToString u) as [[p|]|e] eqn:Es; [|done..].
  destruct (Push (ring_ g) (seq_ g) (Some p)) as [ring|e] eqn:Ep; [|done].
  intros Hh Hsz. cbn in Hh, Hsz |- *. rewrite size_of_app in Hsz |- *. change (size_of [u]) with 1 in *.
  destruct (Hr Hh) as (H1 & H2 & H3 & H4 & H5); [lia|]. rewrite fmap_app. cbn [fmap list_fmap].
  assert (He : entry_of u = {| seq := seq_ g; payload := Some p |}) by (unfold entry_of; by rewrite Es, H4).
  split_and!.
  - rewrite He. by eapply reach_push.
  - apply gapless_snoc; [done|]. rewrite He. cbn. rewrite H3. unfold size_of. by rewrite length_fmap.
  - done.
  - rewrite H5. rewrite fmap_app, concat_app. cbn. by rewrite app_nil_r, <- app_assoc.
Qed.

(** [++seq_] makes the next update ready. *)
Lemma next_seq_ready (g : Gateway) (mk : Z -> StateUpdate) (clear : bool) :
  feed_ok g -> (forall s, upd_seq (mk s) = s) ->
  (forall s, events_of (mk s) = if clear then current_frame_delta_ g else []) ->
  let g1 := g <| seq_ ::= fun n => u64 (n + 1) |> in
  ready (mk (seq_ g1)) (if clear then g1 <| current_frame_delta_ := [] |> else g1).
Proof.
  intros Hg Hm He g1 Hh Hsz. assert (Hh' : state_ g = Healthy) by (by destruct clear).
  assert (Hf : feed (if clear then g1 <| current_frame_delta_ := [] |> else g1) = feed g) by (by destruct clear).
  rewrite Hf in *. destruct (Hg Hh') as (H1 & H2 & H3 & H4); [lia|].
  assert (Hs : seq_ g1 = size_of (feed g) + 1).
  { cbn. rewrite H3. pose proof (size_of_nonneg (feed g)). by rewrite u64_small by lia. }
  split_and!; [by destruct clear | done | by destruct clear | | ].
  - rewrite Hm. by destruct clear.
  - rewrite He. destruct clear; cbn; rewrite H4; [by rewrite app_nil_r|done].
Qed.

Lemma feed_ok_fault (tk : Tick) (s r d : string) (g : Gateway) : feed_ok (TransitionToDisabled tk s r d g).
Proof. intros Hh. by apply TransitionToDisabled_state in Hh. Qed.

Definition anything (g : Gateway) : Prop := True.

Lemma emissions_keep_feed (tk : Tick) (c : Z) :
  triple feed_ok anything (FlushDelta SerializeToString tk) /\
  triple feed_ok anything (EmitKeepAlive SerializeToString tk) /\
  triple feed_ok anything (BroadcastSnapshot SerializeToString tk c).
Proof.
  refine (conj _ (conj _ _)); (apply triple_try; [|intros e g _; unfold serialization_fault; apply feed_ok_fault]); intros g Hg;
    unfold next_seq, record_flush, mbind, GM_bind, modify, get_gw, mret, GM_ret; cbn [fst snd].
  - pose proof (next_seq_ready g (fun s => {| upd_seq := s; upd_frame := wire_frame tk;
      upd_payload := PDelta (current_frame_delta_ g); send_monotonic_ns := 0 |}) true Hg
      ltac:(done) ltac:(done)) as Hr. cbn zeta in Hr.
    apply publish_feed in Hr. cbn in Hr |- *. destruct (publish_update _ _ _) as [g' [x|e]]; done.
  - pose proof (next_seq_ready g (fun s => {| upd_seq := s; upd_frame := wire_frame tk;
      upd_payload := PKeepAlive; send_monotonic_ns := 0 |}) false Hg
      ltac:(done) ltac:(done)) as Hr. cbn zeta in Hr.
    apply publish_feed in Hr. cbn in Hr |- *. destruct (publish_update _ _ _) as [g' [x|e]]; done.
  - unfold lift. destruct (tk_snapshot_throws tk) as [e|]; [done|].
    pose proof (next_seq_ready g (fun s => {| upd_seq := s; upd_frame := wire_frame tk;
      upd_payload := PSnapshot ((BuildIncremental (Some (tk_source tk))) <| effective_cadence_frames := c |>
         <| frame_number := wire_frame tk |>); send_monotonic_ns := tk_ns tk |}) false Hg
      ltac:(done) ltac:(done)) as Hr. cbn zeta in Hr.
    apply publish_feed in Hr. cbn -[BuildIncremental] in Hr |- *. destruct (publish_update _ _ _) as [g' [x|e]]; done.
Qed.

Lemma gw_run_feed_ok (ops : list gw_op) (g : Gateway) : feed_ok g -> feed_ok (gw_run g ops).
Proof.
  apply (gw_run_keeps feed_ok anything); try done.
  - intros g1 g2 Hc Hg. unfold feed_ok in *. unfold core in Hc. injection Hc as -> H2 -> _ -> _ -> -> _ _ _.
    by rewrite H2.
  - intros e g1 Hg Hh Hsz. cbn in *. destruct (Hg Hh Hsz) as (H1 & H2 & H3 & H4). split_and!; [done..|].
    by rewrite H4, <- app_assoc.
  - intros. apply feed_ok_fault.
  - intros. by apply (emissions_keep_feed tk 0).
  - intros. by apply (emissions_keep_feed tk 0).
  - intros. apply emissions_keep_feed.
Qed.

(** C1. The feed a healthy gateway publishes is sound and complete: after any
    sequence of operations the ring has been pushed exactly the published updates,
    numbered 1, 2, 3, ... without a gap (so a resume request is answered as
    [GetFromSeq] promises), and every event a hook or a dispatch appended is in
    exactly one published delta, in order, or still in the current one -- none is
    lost, duplicated or reordered. *)
Theorem feed_integrity (env : CtorEnv) (g0 : Gateway) (ops : list gw_op) :
  Gateway_construct inet_pton4 inet_pton6 env = Ok g0 ->
  let g := gw_run g0 ops in
  state_ g = Healthy -> size_of (feed g) < 2 ^ 64 ->
  reach (ring_ g) (entry_of <$> feed g) /\ gapless (entry_of <$> feed g) /\
  (forall i u, feed g !! i = Some u -> upd_seq u = Z.of_nat i + 1) /\
  emitted g = concat (events_of <$> feed g) ++ current_frame_delta_ g.
Proof.
  intros Hc. apply construct_fresh in Hc as (H1 & H2 & H3 & H4 & H5 & H6 & H7 & H8). cbn zeta. intros Hh Hsz.
  assert (H0 : feed_ok g0).
  { intros _ _. rewrite H3, H4, H5, H6. by split_and!. }
  destruct (gw_run_feed_ok ops g0 H0 Hh Hsz) as (Ha & Hb & _ & Hd). split_and!; try done.
  intros i u Hu. apply (Hb i (entry_of u)). by rewrite list_lookup_fmap, Hu.
Qed.

(** * Keep-alive *)

(** What a quiet part of a tick leaves: the feed only grows, the quiet counter
    stays. *)
Definition grows (f0 : list StateUpdate) (n : Z) (g : Gateway) : Prop :=
  f0 `prefix_of` feed g /\ frames_since_last_flush_ g = n.
Definition unhealthy_or (P : Gateway -> Prop) (g : Gateway) : Prop := state_ g = Healthy -> P g.

(** A successful emission appends one update; a failed one disables. *)
Definition one_more (g g' : Gateway) : Prop :=
  state_ g' = Healthy -> state_ g = Healthy /\ (exists u, feed g' = feed g ++ [u]) /\
    frames_since_last_flush_ g' = frames_since_last_flush_ g.

Lemma publish_grows (u : StateUpdate) (g : Gateway) :
  match publish_update SerializeToString u g with (g', Ok _) => one_more g g' | _ => True end.
Proof.
  unfold publish_update, lift, get_gw, modify, mbind, GM_bind.
  destruct (SerializeToString u) as [[p|]|e]; [|done..].
  destruct (Push (ring_ g) (seq_ g) (Some p)) as [ring|e]; [|done]. intros Hh. cbn in *. eauto.
Qed.

Lemma fault_one_more (g : Gateway) (tk : Tick) (s r d : string) (g' : Gateway) :
  one_more g (TransitionToDisabled tk s r d g').
Proof. intros Hh. by apply TransitionToDisabled_state in Hh. Qed.

Lemma emissions_grow (tk : Tick) (c : Z) (g : Gateway) :
  one_more g (FlushDelta SerializeToString tk g).1 /\ one_more g (EmitKeepAlive SerializeToString tk g).1 /\
  one_more g (BroadcastSnapshot SerializeToString tk c g).1.
Proof.
  unfold FlushDelta, EmitKeepAlive, BroadcastSnapshot, try_, serialization_fault.
  unfold next_seq, record_flush, mbind, GM_bind, modify, get_gw, mret, GM_ret; cbn [fst snd].
  refine (conj _ (conj _ _)).
  - match goal with |- context [publish_update _ ?u ?h] => pose proof (publish_grows u h) as Hp end.
    destruct (publish_update _ _ _) as [g' [x|e]]; [exact Hp|apply fault_one_more].
  - match goal with |- context [publish_update _ ?u ?h] => pose proof (publish_grows u h) as Hp end.
    destruct (publish_update _ _ _) as [g' [x|e]]; [exact Hp|apply fault_one_more].
  - unfold lift. destruct (tk_snapshot_throws tk) as [e|]; [apply fault_one_more|].
    match goal with |- context [publish_update _ ?u ?h] => pose proof (publish_grows u h) as Hp end.
    destruct (publish_update _ _ _) as [g' [x|e]]; [exact Hp|apply fault_one_more].
Qed.

Lemma emission_triple (f0 : list StateUpdate) (n : Z) (m : GM unit) :
  (forall g, one_more g (m g).1) -> triple (unhealthy_or (grows f0 n)) anything m.
Proof.
  intros Hm g Hg. specialize (Hm g). destruct (m g) as [g' [x|e]]; [|done]. intros Hh. cbn [fst] in Hm.
  destruct (Hm Hh) as (Hs & [u Hu] & Hf). destruct (Hg Hs) as [Hp Hn]. split; [|congruence].
  rewrite Hu. by apply prefix_app_r.
Qed.

Lemma tick_front_grows (f0 : list StateUpdate) (n : Z) (tk : Tick) :
  triple (unhealthy_or (grows f0 n)) anything (tick_front SerializeToString inet_pton4 inet_pton6 tk).
Proof.
  apply tick_front_keeps; try done.
  - intros g g' Hc Hg. unfold unhealthy_or, grows in *. unfold core in Hc. injection Hc as -> _ _ -> _ _ -> _ _ _ _. done.
  - intros tk' s r d g _ Hh. by apply TransitionToDisabled_state in Hh.
  - intros tk' c. apply emission_triple. intros g. apply emissions_grow.
Qed.

(** One tick that ends healthy either publishes or counts one quiet frame. *)
Lemma tick_progress (tk : Tick) (g : Gateway) :
  let g' := OnFrameTick SerializeToString inet_pton4 inet_pton6 tk g in
  state_ g' = Healthy -> 0 <= frames_since_last_flush_ g < kKeepAliveFrames ->
  feed g `prefix_of` feed g' /\
  (frames_since_last_flush_ g' = 0 /\ (length (feed g) < length (feed g'))%nat \/
   frames_since_last_flush_ g' = frames_since_last_flush_ g + 1 /\
   frames_since_last_flush_ g' < kKeepAliveFrames).
Proof.
  cbn zeta. unfold OnFrameTick. set (g1 := DrainPendingFault tk g). intros Hh Hq.
  assert (Hsame : state_ g1 = Healthy -> feed g1 = feed g /\ frames_since_last_flush_ g1 = frames_since_last_flush_ g).
  { unfold g1, DrainPendingFault. destruct (pending_fault_ g); [|done]. intros H. by apply TransitionToDisabled_state in H. }
  destruct (decide (state_ g1 = Healthy)) as [Hs1|Hs1]; [|by rewrite bool_decide_eq_false_2 in Hh by done].
  rewrite bool_decide_eq_true_2 in Hh |- * by done. cbn [negb] in Hh |- *. destruct (Hsame Hs1) as [Hf1 Hn1].
  clearbody g1. clear Hsame. unfold try_, tick_body, mbind, GM_bind in *.
  pose proof (tick_front_grows (feed g) (frames_since_last_flush_ g) tk g1) as Hfr.
  destruct (tick_front _ _ _ tk g1) as [g2 [x|e]]; [|by apply TransitionToDisabled_state in Hh].
  assert (Hg2 : unhealthy_or (grows (feed g) (frames_since_last_flush_ g)) g2).
  { apply Hfr. intros _. split; [by rewrite Hf1|done]. }
  clear Hfr Hf1 Hn1 Hs1 g1. unfold tick_flush, mbind, GM_bind, get_gw in *.
  destruct (bool_decide (current_frame_delta_ g2 = [])) eqn:Ed.
  - cbn [modify] in Hh |- *. unfold modify, when in *. cbn in Hh |- *.
    destruct (Z.leb_spec kKeepAliveFrames (u32 (frames_since_last_flush_ g2 + 1))) as [Hk|Hk].
    + match type of Hh with context [EmitKeepAlive _ _ ?h] =>
        pose proof (proj1 (proj2 (emissions_grow tk 0 h))) as He; set (g3 := h) in * end.
      destruct (EmitKeepAlive SerializeToString tk g3) as [g4 [y|e]]; cbn in Hh, He |- *;
        [|by apply TransitionToDisabled_state in Hh].
      destruct (He Hh) as (Hs3 & [u Hu] & _). destruct (Hg2 Hs3) as [[k Hp] _]. rewrite Hu. cbn. rewrite Hp.
      split; [rewrite <- app_assoc; by apply prefix_app_r|]. left. split; [done|]. rewrite !length_app. cbn. lia.
    + cbn in Hh |- *. destruct (Hg2 Hh) as [Hp Hn]. split; [done|]. right. rewrite Hn in *.
      unfold kKeepAliveFrames in *. rewrite u32_small in * by lia. lia.
  - match type of Hh with context [FlushDelta _ _ ?h] => pose proof (proj1 (emissions_grow tk 0 h)) as He end.
    destruct (FlushDelta SerializeToString tk g2) as [g4 [y|e]]; cbn in Hh, He |- *;
      [|by apply TransitionToDisabled_state in Hh].
    destruct (He Hh) as (Hs3 & [u Hu] & _). destruct (Hg2 Hs3) as [[k Hp] _]. rewrite Hu, Hp.
    split; [rewrite <- app_assoc; by apply prefix_app_r|]. left. split; [done|]. rewrite !length_app. cbn. lia.
Qed.

(** No operation revives a gateway. *)
Definition down (g : Gateway) : Prop := state_ g <> Healthy.

Lemma emission_down (m : GM unit) : (forall g, one_more g (m g).1) -> triple down anything m.
Proof.
  intros Hm g Hg. specialize (Hm g). destruct (m g) as [g' [x|e]]; [|done]. intros Hh. by destruct (Hm Hh).
Qed.

Lemma gw_step_healthy (g : Gateway) (op : gw_op) : state_ (gw_step g op) = Healthy -> state_ g = Healthy.
Proof.
  intros Hh. destruct (decide (state_ g = Healthy)) as [|Hn]; [done|exfalso].
  revert Hh. change (down (gw_step g op)). apply (gw_step_keeps down anything); try done.
  - intros g1 g2 Hc. unfold down, core in *. by injection Hc as ->.
  - intros. apply TransitionToDisabled_state.
  - intros. apply emission_down. intros g'. apply (emissions_grow tk 0).
  - intros. apply emission_down. intros g'. apply (emissions_grow tk 0).
  - intros. apply emission_down. intros g'. apply emissions_grow.
Qed.

Lemma gw_run_healthy (ops : list gw_op) (g : Gateway) : state_ (gw_run g ops) = Healthy -> state_ g = Healthy.
Proof. revert g. induction ops as [|op ops IH]; intros g; [done|]. intros H%IH. by apply gw_step_healthy in H. Qed.

Definition is_tick (op : gw_op) : bool := match op with OpTick _ => true | _ => false end.
Definition ticks (ops : list gw_op) : Z := size_of (filter (fun op => is_tick op = true) ops).

Lemma quiet_step (g : Gateway) (op : gw_op) :
  is_tick op = false -> state_ (gw_step g op) = Healthy -> grows (feed g) (frames_since_last_flush_ g) (gw_step g op).
Proof.
  intros Ht Hh. assert (Hs : grows (feed g) (frames_since_last_flush_ g) g) by done.
  destruct op as [tk|tk h|s r d|cmds| |slot| |req|caller a]; try done; cbn [gw_step] in *.
  - pose proof (run_hook_keeps (unhealthy_or (grows (feed g) (frames_since_last_flush_ g))) anything) as Hk.
    specialize (Hk ltac:(done)). unshelve epose proof (Hk _ _ _ _ tk h g _) as Hr; try done.
    + intros g1 g2 Hc Hg. unfold unhealthy_or, grows, core in *. injection Hc as -> _ _ -> _ _ -> _ _ _ _. done.
    + intros tk' s r d g1 _ Hx. by apply TransitionToDisabled_state in Hx.
    + intros tk' c. apply emission_triple. intros g1. apply emissions_grow.
    + unfold run_hook in *. destruct (negb _); [done|]. unfold try_ in *.
      destruct (hook_body _ _ _ _) as [g' [x|e]]; by apply Hr.
  - unfold RequestDisable. by repeat case_match.
  - unfold InvokeCallback_begin. by case_match.
  - unfold QueueAdminAction_begin. by case_match.
Qed.

Lemma run_progress (ops : list gw_op) (g : Gateway) :
  state_ (gw_run g ops) = Healthy -> 0 <= frames_since_last_flush_ g < kKeepAliveFrames ->
  feed g `prefix_of` feed (gw_run g ops) /\ 0 <= frames_since_last_flush_ (gw_run g ops) < kKeepAliveFrames /\
  ((length (feed g) < length (feed (gw_run g ops)))%nat \/
   frames_since_last_flush_ (gw_run g ops) = frames_since_last_flush_ g + ticks ops).
Proof.
  revert g. induction ops as [|op ops IH]; intros g Hh Hq.
  { refine (conj _ (conj Hq _)); [done|]. right. change (ticks []) with 0. change (gw_run g []) with g. lia. }
  cbn in Hh. assert (Hh1 : state_ (gw_step g op) = Healthy) by (by eapply gw_run_healthy).
  assert (Hstep : feed g `prefix_of` feed (gw_step g op) /\ 0 <= frames_since_last_flush_ (gw_step g op) < kKeepAliveFrames /\
    ((length (feed g) < length (feed (gw_step g op)))%nat \/
     frames_since_last_flush_ (gw_step g op) = frames_since_last_flush_ g + ticks [op])).
  { destruct (is_tick op) eqn:Et.
    - destruct op as [tk| | | | | | | |]; try done.
      destruct (tick_progress tk g Hh1 Hq) as [Hp [[H0 Hl]|[Hn Hl]]]; unfold kKeepAliveFrames in *;
        (split_and!; [done|cbn [gw_step]; lia..|]); [by left|right; done].
    - destruct (quiet_step g op Et Hh1) as [Hp Hn]. split_and!; [done|lia..|]. right. unfold ticks.
      rewrite filter_cons, decide_False by congruence. rewrite filter_nil. change (size_of []) with 0. lia. }
  destruct Hstep as (Hp & Hq1 & Hd). destruct (IH _ Hh Hq1) as (Hp2 & Hq2 & Hd2).
  change (gw_run g (op :: ops)) with (gw_run (gw_step g op) ops). split_and!; [by etrans|lia..|].
  apply prefix_length in Hp as Hl1. apply prefix_length in Hp2 as Hl2.
  destruct Hd as [Hd|Hd]; [left; lia|]. destruct Hd2 as [Hd2|Hd2]; [left; lia|]. right. rewrite Hd2, Hd.
  unfold ticks. change (op :: ops) with ([op] ++ ops). rewrite filter_app, size_of_app. lia.
Qed.

(** C10. A healthy gateway is never silent for a second: in every stretch of
    operations that contains 30 frame ticks and ends healthy, at least one update
    -- a delta, a snapshot or a keep-alive -- is published, and nothing already
    published is withdrawn. *)
Theorem keepalive_bound (env : CtorEnv) (g0 : Gateway) (ops1 ops2 : list gw_op) :
  Gateway_construct inet_pton4 inet_pton6 env = Ok g0 ->
  let g1 := gw_run g0 ops1 in
  let g2 := gw_run g1 ops2 in
  state_ g2 = Healthy -> 30 <= ticks ops2 ->
  feed g1 `prefix_of` feed g2 /\ (length (feed g1) < length (feed g2))%nat.
Proof.
  intros Hc. apply construct_fresh in Hc as (_ & _ & _ & _ & _ & _ & H7 & _). cbn zeta. intros Hh Ht.
  destruct (run_progress ops1 g0) as (_ & Hq & _); [by eapply gw_run_healthy|rewrite H7; unfold kKeepAliveFrames; lia|].
  destruct (run_progress ops2 _ Hh Hq) as (Hp & Hq2 & [Hd|Hd]); [done|]. unfold kKeepAliveFrames in *. lia.
Qed.

End Ops.

(** * Commands *)

(** An event reports a command: the identifiers are the command's own, and only a
    command whose target was present and alive (or that needs no target) is
    reported as applied. *)
Definition reports (tk : Tick) (e : QueuedCommand) (ev : DeltaEvent) : Prop :=
  exists d, ev = command_dispatch d /\
    disp_batch_seq d = q_batch_seq e /\ disp_client_command_id d = q_client_command_id e /\
    disp_command_index d = q_command_index e /\
    disp_target_unit_id d = u32 (q_authoritative_target_unit_id e) /\
    (disp_status d = COMMAND_DISPATCH_APPLIED ->
       exists t, EffectiveDispatchTargetUnitId (q_authoritative_target_unit_id e) (q_command e) = Some t /\
         (0 < t -> exists u, GetTeamUnit (tk_ai tk) t = Some u /\ isDead u = false)).

Lemma resolve_target_found (tk : Tick) (t : Z) :
  resolve_target tk t = None -> 0 < t -> exists u, GetTeamUnit (tk_ai tk) t = Some u /\ isDead u = false.
Proof.
  unfold resolve_target. destruct (Z.ltb_spec 0 t); [|lia]. intros Hr _.
  destruct (GetTeamUnit _ _) as [u|]; [|done]. exists u. by destruct (isDead u).
Qed.

Lemma event_reports (tk : Tick) (g : Gateway) (e : QueuedCommand) (st : CommandDispatchStatus) (i : option CommandIssue) :
  (st = COMMAND_DISPATCH_APPLIED ->
     exists t, EffectiveDispatchTargetUnitId (q_authoritative_target_unit_id e) (q_command e) = Some t /\
       (0 < t -> exists u, GetTeamUnit (tk_ai tk) t = Some u /\ isDead u = false)) ->
  reports tk e (event_of g e st i).
Proof. intros H. eexists. split; [done|]. by split_and!. Qed.

Lemma TransitionToDisabled_keeps (tk : Tick) (s r d : string) (g : Gateway) :
  emitted (TransitionToDisabled tk s r d g) = emitted g /\
  command_queue_ (TransitionToDisabled tk s r d g) = command_queue_ g.
Proof.
  unfold TransitionToDisabled. case_decide; [|done]. destruct (FaultCloseAllStreams _ _) as [svc bus].
  by repeat case_decide.
Qed.

Lemma dispatch_entry_spec (tk : Tick) (n : nat) (e : QueuedCommand) (g : Gateway) :
  let '(g', go_on) := dispatch_entry tk n e g in
  command_queue_ g' = command_queue_ g /\
  (exists ev, emitted g' = emitted g ++ [ev] /\ reports tk e ev) /\
  (if go_on then state_ g' = state_ g else state_ g' <> Healthy).
Proof.
  unfold dispatch_entry. destruct (EffectiveDispatchTargetUnitId _ _) as [t|] eqn:Et.
  2:{ cbn. split_and!; [done| |done]. eexists. split; [done|]. by apply event_reports. }
  destruct (resolve_target tk t) as [[st i]|] eqn:Er.
  { cbn. split_and!; [done| |done]. eexists. split; [done|]. apply event_reports. intros ->.
    exfalso. revert Er. unfold resolve_target. by repeat case_match. }
  destruct (tk_dispatch_throws tk n) as [ex|].
  - match goal with |- context [TransitionToDisabled tk ?s ?r ?d ?h] =>
      destruct (TransitionToDisabled_keeps tk s r d h) as [-> ->];
      pose proof (proj1 (TransitionToDisabled_state tk s r d h)) as Hs end.
    split_and!; [done| |done]. eexists. split; [done|]. by apply event_reports.
  - cbn zeta. destruct (returned _).
    + destruct (0 <? t); cbn; (split_and!; [done| |done]); eexists; (split; [done|]); apply event_reports;
        intros _; exists t; split; try done; by apply resolve_target_found.
    + cbn. split_and!; [done| |done]. eexists. split; [done|]. by apply event_reports.
Qed.

Lemma dispatch_entries_spec (tk : Tick) (l : list QueuedCommand) (n : nat) (g : Gateway) :
  exists l1 l2 evs, l = l1 ++ l2 /\ emitted (dispatch_entries tk n l g) = emitted g ++ evs /\
    Forall2 (reports tk) l1 evs /\ command_queue_ (dispatch_entries tk n l g) = command_queue_ g /\
    (l2 = [] /\ state_ (dispatch_entries tk n l g) = state_ g \/ state_ (dispatch_entries tk n l g) <> Healthy).
Proof.
  revert n g. induction l as [|e l IH]; intros n g; cbn [dispatch_entries].
  { exists [], [], []. split_and!; [done|by rewrite app_nil_r|constructor|done|by left]. }
  pose proof (dispatch_entry_spec tk n e g) as He. destruct (dispatch_entry tk n e g) as [g1 []].
  - destruct He as (Hq & (ev & Hev & Hr) & Hs). destruct (IH (S n) g1) as (l1 & l2 & evs & -> & H1 & H2 & H3 & H4).
    exists (e :: l1), l2, (ev :: evs). rewrite H1, Hev, H3, Hq, <- app_assoc. split_and!; try done.
    + by constructor.
    + rewrite <- Hs. done.
  - destruct He as (Hq & (ev & Hev & Hr) & Hs). exists [e], l, [ev]. split_and!; [done|done|by repeat constructor|done|by right].
Qed.


(** * Examples *)

Definition demo_pton (h : string) : option Z := None.
Definition demo_serialize (u : StateUpdate) : res (option string) := Ok (Some (pretty (upd_seq u))).

Definition demo_env_ctor : CtorEnv :=
  {| ce_config := Ok default_endpoint; ce_getenv := fun _ => None; ce_gameid := "g"; ce_locate := fun _ => None;
     ce_generate := fun _ => Ok tt; ce_starts := true; ce_skirmish_id := 0; ce_short_sha := "abc"; ce_cheats := false |}.

Definition demo_snap_source : SnapSource :=
  {| src_last_frame := 5; src_team_id := 0; src_team_units := []; src_enemy_units := None; src_features := None;
     src_economy := None; src_metal_spots := None |}.

Definition demo_tick : Tick :=
  {| tk_host := demo_host; tk_source := demo_snap_source; tk_snapshot_throws := None;
     tk_dispatch_throws := fun _ => None; tk_hook_throws := None; tk_econ := None; tk_t0 := 0; tk_t1 := 7; tk_ns := 9;
     tk_heartbeat := RpcOk; tk_starts := true; tk_def_ids := []; tk_def_name := fun _ => Ok ""%string; tk_pid := 42 |}.
Definition demo_throwing_tick : Tick :=
  {| tk_host := demo_host; tk_source := demo_snap_source; tk_snapshot_throws := None;
     tk_dispatch_throws := fun n => if decide (n = 0%nat) then Some (runtime_error "boom") else None;
     tk_hook_throws := None; tk_econ := None; tk_t0 := 0; tk_t1 := 7; tk_ns := 9;
     tk_heartbeat := RpcOk; tk_starts := true; tk_def_ids := []; tk_def_name := fun _ => Ok ""%string; tk_pid := 42 |}.

Definition demo_gateway : res Gateway := Gateway_construct demo_pton demo_pton demo_env_ctor.
Lemma demo_gateway_ok : is_ok demo_gateway = true.
Proof. vm_compute. reflexivity. Defined.
Definition demo_g0 : Gateway := from_ok demo_gateway demo_gateway_ok.
Lemma demo_g0_eq : Gateway_construct demo_pton demo_pton demo_env_ctor = Ok demo_g0.
Proof. apply from_ok_eq. Qed.

Definition demo_order : QueuedCommand :=
  {| q_session_id := "s"; q_batch_seq := 1; q_client_command_id := 1; q_command_index := 0;
     q_authoritative_target_unit_id := 7; q_command := demo_move 7 3 |}.

Abbreviation demo_gw ops := (gw_run demo_serialize demo_pton demo_pton demo_g0 ops).

Definition demo_healthy : list gw_op :=
  [OpHook demo_tick (UnitCreated (Some 7) None); OpTick demo_tick; OpSubmit [demo_order]; OpTick demo_tick].

Lemma feed_integrity_witness :
  state_ (demo_gw demo_healthy) = Healthy /\ length (feed (demo_gw demo_healthy)) = 2%nat /\
  gapless (entry_of demo_serialize <$> feed (demo_gw demo_healthy)) /\
  emitted (demo_gw demo_healthy)
  = concat (events_of <$> feed (demo_gw demo_healthy)) ++ current_frame_delta_ (demo_gw demo_healthy).
Proof.
  assert (Hh : state_ (demo_gw demo_healthy) = Healthy) by (vm_compute; reflexivity).
  assert (Hl : length (feed (demo_gw demo_healthy)) = 2%nat) by (vm_compute; reflexivity).
  refine (conj Hh (conj Hl _)).
  destruct (feed_integrity demo_serialize demo_pton demo_pton demo_env_ctor demo_g0 demo_healthy demo_g0_eq Hh)
    as (_ & H1 & _ & H2).
  - unfold size_of. rewrite Hl. done.
  - exact (conj H1 H2).
Defined.

Lemma fault_protocol_witness :
  let g := demo_gw [OpSubmit [demo_order]; OpTick demo_throwing_tick] in
  state_ g = Disabled /\ fault_ok g /\ (forall tk h, gw_step demo_serialize demo_pton demo_pton g (OpHook tk h) = g).
Proof.
  intros g. assert (Hd : state_ g = Disabled) by (vm_compute; reflexivity).
  destruct (fault_protocol demo_serialize demo_pton demo_pton demo_env_ctor demo_g0
              [OpSubmit [demo_order]; OpTick demo_throwing_tick] demo_g0_eq) as [H1 H2].
  split; [exact Hd|]. split; [exact H1|]. apply H2. unfold g in Hd. rewrite Hd. discriminate.
Defined.

Definition demo_quiet : list gw_op := replicate 30 (OpTick demo_tick).

Lemma keepalive_bound_witness :
  (length (feed (demo_gw [])) < length (feed (gw_run demo_serialize demo_pton demo_pton (demo_gw []) demo_quiet)))%nat.
Proof.
  apply (keepalive_bound demo_serialize demo_pton demo_pton demo_env_ctor demo_g0 [] demo_quiet demo_g0_eq).
  - vm_compute. reflexivity.
  - vm_compute. discriminate.
Defined.

(** A tick whose command dispatch throws still publishes: the gateway is
    disabled in the middle of the tick, yet the rest of the tick runs and pushes
    the frame's delta into the ring and onto the (already closed) bus after the
    fault side effects, with a dispatch event that has no status. *)
Theorem fault_tick_still_publishes :
  exists ops1 op,
    let g := demo_gw ops1 in
    let g' := gw_step demo_serialize demo_pton demo_pton g op in
    state_ g = Healthy /\ state_ g' = Disabled /\ feed g = [] /\
    exists u d, feed g' = [u] /\ upd_payload u = PDelta [command_dispatch d] /\
      disp_status d = COMMAND_DISPATCH_STATUS_UNSPECIFIED /\ head_seq_ (ring_ g') = 1.
Proof.
  exists [OpSubmit [demo_order]], (OpTick demo_throwing_tick). cbn zeta.
  split; [vm_compute; reflexivity|]. split; [vm_compute; reflexivity|]. split; [vm_compute; reflexivity|].
  eexists _, _. vm_compute. auto.
Qed.

Definition demo_operator : AdminCaller := {| identity := "alice"; role := ADMIN_ROLE_OPERATOR |}.

(** An admin action reported as not dispatched can still be carried out: the
    worker that times out leaves its entry in the queue, so after it has answered
    NOT_DISPATCHED the next tick applies the action to the engine, takes the lease
    and audits it as executed. *)
Theorem timed_out_action_executes :
  let '(g1, p) := QueueAdminAction_begin demo_operator demo_pause demo_g0 in
  exists promise, p = inl promise /\
    res_status (QueueAdminAction_end demo_pause promise g1) = ADMIN_ACTION_NOT_DISPATCHED /\
    let g2 := gw_step demo_serialize demo_pton demo_pton g1 (OpTick demo_tick) in
    AEngine (SetPause true "via highbar admin") ∈ engine_calls g2 /\
    event_result <$> AuditLog (admin_controller_ g2) = [ADMIN_ACTION_EXECUTED] /\
    lease_owner (admin_controller_ g2) "pause" = Some "alice"%string.
Proof.
  vm_compute. eexists. split; [reflexivity|]. split; [reflexivity|]. split; [left|]. split; reflexivity.
Qed.

(** A gateway that has faulted cannot be torn down: in server mode, a healthy
    gateway is destroyed and its token file removed, but after any fault has
    disabled it its destruction ends the process, because the fault marked the
    service as shutting down without joining its worker. *)
Theorem disabled_gateway_destroy_terminates (tk : Tick) (s r d : string) (token : AuthToken)
    (g : Gateway) (fs : gmap string (list ascii)) :
  state_ g = Healthy -> server_ (service_ g) = true -> shutting_down_ (service_ g) = false ->
  cq_workers_ (service_ g) <> 0%nat ->
  Gateway_destroy token g fs = Some (Unlink token fs) /\
  Gateway_destroy token (TransitionToDisabled tk s r d g) fs = None.
Proof.
  intros Hs Hsv Hsd Hw. split.
  - unfold Gateway_destroy, Shutdown, destroy. by rewrite Hsd.
  - assert (Hsvc : service_ (TransitionToDisabled tk s r d g) = (service_ g) <| shutting_down_ := true |>).
    { unfold TransitionToDisabled, FaultCloseAllStreams. rewrite decide_True by done. cbn. rewrite Hsv, Hsd. cbn.
      by repeat case_decide. }
    unfold Gateway_destroy, Shutdown, destroy. rewrite Hsvc. cbn. by rewrite decide_False.
Qed.

Definition demo_token : AuthToken := {| value_ := []; file_path_ := "/t" |}.

Lemma disabled_gateway_destroy_terminates_witness :
  Gateway_destroy demo_token demo_g0 ∅ = Some (Unlink demo_token ∅) /\
  Gateway_destroy demo_token (TransitionToDisabled demo_tick "callback" "oom" "" demo_g0) ∅ = None.
Proof.
  apply (disabled_gateway_destroy_terminates demo_tick "callback" "oom" "" demo_token demo_g0 ∅); vm_compute;
    (reflexivity || discriminate).
Defined.
