(* ===== verification/Handlers.v ===== *)
(** The RPC handlers of the service (grpc/HighBarService.cpp): the slot
    operations they share, the unary calls, and the [SubmitCommands] stream with
    its read loop.  The [StreamState] call is in [StreamState.v].

    A handler is a function of the shared objects it touches; null handles are
    [None].  [new XxxCallData] (the replacement registered for the next call) and
    [delete this] have no effect on those objects beyond what the destructors do. *)

From S2P Require Import Prelude Float32 Proto State Counters CommandQueue CircuitAI CapabilityProvider CommandValidator.
From S2P Require Import SnapshotTick SnapshotBuilder AuthToken AdminController DeltaBus ServiceCore Gateway.

(** ** gRPC statuses *)

Inductive StatusCode :=
  | OK | CANCELLED | INVALID_ARGUMENT | FAILED_PRECONDITION | RESOURCE_EXHAUSTED
  | ALREADY_EXISTS | UNAVAILABLE | INTERNAL.

#[export] Instance StatusCode_eq_dec : EqDecision StatusCode.
Proof. solve_decision. Defined.

Record Status := { code : StatusCode; message : string }.

Definition Status_OK : Status := {| code := OK; message := "" |}.

(** ** The slots, as one thread runs them

    [Slots] of ServiceCore.v runs the same operations interleaved; here a loop
    iteration whose compare-and-swap succeeds at once. *)

Abbreviation set_gauge v := (fmap (fun c => c <| subscriber_count := v |>)).

Definition TryReserveObserverSlot (s : HighBarService) (c : option Counters)
    : HighBarService * option Counters * bool :=
  let cur := observer_count_ s in
  if Slots.kObserverHardCap <=? cur then (s, c, false)
  else (s <| observer_count_ := u32 (cur + 1) |>, set_gauge (u32 (cur + 1)) c, true).

Definition ReleaseObserverSlot (s : HighBarService) (c : option Counters)
    : HighBarService * option Counters :=
  let prev := observer_count_ s in
  (s <| observer_count_ := u32 (prev - 1) |>,
   if 0 <? prev then set_gauge (u32 (prev - 1)) c else c).

Definition TryClaimAiSlot (s : HighBarService) : HighBarService * bool :=
  if ai_slot_taken_ s then (s, false) else (s <| ai_slot_taken_ := true |>, true).

Definition ReleaseAiSlot (s : HighBarService) : HighBarService := s <| ai_slot_taken_ := false |>.

(** ** Hello *)

Inductive Role := ROLE_UNSPECIFIED | ROLE_OBSERVER | ROLE_AI.

#[export] Instance Role_eq_dec : EqDecision Role.
Proof. solve_decision. Defined.

Record HelloRequest := { hello_schema_version : string; hello_client_id : string; hello_role : Role }.

Record HelloResponse := {
  hr_schema_version : string;
  hr_session_id : string;
  hr_static_map : option StaticMap;
  hr_current_frame : Z;
}.

(** [static_map]: what [SnapshotBuilder::StaticMap] returns, when the builder and
    its lock are wired; [session_id]: what [NewSessionId] returns. *)
Definition Hello (request : HelloRequest) (session_id : string) (static_map : option StaticMap)
    (s : HighBarService) (c : option Counters)
    : HighBarService * option Counters * (HelloResponse + Status) :=
  if negb (bool_decide (hello_schema_version request = kSchemaVersion)) then
    (s, c, inr {| code := FAILED_PRECONDITION;
                  message := "schema mismatch: server=" +:+ kSchemaVersion
                             +:+ " client=" +:+ hello_schema_version request |})
  else
    let response s :=
      {| hr_schema_version := kSchemaVersion; hr_session_id := session_id;
         hr_static_map := static_map; hr_current_frame := frames_since_bind_ s |} in
    if negb (bool_decide (hello_role request = ROLE_AI)) then
      let '(s, c, reserved) := TryReserveObserverSlot s c in
      if negb reserved
      then (s, c, inr {| code := RESOURCE_EXHAUSTED; message := "observer cap reached (4)" |})
      else let '(s, c) := ReleaseObserverSlot s c in (s, c, inl (response s))
    else
      let '(s, claimed) := TryClaimAiSlot s in
      if negb claimed
      then (s, c, inr {| code := ALREADY_EXISTS; message := "AI slot already claimed" |})
      else let s := ReleaseAiSlot s in (s, c, inl (response s)).

(** ** The other unary calls *)

Record CountersResponse := {
  cr_subscriber_count : Z;
  cr_per_subscriber_queue_depth : list Z;
  cr_cumulative_dropped_subscribers : Z;
  cr_frame_flush_time_us_p99 : Z;
  cr_command_queue_depth : Z;
  cr_rejected_resource_exhausted : Z;
  cr_rejected_invalid_argument : Z;
  cr_frames_since_bind : Z;
}.

Definition GetRuntimeCounters (c : Counters) : CountersResponse :=
  {| cr_subscriber_count := subscriber_count c;
     cr_per_subscriber_queue_depth := [];
     cr_cumulative_dropped_subscribers := cumulative_dropped_subscribers c;
     cr_frame_flush_time_us_p99 := FrameFlushP99Us c;
     cr_command_queue_depth := command_queue_depth c;
     cr_rejected_resource_exhausted := command_submissions_rejected_resource_exhausted c;
     cr_rejected_invalid_argument := command_submissions_rejected_invalid_argument c;
     cr_frames_since_bind := frames_since_bind c |}.

(** What the validator sees when it is called: it is built with the default
    settings and reads the AI's registries and the map extents. *)
Record ValidatorView := { vv_ai : option CircuitAI; vv_max_x : float; vv_max_z : float }.

Definition validate (v : ValidatorView) : CommandBatch -> ValidationResult :=
  ValidateBatch (vv_ai v) default_settings (vv_max_x v) (vv_max_z v).

Definition ValidateCommandBatch (validator : option ValidatorView) (request : CommandBatch) : BatchResult * Status :=
  match validator with
  | None => (BatchResult_default, {| code := UNAVAILABLE; message := "command validator not wired" |})
  | Some v => (batch_result (validate v request), Status_OK)
  end.

Definition GetCommandSchema (settings : CapabilitySettings) (queue : option CommandQueue) (max_x max_z : float)
    : CommandSchemaResponse * Status := (CommandSchema settings queue max_x max_z, Status_OK).

Definition GetUnitCapabilities (queue : option CommandQueue) (unit_id : Z) (generation : option (Z * Z))
    : UnitCapabilitiesResponse * Status := (UnitCapabilities queue unit_id generation, Status_OK).

(** The mapping of a callback's outcome to the call's status. *)
Definition callback_status (st : CallbackRpcStatus) (error_detail : string) : Status :=
  match st with
  | CbOk => Status_OK
  | CbUnavailable => {| code := UNAVAILABLE; message := error_detail |}
  | CbFailedPrecondition => {| code := FAILED_PRECONDITION; message := error_detail |}
  | CbInternal => {| code := INTERNAL; message := error_detail |}
  end.

(** The answer of [RequestSnapshot]: [scheduled_frame] and the status. *)
Definition RequestSnapshot (module : option Gateway) : option Gateway * Z * Status :=
  match module with
  | None => (None, 0, {| code := UNAVAILABLE; message := "RequestSnapshot handle not yet wired" |})
  | Some g =>
      if negb (bool_decide (state_ g = Healthy)) then
        (Some g, 0, {| code := FAILED_PRECONDITION;
                       message := "gateway state=" +:+
                         (if decide (state_ g = Disabling) then "disabling" else "disabled")%string |})
      else
        let scheduled := u32 (current_frame_ g + 1) in
        (Some (g <| snapshot_tick_ ::= RequestPending |>), scheduled, Status_OK)
  end.

(** A handshake never holds a slot: after [Hello] the observer count and the
    AI slot are what they were, whatever the answer; and it is answered with a
    session exactly when the schema versions are equal and the requested role has
    room -- fewer than four observers, or a free AI slot -- and otherwise with the
    status of the first check that failed. *)
Theorem Hello_transient (request : HelloRequest) (sid : string) (m : option StaticMap)
    (s : HighBarService) (c : option Counters) :
  is_u32 (observer_count_ s) ->
  let '(s', _, answer) := Hello request sid m s c in
  s' = s /\
  answer =
    (if negb (bool_decide (hello_schema_version request = kSchemaVersion)) then
       inr {| code := FAILED_PRECONDITION;
              message := "schema mismatch: server=1.0.0 client=" +:+ hello_schema_version request |}
     else if bool_decide (hello_role request = ROLE_AI) then
       if ai_slot_taken_ s then inr {| code := ALREADY_EXISTS; message := "AI slot already claimed" |}
       else inl {| hr_schema_version := kSchemaVersion; hr_session_id := sid; hr_static_map := m;
                   hr_current_frame := frames_since_bind_ s |}
     else if 4 <=? observer_count_ s then inr {| code := RESOURCE_EXHAUSTED; message := "observer cap reached (4)" |}
     else inl {| hr_schema_version := kSchemaVersion; hr_session_id := sid; hr_static_map := m;
                 hr_current_frame := frames_since_bind_ s |}).
Proof.
  unfold is_u32, Hello, TryReserveObserverSlot, ReleaseObserverSlot, TryClaimAiSlot, ReleaseAiSlot, Slots.kObserverHardCap.
  intros Hu. destruct s as [n taken f sd fa sv cq ws]; cbn in *.
  destruct (bool_decide (hello_schema_version request = kSchemaVersion)); cbn; [|done].
  destruct (bool_decide (hello_role request = ROLE_AI)); cbn.
  - by destruct taken.
  - destruct (Z.leb_spec 4 n); cbn; [done|]. rewrite (u32_small (n + 1)) by lia.
    replace (n + 1 - 1) with n by lia. rewrite u32_small by lia. done.
Qed.

Lemma Hello_transient_witness :
  let '(s', _, answer) := Hello {| hello_schema_version := "0.9.0"; hello_client_id := "x"; hello_role := ROLE_AI |}
                            "s" None HighBarService_new None in
  s' = HighBarService_new /\
  answer = inr {| code := FAILED_PRECONDITION; message := "schema mismatch: server=1.0.0 client=0.9.0" |}.
Proof.
  apply (Hello_transient {| hello_schema_version := "0.9.0"; hello_client_id := "x"; hello_role := ROLE_AI |}
           "s" None HighBarService_new None).
  vm_compute. split; [discriminate|reflexivity].
Defined.

(** * SubmitCommands

    The completions of one call, interleaved with the engine thread's drains of
    the command queue.  [drained] is the history of what the engine took. *)
Module Submit.

Inductive Stage := kCreated | kReading | kFinishing | kDeleted.

#[export] Instance Stage_eq_dec : EqDecision Stage.
Proof. solve_decision. Defined.

Record CommandAck := {
  ack_last_accepted_batch_seq : Z;
  ack_batches_accepted : Z;
  ack_batches_rejected_invalid : Z;
  ack_batches_rejected_full : Z;
  ack_results : list BatchResult;
}.

Record World := {
  service : HighBarService;
  counters : option Counters;
  queue : option CommandQueue;
  wired : bool;                             (** [validator_ != nullptr] *)
  drained : list QueuedCommand;
  stage_ : Stage;
  ai_slot_claimed_ : bool;
  session_id_ : string;
  last_accepted_batch_seq_ : Z;
  last_seen_batch_seq_ : Z;
  batches_accepted_ : Z;
  batches_rejected_invalid_ : Z;
  batches_rejected_full_ : Z;
  results_ : list BatchResult;
  outcome : option (Status * option CommandAck);   (** what [Finish] was called with *)
}.

#[export] Instance World_eta : Eta World := fun w =>
  Build_World (service w) (counters w) (queue w) (wired w) (drained w) (stage_ w) (ai_slot_claimed_ w) (session_id_ w)
    (last_accepted_batch_seq_ w) (last_seen_batch_seq_ w) (batches_accepted_ w) (batches_rejected_invalid_ w)
    (batches_rejected_full_ w) (results_ w) (outcome w).

Definition World_new (s : HighBarService) (c : option Counters) (q : option CommandQueue) (validator : bool) : World :=
  {| service := s; counters := c; queue := q; wired := validator; drained := []; stage_ := kCreated;
     ai_slot_claimed_ := false; session_id_ := ""; last_accepted_batch_seq_ := 0; last_seen_batch_seq_ := 0;
     batches_accepted_ := 0; batches_rejected_invalid_ := 0; batches_rejected_full_ := 0; results_ := [];
     outcome := None |}.

Definition Finish (status : StatusCode) (msg : string) (w : World) : World :=
  w <| stage_ := kFinishing |> <| outcome := Some ({| code := status; message := msg |}, None) |>.

(** [ok = true] of the call's arrival. *)
Definition HandleCreated (session_id : string) (w : World) : World :=
  if negb (has (queue w)) || negb (wired w) then Finish UNAVAILABLE "command path not wired" w
  else
    let '(s, claimed) := TryClaimAiSlot (service w) in
    let w := w <| service := s |> in
    if negb claimed then Finish ALREADY_EXISTS "AI slot already claimed" w
    else w <| ai_slot_claimed_ := true |> <| session_id_ := session_id |> <| stage_ := kReading |>.

(** A failed read: the client's end of stream. *)
Definition HandleEof (w : World) : World :=
  w <| stage_ := kFinishing |>
    <| outcome := Some (Status_OK,
         Some {| ack_last_accepted_batch_seq := last_accepted_batch_seq_ w;
                 ack_batches_accepted := batches_accepted_ w;
                 ack_batches_rejected_invalid := batches_rejected_invalid_ w;
                 ack_batches_rejected_full := batches_rejected_full_ w;
                 ack_results := results_ w |}) |>.

Definition issue_of (incoming : CommandBatch) (c : CommandIssueCode) (path detail : string) (hint : RetryHint) : CommandIssue :=
  {| issue_code := c; issue_command_index := 0; issue_field_path := path; issue_detail := detail;
     issue_retry_hint := hint; issue_batch_seq := batch_seq incoming;
     issue_client_command_id := get0 (client_command_id incoming) |}.

Definition stale_result (incoming : CommandBatch) : BatchResult :=
  {| result_batch_seq := batch_seq incoming;
     result_client_command_id := get0 (client_command_id incoming);
     result_status := COMMAND_BATCH_REJECTED_STALE;
     result_issues := [issue_of incoming STALE_OR_DUPLICATE_BATCH_SEQ "batch_seq"
       "batch_seq must increase within a SubmitCommands stream" RETRY_AFTER_NEXT_SNAPSHOT];
     result_accepted_command_count := 0; result_queued_frame := 0;
     result_mode := VALIDATION_MODE_STRICT; result_would_reject := false |}.

Definition full_result (incoming : CommandBatch) (r : BatchResult) : BatchResult :=
  {| result_batch_seq := result_batch_seq r;
     result_client_command_id := result_client_command_id r;
     result_status := COMMAND_BATCH_REJECTED_QUEUE_FULL;
     result_issues := result_issues r ++
       [issue_of incoming QUEUE_FULL "commands" "command queue full" RETRY_AFTER_QUEUE_DRAINS];
     result_accepted_command_count := 0; result_queued_frame := result_queued_frame r;
     result_mode := result_mode r; result_would_reject := result_would_reject r |}.

Definition count_invalid (w : World) : World :=
  w <| batches_rejected_invalid_ ::= fun n => u64 (n + 1) |>
    <| counters ::= fmap (fun c => c <| command_submissions_rejected_invalid_argument ::= fun n => u64 (n + 1) |>) |>.

Definition count_full (w : World) : World :=
  w <| batches_rejected_full_ ::= fun n => u64 (n + 1) |>
    <| counters ::= fmap (fun c => c <| command_submissions_rejected_resource_exhausted ::= fun n => u64 (n + 1) |>) |>.

(** A completed read of [incoming], on the command queue [q]. *)
Definition HandleReadDone (v : ValidatorView) (incoming : CommandBatch) (q : CommandQueue) (w : World) : World :=
  if batch_seq incoming <=? last_seen_batch_seq_ w then
    Finish INVALID_ARGUMENT "duplicate or stale batch_seq"
      (count_invalid w <| results_ ::= fun l => l ++ [stale_result incoming] |>)
  else
    let result := validate v incoming in
    if negb (ok result) then
      Finish INVALID_ARGUMENT (error result)
        (count_invalid w <| results_ ::= fun l => l ++ [batch_result result] |>)
    else
      let '(q', pushed) := TryPushBatch (children incoming (session_id_ w)) q in
      if negb pushed then
        Finish RESOURCE_EXHAUSTED "command queue full"
          (count_full w <| results_ ::= fun l => l ++ [full_result incoming (batch_result result)] |>)
      else
        w <| queue := Some q' |>
          <| batches_accepted_ ::= fun n => u64 (n + 1) |>
          <| last_accepted_batch_seq_ := batch_seq incoming |>
          <| last_seen_batch_seq_ := batch_seq incoming |>
          <| results_ ::= fun l => l ++ [batch_result result] |>.

(** The destructor. *)
Definition delete_call (w : World) : World :=
  w <| service ::= fun s => if ai_slot_claimed_ w then ReleaseAiSlot s else s |> <| stage_ := kDeleted |>.

Inductive event :=
  | ECreated (ok : bool) (session_id : string)
  | ERead (v : ValidatorView) (incoming : CommandBatch)
  | EEof
  | EFinished
  | EDrain (n : nat).                          (** the engine thread drains the queue *)

(** [Proceed] on a completion that the call is waiting for; [None] otherwise. *)
Definition step (e : event) (w : World) : option World :=
  match e, stage_ w with
  | ECreated ok sid, kCreated => Some (if ok then HandleCreated sid w else delete_call w)
  | ERead v incoming, kReading => q ← queue w; Some (HandleReadDone v incoming q w)
  | EEof, kReading => Some (HandleEof w)
  | EFinished, kFinishing => Some (delete_call w)
  | EDrain n, _ =>
      q ← queue w;
      let '(q', out) := drain_into n q in
      Some (w <| queue := Some q' |> <| drained ::= fun l => l ++ out |>)
  | _, _ => None
  end.

Fixpoint run (es : list event) (w : World) : option World :=
  match es with
  | [] => Some w
  | e :: es' => w' ← step e w; run es' w'
  end.

(** The batches read, with what the validator saw at each. *)
Definition reads (es : list event) : list (ValidatorView * CommandBatch) :=
  omap (fun e => match e with ERead v b => Some (v, b) | _ => None end) es.

(** Strictly increasing, starting above [n]. *)
Fixpoint increasing_from (n : Z) (l : list Z) : Prop :=
  match l with
  | [] => True
  | x :: l' => n < x /\ increasing_from x l'
  end.

Lemma increasing_from_snoc (n : Z) (l : list Z) (x : Z) :
  increasing_from n (l ++ [x]) <-> increasing_from n l /\ default n (last l) < x.
Proof.
  revert n. induction l as [|y l IH]; intros n; cbn; [tauto|]. rewrite IH.
  destruct l as [|z l]; cbn; [tauto|]. destruct (last (z :: l)) eqn:E; [tauto|]. by apply last_None in E.
Qed.

(** Why the batch that ended the stream was refused. *)
Definition refusal (last : Z) (vb : ValidatorView * CommandBatch) (st : Status) : Prop :=
  (batch_seq vb.2 <= last /\ code st = INVALID_ARGUMENT) \/
  (last < batch_seq vb.2 /\ ok (validate vb.1 vb.2) = false /\
     st = {| code := INVALID_ARGUMENT; message := error (validate vb.1 vb.2) |}) \/
  (last < batch_seq vb.2 /\ ok (validate vb.1 vb.2) = true /\ code st = RESOURCE_EXHAUSTED).

Abbreviation seqs_of acc := (batch_seq ∘ snd <$> acc).
Definition last_seq_of (acc : list (ValidatorView * CommandBatch)) : Z := default 0 (last (seqs_of acc)).

Definition result_of (vb : ValidatorView * CommandBatch) : BatchResult := batch_result (validate vb.1 vb.2).

Definition ack_of (acc : list (ValidatorView * CommandBatch)) : CommandAck :=
  {| ack_last_accepted_batch_seq := last_seq_of acc; ack_batches_accepted := u64 (size_of acc);
     ack_batches_rejected_invalid := 0; ack_batches_rejected_full := 0; ack_results := result_of <$> acc |}.

(** A stream that read [acc], accepted it all, and then perhaps read [rej]:
    what it did to the queue, whose initial content was [before], and what it
    answered. *)
Definition stream_spec (sid : string) (before : list QueuedCommand) (acc : list (ValidatorView * CommandBatch))
    (rej : option (ValidatorView * CommandBatch)) (q : CommandQueue) (w : World) : Prop :=
  drained w ++ queue_ q = before ++ concat ((fun vb => children vb.2 sid) <$> acc) /\
  increasing_from 0 (seqs_of acc) /\
  Forall (fun vb => ok (validate vb.1 vb.2) = true) acc /\
  match rej with
  | None => outcome w = None \/ outcome w = Some (Status_OK, Some (ack_of acc))
  | Some vb => exists st, outcome w = Some (st, None) /\ refusal (last_seq_of acc) vb st
  end /\
  ai_slot_taken_ (service w) = bool_decide (stage_ w <> kDeleted).

(** The fields of a call in terms of the same. *)
Record call_inv (sid : string) (acc : list (ValidatorView * CommandBatch)) (q : CommandQueue) (w : World) : Prop := {
  ci_queue : queue w = Some q;
  ci_wf : queue_wf q;
  ci_claimed : ai_slot_claimed_ w = true;
  ci_stage : stage_ w <> kCreated /\ (outcome w = None <-> stage_ w = kReading);
  ci_reading : outcome w = None ->
    session_id_ w = sid /\ last_accepted_batch_seq_ w = last_seq_of acc /\ last_seen_batch_seq_ w = last_seq_of acc /\
    batches_accepted_ w = u64 (size_of acc) /\ batches_rejected_invalid_ w = 0 /\ batches_rejected_full_ w = 0 /\
    results_ w = result_of <$> acc;
}.

Lemma last_seq_of_snoc (acc : list (ValidatorView * CommandBatch)) (vb : ValidatorView * CommandBatch) :
  last_seq_of (acc ++ [vb]) = batch_seq vb.2.
Proof. unfold last_seq_of. rewrite fmap_app. change (seqs_of [vb]) with [batch_seq vb.2]. by rewrite last_snoc. Qed.

Lemma drain_into_app (n : nat) (q : CommandQueue) :
  (drain_into n q).2 ++ queue_ (drain_into n q).1 = queue_ q.
Proof. unfold drain_into, Drain; cbn. apply take_drop. Qed.

(** A read that is accepted. *)
Lemma read_accepted (sid : string) (before : list QueuedCommand) (acc : list (ValidatorView * CommandBatch))
    (v : ValidatorView) (b : CommandBatch) (q q' : CommandQueue) (w : World) :
  stream_spec sid before acc None q w -> call_inv sid acc q w -> outcome w = None ->
  last_seq_of acc < batch_seq b -> ok (validate v b) = true ->
  TryPushBatch (children b sid) q = (q', true) ->
  let w' := HandleReadDone v b q w in
  stream_spec sid before (acc ++ [(v, b)]) None q' w' /\ call_inv sid (acc ++ [(v, b)]) q' w'.
Proof.
  intros (Hq & Hi & Hf & Ho & Hs) [Hwq Hwf Hc [Hst Hsto] Hr] Hnone Hlt Hok Hp.
  destruct (Hr Hnone) as (Esid & El & Els & Eb & Ei & Ef & Er).
  assert (Hfits : size_of (queue_ q) + size_of (children b sid) <= capacity_ q).
  { destruct (decide (size_of (queue_ q) + size_of (children b sid) <= capacity_ q)) as [|Hn]; [done|].
    rewrite TryPushBatch_full in Hp by (done || lia). done. }
  rewrite TryPushBatch_fits in Hp by done. injection Hp as <-.
  cbn zeta. unfold HandleReadDone. rewrite Els, Esid, Hok. cbn [negb].
  destruct (Z.leb_spec (batch_seq b) (last_seq_of acc)); [lia|].
  rewrite TryPushBatch_fits by done. cbn [negb]. split.
  - unfold stream_spec; cbn. split_and!.
    + by rewrite app_assoc, Hq, fmap_app, concat_app, <- app_assoc; cbn; rewrite app_nil_r.
    + rewrite fmap_app. apply increasing_from_snoc. by split.
    + apply Forall_app. by repeat constructor.
    + by left.
    + done.
  - split; cbn; try done.
    + by apply pushed_wf.
    + intros _. rewrite last_seq_of_snoc, fmap_app, Er, Eb, size_of_app. split_and!; try done.
      change (size_of [(v, b)]) with 1. unfold u64. by rewrite Zplus_mod_idemp_l.
Qed.

(** A read that is refused leaves the queue alone. *)
Lemma read_refused (sid : string) (before : list QueuedCommand) (acc : list (ValidatorView * CommandBatch))
    (v : ValidatorView) (b : CommandBatch) (q : CommandQueue) (w : World) :
  stream_spec sid before acc None q w -> call_inv sid acc q w -> outcome w = None ->
  batch_seq b <= last_seq_of acc \/ ok (validate v b) = false \/ (TryPushBatch (children b sid) q).2 = false ->
  let w' := HandleReadDone v b q w in
  stream_spec sid before acc (Some (v, b)) q w' /\ call_inv sid acc q w'.
Proof.
  intros (Hq & Hi & Hf & Ho & Hs) [Hwq Hwf Hc [Hst Hsto] Hr] Hnone Hcause.
  destruct (Hr Hnone) as (Esid & El & Els & Eb & Ei & Ef & Er).
  assert (Hsl : stage_ w = kReading) by (by apply Hsto). rewrite Hsl in Hs.
  cbn zeta. unfold HandleReadDone. rewrite Els, Esid.
  destruct (Z.leb_spec (batch_seq b) (last_seq_of acc)) as [Hle|Hlt].
  { split; [|by split]. unfold stream_spec; cbn. split_and!; try done. eexists. split; [done|]. by left. }
  destruct (ok (validate v b)) eqn:Hok; cbn [negb].
  - destruct Hcause as [?|[?|Hfull]]; [lia|done|].
    destruct (TryPushBatch (children b sid) q) as [q' []]; [done|]. cbn [negb].
    split; [|by split]. unfold stream_spec; cbn. split_and!; try done. eexists. split; [done|]. right. by right.
  - split; [|by split]. unfold stream_spec; cbn. split_and!; try done. eexists. split; [done|]. right. by left.
Qed.

Lemma step_spec (sid : string) (before : list QueuedCommand) (acc : list (ValidatorView * CommandBatch))
    (rej : option (ValidatorView * CommandBatch)) (q : CommandQueue) (e : event) (w w' : World) :
  stream_spec sid before acc rej q w -> call_inv sid acc q w -> step e w = Some w' ->
  exists acc' rej' q', acc' ++ option_list rej' = acc ++ option_list rej ++ reads [e] /\
    stream_spec sid before acc' rej' q' w' /\ call_inv sid acc' q' w'.
Proof.
  intros Hspec Hinv. pose proof Hspec as (Hq & Hi & Hf & Ho & Hs). pose proof Hinv as [Hwq Hwf Hc [Hst Hsto] Hr].
  destruct e as [okc s|v b| | |n]; cbn -[drain_into].
  - destruct (stage_ w); done.
  - destruct (stage_ w) eqn:Es; try done. rewrite Hwq. intros [= <-]. assert (Hn : outcome w = None) by (by apply Hsto).
    destruct rej as [vb|]; [destruct Ho as (st & ? & _); congruence|].
    destruct (decide (last_seq_of acc < batch_seq b /\ ok (validate v b) = true /\ (TryPushBatch (children b sid) q).2 = true))
      as [(H1 & H2 & H3)|Hn2].
    + destruct (TryPushBatch (children b sid) q) as [q' r] eqn:Ep. cbn in H3. subst r.
      exists (acc ++ [(v, b)]), None, q'. split; [by rewrite app_nil_r|]. by apply read_accepted.
    + exists acc, (Some (v, b)), q. split; [done|]. apply read_refused; try done.
      destruct (Z.le_gt_cases (batch_seq b) (last_seq_of acc)); [by left|right].
      destruct (ok (validate v b)); [right|by left]. destruct ((TryPushBatch (children b sid) q).2) eqn:E; [|done].
      exfalso. apply Hn2. split_and!; [lia|done..].
  - destruct (stage_ w) eqn:Es; try done. intros [= <-]. assert (Hn : outcome w = None) by (by apply Hsto).
    destruct rej as [vb|]; [destruct Ho as (st & ? & _); congruence|].
    exists acc, None, q. destruct (Hr Hn) as (Esid & El & Els & Eb & Ei & Ef & Er).
    split; [done|]. split; [|by split]. unfold stream_spec; cbn. split_and!; try done.
    right. unfold ack_of. by rewrite El, Eb, Ei, Ef, Er.
  - destruct (stage_ w) eqn:Es; try done. intros [= <-]. exists acc, rej, q. split; [by rewrite app_nil_r|].
    assert (Hn : outcome w <> None) by (intros H; apply Hsto in H; done).
    split; [|by split]. unfold stream_spec; cbn. rewrite Hc. by split_and!.
  - rewrite Hwq. cbn -[drain_into]. destruct (drain_into n q) as [q' out] eqn:Ed.
    pose proof (drain_into_app n q) as Hd. pose proof (drain_into_wf n q Hwf) as Hdw. rewrite Ed in Hd, Hdw. cbn in Hd, Hdw.
    intros [= <-].
    exists acc, rej, q'. split; [by rewrite app_nil_r|]. split; [|by split].
    unfold stream_spec; cbn. split_and!; try done. by rewrite <- app_assoc, Hd.
Qed.

Lemma run_spec (sid : string) (before : list QueuedCommand) (es : list event)
    (acc : list (ValidatorView * CommandBatch)) (rej : option (ValidatorView * CommandBatch)) (q : CommandQueue) (w w' : World) :
  stream_spec sid before acc rej q w -> call_inv sid acc q w -> run es w = Some w' ->
  exists acc' rej' q', acc' ++ option_list rej' = acc ++ option_list rej ++ reads es /\
    stream_spec sid before acc' rej' q' w' /\ call_inv sid acc' q' w'.
Proof.
  revert acc rej q w. induction es as [|e es IH]; intros acc rej q w Hspec Hinv; cbn [run].
  { intros [= <-]. exists acc, rej, q. by rewrite app_nil_r. }
  destruct (step e w) as [w1|] eqn:E; [|done]. intros Hr.
  destruct (step_spec _ _ _ _ _ _ _ _ Hspec Hinv E) as (acc1 & rej1 & q1 & Ha & Hs1 & Hi1).
  destruct (IH _ _ _ _ Hs1 Hi1 Hr) as (acc2 & rej2 & q2 & Ha2 & Hs2 & Hi2).
  exists acc2, rej2, q2. split; [|done]. rewrite Ha2, app_assoc, Ha, <- !app_assoc. do 2 f_equal. by destruct e.
Qed.

(** C4. A command stream does exactly what its batches say: whatever the client
    sends and however the engine thread drains meanwhile, the stream reads batches
    up to the first refused one; the queue received precisely the commands of the
    accepted batches, in order and each once; the accepted batches passed
    validation and have strictly increasing sequence numbers; a refusal ends the
    stream with the status of its cause; the acknowledgement of a clean end
    carries the accepted batches' results; and the AI slot is held until the call
    is deleted. *)
Theorem submit_stream (s : HighBarService) (c : option Counters) (q0 : CommandQueue) (sid : string)
    (es : list event) (w : World) :
  queue_wf q0 -> ai_slot_taken_ s = false ->
  run (ECreated true sid :: es) (World_new s c (Some q0) true) = Some w ->
  exists acc rej q, reads es = acc ++ option_list rej /\ queue w = Some q /\
    stream_spec sid (queue_ q0) acc rej q w.
Proof.
  intros Hq Hs. cbn [run step World_new stage_]. unfold HandleCreated. cbn [World_new queue wired has negb orb service].
  unfold TryClaimAiSlot. rewrite Hs. cbn [negb mbind option_bind]. set (w0 := set_field _ _ _). intros Hr.
  destruct (run_spec sid (queue_ q0) es [] None q0 w0 w) as (acc & rej & q & Ha & Hsp & Hin); [..|exact Hr|].
  - unfold stream_spec; cbn. rewrite app_nil_r. split_and!; try done. by left.
  - by split.
  - exists acc, rej, q. split; [done|]. split; [apply Hin|done].
Qed.

(** Two good batches, a drain, and a batch that repeats a sequence number. *)
Definition demo_view : ValidatorView :=
  {| vv_ai := Some demo_ai; vv_max_x := float_of_Z 1000; vv_max_z := float_of_Z 1000 |}.
Definition demo_seq_batch (n : Z) : CommandBatch :=
  {| batch_seq := n; target_unit_id := 7; commands := [demo_move 7 n]; batch_options := None;
     client_command_id := Some n; based_on_frame := None; based_on_state_seq := None; target_generation := None;
     conflict_policy := COMMAND_CONFLICT_POLICY_UNSPECIFIED |}.
Definition demo_events : list event :=
  [ERead demo_view (demo_seq_batch 3); EDrain 1; ERead demo_view (demo_seq_batch 5);
   ERead demo_view (demo_seq_batch 5); EFinished].
Definition demo_queue : CommandQueue := CommandQueue_new (Some Counters_new) 8.
Definition demo_start : World := World_new HighBarService_new (Some Counters_new) (Some demo_queue) true.
Definition demo_end : World := default demo_start (run (ECreated true "s" :: demo_events) demo_start).

Lemma submit_stream_witness :
  code <$> (fst <$> outcome demo_end) = Some INVALID_ARGUMENT /\ length (drained demo_end) = 1%nat /\
  exists acc rej q, reads demo_events = acc ++ option_list rej /\ queue demo_end = Some q /\
    stream_spec "s" (queue_ demo_queue) acc rej q demo_end.
Proof.
  split; [vm_compute; reflexivity|]. split; [vm_compute; reflexivity|].
  apply (submit_stream HighBarService_new (Some Counters_new) demo_queue).
  - apply CommandQueue_new_wf. lia.
  - reflexivity.
  - vm_compute. reflexivity.
Defined.

End Submit.
