(* ===== verification/StreamState.v ===== *)
(** The [StreamState] call (grpc/HighBarService.cpp, [StreamStateCallData]): one
    client's stream against the running gateway.

    The engine thread pushes an update into the ring and then publishes it on the
    bus; the call subscribes, sends a baseline (a replay from the ring or a fresh
    snapshot) and then forwards what its slot delivers.  The threads interleave
    freely: the bus is the world of [DeltaBus.Interleave], in which other
    subscribers come and go, and between any two steps of the pump thread the
    engine may push or publish. *)

From S2P Require Import Prelude State Counters RingBuffer SubscriberSlot DeltaBus ServiceCore Handlers.

#[local] Existing Instance Interleave.World_eta.

(** Where the pump thread is. *)
Inductive After :=
  | ThenReplay (rest : list RingEntry)     (** the rest of the replay loop *)
  | ThenLoop.                              (** the live loop *)

Inductive Pump :=
  | AtStart                                (** subscribed; the baseline is next *)
  | AtWrite (u : StateUpdate) (k : After)  (** in [WriteAndWait], then [k] *)
  | AtLoop                                 (** at the condition of the live loop *)
  | AtPop                                  (** in [BlockingPop] *)
  | AtDone (status : Status).              (** [FinishWithStatus] *)

Record Session := {
  slot_ : option nat;
  observer_slot_reserved_ : bool;
  resume_from_seq_ : Z;
  last_sent_seq : Z;
  stop_ : bool;
  pump_ : Pump;
  written : list StateUpdate;              (** the writes that completed *)
}.

#[export] Instance Session_eta : Eta Session := fun s =>
  Build_Session (slot_ s) (observer_slot_reserved_ s) (resume_from_seq_ s) (last_sent_seq s) (stop_ s) (pump_ s) (written s).

Record World := {
  service : HighBarService;
  ring : RingBuffer;
  updates : list StateUpdate;              (** everything pushed into the ring *)
  ahead : option string;                   (** in the ring, not yet handed to [Publish] *)
  world : Interleave.World;                (** the bus and its other users *)
  session : option Session;
}.

#[export] Instance World_eta : Eta World := fun w =>
  Build_World (service w) (ring w) (updates w) (ahead w) (world w) (session w).

Definition bus_of (w : World) : DeltaBus := Interleave.bus (world w).

Definition World_new (capacity : nat) (c : option Counters) : res World :=
  r ← RingBuffer.New capacity;
  Ok {| service := HighBarService_new; ring := r; updates := []; ahead := None;
        world := Interleave.World_new c; session := None |}.

Definition done_with (c : StatusCode) (msg : string) : Pump := AtDone {| code := c; message := msg |}.

Section Stream.
Context (SerializeAsString : StateUpdate -> string) (ParseFromString : string -> option StateUpdate).

Definition entry (u : StateUpdate) : RingEntry := {| seq := upd_seq u; payload := Some (SerializeAsString u) |}.

(** The replay loop up to its next write; [None]: a null payload is dereferenced. *)
Definition replay_next (rest : list RingEntry) : option Pump :=
  match rest with
  | [] => Some AtLoop
  | e :: rest' =>
      p ← payload e;
      Some match ParseFromString p with
           | Some u => AtWrite u (ThenReplay rest')
           | None => done_with INTERNAL "ring entry deserialize failed"
           end
  end.

Definition next_pump (k : After) : option Pump :=
  match k with ThenReplay rest => replay_next rest | ThenLoop => Some AtLoop end.

(** [Proceed] on a new call: the observer slot, then the handles. *)
Definition open (resume : Z) (wired : bool) (w : World) : option World :=
  let '(svc, c, reserved) := TryReserveObserverSlot (service w) (counters_ (bus_of w)) in
  let w := w <| service := svc |> <| world ::= fun bw => bw <| Interleave.bus ::= fun b => b <| counters_ := c |> |> |> in
  let s := {| slot_ := None; observer_slot_reserved_ := reserved; resume_from_seq_ := 0; last_sent_seq := 0;
              stop_ := false; pump_ := AtStart; written := [] |} in
  if negb reserved then
    Some (w <| session := Some (s <| pump_ := done_with RESOURCE_EXHAUSTED "observer cap reached (4)" |>) |>)
  else if negb wired then
    Some (w <| session := Some (s <| pump_ := done_with UNAVAILABLE "gateway US1 handles not wired" |>) |>)
  else
    let id := next_slot (bus_of w) in
    bw ← Interleave.act_step Interleave.ASubscribe (world w);
    Some (w <| world := bw |>
            <| session := Some (s <| slot_ := Some id |> <| resume_from_seq_ := u64 resume |>
                                  <| last_sent_seq := u64 resume |>) |>).

(** The baseline: a replay when the ring can answer, else a fresh snapshot. *)
Definition baseline (frame : Z) (snap : StateSnapshot) (w : World) (s : Session) : option Pump :=
  let replay := if 0 <? resume_from_seq_ s then GetFromSeq (ring w) (resume_from_seq_ s) else None in
  match replay with
  | None => Some (AtWrite {| upd_seq := HeadSeq (ring w); upd_frame := frame; upd_payload := PSnapshot snap;
                             send_monotonic_ns := 0 |} ThenLoop)
  | Some entries => replay_next entries
  end.

(** The completion of a write. *)
Definition write_done (op_ok : bool) (u : StateUpdate) (k : After) (s : Session) : option Session :=
  if op_ok && negb (stop_ s) then
    p ← next_pump k;
    Some (s <| last_sent_seq := upd_seq u |> <| written ::= fun l => l ++ [u] |> <| pump_ := p |>)
  else Some (s <| pump_ := done_with CANCELLED "client disconnected or Write failed" |>).

(** What the pump does with the result of [BlockingPop]; [reason] is the slot's
    eviction reason. *)
Definition popped (payload : option string) (reason : EvictionReason) (s : Session) : Pump :=
  match payload with
  | None => match reason with
            | kSlowConsumer => done_with RESOURCE_EXHAUSTED "slow consumer evicted"
            | kFault => done_with UNAVAILABLE "gateway disabled"
            | _ => done_with OK ""
            end
  | Some p => match ParseFromString p with
              | None => done_with INTERNAL "live payload deserialize failed"
              | Some u => if upd_seq u <=? last_sent_seq s then AtLoop else AtWrite u ThenLoop
              end
  end.

(** The destructor: unsubscribe, release the observer slot. *)
Definition close (w : World) (s : Session) : option World :=
  bw ← match slot_ s with
       | Some id => Interleave.act_run [Interleave.AEvict id kCanceled; Interleave.AErase id] (world w)
       | None => Some (world w)
       end;
  let w := w <| world := bw |> <| session := None |> in
  if observer_slot_reserved_ s then
    let '(svc, c) := ReleaseObserverSlot (service w) (counters_ (bus_of w)) in
    Some (w <| service := svc |> <| world ::= fun bw => bw <| Interleave.bus ::= fun b => b <| counters_ := c |> |> |>)
  else Some w.

Inductive label :=
  | LEngine (u : StateUpdate)              (** [ring_->Push] of the next update *)
  | LBus (a : Interleave.act)              (** the bus: publishes and other sessions *)
  | LOpen (resume : Z) (wired : bool)
  | LBaseline (frame : Z) (snap : StateSnapshot)
  | LWritten (op_ok : bool)
  | LCheck
  | LPop
  | LStop
  | LClose.

(** The engine thread publishes what it pushed, and pops are the owner's. *)
Definition bus_allowed (a : Interleave.act) (w : World) : bool :=
  match a with
  | Interleave.APublish p => bool_decide (ahead w = Some p)
  | Interleave.APop id => bool_decide ((session w ≫= slot_) <> Some id)
  | _ => true
  end.

Definition on_session (w : World) (f : Session -> option Session) : option World :=
  s ← session w; s' ← f s; Some (w <| session := Some s' |>).

Definition step (l : label) (w : World) : option World :=
  match l with
  | LEngine u =>
      match ahead w, Interleave.inflight (world w) with
      | None, None =>
          if upd_seq u =? HeadSeq (ring w) + 1 then
            match Push (ring w) (upd_seq u) (Some (SerializeAsString u)) with
            | Ok r => Some (w <| ring := r |> <| updates ::= fun l => l ++ [u] |>
                              <| ahead := Some (SerializeAsString u) |>)
            | Throw _ => None
            end
          else None
      | _, _ => None
      end
  | LBus a =>
      if bus_allowed a w then
        bw ← Interleave.act_step a (world w);
        Some (w <| world := bw |> <| ahead ::= fun p => match a with Interleave.APublish _ => None | _ => p end |>)
      else None
  | LOpen resume wired => match session w with None => open resume wired w | Some _ => None end
  | LBaseline frame snap =>
      on_session w (fun s => match pump_ s with
                             | AtStart => p ← baseline frame snap w s; Some (s <| pump_ := p |>)
                             | _ => None
                             end)
  | LWritten op_ok =>
      on_session w (fun s => match pump_ s with AtWrite u k => write_done op_ok u k s | _ => None end)
  | LCheck =>
      on_session w (fun s => match pump_ s with
                             | AtLoop => Some (s <| pump_ := if stop_ s then AtDone Status_OK else AtPop |>)
                             | _ => None
                             end)
  | LPop =>
      s ← session w;
      match pump_ s, slot_ s with
      | AtPop, Some id =>
          sl ← heap (bus_of w) !! id;
          '(_, o) ← BlockingPop sl;
          bw ← Interleave.act_step (Interleave.APop id) (world w);
          Some (w <| world := bw |> <| session := Some (s <| pump_ := popped o (Eviction sl) s |>) |>)
      | _, _ => None
      end
  | LStop => on_session w (fun s => Some (s <| stop_ := true |>))
  | LClose => s ← session w; match pump_ s with AtDone _ => close w s | _ => None end
  end.

Fixpoint run (ls : list label) (w : World) : option World :=
  match ls with
  | [] => Some w
  | l :: ls' => w' ← step l w; run ls' w'
  end.
(** * The invariant *)

(** The updates at positions [a .. b-1], that is with numbers [a+1 .. b]. *)
Definition seg (a b : nat) (us : list StateUpdate) : list StateUpdate := drop a (take b us).

Lemma seg_snoc (a n : nat) (us : list StateUpdate) (u : StateUpdate) :
  us !! n = Some u -> (a <= n)%nat -> seg a (S n) us = seg a n us ++ [u].
Proof.
  intros Hu Ha. unfold seg. rewrite (take_S_r _ _ _ Hu). apply drop_app_le.
  rewrite length_take. apply lookup_lt_Some in Hu. lia.
Qed.

Lemma seg_cons (n m : nat) (us : list StateUpdate) :
  (n < m)%nat -> (m <= length us)%nat -> exists u, us !! n = Some u /\ seg n m us = u :: seg (S n) m us.
Proof.
  intros Hn Hm. destruct (lookup_lt_is_Some_2 us n) as [u Hu]; [lia|]. exists u. split; [done|].
  unfold seg. apply drop_S. by rewrite lookup_take_lt.
Qed.

Lemma seg_nil (n : nat) (us : list StateUpdate) : seg n n us = [].
Proof. unfold seg. apply drop_ge. rewrite length_take. lia. Qed.

Lemma seg_grow (a n : nat) (us : list StateUpdate) (u : StateUpdate) :
  (n <= length us)%nat -> seg a n (us ++ [u]) = seg a n us.
Proof. intros Hn. unfold seg. by rewrite take_app_le. Qed.

Definition snapshot_at (h : nat) (u : StateUpdate) : Prop :=
  upd_seq u = Z.of_nat h /\ exists snap, upd_payload u = PSnapshot snap.

(** The client has been sent everything up to update [n], after its own resume
    point or after a snapshot. *)
Definition sent (us : list StateUpdate) (s : Session) (n : nat) : Prop :=
  (n <= length us)%nat /\ last_sent_seq s = Z.of_nat n /\
  ((exists r, resume_from_seq_ s = Z.of_nat r /\ (0 < r <= n)%nat /\ written s = seg r n us) \/
   (exists h first, snapshot_at h first /\ (h <= n)%nat /\ written s = first :: seg h n us)).

Lemma sent_pump (us : list StateUpdate) (s : Session) (n : nat) (p : Pump) :
  sent us s n -> sent us (s <| pump_ := p |>) n.
Proof. done. Qed.

Lemma sent_grow (us : list StateUpdate) (s : Session) (n : nat) (u : StateUpdate) :
  sent us s n -> sent (us ++ [u]) s n.
Proof.
  intros (Hn & Hl & H). split; [rewrite length_app; lia|]. split; [done|].
  destruct H as [(r & Hr & Hrn & Hw)|(h & first & Hs & Hh & Hw)]; [left; exists r|right; exists h, first];
    by rewrite seg_grow.
Qed.

Lemma sent_write (us : list StateUpdate) (s : Session) (n : nat) (u : StateUpdate) (p : Pump) :
  sent us s n -> us !! n = Some u -> upd_seq u = Z.of_nat n + 1 ->
  sent us (s <| last_sent_seq := upd_seq u |> <| written ::= fun l => l ++ [u] |> <| pump_ := p |>) (S n).
Proof.
  intros (Hn & Hl & H) Hu Hs. apply lookup_lt_Some in Hu as Hlt. split; [lia|]. split; [cbn; lia|]. cbn.
  destruct H as [(r & Hr & Hrn & Hw)|(h & first & Hsn & Hh & Hw)]; [left; exists r|right; exists h, first];
    rewrite Hw, (seg_snoc _ _ _ _ Hu) by lia; (split; [done|]; split; [lia|done]).
Qed.

(** [j]: how many payloads had been published when the slot joined; [d]: how many
    it has been popped. *)
Definition progress (us : list StateUpdate) (s : Session) (j d : nat) : Prop :=
  match pump_ s with
  | AtStart => written s = [] /\ d = 0%nat /\ (j <= length us)%nat /\ last_sent_seq s = resume_from_seq_ s
  | AtWrite u (ThenReplay rest) =>
      exists n m, sent us s n /\ d = 0%nat /\ (j <= m <= length us)%nat /\ us !! n = Some u /\ (n < m)%nat /\
        rest = entry <$> seg (S n) m us
  | AtWrite u ThenLoop =>
      (exists h, written s = [] /\ d = 0%nat /\ snapshot_at h u /\ (j <= h <= length us)%nat) \/
      (exists n, sent us s n /\ us !! n = Some u /\ (j + d = S n)%nat)
  | AtLoop | AtPop => exists n, sent us s n /\ (j + d <= n)%nat
  | AtDone st => (written s = [] \/ exists n, sent us s n) /\ code st <> INTERNAL
  end.

Lemma progress_grow (us : list StateUpdate) (s : Session) (j d : nat) (u : StateUpdate) :
  progress us s j d -> progress (us ++ [u]) s j d.
Proof.
  unfold progress. rewrite length_app; cbn.
  destruct (pump_ s) as [|v [rest|]| | |st]; intros H.
  - destruct H as (? & ? & ? & ?). split_and!; try done; lia.
  - destruct H as (n & m & Hs & Hd & Hj & Hu & Hnm & Hr). exists n, m. split; [by apply sent_grow|]. split; [done|]. split; [lia|].
    split; [by apply lookup_app_l_Some|]. split; [done|]. rewrite seg_grow by lia. done.
  - destruct H as [(h & Hw & Hd & Hs & Hj)|(n & Hs & Hu & Hj)]; [left|right].
    + exists h. split_and!; try done; lia.
    + exists n. split; [by apply sent_grow|]. split; [by apply lookup_app_l_Some|done].
  - destruct H as (n & Hs & Hj). eauto using sent_grow.
  - destruct H as (n & Hs & Hj). eauto using sent_grow.
  - destruct H as [Hw Hc]. split; [|done]. destruct Hw as [|[n Hw]]; eauto using sent_grow.
Qed.

Definition roundtrips (us : list StateUpdate) : Prop :=
  Forall (fun u => ParseFromString (SerializeAsString u) = Some u) us.

Lemma roundtrips_lookup (us : list StateUpdate) (i : nat) (u : StateUpdate) :
  roundtrips us -> us !! i = Some u -> ParseFromString (SerializeAsString u) = Some u.
Proof. intros Hr Hu. unfold roundtrips in Hr. rewrite Forall_lookup in Hr. eauto. Qed.

(** The replay loop resumed after update [n]. *)
Lemma replay_progress (us : list StateUpdate) (s : Session) (j n m : nat) (p : Pump) :
  roundtrips us -> sent us s n -> (n <= m <= length us)%nat -> (j <= m)%nat ->
  replay_next (entry <$> seg n m us) = Some p -> progress us (s <| pump_ := p |>) j 0.
Proof.
  intros Hr Hs Hnm Hj. destruct (decide (n = m)) as [->|Hne].
  - rewrite seg_nil. intros [= <-]. exists m. split; [done|lia].
  - destruct (seg_cons n m us) as (u & Hu & ->); [lia..|]. cbn. rewrite (roundtrips_lookup _ _ _ Hr Hu).
    intros [= <-]. cbn. exists n, m. split; [done|]. split_and!; try done; lia.
Qed.

(** The engine's side: the ring holds the updates 1, 2, 3, ..., and all of them
    but the one ahead have been handed to the bus. *)
Record feed_inv (w : World) : Prop := {
  fi_reach : reach (ring w) (entry <$> updates w);
  fi_seq : forall i u, updates w !! i = Some u -> upd_seq u = Z.of_nat i + 1;
  fi_pub : Interleave.published (world w) ++ option_list (ahead w) = SerializeAsString <$> updates w;
  fi_bus : Interleave.world_inv (world w);
}.

Definition session_inv (w : World) (s : Session) : Prop :=
  is_u64 (resume_from_seq_ s) /\
  match slot_ s with
  | None => (exists st, pump_ s = AtDone st /\ code st <> INTERNAL) /\ written s = []
  | Some id => exists j ds, is_Some (heap (bus_of w) !! id) /\
      Interleave.joined (world w) !! id = Some j /\ Interleave.delivered (world w) !! id = Some ds /\
      progress (updates w) s j (length ds)
  end.

Lemma entries_gapless (w : World) : feed_inv w -> gapless (entry <$> updates w).
Proof.
  intros Hf i e. rewrite list_lookup_fmap. intros (u & Hu & ->)%fmap_Some. cbn. by apply (fi_seq _ Hf).
Qed.

Lemma head_is_length (w : World) : feed_inv w -> HeadSeq (ring w) = Z.of_nat (length (updates w)).
Proof.
  intros Hf. destruct (reach_ok _ _ (fi_reach _ Hf)) as [_ Hh]. unfold HeadSeq. rewrite Hh.
  rewrite gapless_last by (by apply entries_gapless). by rewrite length_fmap.
Qed.

Lemma baseline_progress (frame : Z) (snap : StateSnapshot) (w : World) (s : Session) (j : nat) (p : Pump) :
  feed_inv w -> roundtrips (updates w) -> Z.of_nat (length (updates w)) + 1 < 2 ^ 64 ->
  is_u64 (resume_from_seq_ s) -> pump_ s = AtStart -> progress (updates w) s j 0 ->
  baseline frame snap w s = Some p -> progress (updates w) (s <| pump_ := p |>) j 0.
Proof.
  intros Hf Hrt Hb Hu Hp Hs. unfold progress in Hs. rewrite Hp in Hs. destruct Hs as (Hw & _ & Hj & Hl).
  unfold baseline. pose proof (head_is_length _ Hf) as Hh.
  assert (Hsnap : forall p', Some (AtWrite {| upd_seq := HeadSeq (ring w); upd_frame := frame;
      upd_payload := PSnapshot snap; send_monotonic_ns := 0 |} ThenLoop) = Some p' ->
      progress (updates w) (s <| pump_ := p' |>) j 0).
  { intros p' [= <-]. cbn. left. exists (length (updates w)). rewrite Hh. split; [done|]. split; [done|]. split; [split; [done|by eexists]|lia]. }
  destruct (Z.ltb_spec 0 (resume_from_seq_ s)) as [Hpos|]; [|by auto].
  rewrite (GetFromSeq_exact _ _ _ (fi_reach _ Hf) (entries_gapless _ Hf)) by (rewrite ?length_fmap; done).
  case_decide as Hc; [|by auto]. destruct Hc as [_ Hc]. rewrite length_fmap in Hc.
  set (r := Z.to_nat (resume_from_seq_ s)). rewrite <- fmap_drop.
  replace (drop r (updates w)) with (seg r (length (updates w)) (updates w)) by (unfold seg; by rewrite take_ge by lia).
  assert (Hr : resume_from_seq_ s = Z.of_nat r) by (subst r; lia).
  apply replay_progress; [done| |lia|lia].
  split; [lia|]. split; [lia|]. left. exists r. rewrite seg_nil. split_and!; try done; lia.
Qed.

Lemma write_progress (op_ok : bool) (us : list StateUpdate) (u : StateUpdate) (k : After) (s s' : Session) (j d : nat) :
  roundtrips us -> (forall i v, us !! i = Some v -> upd_seq v = Z.of_nat i + 1) ->
  pump_ s = AtWrite u k -> progress us s j d -> write_done op_ok u k s = Some s' -> progress us s' j d.
Proof.
  intros Hrt Hseq Hp Hs. unfold progress in Hs. rewrite Hp in Hs. unfold write_done.
  destruct (op_ok && negb (stop_ s)).
  - destruct k as [rest|]; cbn [next_pump].
    + destruct Hs as (n & m & Hsent & -> & Hj & Hu & Hnm & ->).
      pose proof (sent_write us s n u AtStart Hsent Hu (Hseq _ _ Hu)) as Hs1.
      destruct (replay_next _) as [p|] eqn:E; [|done]. cbn. intros [= <-].
      exact (replay_progress us _ j (S n) m p Hrt Hs1 ltac:(lia) ltac:(lia) E).
    + cbn. intros [= <-]. destruct Hs as [(h & Hw & -> & [Hsn Hsp] & Hj)|(n & Hsent & Hu & Hj)].
      * exists h. split; [|lia]. split; [lia|]. split; [done|]. right. exists h, u. cbn. rewrite Hw, seg_nil.
        split; [by split|]. split; [lia|done].
      * exists (S n). split; [|lia]. apply sent_write; eauto.
  - intros [= <-]. split; [|done]. destruct k as [rest|].
    + destruct Hs as (n & m & Hsent & _). right. exists n. done.
    + destruct Hs as [(h & Hw & _)|(n & Hsent & _)]; [by left|right; exists n; done].
Qed.

(** What a pop yields: the update at the position the slot has reached. *)
Lemma pop_progress (us : list StateUpdate) (s : Session) (j d : nat) (o : option string) (r : EvictionReason) :
  roundtrips us -> (forall i v, us !! i = Some v -> upd_seq v = Z.of_nat i + 1) ->
  pump_ s = AtPop -> progress us s j d ->
  (forall p, o = Some p -> exists u, us !! (j + d)%nat = Some u /\ p = SerializeAsString u) ->
  progress us (s <| pump_ := popped o r s |>) j (d + length (option_list o)).
Proof.
  intros Hrt Hseq Hp Hs Ho. unfold progress in Hs. rewrite Hp in Hs. destruct Hs as (n & Hsent & Hj).
  destruct o as [p|]; cbn [popped option_list length].
  - destruct (Ho p eq_refl) as (u & Hu & ->). rewrite (roundtrips_lookup _ _ _ Hrt Hu).
    pose proof Hsent as (Hn & Hl & _). rewrite (Hseq _ _ Hu), Hl.
    destruct (Z.leb_spec (Z.of_nat (j + d) + 1) (Z.of_nat n)); cbn.
    + exists n. split; [done|lia].
    + right. exists n. assert (j + d = n)%nat as E by lia. rewrite E in Hu. split_and!; [done..|lia].
  - unfold progress. destruct r; cbn; (split; [right; exists n; done|done]).
Qed.

(** ** Every step keeps it *)

Definition inv (w : World) : Prop := feed_inv w /\ forall s, session w = Some s -> session_inv w s.

Lemma feed_inv_ext (w w' : World) :
  feed_inv w -> ring w' = ring w -> updates w' = updates w -> ahead w' = ahead w ->
  Interleave.world_inv (world w') -> Interleave.published (world w') = Interleave.published (world w) -> feed_inv w'.
Proof. intros [H1 H2 H3 H4] Er Eu Ea Hb Hp. split; rewrite ?Er, ?Eu, ?Ea, ?Hp; done. Qed.

Lemma counters_inv (bw : Interleave.World) (c : option Counters) :
  Interleave.world_inv bw -> Interleave.world_inv (bw <| Interleave.bus ::= fun b => b <| counters_ := c |> |>).
Proof. intros Hb. by apply (Interleave.world_inv_registry bw). Qed.

(** Steps of the pump that touch only the session. *)
Lemma on_session_inv (w w' : World) (f : Session -> option Session) :
  inv w -> on_session w f = Some w' ->
  (forall s s', session_inv w s -> f s = Some s' -> session_inv w s') -> inv w'.
Proof.
  intros [Hf Hs] Ho Hk. unfold on_session in Ho. destruct (session w) as [s|] eqn:E; [|done]. cbn in Ho.
  destruct (f s) as [s'|] eqn:Ef; [|done]. cbn in Ho. injection Ho as <-. split.
  - by eapply feed_inv_ext; [exact Hf|try done..]; apply Hf.
  - cbn. intros s0 [= <-]. eapply (Hk s s'); [by apply Hs|done].
Qed.

Lemma step_LEngine (u : StateUpdate) (w w' : World) : inv w -> step (LEngine u) w = Some w' -> inv w'.
Proof.
  intros [Hf Hs] Hst. cbn in Hst. destruct (ahead w) as [|] eqn:Ea; [done|].
  destruct (Interleave.inflight (world w)); [done|]. destruct (Z.eqb_spec (upd_seq u) (HeadSeq (ring w) + 1)) as [Hu|]; [|done].
  destruct (Push _ _ _) as [r|] eqn:Ep; [|done]. injection Hst as <-. rewrite (head_is_length _ Hf) in Hu.
  destruct Hf as [H1 H2 H3 H4]. split; [split; cbn; try done|].
  - rewrite fmap_app. cbn. eapply reach_push; [exact H1|exact Ep].
  - intros i v. destruct (decide (i < length (updates w))%nat) as [Hi|Hi].
    + rewrite lookup_app_l by done. apply H2.
    + rewrite lookup_app_r by lia. intros Hv. destruct (i - length (updates w))%nat as [|k] eqn:Ek; [|done].
      cbn in Hv. injection Hv as <-. lia.
  - rewrite Ea in H3. cbn in H3. rewrite app_nil_r in H3. by rewrite H3, fmap_app.
  - cbn. intros s Hses. destruct (Hs s Hses) as [Hu64 Hi]. split; [done|]. destruct (slot_ s) as [id|]; [|done].
    destruct Hi as (j & ds & Hh & Hj & Hd & Hp). exists j, ds. split_and!; try done. by apply progress_grow.
Qed.

Lemma step_LBus (a : Interleave.act) (w w' : World) : inv w -> step (LBus a) w = Some w' -> inv w'.
Proof.
  intros [Hf Hs] Hst. cbn in Hst. destruct (bus_allowed a w) eqn:Eal; [|done].
  destruct (Interleave.act_step a (world w)) as [bw|] eqn:Ea; [|done]. cbn in Hst. injection Hst as <-.
  pose proof (Interleave.act_step_published _ _ _ Ea) as Hpub. pose proof (fi_bus _ Hf) as Hb. split.
  - destruct Hf as [H1 H2 H3 H4]. split; cbn; [done|done| |by eapply Interleave.act_step_inv].
    rewrite <- H3, Hpub. destruct a; rewrite ?app_nil_r; try done.
    cbn in Eal. apply bool_decide_eq_true in Eal. by rewrite Eal.
  - cbn. intros s Hses. destruct (Hs s Hses) as [Hu64 Hi]. split; [done|]. destruct (slot_ s) as [id|] eqn:Esl; [|done].
    destruct Hi as (j & ds & Hh & Hj & Hd & Hp).
    destruct (Interleave.act_step_frame a (world w) bw id Hb Ea Hh) as (Hh' & Hj' & Hd').
    { intros ->. cbn in Eal. apply bool_decide_eq_true in Eal. rewrite Hses in Eal. cbn in Eal. done. }
    exists j, ds. unfold bus_of. cbn. rewrite Hj', Hd'. done.
Qed.

Lemma step_LOpen (resume : Z) (wired : bool) (w w' : World) : inv w -> step (LOpen resume wired) w = Some w' -> inv w'.
Proof.
  intros [Hf Hs] Hst. cbn in Hst. destruct (session w); [done|]. unfold open in Hst.
  destruct (TryReserveObserverSlot _ _) as [[svc c] reserved].
  pose proof (counters_inv (world w) c (fi_bus _ Hf)) as Hb. set (bw := set_field _ _ (world w)) in Hb.
  assert (Hf1 : feed_inv (w <| service := svc |> <| world := bw |>)) by (by eapply feed_inv_ext).
  destruct reserved; cbn [negb] in Hst.
  2:{ injection Hst as <-. split; [by eapply feed_inv_ext|]. cbn. intros s [= <-]. split; [done|]. cbn. eauto. }
  destruct wired; cbn [negb] in Hst.
  2:{ injection Hst as <-. split; [by eapply feed_inv_ext|]. cbn. intros s [= <-]. split; [done|]. cbn. eauto. }
  cbn in Hst. injection Hst as <-. split.
  - eapply feed_inv_ext; [exact Hf|try done..]. by eapply (Interleave.step_ASubscribe bw).
  - cbn. intros s [= <-]. split; [cbn; apply u64_range|]. cbn.
    eexists _, []. rewrite !lookup_insert_eq. split; [by eexists|]. split; [done|]. split; [done|].
    cbn. split_and!; try done. pose proof (f_equal length (fi_pub _ Hf)) as Hl.
    rewrite length_app, length_fmap in Hl. lia.
Qed.

(** The payload a pop takes is the published one at the slot's position. *)
Lemma popped_payload (w : World) (id : nat) (sl : SubscriberSlot) (j : nat) (ds : list string) (p : string) :
  feed_inv w -> heap (bus_of w) !! id = Some sl ->
  Interleave.joined (world w) !! id = Some j -> Interleave.delivered (world w) !! id = Some ds ->
  head (queue_ sl) = Some p ->
  exists u, updates w !! (j + length ds)%nat = Some u /\ p = SerializeAsString u.
Proof.
  intros Hf Hsl Hj Hd Hq.
  destruct (Interleave.inv_slots _ (fi_bus _ Hf) id sl Hsl) as (pre & ds' & post & Hj' & Hd' & Hp & _).
  rewrite Hj in Hj'. rewrite Hd in Hd'. injection Hj' as ->. injection Hd' as <-.
  assert (Hx : (SerializeAsString <$> updates w) !! (length pre + length ds)%nat = Some p).
  { rewrite <- (fi_pub _ Hf), Hp. destruct (queue_ sl) as [|x q]; [done|]. injection Hq as ->.
    rewrite <- !app_assoc. rewrite lookup_app_r by lia. rewrite lookup_app_r by lia.
    by replace (length pre + length ds - length pre - length ds)%nat with 0%nat by lia. }
  rewrite list_lookup_fmap in Hx. apply fmap_Some in Hx as (u & Hu & ->). eauto.
Qed.

Lemma step_LPop (w w' : World) : roundtrips (updates w) -> inv w -> step LPop w = Some w' -> inv w'.
Proof.
  intros Hrt [Hf Hs] Hst. cbn -[Interleave.act_step] in Hst. destruct (session w) as [s|] eqn:Eses; [|done].
  cbn -[Interleave.act_step] in Hst.
  destruct (pump_ s) eqn:Epu; try done. destruct (slot_ s) as [id|] eqn:Esl; [|done].
  destruct (heap (bus_of w) !! id) as [sl|] eqn:Eh; [|done]. cbn -[Interleave.act_step] in Hst.
  destruct (BlockingPop sl) as [[sl' o]|] eqn:Eb; [|done]. cbn -[Interleave.act_step] in Hst.
  destruct (Interleave.act_step (Interleave.APop id) (world w)) as [bw|] eqn:Ea; [|done]. cbn in Hst. injection Hst as <-.
  pose proof (Interleave.act_step_published _ _ _ Ea) as Hpub. rewrite app_nil_r in Hpub.
  pose proof (Interleave.act_step_inv _ _ _ Ea (fi_bus _ Hf)) as Hb.
  destruct (Hs s eq_refl) as [Hu64 Hi]. rewrite Esl in Hi. destruct Hi as (j & ds & Hh & Hj & Hd & Hp).
  cbn in Ea. unfold bus_of in Eh. rewrite Eh in Ea. cbn in Ea. rewrite Eb in Ea. injection Ea as <-.
  split; [by eapply feed_inv_ext|]. cbn. intros s0 [= <-]. split; [done|]. cbn. rewrite ?Esl.
  exists j, (ds ++ option_list o). unfold bus_of; cbn. rewrite lookup_alter_is_Some, lookup_alter_eq, Hd.
  split; [by eexists|]. split; [done|]. split; [done|]. rewrite length_app.
  apply pop_progress; [done|apply Hf|done|done|]. intros p ->.
  eapply popped_payload; [done|exact Eh|done..|].
  unfold BlockingPop in Eb. destruct (pop_ready sl); [|done]. injection Eb as Eb.
  apply pop_front_spec in Eb as (-> & _). done.
Qed.

Lemma step_LClose (w w' : World) : inv w -> step LClose w = Some w' -> inv w'.
Proof.
  intros [Hf Hs] Hst. cbn -[Interleave.act_run] in Hst. destruct (session w) as [s|]; [|done].
  cbn -[Interleave.act_run] in Hst. destruct (pump_ s); try done. unfold close in Hst.
  assert (Hbw : exists bw, match slot_ s with
      | Some id => Interleave.act_run [Interleave.AEvict id kCanceled; Interleave.AErase id] (world w)
      | None => Some (world w) end = Some bw /\
      Interleave.world_inv bw /\ Interleave.published bw = Interleave.published (world w)).
  { destruct (slot_ s) as [id|]; [|by exists (world w); split_and!; [|apply Hf|]].
    destruct (Interleave.act_run _ (world w)) as [bw|] eqn:E; [|done]. exists bw. split; [done|].
    split; [exact (Interleave.act_run_inv _ _ _ E (fi_bus _ Hf))|]. cbn in E. by injection E as <-. }
  destruct Hbw as (bw & Hm & Hb & Hp). rewrite Hm in Hst. cbn in Hst. destruct (observer_slot_reserved_ s).
  - injection Hst as <-. split; [|done].
    eapply feed_inv_ext; [exact Hf|try done..]. by apply (counters_inv bw).
  - injection Hst as <-. split; [by eapply feed_inv_ext|done].
Qed.

Lemma stream_step_inv (l : label) (w w' : World) :
  roundtrips (updates w') -> Z.of_nat (length (updates w')) + 1 < 2 ^ 64 ->
  step l w = Some w' -> inv w -> inv w'.
Proof.
  intros Hrt Hlen Hst Hi.
  assert (Hup : forall f, on_session w f = Some w' -> updates w' = updates w).
  { intros f Ho. unfold on_session in Ho. destruct (session w) as [s|]; [|done]. cbn in Ho.
    destruct (f s); [|done]. by injection Ho as <-. }
  pose proof Hi as [Hf _]. destruct l.
  - by eapply step_LEngine.
  - by eapply step_LBus.
  - by eapply step_LOpen.
  - cbn in Hst. rewrite (Hup _ Hst) in *. eapply on_session_inv; [done|exact Hst|].
    intros s s' [Hu Hsi] Hs'. destruct (pump_ s) eqn:Ep; try done.
    destruct (baseline frame snap w s) as [p|] eqn:Eb; [|done]. injection Hs' as <-. split; [done|]. cbn.
    destruct (slot_ s) as [id|]; [|by destruct Hsi as [(st & ? & _) _]; congruence].
    destruct Hsi as (j & ds & Hh & Hj & Hd & Hp). exists j, ds. split_and!; try done.
    assert (length ds = 0%nat) as Hz by (unfold progress in Hp; rewrite Ep in Hp; by destruct Hp as (_ & ? & _)).
    rewrite Hz in *. by eapply baseline_progress.
  - cbn in Hst. rewrite (Hup _ Hst) in *. eapply on_session_inv; [done|exact Hst|].
    intros s s' [Hu Hsi] Hs'. destruct (pump_ s) as [|u k| | |] eqn:Ep; try done.
    assert (Hfr : resume_from_seq_ s' = resume_from_seq_ s /\ slot_ s' = slot_ s).
    { unfold write_done in Hs'. destruct (op_ok && negb (stop_ s)); [|by injection Hs' as <-].
      destruct (next_pump k); [|done]. by injection Hs' as <-. }
    destruct Hfr as [Er Esl]. split; [by rewrite Er|]. rewrite Esl.
    destruct (slot_ s) as [id|]; [|by destruct Hsi as [(st & ? & _) _]; congruence].
    destruct Hsi as (j & ds & Hh & Hj & Hd & Hp). exists j, ds. split_and!; try done.
    eapply write_progress; [done|apply Hf|exact Ep|done|done].
  - eapply on_session_inv; [done|exact Hst|]. intros s s' [Hu Hsi] Hs'. destruct (pump_ s) eqn:Ep; try done.
    injection Hs' as <-. split; [done|]. cbn. destruct (slot_ s) as [id|]; [|by destruct Hsi as [(st & ? & _) _]; congruence].
    destruct Hsi as (j & ds & Hh & Hj & Hd & Hp). exists j, ds. split_and!; try done.
    unfold progress in Hp. rewrite Ep in Hp. destruct Hp as (n & Hn & Hle). unfold progress; cbn.
    destruct (stop_ s); [split; [right; exists n; done|done]|exists n; done].
  - destruct (session w) as [s|] eqn:Es; [|by cbn in Hst; rewrite Es in Hst].
    assert (updates w' = updates w) as Hu.
    { clear -Hst Es. cbn -[Interleave.act_step] in Hst. rewrite Es in Hst. cbn -[Interleave.act_step] in Hst.
      destruct (pump_ s); try done. destruct (slot_ s) as [id|]; [|done].
      destruct (heap (bus_of w) !! id) as [sl|]; [|done]. cbn -[Interleave.act_step] in Hst.
      destruct (BlockingPop sl) as [[? ?]|]; [|done]. cbn -[Interleave.act_step] in Hst.
      destruct (Interleave.act_step _ _); [|done]. by injection Hst as <-. }
    rewrite Hu in *. by eapply step_LPop.
  - eapply on_session_inv; [done|exact Hst|]. intros s s' Hsi [= <-]. exact Hsi.
  - by eapply step_LClose.
Qed.

Lemma step_updates (l : label) (w w' : World) : step l w = Some w' -> updates w `prefix_of` updates w'.
Proof.
  assert (Hon : forall f, on_session w f = Some w' -> updates w `prefix_of` updates w').
  { intros f Ho. unfold on_session in Ho. destruct (session w) as [s|]; [|done]. cbn in Ho.
    destruct (f s); [|done]. by injection Ho as <-. }
  destruct l; cbn -[Interleave.act_step Interleave.act_run on_session]; try apply Hon.
  - destruct (ahead w); [done|]. destruct (Interleave.inflight _); [done|]. destruct (_ =? _); [|done].
    destruct (Push _ _ _); [|done]. intros [= <-]. by apply prefix_app_r.
  - destruct (bus_allowed a w); [|done]. destruct (Interleave.act_step a (world w)); [|done]. by intros [= <-].
  - destruct (session w); [done|]. unfold open. destruct (TryReserveObserverSlot _ _) as [[? ?] []]; cbn; [|by intros [= <-]].
    destruct wired; cbn; by intros [= <-].
  - destruct (session w) as [s|]; [|done]. cbn -[Interleave.act_step]. destruct (pump_ s); try done.
    destruct (slot_ s) as [id|]; [|done]. destruct (heap (bus_of w) !! id) as [sl|]; [|done]. cbn -[Interleave.act_step].
    destruct (BlockingPop sl) as [[? ?]|]; [|done]. cbn -[Interleave.act_step].
    destruct (Interleave.act_step _ _); [|done]. by intros [= <-].
  - destruct (session w) as [s|]; [|done]. cbn -[Interleave.act_run]. destruct (pump_ s); try done.
    unfold close. destruct (slot_ s) as [id|].
    + destruct (Interleave.act_run _ _); [|done]. cbn. by destruct (observer_slot_reserved_ s); intros [= <-].
    + cbn. by destruct (observer_slot_reserved_ s); intros [= <-].
Qed.

Lemma run_updates (ls : list label) (w w' : World) : run ls w = Some w' -> updates w `prefix_of` updates w'.
Proof.
  revert w. induction ls as [|l ls IH]; cbn; intros w; [by intros [= <-]|].
  destruct (step l w) as [w1|] eqn:E; [|done]. intros Hr. etrans; [by eapply step_updates|by apply IH].
Qed.

Lemma run_inv (ls : list label) (w w' : World) :
  roundtrips (updates w') -> Z.of_nat (length (updates w')) + 1 < 2 ^ 64 ->
  run ls w = Some w' -> inv w -> inv w'.
Proof.
  intros Hrt Hlen. revert w. induction ls as [|l ls IH]; cbn; intros w; [by intros [= <-]|].
  destruct (step l w) as [w1|] eqn:E; [|done]. intros Hr Hi. apply (IH w1 Hr).
  destruct (run_updates _ _ _ Hr) as [k Hk]. rewrite Hk in Hrt, Hlen. rewrite length_app in Hlen.
  eapply stream_step_inv; [|lia|exact E|done]. unfold roundtrips in *. by apply Forall_app in Hrt as [? _].
Qed.

Lemma World_new_stream_inv (capacity : nat) (c : option Counters) (w : World) : World_new capacity c = Ok w -> inv w.
Proof.
  unfold World_new. destruct (RingBuffer.New capacity) as [r|] eqn:E; [|done]. intros [= <-].
  split; [split; cbn; try done|done].
  - by eapply reach_new.
  - apply Interleave.World_new_inv.
Qed.

(** Consecutive writes have consecutive numbers. *)
Lemma sent_contiguous (us : list StateUpdate) (s : Session) (n i : nat) (u v : StateUpdate) :
  (forall k x, us !! k = Some x -> upd_seq x = Z.of_nat k + 1) -> sent us s n ->
  written s !! i = Some u -> written s !! S i = Some v -> upd_seq v = upd_seq u + 1.
Proof.
  intros Hseq (Hn & _ & H) Hu Hv.
  assert (Hseg : forall a k x, seg a n us !! k = Some x -> upd_seq x = Z.of_nat (a + k) + 1).
  { intros a k x. unfold seg. rewrite lookup_drop. intros Hx. apply lookup_take_Some in Hx as [Hx _]. by apply Hseq. }
  destruct H as [(r & _ & _ & Hw)|(h & first & [Hf _] & _ & Hw)]; rewrite Hw in Hu, Hv.
  - apply Hseg in Hu, Hv. lia.
  - cbn in Hv. apply Hseg in Hv. destruct i as [|i]; cbn in Hu; [injection Hu as <-|apply Hseg in Hu]; lia.
Qed.

(** C2. A client's stream has no gap, no repetition and no reordering: whatever
    the engine thread, the other subscribers and the pump do in between, the
    updates written are either those after the client's resume point or a snapshot
    stamped with some head [h] and those after [h], each as it was published, with
    consecutive numbers; when the pump waits on an empty queue of a live slot and
    no publish is under way, the client has been sent everything there is; and the
    stream never ends because a payload failed to parse. *)
Theorem stream_contiguous (capacity : nat) (c : option Counters) (w0 w : World) (ls : list label) (s : Session) :
  World_new capacity c = Ok w0 -> run ls w0 = Some w -> session w = Some s ->
  roundtrips (updates w) -> Z.of_nat (length (updates w)) + 1 < 2 ^ 64 ->
  (written s = [] \/ exists n, sent (updates w) s n) /\
  (forall i u v, written s !! i = Some u -> written s !! S i = Some v -> upd_seq v = upd_seq u + 1) /\
  (forall id sl, pump_ s = AtPop -> slot_ s = Some id -> heap (bus_of w) !! id = Some sl ->
     Eviction sl = kNone -> id ∈ slots_ (bus_of w) -> queue_ sl = [] ->
     ahead w = None -> Interleave.inflight (world w) = None -> sent (updates w) s (length (updates w))) /\
  (forall st, pump_ s = AtDone st -> code st <> INTERNAL).
Proof.
  intros H0 Hr Hs Hrt Hlen. pose proof (run_inv _ _ _ Hrt Hlen Hr (World_new_stream_inv _ _ _ H0)) as [Hf Hsi].
  specialize (Hsi s Hs) as [_ Hsi].
  assert (Hw : written s = [] \/ exists n, sent (updates w) s n).
  { destruct (slot_ s) as [id|]; [|left; by destruct Hsi]. destruct Hsi as (j & ds & _ & _ & _ & Hp).
    unfold progress in Hp. destruct (pump_ s) as [|u [rest|]| | |st].
    - left. by destruct Hp.
    - right. destruct Hp as (n & m & Hp & _). eauto.
    - destruct Hp as [(h & Hp & _)|(n & Hp & _)]; eauto.
    - right. destruct Hp as (n & Hp & _). eauto.
    - right. destruct Hp as (n & Hp & _). eauto.
    - by destruct Hp. }
  split; [done|]. split; [|split].
  - intros i u v Hu Hv. destruct Hw as [Hw|[n Hn]]; [by rewrite Hw in Hu|].
    eapply sent_contiguous; [apply (fi_seq _ Hf)|done..].
  - intros id sl Hp Hid Hh He Hreg Hq Ha Hfl. rewrite Hid in Hsi. destruct Hsi as (j & ds & _ & Hj & Hd & Hpr).
    unfold progress in Hpr. rewrite Hp in Hpr. destruct Hpr as (n & Hn & Hle).
    destruct (Interleave.inv_slots _ (fi_bus _ Hf) id sl Hh) as (pre & ds' & post & Hj' & Hd' & Hpub & _ & _ & _ & Hpost).
    rewrite Hj in Hj'. rewrite Hd in Hd'. injection Hj' as ->. injection Hd' as <-.
    rewrite Hpost in Hpub; [|done..|unfold Interleave.pending; rewrite Hfl; apply not_elem_of_nil].
    pose proof (f_equal length (fi_pub _ Hf)) as Hl. rewrite Ha, Hpub, Hq in Hl. cbn in Hl.
    rewrite !app_nil_r, length_app, length_fmap in Hl. pose proof Hn as (Hle2 & _).
    by replace (length (updates w)) with n by lia.
  - intros st Hst. destruct (slot_ s) as [id|].
    + destruct Hsi as (j & ds & _ & _ & _ & Hp). unfold progress in Hp. rewrite Hst in Hp. by destruct Hp.
    + destruct Hsi as [(st' & Hp & Hc) _]. congruence.
Qed.

End Stream.

(** ** A concrete stream *)

Definition demo_update (n : Z) : StateUpdate :=
  {| upd_seq := n; upd_frame := 0; upd_payload := PKeepAlive; send_monotonic_ns := 0 |}.
Definition demo_serialize (u : StateUpdate) : string :=
  String.string_of_list_ascii (repeat "a"%char (Z.to_nat (upd_seq u))).
Definition demo_parse (s : string) : option StateUpdate := Some (demo_update (Z.of_nat (String.length s))).

(** The client resumes after update 1 while update 3 is between the ring and the
    bus: 3 reaches it by replay, and its live copy is dropped. *)
Definition demo_labels : list label :=
  let publish n := [LEngine (demo_update n); LBus (Interleave.APublish (demo_serialize (demo_update n)))] in
  publish 1 ++ [LBus Interleave.ADone] ++ publish 2 ++ [LBus Interleave.ADone; LEngine (demo_update 3); LOpen 1 true;
   LBaseline 0 (StateSnapshot_default); LWritten true; LBus (Interleave.APublish (demo_serialize (demo_update 3)));
   LBus Interleave.ATryPush; LBus Interleave.ADone; LWritten true; LCheck; LPop] ++
  publish 4 ++ [LBus Interleave.ATryPush; LBus Interleave.ADone; LCheck; LPop; LWritten true; LCheck].

Lemma demo_world_ok : is_ok (World_new 8 None) = true.
Proof. reflexivity. Qed.
Definition demo_w0 : World := from_ok (World_new 8 None) demo_world_ok.
Definition demo_w : World := default demo_w0 (run demo_serialize demo_parse demo_labels demo_w0).

Lemma stream_contiguous_witness :
  exists s, session demo_w = Some s /\ upd_seq <$> written s = [2; 3; 4] /\
    (forall i u v, written s !! i = Some u -> written s !! S i = Some v -> upd_seq v = upd_seq u + 1).
Proof.
  eexists. split; [vm_compute; reflexivity|]. split; [vm_compute; reflexivity|].
  refine (proj1 (proj2 (stream_contiguous demo_serialize demo_parse 8 None demo_w0 demo_w demo_labels _ _ _ _ _ _))).
  - vm_compute. reflexivity.
  - vm_compute. reflexivity.
  - vm_compute. reflexivity.
  - vm_compute. repeat constructor.
  - vm_compute. reflexivity.
Defined.

(** One stream counts as two subscribers: opening the only stream of a fresh
    gateway leaves the subscriber gauge at 2, since both the observer slot and the
    bus write it. *)
Theorem subscriber_gauge_counts_twice :
  exists w0 w c, World_new 8 (Some Counters_new) = Ok w0 /\ run demo_serialize demo_parse [LOpen 0 true] w0 = Some w /\
    observer_count_ (service w) = 1 /\ SubscriberCount (bus_of w) = 1%nat /\
    counters_ (bus_of w) = Some c /\ cr_subscriber_count (GetRuntimeCounters c) = 2.
Proof.
  set (w0 := from_ok (World_new 8 (Some Counters_new)) eq_refl).
  set (w := default w0 (run demo_serialize demo_parse [LOpen 0 true] w0)).
  exists w0, w, (default Counters_new (counters_ (bus_of w))). split_and!; vm_compute; reflexivity.
Qed.
