(* ===== verification/StreamHandshake.v ===== *)
(** The handshake of a [StreamState] call (grpc/HighBarService.cpp,
    [StreamStateCallData]): the pump thread issues one write or finish at a time and
    waits for [op_done_]; the completion-queue worker reports completions through
    [Proceed] and deletes the call once its stage is [kFinishing].

    A step is one thread's action between two synchronisation points: the locked
    regions of [Proceed], [WriteAndWait] and [FinishWithStatus], the unlocked reads
    and writes of [stage_], the issue of an operation.  [Bind] starts one worker, so
    while it is inside [Proceed] no other completion is delivered.  What the pump
    writes, and when it decides to finish, is StreamState.v; here it is free. *)

From S2P Require Import Prelude.

Module Handshake.

Inductive Stage := kCreated | kStreaming | kFinishing.

#[export] Instance Stage_eq_dec : EqDecision Stage.
Proof. solve_decision. Defined.

Inductive Op := OpWrite | OpFinish.

(** Where the pump thread is. *)
Inductive Pump :=
  | NoThread
  | Deciding                  (** between two operations *)
  | WriteIssue                (** [WriteAndWait]: flags reset, [Write] is next *)
  | WriteWait                 (** in its [cv_.wait] *)
  | WriteFailed               (** it returned false: [FinishWithStatus] is next *)
  | FinishReset               (** [stage_] is [kFinishing], the lock is next *)
  | FinishIssue               (** [op_done_] reset, [Finish] is next *)
  | FinishWait                (** in the [cv_.wait] of [FinishWithStatus] *)
  | Exited.

#[export] Instance Pump_eq_dec : EqDecision Pump.
Proof. solve_decision. Defined.

(** Where the worker is. *)
Inductive Worker :=
  | Polling                   (** in [cq_->Next] *)
  | Signalling (ok : bool)    (** in [Proceed], before its locked region *)
  | Checking                  (** past it, [stage_] not read yet *)
  | Joining.                  (** in the destructor, at [pump_.join] *)

Record Call := {
  stage_ : Stage;
  op_done_ : bool;
  op_ok_ : bool;
  stop_ : bool;
  pump_ : Pump;
  worker : Worker;
  in_flight : list Op;        (** issued, completion not delivered *)
  deleted : bool;
}.

#[export] Instance Call_eta : Eta Call := fun c =>
  Build_Call (stage_ c) (op_done_ c) (op_ok_ c) (stop_ c) (pump_ c) (worker c) (in_flight c) (deleted c).

Definition Call_new : Call :=
  {| stage_ := kCreated; op_done_ := false; op_ok_ := false; stop_ := false; pump_ := NoThread;
     worker := Polling; in_flight := []; deleted := false |}.

(** The outcome of the accepting [Proceed]: shutdown, a refusal, or a stream. *)
Inductive Accept := NotOk | Refused | Streaming.

Inductive label :=
  | LRequest (a : Accept)
  | LComplete (ok : bool)     (** the queue delivers a completion *)
  | LSignal                   (** the locked region of [Proceed] *)
  | LCheck                    (** it reads [stage_] *)
  | LJoin                     (** the join returns, the call is freed *)
  | LWrite                    (** [WriteAndWait] is entered *)
  | LFinish                   (** [FinishWithStatus] is entered *)
  | LPump.                    (** the pump's next step inside one of them *)

Definition worker_step (l : label) (c : Call) : option Call :=
  match l, worker c with
  | LRequest a, Polling =>
      match stage_ c, a with
      | kCreated, NotOk => Some (c <| deleted := true |>)
      | kCreated, Refused => Some (c <| stage_ := kFinishing |> <| in_flight ::= fun l => l ++ [OpFinish] |>)
      | kCreated, Streaming => Some (c <| stage_ := kStreaming |> <| pump_ := Deciding |>)
      | _, _ => None
      end
  | LComplete ok, Polling =>
      match in_flight c with
      | [] => None
      | _ :: rest => Some (c <| in_flight := rest |> <| worker := Signalling ok |>)
      end
  | LSignal, Signalling ok => Some (c <| op_ok_ := ok |> <| op_done_ := true |> <| worker := Checking |>)
  | LCheck, Checking =>
      if decide (stage_ c = kFinishing) then
        if decide (pump_ c = NoThread) then Some (c <| deleted := true |> <| worker := Polling |>)
        else Some (c <| stop_ := true |> <| worker := Joining |>)
      else Some (c <| worker := Polling |>)
  | LJoin, Joining =>
      if decide (pump_ c = Exited) then Some (c <| deleted := true |> <| worker := Polling |>) else None
  | _, _ => None
  end.

Definition pump_step (l : label) (c : Call) : option Call :=
  match l, pump_ c with
  | LWrite, Deciding => Some (c <| op_done_ := false |> <| op_ok_ := false |> <| pump_ := WriteIssue |>)
  | LFinish, (Deciding | WriteFailed) => Some (c <| stage_ := kFinishing |> <| pump_ := FinishReset |>)
  | LPump, WriteIssue => Some (c <| in_flight ::= fun l => l ++ [OpWrite] |> <| pump_ := WriteWait |>)
  | LPump, WriteWait =>
      if op_done_ c || stop_ c
      then Some (c <| pump_ := if op_ok_ c && negb (stop_ c) then Deciding else WriteFailed |>)
      else None
  | LPump, FinishReset => Some (c <| op_done_ := false |> <| pump_ := FinishIssue |>)
  | LPump, FinishIssue => Some (c <| in_flight ::= fun l => l ++ [OpFinish] |> <| pump_ := FinishWait |>)
  | LPump, FinishWait => if op_done_ c then Some (c <| pump_ := Exited |>) else None
  | _, _ => None
  end.

Definition step (l : label) (c : Call) : option Call :=
  if deleted c then None
  else match l with
       | LWrite | LFinish | LPump => pump_step l c
       | _ => worker_step l c
       end.

Fixpoint run (ls : list label) (c : Call) : option Call :=
  match ls with
  | [] => Some c
  | l :: ls' => c' ← step l c; run ls' c'
  end.

(** * What the handshake guarantees *)

Definition is_signalling (w : Worker) : bool := match w with Signalling _ => true | _ => false end.

(** No operation is under way. *)
Definition quiet (c : Call) : Prop := in_flight c = [] /\ is_signalling (worker c) = false.

(** The operation [op] is under way: not delivered yet, or being reported. *)
Definition under_way (op : Op) (c : Call) : Prop :=
  (in_flight c = [op] /\ is_signalling (worker c) = false) \/ (in_flight c = [] /\ is_signalling (worker c) = true).

Definition finishing (p : Pump) : bool :=
  match p with FinishReset | FinishIssue | FinishWait | Exited => true | _ => false end.

Record call_ok (c : Call) : Prop := {
  co_pump : deleted c = false -> match pump_ c with
            | NoThread => stage_ c = kCreated /\ quiet c /\ worker c = Polling \/
                          stage_ c = kFinishing /\
                            (under_way OpFinish c /\ worker c <> Checking \/ quiet c /\ worker c = Checking)
            | WriteWait => if op_done_ c then quiet c else under_way OpWrite c
            | FinishWait => if op_done_ c then quiet c else under_way OpFinish c
            | _ => quiet c
            end;
  co_reset : deleted c = false -> pump_ c = WriteIssue \/ pump_ c = FinishIssue -> op_done_ c = false;
  co_stage : pump_ c <> NoThread -> stage_ c = if finishing (pump_ c) then kFinishing else kStreaming;
  co_stop : stop_ c = true -> worker c = Joining \/ deleted c = true;
  co_join : worker c = Joining -> finishing (pump_ c) = true;
  co_last : (pump_ c = FinishWait /\ op_done_ c = true) \/ pump_ c = Exited ->
            worker c = Checking \/ worker c = Joining \/ deleted c = true;
  co_empty : deleted c = true -> in_flight c = [];
  co_freed : deleted c = true -> pump_ c = NoThread \/ pump_ c = Exited;
}.

Lemma Call_new_ok : call_ok Call_new.
Proof. split; cbn; try done; [intros _; left; by repeat split|naive_solver..]. Qed.

Ltac handshake := unfold quiet, under_way in *; cbn in *; split; unfold quiet, under_way in *; cbn in *; intuition (subst; cbn in *; try congruence; auto).

Lemma worker_step_ok (l : label) (c c' : Call) :
  call_ok c -> deleted c = false -> worker_step l c = Some c' -> call_ok c'.
Proof.
  intros [H1 H0 H2 H3 H4 H5 H7 H6] Hd. specialize (H1 Hd). destruct c as [st done ok stop p w fl del]. cbn in *. subst del.
  destruct l as [a|b| | | | | |], w as [|b'| |]; cbn; try done; intros H.
  - destruct st, a; try done; injection H as <-; destruct p; handshake.
  - destruct fl as [|op fl]; [done|]. injection H as <-. destruct p, done; handshake.
  - injection H as <-. destruct p, done; handshake.
  - repeat case_decide; injection H as <-; destruct p, done; handshake.
  - case_decide; [|done]. injection H as <-. subst p. handshake.
Qed.

Lemma pump_step_ok (l : label) (c c' : Call) :
  call_ok c -> deleted c = false -> pump_step l c = Some c' -> call_ok c'.
Proof.
  intros [H1 H0 H2 H3 H4 H5 H7 H6] Hd. specialize (H1 Hd). destruct c as [st done ok stop p w fl del]. cbn in *. subst del.
  destruct l, p; cbn; try done; intros H.
  1-4: injection H as <-; destruct w; handshake.
  - destruct done; cbn in H.
    + injection H as <-. destruct (ok && negb stop), w; handshake.
    + destruct stop; [|done]. exfalso. destruct H3 as [->|]; [done|by specialize (H4 eq_refl)|done].
  - injection H as <-. destruct w; handshake.
  - injection H as <-. destruct w; handshake.
  - destruct done; [|done]. injection H as <-. destruct w; handshake.
Qed.

Lemma run_ok (ls : list label) (c c' : Call) : call_ok c -> run ls c = Some c' -> call_ok c'.
Proof.
  revert c. induction ls as [|l ls IH]; intros c Hc; cbn; [by intros [= <-]|].
  destruct (step l c) as [c1|] eqn:E; [|done]. cbn. apply IH. unfold step in E.
  destruct (deleted c) eqn:Hd; [done|]. destruct l; eauto using worker_step_ok, pump_step_ok.
Qed.

Lemma in_flight_le (c : Call) : call_ok c -> (length (in_flight c) <= 1)%nat.
Proof.
  intros [H1 _ _ _ _ _ H7 _]. destruct (deleted c) eqn:Hd; [rewrite H7 by done; cbn; lia|]. specialize (H1 eq_refl).
  assert (Hq : quiet c -> (length (in_flight c) <= 1)%nat) by (intros [-> _]; cbn; lia).
  assert (Hu : forall op, under_way op c -> (length (in_flight c) <= 1)%nat) by (intros op [[-> _]|[-> _]]; cbn; lia).
  destruct (pump_ c), (op_done_ c); try naive_solver.
Qed.

(** Where a call that cannot move is. *)
Lemma stuck_at_join (c : Call) :
  call_ok c -> deleted c = false -> (forall l, step l c = None) ->
  worker c = Joining /\ pump_ c = FinishWait /\ op_done_ c = false.
Proof.
  intros [H1 _ H2 H3 H4 H5 _ _] Hd Hs. specialize (H1 Hd). unfold step in Hs. rewrite Hd in Hs.
  pose proof (Hs (LRequest Refused)) as S1. pose proof (Hs (LComplete true)) as S2. pose proof (Hs LSignal) as S3.
  pose proof (Hs LCheck) as S4. pose proof (Hs LJoin) as S5. pose proof (Hs LWrite) as S6. pose proof (Hs LFinish) as S7.
  pose proof (Hs LPump) as S8. clear Hs. destruct c as [st done ok stop p w fl del]. unfold quiet, under_way in *. cbn in *.
  destruct w; try done; [|by repeat case_decide|].
  - destruct fl; [|done]. destruct p, done, st; cbn in *; try done; naive_solver.
  - specialize (H4 eq_refl). destruct p, done; cbn in *; done.
Qed.


Definition refused_call : list label := [LRequest Refused; LComplete true; LSignal; LCheck].

(** A stream of one write, then a finish. *)
Definition served_call : list label :=
  [LRequest Streaming; LWrite; LPump; LComplete true; LSignal; LCheck; LPump; LFinish; LPump; LPump;
   LComplete true; LSignal; LPump; LCheck; LJoin].

Definition end_of (ls : list label) : Call := default Call_new (run ls Call_new).


Definition racing_call : list label :=
  [LRequest Streaming; LWrite; LPump; LComplete false; LSignal; LPump; LFinish; LPump; LPump; LCheck].

(** The worker reads [stage_] after it has woken the pump: a pump that goes on to
    [FinishWithStatus] in between makes the worker delete the call on the completion
    of the write, and join a pump that waits for the completion of its finish, which
    only this worker can deliver.  There is a run of a failing write after which
    nothing can happen any more: the only worker of the completion queue is lost. *)
Theorem finish_race_deadlocks :
  exists c, run racing_call Call_new = Some c /\ worker c = Joining /\ pump_ c = FinishWait /\
    in_flight c = [OpFinish] /\ deleted c = false /\ forall l, step l c = None.
Proof.
  exists (end_of racing_call). split_and!; try (vm_compute; reflexivity). by intros []; vm_compute.
Qed.

End Handshake.
