(* ===== verification/MultiQueue.v ===== *)
(** The locked queue of the AI scheduler (util/MultiQueue.h, util/MultiQueue.hpp):
    a deque whose operations each hold [_mutex] for their whole body, so an
    operation is one atomic step. *)

From S2P Require Import Prelude.

Section MultiQueue.
Context {T : Type}.

Definition PushBack (item : T) (q : list T) : list T := q ++ [item].
Definition PushFront (item : T) (q : list T) : list T := item :: q.

(** [None]: the call waits on [_cond]. *)
Definition Pop (q : list T) : option (list T * T) :=
  match q with [] => None | item :: q' => Some (q', item) end.

Definition IsEmpty (q : list T) : bool := bool_decide (q = []).
Definition Size (q : list T) : nat := length q.
Definition Clear (q : list T) : list T := [].

(** [process] runs after the lock was released; its effect is on [S]. *)
Definition PopAndProcess {S : Type} (process : T -> S -> S) (q : list T) (s : S) : list T * S * bool :=
  match q with
  | item :: q' => (q', process item s, true)
  | [] => (q, s, false)
  end.

(** The queue stays locked, so nothing can be added meanwhile. *)
Fixpoint PopAndProcessAll {S : Type} (process : T -> S -> S) (q : list T) (s : S) : list T * S :=
  match q with
  | [] => ([], s)
  | item :: q' => PopAndProcessAll process q' (process item s)
  end.

(** ** RemoveAllIf *)

(** [*iter = _queue.back(); _queue.pop_back()]. *)
Definition replace_by_back (i : nat) (q : list T) : list T :=
  match last q with
  | Some b => take (length q - 1) (<[i := b]> q)
  | None => q
  end.

(** The loop from position [i]; an iteration either advances or shortens the
    queue, so [length q - i] of them are enough. *)
Fixpoint RemoveAllIf_loop (condition : T -> bool) (fuel i : nat) (q : list T) : list T :=
  match fuel with
  | O => q
  | S fuel =>
      match q !! i with
      | None => q
      | Some x => if condition x then RemoveAllIf_loop condition fuel i (replace_by_back i q)
                  else RemoveAllIf_loop condition fuel (S i) q
      end
  end.

Definition RemoveAllIf (condition : T -> bool) (q : list T) : list T :=
  RemoveAllIf_loop condition (length q) 0 q.

Lemma replace_by_back_split (pre : list T) (x : T) (rest : list T) :
  exists rest', replace_by_back (length pre) (pre ++ x :: rest) = pre ++ rest' /\ rest' ≡ₚ rest.
Proof.
  unfold replace_by_back. destruct rest as [|y rest _] using rev_ind.
  - exists []. rewrite last_snoc, length_app. cbn. rewrite insert_app_r_alt by lia.
    rewrite Nat.sub_diag. replace (length pre + 1 - 1)%nat with (length pre) by lia.
    by rewrite take_app_length, app_nil_r.
  - exists (y :: rest). rewrite app_comm_cons, app_assoc, last_snoc.
    rewrite !length_app. cbn. replace (length pre + S (length rest) + 1 - 1)%nat with (length pre + S (length rest))%nat by lia.
    rewrite <- app_assoc, insert_app_r_alt by lia. rewrite Nat.sub_diag. cbn.
    rewrite take_app_add. cbn. rewrite take_app_length. split; [done|]. rewrite Permutation_app_comm. done.
Qed.

Lemma RemoveAllIf_loop_spec (condition : T -> bool) (fuel : nat) (pre rest : list T) :
  (length rest <= fuel)%nat ->
  RemoveAllIf_loop condition fuel (length pre) (pre ++ rest) ≡ₚ
    pre ++ filter (fun x => condition x = false) rest.
Proof.
  revert pre rest. induction fuel as [|fuel IH]; intros pre rest Hf.
  { destruct rest; [|cbn in Hf; lia]. done. }
  destruct rest as [|x rest]; cbn [RemoveAllIf_loop].
  { rewrite lookup_ge_None_2 by (rewrite app_nil_r; lia). done. }
  rewrite list_lookup_middle by done. cbn in Hf. rewrite filter_cons. destruct (condition x) eqn:E.
  - destruct (replace_by_back_split pre x rest) as (rest' & -> & Hp).
    rewrite IH by (rewrite Hp; lia). rewrite decide_False by done. by rewrite Hp.
  - rewrite decide_True by done. rewrite cons_middle, app_assoc.
    replace (S (length pre)) with (length (pre ++ [x])) by (rewrite length_app; cbn; lia).
    rewrite IH by lia. by rewrite <- app_assoc.
Qed.

(** What the loop leaves is the filter of the queue, in some order. *)
Lemma RemoveAllIf_perm (condition : T -> bool) (q : list T) :
  RemoveAllIf condition q ≡ₚ filter (fun x => condition x = false) q.
Proof. exact (RemoveAllIf_loop_spec condition (length q) [] q ltac:(lia)). Qed.

(** The elements before the first match are not moved. *)
Lemma RemoveAllIf_loop_prefix (condition : T -> bool) (fuel : nat) (pre rest : list T) :
  exists rest', RemoveAllIf_loop condition fuel (length pre) (pre ++ rest) = pre ++ rest'.
Proof.
  revert pre rest. induction fuel as [|fuel IH]; intros pre rest; cbn [RemoveAllIf_loop]; [eauto|].
  destruct rest as [|x rest].
  { rewrite lookup_ge_None_2 by (rewrite app_nil_r; lia). eauto. }
  rewrite list_lookup_middle by done. destruct (condition x).
  - destruct (replace_by_back_split pre x rest) as (rest' & -> & _). apply IH.
  - rewrite cons_middle, app_assoc. replace (S (length pre)) with (length (pre ++ [x])) by (rewrite length_app; cbn; lia).
    destruct (IH (pre ++ [x]) rest) as [rest' ->]. exists (x :: rest'). by rewrite <- app_assoc.
Qed.

Lemma RemoveAllIf_loop_skip (condition : T -> bool) (fuel : nat) (done pre rest : list T) :
  Forall (fun x => condition x = false) pre ->
  RemoveAllIf_loop condition (length pre + fuel) (length done) (done ++ pre ++ rest) =
  RemoveAllIf_loop condition fuel (length (done ++ pre)) (done ++ pre ++ rest).
Proof.
  revert done. induction pre as [|x pre IH]; intros done Hf; cbn.
  { by rewrite app_nil_r. }
  apply Forall_cons in Hf as [Hx Hf]. rewrite list_lookup_middle by reflexivity. rewrite Hx.
  specialize (IH (done ++ [x]) Hf). rewrite <- !app_assoc in IH. cbn in IH.
  replace (S (length done)) with (length (done ++ [x])) by (rewrite length_app; cbn; lia). by rewrite IH.
Qed.

(** [RemoveAllIf], which fills a hole with the queue's last element, is a filter
    up to order: what is left is a permutation of the elements the condition
    rejects, none it accepts is left, and the elements before the first removed one
    keep their places. *)
Theorem RemoveAllIf_filters (condition : T -> bool) (q : list T) :
  RemoveAllIf condition q ≡ₚ filter (fun x => condition x = false) q /\
  Forall (fun x => condition x = false) (RemoveAllIf condition q) /\
  (forall pre rest, q = pre ++ rest -> Forall (fun x => condition x = false) pre ->
     exists rest', RemoveAllIf condition q = pre ++ rest').
Proof.
  pose proof (RemoveAllIf_perm condition q) as Hp. split; [done|]. split.
  - rewrite Hp. apply Forall_forall. by intros x [Hx _]%list_elem_of_filter.
  - intros pre rest -> Hf. unfold RemoveAllIf. rewrite length_app.
    pose proof (RemoveAllIf_loop_skip condition (length rest) [] pre rest Hf) as E. cbn in E. rewrite E.
    apply RemoveAllIf_loop_prefix.
Qed.

Lemma PopAndProcessAll_spec {S : Type} (process : T -> S -> S) (q : list T) (s : S) :
  PopAndProcessAll process q s = ([], fold_left (fun s x => process x s) q s).
Proof. revert s. induction q as [|x q IH]; intros s; cbn; auto. Qed.

End MultiQueue.
