(* ===== verification/Scheduler.v ===== *)
(** The AI's job scheduler (scheduler/Scheduler.h, Scheduler.cpp, SchedulerJob.h):
    the once and repeat queues that [ProcessJobs] runs on the engine thread every
    frame -- the gateway's [OnFrameTick] is one of the repeat jobs -- and
    [Module Pool], the worker threads shared by all schedulers with the pause
    protocol of [Release].

    A job is its identity (the [shared_ptr]); [body] says which scheduler calls
    its next run makes, given the jobs that have run so far.  Frame arithmetic is
    on [int]; overflow is undefined there, so the sums are exact. *)

From S2P Require Import Prelude MultiQueue.

Definition job : Type := nat.

Record OnceTask := { once_task : job; once_frame : Z }.
Record RepeatTask := { repeat_task : job; frameInterval : Z; repeat_lastFrame : Z }.

#[export] Instance RepeatTask_eta : Eta RepeatTask := fun t =>
  Build_RepeatTask (repeat_task t) (frameInterval t) (repeat_lastFrame t).

Record Scheduler := {
  lastFrame : Z;
  isProcessing : bool;
  onceTasks : list OnceTask;
  repeatTasks : list RepeatTask;
  removeTasks : list job;
  finishTasks : list job;                  (** a [CMultiQueue] *)
  initTasks : list job;
  releaseTasks : list job;
  ran : list job;                          (** history: the jobs run, in order *)
}.

#[export] Instance Scheduler_eta : Eta Scheduler := fun s =>
  Build_Scheduler (lastFrame s) (isProcessing s) (onceTasks s) (repeatTasks s) (removeTasks s)
    (finishTasks s) (initTasks s) (releaseTasks s) (ran s).

Definition Scheduler_new : Scheduler :=
  {| lastFrame := 0; isProcessing := false; onceTasks := []; repeatTasks := []; removeTasks := [];
     finishTasks := []; initTasks := []; releaseTasks := []; ran := [] |}.

(** ** Scheduling calls *)

Definition RunJobAt (task : job) (frame : Z) (s : Scheduler) : Scheduler :=
  s <| onceTasks ::= fun l => l ++ [{| once_task := task; once_frame := frame |}] |>.

Definition RunJobAfter (task : job) (frame : Z) (s : Scheduler) : Scheduler :=
  s <| onceTasks ::= fun l => l ++ [{| once_task := task; once_frame := lastFrame s + frame |}] |>.

Definition RunJobEvery (task : job) (interval offset : Z) (s : Scheduler) : Scheduler :=
  s <| repeatTasks ::= fun l => l ++ [{| repeat_task := task; frameInterval := interval;
                                         repeat_lastFrame := lastFrame s - interval + offset |}] |>.

(** [onceTasks.remove({task, 0}); repeatTasks.remove({task, 0, 0})]: containers
    compare by their task. *)
Definition remove_job (task : job) (s : Scheduler) : Scheduler :=
  s <| onceTasks ::= filter (fun t => once_task t <> task) |>
    <| repeatTasks ::= filter (fun t => repeat_task t <> task) |>.

Definition RemoveJob (task : job) (s : Scheduler) : Scheduler :=
  if isProcessing s then s <| removeTasks ::= fun l => l ++ [task] |> else remove_job task s.

Definition RunOnInit (task : job) (s : Scheduler) : Scheduler := s <| initTasks ::= fun l => l ++ [task] |>.
Definition RunOnRelease (task : job) (s : Scheduler) : Scheduler := s <| releaseTasks ::= fun l => l ++ [task] |>.
Definition RemoveReleaseJob (task : job) (s : Scheduler) : Scheduler :=
  s <| releaseTasks ::= filter (fun t => t <> task) |>.

(** The calls a job's body can make on its own scheduler. *)
Inductive call :=
  | CallAt (task : job) (frame : Z)
  | CallAfter (task : job) (frame : Z)
  | CallEvery (task : job) (interval offset : Z)
  | CallRemove (task : job).

Definition do_call (s : Scheduler) (c : call) : Scheduler :=
  match c with
  | CallAt t f => RunJobAt t f s
  | CallAfter t f => RunJobAfter t f s
  | CallEvery t i o => RunJobEvery t i o s
  | CallRemove t => RemoveJob t s
  end.

Section Process.
Context (body : list job -> job -> list call).

(** [task->Run()]. *)
Definition Run (task : job) (s : Scheduler) : Scheduler :=
  fold_left do_call (body (ran s) task) (s <| ran ::= fun l => l ++ [task] |>).

(** The once loop: [i] is the iterator's position; an erase keeps it, a push at
    the back extends the list it walks.  [None]: the fuel did not suffice. *)
Fixpoint once_loop (fuel i : nat) (frame : Z) (s : Scheduler) : option Scheduler :=
  match onceTasks s !! i with
  | None => Some s
  | Some t =>
      match fuel with
      | O => None
      | S fuel =>
          if once_frame t <=? frame
          then once_loop fuel i frame ((Run (once_task t) s) <| onceTasks ::= delete i |>)
          else once_loop fuel (S i) frame s
      end
  end.

Fixpoint repeat_loop (fuel i : nat) (frame : Z) (s : Scheduler) : option Scheduler :=
  match repeatTasks s !! i with
  | None => Some s
  | Some t =>
      match fuel with
      | O => None
      | S fuel =>
          repeat_loop fuel (S i) frame
            (if frameInterval t <=? frame - repeat_lastFrame t
             then (Run (repeat_task t) s) <| repeatTasks ::= alter (fun t => t <| repeat_lastFrame := frame |>) i |>
             else s)
      end
  end.

Definition ProcessJobs (fuel : nat) (frame : Z) (s : Scheduler) : option Scheduler :=
  let s := s <| isProcessing := true |> <| lastFrame := frame |> in
  s ← once_loop fuel 0 frame s;
  s ← repeat_loop fuel 0 frame s;
  let '(finish, s) := PopAndProcessAll Run (finishTasks s) s in
  let s := s <| finishTasks := finish |> in
  let s := (fold_left (fun s t => remove_job t s) (removeTasks s) s) <| removeTasks := [] |> in
  Some (s <| isProcessing := false |>).

(** [ProcessInit] up to [StartThreads], and the loop of [ProcessRelease]. *)
Definition ProcessInit (s : Scheduler) : Scheduler := fold_left (fun s t => Run t s) (initTasks s) s.
Definition ProcessRelease (s : Scheduler) : Scheduler := fold_left (fun s t => Run t s) (releaseTasks s) s.

(** ** Fuel *)

Lemma once_loop_mono (n m i : nat) (frame : Z) (s s' : Scheduler) :
  once_loop n i frame s = Some s' -> (n <= m)%nat -> once_loop m i frame s = Some s'.
Proof.
  revert m i s. induction n as [|n IH]; intros [|m] i s; cbn; destruct (onceTasks s !! i); try done; try lia.
  intros H Hle. destruct (once_frame o <=? frame); apply IH; done || lia.
Qed.

Lemma repeat_loop_mono (n m i : nat) (frame : Z) (s s' : Scheduler) :
  repeat_loop n i frame s = Some s' -> (n <= m)%nat -> repeat_loop m i frame s = Some s'.
Proof.
  revert m i s. induction n as [|n IH]; intros [|m] i s; cbn; destruct (repeatTasks s !! i); try done; try lia.
  intros H Hle. apply IH; done || lia.
Qed.

(** ** What one run changes *)

Definition once_due (frame : Z) (t : OnceTask) : Prop := once_frame t <= frame.
Definition repeat_due (frame : Z) (t : RepeatTask) : Prop := frameInterval t <= frame - repeat_lastFrame t.
#[local] Instance once_due_dec frame t : Decision (once_due frame t).
Proof. unfold once_due. apply _. Defined.
#[local] Instance repeat_due_dec frame t : Decision (repeat_due frame t).
Proof. unfold repeat_due. apply _. Defined.

(** [s'] is [s] with work added that is not due at [frame]. *)
Record grown (frame : Z) (s s' : Scheduler) : Prop := {
  gr_frame : lastFrame s' = lastFrame s;
  gr_processing : isProcessing s' = isProcessing s;
  gr_finish : finishTasks s' = finishTasks s;
  gr_once : exists a, onceTasks s' = onceTasks s ++ a /\ Forall (fun t => ~ once_due frame t) a;
  gr_repeat : exists b, repeatTasks s' = repeatTasks s ++ b /\ Forall (fun t => ~ repeat_due frame t) b;
}.

Lemma grown_refl (frame : Z) (s : Scheduler) : grown frame s s.
Proof. split; try done; exists []; by rewrite app_nil_r. Qed.

Lemma grown_trans (frame : Z) (s1 s2 s3 : Scheduler) : grown frame s1 s2 -> grown frame s2 s3 -> grown frame s1 s3.
Proof.
  intros [F1 P1 N1 (a1 & A1 & HA1) (b1 & B1 & HB1)] [F2 P2 N2 (a2 & A2 & HA2) (b2 & B2 & HB2)].
  split; try congruence; [exists (a1 ++ a2)|exists (b1 ++ b2)]; rewrite ?A2, ?A1, ?B2, ?B1, <- app_assoc, Forall_app; done.
Qed.

(** The calls that add nothing due in the current frame. *)
Definition later (frame : Z) (c : call) : Prop :=
  match c with
  | CallAt _ f => frame < f
  | CallAfter _ k => 0 < k
  | CallEvery _ _ offset => 0 < offset
  | CallRemove _ => True
  end.

Definition tame (frame : Z) : Prop := forall h j, Forall (later frame) (body h j).

Lemma do_call_grown (frame : Z) (s : Scheduler) (c : call) :
  lastFrame s = frame -> isProcessing s = true -> later frame c ->
  grown frame s (do_call s c) /\ ran (do_call s c) = ran s.
Proof.
  intros Hf Hp Hc. destruct c as [t f|t k|t i o|t]; cbn in *.
  - split; [|done]. split; cbn; try done; [|by exists []; rewrite app_nil_r]. eexists. split; [done|].
    apply Forall_singleton. unfold once_due. cbn. lia.
  - split; [|done]. split; cbn; try done; [|by exists []; rewrite app_nil_r]. eexists. split; [done|].
    apply Forall_singleton. unfold once_due. cbn. lia.
  - split; [|done]. split; cbn; try done; [by exists []; rewrite app_nil_r|]. eexists. split; [done|].
    apply Forall_singleton. unfold repeat_due. cbn. lia.
  - unfold RemoveJob. rewrite Hp. split; [|done]. split; cbn; try done; exists []; by rewrite app_nil_r.
Qed.

Lemma Run_grown (frame : Z) (t : job) (s : Scheduler) :
  tame frame -> lastFrame s = frame -> isProcessing s = true ->
  grown frame s (Run t s) /\ ran (Run t s) = ran s ++ [t].
Proof.
  intros Ht Hf Hp. unfold Run. set (s1 := set_field _ _ s).
  assert (H1 : grown frame s s1) by (split; cbn; try done; exists []; by rewrite app_nil_r).
  assert (Hr1 : ran s1 = ran s ++ [t]) by done. rewrite <- Hr1. specialize (Ht (ran s) t). clear Hr1.
  assert (Hf1 : lastFrame s1 = frame) by done. assert (Hp1 : isProcessing s1 = true) by done. clearbody s1.
  revert s1 H1 Hf1 Hp1. induction Ht as [|c l Hc _ IH]; intros s1 H1 Hf1 Hp1; cbn; [done|].
  destruct (do_call_grown frame s1 c Hf1 Hp1 Hc) as [Hg Hr].
  destruct (IH (do_call s1 c)) as [IH1 IH2].
  - by eapply grown_trans.
  - by rewrite (gr_frame _ _ _ Hg).
  - by rewrite (gr_processing _ _ _ Hg).
  - split; [done|]. by rewrite IH2.
Qed.

(** ** The loops on tame jobs *)

(** The state in which a loop over the jobs of [frame] leaves off. *)
Record after (frame : Z) (jobs : list job) (s s' : Scheduler) : Prop := {
  af_ran : ran s' = ran s ++ jobs;
  af_frame : lastFrame s' = frame;
  af_processing : isProcessing s' = true;
  af_finish : finishTasks s' = finishTasks s;
}.

Lemma once_loop_tame (frame : Z) (rest pre : list OnceTask) (s : Scheduler) :
  tame frame -> lastFrame s = frame -> isProcessing s = true ->
  onceTasks s = pre ++ rest -> Forall (fun t => ~ once_due frame t) pre ->
  exists n s', once_loop n (length pre) frame s = Some s' /\
    after frame (once_task <$> filter (once_due frame) rest) s s' /\
    Forall (fun t => ~ once_due frame t) (onceTasks s') /\
    exists b, repeatTasks s' = repeatTasks s ++ b /\ Forall (fun t => ~ repeat_due frame t) b.
Proof.
  intros Ht. remember (length (filter (once_due frame) rest)) as d eqn:Ed. revert rest pre s Ed.
  induction d as [d IHd] using lt_wf_ind. intros rest.
  induction rest as [|t rest IHr]; intros pre s Ed Hf Hp Ho Hpre.
  { exists 0%nat, s. cbn. rewrite lookup_ge_None_2 by (rewrite Ho, app_nil_r; lia). split; [done|].
    split; [split; rewrite ?app_nil_r; done|]. split; [by rewrite Ho, app_nil_r|]. exists []. by rewrite app_nil_r. }
  assert (Hl : onceTasks s !! length pre = Some t) by (by rewrite Ho, list_lookup_middle).
  rewrite filter_cons in Ed |- *. destruct (decide (once_due frame t)) as [Hd|Hd].
  - destruct (Run_grown frame (once_task t) s Ht Hf Hp) as [[F P N (a & A & HA) (b & B & HB)] Hr].
    set (s1 := (Run (once_task t) s) <| onceTasks ::= delete (length pre) |>).
    assert (Ho1 : onceTasks s1 = pre ++ (rest ++ a)).
    { change (onceTasks s1) with (delete (length pre) (onceTasks (Run (once_task t) s))).
      by rewrite A, Ho, <- app_assoc, <- app_comm_cons, delete_middle. }
    cbn in Ed. destruct (IHd (length (filter (once_due frame) (rest ++ a)))) with (rest := rest ++ a) (pre := pre) (s := s1)
      as (n & s' & Hn & [Ar Af Ap An] & Hnd & b' & Hb' & Hnb); try done.
    { rewrite filter_app, (filter_none _ a HA), app_nil_r. lia. }
    { cbn. congruence. } { cbn. congruence. }
    exists (S n), s'. cbn [once_loop]. rewrite Hl. rewrite (proj2 (Z.leb_le _ _) Hd). split; [done|]. split; [|split].
    + split; [|done|done|by rewrite An; cbn]. rewrite Ar, filter_app, (filter_none _ a HA), app_nil_r. cbn.
      by rewrite Hr, <- app_assoc.
    + done.
    + exists (b ++ b'). rewrite Hb'. cbn. rewrite B, <- app_assoc, Forall_app. done.
  - destruct (IHr (pre ++ [t]) s) as (n & s' & Hn & Ha & Hnd & Hb); try done.
    { by rewrite <- app_assoc. } { by rewrite Forall_app, Forall_singleton. }
    exists (S n), s'. cbn [once_loop]. rewrite Hl. rewrite (proj2 (Z.leb_gt _ _)) by (unfold once_due in Hd; lia).
    rewrite length_app, Nat.add_1_r in Hn. done.
Qed.

(** Tasks that are not due are walked over. *)
Lemma repeat_loop_skip (frame : Z) (l pre : list RepeatTask) (s : Scheduler) :
  repeatTasks s = pre ++ l -> Forall (fun t => ~ repeat_due frame t) l ->
  exists n, repeat_loop n (length pre) frame s = Some s.
Proof.
  revert pre s. induction l as [|t l IH]; intros pre0 s0 Ho Hl.
  - exists 0%nat. cbn. by rewrite lookup_ge_None_2 by (rewrite Ho, app_nil_r; lia).
  - inversion_clear Hl as [|? ? Hd Hl']. destruct (IH (pre0 ++ [t]) s0) as [n Hn]; [by rewrite <- app_assoc|done|].
    assert (Hl0 : repeatTasks s0 !! length pre0 = Some t) by (by rewrite Ho, list_lookup_middle).
    exists (S n). cbn [repeat_loop]. rewrite Hl0.
    rewrite (proj2 (Z.leb_gt _ _)) by (unfold repeat_due in Hd; lia). by rewrite length_app, Nat.add_1_r in Hn.
Qed.

(** [extra] are tasks added by earlier runs of the frame. *)
Lemma repeat_loop_tame (frame : Z) (rest extra pre : list RepeatTask) (s : Scheduler) :
  tame frame -> lastFrame s = frame -> isProcessing s = true ->
  repeatTasks s = pre ++ rest ++ extra -> Forall (fun t => ~ repeat_due frame t) pre ->
  Forall (fun t => ~ repeat_due frame t) extra -> Forall (fun t => 0 < frameInterval t) rest ->
  Forall (fun t => ~ once_due frame t) (onceTasks s) ->
  exists n s', repeat_loop n (length pre) frame s = Some s' /\
    after frame (repeat_task <$> filter (repeat_due frame) rest) s s' /\
    Forall (fun t => ~ once_due frame t) (onceTasks s') /\
    Forall (fun t => ~ repeat_due frame t) (repeatTasks s').
Proof.
  intros Ht. revert extra pre s.
  induction rest as [|t rest IH]; intros extra pre s Hf Hp Hr Hpre Hex Hpos Hon.
  { destruct (repeat_loop_skip frame extra pre s Hr Hex) as [n Hn]. exists n, s. split; [done|]. split; [split; rewrite ?app_nil_r; done|].
    split; [done|]. rewrite Hr. by apply Forall_app. }
  inversion_clear Hpos as [|? ? Hpt Hpos'].
  assert (Hl : repeatTasks s !! length pre = Some t) by (by rewrite Hr, <- app_comm_cons, list_lookup_middle).
  rewrite filter_cons. destruct (decide (repeat_due frame t)) as [Hd|Hd].
  - destruct (Run_grown frame (repeat_task t) s Ht Hf Hp) as [[F P N (a & A & HA) (b & B & HB)] Hrr].
    set (t' := t <| repeat_lastFrame := frame |>).
    set (s1 := (Run (repeat_task t) s) <| repeatTasks ::= alter (fun t => t <| repeat_lastFrame := frame |>) (length pre) |>).
    assert (Hr1 : repeatTasks s1 = (pre ++ [t']) ++ rest ++ (extra ++ b)).
    { change (repeatTasks s1) with (alter (fun t => t <| repeat_lastFrame := frame |>) (length pre)
                                        (repeatTasks (Run (repeat_task t) s))).
      rewrite B, Hr, <- !app_assoc, <- app_comm_cons, alter_app_r_alt, Nat.sub_diag by lia. done. }
    destruct (IH (extra ++ b) (pre ++ [t']) s1) as (n & s' & Hn & [Ar Af Ap An] & Hno & Hnr); try done.
    { cbn. congruence. } { cbn. congruence. }
    { rewrite Forall_app, Forall_singleton. split; [done|]. unfold repeat_due, t'. cbn. lia. }
    { by rewrite Forall_app. } { cbn. rewrite A, Forall_app. done. }
    exists (S n), s'. cbn [repeat_loop]. rewrite Hl. rewrite (proj2 (Z.leb_le _ _) Hd).
    rewrite length_app, Nat.add_1_r in Hn. split; [exact Hn|]. split; [|done].
    split; [|done|done|by rewrite An; cbn]. rewrite Ar. cbn. by rewrite Hrr, <- app_assoc.
  - destruct (IH extra (pre ++ [t]) s) as (n & s' & Hn & Ha & Hrest); try done.
    { by rewrite <- app_assoc. } { by rewrite Forall_app, Forall_singleton. }
    exists (S n), s'. cbn [repeat_loop]. rewrite Hl. rewrite (proj2 (Z.leb_gt _ _)) by (unfold repeat_due in Hd; lia).
    rewrite length_app, Nat.add_1_r in Hn. done.
Qed.

Lemma runs_grown (frame : Z) (l : list job) (s : Scheduler) :
  tame frame -> lastFrame s = frame -> isProcessing s = true ->
  let s' := fold_left (fun s t => Run t s) l s in grown frame s s' /\ ran s' = ran s ++ l.
Proof.
  intros Ht. revert s. induction l as [|t l IH]; intros s Hf Hp; cbn.
  - split; [apply grown_refl|by rewrite app_nil_r].
  - destruct (Run_grown frame t s Ht Hf Hp) as [Hg Hr]. destruct (IH (Run t s)) as [IH1 IH2].
    + by rewrite (gr_frame _ _ _ Hg).
    + by rewrite (gr_processing _ _ _ Hg).
    + split; [by eapply grown_trans|]. by rewrite IH2, Hr, <- app_assoc.
Qed.

Lemma filter_every {A} (P : A -> Prop) `{!forall x, Decision (P x)} (l : list A) :
  (forall x, P x) -> filter P l = l.
Proof. intros Hall. induction l as [|x l IH]; [done|]. by rewrite filter_cons, decide_True, IH. Qed.

(** The removals at the end of a frame. *)
Lemma remove_jobs_spec (l : list job) (s : Scheduler) :
  let s' := fold_left (fun s t => remove_job t s) l s in
  onceTasks s' = filter (fun t => once_task t ∉ l) (onceTasks s) /\
  repeatTasks s' = filter (fun t => repeat_task t ∉ l) (repeatTasks s) /\
  ran s' = ran s /\ lastFrame s' = lastFrame s /\ finishTasks s' = finishTasks s.
Proof.
  assert (Hext : forall {A} (f : A -> job) (t : job) (l : list job) (q : list A),
            filter (fun x => f x ∉ l) (filter (fun x => f x <> t) q) = filter (fun x => f x ∉ t :: l) q).
  { intros A f t l' q. rewrite list_filter_filter. apply list_filter_iff. intros x. rewrite not_elem_of_cons. tauto. }
  revert s. induction l as [|t l IH]; intros s; cbn.
  - rewrite !filter_every by (intros; apply not_elem_of_nil). done.
  - destruct (IH (remove_job t s)) as (-> & -> & -> & -> & ->). cbn. by rewrite !Hext.
Qed.

Lemma Forall_sublist_filter {A} (P Q : A -> Prop) `{!forall x, Decision (Q x)} (l : list A) :
  Forall P l -> Forall P (filter Q l).
Proof. rewrite !Forall_forall. intros Hall x [_ Hx]%list_elem_of_filter. auto. Qed.

(** A frame on tame jobs, with enough fuel. *)
Lemma ProcessJobs_tame (frame : Z) (s : Scheduler) :
  tame frame -> Forall (fun t => 0 < frameInterval t) (repeatTasks s) ->
  exists n0, forall n, (n0 <= n)%nat -> exists s', ProcessJobs n frame s = Some s' /\
    ran s' = ran s ++ (once_task <$> filter (once_due frame) (onceTasks s))
                   ++ (repeat_task <$> filter (repeat_due frame) (repeatTasks s)) ++ finishTasks s /\
    Forall (fun t => ~ once_due frame t) (onceTasks s') /\ Forall (fun t => ~ repeat_due frame t) (repeatTasks s') /\
    finishTasks s' = [] /\ removeTasks s' = [] /\ lastFrame s' = frame /\ isProcessing s' = false.
Proof.
  intros Ht Hpos. set (s0 := s <| isProcessing := true |> <| lastFrame := frame |>).
  destruct (once_loop_tame frame (onceTasks s) [] s0) as (n1 & s1 & H1 & [R1 F1 P1 N1] & D1 & b & B & HB); try done.
  destruct (repeat_loop_tame frame (repeatTasks s) b [] s1) as (n2 & s2 & H2 & [R2 F2 P2 N2] & D2 & D2'); try done.
  destruct (runs_grown frame (finishTasks s2) s2 Ht F2 P2) as [[F3 P3 N3 (a3 & A3 & HA3) (b3 & B3 & HB3)] R3].
  cbn [length] in H1, H2. exists (n1 `max` n2)%nat. intros n Hn. unfold ProcessJobs. fold s0.
  rewrite (once_loop_mono n1 n _ _ _ _ H1) by lia. cbn [mbind option_bind].
  rewrite (repeat_loop_mono n2 n _ _ _ _ H2) by lia. cbn [mbind option_bind]. rewrite PopAndProcessAll_spec.
  set (s3 := fold_left _ (finishTasks s2) s2) in *. set (s4 := s3 <| finishTasks := [] |>).
  destruct (remove_jobs_spec (removeTasks s4) s4) as (Eo & Er & En & Ef & Efi).
  eexists. split; [done|]. cbn [ran onceTasks repeatTasks finishTasks removeTasks lastFrame isProcessing set_field].
  split; [|split; [|split; [|split; [|split; [|split]]]]]; try done.
  - etrans; [exact En|]. change (ran s4) with (ran s3). rewrite R3, R2, R1. cbn. rewrite N2, N1. cbn.
    by rewrite <- !app_assoc.
  - change (Forall (fun t => ~ once_due frame t) (onceTasks (fold_left (fun s t => remove_job t s) (removeTasks s4) s4))).
    rewrite Eo. apply Forall_sublist_filter. change (onceTasks s4) with (onceTasks s3). rewrite A3. by apply Forall_app.
  - change (Forall (fun t => ~ repeat_due frame t) (repeatTasks (fold_left (fun s t => remove_job t s) (removeTasks s4) s4))).
    rewrite Er. apply Forall_sublist_filter. change (repeatTasks s4) with (repeatTasks s3). rewrite B3. by apply Forall_app.
  - etrans; [exact Ef|]. change (lastFrame s4) with (lastFrame s3). by rewrite F3.
Qed.

(** C39. A frame runs exactly the work that is due, in order: when no job asks for
    more work within the frame it runs in, and repeat intervals are positive,
    [ProcessJobs] returns, having run the once jobs whose frame has come, then the
    repeat jobs whose interval has elapsed, then the completions of parallel jobs,
    each once and in queue order; afterwards nothing due is left. *)
Theorem ProcessJobs_exact (frame : Z) (s : Scheduler) :
  tame frame -> Forall (fun t => 0 < frameInterval t) (repeatTasks s) ->
  exists n0, forall n, (n0 <= n)%nat -> exists s', ProcessJobs n frame s = Some s' /\
    ran s' = ran s ++ (once_task <$> filter (once_due frame) (onceTasks s))
                   ++ (repeat_task <$> filter (repeat_due frame) (repeatTasks s)) ++ finishTasks s /\
    Forall (fun t => ~ once_due frame t) (onceTasks s') /\ Forall (fun t => ~ repeat_due frame t) (repeatTasks s') /\
    finishTasks s' = [] /\ removeTasks s' = [] /\ lastFrame s' = frame /\ isProcessing s' = false.
Proof. apply ProcessJobs_tame. Qed.

(** ** Removal during a frame *)

Definition removes (cs : list call) : list job :=
  omap (fun c => match c with CallRemove t => Some t | _ => None end) cs.

Lemma calls_remove (cs : list call) (s : Scheduler) :
  isProcessing s = true ->
  let s' := fold_left do_call cs s in
  isProcessing s' = true /\ ran s' = ran s /\ removeTasks s' = removeTasks s ++ removes cs.
Proof.
  revert s. induction cs as [|c cs IH]; intros s Hp; cbn; [by rewrite app_nil_r|].
  assert (Hc : isProcessing (do_call s c) = true /\ ran (do_call s c) = ran s /\
               removeTasks (do_call s c) = removeTasks s ++ removes [c]).
  { destruct c; cbn; rewrite ?app_nil_r; try done. unfold RemoveJob. by rewrite Hp. }
  destruct Hc as (H1 & H2 & H3). destruct (IH _ H1) as (IH1 & IH2 & IH3). split; [done|].
  split; [by rewrite IH2|]. rewrite IH3, H3, <- app_assoc. by destruct c.
Qed.

(** Every removal asked for since [r0] is recorded. *)
Definition recorded (r0 : list job) (s : Scheduler) : Prop :=
  isProcessing s = true /\
  exists l, ran s = r0 ++ l /\
    forall k j t, l !! k = Some j -> CallRemove t ∈ body (r0 ++ take k l) j -> t ∈ removeTasks s.

Lemma Run_recorded (r0 : list job) (t : job) (s : Scheduler) : recorded r0 s -> recorded r0 (Run t s).
Proof.
  intros [Hp (l & Hr & Hrec)]. unfold Run. set (s1 := set_field _ _ s).
  destruct (calls_remove (body (ran s) t) s1 Hp) as (H1 & H2 & H3). split; [done|]. exists (l ++ [t]). split.
  { rewrite H2. cbn. by rewrite Hr, app_assoc. }
  intros k j x Hk Hin. rewrite H3. apply elem_of_app. destruct (decide (k < length l)%nat) as [Hlt|Hge].
  - left. rewrite lookup_app_l in Hk by done. apply (Hrec k j x Hk). by rewrite take_app_le in Hin by lia.
  - right. rewrite lookup_app_r in Hk by lia. destruct (k - length l)%nat eqn:E; [|done]. injection Hk as <-.
    rewrite take_app_ge, E in Hin by lia. cbn in Hin. rewrite app_nil_r, <- Hr in Hin.
    apply list_elem_of_omap. eauto.
Qed.

Lemma once_loop_recorded (r0 : list job) (n i : nat) (frame : Z) (s s' : Scheduler) :
  recorded r0 s -> once_loop n i frame s = Some s' -> recorded r0 s'.
Proof.
  revert i s. induction n as [|n IH]; intros i s Hs; cbn; destruct (onceTasks s !! i) as [t|]; try done;
    try by intros [= <-].
  destruct (once_frame t <=? frame); intros Hl; eapply IH; [|exact Hl| |exact Hl]; [|done].
  exact (Run_recorded r0 (once_task t) s Hs).
Qed.

Lemma repeat_loop_recorded (r0 : list job) (n i : nat) (frame : Z) (s s' : Scheduler) :
  recorded r0 s -> repeat_loop n i frame s = Some s' -> recorded r0 s'.
Proof.
  revert i s. induction n as [|n IH]; intros i s Hs; cbn; destruct (repeatTasks s !! i) as [t|]; try done;
    try by intros [= <-].
  intros Hl. eapply IH; [|exact Hl]. destruct (_ <=? _); [|done]. exact (Run_recorded r0 (repeat_task t) s Hs).
Qed.

Lemma runs_recorded (r0 : list job) (l : list job) (s : Scheduler) :
  recorded r0 s -> recorded r0 (fold_left (fun s t => Run t s) l s).
Proof. revert s. induction l as [|t l IH]; intros s Hs; cbn; [done|]. by apply IH, Run_recorded. Qed.

(** A removal made by a running job takes effect by the end of the frame:
    whatever the jobs do, once [ProcessJobs] has returned no queue holds a job
    that some job run in this frame removed -- even if another job scheduled it
    again in the same frame. *)
Theorem RemoveJob_effective (n : nat) (frame : Z) (s s' : Scheduler) :
  ProcessJobs n frame s = Some s' ->
  exists l, ran s' = ran s ++ l /\
    forall k j t, l !! k = Some j -> CallRemove t ∈ body (ran s ++ take k l) j ->
      Forall (fun x => once_task x <> t) (onceTasks s') /\ Forall (fun x => repeat_task x <> t) (repeatTasks s').
Proof.
  unfold ProcessJobs. set (s0 := s <| isProcessing := true |> <| lastFrame := frame |>).
  assert (H0 : recorded (ran s) s0) by (split; [done|]; exists []; by rewrite app_nil_r).
  destruct (once_loop n 0 frame s0) as [s1|] eqn:E1; [|done]. cbn [mbind option_bind].
  destruct (repeat_loop n 0 frame s1) as [s2|] eqn:E2; [|done]. cbn [mbind option_bind].
  rewrite PopAndProcessAll_spec. set (s3 := fold_left _ (finishTasks s2) s2). set (s4 := s3 <| finishTasks := [] |>).
  assert (H4 : recorded (ran s) s4).
  { exact (runs_recorded _ _ _ (repeat_loop_recorded _ _ _ _ _ _ (once_loop_recorded _ _ _ _ _ _ H0 E1) E2)). }
  destruct H4 as [_ (l & Hr & Hrec)]. destruct (remove_jobs_spec (removeTasks s4) s4) as (Eo & Er & En & _).
  intros [= <-]. exists l. split; [etrans; [exact En|done]|]. intros k j t Hk Hin. specialize (Hrec k j t Hk Hin).
  change (Forall (fun x => once_task x <> t) (onceTasks (fold_left (fun s t => remove_job t s) (removeTasks s4) s4)) /\
          Forall (fun x => repeat_task x <> t) (repeatTasks (fold_left (fun s t => remove_job t s) (removeTasks s4) s4))).
  rewrite Eo, Er, !Forall_forall. split; intros x [Hx _]%list_elem_of_filter; congruence.
Qed.

End Process.

(** A job that runs job 2 at frame 9 and removes job 3. *)
Definition demo_body (h : list job) (j : job) : list call :=
  if decide (j = 1%nat) then [CallAt 2%nat 9; CallRemove 3%nat] else [].
Definition demo_scheduler : Scheduler :=
  RunJobEvery 3%nat 2 0 (RunJobAt 4%nat 7 (RunJobAt 1%nat 0 Scheduler_new)).

Lemma ProcessJobs_exact_witness :
  exists n0, forall n, (n0 <= n)%nat -> exists s', ProcessJobs demo_body n 5 demo_scheduler = Some s' /\
    ran s' = [1; 3]%nat.
Proof.
  destruct (ProcessJobs_exact demo_body 5 demo_scheduler) as [n0 H].
  - intros h j. unfold demo_body. destruct (decide (j = 1%nat)); repeat constructor; cbn; lia.
  - repeat constructor; cbn; lia.
  - exists n0. intros n Hn. destruct (H n Hn) as (s' & Hs & Hr & _). exists s'. split; [exact Hs|]. exact Hr.
Defined.

Definition demo_processed : Scheduler := default Scheduler_new (ProcessJobs demo_body 9 5 demo_scheduler).

Lemma RemoveJob_effective_witness :
  ran demo_processed = [1; 3]%nat /\
  exists l, ran demo_processed = ran demo_scheduler ++ l /\
    forall k j t, l !! k = Some j -> CallRemove t ∈ demo_body (ran demo_scheduler ++ take k l) j ->
      Forall (fun x => once_task x <> t) (onceTasks demo_processed) /\
      Forall (fun x => repeat_task x <> t) (repeatTasks demo_processed).
Proof.
  split; [vm_compute; reflexivity|]. apply (RemoveJob_effective demo_body 9 5 demo_scheduler). vm_compute. reflexivity.
Defined.

(** ** Work asked for within the frame *)

(** A job that asks to run again at once. *)
Definition restless (h : list job) (j : job) : list call := [CallAt j 0].

(** Work a running job asks for "at the next frame" runs in the same one: the
    loop walks over what is appended behind it.  So a job that asks to run again
    at once keeps [ProcessJobs] from ever returning. *)
Theorem reschedule_never_returns (n : nat) (frame : Z) (s : Scheduler) (j : job) :
  0 <= frame -> onceTasks s = [{| once_task := j; once_frame := 0 |}] ->
  ProcessJobs restless n frame s = None.
Proof.
  intros Hf Ho. unfold ProcessJobs. set (s0 := s <| isProcessing := true |> <| lastFrame := frame |>).
  enough (once_loop restless n 0 frame s0 = None) as -> by done.
  assert (Ho0 : onceTasks s0 = [{| once_task := j; once_frame := 0 |}]) by done. clearbody s0. clear Ho s.
  revert s0 Ho0. induction n as [|n IH]; intros s Ho; cbn [once_loop]; rewrite Ho; cbn [lookup list_lookup]; [done|].
  cbn [once_frame]. rewrite (proj2 (Z.leb_le 0 frame) Hf). apply IH. unfold Run, restless. cbn. by rewrite Ho.
Qed.

Lemma reschedule_never_returns_witness : ProcessJobs restless 100 3 (RunJobAt 1%nat 0 Scheduler_new) = None.
Proof. apply (reschedule_never_returns 100 3 (RunJobAt 1%nat 0 Scheduler_new) 1%nat); [lia|reflexivity]. Defined.
