(* ===== verification/SchedulerPool.v ===== *)
(** The worker threads shared by all schedulers (scheduler/Scheduler.cpp:
    [StartThreads], [WorkerThread], [Release]).

    The static members are the state; a step is one thread's next action between
    two synchronisation points.  [Release] of a scheduler that is not the last one
    parks every worker, purges the released scheduler's tasks and lets the workers
    go on; the release of the last one stops and joins them. *)

From S2P Require Import Prelude MultiQueue.

(** A [weak_ptr] to a scheduler, and the job ([None]: the dummy that wakes a
    worker). *)
Record WorkTask := { task_scheduler : nat; task_job : option nat }.

(** Where a worker is; [id] is its local [workerPauseId]. *)
Inductive Worker :=
  | Starting                               (** created, [gWorkerPauseId] not read yet *)
  | AtHead (id : Z)                        (** at the loop condition *)
  | Parked (id pauseId : Z)                (** in [gProceedCV.wait] *)
  | AtPop (id : Z)                         (** in [gWorkTasks.Pop] *)
  | Popped (id : Z) (t : WorkTask)         (** popped [t], [isRunning] not read yet *)
  | Running (id : Z) (t : WorkTask)        (** in [task->Run] *)
  | Exited.

(** Where the engine thread is in [Release] of scheduler [sid]. *)
Inductive Main :=
  | Idle
  | Counted (sid : nat)                    (** [gPauseCount] set, the lock is next *)
  | Waiting (sid : nat)                    (** in [gPauseCV.wait] *)
  | Purging (sid : nat)                    (** past the wait *)
  | Purged (sid : nat)                     (** tasks removed, the workers still parked *)
  | Joining (sid : nat).                   (** last instance: joining the workers *)

#[export] Instance Main_eq_dec : EqDecision Main.
Proof. solve_decision. Defined.
#[export] Instance WorkTask_eq_dec : EqDecision WorkTask.
Proof. solve_decision. Defined.
#[export] Instance Worker_eq_dec : EqDecision Worker.
Proof. solve_decision. Defined.

Record Pool := {
  gWorkTasks : list WorkTask;
  gWorkThreads : list Worker;
  gMaxWorkThreads : nat;
  gIsWorkerRunning : bool;
  gInstanceCount : nat;
  gWorkerPauseId : Z;
  gPauseCount : Z;                         (** a [size_t] *)
  next_scheduler : nat;
  isRunning : gset nat;                    (** the schedulers whose [isRunning] is set *)
  main : Main;
}.

#[export] Instance Pool_eta : Eta Pool := fun p =>
  Build_Pool (gWorkTasks p) (gWorkThreads p) (gMaxWorkThreads p) (gIsWorkerRunning p) (gInstanceCount p)
    (gWorkerPauseId p) (gPauseCount p) (next_scheduler p) (isRunning p) (main p).

(** The static initialisers; [hardware_concurrency] is read by the first
    constructor. *)
Definition Pool_new : Pool :=
  {| gWorkTasks := []; gWorkThreads := []; gMaxWorkThreads := 2; gIsWorkerRunning := false; gInstanceCount := 0;
     gWorkerPauseId := 0; gPauseCount := 0; next_scheduler := 0; isRunning := ∅; main := Idle |}.

Definition MAX_JOB_THREADS : nat := 8.

(** [utils::clamp(maxThreads - 1, 2, MAX_JOB_THREADS)]. *)
Definition max_threads (hardware : nat) : nat := 2 `max` ((hardware - 1) `min` MAX_JOB_THREADS).

Definition construct (hardware : nat) (p : Pool) : Pool :=
  let p := if decide (gInstanceCount p = 0%nat) then p <| gMaxWorkThreads := max_threads hardware |> else p in
  p <| gInstanceCount ::= S |> <| isRunning ::= fun s => {[next_scheduler p]} ∪ s |> <| next_scheduler ::= S |>.

Definition StartThreads (p : Pool) : Pool :=
  if gIsWorkerRunning p then p
  else p <| gIsWorkerRunning := true |>
         <| gWorkThreads := replicate (gMaxWorkThreads p) Starting |>.

(** [RunParallelJob], [RunPriorityJob]. *)
Definition enqueue (front : bool) (t : WorkTask) (p : Pool) : Pool :=
  p <| gWorkTasks ::= if front then PushFront t else PushBack t |>.

Definition dummies (sid : nat) (p : Pool) : list WorkTask :=
  replicate (length (gWorkThreads p)) {| task_scheduler := sid; task_job := None |}.

(** [Release] up to its first synchronisation. *)
Definition Release_begin (sid : nat) (p : Pool) : Pool :=
  if decide (sid ∈ isRunning p) then
    let p := p <| isRunning ::= fun s => s ∖ {[sid]} |> <| gInstanceCount ::= Nat.pred |> in
    if gIsWorkerRunning p then
      if decide (gInstanceCount p = 0%nat)
      then p <| gIsWorkerRunning := false |> <| gWorkTasks ::= fun q => q ++ dummies sid p |> <| main := Joining sid |>
      else p <| gPauseCount := Z.of_nat (length (gWorkThreads p)) |> <| main := Counted sid |>
    else p
  else p.

(** The engine thread's next action inside [Release]; [None]: it waits. *)
Definition main_step (p : Pool) : option Pool :=
  match main p with
  | Idle => None
  | Counted sid =>
      Some (p <| gWorkerPauseId ::= Z.succ |> <| gWorkTasks ::= fun q => q ++ dummies sid p |> <| main := Waiting sid |>)
  | Waiting sid => if gPauseCount p =? 0 then Some (p <| main := Purging sid |>) else None
  | Purging sid =>
      Some (p <| gWorkTasks ::= RemoveAllIf (fun t => bool_decide (task_scheduler t = sid)) |> <| main := Purged sid |>)
  | Purged sid => Some (p <| gWorkerPauseId ::= Z.succ |> <| main := Idle |>)
  | Joining sid =>
      if decide (Forall (fun w => w = Exited) (gWorkThreads p))
      then Some (p <| gWorkThreads := [] |> <| gWorkTasks ::= Clear |> <| main := Idle |>) else None
  end.

(** A worker that has popped [t]: it runs a job only for a running scheduler (an
    expired one has been released before). *)
Definition after_pop (id : Z) (t : WorkTask) (p : Pool) : Worker :=
  if decide (task_scheduler t ∈ isRunning p) then Running id t else AtHead id.

(** Worker [i]'s next action; [None]: it waits. *)
Definition worker_step (i : nat) (p : Pool) : option Pool :=
  w ← gWorkThreads p !! i;
  let move w' p := p <| gWorkThreads ::= insert i w' |> in
  match w with
  | Starting => Some (move (AtHead (gWorkerPauseId p)) p)
  | AtHead id =>
      if negb (gIsWorkerRunning p) then Some (move Exited p)
      else if id =? gWorkerPauseId p then Some (move (AtPop id) p)
      else Some (move (Parked (gWorkerPauseId p + 1) (gWorkerPauseId p)) (p <| gPauseCount ::= fun n => (n - 1) mod 2 ^ 64 |>))
  | Parked id pauseId => if pauseId =? gWorkerPauseId p then None else Some (move (AtPop id) p)
  | AtPop id => '(q, t) ← Pop (gWorkTasks p); Some (move (Popped id t) (p <| gWorkTasks := q |>))
  | Popped id t => Some (move (after_pop id t p) p)
  | Running id _ => Some (move (AtHead id) p)
  | Exited => None
  end.

Inductive event :=
  | EConstruct (hardware : nat)
  | EStart                                       (** [ProcessInit] *)
  | EEnqueue (front : bool) (sid j : nat)        (** by the engine thread *)
  | EJobEnqueue (i : nat) (front : bool) (j : nat)   (** by the job worker [i] runs *)
  | ERelease (sid : nat)
  | EMain
  | EWorker (i : nat).

(** The engine thread does one thing at a time. *)
Definition step (e : event) (p : Pool) : option Pool :=
  match e with
  | EConstruct hw => if decide (main p = Idle) then Some (construct hw p) else None
  | EStart => if decide (main p = Idle /\ gInstanceCount p <> 0%nat) then Some (StartThreads p) else None
  | EEnqueue front sid j =>
      if decide (main p = Idle /\ sid ∈ isRunning p)
      then Some (enqueue front {| task_scheduler := sid; task_job := Some j |} p) else None
  | EJobEnqueue i front j =>
      match gWorkThreads p !! i with
      | Some (Running _ t) => Some (enqueue front {| task_scheduler := task_scheduler t; task_job := Some j |} p)
      | _ => None
      end
  | ERelease sid => if decide (main p = Idle) then Some (Release_begin sid p) else None
  | EMain => main_step p
  | EWorker i => worker_step i p
  end.

Fixpoint run (es : list event) (p : Pool) : option Pool :=
  match es with
  | [] => Some p
  | e :: es' => p' ← step e p; run es' p'
  end.

(** * Safety of the pause *)

(** The workers between two pauses, at pause number [g]. *)
Definition steady (g : Z) (w : Worker) : Prop :=
  match w with
  | Starting => True
  | AtHead id | AtPop id | Popped id _ | Running id _ => id = g
  | Parked id pauseId => id = g /\ pauseId = g - 1
  | Exited => False
  end.

Definition parked_now (g : Z) (w : Worker) : Prop := w = Parked (g + 1) g.

(** The workers while [Release] waits at pause number [g]: not there yet, or
    started too late to notice, or parked. *)
Definition pausing (g : Z) (w : Worker) : Prop := steady (g - 1) w \/ steady g w \/ parked_now g w.

Definition unparked (g : Z) (w : Worker) : nat := if decide (w = Parked (g + 1) g) then 0 else 1.

Definition releasing (m : Main) : option nat :=
  match m with Idle => None | Counted s | Waiting s | Purging s | Purged s | Joining s => Some s end.

(** A task without a job is never handed to a running scheduler. *)
Definition no_null (n : nat) (run : gset nat) (t : WorkTask) : Prop :=
  task_job t = None -> (task_scheduler t ∉ run) /\ (task_scheduler t < n)%nat.

(** What is known of the task a worker holds. *)
Definition holds_ok (m : Main) (n : nat) (run : gset nat) (w : Worker) : Prop :=
  match w with
  | Popped _ t => no_null n run t
  | Running _ t => is_Some (task_job t) /\ (task_scheduler t ∈ run \/ releasing m = Some (task_scheduler t))
  | _ => True
  end.

(** The workers in each phase of the engine thread. *)
Definition phase_ok (m : Main) (g count : Z) (ws : list Worker) : Prop :=
  match m with
  | Idle => Forall (steady g) ws
  | Counted _ => Forall (steady g) ws /\ count = Z.of_nat (length ws)
  | Waiting _ => Forall (pausing g) ws /\ count = Z.of_nat (sum_list_with (unparked g) ws)
  | Purging _ | Purged _ => Forall (parked_now g) ws
  | Joining _ => Forall (fun w => w = Exited \/ steady g w) ws
  end.

Record pool_inv (p : Pool) : Prop := {
  pi_stopped : gIsWorkerRunning p = false ->
    (exists sid, main p = Joining sid) \/ (main p = Idle /\ gWorkThreads p = []);
  pi_running : gIsWorkerRunning p = true -> forall sid, main p <> Joining sid;
  pi_size : (gMaxWorkThreads p <= 8 /\ length (gWorkThreads p) <= 8)%nat;
  pi_phase : phase_ok (main p) (gWorkerPauseId p) (gPauseCount p) (gWorkThreads p);
  pi_holds : Forall (holds_ok (main p) (next_scheduler p) (isRunning p)) (gWorkThreads p);
  pi_queue : Forall (no_null (next_scheduler p) (isRunning p)) (gWorkTasks p);
  pi_fresh : forall sid, sid ∈ isRunning p -> (sid < next_scheduler p)%nat;
  pi_released : forall sid, releasing (main p) = Some sid -> (sid ∉ isRunning p) /\ (sid < next_scheduler p)%nat;
}.

Lemma sum_list_with_insert {A} (f : A -> nat) (l : list A) (i : nat) (x y : A) :
  l !! i = Some y -> (sum_list_with f (<[i := x]> l) + f y = sum_list_with f l + f x)%nat.
Proof.
  revert i. induction l as [|z l IH]; intros [|i]; cbn; try done; intros H; simplify_eq; [lia|].
  specialize (IH _ H). unfold insert in *. lia.
Qed.

Lemma sum_unparked_le (g : Z) (ws : list Worker) : (sum_list_with (unparked g) ws <= length ws)%nat.
Proof. induction ws as [|w ws IH]; cbn; [done|]. unfold unparked at 1. case_decide; lia. Qed.

(** Nobody left to park: everybody is parked. *)
Lemma all_parked (g : Z) (ws : list Worker) : sum_list_with (unparked g) ws = 0%nat -> Forall (parked_now g) ws.
Proof.
  induction ws as [|w ws IH]; cbn; intros H; [constructor|]. unfold unparked at 1 in H. case_decide; [|lia].
  constructor; auto.
Qed.

(** Before the pause nobody counts as parked. *)
Lemma steady_unparked (g : Z) (ws : list Worker) :
  Forall (steady g) ws -> sum_list_with (unparked (g + 1)) ws = length ws.
Proof.
  induction 1 as [|w ws Hw _ IH]; cbn; [done|]. rewrite IH. unfold unparked. case_decide as E; [|done].
  subst w. cbn in Hw. lia.
Qed.

Lemma holds_mono (m m' : Main) (n n' : nat) (run run' : gset nat) (ws : list Worker) :
  (forall t, no_null n run t -> no_null n' run' t) ->
  (forall s, s ∈ run \/ releasing m = Some s -> s ∈ run' \/ releasing m' = Some s) ->
  Forall (holds_ok m n run) ws -> Forall (holds_ok m' n' run') ws.
Proof.
  intros Hn Hr Hf. apply (Forall_impl _ _ _ Hf). intros [] Hw; cbn in *; try done; [auto|]. naive_solver.
Qed.

Lemma parked_holds (g : Z) (m : Main) (n : nat) (run : gset nat) (ws : list Worker) :
  Forall (parked_now g) ws -> Forall (holds_ok m n run) ws.
Proof. intros Hf. apply (Forall_impl _ _ _ Hf). by intros w ->. Qed.

Lemma dummies_no_null (sid : nat) (p : Pool) (n : nat) (run : gset nat) :
  sid ∉ run -> (sid < n)%nat -> Forall (no_null n run) (dummies sid p).
Proof. intros. apply Forall_replicate. by intros _. Qed.

(** A worker's move: the facts about the other workers stay. *)
Lemma move_inv (p : Pool) (i : nat) (w w' : Worker) (q : list WorkTask) (count : Z) :
  pool_inv p -> gWorkThreads p !! i = Some w ->
  Forall (no_null (next_scheduler p) (isRunning p)) q ->
  phase_ok (main p) (gWorkerPauseId p) count (<[i := w']> (gWorkThreads p)) ->
  holds_ok (main p) (next_scheduler p) (isRunning p) w' ->
  pool_inv (p <| gWorkTasks := q |> <| gPauseCount := count |> <| gWorkThreads ::= insert i w' |>).
Proof.
  intros [H1 H2 H3 H4 H5 H6 H7 H8] Hi Hq Hph Hh. split; cbn; auto.
  - intros Hr. destruct (H1 Hr) as [?|[? E]]; [auto|]. by rewrite E in Hi.
  - by rewrite length_insert.
  - by apply Forall_insert.
Qed.

(** What one worker's move must respect in each phase. *)
Definition move_ok (m : Main) (g count count' : Z) (w w' : Worker) : Prop :=
  match m with
  | Idle => steady g w -> steady g w'
  | Counted _ => steady g w -> steady g w' /\ count' = count
  | Waiting _ => pausing g w -> pausing g w' /\ count' + Z.of_nat (unparked g w) = count + Z.of_nat (unparked g w')
  | Purging _ | Purged _ => parked_now g w -> parked_now g w'
  | Joining _ => w = Exited \/ steady g w -> w' = Exited \/ steady g w'
  end.

Lemma phase_move (m : Main) (g count count' : Z) (ws : list Worker) (i : nat) (w w' : Worker) :
  phase_ok m g count ws -> ws !! i = Some w -> move_ok m g count count' w w' ->
  phase_ok m g count' (<[i := w']> ws).
Proof.
  intros Hp Hi Hm. destruct m; cbn in *; try (apply Forall_insert; [done|]; apply Hm; by eapply (Forall_lookup_1 _ _ _ _ Hp)).
  - destruct Hp as [Hf ->]. destruct Hm as [Hw' ->]; [by eapply Forall_lookup_1|].
    rewrite length_insert. auto using Forall_insert.
  - destruct Hp as [Hf ->]. destruct Hm as [Hw' Hc]; [by eapply (Forall_lookup_1 _ _ _ _ Hf)|].
    split; [by apply Forall_insert|]. pose proof (sum_list_with_insert (unparked g) ws i w' w Hi). lia.
Qed.

Lemma unparked_1 (g : Z) (w : Worker) : w <> Parked (g + 1) g -> unparked g w = 1%nat.
Proof. intros. unfold unparked. by rewrite decide_False. Qed.

Lemma unparked_0 (g : Z) : unparked g (Parked (g + 1) g) = 0%nat.
Proof. unfold unparked. by rewrite decide_True. Qed.

(** The count is the number of workers still to park, so parking never wraps it. *)
Lemma park_count (sid : nat) (p : Pool) (i : nat) (w : Worker) :
  pool_inv p -> main p = Waiting sid -> gWorkThreads p !! i = Some w -> w <> Parked (gWorkerPauseId p + 1) (gWorkerPauseId p) ->
  (gPauseCount p - 1) mod 2 ^ 64 = gPauseCount p - 1.
Proof.
  intros [_ _ H3 H4 _ _ _ _] Hm Hi Hw. rewrite Hm in H4. cbn in H4. destruct H4 as [_ ->].
  pose proof (sum_list_with_insert (unparked (gWorkerPauseId p)) _ i (Parked (gWorkerPauseId p + 1) (gWorkerPauseId p)) w Hi) as E.
  rewrite unparked_0, (unparked_1 _ w) in E by done.
  pose proof (sum_unparked_le (gWorkerPauseId p) (gWorkThreads p)). apply Z.mod_small. lia.
Qed.

Ltac move_cases := unfold move_ok, pausing, parked_now; case_match; cbn; intros;
  rewrite ?unparked_1 by (intros [=]; lia); naive_solver lia.

Lemma worker_step_inv (i : nat) (p p' : Pool) : pool_inv p -> worker_step i p = Some p' -> pool_inv p'.
Proof.
  intros Hinv. unfold worker_step. destruct (gWorkThreads p !! i) as [w|] eqn:Hi; [|done]. cbn.
  pose proof (pi_phase p Hinv) as Hph. pose proof (pi_queue p Hinv) as Hq.
  pose proof (Forall_lookup_1 _ _ _ _ (pi_holds p Hinv) Hi) as Hh.
  assert (Hmove : forall w' q count, Forall (no_null (next_scheduler p) (isRunning p)) q ->
    move_ok (main p) (gWorkerPauseId p) (gPauseCount p) count w w' ->
    holds_ok (main p) (next_scheduler p) (isRunning p) w' ->
    pool_inv (p <| gWorkTasks := q |> <| gPauseCount := count |> <| gWorkThreads ::= insert i w' |>)).
  { intros. eapply move_inv; eauto using phase_move. }
  destruct w as [|id|id pid|id|id t|id t|]; intros H.
  - injection H as <-. apply (Hmove (AtHead (gWorkerPauseId p)) (gWorkTasks p) (gPauseCount p)); try done. move_cases.
  - destruct (gIsWorkerRunning p) eqn:Hr; cbn in H.
    + destruct (Z.eqb_spec id (gWorkerPauseId p)) as [->|Hne]; injection H as <-; rewrite <- Hr.
      { apply (Hmove (AtPop (gWorkerPauseId p)) (gWorkTasks p) (gPauseCount p)); try done. move_cases. }
      apply (Hmove (Parked _ _) (gWorkTasks p) ((gPauseCount p - 1) mod 2 ^ 64)); try done.
      destruct (main p) eqn:Hm; unfold move_ok, pausing, parked_now; cbn; intros; try naive_solver.
      rewrite (park_count _ p i _ Hinv Hm Hi) by done. rewrite unparked_0, unparked_1 by done. split; [auto|lia].
    + injection H as <-; rewrite <- Hr. apply (Hmove Exited (gWorkTasks p) (gPauseCount p)); try done.
      destruct (pi_stopped p Hinv Hr) as [[sid ->]|[_ E]]; [by left|]. by rewrite E in Hi.
  - destruct (Z.eqb_spec pid (gWorkerPauseId p)) as [->|Hne]; [done|]. injection H as <-.
    apply (Hmove (AtPop id) (gWorkTasks p) (gPauseCount p)); try done. move_cases.
  - destruct (gWorkTasks p) as [|t q] eqn:Eq; [done|]. injection H as <-. apply Forall_cons in Hq as [Ht Hq].
    apply (Hmove (Popped id t) q (gPauseCount p)); try done. move_cases.
  - injection H as <-. apply (Hmove (after_pop id t p) (gWorkTasks p) (gPauseCount p)); try done;
      unfold after_pop; case_decide as Er; try done; try move_cases.
    cbn. split; [|by left]. destruct (task_job t) eqn:Ej; [done|]. by destruct (Hh Ej).
  - injection H as <-. apply (Hmove (AtHead id) (gWorkTasks p) (gPauseCount p)); try done. move_cases.
  - done.
Qed.

(** Releasing a scheduler leaves what is known of the tasks. *)
Lemma no_null_shrink (n n' : nat) (run run' : gset nat) (t : WorkTask) :
  run' ⊆ run -> (n <= n')%nat -> no_null n run t -> no_null n' run' t.
Proof. intros Hs Hn H Hj. destruct (H Hj). split; [set_solver|lia]. Qed.

(** The fields of the invariant a step does not touch. *)
Ltac untouched := try assumption; try done;
  try solve [ intros Hx; match goal with
                | H : _ = false -> _ |- _ => destruct (H Hx) as [[? ?]|[? ?]]; first [congruence | eauto]
                end
            | intros ? ? ?; congruence | eauto | intros; simplify_eq; eauto ].

Lemma main_step_inv (p p' : Pool) : pool_inv p -> main_step p = Some p' -> pool_inv p'.
Proof.
  intros [H1 H2 H3 H4 H5 H6 H7 H8]. unfold main_step.
  destruct (main p) as [|sid|sid|sid|sid|sid] eqn:Hm; intros H; cbn in H4.
  - done.
  - injection H as <-. destruct H4 as [Hf Hc], (H8 sid) as [Hs Hs']; [done|]. split; cbn; untouched.
    + rewrite <- Z.add_1_r, steady_unparked by done. split; [|done]. apply (Forall_impl _ _ _ Hf). intros w Hw.
      left. by replace (gWorkerPauseId p + 1 - 1) with (gWorkerPauseId p) by lia.
    + apply Forall_app. auto using dummies_no_null.
  - destruct (Z.eqb_spec (gPauseCount p) 0) as [E|]; [|done]. injection H as <-. destruct H4 as [Hf Hc].
    assert (Hp : Forall (parked_now (gWorkerPauseId p)) (gWorkThreads p)) by (apply all_parked; lia).
    split; cbn; untouched.
  - injection H as <-. split; cbn; untouched. rewrite RemoveAllIf_perm.
    apply Forall_forall. intros t [_ Ht]%list_elem_of_filter. by eapply Forall_forall in H6.
  - injection H as <-. split; cbn; untouched.
    + apply (Forall_impl _ _ _ H4). intros w ->. cbn. lia.
    + by eapply parked_holds.
  - case_decide; [|done]. injection H as <-. assert (gIsWorkerRunning p = false) as Hr.
    { destruct (gIsWorkerRunning p) eqn:E; [|done]. by edestruct H2. }
    split; cbn; untouched; lia || constructor.
Qed.

Lemma Release_begin_inv (sid : nat) (p : Pool) : pool_inv p -> main p = Idle -> pool_inv (Release_begin sid p).
Proof.
  intros Hinv Hm. unfold Release_begin. case_decide as Hin; [|done]. destruct Hinv as [H1 H2 H3 H4 H5 H6 H7 H8]. cbn.
  rewrite Hm in H4, H5. pose proof (H7 sid Hin) as Hlt. cbn in H4.
  assert (Hq : Forall (no_null (next_scheduler p) (isRunning p ∖ {[sid]})) (gWorkTasks p)).
  { apply (Forall_impl _ _ _ H6). intros t. apply no_null_shrink; [set_solver|lia]. }
  assert (Hh : forall m, releasing m = Some sid ->
    Forall (holds_ok m (next_scheduler p) (isRunning p ∖ {[sid]})) (gWorkThreads p)).
  { intros m Hs. refine (holds_mono _ _ _ _ _ _ _ _ _ H5).
    - intros t. apply no_null_shrink; [set_solver|lia].
    - intros s [Hi|]; [|done]. destruct (decide (s = sid)) as [->|]; [by right|left; set_solver]. }
  assert (Hf : forall s, s ∈ isRunning p ∖ {[sid]} -> (s < next_scheduler p)%nat) by (intros; apply H7; set_solver).
  assert (Hrel : forall s, Some sid = Some s -> (s ∉ isRunning p ∖ {[sid]}) /\ (s < next_scheduler p)%nat).
  { intros s [= <-]. split; [set_solver|done]. }
  destruct (gIsWorkerRunning p) eqn:Hr; [|destruct H1 as [[? ?]|[_ E]]; [done|congruence|]].
  - case_decide as Hc; split; cbn; auto; try done.
    + eauto.
    + apply (Forall_impl _ _ _ H4). by right.
    + apply Forall_app. split; [done|]. apply dummies_no_null; [set_solver|done].
  - split; cbn; rewrite ?E, ?Hm; auto; first [done | by constructor | cbn; lia].
Qed.

Lemma construct_inv (hw : nat) (p : Pool) : pool_inv p -> main p = Idle -> pool_inv (construct hw p).
Proof.
  intros [H1 H2 H3 H4 H5 H6 H7 H8] Hm.
  assert (Hs : forall t, no_null (next_scheduler p) (isRunning p) t ->
    no_null (S (next_scheduler p)) ({[next_scheduler p]} ∪ isRunning p) t).
  { intros t Ht Hj. destruct (Ht Hj). split; [|lia]. apply not_elem_of_union. split; [|done].
    apply not_elem_of_singleton. lia. }
  assert (Hf : forall s, s ∈ {[next_scheduler p]} ∪ isRunning p -> (s < S (next_scheduler p))%nat).
  { intros s [->%elem_of_singleton|Hi]%elem_of_union; [lia|]. specialize (H7 s Hi). lia. }
  assert (Hh : Forall (holds_ok (main p) (S (next_scheduler p)) ({[next_scheduler p]} ∪ isRunning p)) (gWorkThreads p)).
  { refine (holds_mono _ _ _ _ _ _ _ Hs _ H5). set_solver. }
  assert (Hq : Forall (no_null (S (next_scheduler p)) ({[next_scheduler p]} ∪ isRunning p)) (gWorkTasks p)).
  { by apply (Forall_impl _ _ _ H6). }
  unfold construct. case_decide; split; cbn; auto; try (rewrite Hm; done).
  unfold max_threads, MAX_JOB_THREADS. lia.
Qed.

Lemma StartThreads_inv (p : Pool) : pool_inv p -> main p = Idle -> pool_inv (StartThreads p).
Proof.
  intros Hinv Hm. unfold StartThreads. destruct (gIsWorkerRunning p) eqn:Hr; [done|].
  destruct Hinv as [H1 H2 H3 H4 H5 H6 H7 H8].
  split; cbn; auto; rewrite ?Hm; try done; try (by apply Forall_replicate).
  rewrite length_replicate. lia.
Qed.

Lemma enqueue_inv (front : bool) (sid j : nat) (p : Pool) :
  pool_inv p -> pool_inv (enqueue front {| task_scheduler := sid; task_job := Some j |} p).
Proof.
  intros [H1 H2 H3 H4 H5 H6 H7 H8]. split; cbn; auto. destruct front; cbn.
  - by constructor.
  - apply Forall_app. split; [done|]. by repeat constructor.
Qed.

Lemma pool_step_inv (e : event) (p p' : Pool) : pool_inv p -> step e p = Some p' -> pool_inv p'.
Proof.
  intros Hinv. destruct e; cbn; intros H;
    eauto using main_step_inv, worker_step_inv; repeat case_match; simplify_eq; dest;
    auto using construct_inv, StartThreads_inv, enqueue_inv, Release_begin_inv.
Qed.

Lemma pool_run_inv (es : list event) (p p' : Pool) : pool_inv p -> run es p = Some p' -> pool_inv p'.
Proof.
  revert p. induction es as [|e es IH]; intros p Hinv; cbn; [by intros [= <-]|].
  destruct (step e p) as [p1|] eqn:E; [|done]. cbn. eauto using pool_step_inv.
Qed.

Lemma Pool_new_inv : pool_inv Pool_new.
Proof. split; cbn; auto; try done; try constructor; try lia. Qed.

(** C40. In every state the schedulers, the worker threads and the engine thread can
    reach: a worker inside [Run] has a job, never the null task that only wakes it
    up, and the job's scheduler is running or is the one whose [Release] is in
    progress, so once [Release] has returned no worker runs a job of the released
    scheduler; while the queue is purged every worker is parked; the count of
    workers still to park stays between zero and the number of workers, so its
    decrement never wraps. *)
Theorem pool_safety (es : list event) (p : Pool) :
  run es Pool_new = Some p ->
  (forall i id t, gWorkThreads p !! i = Some (Running id t) ->
     is_Some (task_job t) /\ (task_scheduler t ∈ isRunning p \/ releasing (main p) = Some (task_scheduler t))) /\
  (forall sid, main p = Purging sid \/ main p = Purged sid ->
     Forall (fun w => exists id, w = Parked id (gWorkerPauseId p)) (gWorkThreads p)) /\
  (forall sid, main p = Waiting sid -> 0 <= gPauseCount p <= Z.of_nat (length (gWorkThreads p))) /\
  (length (gWorkThreads p) <= MAX_JOB_THREADS)%nat.
Proof.
  intros Hr. pose proof (pool_run_inv _ _ _ Pool_new_inv Hr) as [_ _ Hsz Hph Hh _ _ _]. repeat split.
  - apply (Forall_lookup_1 _ _ _ _ Hh) in H. apply H.
  - apply (Forall_lookup_1 _ _ _ _ Hh) in H. apply H.
  - intros sid [Hm|Hm]; rewrite Hm in Hph; apply (Forall_impl _ _ _ Hph); intros w ->; eauto.
  - rewrite H in Hph. destruct Hph as [_ ->]. lia.
  - rewrite H in Hph. destruct Hph as [_ ->]. pose proof (sum_unparked_le (gWorkerPauseId p) (gWorkThreads p)). lia.
  - apply Hsz.
Qed.

(** * The pause completes *)

(** How many moves a worker has left before it is parked at pause number [g]. *)
Definition weight (g : Z) (w : Worker) : nat :=
  match w with
  | Starting => 6
  | Parked _ pauseId => if pauseId =? g then 0 else 5
  | AtPop _ => 4
  | Popped _ _ => 3
  | Running _ _ => 2
  | AtHead _ => 1
  | Exited => 0
  end.

(** A worker that still has to pop. *)
Definition to_pop (g : Z) (w : Worker) : nat :=
  match w with
  | AtPop _ => 1
  | Parked _ pauseId => if pauseId =? g then 0 else 1
  | _ => 0
  end.

(** A worker that had read the pause number before it was raised. *)
Definition on_time (g : Z) (w : Worker) : Prop := (steady (g - 1) w /\ w <> Starting) \/ parked_now g w.

(** Every worker is on time and there is a task for each one that has to pop. *)
Record pausing_on_time (sid : nat) (p : Pool) : Prop := {
  po_main : main p = Waiting sid;
  po_run : gIsWorkerRunning p = true;
  po_time : Forall (on_time (gWorkerPauseId p)) (gWorkThreads p);
  po_tasks : (sum_list_with (to_pop (gWorkerPauseId p)) (gWorkThreads p) <= length (gWorkTasks p))%nat;
}.

(** A step of a worker, or of the job it runs. *)
Definition is_worker_event (e : event) : bool :=
  match e with EWorker _ | EJobEnqueue _ _ _ => true | _ => false end.

Definition moves (es : list event) : nat :=
  sum_list_with (fun e => match e with EWorker _ => 1 | _ => 0 end)%nat es.

(** The moves all the workers have left. *)
Definition moves_left (p : Pool) : nat := sum_list_with (weight (gWorkerPauseId p)) (gWorkThreads p).

Lemma on_time_move (sid : nat) (p : Pool) (i : nat) (w w' : Worker) (q : list WorkTask) (count : Z) :
  pausing_on_time sid p -> gWorkThreads p !! i = Some w -> on_time (gWorkerPauseId p) w' ->
  (length (gWorkTasks p) + to_pop (gWorkerPauseId p) w' <= length q + to_pop (gWorkerPauseId p) w)%nat ->
  (weight (gWorkerPauseId p) w' < weight (gWorkerPauseId p) w)%nat ->
  let p' := p <| gWorkTasks := q |> <| gPauseCount := count |> <| gWorkThreads ::= insert i w' |> in
  pausing_on_time sid p' /\ (moves_left p' < moves_left p)%nat.
Proof.
  intros [H1 H2 H3 H4] Hi Hw Hq Hlt. unfold moves_left. cbn.
  pose proof (sum_list_with_insert (weight (gWorkerPauseId p)) _ i w' w Hi).
  pose proof (sum_list_with_insert (to_pop (gWorkerPauseId p)) _ i w' w Hi).
  split; [split; cbn; auto|]; [by apply Forall_insert|lia..].
Qed.

(** Every move of a worker brings the pause closer. *)
Lemma on_time_step (sid i : nat) (p p' : Pool) :
  pausing_on_time sid p -> worker_step i p = Some p' -> pausing_on_time sid p' /\ (moves_left p' < moves_left p)%nat.
Proof.
  intros Hp. unfold worker_step. destruct (gWorkThreads p !! i) as [w|] eqn:Hi; [|done]. cbn.
  pose proof (fun w' q c => on_time_move sid p i w w' q c Hp Hi) as Hmove.
  pose proof (po_run _ _ Hp) as Hr.
  destruct (Forall_lookup_1 _ _ _ _ (po_time _ _ Hp) Hi) as [[Hs Hns]| ->]; [|rewrite Z.eqb_refl; done].
  destruct w as [|id|id pid|id|id t|id t|]; cbn in Hs; try done; intros H.
  - replace (negb (gIsWorkerRunning p)) with false in H by (by rewrite Hr).
    replace (id =? gWorkerPauseId p) with false in H by lia. injection H as <-.
    apply (Hmove (Parked _ _) (gWorkTasks p)); cbn; rewrite ?Z.eqb_refl; [by right|lia..].
  - replace (pid =? gWorkerPauseId p) with false in H by lia. injection H as <-.
    apply (Hmove (AtPop _) (gWorkTasks p) (gPauseCount p)); cbn; replace (pid =? gWorkerPauseId p) with false by lia;
      [left; split; [cbn; lia|done]|lia..].
  - destruct (gWorkTasks p) as [|t q] eqn:Eq; [done|]. injection H as <-.
    apply (Hmove (Popped _ _) q (gPauseCount p)); rewrite ?Eq; cbn; [left; split; [cbn; lia|done]|lia..].
  - injection H as <-. apply (Hmove (after_pop id t p) (gWorkTasks p) (gPauseCount p)); unfold after_pop;
      case_decide; cbn; try lia; left; split; cbn; (lia || done).
  - injection H as <-. apply (Hmove (AtHead _) (gWorkTasks p) (gPauseCount p)); cbn; [left; split; [cbn; lia|done]|lia..].
Qed.

Lemma sum_list_with_ge {A} (f : A -> nat) (l : list A) (i : nat) (x : A) :
  l !! i = Some x -> (f x <= sum_list_with f l)%nat.
Proof. revert i. induction l as [|y l IH]; intros [|i] H; cbn in *; simplify_eq; [lia|]. specialize (IH _ H). lia. Qed.

(** When no worker can move, all are parked. *)
Lemma on_time_stuck (sid : nat) (p : Pool) :
  pausing_on_time sid p -> (forall i, worker_step i p = None) -> Forall (parked_now (gWorkerPauseId p)) (gWorkThreads p).
Proof.
  intros [H1 H2 H3 H4] Hstuck. apply Forall_lookup. intros i w Hi. specialize (Hstuck i).
  unfold worker_step in Hstuck. rewrite Hi in Hstuck. cbn in Hstuck.
  destruct (Forall_lookup_1 _ _ _ _ H3 Hi) as [[Hs Hns]|]; [|done]. exfalso.
  pose proof (sum_list_with_ge (to_pop (gWorkerPauseId p)) _ _ _ Hi) as Hpop.
  destruct w as [|id|id pid|id|id t|id t|]; cbn in Hs; try done.
  - rewrite H2 in Hstuck. cbn in Hstuck. by case_match.
  - destruct Hs as [-> ->]. by replace (gWorkerPauseId p - 1 - 1 =? gWorkerPauseId p) with false in Hstuck by lia.
  - destruct (gWorkTasks p); [|done]. cbn in *. lia.
Qed.

Lemma on_time_run (sid : nat) (es : list event) (p p' : Pool) :
  pausing_on_time sid p -> forallb is_worker_event es = true -> run es p = Some p' ->
  pausing_on_time sid p' /\ (moves es + moves_left p' <= moves_left p)%nat.
Proof.
  revert p. induction es as [|e es IH]; intros p Hp Hes; cbn; [intros [= <-]; split; [done|lia]|].
  cbn in Hes. apply andb_prop in Hes as [He Hes]. destruct (step e p) as [p1|] eqn:Es; [|done]. cbn. intros Hr.
  destruct e as [| | |i front j| | |i]; try done; cbn in Es.
  - assert (pausing_on_time sid p1 /\ moves_left p1 = moves_left p) as [Hp1 <-]; [|by apply IH].
    destruct Hp as [H1 H2 H3 H4]. repeat case_match; simplify_eq. split; [|done]. split; cbn; auto.
    unfold PushFront, PushBack. destruct front; rewrite ?length_app; cbn; lia.
  - destruct (on_time_step _ _ _ _ Hp Es) as [Hp1 Hlt]. destruct (IH _ Hp1 Hes Hr). split; [done|]. unfold moves in *. cbn. lia.
Qed.

(** Raising the pause number when every worker has read the old one. *)
Lemma raise_on_time (sid : nat) (p p' : Pool) :
  pool_inv p -> main p = Counted sid -> Forall (fun w => w <> Starting) (gWorkThreads p) -> main_step p = Some p' ->
  pausing_on_time sid p' /\ gWorkThreads p' = gWorkThreads p.
Proof.
  intros [H1 H2 H3 H4 _ _ _ _] Hm Hns. unfold main_step. rewrite Hm in *. intros [= <-]. split; [|done].
  split; cbn; auto.
  - destruct (gIsWorkerRunning p); [done|]. by destruct H1 as [[? ?]|[? ?]].
  - destruct H4 as [Hf _]. apply Forall_lookup. intros i w Hi. left.
    split; [|by apply (Forall_lookup_1 _ _ _ _ Hns Hi)].
    replace (Z.succ (gWorkerPauseId p) - 1) with (gWorkerPauseId p) by lia. by apply (Forall_lookup_1 _ _ _ _ Hf Hi).
  - rewrite length_app. unfold dummies. rewrite length_replicate.
    assert (forall g ws, sum_list_with (to_pop g) ws <= length ws)%nat as Hle; [|specialize (Hle (Z.succ (gWorkerPauseId p)) (gWorkThreads p)); lia].
    intros g ws. induction ws as [|w ws IH]; cbn; [done|]. destruct w; cbn; try case_match; lia.
Qed.

Lemma moves_left_le (p : Pool) (sid : nat) : pausing_on_time sid p -> (moves_left p <= 5 * length (gWorkThreads p))%nat.
Proof.
  intros [_ _ H _]. unfold moves_left. induction H as [|w ws Hw _ IH]; cbn; [done|].
  enough (weight (gWorkerPauseId p) w <= 5)%nat by lia. destruct Hw as [[_ Hw]| ->]; [destruct w; cbn; try done; try case_match; lia|].
  cbn. rewrite Z.eqb_refl. lia.
Qed.

(** The pause of [Release] completes when every worker had read the pause number
    before it was raised: from there the workers make at most five moves each,
    whatever their jobs enqueue and in whatever order they are scheduled, and when
    none of them can move the engine thread gets past its wait. *)
Theorem pause_completes (es0 es : list event) (sid : nat) (p0 p : Pool) :
  run es0 Pool_new = Some p0 -> main p0 = Counted sid -> Forall (fun w => w <> Starting) (gWorkThreads p0) ->
  forallb is_worker_event es = true -> run (EMain :: es) p0 = Some p ->
  (moves es <= 5 * length (gWorkThreads p0))%nat /\
  ((forall i, worker_step i p = None) -> exists p', step EMain p = Some p' /\ main p' = Purging sid).
Proof.
  intros Hr0 Hm Hns Hes Hr. pose proof (pool_run_inv _ _ _ Pool_new_inv Hr0) as Hinv0.
  pose proof (pool_run_inv _ _ _ Hinv0 Hr) as Hinv. cbn in Hr.
  destruct (main_step p0) as [p1|] eqn:E1; [|done]. cbn in Hr.
  destruct (raise_on_time _ _ _ Hinv0 Hm Hns E1) as [Hp1 Heq].
  destruct (on_time_run _ _ _ _ Hp1 Hes Hr) as [Hp Hle]. pose proof (moves_left_le _ _ Hp1). rewrite Heq in *.
  split; [lia|]. intros Hstuck. pose proof (on_time_stuck _ _ Hp Hstuck) as Hall.
  pose proof (pi_phase p Hinv) as Hph. rewrite (po_main _ _ Hp) in Hph. destruct Hph as [_ Hc].
  cbn. unfold main_step. rewrite (po_main _ _ Hp), Hc.
  enough (sum_list_with (unparked (gWorkerPauseId p)) (gWorkThreads p) = 0%nat) as -> by (cbn; eauto).
  clear -Hall. induction Hall as [|w ws -> _ IH]; cbn; [done|]. by rewrite unparked_0, IH.
Qed.

(** ** Runs *)

Definition demo_start : list event := [EConstruct 3; EConstruct 3; EStart].

(** Both workers reach [Pop], one runs a job of scheduler 0, and scheduler 1 is
    released. *)
Definition demo_before : list event :=
  demo_start ++ [EWorker 0; EWorker 1; EWorker 0; EWorker 1; EEnqueue false 0 7; EWorker 1; EWorker 1; ERelease 1].

Definition demo_pause : list event :=
  [EJobEnqueue 1 true 8; EWorker 0; EWorker 0; EWorker 1; EWorker 1; EWorker 0; EWorker 0].

Definition demo_pool (es : list event) : Pool := default Pool_new (run es Pool_new).

Lemma pool_safety_witness :
  let p := demo_pool (demo_start ++ [EWorker 0; EWorker 0; EEnqueue true 0 7; EWorker 0; EWorker 0]) in
  gWorkThreads p !! 0%nat = Some (Running 0 {| task_scheduler := 0; task_job := Some 7%nat |}) /\ 0%nat ∈ isRunning p.
Proof.
  assert (E : gWorkThreads (demo_pool (demo_start ++ [EWorker 0; EWorker 0; EEnqueue true 0 7; EWorker 0; EWorker 0])) !! 0%nat
              = Some (Running 0 {| task_scheduler := 0; task_job := Some 7%nat |})) by (vm_compute; reflexivity).
  split; [exact E|].
  destruct (pool_safety (demo_start ++ [EWorker 0; EWorker 0; EEnqueue true 0 7; EWorker 0; EWorker 0])
              (demo_pool (demo_start ++ [EWorker 0; EWorker 0; EEnqueue true 0 7; EWorker 0; EWorker 0]))
              ltac:(vm_compute; reflexivity)) as [H _].
  destruct (H _ _ _ E) as [_ [Hin|Hrel]]; [exact Hin|]. exfalso. vm_compute in Hrel. discriminate Hrel.
Defined.

Lemma pause_completes_witness :
  moves demo_pause = 6%nat /\
  exists p', step EMain (demo_pool (demo_before ++ EMain :: demo_pause)) = Some p' /\ main p' = Purging 1.
Proof.
  split; [vm_compute; reflexivity|].
  apply (pause_completes demo_before demo_pause 1 (demo_pool demo_before)); try (vm_compute; reflexivity).
  - vm_compute. repeat constructor; discriminate.
  - intros i. destruct i as [|[|i]]; vm_compute; reflexivity.
Defined.

(** The start of a worker races with the pause: a worker that reads
    [gWorkerPauseId] after [Release] has raised it never parks in this pause, while
    [gPauseCount] counts it.  Here worker 1 starts late, takes both wake-up tasks and
    waits in [Pop]; worker 0 is parked; [Release] waits for a count that stays at one,
    and nothing can happen any more. *)
Definition late_start : list event :=
  demo_start ++ [EWorker 0; ERelease 1; EMain; EWorker 1; EWorker 0] ++ replicate 7 (EWorker 1).

Theorem late_worker_deadlocks :
  exists p, run late_start Pool_new = Some p /\ main p = Waiting 1 /\ gPauseCount p = 1 /\
    forall e, step e p = None.
Proof.
  exists (demo_pool late_start). split_and!; try (vm_compute; reflexivity).
  intros [| | |i| | |i]; try (vm_compute; reflexivity); destruct i as [|[|i]]; vm_compute; reflexivity.
Qed.
