(* ===== verification/BlockingMap.v ===== *)
(** The occupancy map of the AI's terrain manager (terrain/BlockingMap.h,
    terrain/BlockingMap.hpp): for every build square the number of blockers of each
    structure kind and the structure on it, with bit masks that answer a query in
    one test, and a coarser grid whose masks say which 8x8 blocks are mostly taken. *)

From S2P Require Import Prelude.

Inductive StructType :=
  | FACTORY | MEX | GEO | PYLON | CONVERT | ENGY_LOW | ENGY_MID | ENGY_HIGH
  | DEF_LOW | DEF_MID | DEF_HIGH | SPECIAL | NANO | TERRA | UNKNOWN.

#[export] Instance StructType_eq_dec : EqDecision StructType.
Proof. solve_decision. Defined.

Definition all_types : list StructType :=
  [FACTORY; MEX; GEO; PYLON; CONVERT; ENGY_LOW; ENGY_MID; ENGY_HIGH;
   DEF_LOW; DEF_MID; DEF_HIGH; SPECIAL; NANO; TERRA; UNKNOWN].

(** [static_cast<ST>]. *)
Definition ST (t : StructType) : nat :=
  match t with
  | FACTORY => 0 | MEX => 1 | GEO => 2 | PYLON => 3 | CONVERT => 4 | ENGY_LOW => 5 | ENGY_MID => 6 | ENGY_HIGH => 7
  | DEF_LOW => 8 | DEF_MID => 9 | DEF_HIGH => 10 | SPECIAL => 11 | NANO => 12 | TERRA => 13 | UNKNOWN => 14
  end.

Definition GetStructMask (t : StructType) : Z := Z.shiftl 1 (Z.of_nat (ST t)).

Definition StructMask_NONE : Z := 0.
Definition StructMask_ALL : Z := 65535.

Definition GRID_RATIO_LOW : Z := 8.
Definition BLOCK_VAL : Z := 4096.
Definition BLOCK_THRESHOLD : Z := GRID_RATIO_LOW * GRID_RATIO_LOW * 3 / 4.

Record SBlockCell := { blockerMask : Z; notIgnoreMask : Z; structMask : Z; blockerCounts : list Z }.
Record SBlockCellLow := { lowMask : Z; lowCounts : list Z }.
Record SBlockCellAlly := { allyCount : Z; ownCount : Z }.

#[export] Instance SBlockCell_eta : Eta SBlockCell := fun c =>
  Build_SBlockCell (blockerMask c) (notIgnoreMask c) (structMask c) (blockerCounts c).
#[export] Instance SBlockCellLow_eta : Eta SBlockCellLow := fun c => Build_SBlockCellLow (lowMask c) (lowCounts c).
#[export] Instance SBlockCellAlly_eta : Eta SBlockCellAlly := fun c => Build_SBlockCellAlly (allyCount c) (ownCount c).

Record SBlockingMap := {
  grid : list SBlockCell; columns : Z; rows : Z;
  gridLow : list SBlockCellLow; columnsLow : Z; rowsLow : Z;
  gridAlly : list SBlockCellAlly; columnsAlly : Z; rowsAlly : Z;
}.

#[export] Instance SBlockingMap_eta : Eta SBlockingMap := fun b =>
  Build_SBlockingMap (grid b) (columns b) (rows b) (gridLow b) (columnsLow b) (rowsLow b)
    (gridAlly b) (columnsAlly b) (rowsAlly b).

(** [v[z * n + x]]; [None]: outside the vector. *)
Definition index (n x z : Z) : option nat := let i := z * n + x in if i <? 0 then None else Some (Z.to_nat i).

Definition cell_at (b : SBlockingMap) (x z : Z) : option SBlockCell := index (columns b) x z ≫= fun i => grid b !! i.
Definition low_at (b : SBlockingMap) (x z : Z) : option SBlockCellLow := index (columnsLow b) x z ≫= fun i => gridLow b !! i.
Definition ally_at (b : SBlockingMap) (x z : Z) : option SBlockCellAlly :=
  index (columnsAlly b) x z ≫= fun i => gridAlly b !! i.

Definition set_cell (x z : Z) (c : SBlockCell) (b : SBlockingMap) : option SBlockingMap :=
  i ← index (columns b) x z; Some (b <| grid ::= <[i := c]> |>).
Definition set_low (x z : Z) (c : SBlockCellLow) (b : SBlockingMap) : option SBlockingMap :=
  i ← index (columnsLow b) x z; Some (b <| gridLow ::= <[i := c]> |>).

Definition IsStructed (b : SBlockingMap) (x z mask : Z) : option bool :=
  c ← cell_at b x z; Some (negb (Z.land (notIgnoreMask c) mask =? 0)).

Definition IsBlocked (b : SBlockingMap) (x z mask : Z) : option bool :=
  c ← cell_at b x z; Some (negb (Z.land (blockerMask c) mask =? 0) || negb (structMask c =? 0)).

Definition IsBlockedLow (b : SBlockingMap) (xLow zLow mask : Z) : option bool :=
  c ← low_at b xLow zLow; Some (negb (Z.land (lowMask c) mask =? 0)).

Definition IsStruct (b : SBlockingMap) (x z : Z) : option bool :=
  c ← cell_at b x z; Some (negb (structMask c =? 0)).

(** [++cellLow.blockerCounts[t] == BLOCK_THRESHOLD]. *)
Definition low_add (x z : Z) (t : StructType) (b : SBlockingMap) : option SBlockingMap :=
  let xl := x ÷ GRID_RATIO_LOW in let zl := z ÷ GRID_RATIO_LOW in
  c ← low_at b xl zl;
  n ← lowCounts c !! ST t;
  let c := c <| lowCounts ::= <[ST t := u16 (n + 1)]> |> in
  set_low xl zl (if u16 (n + 1) =? BLOCK_THRESHOLD then c <| lowMask ::= fun m => Z.lor m (GetStructMask t) |> else c) b.

(** [cellLow.blockerCounts[t]-- == BLOCK_THRESHOLD]. *)
Definition low_del (x z : Z) (t : StructType) (b : SBlockingMap) : option SBlockingMap :=
  let xl := x ÷ GRID_RATIO_LOW in let zl := z ÷ GRID_RATIO_LOW in
  c ← low_at b xl zl;
  n ← lowCounts c !! ST t;
  let c := c <| lowCounts ::= <[ST t := u16 (n - 1)]> |> in
  set_low xl zl
    (if n =? BLOCK_THRESHOLD then c <| lowMask ::= fun m => Z.land m (Z.lnot (GetStructMask t)) |> else c) b.

(** [cellLow.blockerCounts[t]++ == BLOCK_THRESHOLD]. *)
Definition low_mark (x z : Z) (t : StructType) (b : SBlockingMap) : option SBlockingMap :=
  let xl := x ÷ GRID_RATIO_LOW in let zl := z ÷ GRID_RATIO_LOW in
  c ← low_at b xl zl;
  n ← lowCounts c !! ST t;
  let c := c <| lowCounts ::= <[ST t := u16 (n + 1)]> |> in
  set_low xl zl (if n =? BLOCK_THRESHOLD then c <| lowMask ::= fun m => Z.lor m (GetStructMask t) |> else c) b.

Definition MarkBlocker (x z : Z) (t : StructType) (notIgnore : Z) (b : SBlockingMap) : option SBlockingMap :=
  c ← cell_at b x z;
  b ← set_cell x z (c <| blockerCounts ::= <[ST t := BLOCK_VAL * 2]> |> <| notIgnoreMask := u16 notIgnore |>
                      <| blockerMask ::= fun m => Z.lor m (GetStructMask t) |>) b;
  low_mark x z t b.

Definition AddBlocker (x z : Z) (t : StructType) (b : SBlockingMap) : option SBlockingMap :=
  c ← cell_at b x z;
  n ← blockerCounts c !! ST t;
  let c := c <| blockerCounts ::= <[ST t := u16 (n + 1)]> |> in
  if n =? 0 then
    b ← set_cell x z (c <| blockerMask ::= fun m => Z.lor m (GetStructMask t) |>) b;
    low_add x z t b
  else set_cell x z c b.

Definition DelBlocker (x z : Z) (t : StructType) (b : SBlockingMap) : option SBlockingMap :=
  c ← cell_at b x z;
  n ← blockerCounts c !! ST t;
  let c := c <| blockerCounts ::= <[ST t := u16 (n - 1)]> |> in
  if u16 (n - 1) =? 0 then
    b ← set_cell x z (c <| blockerMask ::= fun m => Z.land m (Z.lnot (GetStructMask t)) |>) b;
    low_del x z t b
  else set_cell x z c b.

Definition AddStruct (x z : Z) (t : StructType) (notIgnore : Z) (b : SBlockingMap) : option SBlockingMap :=
  c ← cell_at b x z;
  n ← blockerCounts c !! ST t;
  b ← if n =? 0 then low_add x z t b else Some b;
  let c := if n <? BLOCK_VAL then c <| notIgnoreMask := u16 notIgnore |> else c in
  set_cell x z (c <| structMask := GetStructMask t |>) b.

(** The mask argument is not used. *)
Definition DelStruct (x z : Z) (t : StructType) (notIgnore : Z) (b : SBlockingMap) : option SBlockingMap :=
  c ← cell_at b x z;
  n ← blockerCounts c !! ST t;
  b ← if n =? 0 then low_del x z t b else Some b;
  let c := if n <? BLOCK_VAL then c <| notIgnoreMask := 0 |> else c in
  set_cell x z (c <| structMask := StructMask_NONE |>) b.

(** ** Ally zones *)

Definition IsZoneAlly (b : SBlockingMap) (x z : Z) : option bool :=
  c ← ally_at b x z; Some ((0 <? allyCount c) && (ownCount c =? 0)).

Definition on_ally (f : SBlockCellAlly -> SBlockCellAlly) (x z : Z) (b : SBlockingMap) : option SBlockingMap :=
  i ← index (columnsAlly b) x z; c ← gridAlly b !! i; Some (b <| gridAlly ::= <[i := f c]> |>).

Definition AddZoneAlly := on_ally (fun c => c <| allyCount ::= fun n => u16 (n + 1) |>).
Definition DelZoneAlly := on_ally (fun c => c <| allyCount ::= fun n => u16 (n - 1) |>).
Definition AddZoneOwn := on_ally (fun c => c <| ownCount ::= fun n => u16 (n + 1) |>).
Definition DelZoneOwn := on_ally (fun c => c <| ownCount ::= fun n => u16 (n - 1) |>).

(** ** Bounds *)

Definition IsInBoundsRect (b : SBlockingMap) (r1 r2 : Z * Z) : bool :=
  (0 <=? r1.1) && (0 <=? r1.2) && (r2.1 <? columns b) && (r2.2 <? rows b).

(** [(unsigned)x < (unsigned)columns]. *)
Definition IsInBounds (b : SBlockingMap) (x z : Z) : bool := (u32 x <? u32 (columns b)) && (u32 z <? u32 (rows b)).
Definition IsInBoundsLow (b : SBlockingMap) (x z : Z) : bool :=
  (u32 x <? u32 (columnsLow b)) && (u32 z <? u32 (rowsLow b)).

Definition Bound (b : SBlockingMap) (r1 r2 : Z * Z) : (Z * Z) * (Z * Z) :=
  ((r1.1 `max` 0, r1.2 `max` 0), (r2.1 `min` columns b, r2.2 `min` rows b)).
Definition BoundAlly (b : SBlockingMap) (r1 r2 : Z * Z) : (Z * Z) * (Z * Z) :=
  ((r1.1 `max` 0, r1.2 `max` 0), (r2.1 `min` columnsAlly b, r2.2 `min` rowsAlly b)).

(** The grids a map of [mapWidth] x [mapHeight] squares starts with
    ([CTerrainManager]'s constructor). *)
Definition SBlockingMap_new (mapWidth mapHeight : Z) : SBlockingMap :=
  let columns := mapWidth ÷ 2 in let rows := mapHeight ÷ 2 in
  let cl := mapWidth ÷ (GRID_RATIO_LOW * 2) in let rl := mapHeight ÷ (GRID_RATIO_LOW * 2) in
  let zeros := replicate 15 0 in
  {| grid := replicate (Z.to_nat (columns * rows))
               {| blockerMask := 0; notIgnoreMask := 0; structMask := 0; blockerCounts := zeros |};
     columns := columns; rows := rows;
     gridLow := replicate (Z.to_nat (cl * rl)) {| lowMask := 0; lowCounts := zeros |}; columnsLow := cl; rowsLow := rl;
     gridAlly := replicate (Z.to_nat (cl * rl)) {| allyCount := 0; ownCount := 0 |};
     columnsAlly := cl; rowsAlly := rl |}.

(** * The map as a counting abstraction *)

(** What the map stands for: for every square the number of blockers of each kind,
    how often a structure was counted in the square's block, the structure's mask
    and the mask of kinds that may not overlap. *)
Record Abs := {
  a_n : Z -> Z -> StructType -> Z;
  a_s : Z -> Z -> StructType -> Z;
  a_struct : Z -> Z -> Z;
  a_ign : Z -> Z -> Z;
}.

#[export] Instance Abs_eta : Eta Abs := fun a => Build_Abs (a_n a) (a_s a) (a_struct a) (a_ign a).

Definition Abs_new : Abs := {| a_n := fun _ _ _ => 0; a_s := fun _ _ _ => 0; a_struct := fun _ _ => 0; a_ign := fun _ _ => 0 |}.

Definition upd3 (x z : Z) (t : StructType) (v : Z) (f : Z -> Z -> StructType -> Z) : Z -> Z -> StructType -> Z :=
  fun x' z' t' => if decide (x' = x /\ z' = z /\ t' = t) then v else f x' z' t'.
Definition upd2 (x z v : Z) (f : Z -> Z -> Z) : Z -> Z -> Z :=
  fun x' z' => if decide (x' = x /\ z' = z) then v else f x' z'.

(** The mask whose bits are the kinds that satisfy [p]. *)
Definition mask_of (p : StructType -> bool) : Z :=
  foldr (fun t m => Z.lor (if p t then GetStructMask t else 0) m) 0 all_types.

(** What a square adds to the count of its block. *)
Definition weight (a : Abs) (t : StructType) (c : Z * Z) : Z :=
  (if 0 <? a_n a c.1 c.2 t then 1 else 0) + a_s a c.1 c.2 t.

Definition block_cells (xl zl : Z) : list (Z * Z) :=
  j ← seqZ 0 8; i ← seqZ 0 8; [(8 * xl + i, 8 * zl + j)].

Definition sumZ {A} (f : A -> Z) (l : list A) : Z := foldr (fun x s => f x + s) 0 l.

Definition block_count (a : Abs) (xl zl : Z) (t : StructType) : Z := sumZ (weight a t) (block_cells xl zl).

Definition cell_of (a : Abs) (x z : Z) : SBlockCell :=
  {| blockerMask := mask_of (fun t => 0 <? a_n a x z t); notIgnoreMask := a_ign a x z; structMask := a_struct a x z;
     blockerCounts := a_n a x z <$> all_types |}.

Definition low_of (a : Abs) (xl zl : Z) : SBlockCellLow :=
  {| lowMask := mask_of (fun t => BLOCK_THRESHOLD <=? block_count a xl zl t);
     lowCounts := block_count a xl zl <$> all_types |}.

Definition table {A} (f : Z -> Z -> A) (c r : Z) : list A := (fun i => f (i mod c) (i / c)) <$> seqZ 0 (c * r).

Definition abs_AddBlocker (x z : Z) (t : StructType) (a : Abs) : Abs :=
  a <| a_n := upd3 x z t (a_n a x z t + 1) (a_n a) |>.
Definition abs_DelBlocker (x z : Z) (t : StructType) (a : Abs) : Abs :=
  a <| a_n := upd3 x z t (a_n a x z t - 1) (a_n a) |>.

Definition abs_struct (x z : Z) (t : StructType) (d ign str : Z) (a : Abs) : Abs :=
  let n := a_n a x z t in
  let a := if n =? 0 then a <| a_s := upd3 x z t (a_s a x z t + d) (a_s a) |> else a in
  let a := if n <? BLOCK_VAL then a <| a_ign := upd2 x z ign (a_ign a) |> else a in
  a <| a_struct := upd2 x z str (a_struct a) |>.

Definition abs_AddStruct (x z : Z) (t : StructType) (m : Z) : Abs -> Abs := abs_struct x z t 1 (u16 m) (GetStructMask t).
Definition abs_DelStruct (x z : Z) (t : StructType) : Abs -> Abs := abs_struct x z t (-1) 0 0.

Inductive op :=
  | OAddBlocker (x z : Z) (t : StructType)
  | ODelBlocker (x z : Z) (t : StructType)
  | OAddStruct (x z : Z) (t : StructType) (m : Z)
  | ODelStruct (x z : Z) (t : StructType) (m : Z).

Definition map_step (o : op) (b : SBlockingMap) : option SBlockingMap :=
  match o with
  | OAddBlocker x z t => AddBlocker x z t b
  | ODelBlocker x z t => DelBlocker x z t b
  | OAddStruct x z t m => AddStruct x z t m b
  | ODelStruct x z t m => DelStruct x z t m b
  end.

Fixpoint map_run (os : list op) (b : SBlockingMap) : option SBlockingMap :=
  match os with [] => Some b | o :: os' => b' ← map_step o b; map_run os' b' end.

Definition abs_step (o : op) (a : Abs) : Abs :=
  match o with
  | OAddBlocker x z t => abs_AddBlocker x z t a
  | ODelBlocker x z t => abs_DelBlocker x z t a
  | OAddStruct x z t m => abs_AddStruct x z t m a
  | ODelStruct x z t m => abs_DelStruct x z t a
  end.

Definition abs_run (os : list op) (a : Abs) : Abs := fold_left (fun a o => abs_step o a) os a.

(** The blockers of one kind on a square: those added and not removed. *)
Definition net (os : list op) (x z : Z) (t : StructType) : Z :=
  sumZ (fun o => match o with
                 | OAddBlocker x' z' t' => if decide (x = x' /\ z = z' /\ t = t') then 1 else 0
                 | ODelBlocker x' z' t' => if decide (x = x' /\ z = z' /\ t = t') then -1 else 0
                 | _ => 0
                 end) os.

Definition blocker_op (o : op) : bool :=
  match o with OAddBlocker _ _ _ | ODelBlocker _ _ _ => true | _ => false end.

Section Rep.
Context (cl rl : Z) (ally : list SBlockCellAlly).

(** The representation of an abstract map of [cl] x [rl] blocks; the two grids may
    be a step apart. *)
Definition rep2 (ag al : Abs) : SBlockingMap :=
  {| grid := table (cell_of ag) (8 * cl) (8 * rl); columns := 8 * cl; rows := 8 * rl;
     gridLow := table (low_of al) cl rl; columnsLow := cl; rowsLow := rl;
     gridAlly := ally; columnsAlly := cl; rowsAlly := rl |}.

Definition rep (a : Abs) : SBlockingMap := rep2 a a.

Definition in_map (x z : Z) : Prop := 0 <= x < 8 * cl /\ 0 <= z < 8 * rl.

(** What is removed was there. *)
Definition legal (o : op) (a : Abs) : Prop :=
  match o with
  | OAddBlocker x z t => in_map x z
  | ODelBlocker x z t => in_map x z /\ 0 < a_n a x z t
  | OAddStruct x z t m => in_map x z
  | ODelStruct x z t m => in_map x z /\ (a_n a x z t = 0 -> 0 < a_s a x z t)
  end.

Fixpoint legal_run (os : list op) (a : Abs) : Prop :=
  match os with [] => True | o :: os' => legal o a /\ legal_run os' (abs_step o a) end.

End Rep.

(** ** Masks *)

Lemma ST_inj (t t' : StructType) : ST t = ST t' -> t = t'.
Proof. by destruct t, t'. Qed.

Lemma in_all_types (t : StructType) : In t all_types.
Proof. destruct t; cbn; tauto. Qed.

Lemma all_types_lookup {A} (f : StructType -> A) (t : StructType) : (f <$> all_types) !! ST t = Some (f t).
Proof. by destruct t. Qed.

Lemma all_types_insert {A} (f f' : StructType -> A) (t : StructType) :
  (forall t', t' <> t -> f' t' = f t') -> <[ST t := f' t]> (f <$> all_types) = f' <$> all_types.
Proof.
  intros H. unfold all_types. cbn [fmap list_fmap].
  destruct t; cbn [ST insert list_insert]; cbn;
    repeat match goal with |- _ :: _ = _ :: _ => apply (f_equal2 cons); [first [reflexivity | symmetry; by apply H]|] end;
    reflexivity.
Qed.

Lemma GetStructMask_bit (t : StructType) (i : Z) : 0 <= i -> Z.testbit (GetStructMask t) i = (Z.of_nat (ST t) =? i).
Proof. intros. unfold GetStructMask. rewrite Z.shiftl_1_l. apply Z.pow2_bits_eqb. lia. Qed.

Lemma mask_of_bit (p : StructType -> bool) (i : Z) :
  0 <= i -> Z.testbit (mask_of p) i = existsb (fun t => (Z.of_nat (ST t) =? i) && p t) all_types.
Proof.
  intros Hi. unfold mask_of. induction all_types as [|t l IH]; cbn; [apply Z.bits_0|].
  rewrite Z.lor_spec, IH. f_equal. destruct (p t); [by rewrite GetStructMask_bit, andb_true_r|].
  by rewrite Z.bits_0, andb_false_r.
Qed.

Lemma mask_of_type (p : StructType -> bool) (t : StructType) : Z.testbit (mask_of p) (Z.of_nat (ST t)) = p t.
Proof.
  rewrite mask_of_bit by lia. apply eq_iff_eq_true. rewrite existsb_exists. split.
  - intros (t' & _ & H). apply andb_prop in H as [H1 H2]. by rewrite (ST_inj t t') by lia.
  - intros H. exists t. split; [apply in_all_types|]. by rewrite Z.eqb_refl.
Qed.

Lemma mask_of_ext (p p' : StructType -> bool) : (forall t, p t = p' t) -> mask_of p = mask_of p'.
Proof. intros H. unfold mask_of. induction all_types as [|t l IH]; cbn; [done|]. by rewrite H, IH. Qed.

(** A mask's bit for one kind, set or cleared. *)
Lemma mask_of_lor (p p' : StructType -> bool) (t : StructType) :
  p' t = true -> (forall t', t' <> t -> p' t' = p t') -> Z.lor (mask_of p) (GetStructMask t) = mask_of p'.
Proof.
  intros Ht Hne. apply Z.bits_inj'. intros i Hi. rewrite Z.lor_spec, !mask_of_bit, GetStructMask_bit by done.
  apply eq_iff_eq_true. rewrite orb_true_iff, !existsb_exists. split.
  - intros [(t' & Hin & H)|H].
    + exists t'. split; [done|]. apply andb_prop in H as [-> H2]. destruct (decide (t' = t)) as [->|]; [done|]. by rewrite Hne.
    + exists t. split; [apply in_all_types|]. by rewrite H.
  - intros (t' & Hin & H). apply andb_prop in H as [H1 H2]. destruct (decide (t' = t)) as [->|Hn]; [by right|].
    left. exists t'. split; [done|]. by rewrite H1, <- Hne.
Qed.

Lemma mask_of_ldiff (p p' : StructType -> bool) (t : StructType) :
  p' t = false -> (forall t', t' <> t -> p' t' = p t') -> Z.land (mask_of p) (Z.lnot (GetStructMask t)) = mask_of p'.
Proof.
  intros Ht Hne. apply Z.bits_inj'. intros i Hi.
  rewrite Z.land_spec, Z.lnot_spec, !mask_of_bit, GetStructMask_bit by done.
  apply eq_iff_eq_true. rewrite andb_true_iff, negb_true_iff, !existsb_exists. split.
  - intros [(t' & Hin & H) Hi']. exists t'. split; [done|]. apply andb_prop in H as [H1 H2].
    rewrite H1. rewrite Hne; [done|]. intros ->. lia.
  - intros (t' & Hin & H). apply andb_prop in H as [H1 H2].
    assert (Hn : t' <> t) by (intros ->; congruence). split.
    + exists t'. split; [done|]. by rewrite H1, <- Hne.
    + apply Z.eqb_neq. intros E. apply Hn, ST_inj. lia.
Qed.

Lemma mask_meets (p : StructType -> bool) (m : Z) :
  negb (Z.land (mask_of p) m =? 0) = true <-> exists t, p t = true /\ Z.testbit m (Z.of_nat (ST t)) = true.
Proof.
  rewrite negb_true_iff, Z.eqb_neq. split.
  - intros Hne. destruct (existsb (fun t => p t && Z.testbit m (Z.of_nat (ST t))) all_types) eqn:E.
    + apply existsb_exists in E as (t & _ & H). apply andb_prop in H as [H1 H2]. eauto.
    + exfalso. apply Hne, Z.bits_inj'. intros i Hi. rewrite Z.land_spec, Z.bits_0, mask_of_bit by done.
      apply not_true_iff_false. intros [He Hm]%andb_prop. apply existsb_exists in He as (t & Hin & H).
      apply andb_prop in H as [H1 H2]. rewrite <- not_true_iff_false in E. apply E, existsb_exists.
      exists t. split; [done|]. rewrite H2. replace (Z.of_nat (ST t)) with i by lia. done.
  - intros (t & H1 & H2) E. assert (Z.testbit (Z.land (mask_of p) m) (Z.of_nat (ST t)) = true) as Hb.
    { by rewrite Z.land_spec, mask_of_type, H1, H2. }
    by rewrite E, Z.bits_0 in Hb.
Qed.

(** ** Tables *)

Lemma table_index (c x z i : Z) : 0 <= x < c -> 0 <= i -> (i mod c = x /\ i / c = z) <-> i = z * c + x.
Proof.
  intros Hx Hi. split.
  - intros [<- <-]. rewrite (Z_div_mod_eq_full i c) at 1. lia.
  - intros ->. rewrite Z.add_comm, Z_mod_plus_full, Z.mod_small by done. split; [done|].
    rewrite Z.div_add by lia. rewrite Z.div_small by done. lia.
Qed.

Lemma table_lookup {A} (f : Z -> Z -> A) (c r x z : Z) :
  0 <= x < c -> 0 <= z < r -> table f c r !! Z.to_nat (z * c + x) = Some (f x z).
Proof.
  intros Hx Hz. unfold table. rewrite list_lookup_fmap, lookup_seqZ_lt by nia. cbn.
  replace (0 + Z.of_nat (Z.to_nat (z * c + x))) with (z * c + x) by nia.
  destruct (proj2 (table_index c x z (z * c + x) Hx ltac:(nia)) eq_refl) as [-> ->]. done.
Qed.

Lemma table_ext {A} (f f' : Z -> Z -> A) (c r : Z) :
  0 < c -> (forall x z, 0 <= x < c -> 0 <= z < r -> f x z = f' x z) -> table f c r = table f' c r.
Proof.
  intros Hc H. unfold table. apply list_fmap_ext. intros j i Hi. apply lookup_seqZ in Hi as [-> Hj].
  apply H; [apply Z.mod_pos_bound; lia|]. split; [apply Z.div_pos; lia|]. apply Z.div_lt_upper_bound; lia.
Qed.

(** Writing one entry. *)
Lemma table_insert {A} (f f' : Z -> Z -> A) (c r x z : Z) :
  0 <= x < c -> 0 <= z < r ->
  (forall x' z', 0 <= x' < c -> 0 <= z' < r -> ~ (x' = x /\ z' = z) -> f' x' z' = f x' z') ->
  <[Z.to_nat (z * c + x) := f' x z]> (table f c r) = table f' c r.
Proof.
  intros Hx Hz H. apply list_eq. intros j.
  assert (Hlen : length (table f c r) = Z.to_nat (c * r)) by (unfold table; by rewrite length_fmap, length_seqZ).
  assert (Hlen' : length (table f' c r) = Z.to_nat (c * r)) by (unfold table; by rewrite length_fmap, length_seqZ).
  destruct (decide (j < Z.to_nat (c * r))%nat) as [Hj|Hj].
  2:{ rewrite !lookup_ge_None_2; [done|lia|]. rewrite length_insert. lia. }
  destruct (decide (Z.to_nat (z * c + x) = j)) as [<-|Hne].
  { rewrite list_lookup_insert_eq by lia. by rewrite table_lookup. }
  rewrite list_lookup_insert_ne by done. unfold table.
  rewrite !list_lookup_fmap, lookup_seqZ_lt by lia. cbn. f_equal. symmetry. apply H.
  - apply Z.mod_pos_bound. lia.
  - split; [apply Z.div_pos; lia|]. apply Z.div_lt_upper_bound; lia.
  - intros E. apply (table_index c x z) in E; [|done|lia]. lia.
Qed.

(** ** Blocks *)

Lemma elem_of_block (xl zl x z : Z) : (x, z) ∈ block_cells xl zl <-> x / 8 = xl /\ z / 8 = zl.
Proof.
  unfold block_cells. rewrite list_elem_of_bind. split.
  - intros (j & H & Hj). apply list_elem_of_bind in H as (i & H & Hi). apply list_elem_of_singleton in H as [= -> ->].
    apply elem_of_seqZ in Hi, Hj. split; Z.div_mod_to_equations; lia.
  - intros [<- <-]. exists (z mod 8). split; [|apply elem_of_seqZ; pose proof (Z.mod_pos_bound z 8); lia].
    apply list_elem_of_bind. exists (x mod 8). split; [|apply elem_of_seqZ; pose proof (Z.mod_pos_bound x 8); lia].
    apply list_elem_of_singleton. f_equal; Z.div_mod_to_equations; lia.
Qed.

Lemma NoDup_block (xl zl : Z) : NoDup (block_cells xl zl).
Proof.
  assert (H0 : NoDup (block_cells 0 0)) by (apply (bool_decide_unpack _); vm_compute; exact I).
  replace (block_cells xl zl) with ((fun c => (8 * xl + c.1, 8 * zl + c.2)) <$> block_cells 0 0).
  - apply NoDup_fmap_2; [|done]. intros [a b] [a' b']. cbn. intros [= ? ?]. f_equal; lia.
  - unfold block_cells. cbn. reflexivity.
Qed.

Lemma sumZ_cons {A} (f : A -> Z) (x : A) (l : list A) : sumZ f (x :: l) = f x + sumZ f l.
Proof. done. Qed.

Lemma sumZ_ext {A} (f f' : A -> Z) (l : list A) : (forall x, x ∈ l -> f x = f' x) -> sumZ f l = sumZ f' l.
Proof.
  induction l as [|y l IH]; intros H; cbn; [done|]. rewrite (H y) by constructor. f_equal. apply IH. intros.
  apply H. by constructor.
Qed.

Lemma sumZ_change {A} (f f' : A -> Z) (l : list A) (x : A) :
  NoDup l -> x ∈ l -> (forall y, y <> x -> f' y = f y) -> sumZ f' l = sumZ f l + (f' x - f x).
Proof.
  induction 1 as [|y l Hy Hl IH]; intros Hx H; [by apply elem_of_nil in Hx|]. rewrite !sumZ_cons.
  apply elem_of_cons in Hx as [->|Hx].
  - rewrite (sumZ_ext f' f l); [lia|]. intros y' Hy'. apply H. by intros ->.
  - rewrite IH by done. rewrite (H y); [lia|]. by intros ->.
Qed.

(** A change of one square's weight, seen from the blocks. *)
Lemma block_count_change (a a' : Abs) (x z : Z) (t : StructType) (xl zl : Z) (t' : StructType) :
  (forall x' z' t', ~ (x' = x /\ z' = z /\ t' = t) -> weight a' t' (x', z') = weight a t' (x', z')) ->
  block_count a' xl zl t' =
    block_count a xl zl t' +
    (if decide (x / 8 = xl /\ z / 8 = zl /\ t' = t) then weight a' t (x, z) - weight a t (x, z) else 0).
Proof.
  intros H. unfold block_count. case_decide as Hd.
  - destruct Hd as (Hx & Hz & ->). apply sumZ_change; [apply NoDup_block|by apply elem_of_block|].
    intros [x' z'] Hne. apply H. intros (-> & -> & _). done.
  - rewrite Z.add_0_r. apply sumZ_ext. intros [x' z'] Hin. apply H. intros (-> & -> & ->).
    apply elem_of_block in Hin. tauto.
Qed.

(** ** One step of the map is one step of the abstraction *)

#[local] Opaque all_types.

Section Steps.
Context (cl rl : Z) (ally : list SBlockCellAlly).

Lemma index_some (n x z : Z) : 0 <= x -> 0 <= z -> 0 <= n -> index n x z = Some (Z.to_nat (z * n + x)).
Proof. intros. unfold index. replace (z * n + x <? 0) with false by (symmetry; apply Z.ltb_ge; nia). done. Qed.

Lemma in_map_low (x z : Z) : in_map cl rl x z -> 0 <= x / 8 < cl /\ 0 <= z / 8 < rl /\ x ÷ 8 = x / 8 /\ z ÷ 8 = z / 8.
Proof.
  intros [Hx Hz]. rewrite !Z.quot_div_nonneg by lia.
  repeat split; try (apply Z.div_pos; lia); apply Z.div_lt_upper_bound; lia.
Qed.

Lemma cell_at_rep (x z : Z) (ag al : Abs) : in_map cl rl x z -> cell_at (rep2 cl rl ally ag al) x z = Some (cell_of ag x z).
Proof. intros [Hx Hz]. unfold cell_at. cbn. rewrite index_some by lia. cbn. by apply table_lookup. Qed.

Lemma low_at_rep (x z : Z) (ag al : Abs) :
  in_map cl rl x z -> low_at (rep2 cl rl ally ag al) (x ÷ 8) (z ÷ 8) = Some (low_of al (x / 8) (z / 8)).
Proof.
  intros H. destruct (in_map_low x z H) as (Hx & Hz & -> & ->). unfold low_at. cbn.
  rewrite index_some by lia. cbn. by apply table_lookup.
Qed.

Lemma set_cell_rep (x z : Z) (c : SBlockCell) (ag ag' al : Abs) :
  in_map cl rl x z -> c = cell_of ag' x z ->
  (forall x' z', ~ (x' = x /\ z' = z) -> cell_of ag' x' z' = cell_of ag x' z') ->
  set_cell x z c (rep2 cl rl ally ag al) = Some (rep2 cl rl ally ag' al).
Proof.
  intros [Hx Hz] -> H. unfold set_cell. cbn. rewrite index_some by lia. cbn. f_equal. unfold rep2. f_equal.
  apply table_insert; auto.
Qed.

Lemma set_low_rep (x z : Z) (c : SBlockCellLow) (ag al al' : Abs) :
  in_map cl rl x z -> c = low_of al' (x / 8) (z / 8) ->
  (forall xl zl, ~ (xl = x / 8 /\ zl = z / 8) -> low_of al' xl zl = low_of al xl zl) ->
  set_low (x ÷ 8) (z ÷ 8) c (rep2 cl rl ally ag al) = Some (rep2 cl rl ally ag al').
Proof.
  intros Hin -> H. destruct (in_map_low x z Hin) as (Hx & Hz & -> & ->). unfold set_low. cbn.
  rewrite index_some by lia. cbn. f_equal. unfold rep2. f_equal. apply table_insert; auto.
Qed.

(** Two abstractions that differ in the weight of one square only. *)
Definition shifts (x z : Z) (t : StructType) (d : Z) (al al' : Abs) : Prop :=
  weight al' t (x, z) = weight al t (x, z) + d /\
  forall x' z' t', ~ (x' = x /\ z' = z /\ t' = t) -> weight al' t' (x', z') = weight al t' (x', z').

Lemma shifts_count (x z : Z) (t : StructType) (d : Z) (al al' : Abs) (xl zl : Z) (t' : StructType) :
  shifts x z t d al al' ->
  block_count al' xl zl t' =
    block_count al xl zl t' + (if decide (x / 8 = xl /\ z / 8 = zl /\ t' = t) then d else 0).
Proof. intros [H1 H2]. rewrite (block_count_change al al' x z t) by done. case_decide; [rewrite H1|]; lia. Qed.

Lemma low_of_ext (al al' : Abs) (xl zl : Z) :
  (forall t, block_count al' xl zl t = block_count al xl zl t) -> low_of al' xl zl = low_of al xl zl.
Proof.
  intros H. unfold low_of. f_equal; [apply mask_of_ext; intros t; by rewrite H|]. apply list_fmap_ext. intros. apply H.
Qed.

Lemma shifts_other (x z : Z) (t : StructType) (d : Z) (al al' : Abs) (xl zl : Z) :
  shifts x z t d al al' -> ~ (xl = x / 8 /\ zl = z / 8) -> low_of al' xl zl = low_of al xl zl.
Proof.
  intros Hs Hne. apply low_of_ext. intros t'. rewrite (shifts_count _ _ _ _ _ _ _ _ _ Hs), decide_False; [lia|].
  intros (E1 & E2 & _). apply Hne. by rewrite E1, E2.
Qed.

Lemma low_add_rep (x z : Z) (t : StructType) (ag al al' : Abs) :
  in_map cl rl x z -> shifts x z t 1 al al' -> 0 <= block_count al (x / 8) (z / 8) t < 65535 ->
  low_add x z t (rep2 cl rl ally ag al) = Some (rep2 cl rl ally ag al').
Proof.
  intros Hin Hs Hb. unfold low_add, GRID_RATIO_LOW. rewrite low_at_rep by done. cbn.
  rewrite all_types_lookup. cbn. unfold u16. rewrite Z.mod_small by lia.
  apply set_low_rep; [done| |intros; by eapply shifts_other].
  pose proof (fun t' => shifts_count x z t 1 al al' (x / 8) (z / 8) t' Hs) as Hc.
  assert (Ht : block_count al' (x / 8) (z / 8) t = block_count al (x / 8) (z / 8) t + 1) by (rewrite Hc, decide_True; done).
  assert (Ho : forall t', t' <> t -> block_count al' (x / 8) (z / 8) t' = block_count al (x / 8) (z / 8) t').
  { intros t' Hne. rewrite Hc, decide_False by tauto. lia. }
  unfold low_of. rewrite <- Ht. destruct (Z.eqb_spec (block_count al' (x / 8) (z / 8) t) BLOCK_THRESHOLD) as [E|E]; cbn; f_equal;
    try (by apply all_types_insert).
  - apply mask_of_lor; [rewrite E; apply Z.leb_refl|]. intros t' Hne. by rewrite Ho.
  - apply mask_of_ext. intros t'. destruct (decide (t' = t)) as [->|Hne]; [rewrite Ht in *|by rewrite Ho].
    apply eq_iff_eq_true. rewrite !Z.leb_le. lia.
Qed.

Lemma low_del_rep (x z : Z) (t : StructType) (ag al al' : Abs) :
  in_map cl rl x z -> shifts x z t (-1) al al' -> 0 < block_count al (x / 8) (z / 8) t < 65536 ->
  low_del x z t (rep2 cl rl ally ag al) = Some (rep2 cl rl ally ag al').
Proof.
  intros Hin Hs Hb. unfold low_del, GRID_RATIO_LOW. rewrite low_at_rep by done. cbn.
  rewrite all_types_lookup. cbn. unfold u16. rewrite Z.mod_small by lia.
  apply set_low_rep; [done| |intros; by eapply shifts_other].
  pose proof (fun t' => shifts_count x z t (-1) al al' (x / 8) (z / 8) t' Hs) as Hc.
  assert (Ht : block_count al' (x / 8) (z / 8) t = block_count al (x / 8) (z / 8) t - 1) by (rewrite Hc, decide_True; [lia|done]).
  assert (Ho : forall t', t' <> t -> block_count al' (x / 8) (z / 8) t' = block_count al (x / 8) (z / 8) t').
  { intros t' Hne. rewrite Hc, decide_False by tauto. lia. }
  unfold low_of. rewrite <- Ht. destruct (Z.eqb_spec (block_count al (x / 8) (z / 8) t) BLOCK_THRESHOLD) as [E|E]; cbn; f_equal;
    try (by apply all_types_insert).
  - apply mask_of_ldiff; [rewrite Ht, E; apply Z.leb_gt; lia|]. intros t' Hne. by rewrite Ho.
  - apply mask_of_ext. intros t'. destruct (decide (t' = t)) as [->|Hne]; [rewrite Ht in *|by rewrite Ho].
    apply eq_iff_eq_true. rewrite !Z.leb_le. lia.
Qed.

(** *** The steps *)

Lemma upd3_eq (x z : Z) (t : StructType) (v : Z) f : upd3 x z t v f x z t = v.
Proof. unfold upd3. by rewrite decide_True. Qed.
Lemma upd3_ne (x z : Z) (t : StructType) (v : Z) f x' z' t' :
  ~ (x' = x /\ z' = z /\ t' = t) -> upd3 x z t v f x' z' t' = f x' z' t'.
Proof. intros. unfold upd3. by rewrite decide_False. Qed.
Lemma upd2_eq (x z v : Z) f : upd2 x z v f x z = v.
Proof. unfold upd2. by rewrite decide_True. Qed.
Lemma upd2_ne (x z v : Z) f x' z' : ~ (x' = x /\ z' = z) -> upd2 x z v f x' z' = f x' z'.
Proof. intros. unfold upd2. by rewrite decide_False. Qed.

Lemma cell_of_ext (a a' : Abs) (x z : Z) :
  (forall t, a_n a' x z t = a_n a x z t) -> a_ign a' x z = a_ign a x z -> a_struct a' x z = a_struct a x z ->
  cell_of a' x z = cell_of a x z.
Proof.
  intros Hn Hi Hs. unfold cell_of. rewrite Hi, Hs. f_equal; [apply mask_of_ext; intros t; by rewrite Hn|].
  apply list_fmap_ext. intros. apply Hn.
Qed.

Lemma rep2_low_ext (ag al al' : Abs) :
  (forall x z t, weight al' t (x, z) = weight al t (x, z)) -> rep2 cl rl ally ag al = rep2 cl rl ally ag al'.
Proof.
  intros H. unfold rep2, table. f_equal.
  apply list_fmap_ext. intros. symmetry. apply low_of_ext. intros t. apply sumZ_ext. intros [] _. apply H.
Qed.

(** Writing the counter of one kind on one square. *)
Lemma counts_write (x z : Z) (t : StructType) (v : Z) (a : Abs) :
  <[ST t := v]> (a_n a x z <$> all_types) = upd3 x z t v (a_n a) x z <$> all_types.
Proof.
  rewrite <- (upd3_eq x z t v (a_n a)) at 1. apply all_types_insert. intros t' Hne. apply upd3_ne. tauto.
Qed.

Lemma counts_elsewhere (x z : Z) (t : StructType) (v : Z) (a : Abs) (x' z' : Z) :
  ~ (x' = x /\ z' = z) -> cell_of (a <| a_n := upd3 x z t v (a_n a) |>) x' z' = cell_of a x' z'.
Proof. intros Hne. apply cell_of_ext; [|done..]. intros t'. apply upd3_ne. tauto. Qed.

Lemma weight_upd (x z : Z) (t : StructType) (v : Z) (a : Abs) :
  shifts x z t ((if 0 <? v then 1 else 0) - (if 0 <? a_n a x z t then 1 else 0)) a (a <| a_n := upd3 x z t v (a_n a) |>).
Proof.
  unfold shifts, weight. cbn. rewrite upd3_eq. split; [lia|]. intros x' z' t' Hne. by rewrite upd3_ne.
Qed.

Lemma shifts_0 (x z : Z) (t : StructType) (d : Z) (ag al al' : Abs) :
  d = 0 -> shifts x z t d al al' -> rep2 cl rl ally ag al = rep2 cl rl ally ag al'.
Proof.
  intros -> [H1 H2]. apply rep2_low_ext. intros x' z' t'.
  destruct (decide (x' = x /\ z' = z /\ t' = t)) as [(-> & -> & ->)|]; [lia|auto].
Qed.

Lemma AddBlocker_rep (x z : Z) (t : StructType) (a : Abs) :
  in_map cl rl x z -> 0 <= a_n a x z t < 65535 -> 0 <= block_count a (x / 8) (z / 8) t < 65535 ->
  AddBlocker x z t (rep cl rl ally a) = Some (rep cl rl ally (abs_AddBlocker x z t a)).
Proof.
  intros Hin Hn Hb. unfold AddBlocker, rep. rewrite cell_at_rep by done. cbn.
  rewrite all_types_lookup. cbn. unfold u16. rewrite Z.mod_small by lia. rewrite counts_write.
  pose proof (weight_upd x z t (a_n a x z t + 1) a) as Hw.
  destruct (Z.eqb_spec (a_n a x z t) 0) as [E|E].
  - rewrite (set_cell_rep x z _ a (abs_AddBlocker x z t a)); [|done| |intros; by apply counts_elsewhere].
    + cbn. apply low_add_rep; [done| |done].
      replace (0 <? a_n a x z t + 1) with true in Hw by lia. by replace (0 <? a_n a x z t) with false in Hw by lia.
    + unfold cell_of. cbn. f_equal. apply mask_of_lor; [rewrite upd3_eq; apply Z.ltb_lt; lia|].
      intros t' Hne. by rewrite upd3_ne by tauto.
  - rewrite (set_cell_rep x z _ a (abs_AddBlocker x z t a)); [|done| |intros; by apply counts_elsewhere].
    + f_equal. eapply shifts_0; [|exact Hw].
      replace (0 <? a_n a x z t + 1) with true by lia. by replace (0 <? a_n a x z t) with true by lia.
    + unfold cell_of. cbn. f_equal. apply mask_of_ext. intros t'.
      destruct (decide (t' = t)) as [->|Hne]; [rewrite upd3_eq|by rewrite upd3_ne by tauto]. apply eq_iff_eq_true. rewrite !Z.ltb_lt. lia.
Qed.

Lemma DelBlocker_rep (x z : Z) (t : StructType) (a : Abs) :
  in_map cl rl x z -> 0 < a_n a x z t < 65536 -> 0 < block_count a (x / 8) (z / 8) t < 65536 ->
  DelBlocker x z t (rep cl rl ally a) = Some (rep cl rl ally (abs_DelBlocker x z t a)).
Proof.
  intros Hin Hn Hb. unfold DelBlocker, rep. rewrite cell_at_rep by done. cbn.
  rewrite all_types_lookup. cbn. unfold u16. rewrite Z.mod_small by lia. rewrite counts_write.
  pose proof (weight_upd x z t (a_n a x z t - 1) a) as Hw.
  destruct (Z.eqb_spec (a_n a x z t - 1) 0) as [E|E].
  - rewrite (set_cell_rep x z _ a (abs_DelBlocker x z t a)); [|done| |intros; by apply counts_elsewhere].
    + cbn. apply low_del_rep; [done| |done].
      replace (0 <? a_n a x z t - 1) with false in Hw by lia. by replace (0 <? a_n a x z t) with true in Hw by lia.
    + unfold cell_of. cbn. f_equal. apply mask_of_ldiff; [rewrite upd3_eq; apply Z.ltb_ge; lia|].
      intros t' Hne. by rewrite upd3_ne by tauto.
  - rewrite (set_cell_rep x z _ a (abs_DelBlocker x z t a)); [|done| |intros; by apply counts_elsewhere].
    + f_equal. eapply shifts_0; [|exact Hw].
      replace (0 <? a_n a x z t - 1) with true by lia. by replace (0 <? a_n a x z t) with true by lia.
    + unfold cell_of. cbn. f_equal. apply mask_of_ext. intros t'.
      destruct (decide (t' = t)) as [->|Hne]; [rewrite upd3_eq|by rewrite upd3_ne by tauto]. apply eq_iff_eq_true. rewrite !Z.ltb_lt. lia.
Qed.

Lemma struct_shifts (x z : Z) (t : StructType) (d ign str : Z) (a : Abs) :
  shifts x z t (if a_n a x z t =? 0 then d else 0) a (abs_struct x z t d ign str a).
Proof.
  unfold shifts, weight, abs_struct. destruct (a_n a x z t =? 0), (a_n a x z t <? BLOCK_VAL); cbn;
    rewrite ?upd3_eq; (split; [lia|]); intros x' z' t' Hne; by rewrite ?upd3_ne.
Qed.

(** The square a structure operation leaves. *)
Lemma struct_cell (x z : Z) (t : StructType) (d ign str : Z) (a : Abs) :
  (if a_n a x z t <? BLOCK_VAL then (cell_of a x z) <| notIgnoreMask := ign |> else cell_of a x z) <| structMask := str |> =
  cell_of (abs_struct x z t d ign str a) x z.
Proof.
  unfold abs_struct, cell_of. destruct (a_n a x z t =? 0), (a_n a x z t <? BLOCK_VAL); cbn; by rewrite ?upd2_eq.
Qed.

Lemma struct_elsewhere (x z : Z) (t : StructType) (d ign str : Z) (a : Abs) (x' z' : Z) :
  ~ (x' = x /\ z' = z) -> cell_of (abs_struct x z t d ign str a) x' z' = cell_of a x' z'.
Proof.
  intros Hne. unfold abs_struct. apply cell_of_ext;
    destruct (a_n a x z t =? 0), (a_n a x z t <? BLOCK_VAL); cbn; intros; by rewrite ?upd2_ne.
Qed.

Lemma AddStruct_rep (x z : Z) (t : StructType) (m : Z) (a : Abs) :
  in_map cl rl x z -> 0 <= block_count a (x / 8) (z / 8) t < 65535 ->
  AddStruct x z t m (rep cl rl ally a) = Some (rep cl rl ally (abs_AddStruct x z t m a)).
Proof.
  intros Hin Hb. unfold AddStruct, rep. rewrite cell_at_rep by done. cbn -[cell_of].
  replace (blockerCounts (cell_of a x z) !! ST t) with (Some (a_n a x z t)) by (symmetry; apply all_types_lookup).
  cbn -[cell_of]. pose proof (struct_shifts x z t 1 (u16 m) (GetStructMask t) a) as Hs.
  assert ((if a_n a x z t =? 0 then low_add x z t (rep2 cl rl ally a a) else Some (rep2 cl rl ally a a)) =
          Some (rep2 cl rl ally a (abs_AddStruct x z t m a))) as ->.
  { destruct (a_n a x z t =? 0); [by apply low_add_rep|]. f_equal. by eapply shifts_0. }
  cbn -[cell_of]. apply set_cell_rep; [done|apply struct_cell|intros; by apply struct_elsewhere].
Qed.

Lemma DelStruct_rep (x z : Z) (t : StructType) (m : Z) (a : Abs) :
  in_map cl rl x z -> (a_n a x z t = 0 -> 0 < block_count a (x / 8) (z / 8) t < 65536) ->
  DelStruct x z t m (rep cl rl ally a) = Some (rep cl rl ally (abs_DelStruct x z t a)).
Proof.
  intros Hin Hb. unfold DelStruct, rep. rewrite cell_at_rep by done. cbn -[cell_of].
  replace (blockerCounts (cell_of a x z) !! ST t) with (Some (a_n a x z t)) by (symmetry; apply all_types_lookup).
  cbn -[cell_of]. pose proof (struct_shifts x z t (-1) 0 0 a) as Hs.
  assert ((if a_n a x z t =? 0 then low_del x z t (rep2 cl rl ally a a) else Some (rep2 cl rl ally a a)) =
          Some (rep2 cl rl ally a (abs_DelStruct x z t a))) as ->.
  { destruct (Z.eqb_spec (a_n a x z t) 0); [by apply low_del_rep; auto|]. f_equal. by eapply shifts_0. }
  cbn -[cell_of]. apply set_cell_rep; [done|apply struct_cell|intros; by apply struct_elsewhere].
Qed.

(** ** Runs *)

(** All counters are between zero and [k]. *)
Definition bounded (k : Z) (a : Abs) : Prop :=
  (forall x z t, 0 <= a_n a x z t <= k /\ 0 <= a_s a x z t) /\ (forall xl zl t, block_count a xl zl t <= k).

Lemma weight_nonneg (k : Z) (a : Abs) (t : StructType) (c : Z * Z) : bounded k a -> 0 <= weight a t c.
Proof. intros [H _]. unfold weight. destruct (H c.1 c.2 t). case_match; lia. Qed.

Lemma sumZ_ge {A} (f : A -> Z) (l : list A) (x : A) : (forall y, 0 <= f y) -> x ∈ l -> f x <= sumZ f l.
Proof.
  intros Hf. assert (Hs : forall l, 0 <= sumZ f l).
  { intros l'. induction l' as [|y l' IH]; [done|]. rewrite sumZ_cons. specialize (Hf y). lia. }
  induction 1 as [y l|y z l _ IH]; rewrite sumZ_cons; [specialize (Hs l); lia|]. specialize (Hf z). lia.
Qed.

Lemma block_ge (k : Z) (a : Abs) (x z : Z) (t : StructType) :
  bounded k a -> weight a t (x, z) <= block_count a (x / 8) (z / 8) t.
Proof. intros Hb. apply sumZ_ge; [intros; by eapply weight_nonneg|by apply elem_of_block]. Qed.

Lemma block_nonneg (k : Z) (a : Abs) (xl zl : Z) (t : StructType) : bounded k a -> 0 <= block_count a xl zl t.
Proof.
  intros Hb. unfold block_count. induction (block_cells xl zl) as [|c l IH]; [done|]. rewrite sumZ_cons.
  pose proof (weight_nonneg k a t c Hb). lia.
Qed.

(** A legal step raises no counter by more than one. *)
Lemma step_bounded (o : op) (a : Abs) (k : Z) : bounded k a -> 0 <= k -> legal cl rl o a -> bounded (k + 1) (abs_step o a).
Proof.
  intros [H1 H2] Hk Hl.
  assert (Hblk : forall x z t d a', shifts x z t d a a' -> d <= 1 -> forall xl zl t', block_count a' xl zl t' <= k + 1).
  { intros x z t d a' Hs Hd xl zl t'. rewrite (shifts_count _ _ _ _ _ _ _ _ _ Hs). specialize (H2 xl zl t'). case_decide; lia. }
  destruct o as [x z t|x z t|x z t m|x z t m]; cbn [abs_step] in *; split.
  - intros x' z' t'. destruct (H1 x' z' t'), (H1 x z t). cbn. unfold upd3. case_decide; lia.
  - eapply Hblk; [apply weight_upd|]. repeat case_match; lia.
  - destruct Hl as [_ Hl]. intros x' z' t'. destruct (H1 x' z' t'), (H1 x z t). cbn. unfold upd3. case_decide; lia.
  - eapply Hblk; [apply weight_upd|]. repeat case_match; lia.
  - intros x' z' t'. destruct (H1 x' z' t'), (H1 x z t). unfold abs_AddStruct, abs_struct.
    destruct (a_n a x z t =? 0), (a_n a x z t <? BLOCK_VAL); cbn; unfold upd3; repeat case_decide; lia.
  - eapply Hblk; [apply struct_shifts|]. case_match; lia.
  - destruct Hl as [_ Hl]. intros x' z' t'. destruct (H1 x' z' t'), (H1 x z t). unfold abs_DelStruct, abs_struct.
    destruct (Z.eqb_spec (a_n a x z t) 0), (a_n a x z t <? BLOCK_VAL); cbn; unfold upd3; repeat case_decide; naive_solver lia.
  - eapply Hblk; [apply struct_shifts|]. case_match; lia.
Qed.

Lemma step_rep (o : op) (a : Abs) (k : Z) :
  bounded k a -> k < 65535 -> legal cl rl o a -> map_step o (rep cl rl ally a) = Some (rep cl rl ally (abs_step o a)).
Proof.
  intros Hb Hk Hl. pose proof (proj1 Hb) as H1. pose proof (proj2 Hb) as H2.
  destruct o as [x z t|x z t|x z t m|x z t m]; cbn [map_step abs_step legal] in *;
    pose proof (block_nonneg k a (x / 8) (z / 8) t Hb); pose proof (H2 (x / 8) (z / 8) t);
    pose proof (block_ge k a x z t Hb) as Hge; destruct (H1 x z t) as [Hn Hs]; unfold weight in Hge; cbn in Hge.
  - apply AddBlocker_rep; auto; lia.
  - destruct Hl as [Hin Hp]. replace (0 <? a_n a x z t) with true in Hge by lia. apply DelBlocker_rep; auto; lia.
  - apply AddStruct_rep; auto; lia.
  - destruct Hl as [Hin Hp]. apply DelStruct_rep; [done|]. intros E. specialize (Hp E).
    replace (0 <? a_n a x z t) with false in Hge by lia. lia.
Qed.

Lemma run_rep (os : list op) (a : Abs) (k : Z) :
  bounded k a -> 0 <= k -> k + Z.of_nat (length os) <= 65535 -> legal_run cl rl os a ->
  map_run os (rep cl rl ally a) = Some (rep cl rl ally (abs_run os a)) /\ bounded (k + Z.of_nat (length os)) (abs_run os a).
Proof.
  revert a k. induction os as [|o os IH]; intros a k Hb Hk Hlen Hl.
  { cbn. replace (k + Z.of_nat 0) with k by lia. done. }
  cbn [length] in Hlen. cbn [map_run]. destruct Hl as [Ho Hl].
  rewrite (step_rep o a k) by (done || lia). cbn [mbind option_bind].
  destruct (IH (abs_step o a) (k + 1)) as [-> Hb']; [by apply step_bounded|lia..|done|].
  split; [done|]. cbn [length]. replace (k + Z.of_nat (S (length os))) with (k + 1 + Z.of_nat (length os)) by lia. done.
Qed.

End Steps.

#[local] Transparent all_types.

Lemma table_const {A} (v : A) (c r : Z) : table (fun _ _ => v) c r = replicate (Z.to_nat (c * r)) v.
Proof. unfold table. rewrite <- (length_seqZ 0 (c * r)). by induction (seqZ 0 (c * r)) as [|i l IH]; cbn; [|rewrite IH]. Qed.

Lemma block_count_new (xl zl : Z) (t : StructType) : block_count Abs_new xl zl t = 0.
Proof. unfold block_count. induction (block_cells xl zl) as [|c l IH]; [done|]. by rewrite sumZ_cons, IH. Qed.

Lemma SBlockingMap_new_rep (cl rl : Z) :
  0 <= cl -> 0 <= rl ->
  SBlockingMap_new (16 * cl) (16 * rl) =
  rep cl rl (replicate (Z.to_nat (cl * rl)) {| allyCount := 0; ownCount := 0 |}) Abs_new.
Proof.
  intros Hc Hr. unfold SBlockingMap_new, GRID_RATIO_LOW.
  replace (16 * cl ÷ 2) with (8 * cl) by (rewrite Z.quot_div_nonneg by lia; Z.div_mod_to_equations; lia).
  replace (16 * rl ÷ 2) with (8 * rl) by (rewrite Z.quot_div_nonneg by lia; Z.div_mod_to_equations; lia).
  replace (16 * cl ÷ (8 * 2)) with cl by (rewrite Z.quot_div_nonneg by lia; Z.div_mod_to_equations; lia).
  replace (16 * rl ÷ (8 * 2)) with rl by (rewrite Z.quot_div_nonneg by lia; Z.div_mod_to_equations; lia).
  unfold rep, rep2. f_equal.
  - rewrite <- table_const. reflexivity.
  - rewrite <- table_const. unfold table. by apply list_fmap_ext.
Qed.

Lemma abs_run_net (os : list op) (a : Abs) (x z : Z) (t : StructType) :
  a_n (abs_run os a) x z t = a_n a x z t + net os x z t.
Proof.
  revert a. induction os as [|o os IH]; intros a; [cbn; lia|].
  change (abs_run (o :: os) a) with (abs_run os (abs_step o a)). rewrite IH. unfold net. rewrite sumZ_cons.
  destruct o as [x' z' t'|x' z' t'|x' z' t' m|x' z' t' m]; cbn [abs_step].
  - cbn. unfold upd3. case_decide as E; [destruct E as (-> & -> & ->)|]; lia.
  - cbn. unfold upd3. case_decide as E; [destruct E as (-> & -> & ->)|]; lia.
  - unfold abs_AddStruct, abs_struct. repeat case_match; cbn; lia.
  - unfold abs_DelStruct, abs_struct. repeat case_match; cbn; lia.
Qed.

Lemma abs_run_blockers (os : list op) (a : Abs) : forallb blocker_op os = true -> a_s (abs_run os a) = a_s a.
Proof.
  revert a. induction os as [|o os IH]; intros a; cbn; [done|]. intros [Ho Hos]%andb_prop. rewrite IH by done. by destruct o.
Qed.

(** With blockers only, a block's count is the number of its blocked squares. *)
Lemma block_count_blockers (os : list op) (xl zl : Z) (t : StructType) :
  forallb blocker_op os = true ->
  block_count (abs_run os Abs_new) xl zl t = size_of (filter (fun c => 0 < net os c.1 c.2 t) (block_cells xl zl)).
Proof.
  intros Hos. unfold block_count. induction (block_cells xl zl) as [|c l IH]; [done|].
  rewrite sumZ_cons, IH, filter_cons. unfold weight. rewrite abs_run_net, abs_run_blockers by done. cbn.
  unfold size_of. destruct (Z.ltb_spec 0 (0 + net os c.1 c.2 t)); case_decide; cbn [length]; lia.
Qed.

Lemma Abs_new_bounded : bounded 0 Abs_new.
Proof. split; [intros; cbn; lia|]. intros. by rewrite block_count_new. Qed.

(** C22. The occupancy map answers from its bit masks what the history of operations
    says: over any sequence of blockers and structures added and removed inside the
    map (nothing removed that is not there, at most 65535 operations), no access is
    out of range and no counter wraps; a square is blocked for a mask iff it carries
    a structure or more blockers of some kind of the mask were added than removed;
    and a block is blocked for a mask iff the count of some kind of the mask has
    reached three quarters of its 64 squares, which, when only blockers were placed,
    is the number of its squares blocked by that kind. *)
Theorem occupancy_refines (cl rl : Z) (os : list op) :
  0 < cl -> 0 < rl -> size_of os <= 65535 -> legal_run cl rl os Abs_new ->
  exists b, map_run os (SBlockingMap_new (16 * cl) (16 * rl)) = Some b /\
    (forall x z m, in_map cl rl x z -> exists r, IsBlocked b x z m = Some r /\
       (r = true <-> a_struct (abs_run os Abs_new) x z <> 0 \/
                     exists t, 0 < net os x z t /\ Z.testbit m (Z.of_nat (ST t)) = true)) /\
    (forall xl zl m, 0 <= xl < cl -> 0 <= zl < rl -> exists r, IsBlockedLow b xl zl m = Some r /\
       (r = true <-> exists t, 48 <= block_count (abs_run os Abs_new) xl zl t /\ Z.testbit m (Z.of_nat (ST t)) = true)) /\
    (forallb blocker_op os = true -> forall xl zl t,
       block_count (abs_run os Abs_new) xl zl t = size_of (filter (fun c => 0 < net os c.1 c.2 t) (block_cells xl zl))).
Proof.
  intros Hc Hr Hlen Hl. rewrite SBlockingMap_new_rep by lia.
  destruct (run_rep cl rl (replicate (Z.to_nat (cl * rl)) {| allyCount := 0; ownCount := 0 |}) os Abs_new 0) as [-> _];
    [apply Abs_new_bounded|lia|by unfold size_of in Hlen|done|].
  eexists. split; [done|]. split; [|split; [|intros; by apply block_count_blockers]].
  - intros x z m Hin. unfold IsBlocked, rep. rewrite cell_at_rep by done. cbn -[mask_of]. eexists. split; [done|].
    rewrite orb_true_iff, mask_meets, negb_true_iff, Z.eqb_neq.
    setoid_rewrite abs_run_net. setoid_rewrite Z.ltb_lt. cbn. tauto.
  - intros xl zl m Hx Hz. unfold IsBlockedLow, low_at. cbn. rewrite index_some by lia. cbn.
    rewrite table_lookup by done. cbn -[mask_of]. eexists. split; [done|].
    rewrite mask_meets. setoid_rewrite Z.leb_le. done.
Qed.

(** A mex on a 2x2 corner with a yard of blockers around, and its removal. *)
Definition demo_ops : list op :=
  [OAddStruct 1 1 MEX 65533; OAddStruct 2 1 MEX 65533; OAddBlocker 3 1 MEX; OAddBlocker 3 2 MEX; OAddBlocker 3 2 PYLON;
   ODelBlocker 3 1 MEX; ODelStruct 1 1 MEX 65533].

Lemma occupancy_refines_witness :
  exists b, map_run demo_ops (SBlockingMap_new 32 32) = Some b /\
    IsBlocked b 3 2 2 = Some true /\ IsBlocked b 3 1 2 = Some false /\ IsBlocked b 2 1 0 = Some true.
Proof.
  destruct (occupancy_refines 2 2 demo_ops) as (b & Hb & _); [lia|lia|vm_compute; discriminate| |].
  - repeat split; vm_compute; try reflexivity; try discriminate.
  - exists b. split; [exact Hb|]. vm_compute in Hb. injection Hb as <-. repeat split; vm_compute; reflexivity.
Defined.

(** ** Two drifts of the coarse grid *)

Definition block_squares (n : nat) : list (Z * Z) := take n (block_cells 0 0).

Fixpoint run_all (f : Z * Z -> SBlockingMap -> option SBlockingMap) (cs : list (Z * Z)) (b : SBlockingMap) : option SBlockingMap :=
  match cs with [] => Some b | c :: cs' => b' ← f c b; run_all f cs' b' end.

(** [MarkBlocker] compares the count before its increment where [AddBlocker] compares
    it after: 48 blocked squares mark the block when they were added one by one and
    do not when they were marked. *)
Theorem mark_threshold_off_by_one :
  let mark c := MarkBlocker c.1 c.2 TERRA 0 in
  let add c := AddBlocker c.1 c.2 TERRA in
  (b ← run_all add (block_squares 48) (SBlockingMap_new 32 32); IsBlockedLow b 0 0 StructMask_ALL) = Some true /\
  (b ← run_all mark (block_squares 48) (SBlockingMap_new 32 32); IsBlockedLow b 0 0 StructMask_ALL) = Some false.
Proof. split; vm_compute; reflexivity. Qed.

(** A structure is counted in its block when no blocker of its kind is on the square,
    and uncounted under the same condition at removal: a blocker of its kind that
    arrived in between leaves the count one too high.  After 48 squares went through
    structure, blocker, removal of both, every square is free and the block is
    reported as taken. *)
Theorem struct_drift :
  let there_and_back c b :=
    map_run [OAddStruct c.1 c.2 PYLON 0; OAddBlocker c.1 c.2 PYLON; ODelStruct c.1 c.2 PYLON 0; ODelBlocker c.1 c.2 PYLON] b in
  exists b, run_all there_and_back (block_squares 48) (SBlockingMap_new 32 32) = Some b /\
    Forall (fun c => IsBlocked b c.1 c.2 StructMask_ALL = Some false) (block_cells 0 0) /\
    IsBlockedLow b 0 0 StructMask_ALL = Some true.
Proof.
  eexists. split; [vm_compute; reflexivity|]. split; [|vm_compute; reflexivity].
  apply (bool_decide_unpack _). vm_compute. exact I.
Qed.
