(* ===== verification/BlockMask.v ===== *)
(** The footprint of a building with its yard (terrain/BlockMask.h, .cpp,
    BlockRectangle.cpp, BlockCircle.cpp), seen in the four facings, and its marking on
    the occupancy map ([CTerrainManager::MarkBlockerByMask]).

    [int2] is a pair of [int]s with componentwise operators; the sizes are small
    numbers of the configuration, far from the limits of [int]. *)

From S2P Require Import Prelude BlockingMap.

Inductive BlockType := OPEN | BLOCK | STRUCT.

#[export] Instance BlockType_eq_dec : EqDecision BlockType.
Proof. solve_decision. Defined.

Definition int2 : Type := (Z * Z)%type.
Definition add2 (a b : int2) : int2 := (a.1 + b.1, a.2 + b.2).
Definition sub2 (a b : int2) : int2 := (a.1 - b.1, a.2 - b.2).
Definition half2 (a : int2) : int2 := (a.1 ÷ 2, a.2 ÷ 2).

Record BlockRects := { b1 : int2; b2 : int2; s1 : int2; s2 : int2 }.

Record IBlockMask := {
  mask : list BlockType;
  xsize : Z; zsize : Z;
  offsetSouth : int2; offsetEast : int2; offsetNorth : int2; offsetWest : int2;
  structType : StructType;
  ignoreMask : Z;
}.

#[export] Instance IBlockMask_eta : Eta IBlockMask := fun m =>
  Build_IBlockMask (mask m) (xsize m) (zsize m) (offsetSouth m) (offsetEast m) (offsetNorth m) (offsetWest m)
    (structType m) (ignoreMask m).

(** [Init]: the two rectangles moved to non-negative coordinates, and the sizes. *)
Definition Init (offset bsize ssize : int2) (t : StructType) (ignore : Z) : IBlockMask * BlockRects :=
  let bcenter := (0, 0) in
  let mcenter := add2 bcenter offset in
  let b1 := sub2 mcenter (half2 bsize) in
  let b2 := add2 b1 bsize in
  let s1 := sub2 bcenter (half2 ssize) in
  let s2 := add2 s1 ssize in
  let addon := (b1.1 `min` s1.1, b1.2 `min` s1.2) in
  let b1 := sub2 b1 addon in
  let b2 := sub2 b2 addon in
  let s1 := sub2 s1 addon in
  let s2 := sub2 s2 addon in
  let xs := b2.1 `max` s2.1 - b1.1 `min` s1.1 in
  let zs := b2.2 `max` s2.2 - b1.2 `min` s1.2 in
  let south := (if b1.1 <? s1.1 then s1.1 - b1.1 else 0, if b1.2 <? s1.2 then s1.2 - b1.2 else 0) in
  let east := (south.2, if s2.1 <? b2.1 then b2.1 - s2.1 else 0) in
  let north := (south.1, if s2.2 <? b2.2 then b2.2 - s2.2 else 0) in
  let west := (north.2, south.1) in
  ({| mask := replicate (Z.to_nat (xs * zs)) OPEN; xsize := xs; zsize := zs;
      offsetSouth := south; offsetEast := east; offsetNorth := north; offsetWest := west;
      structType := t; ignoreMask := ignore |},
   {| b1 := b1; b2 := b2; s1 := s1; s2 := s2 |}).

(** [for z in 0 .. zsize, x in 0 .. xsize]. *)
Definition cells (xs zs : Z) : list int2 := z ← seqZ 0 zs; x ← seqZ 0 xs; [(x, z)].

(** The loops of the two constructors: every entry is written. *)
Definition fill (f : Z -> Z -> BlockType) (m : IBlockMask) : IBlockMask :=
  m <| mask ::= fun l => fold_left (fun l c => <[Z.to_nat (c.2 * xsize m + c.1) := f c.1 c.2]> l) (cells (xsize m) (zsize m)) l |>.

Definition in_rect (p1 p2 : int2) (x z : Z) : bool := (p1.1 <=? x) && (x <? p2.1) && (p1.2 <=? z) && (z <? p2.2).

Definition rectangle_type (r : BlockRects) (x z : Z) : BlockType :=
  if in_rect (s1 r) (s2 r) x z then STRUCT else if in_rect (b1 r) (b2 r) x z then BLOCK else OPEN.

Definition CBlockRectangle (offset bsize ssize : int2) (t : StructType) (ignore : Z) : IBlockMask :=
  let '(m, r) := Init offset bsize ssize t ignore in fill (rectangle_type r) m.

Definition circle_type (radius : Z) (r : BlockRects) (x z : Z) : BlockType :=
  let c := half2 (add2 (b1 r) (b2 r)) in
  if in_rect (s1 r) (s2 r) x z then STRUCT
  else if (x - c.1) * (x - c.1) + (z - c.2) * (z - c.2) <=? radius * radius then BLOCK else OPEN.

Definition CBlockCircle (offset : int2) (radius : Z) (ssize : int2) (t : StructType) (ignore : Z) : IBlockMask :=
  let '(m, r) := Init offset (radius * 2, radius * 2) ssize t ignore in fill (circle_type radius r) m.

(** The UNIT_FACING constants 0 to 3, and UNIT_NO_FACING, -1, for a building that may
    be put down in any way. *)
Inductive facing := SOUTH | EAST | NORTH | WEST | NO_FACING.

Definition mask_at (m : IBlockMask) (i : Z) : option BlockType := if i <? 0 then None else mask m !! Z.to_nat i.

Definition GetTypeSouth (m : IBlockMask) (x z : Z) : option BlockType := mask_at m (z * xsize m + x).
Definition GetTypeEast (m : IBlockMask) (x z : Z) : option BlockType := mask_at m ((x + 1) * xsize m - 1 - z).
Definition GetTypeNorth (m : IBlockMask) (x z : Z) : option BlockType := mask_at m ((zsize m - z) * xsize m - 1 - x).
Definition GetTypeWest (m : IBlockMask) (x z : Z) : option BlockType := mask_at m ((zsize m - 1 - x) * xsize m + z).

Definition GetType (d : facing) : IBlockMask -> Z -> Z -> option BlockType :=
  match d with
  | SOUTH | NO_FACING => GetTypeSouth | EAST => GetTypeEast | NORTH => GetTypeNorth | WEST => GetTypeWest
  end.

Definition GetStructOffset (d : facing) (m : IBlockMask) : int2 :=
  match d with
  | SOUTH | NO_FACING => offsetSouth m | NORTH => offsetNorth m | EAST => offsetEast m | WEST => offsetWest m
  end.

(** ** Marking a building *)

(** The sizes of a footprint in a facing, where the code switches on it. *)
Definition turned (d : facing) (size : int2) : int2 :=
  match d with SOUTH | NORTH | NO_FACING => size | EAST | WEST => (size.2, size.1) end.

(** The sizes of a unit without a mask, by the low bit of the facing: -1 is odd. *)
Definition turned_odd (d : facing) (size : int2) : int2 :=
  match d with SOUTH | NORTH => size | EAST | WEST | NO_FACING => (size.2, size.1) end.

(** The square of one entry of the footprint. *)
Definition mark_cell (block : bool) (t : StructType) (notIgnore : Z) (x z : Z) (ty : BlockType) (b : SBlockingMap) : option SBlockingMap :=
  match ty with
  | BLOCK => if block then AddBlocker x z t b else DelBlocker x z t b
  | STRUCT => if block then AddStruct x z t notIgnore b else DelStruct x z t notIgnore b
  | OPEN => Some b
  end.

(** [corner]: the first square of a structure of [ssize] squares at the world position
    whose rounded coordinates ([int(pos.x + 0.5f)], [int(pos.z + 0.5f)]) are [pos]. *)
Definition struct_corner (pos ssize : int2) : int2 := (pos.1 ÷ 16 - ssize.1 ÷ 2, pos.2 ÷ 16 - ssize.2 ÷ 2).

(** The loops over the squares [m1 + c] whose entries are [om + c]. *)
Fixpoint mark_loop (block : bool) (d : facing) (m : IBlockMask) (m1 om : int2) (cs : list int2) (b : SBlockingMap) : option SBlockingMap :=
  match cs with
  | [] => Some b
  | c :: cs' =>
      ty ← GetType d m (om.1 + c.1) (om.2 + c.2);
      b' ← mark_cell block (structType m) (Z.lnot (ignoreMask m)) (m1.1 + c.1) (m1.2 + c.2) ty b;
      mark_loop block d m m1 om cs' b'
  end.

(** [usize]: the unit's size in map squares, two to a build square. *)
Definition MarkBlockerByMask (block : bool) (d : facing) (pos usize : int2) (m : IBlockMask) (b : SBlockingMap) : option SBlockingMap :=
  let msize := turned d (xsize m, zsize m) in
  let corner := struct_corner pos (turned d (half2 usize)) in
  let om := sub2 corner (GetStructOffset d m) in
  let '(m1, m2) := Bound b om (add2 om msize) in
  mark_loop block d m m1 (sub2 m1 om) (cells (m2.1 - m1.1) (m2.2 - m1.2)) b.

(** The default marker: the structure alone, column by column. *)
Definition columns_of (m1 m2 : int2) : list int2 := x ← seqZ m1.1 (m2.1 - m1.1); z ← seqZ m1.2 (m2.2 - m1.2); [(x, z)].

Fixpoint default_loop (block : bool) (cs : list int2) (b : SBlockingMap) : option SBlockingMap :=
  match cs with
  | [] => Some b
  | c :: cs' => b' ← mark_cell block UNKNOWN StructMask_ALL c.1 c.2 STRUCT b; default_loop block cs' b'
  end.

(** [mask]: what [blockInfos] holds for the unit. *)
Definition CTerrainManager_MarkBlocker (block : bool) (d : facing) (pos usize : int2) (mask : option IBlockMask) (b : SBlockingMap) : option SBlockingMap :=
  match mask with
  | Some m => MarkBlockerByMask block d pos usize m b
  | None =>
      let size := turned_odd d (half2 usize) in
      let corner := struct_corner pos size in
      let '(m1, m2) := Bound b corner (add2 corner size) in
      default_loop block (columns_of m1 m2) b
  end.

(** * Facings *)

Lemma elem_of_cells (xs zs x z : Z) : (x, z) ∈ cells xs zs <-> 0 <= x < xs /\ 0 <= z < zs.
Proof.
  unfold cells. rewrite list_elem_of_bind. setoid_rewrite list_elem_of_bind. setoid_rewrite elem_of_seqZ.
  setoid_rewrite list_elem_of_singleton. split.
  - intros (z' & (x' & [= -> ->] & Hx) & Hz). lia.
  - intros [Hx Hz]. exists z. split; [|lia]. exists x. split; [done|lia].
Qed.

(** A run of writes, each index always with the same value. *)
Lemma writes_lookup {A} (w : int2 -> nat) (v : int2 -> A) (cs : list int2) (l : list A) (c : int2) :
  c ∈ cs -> (forall c', c' ∈ cs -> w c' = w c -> v c' = v c) -> (w c < length l)%nat ->
  fold_left (fun l c => <[w c := v c]> l) cs l !! w c = Some (v c).
Proof.
  assert (Hkeep : forall (cs : list int2) (l : list A), (forall c', c' ∈ cs -> w c' = w c -> v c' = v c) -> l !! w c = Some (v c) ->
            fold_left (fun l c => <[w c := v c]> l) cs l !! w c = Some (v c)).
  { intros cs'. induction cs' as [|c0 cs' IH]; intros l' Hv Hl; cbn; [done|]. apply IH; [intros c' Hc'; apply Hv; by constructor|].
    destruct (decide (w c0 = w c)) as [E|E]; [|by rewrite list_lookup_insert_ne].
    rewrite E, list_lookup_insert_eq by (by eapply lookup_lt_Some). f_equal. apply Hv; [constructor|done]. }
  revert l. induction cs as [|c0 cs IH]; intros l Hin Hv Hlen; [by apply elem_of_nil in Hin|]. cbn.
  apply elem_of_cons in Hin as [<-|Hin].
  - apply Hkeep; [intros c' Hc'; apply Hv; by constructor|]. by apply list_lookup_insert_eq.
  - apply IH; [done|intros c' Hc'; apply Hv; by constructor|]. by rewrite length_insert.
Qed.

Lemma writes_length {A} (w : int2 -> nat) (v : int2 -> A) (cs : list int2) (l : list A) :
  length (fold_left (fun l c => <[w c := v c]> l) cs l) = length l.
Proof. revert l. induction cs as [|c cs IH]; intros l; cbn; [done|]. by rewrite IH, length_insert. Qed.

(** The loops of a rectangle write the table of [f]. *)
Lemma writes_table {A} (f : Z -> Z -> A) (xs zs : Z) (l : list A) :
  0 <= xs -> 0 <= zs -> length l = Z.to_nat (xs * zs) ->
  fold_left (fun l c => <[Z.to_nat (c.2 * xs + c.1) := f c.1 c.2]> l) (cells xs zs) l = table f xs zs.
Proof.
  intros Hx Hz Hlen. apply list_eq. intros i.
  assert (Ht : length (table f xs zs) = Z.to_nat (xs * zs)) by (unfold table; by rewrite length_fmap, length_seqZ).
  destruct (decide (i < Z.to_nat (xs * zs))%nat) as [Hi|Hi].
  2:{ rewrite !lookup_ge_None_2; [done|lia|]. rewrite (writes_length (fun c => Z.to_nat (c.2 * xs + c.1)) (fun c => f c.1 c.2)). lia. }
  assert (Hpos : 0 < xs) by nia. set (x := Z.of_nat i mod xs). set (z := Z.of_nat i / xs).
  assert (Hx' : 0 <= x < xs) by (apply Z.mod_pos_bound; lia).
  assert (Hz' : 0 <= z < zs) by (split; [apply Z.div_pos|apply Z.div_lt_upper_bound]; lia).
  assert (Hi' : i = Z.to_nat (z * xs + x)) by (unfold x, z; pose proof (Z_div_mod_eq_full (Z.of_nat i) xs); lia).
  rewrite Hi', table_lookup by done.
  apply (writes_lookup (fun c => Z.to_nat (c.2 * xs + c.1)) (fun c => f c.1 c.2) _ _ (x, z)).
  - by apply elem_of_cells.
  - intros [x' z'] [Hx'' Hz'']%elem_of_cells. cbn. intros E.
    assert (E' : z' * xs + x' = z * xs + x) by nia.
    assert (Hp : 0 <= z' * xs + x') by (clear -Hx'' Hz'' Hpos; nia).
    destruct (proj2 (table_index xs x' z' _ Hx'' Hp) eq_refl) as [E1 E2].
    destruct (proj2 (table_index xs x z _ Hx' Hp) E') as [E3 E4]. congruence.
  - cbn. rewrite Hlen. by rewrite <- Hi'.
Qed.

Lemma fill_mask (f : Z -> Z -> BlockType) (m : IBlockMask) :
  0 <= xsize m -> 0 <= zsize m -> length (mask m) = Z.to_nat (xsize m * zsize m) ->
  mask (fill f m) = table f (xsize m) (zsize m).
Proof. intros. by apply writes_table. Qed.

(** Where a turned entry comes from. *)
Definition turn_back (d : facing) (size : int2) (x z : Z) : int2 :=
  match d with
  | SOUTH | NO_FACING => (x, z)
  | EAST => (size.1 - 1 - z, x)
  | NORTH => (size.1 - 1 - x, size.2 - 1 - z)
  | WEST => (z, size.2 - 1 - x)
  end.

Definition in_size (size : int2) (x z : Z) : Prop := 0 <= x < size.1 /\ 0 <= z < size.2.

(** The four accessors are one mask turned. *)
Lemma GetType_turn (d : facing) (f : Z -> Z -> BlockType) (m : IBlockMask) (x z : Z) :
  mask m = table f (xsize m) (zsize m) -> in_size (turned d (xsize m, zsize m)) x z ->
  GetType d m x z = Some (let c := turn_back d (xsize m, zsize m) x z in f c.1 c.2).
Proof.
  intros Hm [Hx Hz].
  assert (Hat : forall x' z' i, 0 <= x' < xsize m -> 0 <= z' < zsize m -> i = z' * xsize m + x' -> mask_at m i = Some (f x' z')).
  { intros x' z' i Hx' Hz' ->. unfold mask_at. replace (z' * xsize m + x' <? 0) with false by (symmetry; apply Z.ltb_ge; nia).
    rewrite Hm. by apply table_lookup. }
  destruct d; cbn in *; unfold GetTypeSouth, GetTypeEast, GetTypeNorth, GetTypeWest; apply Hat; lia.
Qed.

Lemma GetType_some (d : facing) (m : IBlockMask) (x z : Z) :
  length (mask m) = Z.to_nat (xsize m * zsize m) -> in_size (turned d (xsize m, zsize m)) x z -> is_Some (GetType d m x z).
Proof.
  intros Hm [Hx Hz].
  assert (Hat : forall x' z' i, 0 <= x' < xsize m -> 0 <= z' < zsize m -> i = z' * xsize m + x' -> is_Some (mask_at m i)).
  { intros x' z' i Hx' Hz' ->. unfold mask_at. replace (z' * xsize m + x' <? 0) with false by (symmetry; apply Z.ltb_ge; nia).
    apply lookup_lt_is_Some_2. rewrite Hm. nia. }
  destruct d; cbn in *; unfold GetTypeSouth, GetTypeEast, GetTypeNorth, GetTypeWest.
  - by apply (Hat x z).
  - apply (Hat (xsize m - 1 - z) x); lia.
  - apply (Hat (xsize m - 1 - x) (zsize m - 1 - z)); lia.
  - apply (Hat z (zsize m - 1 - x)); lia.
  - by apply (Hat x z).
Qed.

(** A footprint built over the rectangles of [Init], its structure as [Init] placed it. *)
Definition shaped (offset bsize ssize : int2) (t : StructType) (ignore : Z) (m : IBlockMask) : Prop :=
  exists f, let '(m0, r) := Init offset bsize ssize t ignore in
    m = fill f m0 /\ forall x z, f x z = STRUCT <-> in_rect (s1 r) (s2 r) x z = true.

Lemma CBlockRectangle_shaped (offset bsize ssize : int2) (t : StructType) (ignore : Z) :
  shaped offset bsize ssize t ignore (CBlockRectangle offset bsize ssize t ignore).
Proof.
  unfold shaped, CBlockRectangle. destruct (Init _ _ _ _ _) as [m0 r]. eexists. split; [done|].
  intros x z. unfold rectangle_type. repeat case_match; naive_solver.
Qed.

Lemma CBlockCircle_shaped (offset : int2) (radius : Z) (ssize : int2) (t : StructType) (ignore : Z) :
  shaped offset (radius * 2, radius * 2) ssize t ignore (CBlockCircle offset radius ssize t ignore).
Proof.
  unfold shaped, CBlockCircle. destruct (Init _ _ _ _ _) as [m0 r]. eexists. split; [done|].
  intros x z. unfold circle_type. repeat case_match; naive_solver.
Qed.

Lemma in_rect_iff (p1 p2 : int2) (x z : Z) : in_rect p1 p2 x z = true <-> p1.1 <= x < p2.1 /\ p1.2 <= z < p2.2.
Proof. unfold in_rect. rewrite !andb_true_iff, !Z.leb_le, !Z.ltb_lt. tauto. Qed.

Lemma clamp (a b : Z) : (if a <? b then b - a else 0) = (b - a) `max` 0.
Proof. destruct (Z.ltb_spec a b); lia. Qed.

Definition nonneg2 (p : int2) : Prop := 0 <= p.1 /\ 0 <= p.2.

(** Whether the margins left and right of the structure are the same. *)
Definition centred (m : IBlockMask) : Prop := (offsetSouth m).1 = (offsetEast m).2.

(** The structure of a footprint in the facing [d]: its first entry is the offset, and
    it is the whole turned structure. *)
Lemma shaped_struct (d : facing) (offset bsize ssize : int2) (t : StructType) (ignore : Z) (m : IBlockMask) (x z : Z) :
  shaped offset bsize ssize t ignore m -> nonneg2 bsize -> nonneg2 ssize -> (d = NORTH -> centred m) ->
  in_size (turned d (xsize m, zsize m)) x z ->
  let o := GetStructOffset d m in
  exists ty, GetType d m x z = Some ty /\ (ty = STRUCT <-> in_rect o (add2 o (turned d ssize)) x z = true).
Proof.
  intros (f & Hm) [Hb1 Hb2] [Hs1 Hs2] Hn Hin. destruct offset as [ox oz], bsize as [bx bz], ssize as [sx sz].
  unfold Init in Hm. destruct Hm as [-> Hf]. cbn in Hb1, Hb2, Hs1, Hs2.
  match goal with |- context [fill f ?m0] => set (m := m0) in * end.
  eexists. split.
  - apply (GetType_turn d f (fill f m)); [|exact Hin]. apply (fill_mask f m); unfold m; cbn; try lia. by rewrite length_replicate.
  - rewrite Hf. clear Hf. refine (iff_trans (in_rect_iff _ _ _ _) (iff_sym (iff_trans (in_rect_iff _ _ _ _) _))).
    revert Hn Hin. unfold centred, in_size, m. clear m.
    generalize (Z.quot bx 2) (Z.quot bz 2) (Z.quot sx 2) (Z.quot sz 2). intros hb1 hb2 hs1 hs2.
    destruct d; cbn; rewrite !clamp; intros Hn Hin; try specialize (Hn eq_refl); lia.
Qed.

(** The whole turned structure lies inside the turned mask. *)
Lemma shaped_fits (d : facing) (offset bsize ssize : int2) (t : StructType) (ignore : Z) (m : IBlockMask) :
  shaped offset bsize ssize t ignore m -> nonneg2 bsize -> nonneg2 ssize -> (d = NORTH -> centred m) ->
  let o := GetStructOffset d m in let e := add2 o (turned d ssize) in let size := turned d (xsize m, zsize m) in
  nonneg2 o /\ e.1 <= size.1 /\ e.2 <= size.2.
Proof.
  intros (f & Hm) [Hb1 Hb2] [Hs1 Hs2] Hn. destruct offset as [ox oz], bsize as [bx bz], ssize as [sx sz].
  unfold Init in Hm. destruct Hm as [-> _]. cbn in Hb1, Hb2, Hs1, Hs2. revert Hn. unfold centred, nonneg2.
  destruct d; cbn; rewrite !clamp; intros Hn; try specialize (Hn eq_refl); lia.
Qed.

(** The offset of a building's footprint in a facing is where its structure is:
    for a rectangular or a round yard of any size around a structure of any size, off
    centre or not, and in every facing, the structure's rectangle at the offset lies
    inside the turned mask, every entry of the mask is read in range, and it says
    STRUCT iff it belongs to that rectangle.  Facing north this needs the margins left
    and right of the structure to be equal. *)
Theorem struct_at_offset (d : facing) (offset bsize ssize : int2) (radius : Z) (t : StructType) (ignore : Z) (m : IBlockMask) :
  m = CBlockRectangle offset bsize ssize t ignore \/
    m = CBlockCircle offset radius ssize t ignore /\ bsize = (radius * 2, radius * 2) ->
  nonneg2 bsize -> nonneg2 ssize -> (d = NORTH -> centred m) ->
  let o := GetStructOffset d m in let e := add2 o (turned d ssize) in let size := turned d (xsize m, zsize m) in
  (nonneg2 o /\ e.1 <= size.1 /\ e.2 <= size.2) /\
  forall x z, in_size size x z -> exists ty, GetType d m x z = Some ty /\ (ty = STRUCT <-> in_rect o e x z = true).
Proof.
  intros Hm Hb Hs Hn.
  assert (Hsh : shaped offset bsize ssize t ignore m).
  { destruct Hm as [->|[-> ->]]; [apply CBlockRectangle_shaped|apply CBlockCircle_shaped]. }
  split; [by eapply shaped_fits|]. intros x z Hin. by eapply shaped_struct.
Qed.

(** A factory's yard, open to the south: 8x12 squares around a 6x6 structure. *)
Definition yard : IBlockMask := CBlockRectangle (0, 3) (8, 12) (6, 6) FACTORY 0.

Lemma struct_at_offset_witness :
  offsetWest yard = (6, 1) /\ GetType WEST yard 6 1 = Some STRUCT /\ GetType WEST yard 5 1 = Some BLOCK /\
  exists ty, GetType WEST yard 11 6 = Some ty /\ (ty = STRUCT <-> in_rect (6, 1) (12, 7) 11 6 = true).
Proof.
  split; [vm_compute; reflexivity|]. split; [vm_compute; reflexivity|]. split; [vm_compute; reflexivity|].
  apply (struct_at_offset WEST (0, 3) (8, 12) (6, 6) 0 FACTORY 0 yard (or_introl eq_refl)).
  - split; cbn; lia.
  - split; cbn; lia.
  - discriminate.
  - split; vm_compute; split; (discriminate || reflexivity).
Defined.

(** Facing north the offset keeps the left margin where the right one is meant: of a
    mask of four columns with a structure of one, two columns from the left and one
    from the right, the entry at the offset is not the structure's. *)
Theorem north_offset_wrong :
  let m := CBlockRectangle (0, 0) (4, 4) (1, 1) MEX 0 in
  GetStructOffset NORTH m = (2, 1) /\ GetType NORTH m 2 1 = Some BLOCK /\ GetType NORTH m 1 1 = Some STRUCT.
Proof. repeat split; vm_compute; reflexivity. Qed.

(** * Marking and unmarking *)

(** The operations of a footprint: one on each square that is not open. *)
Definition op_of (block : bool) (t : StructType) (ni : Z) (q : int2 * BlockType) : list op :=
  let '((x, z), ty) := q in
  match ty with
  | OPEN => []
  | BLOCK => [if block then OAddBlocker x z t else ODelBlocker x z t]
  | STRUCT => [if block then OAddStruct x z t ni else ODelStruct x z t ni]
  end.

Definition ops_of (block : bool) (t : StructType) (ni : Z) (fp : list (int2 * BlockType)) : list op :=
  q ← fp; op_of block t ni q.

Definition op_square (o : op) : int2 :=
  match o with OAddBlocker x z _ | ODelBlocker x z _ | OAddStruct x z _ _ | ODelStruct x z _ _ => (x, z) end.

(** Two maps agree on a square. *)
Definition same_at (p : int2) (a a' : Abs) : Prop :=
  (forall t, a_n a p.1 p.2 t = a_n a' p.1 p.2 t) /\ (forall t, a_s a p.1 p.2 t = a_s a' p.1 p.2 t) /\
  a_struct a p.1 p.2 = a_struct a' p.1 p.2 /\ a_ign a p.1 p.2 = a_ign a' p.1 p.2.

#[export] Instance same_at_equiv (p : int2) : Equivalence (same_at p).
Proof.
  split.
  - intros a. by repeat split.
  - intros a b (H1 & H2 & H3 & H4). repeat split; intros; by symmetry.
  - intros a b c (H1 & H2 & H3 & H4) (K1 & K2 & K3 & K4). repeat split; intros; etransitivity; eauto.
Qed.

(** An operation touches its square only, and reads nothing else. *)
Lemma step_other (o : op) (p : int2) (a : Abs) : op_square o <> p -> same_at p (abs_step o a) a.
Proof.
  destruct p as [px pz], o as [x z t|x z t|x z t m|x z t m]; cbn [op_square abs_step]; intros Hne;
    unfold same_at, abs_AddBlocker, abs_DelBlocker, abs_AddStruct, abs_DelStruct, abs_struct; cbn -[BLOCK_VAL];
    repeat case_match; cbn; repeat split; intros; (rewrite upd3_ne || rewrite upd2_ne || idtac); try done;
    intros E; apply Hne; naive_solver.
Qed.

Lemma step_cong (o : op) (a a' : Abs) : same_at (op_square o) a a' -> same_at (op_square o) (abs_step o a) (abs_step o a').
Proof.
  destruct o as [x z t|x z t|x z t m|x z t m]; cbn [op_square abs_step]; unfold same_at; cbn [fst snd]; intros (H1 & H2 & H3 & H4);
    unfold abs_AddBlocker, abs_DelBlocker, abs_AddStruct, abs_DelStruct, abs_struct; rewrite ?(H1 t), ?(H2 t);
    repeat case_match; cbn; unfold upd3, upd2; repeat split; intros; repeat case_decide; naive_solver.
Qed.

Lemma run_other (os : list op) (p : int2) (a : Abs) : p ∉ (op_square <$> os) -> same_at p (abs_run os a) a.
Proof.
  revert a. induction os as [|o os IH]; intros a Hp; [done|]. rewrite fmap_cons, not_elem_of_cons in Hp. destruct Hp as [Ho Hp].
  change (abs_run (o :: os) a) with (abs_run os (abs_step o a)). rewrite IH by done. by apply step_other.
Qed.

(** With one operation to a square, what a square holds is what its operation did. *)
Lemma run_at (os : list op) (o : op) (a : Abs) :
  NoDup (op_square <$> os) -> o ∈ os -> same_at (op_square o) (abs_run os a) (abs_step o a).
Proof.
  revert a. induction os as [|o' os IH]; intros a Hnd Hin; [by apply elem_of_nil in Hin|].
  rewrite fmap_cons in Hnd. apply NoDup_cons in Hnd as [Hni Hnd]. change (abs_run (o' :: os) a) with (abs_run os (abs_step o' a)).
  apply elem_of_cons in Hin as [->|Hin].
  - by apply run_other.
  - rewrite IH by done. apply step_cong. apply step_other. intros E. apply Hni. rewrite E. by apply list_elem_of_fmap_2.
Qed.

Lemma rep_same (cl rl : Z) (ally : list SBlockCellAlly) (a a' : Abs) :
  0 < cl -> (forall p, same_at p a a') -> rep cl rl ally a = rep cl rl ally a'.
Proof.
  intros Hc H. unfold rep, rep2. f_equal; (apply table_ext; [lia|]).
  - intros x z _ _. destruct (H (x, z)) as (H1 & _ & H3 & H4). by apply cell_of_ext.
  - intros xl zl _ _. apply low_of_ext. intros t. unfold block_count. apply sumZ_ext. intros c _.
    destruct (H c) as (H1 & H2 & _). unfold weight. by rewrite H1, H2.
Qed.

Section There_and_back.
Context (cl rl : Z) (t : StructType) (ni : Z).

Lemma legal_same (o : op) (a a' : Abs) : same_at (op_square o) a a' -> legal cl rl o a -> legal cl rl o a'.
Proof. intros (H1 & H2 & _). destruct o as [x z t'|x z t'|x z t' m|x z t' m]; cbn in *; rewrite ?(H1 t'), ?(H2 t'); done. Qed.

Lemma legal_each (os : list op) (a : Abs) :
  NoDup (op_square <$> os) -> (forall o, o ∈ os -> legal cl rl o a) -> legal_run cl rl os a.
Proof.
  revert a. induction os as [|o os IH]; intros a Hnd Hl; [done|]. rewrite fmap_cons in Hnd. apply NoDup_cons in Hnd as [Hni Hnd].
  split; [apply Hl; by constructor|]. apply IH; [done|]. intros o' Hin. eapply legal_same; [|apply Hl; by constructor].
  symmetry. apply step_other. intros E. apply Hni. rewrite E. by apply list_elem_of_fmap_2.
Qed.

Definition fp := list (int2 * BlockType).

Lemma ops_squares (block : bool) (q : fp) (p : int2) :
  p ∈ (op_square <$> ops_of block t ni q) <-> exists ty, (p, ty) ∈ q /\ ty <> OPEN.
Proof.
  unfold ops_of. rewrite list_elem_of_fmap. setoid_rewrite list_elem_of_bind. split.
  - intros (o & -> & ([[x z] ty] & Ho & Hin)). exists ty.
    destruct ty, block; cbn in Ho; try (by apply elem_of_nil in Ho); apply list_elem_of_singleton in Ho as ->; done.
  - intros (ty & Hin & Hty). destruct p as [x z]. destruct ty; [done| |].
    all: eexists; split; [|eexists; split; [|exact Hin]; cbn; by apply list_elem_of_singleton]. all: by destruct block.
Qed.

Lemma ops_NoDup (block : bool) (q : fp) : NoDup (q.*1) -> NoDup (op_square <$> ops_of block t ni q).
Proof.
  induction q as [|[[x z] ty] q IH]; [constructor|]. rewrite fmap_cons, NoDup_cons. intros [Hni Hnd].
  assert (Hn : (x, z) ∉ (op_square <$> ops_of block t ni q)).
  { rewrite ops_squares. intros (ty' & Hin & _). apply Hni. by apply (list_elem_of_fmap_2 fst) in Hin. }
  destruct ty, block; cbn; try (by apply IH); constructor; auto.
Qed.

Definition site_free (q : fp) (a : Abs) : Prop :=
  forall x z, ((x, z), STRUCT) ∈ q -> a_struct a x z = 0 /\ a_ign a x z = 0.

(** An operation and its inverse on a square. *)
Lemma inverse_same (x z : Z) (ty : BlockType) (on off : op) (a : Abs) :
  op_of true t ni ((x, z), ty) = [on] -> op_of false t ni ((x, z), ty) = [off] ->
  (ty = STRUCT -> a_struct a x z = 0 /\ a_ign a x z = 0) ->
  same_at (x, z) (abs_step off (abs_step on a)) a.
Proof.
  intros Hon Hoff Hfree. destruct ty; cbn in Hon, Hoff; [done| |]; injection Hon as <-; injection Hoff as <-.
  - unfold same_at, abs_step, abs_AddBlocker, abs_DelBlocker; cbn; repeat split; intros; unfold upd3; repeat case_decide; naive_solver lia.
  - destruct (Hfree eq_refl) as [Hs Hi]. unfold same_at, abs_step, abs_AddStruct, abs_DelStruct, abs_struct.
    destruct (a_n a x z t =? 0) eqn:E0, (a_n a x z t <? BLOCK_VAL) eqn:E1; cbn -[BLOCK_VAL]; rewrite ?E0, ?E1; cbn;
      repeat split; intros; unfold upd3, upd2; repeat case_decide; naive_solver lia.
Qed.

Lemma op_of_in (block : bool) (q : fp) (x z : Z) (ty : BlockType) :
  ((x, z), ty) ∈ q -> ty <> OPEN -> exists o, op_of block t ni ((x, z), ty) = [o] /\ op_square o = (x, z) /\ o ∈ ops_of block t ni q.
Proof.
  intros Hin Hty. assert (exists o, op_of block t ni ((x, z), ty) = [o] /\ op_square o = (x, z)) as (o & Ho & Hsq).
  { destruct ty, block; try done; by eexists. }
  exists o. repeat split; [done..|]. apply list_elem_of_bind. exists ((x, z), ty). rewrite Ho. split; [by constructor|done].
Qed.

Lemma in_ops_of (block : bool) (q : fp) (o : op) :
  o ∈ ops_of block t ni q -> exists x z ty, ((x, z), ty) ∈ q /\ ty <> OPEN /\ op_of block t ni ((x, z), ty) = [o] /\ op_square o = (x, z).
Proof.
  intros ([[x z] ty] & Ho & Hin)%list_elem_of_bind. exists x, z, ty.
  destruct ty, block; cbn in Ho; try (by apply elem_of_nil in Ho); apply list_elem_of_singleton in Ho as ->; done.
Qed.

(** What a marked square allows: its inverse operation. *)
Lemma inverse_legal (x z : Z) (ty : BlockType) (on off : op) (a : Abs) :
  op_of true t ni ((x, z), ty) = [on] -> op_of false t ni ((x, z), ty) = [off] -> in_map cl rl x z ->
  0 <= a_n a x z t -> 0 <= a_s a x z t -> legal cl rl on a /\ legal cl rl off (abs_step on a).
Proof.
  intros Hon Hoff Hin Hn Hs. destruct ty; cbn in Hon, Hoff; [done| |]; injection Hon as <-; injection Hoff as <-; cbn [legal].
  - repeat split; try apply Hin. cbn. rewrite upd3_eq. lia.
  - split; [exact Hin|]. split; [exact Hin|]. unfold abs_step, abs_AddStruct, abs_struct.
    destruct (a_n a x z t =? 0) eqn:E0, (a_n a x z t <? BLOCK_VAL) eqn:E1; cbn; rewrite ?upd3_eq; lia.
Qed.

Lemma there_and_back (q : fp) (a : Abs) :
  NoDup (q.*1) -> (forall x z ty, ((x, z), ty) ∈ q -> in_map cl rl x z) -> site_free q a ->
  (forall x z t, 0 <= a_n a x z t /\ 0 <= a_s a x z t) ->
  let a' := abs_run (ops_of true t ni q) a in
  legal_run cl rl (ops_of true t ni q) a /\ legal_run cl rl (ops_of false t ni q) a' /\
  forall p, same_at p (abs_run (ops_of false t ni q) a') a.
Proof.
  intros Hnd Hin Hfree Hpos a'. pose proof (ops_NoDup true q Hnd) as Hn1. pose proof (ops_NoDup false q Hnd) as Hn2.
  split; [|split].
  - apply legal_each; [done|]. intros on (x & z & ty & Hq & Hty & Hop & Hsq)%in_ops_of.
    destruct (op_of_in false q x z ty Hq Hty) as (off & Hop' & _). destruct (Hpos x z t).
    destruct (inverse_legal x z ty on off a); eauto.
  - apply legal_each; [done|]. intros off (x & z & ty & Hq & Hty & Hop & Hsq)%in_ops_of.
    destruct (op_of_in true q x z ty Hq Hty) as (on & Hop' & Hsq' & Hon). destruct (Hpos x z t).
    eapply legal_same; [|eapply (inverse_legal x z ty on off a); eauto]. rewrite Hsq, <- Hsq'. symmetry. by apply run_at.
  - intros p. destruct (decide (p ∈ (op_square <$> ops_of true t ni q))) as [Hp|Hp].
    + apply ops_squares in Hp as (ty & Hq & Hty). destruct p as [x z].
      destruct (op_of_in true q x z ty Hq Hty) as (on & Hop & Hsq & Hon).
      destruct (op_of_in false q x z ty Hq Hty) as (off & Hop' & Hsq' & Hoff).
      rewrite <- (inverse_same x z ty on off a Hop Hop') by (intros ->; by apply Hfree).
      rewrite <- Hsq', (run_at _ off) by done. apply step_cong. rewrite Hsq', <- Hsq. by apply run_at.
    + rewrite (run_other (ops_of false t ni q)); [by apply run_other|]. rewrite ops_squares in Hp |- *. done.
Qed.

End There_and_back.

(** ** The footprint of a building on the map *)

Definition in_sizeb (size : int2) (x z : Z) : bool := in_rect (0, 0) size x z.

(** What a building puts on the square (x, z). *)
Definition footprint_type (d : facing) (pos usize : int2) (mask : option IBlockMask) (x z : Z) : BlockType :=
  match mask with
  | Some m =>
      let corner := struct_corner pos (turned d (half2 usize)) in
      let om := sub2 corner (GetStructOffset d m) in
      if in_sizeb (turned d (xsize m, zsize m)) (x - om.1) (z - om.2) then default OPEN (GetType d m (x - om.1) (z - om.2)) else OPEN
  | None =>
      let corner := struct_corner pos (turned_odd d (half2 usize)) in
      if in_rect corner (add2 corner (turned_odd d (half2 usize))) x z then STRUCT else OPEN
  end.

Definition footprint_size (usize : int2) (mask : option IBlockMask) : Z :=
  match mask with Some m => xsize m * zsize m | None => (half2 usize).1 * (half2 usize).2 end.

Definition footprint_kind (mask : option IBlockMask) : StructType := match mask with Some m => structType m | None => UNKNOWN end.
Definition footprint_ni (mask : option IBlockMask) : Z := match mask with Some m => Z.lnot (ignoreMask m) | None => StructMask_ALL end.

Definition mask_wf (mask0 : option IBlockMask) : Prop :=
  match mask0 with
  | Some m => length (mask m) = Z.to_nat (xsize m * zsize m) /\ 0 <= xsize m /\ 0 <= zsize m
  | None => True
  end.

Lemma length_pairs (f : Z -> Z -> int2) (l l' : list Z) : length (a ← l; b ← l'; [f a b]) = (length l * length l')%nat.
Proof.
  assert (H : forall a, length (b ← l'; [f a b]) = length l').
  { intros a. induction l' as [|b l' IH]; [done|]. rewrite bind_cons, length_app, IH. done. }
  induction l as [|a l IH]; [done|]. rewrite bind_cons, length_app, IH, H. done.
Qed.

Lemma NoDup_pairs (f : Z -> Z -> int2) (l l' : list Z) :
  (forall a b a' b', f a b = f a' b' -> a = a' /\ b = b') -> NoDup l -> NoDup l' -> NoDup (a ← l; b ← l'; [f a b]).
Proof.
  intros Hf Hl Hl'. induction Hl as [|a l Ha Hl IH]; [constructor|]. rewrite bind_cons. apply NoDup_app. split; [|split; [|done]].
  - clear IH. induction Hl' as [|b l' Hb Hl' IH']; [constructor|]. rewrite bind_cons. cbn. constructor; [|exact IH'].
    rewrite list_elem_of_bind. intros (b' & E%list_elem_of_singleton & Hin). apply Hf in E as [_ ->]. done.
  - intros p. rewrite !list_elem_of_bind. intros (b & E%list_elem_of_singleton & _) (a' & Hp & Ha').
    apply list_elem_of_bind in Hp as (b' & E'%list_elem_of_singleton & _). subst p. apply Hf in E' as [-> _]. done.
Qed.

(** The loops are the footprint's operations, one after another. *)
Lemma mark_cell_run (block : bool) (t : StructType) (ni : Z) (c : int2) (ty : BlockType) (b : SBlockingMap) :
  mark_cell block t ni c.1 c.2 ty b = map_run (op_of block t ni (c, ty)) b.
Proof.
  destruct c as [x z], ty, block; cbn; try done.
  - by destruct (AddBlocker _ _ _ _). - by destruct (DelBlocker _ _ _ _).
  - by destruct (AddStruct _ _ _ _ _). - by destruct (DelStruct _ _ _ _ _).
Qed.

Lemma map_run_app (os os' : list op) (b : SBlockingMap) : map_run (os ++ os') b = b' ← map_run os b; map_run os' b'.
Proof. revert b. induction os as [|o os IH]; intros b; cbn; [done|]. destruct (map_step o b); cbn; [apply IH|done]. Qed.

Lemma mark_loop_run (block : bool) (d : facing) (m : IBlockMask) (m1 om : int2) (cs : list int2) (b : SBlockingMap) (f : int2 -> BlockType) :
  (forall c, c ∈ cs -> GetType d m (om.1 + c.1) (om.2 + c.2) = Some (f (add2 m1 c))) ->
  mark_loop block d m m1 om cs b =
  map_run (ops_of block (structType m) (Z.lnot (ignoreMask m)) ((fun p => (p, f p)) <$> (add2 m1 <$> cs))) b.
Proof.
  revert b. induction cs as [|c cs IH]; intros b Hc; cbn [mark_loop]; [done|]. rewrite !fmap_cons. unfold ops_of. rewrite bind_cons, map_run_app.
  rewrite Hc by constructor. cbn [mbind option_bind].
  rewrite <- mark_cell_run. cbn [add2 fst snd]. destruct (mark_cell _ _ _ _ _ _ b) as [b'|]; cbn [mbind option_bind]; [|done].
  apply IH. intros c' Hc'. apply Hc. by constructor.
Qed.

Lemma default_loop_run (block : bool) (cs : list int2) (b : SBlockingMap) (f : int2 -> BlockType) :
  (forall c, c ∈ cs -> f c = STRUCT) ->
  default_loop block cs b = map_run (ops_of block UNKNOWN StructMask_ALL ((fun p => (p, f p)) <$> cs)) b.
Proof.
  revert b. induction cs as [|c cs IH]; intros b Hc; cbn [default_loop]; [done|]. rewrite fmap_cons. unfold ops_of. rewrite bind_cons, map_run_app.
  rewrite Hc by constructor. rewrite <- mark_cell_run. destruct (mark_cell _ _ _ _ _ _ b) as [b'|]; cbn [mbind option_bind]; [|done].
  apply IH. intros c' Hc'. apply Hc. by constructor.
Qed.

Lemma elem_of_shifted (m1 m2 : int2) (x z : Z) :
  (x, z) ∈ (add2 m1 <$> cells (m2.1 - m1.1) (m2.2 - m1.2)) <-> m1.1 <= x < m2.1 /\ m1.2 <= z < m2.2.
Proof.
  destruct m1 as [x1 z1], m2 as [x2 z2]. rewrite list_elem_of_fmap. cbn. split.
  - intros ([x' z'] & [= -> ->] & [Hx Hz]%elem_of_cells). lia.
  - intros [Hx Hz]. exists (x - x1, z - z1). split; [unfold add2; cbn; f_equal; lia|]. apply elem_of_cells. lia.
Qed.

Lemma NoDup_shifted (m1 : int2) (xs zs : Z) : NoDup (add2 m1 <$> cells xs zs).
Proof.
  apply NoDup_fmap; [intros [x z] [x' z'] [= ? ?]; f_equal; lia|].
  apply (NoDup_pairs (fun z x => (x, z))); [naive_solver|apply NoDup_seqZ..].
Qed.

Lemma length_cells (xs zs : Z) : length (cells xs zs) = (Z.to_nat zs * Z.to_nat xs)%nat.
Proof. unfold cells. by rewrite (length_pairs (fun z x => (x, z))), !length_seqZ. Qed.

Lemma elem_of_columns (m1 m2 : int2) (x z : Z) : (x, z) ∈ columns_of m1 m2 <-> m1.1 <= x < m2.1 /\ m1.2 <= z < m2.2.
Proof.
  unfold columns_of. rewrite list_elem_of_bind. setoid_rewrite list_elem_of_bind. setoid_rewrite elem_of_seqZ.
  setoid_rewrite list_elem_of_singleton. split.
  - intros (x' & (z' & [= -> ->] & Hz) & Hx). lia.
  - intros [Hx Hz]. exists x. split; [|lia]. exists z. split; [done|lia].
Qed.

Lemma in_sizeb_iff (size : int2) (x z : Z) : in_sizeb size x z = true <-> in_size size x z.
Proof. unfold in_sizeb. rewrite in_rect_iff. done. Qed.

Definition ftype (d : facing) (pos usize : int2) (mask0 : option IBlockMask) (p : int2) : BlockType :=
  footprint_type d pos usize mask0 p.1 p.2.

(** Marking is a run of one operation on each square of the footprint inside the map. *)
Definition footprint_run (cl rl : Z) (d : facing) (pos usize : int2) (mask0 : option IBlockMask) (ps : list int2) : Prop :=
  NoDup ps /\ (forall x z, (x, z) ∈ ps -> in_map cl rl x z) /\ size_of ps <= footprint_size usize mask0 /\
  (forall x z, in_map cl rl x z -> footprint_type d pos usize mask0 x z <> OPEN -> (x, z) ∈ ps) /\
  forall block b, columns b = 8 * cl -> rows b = 8 * rl ->
    CTerrainManager_MarkBlocker block d pos usize mask0 b =
    map_run (ops_of block (footprint_kind mask0) (footprint_ni mask0) ((fun p => (p, ftype d pos usize mask0 p)) <$> ps)) b.

Section Marking.
Context (cl rl : Z) (d : facing) (pos usize : int2).

Lemma by_mask_run (m : IBlockMask) : mask_wf (Some m) -> exists ps, footprint_run cl rl d pos usize (Some m) ps.
Proof.
  intros Hwf. unfold footprint_run. cbn [CTerrainManager_MarkBlocker footprint_size footprint_kind footprint_ni] in *.
  set (om := sub2 (struct_corner pos (turned d (half2 usize))) (GetStructOffset d m)).
  set (ms := turned d (xsize m, zsize m)). set (m1 := (om.1 `max` 0, om.2 `max` 0)).
  set (m2 := ((om.1 + ms.1) `min` (8 * cl), (om.2 + ms.2) `min` (8 * rl))).
  exists (add2 m1 <$> cells (m2.1 - m1.1) (m2.2 - m1.2)).
  split; [|split; [|split; [|split]]].
  - apply NoDup_shifted.
  - intros x z [Hx Hz]%elem_of_shifted. unfold in_map, m1, m2 in *. cbn [fst snd] in *. lia.
  - unfold size_of. rewrite length_fmap, length_cells. destruct Hwf as (_ & Hx & Hz).
    assert (m2.1 - m1.1 <= ms.1 /\ m2.2 - m1.2 <= ms.2) as [H1 H2] by (unfold m1, m2; cbn [fst snd]; lia).
    assert (ms.1 * ms.2 = xsize m * zsize m /\ 0 <= ms.1 /\ 0 <= ms.2) as (<- & H3 & H4) by (unfold ms; destruct d; cbn; lia).
    generalize dependent (m2.1 - m1.1). generalize dependent (m2.2 - m1.2). intros h ? w ?. nia.
  - intros x z [Hx Hz] Hty. apply elem_of_shifted. unfold footprint_type in Hty. fold om in Hty. fold ms in Hty.
    destruct (in_sizeb _ _ _) eqn:E in Hty; [|done]. apply in_sizeb_iff in E as [E1 E2].
    unfold m1, m2. cbn [fst snd]. lia.
  - intros block b Hc Hr. unfold MarkBlockerByMask, Bound. rewrite Hc, Hr. cbn [fst snd add2]. fold om ms. fold m1 m2.
    apply mark_loop_run. intros [x z] [Hx Hz]%elem_of_cells. unfold ftype, footprint_type. fold om ms. cbn [add2 sub2 fst snd].
    replace (m1.1 + x - om.1) with (m1.1 - om.1 + x) by lia. replace (m1.2 + z - om.2) with (m1.2 - om.2 + z) by lia.
    assert (Hs : in_size ms (m1.1 - om.1 + x) (m1.2 - om.2 + z)) by (unfold in_size, m1, m2 in *; cbn [fst snd] in *; lia).
    rewrite (proj2 (in_sizeb_iff _ _ _) Hs). destruct (GetType_some d m _ _ (proj1 Hwf) Hs) as [ty ->]. done.
Qed.

Lemma default_run : nonneg2 usize -> exists ps, footprint_run cl rl d pos usize None ps.
Proof.
  intros Husize. unfold footprint_run. cbn [CTerrainManager_MarkBlocker footprint_size footprint_kind footprint_ni] in *.
  set (size := turned_odd d (half2 usize)). set (c := struct_corner pos size).
  set (m1 := (c.1 `max` 0, c.2 `max` 0)). set (m2 := ((c.1 + size.1) `min` (8 * cl), (c.2 + size.2) `min` (8 * rl))).
  exists (columns_of m1 m2).
  split; [|split; [|split; [|split]]].
  - apply (NoDup_pairs (fun x z => (x, z))); [naive_solver|apply NoDup_seqZ..].
  - intros x z [Hx Hz]%elem_of_columns. unfold in_map, m1, m2 in *. cbn [fst snd] in *. lia.
  - unfold size_of, columns_of. rewrite (length_pairs (fun x z => (x, z))), !length_seqZ.
    assert (m2.1 - m1.1 <= size.1 /\ m2.2 - m1.2 <= size.2) as [H1 H2] by (unfold m1, m2; cbn [fst snd]; lia).
    assert (size.1 * size.2 = (half2 usize).1 * (half2 usize).2 /\ 0 <= size.1 /\ 0 <= size.2) as (<- & H3 & H4).
    { destruct Husize as [Hx Hz]. pose proof (Z.quot_pos usize.1 2). pose proof (Z.quot_pos usize.2 2). unfold size. destruct d; cbn; lia. }
    generalize dependent (m2.1 - m1.1). generalize dependent (m2.2 - m1.2). intros h ? w ?. nia.
  - intros x z [Hx Hz] Hty. apply elem_of_columns. unfold footprint_type in Hty. fold size in Hty. fold c in Hty.
    destruct (in_rect _ _ _ _) eqn:E in Hty; [|done]. apply in_rect_iff in E as [E1 E2]. cbn [add2 fst snd] in *.
    unfold m1, m2. cbn [fst snd]. lia.
  - intros block b Hc Hr. unfold Bound. fold size c. rewrite Hc, Hr. cbn [fst snd add2]. fold m1 m2.
    apply default_loop_run. intros [x z] [Hx Hz]%elem_of_columns. unfold ftype, footprint_type. fold size. fold c.
    replace (in_rect _ _ _ _) with true; [done|]. symmetry. apply in_rect_iff. unfold m1, m2 in *. cbn [add2 fst snd] in *. lia.
Qed.

Lemma MarkBlocker_run (mask0 : option IBlockMask) : mask_wf mask0 -> nonneg2 usize -> exists ps, footprint_run cl rl d pos usize mask0 ps.
Proof. destruct mask0; [intros; by apply by_mask_run|intros; by apply default_run]. Qed.

End Marking.

Lemma length_ops (block : bool) (t : StructType) (ni : Z) (f : int2 -> BlockType) (ps : list int2) :
  size_of (ops_of block t ni ((fun p => (p, f p)) <$> ps)) <= size_of ps.
Proof.
  unfold size_of, ops_of. induction ps as [|[x z] ps IH]; [done|]. rewrite fmap_cons, bind_cons, length_app. cbn [length].
  destruct (f (x, z)); cbn [op_of length]; lia.
Qed.

(** What the operation of a square leaves there. *)
Lemma marked_square (cl rl : Z) (ally : list SBlockCellAlly) (t : StructType) (ni x z : Z) (ty : BlockType) (on : op) (a a' : Abs) :
  op_of true t ni ((x, z), ty) = [on] -> 0 <= a_n a x z t -> in_map cl rl x z -> same_at (x, z) a' (abs_step on a) ->
  match ty with
  | OPEN => True
  | BLOCK => IsBlocked (rep cl rl ally a') x z (GetStructMask t) = Some true
  | STRUCT => IsStruct (rep cl rl ally a') x z = Some true
  end.
Proof.
  intros Hop Hn Hin (H1 & _ & H3 & _). cbn [fst snd] in H1, H3. unfold IsBlocked, IsStruct, rep. rewrite cell_at_rep by done.
  cbn [mbind option_bind]. destruct ty; [done| |]; injection Hop as <-; f_equal.
  - apply orb_true_iff. left. unfold cell_of. cbn [blockerMask]. apply mask_meets. exists t. split.
    + rewrite H1. cbn. rewrite upd3_eq. lia.
    + rewrite GetStructMask_bit by lia. lia.
  - unfold cell_of. cbn [structMask]. rewrite H3. unfold abs_step, abs_AddStruct, abs_struct.
    repeat case_match; cbn; rewrite upd2_eq; by destruct t.
Qed.

Section Mark_rep.
Context (cl rl : Z) (ally : list SBlockCellAlly) (d : facing) (pos usize : int2) (mask0 : option IBlockMask).
#[local] Notation t := (footprint_kind mask0).
#[local] Notation ni := (footprint_ni mask0).

(** The footprint's squares with their entries. *)
Definition entries (ps : list int2) : fp := (fun p => (p, ftype d pos usize mask0 p)) <$> ps.

Lemma elem_of_entries (ps : list int2) (x z : Z) (ty : BlockType) :
  ((x, z), ty) ∈ entries ps <-> (x, z) ∈ ps /\ ty = footprint_type d pos usize mask0 x z.
Proof.
  unfold entries. rewrite list_elem_of_fmap. split; [intros (p & [= <- ->] & Hp); done|]. intros [Hp ->]. by exists (x, z).
Qed.

Lemma entries_squares (ps : list int2) : (entries ps).*1 = ps.
Proof. unfold entries. rewrite <- list_fmap_compose. apply list_fmap_id. Qed.

Lemma mark_effect (ps : list int2) (a : Abs) (x z : Z) :
  footprint_run cl rl d pos usize mask0 ps -> (forall x z t, 0 <= a_n a x z t /\ 0 <= a_s a x z t) -> in_map cl rl x z ->
  let b' := rep cl rl ally (abs_run (ops_of true t ni (entries ps)) a) in
  match footprint_type d pos usize mask0 x z with
  | STRUCT => IsStruct b' x z = Some true
  | BLOCK => IsBlocked b' x z (GetStructMask t) = Some true
  | OPEN => cell_at b' x z = cell_at (rep cl rl ally a) x z
  end.
Proof.
  intros (Hnd & _ & _ & Hall & _) Hpos Hm b'.
  destruct (decide (footprint_type d pos usize mask0 x z = OPEN)) as [Hty|Hty].
  - rewrite Hty. unfold b', rep. rewrite !cell_at_rep by done. f_equal.
    destruct (run_other (ops_of true t ni (entries ps)) (x, z) a) as (H1 & _ & H3 & H4); [|by apply cell_of_ext].
    rewrite ops_squares. intros (ty & [_ ->]%elem_of_entries & Hne). done.
  - destruct (op_of_in t ni true (entries ps) x z _ (proj2 (elem_of_entries _ _ _ _) (conj (Hall x z Hm Hty) eq_refl)) Hty)
      as (on & Hop & Hsq & Hon).
    pose proof (marked_square cl rl ally t ni x z _ on a (abs_run (ops_of true t ni (entries ps)) a) Hop (proj1 (Hpos x z t)) Hm) as M.
    assert (Hs : same_at (x, z) (abs_run (ops_of true t ni (entries ps)) a) (abs_step on a)).
    { rewrite <- Hsq. apply run_at; [|done]. apply ops_NoDup. by rewrite entries_squares. }
    specialize (M Hs). by destruct (footprint_type d pos usize mask0 x z).
Qed.

Lemma mark_rep (ps : list int2) (a : Abs) (k : Z) :
  0 < cl -> footprint_run cl rl d pos usize mask0 ps -> bounded k a -> 0 <= k -> k + 2 * footprint_size usize mask0 <= 65535 ->
  (forall x z, in_map cl rl x z -> footprint_type d pos usize mask0 x z = STRUCT -> a_struct a x z = 0 /\ a_ign a x z = 0) ->
  let b' := rep cl rl ally (abs_run (ops_of true t ni (entries ps)) a) in
  CTerrainManager_MarkBlocker true d pos usize mask0 (rep cl rl ally a) = Some b' /\
  CTerrainManager_MarkBlocker false d pos usize mask0 b' = Some (rep cl rl ally a).
Proof.
  intros Hc (Hnd & Hin & Hsz & Hall & Hmark) Hb Hk Hlen Hfree b'.
  destruct (there_and_back cl rl t ni (entries ps) a) as (Hl1 & Hl2 & Hsame).
  { by rewrite entries_squares. }
  { intros x z ty [? _]%elem_of_entries. by apply Hin. }
  { intros x z [Hp Hty]%elem_of_entries. apply Hfree; [by apply Hin|done]. }
  { intros x z t'. pose proof (proj1 Hb x z t'). lia. }
  pose proof (length_ops true t ni (ftype d pos usize mask0) ps) as L1. pose proof (length_ops false t ni (ftype d pos usize mask0) ps) as L2.
  unfold size_of in *. fold (entries ps) in L1, L2, Hmark.
  destruct (run_rep cl rl ally (ops_of true t ni (entries ps)) a k Hb) as [E1 Hb1]; [lia|lia|done|].
  destruct (run_rep cl rl ally (ops_of false t ni (entries ps)) (abs_run (ops_of true t ni (entries ps)) a) _ Hb1) as [E2 _]; [lia|lia|done|].
  unfold b'. rewrite !Hmark, E1, E2 by done. split; [done|]. f_equal. by apply rep_same.
Qed.

End Mark_rep.

Lemma footprint_size_nonneg (usize : int2) (mask0 : option IBlockMask) : mask_wf mask0 -> nonneg2 usize -> 0 <= footprint_size usize mask0.
Proof.
  intros Hwf [Hx Hz]. destruct mask0 as [m|]; cbn; [destruct Hwf as (_ & ? & ?); nia|].
  pose proof (Z.quot_pos usize.1 2). pose proof (Z.quot_pos usize.2 2). nia.
Qed.


(** A factory with its yard, half over the western border, beside a mex. *)
Definition demo_site : list op := [OAddStruct 12 12 MEX 65535; OAddBlocker 2 3 FACTORY].

Definition site_ok (b : SBlockingMap) (c : int2) : bool :=
  match footprint_type EAST (16, 80) (12, 12) (Some yard) c.1 c.2, cell_at b c.1 c.2 with
  | STRUCT, Some k => (structMask k =? 0) && (notIgnoreMask k =? 0)
  | STRUCT, None => false
  | _, _ => true
  end.

