(* ===== verification/MapShape.v ===== *)
(** No access of the occupancy map is out of range: a well-formed map is one whose
    vectors have the sizes its dimensions promise, every operation on a square of the
    map succeeds and keeps it well formed, and so does marking a building anywhere. *)

From S2P Require Import Prelude BlockingMap BlockMask.

Record map_wf (b : SBlockingMap) : Prop := {
  wf_grid : length (grid b) = Z.to_nat (columns b * rows b);
  wf_low : length (gridLow b) = Z.to_nat (columnsLow b * rowsLow b);
  wf_ally : length (gridAlly b) = Z.to_nat (columnsAlly b * rowsAlly b);
  wf_cols : 0 <= columnsLow b /\ columns b = 8 * columnsLow b;
  wf_rows : 0 <= rowsLow b /\ rows b = 8 * rowsLow b;
  wf_counts : Forall (fun c => length (blockerCounts c) = 15%nat) (grid b);
  wf_lowCounts : Forall (fun c => length (lowCounts c) = 15%nat) (gridLow b);
}.

Definition same_dims (b b' : SBlockingMap) : Prop :=
  columns b' = columns b /\ rows b' = rows b /\ columnsLow b' = columnsLow b /\ rowsLow b' = rowsLow b /\
  columnsAlly b' = columnsAlly b /\ rowsAlly b' = rowsAlly b.

#[export] Instance same_dims_preorder : PreOrder same_dims.
Proof. split; [by repeat split|]. unfold same_dims. intros a b c H1 H2. intuition congruence. Qed.

(** An operation succeeds and keeps the map's shape. *)
Definition safe (r : option SBlockingMap) (b : SBlockingMap) : Prop := exists b', r = Some b' /\ map_wf b' /\ same_dims b b'.

Definition inside (b : SBlockingMap) (x z : Z) : Prop := 0 <= x < columns b /\ 0 <= z < rows b.

Lemma index_in (n r x z : Z) : 0 <= x < n -> 0 <= z < r -> exists i, index n x z = Some i /\ (i < Z.to_nat (n * r))%nat.
Proof. intros Hx Hz. unfold index. replace (z * n + x <? 0) with false by (symmetry; apply Z.ltb_ge; nia). eexists. split; [done|]. nia. Qed.

Lemma ST_lt (t : StructType) : (ST t < 15)%nat.
Proof. destruct t; cbn; lia. Qed.

Lemma cell_at_wf (b : SBlockingMap) (x z : Z) :
  map_wf b -> inside b x z -> exists c, cell_at b x z = Some c /\ length (blockerCounts c) = 15%nat.
Proof.
  intros Hw [Hx Hz]. destruct (index_in (columns b) (rows b) x z Hx Hz) as (i & Ei & Hi). rewrite <- (wf_grid b Hw) in Hi.
  destruct (lookup_lt_is_Some_2 _ _ Hi) as [c Hc]. exists c. unfold cell_at. rewrite Ei. cbn. split; [done|].
  pose proof (wf_counts b Hw) as Hf. rewrite Forall_forall in Hf. apply Hf. by apply list_elem_of_lookup_2 in Hc.
Qed.

Lemma low_at_wf (b : SBlockingMap) (xl zl : Z) :
  map_wf b -> 0 <= xl < columnsLow b -> 0 <= zl < rowsLow b -> exists c, low_at b xl zl = Some c /\ length (lowCounts c) = 15%nat.
Proof.
  intros Hw Hx Hz. destruct (index_in _ _ _ _ Hx Hz) as (i & Ei & Hi). rewrite <- (wf_low b Hw) in Hi.
  destruct (lookup_lt_is_Some_2 _ _ Hi) as [c Hc]. exists c. unfold low_at. rewrite Ei. cbn. split; [done|].
  pose proof (wf_lowCounts b Hw) as Hf. rewrite Forall_forall in Hf. apply Hf. by apply list_elem_of_lookup_2 in Hc.
Qed.

(** The block of a square is inside the coarse grid. *)
Lemma low_inside (b : SBlockingMap) (x z : Z) :
  map_wf b -> inside b x z -> 0 <= x ÷ GRID_RATIO_LOW < columnsLow b /\ 0 <= z ÷ GRID_RATIO_LOW < rowsLow b.
Proof.
  intros Hw [Hx Hz]. pose proof (wf_cols b Hw). pose proof (wf_rows b Hw). unfold GRID_RATIO_LOW.
  rewrite !Z.quot_div_nonneg by lia. Z.div_mod_to_equations. lia.
Qed.

Lemma counts_at (cs : list Z) (t : StructType) : length cs = 15%nat -> exists n, cs !! ST t = Some n.
Proof. intros Hl. apply lookup_lt_is_Some_2. rewrite Hl. apply ST_lt. Qed.

Lemma set_cell_safe (b : SBlockingMap) (x z : Z) (c : SBlockCell) :
  map_wf b -> inside b x z -> length (blockerCounts c) = 15%nat -> safe (set_cell x z c b) b.
Proof.
  intros Hw [Hx Hz] Hc. destruct (index_in _ _ _ _ Hx Hz) as (i & Ei & Hi). unfold safe, set_cell. rewrite Ei. cbn.
  eexists. split; [done|]. split; [|by repeat split]. destruct Hw. split; cbn; try done.
  - by rewrite length_insert.
  - by apply Forall_insert.
Qed.

Lemma set_low_safe (b : SBlockingMap) (x z : Z) (c : SBlockCellLow) :
  map_wf b -> 0 <= x < columnsLow b -> 0 <= z < rowsLow b -> length (lowCounts c) = 15%nat -> safe (set_low x z c b) b.
Proof.
  intros Hw Hx Hz Hc. destruct (index_in _ _ _ _ Hx Hz) as (i & Ei & Hi). unfold safe, set_low. rewrite Ei. cbn.
  eexists. split; [done|]. split; [|by repeat split]. destruct Hw. split; cbn; try done.
  - by rewrite length_insert.
  - by apply Forall_insert.
Qed.

Lemma safe_bind (b : SBlockingMap) (r : option SBlockingMap) (k : SBlockingMap -> option SBlockingMap) :
  safe r b -> (forall b', map_wf b' -> same_dims b b' -> safe (k b') b') -> safe (r ≫= k) b.
Proof.
  intros (b1 & -> & Hw & Hd) Hk. cbn. destruct (Hk b1 Hw Hd) as (b2 & -> & Hw2 & Hd2). exists b2. split; [done|]. split; [done|].
  by etrans.
Qed.

Lemma safe_ret (b : SBlockingMap) : map_wf b -> safe (Some b) b.
Proof. intros Hw. by exists b. Qed.

Lemma inside_dims (b b' : SBlockingMap) (x z : Z) : same_dims b b' -> inside b x z -> inside b' x z.
Proof. intros (E1 & E2 & _). unfold inside. by rewrite E1, E2. Qed.

#[local] Hint Resolve safe_ret inside_dims : core.

(** The three updates of the coarse grid differ in their test only. *)
Ltac low_safe :=
  intros Hw Hin; destruct (low_inside _ _ _ Hw Hin) as [Hx Hz];
  match goal with |- safe (?f _ _ _ _) _ => unfold f end;
  destruct (low_at_wf _ _ _ Hw Hx Hz) as (c & -> & Hc); cbn [mbind option_bind];
  match goal with |- context [lowCounts c !! ST ?t] => destruct (counts_at _ t Hc) as [n ->] end; cbn [mbind option_bind];
  apply set_low_safe; [done..|]; case_match; cbn; by rewrite length_insert.

Lemma low_add_safe (b : SBlockingMap) (x z : Z) (t : StructType) : map_wf b -> inside b x z -> safe (low_add x z t b) b.
Proof. low_safe. Qed.
Lemma low_del_safe (b : SBlockingMap) (x z : Z) (t : StructType) : map_wf b -> inside b x z -> safe (low_del x z t b) b.
Proof. low_safe. Qed.
Lemma low_mark_safe (b : SBlockingMap) (x z : Z) (t : StructType) : map_wf b -> inside b x z -> safe (low_mark x z t b) b.
Proof. low_safe. Qed.

#[local] Hint Resolve low_add_safe low_del_safe low_mark_safe : core.

(** The operations on a square. *)
Ltac op_safe :=
  intros Hw Hin; match goal with |- safe (?f _ _ _ _) _ => unfold f | |- safe (?f _ _ _ _ _) _ => unfold f end;
  destruct (cell_at_wf _ _ _ Hw Hin) as (c & -> & Hc); cbn [mbind option_bind];
  try (match goal with |- context [blockerCounts c !! ST ?t] => destruct (counts_at _ t Hc) as [n ->] end; cbn [mbind option_bind]);
  repeat case_match; try (apply safe_bind; [|intros]); eauto;
  apply set_cell_safe; eauto; cbn; by rewrite ?length_insert.

Lemma AddBlocker_safe (b : SBlockingMap) (x z : Z) (t : StructType) : map_wf b -> inside b x z -> safe (AddBlocker x z t b) b.
Proof. op_safe. Qed.
Lemma DelBlocker_safe (b : SBlockingMap) (x z : Z) (t : StructType) : map_wf b -> inside b x z -> safe (DelBlocker x z t b) b.
Proof. op_safe. Qed.
Lemma AddStruct_safe (b : SBlockingMap) (x z : Z) (t : StructType) (m : Z) : map_wf b -> inside b x z -> safe (AddStruct x z t m b) b.
Proof. op_safe. Qed.
Lemma DelStruct_safe (b : SBlockingMap) (x z : Z) (t : StructType) (m : Z) : map_wf b -> inside b x z -> safe (DelStruct x z t m b) b.
Proof. op_safe. Qed.
Lemma MarkBlocker_safe (b : SBlockingMap) (x z : Z) (t : StructType) (m : Z) : map_wf b -> inside b x z -> safe (MarkBlocker x z t m b) b.
Proof. op_safe. Qed.

#[local] Hint Resolve AddBlocker_safe DelBlocker_safe AddStruct_safe DelStruct_safe MarkBlocker_safe : core.

Lemma new_wf (cl rl : Z) : 0 <= cl -> 0 <= rl -> map_wf (SBlockingMap_new (16 * cl) (16 * rl)).
Proof.
  intros Hc Hr. rewrite SBlockingMap_new_rep by done. split; cbn; try lia.
  - unfold table. by rewrite length_fmap, length_seqZ.
  - unfold table. by rewrite length_fmap, length_seqZ.
  - by rewrite length_replicate.
  - apply Forall_fmap, Forall_forall. intros i _. done.
  - apply Forall_fmap, Forall_forall. intros i _. done.
Qed.

(** ** Sequences of operations *)

Lemma map_run_safe (os : list op) (b : SBlockingMap) :
  map_wf b -> (forall o, o ∈ os -> inside b (op_square o).1 (op_square o).2) -> safe (map_run os b) b.
Proof.
  revert b. induction os as [|o os IH]; intros b Hw Hin; cbn [map_run]; [by apply safe_ret|].
  apply safe_bind.
  - pose proof (Hin o ltac:(constructor)). destruct o; cbn [map_step op_square fst snd] in *; auto.
  - intros b' Hw' Hd. apply IH; [done|]. intros o' Ho'. eapply inside_dims; [done|]. apply Hin. by constructor.
Qed.

(** Marking a building at any position, in any facing, with any well-formed mask. *)
Lemma mark_building_safe (block : bool) (d : facing) (pos usize : int2) (mask0 : option IBlockMask) (b : SBlockingMap) :
  map_wf b -> mask_wf mask0 -> nonneg2 usize -> safe (CTerrainManager_MarkBlocker block d pos usize mask0 b) b.
Proof.
  intros Hw Hm Hu. destruct (MarkBlocker_run (columnsLow b) (rowsLow b) d pos usize mask0 Hm Hu) as (ps & _ & Hin & _ & _ & ->).
  2:{ apply (wf_cols b Hw). } 2:{ apply (wf_rows b Hw). }
  apply map_run_safe; [done|]. intros o (x & z & ty & Hq & _ & _ & ->)%in_ops_of. cbn.
  apply list_elem_of_fmap in Hq as (p & [= <- _] & Hp). unfold inside. rewrite (proj2 (wf_cols b Hw)), (proj2 (wf_rows b Hw)). by apply Hin.
Qed.

Lemma on_ally_safe (f : SBlockCellAlly -> SBlockCellAlly) (x z : Z) (b : SBlockingMap) :
  map_wf b -> 0 <= x < columnsAlly b -> 0 <= z < rowsAlly b -> safe (on_ally f x z b) b.
Proof.
  intros Hw Hx Hz. destruct (index_in _ _ _ _ Hx Hz) as (i & Ei & Hi). unfold safe, on_ally. rewrite Ei. cbn.
  rewrite <- (wf_ally b Hw) in Hi. destruct (lookup_lt_is_Some_2 _ _ Hi) as [c ->]. cbn.
  eexists. split; [done|]. split; [|by repeat split]. destruct Hw. split; cbn; try done. by rewrite length_insert.
Qed.
