(* ===== verification/StdSort.v ===== *)
(** [std::sort]: an interface.  The C++ standard fixes only that the result is a
    permutation in which no element is less than an earlier one, and only when the
    comparator is a strict weak ordering of the elements; elements that compare
    equal may come out in any order.  The code that sorts is therefore verified
    against this class, for every implementation of it. *)

From S2P Require Import Prelude.

Record strict_weak {A} (lt : A -> A -> bool) (l : list A) : Prop := {
  sw_asym : forall a b, a ∈ l -> b ∈ l -> lt a b = true -> lt b a = false;
  sw_trans : forall a b c, a ∈ l -> b ∈ l -> c ∈ l -> lt b a = false -> lt c b = false -> lt c a = false;
}.

Definition ordered {A} (lt : A -> A -> bool) : list A -> Prop := StronglySorted (fun a b => lt b a = false).

Class StdSort := {
  std_sort : forall {A}, (A -> A -> bool) -> list A -> list A;
  std_sort_perm : forall A (lt : A -> A -> bool) l, strict_weak lt l -> std_sort lt l ≡ₚ l;
  std_sort_ordered : forall A (lt : A -> A -> bool) l, strict_weak lt l -> ordered lt (std_sort lt l);
}.

(** Sorting by an integer key. *)
Definition by_key {A} (key : A -> Z) (a b : A) : bool := key a <? key b.

Lemma by_key_weak {A} (key : A -> Z) (l : list A) : strict_weak (by_key key) l.
Proof. split; unfold by_key; intros; rewrite ?Z.ltb_lt, ?Z.ltb_ge in *; lia. Qed.

Lemma by_key_ordered {A} (key : A -> Z) (l : list A) :
  ordered (by_key key) l <-> StronglySorted (fun a b => key a <= key b) l.
Proof.
  unfold ordered, by_key. split; intros H; induction H as [|a l _ IH Ha]; constructor; auto;
    (eapply Forall_impl; [exact Ha|]); cbn; intros; rewrite ?Z.ltb_ge in *; lia.
Qed.

Section Key.
Context `{StdSort} {A : Type} (key : A -> Z).

Lemma sort_key_perm (l : list A) : std_sort (by_key key) l ≡ₚ l.
Proof. apply std_sort_perm, by_key_weak. Qed.

Lemma sort_key_sorted (l : list A) : StronglySorted (fun a b => key a <= key b) (std_sort (by_key key) l).
Proof. apply by_key_ordered, std_sort_ordered, by_key_weak. Qed.

(** In a sorted list the elements below a bound come first. *)
Lemma sorted_prefix (l : list A) (i j : nat) (a b : A) :
  StronglySorted (fun a b => key a <= key b) l -> l !! i = Some a -> l !! j = Some b -> key b < key a -> (j < i)%nat.
Proof.
  intros Hs. revert i j. induction Hs as [|c l _ IH Hc]; intros i j Hi Hj Hlt; [done|].
  rewrite Forall_forall in Hc. destruct i as [|i], j as [|j]; cbn in *; simplify_eq.
  - lia.
  - apply list_elem_of_lookup_2 in Hj. specialize (Hc _ Hj). lia.
  - lia.
  - pose proof (IH i j Hi Hj Hlt). lia.
Qed.

End Key.

(** ** An implementation: insertion sort *)

Fixpoint ins {A} (lt : A -> A -> bool) (a : A) (l : list A) : list A :=
  match l with
  | [] => [a]
  | b :: l' => if lt b a then b :: ins lt a l' else a :: b :: l'
  end.

Fixpoint ins_sort {A} (lt : A -> A -> bool) (l : list A) : list A :=
  match l with [] => [] | a :: l' => ins lt a (ins_sort lt l') end.

Lemma ins_perm {A} (lt : A -> A -> bool) (a : A) (l : list A) : ins lt a l ≡ₚ a :: l.
Proof. induction l as [|b l IH]; cbn; [done|]. destruct (lt b a); [|done]. rewrite IH. apply perm_swap. Qed.

Lemma ins_sort_perm {A} (lt : A -> A -> bool) (l : list A) : ins_sort lt l ≡ₚ l.
Proof. induction l as [|a l IH]; cbn; [done|]. by rewrite ins_perm, IH. Qed.

Lemma strict_weak_sub {A} (lt : A -> A -> bool) (l l' : list A) : (forall a, a ∈ l' -> a ∈ l) -> strict_weak lt l -> strict_weak lt l'.
Proof. intros Hsub [H1 H2]. split; intros; eauto. Qed.

Lemma ins_ordered {A} (lt : A -> A -> bool) (a : A) (l : list A) :
  strict_weak lt (a :: l) -> ordered lt l -> ordered lt (ins lt a l).
Proof.
  intros Hw Hs. induction Hs as [|b l Hs IH Hb]; cbn; [repeat constructor|].
  destruct (lt b a) eqn:E.
  - constructor.
    + apply IH. eapply strict_weak_sub; [|exact Hw]. intros c. rewrite !elem_of_cons. tauto.
    + rewrite ins_perm. constructor; [|done]. apply (sw_asym _ _ Hw); [|by constructor|done]. by do 2 constructor.
  - constructor; [by constructor|]. constructor; [done|]. rewrite Forall_forall in Hb |- *. intros c Hc.
    apply (sw_trans _ _ Hw a b c); [..|done|by apply Hb]; rewrite !elem_of_cons; auto.
Qed.

Lemma ins_sort_ordered {A} (lt : A -> A -> bool) (l : list A) : strict_weak lt l -> ordered lt (ins_sort lt l).
Proof.
  induction l as [|a l IH]; cbn; intros Hw; [constructor|]. apply ins_ordered.
  - eapply strict_weak_sub; [|exact Hw]. intros c. by rewrite ins_sort_perm.
  - apply IH. eapply strict_weak_sub; [|exact Hw]. intros c Hc. by constructor.
Qed.

Definition insertion_sort : StdSort := {|
  std_sort := @ins_sort;
  std_sort_perm := fun A lt l _ => ins_sort_perm lt l;
  std_sort_ordered := @ins_sort_ordered |}.
