(* ===== verification/AllyMarks.v ===== *)
(** The marking of allied buildings on the occupancy map
    ([CTerrainManager::MarkAllyBuildings], [MarkZoneAlly], [MarkZoneOwn]): once a frame
    the list of friendly units is merged with the buildings marked before, new ones
    are marked and the marks of those that are gone removed.

    A position is the pair of its rounded coordinates, [int(pos.x + 0.5f)] and
    [int(pos.z + 0.5f)], the only form in which this code reads it. *)

From S2P Require Import Prelude BlockingMap BlockMask MapShape.

(** What the marking reads of a [CCircuitDef]; [def_mask] is its entry in [blockInfos]. *)
Record BuildDef := { def_mobile : bool; def_builder : bool; def_usize : int2; def_mask : option IBlockMask }.

(** A friendly unit as the engine reports it: its definition, team, facing and middle
    position. *)
Record AllyUnit := { au_def : BuildDef; au_team : Z; au_facing : facing; au_pos : int2 }.

Record SStructure := { unitId : Z; st_def : BuildDef; st_pos : int2; st_facing : facing }.

Record TerrainManager := {
  blockingMap : SBlockingMap;
  allyZoneCells : Z;
  markFrame : Z;
  markedAllies : list SStructure;
}.

#[export] Instance TerrainManager_eta : Eta TerrainManager := fun t =>
  Build_TerrainManager (blockingMap t) (allyZoneCells t) (markFrame t) (markedAllies t).

Definition FRAMES_PER_SEC : Z := 30.

Definition ResetBuildFrame (t : TerrainManager) : TerrainManager := t <| markFrame := - FRAMES_PER_SEC |>.

(** ** Zones *)

Fixpoint zone_loop (f : Z -> Z -> SBlockingMap -> option SBlockingMap) (cs : list int2) (b : SBlockingMap) : option SBlockingMap :=
  match cs with [] => Some b | c :: cs' => b' ← f c.1 c.2 b; zone_loop f cs' b' end.

Definition zone_squares (cells : Z) (pos : int2) (b : SBlockingMap) : list int2 :=
  let p1 := (pos.1 ÷ 128 - cells ÷ 2, pos.2 ÷ 128 - cells ÷ 2) in
  let '(m1, m2) := BoundAlly b p1 (add2 p1 (cells, cells)) in
  columns_of m1 m2.

Definition MarkZoneAlly (pos : int2) (block : bool) (t : TerrainManager) : option TerrainManager :=
  b ← zone_loop (if block then AddZoneAlly else DelZoneAlly) (zone_squares (allyZoneCells t) pos (blockingMap t)) (blockingMap t);
  Some (t <| blockingMap := b |>).

Definition MarkZoneOwn (pos : int2) (block : bool) (t : TerrainManager) : option TerrainManager :=
  b ← zone_loop (if block then AddZoneOwn else DelZoneOwn) (zone_squares (allyZoneCells t) pos (blockingMap t)) (blockingMap t);
  Some (t <| blockingMap := b |>).

(** ** The merge *)

Definition MarkBuilding (s : SStructure) (block : bool) (t : TerrainManager) : option TerrainManager :=
  b ← CTerrainManager_MarkBlocker block (st_facing s) (st_pos s) (def_usize (st_def s)) (def_mask (st_def s)) (blockingMap t);
  Some (t <| blockingMap := b |>).

Definition structure_of (u : Z * AllyUnit) : SStructure :=
  {| unitId := u.1; st_def := au_def u.2; st_pos := au_pos u.2; st_facing := au_facing u.2 |}.

Definition addStructure (u : Z * AllyUnit) (t : TerrainManager) : option TerrainManager :=
  let s := structure_of u in
  t ← MarkBuilding s true (t <| markedAllies ::= fun l => l ++ [s] |>);
  if def_builder (st_def s) then MarkZoneAlly (st_pos s) true t else Some t.

Definition delStructure (s : SStructure) (t : TerrainManager) : option TerrainManager :=
  t ← MarkBuilding s false t;
  if def_builder (st_def s) then MarkZoneAlly (st_pos s) false t else Some t.

(** A unit that is not marked: it moves, or is the team's own. *)
Definition skipped (teamId : Z) (u : AllyUnit) : bool := def_mobile (au_def u) || (au_team u =? teamId).

(** [while (++first1 != last1)]: the rest are new units. *)
Fixpoint add_rest (teamId : Z) (f : list (Z * AllyUnit)) (t : TerrainManager) : option TerrainManager :=
  match f with
  | [] => Some t
  | u :: f' => if skipped teamId u.2 then add_rest teamId f' t else t' ← addStructure u t; add_rest teamId f' t'
  end.

(** [while (first2 != last2)]: the rest are dead units. *)
Fixpoint del_rest (p : list SStructure) (t : TerrainManager) : option TerrainManager :=
  match p with [] => Some t | s :: p' => t' ← delStructure s t; del_rest p' t' end.

(** [while (first1 != last1)], with the second loop behind it. *)
Fixpoint merge (teamId : Z) (f : list (Z * AllyUnit)) : list SStructure -> TerrainManager -> option TerrainManager :=
  fix inner p t :=
    match f with
    | [] => del_rest p t
    | u :: f' =>
        if skipped teamId u.2 then merge teamId f' p t
        else match p with
             | [] => t' ← addStructure u t; add_rest teamId f' t'
             | s :: p' =>
                 if u.1 <? unitId s then t' ← addStructure u t; merge teamId f' p t'
                 else if unitId s <? u.1 then t' ← delStructure s t; inner p' t'
                 else merge teamId f' p' (t <| markedAllies ::= fun l => l ++ [s] |>)
             end
    end.

(** [friendlies]: the friendly units in the order of the [std::map], by identifier. *)
Definition MarkAllyBuildings (teamId lastFrame : Z) (friendlies : list (Z * AllyUnit)) (t : TerrainManager) : option TerrainManager :=
  if lastFrame <=? markFrame t then Some t
  else
    let t := t <| markFrame := lastFrame |> in
    let prevUnits := markedAllies t in
    merge teamId friendlies prevUnits (t <| markedAllies := [] |>).

(** * Every mark has its removal *)

(** The calls on the map, in order: a building marked or unmarked. *)
Definition event : Type := (bool * SStructure)%type.

(** The merge without the map: the calls it makes and the buildings it keeps. *)
Fixpoint plan (teamId : Z) (f : list (Z * AllyUnit)) : list SStructure -> list event * list SStructure :=
  fix inner p :=
    match f with
    | [] => ((fun s => (false, s)) <$> p, [])
    | u :: f' =>
        if skipped teamId u.2 then plan teamId f' p
        else match p with
             | [] => let r := plan teamId f' [] in ((true, structure_of u) :: r.1, structure_of u :: r.2)
             | s :: p' =>
                 if u.1 <? unitId s then let r := plan teamId f' p in ((true, structure_of u) :: r.1, structure_of u :: r.2)
                 else if unitId s <? u.1 then let r := inner p' in ((false, s) :: r.1, r.2)
                 else let r := plan teamId f' p' in (r.1, s :: r.2)
             end
    end.

Section Events.
Context (cells : Z).

Definition map_event (e : event) (b : SBlockingMap) : option SBlockingMap :=
  let s := e.2 in
  b ← CTerrainManager_MarkBlocker e.1 (st_facing s) (st_pos s) (def_usize (st_def s)) (def_mask (st_def s)) b;
  if def_builder (st_def s)
  then zone_loop (if e.1 then AddZoneAlly else DelZoneAlly) (zone_squares cells (st_pos s) b) b
  else Some b.

Fixpoint map_events (es : list event) (b : SBlockingMap) : option SBlockingMap :=
  match es with [] => Some b | e :: es' => b' ← map_event e b; map_events es' b' end.

Lemma map_events_app (es es' : list event) (b : SBlockingMap) : map_events (es ++ es') b = b' ← map_events es b; map_events es' b'.
Proof. revert b. induction es as [|e es IH]; intros b; cbn; [done|]. destruct (map_event e b); cbn; [apply IH|done]. Qed.

End Events.

(** The calls of a run, and what is left marked. *)
Definition outcome (t : TerrainManager) (r : list event * list SStructure) : option TerrainManager :=
  b ← map_events (allyZoneCells t) r.1 (blockingMap t);
  Some (t <| blockingMap := b |> <| markedAllies ::= fun l => l ++ r.2 |>).

Lemma addStructure_eq (u : Z * AllyUnit) (t : TerrainManager) : addStructure u t = outcome t ([(true, structure_of u)], [structure_of u]).
Proof.
  unfold addStructure, outcome, MarkBuilding, MarkZoneAlly. cbn [map_events fst snd mbind option_bind]. unfold map_event.
  destruct t as [b n fr l]. cbn.
  destruct (CTerrainManager_MarkBlocker _ _ _ _ _ b) as [b'|]; cbn; [|done].
  destruct (def_builder _); cbn; [|done]. destruct (zone_loop _ _ b'); done.
Qed.

Lemma delStructure_eq (s : SStructure) (t : TerrainManager) : delStructure s t = outcome t ([(false, s)], []).
Proof.
  unfold delStructure, outcome, MarkBuilding, MarkZoneAlly. cbn [map_events fst snd mbind option_bind]. unfold map_event.
  destruct t as [b n fr l]. cbn.
  destruct (CTerrainManager_MarkBlocker _ _ _ _ _ b) as [b'|]; cbn; [|done].
  destruct (def_builder _); cbn; [|by rewrite app_nil_r]. destruct (zone_loop _ _ b'); cbn; by rewrite ?app_nil_r.
Qed.

Lemma outcome_app (t : TerrainManager) (r r' : list event * list SStructure) :
  (t' ← outcome t r; outcome t' r') = outcome t (r.1 ++ r'.1, r.2 ++ r'.2).
Proof.
  unfold outcome. cbn [fst snd]. rewrite map_events_app. destruct (map_events _ r.1 _) as [b|]; cbn; [|done].
  destruct (map_events _ r'.1 b); cbn; [|done]. by rewrite app_assoc.
Qed.

Lemma outcome_then (t : TerrainManager) (r r' : list event * list SStructure) (k : TerrainManager -> option TerrainManager) :
  (forall t', k t' = outcome t' r') -> (t' ← outcome t r; k t') = outcome t (r.1 ++ r'.1, r.2 ++ r'.2).
Proof. intros Hk. rewrite <- outcome_app. destruct (outcome t r); cbn; [apply Hk|done]. Qed.

Lemma outcome_nil (t : TerrainManager) : outcome t ([], []) = Some t.
Proof. destruct t. unfold outcome. cbn. by rewrite app_nil_r. Qed.

Lemma add_rest_plan (teamId : Z) (f : list (Z * AllyUnit)) (t : TerrainManager) : add_rest teamId f t = outcome t (plan teamId f []).
Proof.
  revert t. induction f as [|u f IH]; intros t; cbn [add_rest plan]; [by rewrite outcome_nil|].
  destruct (skipped teamId u.2); [apply IH|]. rewrite addStructure_eq. by rewrite (outcome_then _ _ _ _ IH).
Qed.

Lemma del_rest_plan (p : list SStructure) (t : TerrainManager) : del_rest p t = outcome t ((fun s => (false, s)) <$> p, []).
Proof.
  revert t. induction p as [|s p IH]; intros t; cbn [del_rest]; [by rewrite outcome_nil|].
  rewrite delStructure_eq. by rewrite (outcome_then _ _ _ _ IH).
Qed.

Lemma keep_plan (s : SStructure) (t : TerrainManager) (r : list event * list SStructure) :
  outcome (t <| markedAllies ::= fun l => l ++ [s] |>) r = outcome t (r.1, s :: r.2).
Proof. unfold outcome. destruct t. cbn. destruct (map_events _ r.1 _); cbn; [|done]. by rewrite <- app_assoc. Qed.

(** One round of the loops. *)
Lemma merge_cons (teamId : Z) (u : Z * AllyUnit) (f : list (Z * AllyUnit)) (s : SStructure) (p : list SStructure) (t : TerrainManager) :
  merge teamId (u :: f) (s :: p) t =
  if skipped teamId u.2 then merge teamId f (s :: p) t
  else if u.1 <? unitId s then t' ← addStructure u t; merge teamId f (s :: p) t'
  else if unitId s <? u.1 then t' ← delStructure s t; merge teamId (u :: f) p t'
  else merge teamId f p (t <| markedAllies ::= fun l => l ++ [s] |>).
Proof. reflexivity. Qed.

Lemma plan_cons (teamId : Z) (u : Z * AllyUnit) (f : list (Z * AllyUnit)) (s : SStructure) (p : list SStructure) :
  plan teamId (u :: f) (s :: p) =
  if skipped teamId u.2 then plan teamId f (s :: p)
  else if u.1 <? unitId s then let r := plan teamId f (s :: p) in ((true, structure_of u) :: r.1, structure_of u :: r.2)
  else if unitId s <? u.1 then let r := plan teamId (u :: f) p in ((false, s) :: r.1, r.2)
  else let r := plan teamId f p in (r.1, s :: r.2).
Proof. reflexivity. Qed.

Lemma plan_nil (teamId : Z) (u : Z * AllyUnit) (f : list (Z * AllyUnit)) :
  plan teamId (u :: f) [] =
  if skipped teamId u.2 then plan teamId f []
  else let r := plan teamId f [] in ((true, structure_of u) :: r.1, structure_of u :: r.2).
Proof. reflexivity. Qed.

(** The loops are the plan carried out. *)
Lemma merge_plan (teamId : Z) (f : list (Z * AllyUnit)) (p : list SStructure) (t : TerrainManager) :
  merge teamId f p t = outcome t (plan teamId f p).
Proof.
  revert p t. induction f as [|u f IH]; intros p.
  { intros t. destruct p; apply del_rest_plan. }
  induction p as [|s p IHp]; intros t; [rewrite plan_nil; cbn [merge]|rewrite merge_cons, plan_cons]; destruct (skipped teamId u.2); try apply IH.
  - rewrite addStructure_eq. by rewrite (outcome_then _ _ _ _ (add_rest_plan teamId f)).
  - destruct (u.1 <? unitId s); [|destruct (unitId s <? u.1)].
    + rewrite addStructure_eq. by rewrite (outcome_then _ _ _ _ (IH (s :: p))).
    + rewrite delStructure_eq. by rewrite (outcome_then _ _ _ _ IHp).
    + rewrite IH. apply keep_plan.
Qed.

(** ** Balance *)

Definition marks (es : list event) : list SStructure := omap (fun e : event => if e.1 then Some e.2 else None) es.
Definition unmarks (es : list event) : list SStructure := omap (fun e : event => if e.1 then None else Some e.2) es.

(** The calls so far leave [m] marked: nothing is unmarked that is not marked at that
    moment, and what was marked and not unmarked is [m]. *)
Definition balanced (es : list event) (m : list SStructure) : Prop :=
  (forall es1 es2, es = es1 ++ es2 -> unmarks es1 ⊆+ marks es1) /\ marks es ≡ₚ unmarks es ++ m.

Lemma unmarks_all (p : list SStructure) : unmarks ((fun s => (false, s)) <$> p) = p.
Proof. induction p as [|s p IH]; [done|]. rewrite fmap_cons. cbn. by f_equal. Qed.

Lemma marks_none (p : list SStructure) : marks ((fun s => (false, s)) <$> p) = [].
Proof. induction p as [|s p IH]; [done|]. rewrite fmap_cons. exact IH. Qed.

Lemma plan_unmarks (teamId : Z) (f : list (Z * AllyUnit)) (p : list SStructure) : sublist (unmarks (plan teamId f p).1) p.
Proof.
  revert p. induction f as [|u f IH]; intros p.
  { destruct p; cbn [plan fst]; by rewrite unmarks_all. }
  induction p as [|s p IHp]; [rewrite plan_nil|rewrite plan_cons]; destruct (skipped teamId u.2); try apply IH.
  destruct (u.1 <? unitId s); [|destruct (unitId s <? u.1)]; cbn [fst].
  - apply (IH (s :: p)).
  - apply sublist_skip, IHp.
  - apply sublist_cons, IH.
Qed.

Lemma plan_balance (teamId : Z) (f : list (Z * AllyUnit)) (p : list SStructure) :
  marks (plan teamId f p).1 ++ p ≡ₚ unmarks (plan teamId f p).1 ++ (plan teamId f p).2.
Proof.
  revert p. induction f as [|u f IH]; intros p.
  { destruct p; cbn [plan fst snd]; by rewrite unmarks_all, marks_none, app_nil_r. }
  induction p as [|s p IHp]; [rewrite plan_nil|rewrite plan_cons]; destruct (skipped teamId u.2); try apply IH.
  - cbn. by rewrite IH, Permutation_middle.
  - destruct (u.1 <? unitId s); [|destruct (unitId s <? u.1)]; cbn [fst snd].
    + cbn. by rewrite IH, Permutation_middle.
    + cbn. rewrite <- Permutation_middle. by f_equiv.
    + rewrite <- Permutation_middle. rewrite <- (Permutation_middle (unmarks _)). f_equiv. apply IH.
Qed.

(** ** What a call does *)

(** The units to be marked: allied buildings. *)
Definition statics (teamId : Z) (f : list (Z * AllyUnit)) : list (Z * AllyUnit) := filter (fun u => skipped teamId u.2 = false) f.

Lemma statics_cons (teamId : Z) (u : Z * AllyUnit) (f : list (Z * AllyUnit)) :
  statics teamId (u :: f) = if skipped teamId u.2 then statics teamId f else u :: statics teamId f.
Proof. unfold statics. rewrite filter_cons. destruct (skipped teamId u.2); [rewrite decide_False by done|rewrite decide_True by done]; done. Qed.

Lemma plan_ids (teamId : Z) (f : list (Z * AllyUnit)) (p : list SStructure) :
  unitId <$> (plan teamId f p).2 = (statics teamId f).*1.
Proof.
  revert p. induction f as [|u f IH]; intros p; [by destruct p|].
  induction p as [|s p IHp]; rewrite statics_cons; [rewrite plan_nil|rewrite plan_cons]; destruct (skipped teamId u.2) eqn:Eu; try apply IH.
  - cbn. by f_equal.
  - rewrite statics_cons, Eu in IHp. destruct (u.1 <? unitId s) eqn:E1; [|destruct (unitId s <? u.1) eqn:E2]; cbn.
    + f_equal. apply IH.
    + exact IHp.
    + f_equal; [lia|]. apply IH.
Qed.

Definition by_id (f : list (Z * AllyUnit)) : Prop := StronglySorted Z.lt (f.*1).

Lemma statics_sub (teamId : Z) (f : list (Z * AllyUnit)) (i : Z) : i ∈ (statics teamId f).*1 -> i ∈ f.*1.
Proof. rewrite !list_elem_of_fmap. intros (u & -> & Hu). unfold statics in Hu. apply list_elem_of_filter in Hu as [_ Hu]. eauto. Qed.

Lemma sorted_head (i j : Z) (l : list Z) : StronglySorted Z.lt (i :: l) -> j ∈ l -> i < j.
Proof. intros H Hj. inversion H as [|? ? _ Hf]. subst. rewrite Forall_forall in Hf. by apply Hf. Qed.

Lemma sorted_tail (i : Z) (l : list Z) : StronglySorted Z.lt (i :: l) -> StronglySorted Z.lt l.
Proof. by inversion 1. Qed.

(** The buildings unmarked are the ones that are gone. *)
Lemma plan_unmarked (teamId : Z) (f : list (Z * AllyUnit)) (p : list SStructure) :
  by_id f -> StronglySorted Z.lt (unitId <$> p) ->
  unmarks (plan teamId f p).1 = filter (fun s => unitId s ∉ (statics teamId f).*1) p.
Proof.
  revert p. induction f as [|u f IH]; intros p Hf Hp.
  { assert (E : filter (fun s => unitId s ∉ (statics teamId []).*1) p = p).
    { clear. induction p as [|s p IH]; [done|]. rewrite filter_cons, decide_True by (apply not_elem_of_nil). by f_equal. }
    rewrite E. destruct p; cbn [plan fst]; apply unmarks_all. }
  unfold by_id in Hf. cbn [fmap list_fmap] in Hf. pose proof (sorted_tail _ _ Hf) as Hf'.
  induction p as [|s p IHp]; [rewrite plan_nil|rewrite plan_cons]; rewrite statics_cons in *; destruct (skipped teamId u.2) eqn:Eu; try by apply IH.
  pose proof (sorted_tail _ _ Hp) as Hp'.
  assert (Hgt : forall s', s' ∈ p -> unitId s < unitId s') by (intros s' Hs'; eapply sorted_head; [exact Hp|by apply list_elem_of_fmap_2]).
  destruct (u.1 <? unitId s) eqn:E1; [|destruct (unitId s <? u.1) eqn:E2]; cbn [fst].
  - change (unmarks ((true, structure_of u) :: (plan teamId f (s :: p)).1)) with (unmarks (plan teamId f (s :: p)).1).
    rewrite IH by done. apply filter_ext_in. intros s' Hs'. cbn. rewrite not_elem_of_cons.
    enough (unitId s' <> u.1) by tauto. apply elem_of_cons in Hs' as [->|Hs']; [|specialize (Hgt _ Hs')]; lia.
  - change (unmarks ((false, s) :: (plan teamId (u :: f) p).1)) with (s :: unmarks (plan teamId (u :: f) p).1).
    rewrite IHp by done. rewrite filter_cons, decide_True; [done|]. cbn. rewrite not_elem_of_cons. split; [lia|].
    intros Hin%statics_sub. pose proof (sorted_head _ _ _ Hf Hin). lia.
  - rewrite IH by done. rewrite filter_cons, decide_False by (intros Hn; apply Hn; cbn; apply elem_of_cons; left; lia).
    apply filter_ext_in. intros s' Hs'. cbn. rewrite not_elem_of_cons. specialize (Hgt _ Hs'). enough (unitId s' <> u.1) by tauto. lia.
Qed.

(** The buildings marked are the ones that are new. *)
Lemma plan_marked (teamId : Z) (f : list (Z * AllyUnit)) (p : list SStructure) :
  by_id f -> StronglySorted Z.lt (unitId <$> p) ->
  marks (plan teamId f p).1 = structure_of <$> filter (fun u => u.1 ∉ unitId <$> p) (statics teamId f).
Proof.
  revert p. induction f as [|u f IH]; intros p Hf Hp.
  { destruct p; cbn [plan fst]; by rewrite marks_none. }
  unfold by_id in Hf. cbn [fmap list_fmap] in Hf. pose proof (sorted_tail _ _ Hf) as Hf'.
  induction p as [|s p IHp]; [rewrite plan_nil|rewrite plan_cons]; rewrite statics_cons in *; destruct (skipped teamId u.2) eqn:Eu; try by apply IH.
  { cbn [fst]. change (marks ((true, structure_of u) :: (plan teamId f []).1)) with (structure_of u :: marks (plan teamId f []).1). rewrite IH by done. rewrite filter_cons, decide_True by apply not_elem_of_nil. done. }
  pose proof (sorted_tail _ _ Hp) as Hp'.
  assert (Hgt : forall i, i ∈ unitId <$> p -> unitId s < i) by (intros i Hi; by eapply sorted_head).
  assert (Hgf : forall v, v ∈ statics teamId f -> u.1 < v.1).
  { intros v Hv. eapply sorted_head; [exact Hf|]. apply (statics_sub teamId). by apply list_elem_of_fmap_2. }
  rewrite fmap_cons. destruct (u.1 <? unitId s) eqn:E1; [|destruct (unitId s <? u.1) eqn:E2]; cbn [fst].
  - change (marks ((true, structure_of u) :: (plan teamId f (s :: p)).1)) with (structure_of u :: marks (plan teamId f (s :: p)).1).
    rewrite IH by done. rewrite filter_cons, decide_True; [done|]. rewrite not_elem_of_cons. split; [lia|]. intros Hi%Hgt. lia.
  - change (marks ((false, s) :: (plan teamId (u :: f) p).1)) with (marks (plan teamId (u :: f) p).1).
    rewrite IHp by done. f_equal. apply filter_ext_in. intros v Hv. rewrite not_elem_of_cons. enough (v.1 <> unitId s) by tauto.
    apply elem_of_cons in Hv as [->|Hv]; [lia|]. specialize (Hgf _ Hv). lia.
  - rewrite IH by done. f_equal. rewrite filter_cons, decide_False by (intros Hn; apply Hn; apply elem_of_cons; left; lia).
    apply filter_ext_in. intros v Hv. rewrite not_elem_of_cons. specialize (Hgf _ Hv). enough (v.1 <> unitId s) by tauto. lia.
Qed.

Lemma marks_app (es es' : list event) : marks (es ++ es') = marks es ++ marks es'.
Proof. apply omap_app. Qed.

Lemma unmarks_app (es es' : list event) : unmarks (es ++ es') = unmarks es ++ unmarks es'.
Proof. apply omap_app. Qed.

Lemma balanced_plan (teamId : Z) (f : list (Z * AllyUnit)) (log : list event) (m : list SStructure) :
  balanced log m -> balanced (log ++ (plan teamId f m).1) (plan teamId f m).2.
Proof.
  intros [Hpre Hm]. split.
  - intros es1 es2 E. apply app_eq_inv in E as [(l & -> & E)|(l & -> & E)]; [by eapply Hpre|].
    rewrite unmarks_app, marks_app, Hm, <- app_assoc. apply submseteq_app; [done|]. apply submseteq_inserts_r.
    etrans; [|apply sublist_submseteq, (plan_unmarks teamId f)]. rewrite E, unmarks_app. by apply submseteq_inserts_r.
  - rewrite marks_app, unmarks_app, Hm, <- !app_assoc. f_equiv. rewrite Permutation_app_comm. apply plan_balance.
Qed.

Fixpoint run_calls (teamId : Z) (calls : list (Z * list (Z * AllyUnit))) (t : TerrainManager) : option TerrainManager :=
  match calls with [] => Some t | c :: cs => t' ← MarkAllyBuildings teamId c.1 c.2 t; run_calls teamId cs t' end.

(** A call is skipped, or carries out its plan. *)
Lemma call_plan (teamId frame : Z) (f : list (Z * AllyUnit)) (t t' : TerrainManager) :
  MarkAllyBuildings teamId frame f t = Some t' ->
  if frame <=? markFrame t then t' = t
  else map_events (allyZoneCells t) (plan teamId f (markedAllies t)).1 (blockingMap t) = Some (blockingMap t') /\
       markedAllies t' = (plan teamId f (markedAllies t)).2 /\ allyZoneCells t' = allyZoneCells t.
Proof.
  unfold MarkAllyBuildings. destruct (frame <=? markFrame t); [by intros [= <-]|]. rewrite merge_plan. unfold outcome. destruct t. cbn.
  destruct (map_events _ _ _); cbn; [|done]. by intros [= <-].
Qed.

(** The state behind a sequence of calls. *)
Definition synced (t0 t : TerrainManager) (log : list event) : Prop :=
  map_events (allyZoneCells t0) log (blockingMap t0) = Some (blockingMap t) /\ balanced log (markedAllies t) /\
  StronglySorted Z.lt (unitId <$> markedAllies t) /\ allyZoneCells t = allyZoneCells t0.

Lemma statics_sorted (teamId : Z) (f : list (Z * AllyUnit)) : by_id f -> StronglySorted Z.lt ((statics teamId f).*1).
Proof.
  unfold by_id. induction f as [|u f IH]; [constructor|]. rewrite fmap_cons, statics_cons. intros Hs. pose proof (sorted_tail _ _ Hs).
  destruct (skipped teamId u.2); [by apply IH|]. cbn. constructor; [by apply IH|]. apply Forall_forall. intros i Hi%statics_sub.
  by eapply sorted_head.
Qed.

Lemma call_synced (teamId frame : Z) (f : list (Z * AllyUnit)) (t0 t t' : TerrainManager) (log : list event) :
  synced t0 t log -> by_id f -> MarkAllyBuildings teamId frame f t = Some t' -> exists es, synced t0 t' (log ++ es).
Proof.
  intros (Hmap & Hbal & Hsort & Hcells) Hf Hcall%call_plan. destruct (frame <=? markFrame t).
  - subst t'. exists []. rewrite app_nil_r. done.
  - destruct Hcall as (Hes & Hm & Hc). exists (plan teamId f (markedAllies t)).1. split; [|split; [|split]].
    + by rewrite map_events_app, Hmap, <- Hcells.
    + rewrite Hm. by apply balanced_plan.
    + rewrite Hm, plan_ids. by apply statics_sorted.
    + congruence.
Qed.

Lemma run_synced (teamId : Z) (calls : list (Z * list (Z * AllyUnit))) (t0 t t' : TerrainManager) (log : list event) :
  synced t0 t log -> Forall (fun c => by_id c.2) calls -> run_calls teamId calls t = Some t' -> exists es, synced t0 t' (log ++ es).
Proof.
  revert t log. induction calls as [|c cs IH]; intros t log Hs Hf; cbn; [intros [= <-]; exists []; by rewrite app_nil_r|].
  apply Forall_cons in Hf as [Hc Hcs]. destruct (MarkAllyBuildings _ _ _ t) as [t1|] eqn:E; cbn; [|done]. intros Hrun.
  destruct (call_synced _ _ _ _ _ _ _ Hs Hc E) as [es Hs1]. destruct (IH _ _ Hs1 Hcs Hrun) as [es' Hs2].
  exists (es ++ es'). by rewrite app_assoc.
Qed.

(** ** Every call succeeds *)

Definition def_ok (d : BuildDef) : Prop := mask_wf (def_mask d) /\ nonneg2 (def_usize d).

Lemma zone_loop_safe (f : SBlockCellAlly -> SBlockCellAlly) (cs : list int2) (b : SBlockingMap) :
  map_wf b -> (forall x z, (x, z) ∈ cs -> 0 <= x < columnsAlly b /\ 0 <= z < rowsAlly b) -> safe (zone_loop (on_ally f) cs b) b.
Proof.
  revert b. induction cs as [|[x z] cs IH]; intros b Hw Hin; cbn [zone_loop]; [by apply safe_ret|].
  destruct (Hin x z ltac:(constructor)) as [Hx Hz]. apply safe_bind; [by apply on_ally_safe|].
  intros b' Hw' Hd. apply IH; [done|]. intros x' z' Hc. destruct Hd as (_ & _ & _ & _ & -> & ->). apply Hin. by constructor.
Qed.

Lemma map_event_safe (cells : Z) (e : event) (b : SBlockingMap) : map_wf b -> def_ok (st_def e.2) -> safe (map_event cells e b) b.
Proof.
  intros Hw [Hm Hu]. unfold map_event. apply safe_bind; [by apply mark_building_safe|]. intros b' Hw' _.
  destruct (def_builder _); [|by apply safe_ret]. unfold zone_squares, BoundAlly.
  destruct e.1; (apply zone_loop_safe; [done|]); intros x z Hxz%elem_of_columns; cbn in Hxz; lia.
Qed.

Lemma map_events_safe (cells : Z) (es : list event) (b : SBlockingMap) :
  map_wf b -> Forall (fun e : event => def_ok (st_def e.2)) es -> safe (map_events cells es b) b.
Proof.
  revert b. induction es as [|e es IH]; intros b Hw Hes; cbn [map_events]; [by apply safe_ret|]. apply Forall_cons in Hes as [He Hes].
  apply safe_bind; [by apply map_event_safe|]. intros b' Hw' _. by apply IH.
Qed.

Definition unit_ok (u : Z * AllyUnit) : Prop := def_ok (au_def u.2).
Definition marked_ok (s : SStructure) : Prop := def_ok (st_def s).

Lemma plan_ok (teamId : Z) (f : list (Z * AllyUnit)) (p : list SStructure) :
  Forall unit_ok f -> Forall marked_ok p ->
  Forall (fun e : event => marked_ok e.2) (plan teamId f p).1 /\ Forall marked_ok (plan teamId f p).2.
Proof.
  intros Hf. revert p. induction Hf as [|u f Hu Hf IH]; intros p Hp.
  { destruct p; cbn; (split; [|done]); apply (Forall_fmap _ _ (_ :: _)) || done; done. }
  induction Hp as [|s p Hs Hp IHp]; [rewrite plan_nil|rewrite plan_cons]; destruct (skipped teamId u.2); try (by apply IH).
  - destruct (IH [] ltac:(done)). split; by constructor.
  - apply IH. by constructor.
  - destruct (u.1 <? unitId s); [|destruct (unitId s <? u.1)]; cbn [fst snd].
    + destruct (IH (s :: p) ltac:(by constructor)). split; by constructor.
    + destruct IHp. split; [by constructor|done].
    + destruct (IH p Hp). split; [done|by constructor].
Qed.

Definition terrain_ok (t : TerrainManager) : Prop := map_wf (blockingMap t) /\ Forall marked_ok (markedAllies t).

Lemma call_total (teamId frame : Z) (f : list (Z * AllyUnit)) (t : TerrainManager) :
  terrain_ok t -> Forall unit_ok f ->
  exists t', MarkAllyBuildings teamId frame f t = Some t' /\ terrain_ok t' /\ same_dims (blockingMap t) (blockingMap t').
Proof.
  intros [Hw Hm] Hf. destruct (plan_ok teamId f _ Hf Hm) as [He Hm']. unfold MarkAllyBuildings.
  destruct (frame <=? markFrame t); [by exists t|]. rewrite merge_plan. unfold outcome. destruct t as [b n fr l]. cbn in *.
  destruct (map_events_safe n _ b Hw He) as (b' & -> & Hw' & Hd). cbn. eexists. split; [done|]. by split.
Qed.

Lemma run_total (teamId : Z) (calls : list (Z * list (Z * AllyUnit))) (t : TerrainManager) :
  terrain_ok t -> Forall (fun c => Forall unit_ok c.2) calls -> exists t', run_calls teamId calls t = Some t' /\ terrain_ok t'.
Proof.
  intros Ht Hcs. revert t Ht. induction Hcs as [|c cs Hc _ IH]; intros t Ht; cbn [run_calls]; [by exists t|].
  destruct (call_total teamId c.1 c.2 t Ht Hc) as (t' & -> & Ht' & _). by apply IH.
Qed.

(** C28. The marks of allied buildings stay in step with the allies: over any sequence of
    frames, with the friendly units of each frame in the order of their identifiers,
    every call completes without an access out of range; everything ever put on the map is a building marked or unmarked, nothing is
    unmarked that is not marked at that moment and with the very position, facing and
    definition it was marked with, and what is marked and not unmarked is the list the
    manager keeps; a call in a new frame unmarks exactly the buildings that are gone,
    marks exactly the new ones, in the order of their identifiers, and then keeps
    one entry for each allied building. *)
Theorem allies_in_sync (teamId frame : Z) (calls : list (Z * list (Z * AllyUnit))) (f : list (Z * AllyUnit)) (t0 : TerrainManager) :
  markedAllies t0 = [] -> map_wf (blockingMap t0) -> Forall (fun c => by_id c.2 /\ Forall unit_ok c.2) (calls ++ [(frame, f)]) ->
  exists t t', run_calls teamId calls t0 = Some t /\ MarkAllyBuildings teamId frame f t = Some t' /\
  if frame <=? markFrame t then t' = t else
  exists log es,
    map_events (allyZoneCells t0) log (blockingMap t0) = Some (blockingMap t) /\
    map_events (allyZoneCells t0) es (blockingMap t) = Some (blockingMap t') /\
    balanced (log ++ es) (markedAllies t') /\
    unmarks es = filter (fun s => unitId s ∉ (statics teamId f).*1) (markedAllies t) /\
    marks es = structure_of <$> filter (fun u => u.1 ∉ unitId <$> markedAllies t) (statics teamId f) /\
    unitId <$> markedAllies t' = (statics teamId f).*1.
Proof.
  intros H0 Hw Hall. apply Forall_app in Hall as [Hcs [Hf Hfok]%Forall_singleton].
  destruct (run_total teamId calls t0) as (t & Hrun & Ht).
  { split; [done|]. by rewrite H0. } { eapply Forall_impl; [exact Hcs|]. by intros c []. }
  destruct (call_total teamId frame f t Ht Hfok) as (t' & Hcall & _). exists t, t'. split; [done|]. split; [done|].
  apply call_plan in Hcall. destruct (frame <=? markFrame t); [done|].
  destruct (run_synced teamId calls t0 t0 t []) as [log (Hmap & Hbal & Hsort & Hcells)]; [| |done|].
  { split; [done|]. split; [|by rewrite H0; repeat constructor]. split; [|by rewrite H0].
    intros es1 es2 E. symmetry in E. apply app_nil in E as [-> _]. done. }
  { eapply Forall_impl; [exact Hcs|]. by intros c []. }
  cbn in Hmap, Hbal. destruct Hcall as (Hes & Hm & _).
  exists log, (plan teamId f (markedAllies t)).1. rewrite Hm. split; [done|]. split; [by rewrite <- Hcells|].
  split; [by apply balanced_plan|]. split; [by apply plan_unmarked|]. split; [by apply plan_marked|apply plan_ids].
Qed.

(** A solar plant that goes, a factory with its yard that stays, a turret that comes; a
    mobile unit and one of the team's own are passed over. *)
Definition demo_def (size : Z) (builder mobile : bool) (m : option IBlockMask) : BuildDef :=
  {| def_mobile := mobile; def_builder := builder; def_usize := (size, size); def_mask := m |}.
Definition demo_ally (d : BuildDef) (team x z : Z) : AllyUnit := {| au_def := d; au_team := team; au_facing := SOUTH; au_pos := (x, z) |}.
Definition demo_solar := demo_ally (demo_def 4 false false None) 1 32 32.
Definition demo_factory := demo_ally (demo_def 12 true false (Some yard)) 1 144 128.
Definition demo_turret := demo_ally (demo_def 2 false false None) 1 40 200.
Definition demo_scout := demo_ally (demo_def 2 false true None) 1 40 40.
Definition demo_own := demo_ally (demo_def 2 false false None) 0 200 200.
Definition demo_first : list (Z * AllyUnit) := [(3, demo_solar); (4, demo_scout); (7, demo_factory); (9, demo_own)].
Definition demo_second : list (Z * AllyUnit) := [(5, demo_turret); (7, demo_factory); (9, demo_own)].
Definition demo_terrain : TerrainManager :=
  {| blockingMap := SBlockingMap_new 32 32; allyZoneCells := 1; markFrame := -30; markedAllies := [] |}.

Lemma allies_in_sync_witness :
  exists t t', run_calls 0 [(1, demo_first)] demo_terrain = Some t /\ MarkAllyBuildings 0 2 demo_second t = Some t' /\
    unitId <$> markedAllies t' = [5; 7] /\
    exists log es, balanced (log ++ es) (markedAllies t') /\ unmarks es = [structure_of (3, demo_solar)] /\
      marks es = [structure_of (5, demo_turret)].
Proof.
  assert (H : (t ← run_calls 0 [(1, demo_first)] demo_terrain; t' ← MarkAllyBuildings 0 2 demo_second t;
               Some (markFrame t, markedAllies t, unitId <$> markedAllies t')) =
              Some (1, [structure_of (3, demo_solar); structure_of (7, demo_factory)], [5; 7])) by (vm_compute; reflexivity).
  destruct (allies_in_sync 0 2 [(1, demo_first)] demo_second demo_terrain) as (t & t' & E1 & E2 & Hsync).
  - reflexivity.
  - apply (new_wf 2 2); lia.
  - repeat first [split | constructor]; vm_compute; try reflexivity; try discriminate.
  - rewrite E1 in H. cbn [mbind option_bind] in H. rewrite E2 in H. cbn [mbind option_bind] in H.
    apply (inj Some), (inj2 pair) in H as [H H3]. apply (inj2 pair) in H as [H1 H2]. rewrite H1, H2 in Hsync.
    change (2 <=? 1) with false in Hsync. destruct Hsync as (log & es & _ & _ & Hb & Hu & Hm & _).
    exists t, t'. split; [exact E1|]. split; [exact E2|]. split; [exact H3|]. exists log, es. split; [exact Hb|].
    split; [rewrite Hu|rewrite Hm]; vm_compute; reflexivity.
Defined.
