(* ===== verification/BuildSite.v ===== *)
(** The search for a building site ([CTerrainManager::FindBuildSite] and its three
    variants): candidate corners are tried in the order of their distance, from tables
    that are computed once and grow on demand, until one is free on the occupancy map,
    usable for the unit, safe and accepted by the engine and the caller.

    World coordinates of candidates are integers (multiples of 8, exact as floats). *)

From S2P Require Import Prelude Float32 BlockingMap BlockMask MapShape StdSort AllyMarks.

(** ** The offset tables *)

Record SSearchOffset := { dx : Z; dy : Z; qdist : Z }.
Record SSearchOffsetLow := { ofs : list SSearchOffset; dxLow : Z; dyLow : Z; qdistLow : Z }.

Definition offset_at (x y : Z) : SSearchOffset := {| dx := x; dy := y; qdist := x * x + y * y |}.

(** The value a [resize] adds. *)
Definition zero_offset : SSearchOffset := {| dx := 0; dy := 0; qdist := 0 |}.
Definition zero_offset_low : SSearchOffsetLow := {| ofs := []; dxLow := 0; dyLow := 0; qdistLow := 0 |}.

(** The loops that write the offsets of a square of side [2 * radius]. *)
Definition write_offsets (radius shift : Z) (l : list SSearchOffset) : list SSearchOffset :=
  fold_left (fun l c => <[Z.to_nat (c.2 * (radius * 2) + c.1) := offset_at (c.1 - radius + shift) (c.2 - radius + shift)]> l)
    (cells (radius * 2) (radius * 2)) l.

(** The two function-local statics. *)
Record SearchTables := { searchOffsets : list SSearchOffset; searchOffsetsLow : list SSearchOffsetLow }.

#[export] Instance SearchTables_eta : Eta SearchTables := fun t => Build_SearchTables (searchOffsets t) (searchOffsetsLow t).

Definition SearchTables_new : SearchTables := {| searchOffsets := []; searchOffsetsLow := [] |}.

Section Search.
Context `{StdSort}.

Definition GetSearchOffsetTable (radius : Z) (t : SearchTables) : SearchTables :=
  let size := u32 (radius * radius * 4) in
  if Z.of_nat (length (searchOffsets t)) <? size then
    let l := resize (Z.to_nat size) zero_offset (searchOffsets t) in
    t <| searchOffsets := std_sort (by_key qdist) (write_offsets radius 0 l) |>
  else t.

(** The inner loops: the entry of every coarse cell is given its 64 offsets. *)
Fixpoint fill_low (radius radiusLow : Z) (offsets : list SSearchOffset) (cs : list int2) (tl : list SSearchOffsetLow) : option (list SSearchOffsetLow) :=
  match cs with
  | [] => Some tl
  | c :: cs' =>
      let i := Z.to_nat (c.2 * (radiusLow * 2) + c.1) in
      il ← tl !! i;
      new ← mapM (fun q : int2 => offsets !! Z.to_nat (q.2 * (radius * 2) + q.1)) (block_cells c.1 c.2);
      let x := c.1 - radiusLow in let y := c.2 - radiusLow in
      fill_low radius radiusLow offsets cs'
        (<[i := {| ofs := std_sort (by_key qdist) (ofs il ++ new); dxLow := x; dyLow := y; qdistLow := x * x + y * y |}]> tl)
  end.

Definition GetSearchOffsetTableLow (radius : Z) (t : SearchTables) : option SearchTables :=
  let radiusLow := radius ÷ GRID_RATIO_LOW in
  let sizeLow := u32 (radiusLow * radiusLow * 4) in
  if Z.of_nat (length (searchOffsetsLow t)) <? sizeLow then
    let tl := resize (Z.to_nat sizeLow) zero_offset_low (searchOffsetsLow t) in
    let offsets := write_offsets radius (GRID_RATIO_LOW ÷ 2) (replicate (Z.to_nat (radius * radius * 4)) zero_offset) in
    tl ← fill_low radius radiusLow offsets (cells (radiusLow * 2) (radiusLow * 2)) tl;
    Some (t <| searchOffsetsLow := std_sort (by_key qdistLow) tl |>)
  else Some t.

(** ** The tests of a candidate *)

(** What the search asks about a unit of one definition in one facing: the builder's
    threat map, the sectors of its movement and building type, the engine's own test
    and elevation, and the caller's predicate. *)
Record SiteEnv := {
  GetBuilderThreatAt : Z -> Z -> float;
  mobileSector : option (list bool);   (* mobileType, whether sector[i].S is not null *)
  immobileSector : option (gset Z);    (* immobileType, the keys of its sector map *)
  sectorXSize : Z; convertStoP : Z;
  IsPossibleToBuildAt : Z -> Z -> bool;
  GetElevationAt : Z -> Z -> float;
  predicate : Z -> float -> Z -> bool;
}.

Definition site : Type := (Z * float * Z)%type.

Definition THREAT_MIN : float := float_of_Z 1.

Definition GetSectorIndex (e : SiteEnv) (x z : Z) : Z := sectorXSize e * (z ÷ convertStoP e) + x ÷ convertStoP e.

Definition in_immobile (e : SiteEnv) (i : Z) : bool :=
  match immobileSector e with Some m => bool_decide (i ∈ m) | None => true end.

Definition CanBeBuiltAt (e : SiteEnv) (x z : Z) : option bool :=
  let iS := GetSectorIndex e x z in
  match mobileSector e with
  | Some v => s ← (if iS <? 0 then None else v !! Z.to_nat iS); Some (if (s : bool) then in_immobile e iS else false)
  | None => Some (in_immobile e iS)
  end.

Definition CanBeBuiltAtSafe (e : SiteEnv) (x z : Z) : option bool :=
  if flt THREAT_MIN (GetBuilderThreatAt e x z) then Some false else CanBeBuiltAt e x z.

(** A loop over squares that returns false at the first one that is taken. *)
Fixpoint all_open (taken : int2 -> option bool) (cs : list int2) : option bool :=
  match cs with [] => Some true | c :: cs' => k ← taken c; if (k : bool) then Some false else all_open taken cs' end.

(** The squares from [s1] to [s2], row by row. *)
Definition rows_of (s1 s2 : int2) : list int2 := z ← seqZ s1.2 (s2.2 - s1.2); x ← seqZ s1.1 (s2.1 - s1.1); [(x, z)].

Definition isOpenSite (b : SBlockingMap) (notIgnore : Z) (s1 s2 : int2) : option bool :=
  all_open (fun c => IsBlocked b c.1 c.2 notIgnore) (rows_of s1 s2).

(** [DECLARE_TEST]: the squares [m1 + c] against the entries [om + c]. *)
Definition mask_taken (b : SBlockingMap) (d : facing) (m : IBlockMask) (m1 om c : int2) : option bool :=
  ty ← GetType d m (om.1 + c.1) (om.2 + c.2);
  match ty with
  | BLOCK => IsStructed b (m1.1 + c.1) (m1.2 + c.2) (GetStructMask (structType m))
  | STRUCT => IsBlocked b (m1.1 + c.1) (m1.2 + c.2) (u16 (Z.lnot (ignoreMask m)))
  | OPEN => Some false
  end.

Definition isOpenMask (b : SBlockingMap) (d : facing) (m : IBlockMask) (m1 m2 om : int2) : option bool :=
  all_open (mask_taken b d m m1 om) (cells (m2.1 - m1.1) (m2.2 - m1.2)).

(** The engine's test, then the caller's, at the centre of the structure. *)
Definition confirm (e : SiteEnv) (p : int2) : option site :=
  if IsPossibleToBuildAt e p.1 p.2 then
    let y := GetElevationAt e p.1 p.2 in
    if predicate e p.1 y p.2 then Some (p.1, y, p.2) else None
  else None.

Definition probe (s1 s2 : int2) : int2 := ((s1.1 + s2.1) * 8, (s1.2 + s2.2) * 8).

(** The body of the search without a mask. *)
Definition try_plain (e : SiteEnv) (b : SBlockingMap) (notIgnore : Z) (corner size : int2) (o : SSearchOffset) : option (option site) :=
  let s1 := add2 corner (dx o, dy o) in
  let s2 := add2 s1 size in
  if negb (IsInBoundsRect b s1 s2) then Some None
  else
    k ← isOpenSite b notIgnore s1 s2;
    if negb k then Some None
    else
      let p := probe s1 s2 in
      k ← CanBeBuiltAtSafe e p.1 p.2;
      Some (if (k : bool) then confirm e p else None).

(** The body of the search with a mask ([DO_TEST]). *)
Definition try_mask (e : SiteEnv) (b : SBlockingMap) (d : facing) (m : IBlockMask) (corner size : int2) (o : SSearchOffset) : option (option site) :=
  let s1 := add2 corner (dx o, dy o) in
  let s2 := add2 s1 size in
  if negb (IsInBoundsRect b s1 s2) then Some None
  else
    let p := probe s1 s2 in
    k ← CanBeBuiltAtSafe e p.1 p.2;
    if negb k then Some None
    else
      let om := add2 (sub2 corner (GetStructOffset d m)) (dx o, dy o) in
      let '(m1, m2) := Bound b om (add2 om (turned d (xsize m, zsize m))) in
      k ← isOpenMask b d m m1 m2 (sub2 m1 om);
      Some (if (k : bool) then confirm e p else None).

(** [for (int so = 0; so < n; so++)] over the table. *)
Fixpoint search (try : SSearchOffset -> option (option site)) (l : list SSearchOffset) (sos : list nat) : option (option site) :=
  match sos with
  | [] => Some None
  | so :: sos' => o ← l !! so; r ← try o; match r with Some p => Some (Some p) | None => search try l sos' end
  end.

(** The loops of the two coarse variants: a block that is out of the map, mostly taken or
    not usable is passed over, in the others the first 64 offsets of the entry are tried. *)
Fixpoint search_low (e : SiteEnv) (b : SBlockingMap) (notIgnore : Z) (center : int2) (try : SSearchOffset -> option (option site))
    (tl : list SSearchOffsetLow) (sos : list nat) : option (option site) :=
  match sos with
  | [] => Some None
  | so :: sos' =>
      ol ← tl !! so;
      let x := center.1 + dxLow ol in let z := center.2 + dyLow ol in
      skip ← (if negb (IsInBoundsLow b x z) then Some true else IsBlockedLow b x z notIgnore);
      ok ← (if (skip : bool) then Some false else CanBeBuiltAtSafe e ((x * 2 + 1) * 8 * GRID_RATIO_LOW) ((z * 2 + 1) * 8 * GRID_RATIO_LOW));
      if negb ok then search_low e b notIgnore center try tl sos'
      else
        r ← search try (ofs ol) (seq 0 64);
        match r with Some p => Some (Some p) | None => search_low e b notIgnore center try tl sos' end
  end.

(** ** The search *)

(** [int(v / n)]. *)
Definition int_div (v : float) (n : Z) : option Z := ftrunc (SFdiv 24 128 v (float_of_Z n)).

Definition corner_of (pos : float * float) (size : int2) : option int2 :=
  x ← int_div pos.1 16; z ← int_div pos.2 16; Some (x - size.1 ÷ 2, z - size.2 ÷ 2).

Definition center_of (pos : float * float) : option int2 := x ← int_div pos.1 128; z ← int_div pos.2 128; Some (x, z).

Definition FindBuildSitePlain (e : SiteEnv) (b : SBlockingMap) (usize : int2) (pos : float * float) (searchRadius : float) (d : facing)
    (isIgnore : bool) (t : SearchTables) : option (SearchTables * option site) :=
  let size := turned_odd d (half2 usize) in
  let notIgnore := if isIgnore then StructMask_NONE else StructMask_ALL in
  endr ← int_div searchRadius 16;
  let t := GetSearchOffsetTable endr t in
  corner ← corner_of pos size;
  r ← search (try_plain e b notIgnore corner size) (searchOffsets t) (seq 0 (Z.to_nat (endr * endr * 4)));
  Some (t, r).

Definition FindBuildSiteLow (e : SiteEnv) (b : SBlockingMap) (usize : int2) (pos : float * float) (searchRadius : float) (d : facing)
    (t : SearchTables) : option (SearchTables * option site) :=
  let size := turned_odd d (half2 usize) in
  endr ← int_div searchRadius 16;
  t ← GetSearchOffsetTableLow endr t;
  let endrLow := endr ÷ GRID_RATIO_LOW in
  center ← center_of pos;
  corner ← corner_of pos size;
  r ← search_low e b StructMask_ALL center (try_plain e b StructMask_ALL corner size) (searchOffsetsLow t)
        (seq 0 (Z.to_nat (endrLow * endrLow * 4)));
  Some (t, r).

Definition FindBuildSiteByMask (e : SiteEnv) (b : SBlockingMap) (usize : int2) (pos : float * float) (searchRadius : float) (d : facing)
    (m : IBlockMask) (t : SearchTables) : option (SearchTables * option site) :=
  let size := turned d (half2 usize) in
  endr ← int_div searchRadius 16;
  let t := GetSearchOffsetTable endr t in
  corner ← corner_of pos size;
  r ← search (try_mask e b d m corner size) (searchOffsets t) (seq 0 (Z.to_nat (endr * endr * 4)));
  Some (t, r).

Definition FindBuildSiteByMaskLow (e : SiteEnv) (b : SBlockingMap) (usize : int2) (pos : float * float) (searchRadius : float) (d : facing)
    (m : IBlockMask) (t : SearchTables) : option (SearchTables * option site) :=
  let size := turned d (half2 usize) in
  endr ← int_div searchRadius 16;
  t ← GetSearchOffsetTableLow endr t;
  let endrLow := endr ÷ GRID_RATIO_LOW in
  corner ← corner_of pos size;
  center ← center_of pos;
  r ← search_low e b (u16 (Z.lnot (ignoreMask m))) center (try_mask e b d m corner size) (searchOffsetsLow t)
        (seq 0 (Z.to_nat (endrLow * endrLow * 4)));
  Some (t, r).

(** The allies as the search sees them: whether it looks at them, and this frame's. *)
Record AllyView := { isAllyAware : bool; av_team : Z; av_frame : Z; av_friendlies : list (Z * AllyUnit) }.

(** [pos]: the coordinates the search starts from, x and z. *)
Definition FindBuildSite (v : AllyView) (e : SiteEnv) (def : BuildDef) (pos : float * float) (searchRadius : float) (d : facing)
    (isIgnore isHighRes : bool) (t : SearchTables) (tm : TerrainManager) : option (SearchTables * TerrainManager * option site) :=
  tm ← (if isAllyAware v then MarkAllyBuildings (av_team v) (av_frame v) (av_friendlies v) tm else Some tm);
  let b := blockingMap tm in
  let usize := def_usize def in
  let isFar := flt (float_of_Z 1600) searchRadius in
  r ← match def_mask def with
      | Some m =>
          if negb isHighRes && (isFar || (256 <? xsize m * zsize m))
          then FindBuildSiteByMaskLow e b usize pos searchRadius d m t
          else FindBuildSiteByMask e b usize pos searchRadius d m t
      | None =>
          if isFar then FindBuildSiteLow e b usize pos searchRadius d t
          else FindBuildSitePlain e b usize pos searchRadius d isIgnore t
      end;
  Some (r.1, tm, r.2).

End Search.

(** * The tables *)

Definition shifted (radius shift : Z) (x y : Z) : SSearchOffset := offset_at (x - radius + shift) (y - radius + shift).

Lemma write_offsets_table (radius shift : Z) (l : list SSearchOffset) :
  0 <= radius -> length l = Z.to_nat (radius * radius * 4) ->
  write_offsets radius shift l = table (shifted radius shift) (radius * 2) (radius * 2).
Proof. intros Hr Hl. apply (writes_table (shifted radius shift)); [lia..|]. rewrite Hl. f_equal. lia. Qed.

Lemma elem_of_table {A} (f : Z -> Z -> A) (c r : Z) (a : A) :
  0 <= c -> 0 <= r -> a ∈ table f c r <-> exists x z, 0 <= x < c /\ 0 <= z < r /\ a = f x z.
Proof.
  intros Hc Hr. unfold table. rewrite list_elem_of_fmap. setoid_rewrite elem_of_seqZ. split.
  - intros (i & -> & Hi). assert (0 < c) by nia. exists (i mod c), (i / c). split; [apply Z.mod_pos_bound; lia|].
    split; [split; [apply Z.div_pos|apply Z.div_lt_upper_bound]; lia|done].
  - intros (x & z & Hx & Hz & ->). exists (z * c + x). assert (Hp : 0 <= z * c + x) by nia.
    destruct (proj2 (table_index c x z _ Hx Hp) eq_refl) as [-> ->]. split; [done|nia].
Qed.

Lemma length_table {A} (f : Z -> Z -> A) (c r : Z) : length (table f c r) = Z.to_nat (c * r).
Proof. unfold table. by rewrite length_fmap, length_seqZ. Qed.

Lemma NoDup_table {A} (f : Z -> Z -> A) (c r : Z) :
  0 <= c -> (forall x z x' z', f x z = f x' z' -> x = x' /\ z = z') -> NoDup (table f c r).
Proof.
  intros Hc Hf. unfold table. destruct (decide (c = 0)) as [->|]; [rewrite Z.mul_0_l; constructor|].
  apply NoDup_fmap_2_strong; [|apply NoDup_seqZ]. intros i j Hi%elem_of_seqZ Hj%elem_of_seqZ [E1 E2]%Hf.
  rewrite (Z_div_mod_eq_full i c), (Z_div_mod_eq_full j c). congruence.
Qed.

(** A table holds the offsets of a square, by distance. *)
Definition offsets_wf (R : Z) (l : list SSearchOffset) : Prop :=
  l ≡ₚ table (shifted R 0) (R * 2) (R * 2) /\ StronglySorted (fun a b => qdist a <= qdist b) l.

Lemma offsets_length (R : Z) (l : list SSearchOffset) : offsets_wf R l -> length l = Z.to_nat (R * R * 4).
Proof. intros [Hp _]. rewrite Hp, length_table. f_equal. lia. Qed.

Lemma offset_in (R : Z) (l : list SSearchOffset) (x y : Z) : 0 <= R -> offsets_wf R l -> -R <= x < R -> -R <= y < R -> offset_at x y ∈ l.
Proof.
  intros HR [Hp _] Hx Hy. rewrite Hp. apply elem_of_table; [lia..|]. exists (x + R), (y + R). split; [lia|]. split; [lia|].
  unfold shifted. f_equal; lia.
Qed.

Lemma offset_form (R : Z) (l : list SSearchOffset) (o : SSearchOffset) :
  0 <= R -> offsets_wf R l -> o ∈ l -> o = offset_at (dx o) (dy o) /\ -R <= dx o < R /\ -R <= dy o < R.
Proof.
  intros HR [Hp _]. rewrite Hp. intros (x & y & Hx & Hy & ->)%elem_of_table; [|lia..]. cbn. split; [done|]. lia.
Qed.

Lemma offsets_NoDup (R : Z) (l : list SSearchOffset) : 0 <= R -> offsets_wf R l -> NoDup l.
Proof. intros HR [Hp _]. rewrite Hp. apply NoDup_table; [lia|]. intros x z x' z' [= E1 E2 _]. lia. Qed.

Lemma near_bounds (x y r : Z) : 0 <= r -> x * x + y * y < r * r -> -r < x < r /\ -r < y < r.
Proof. intros Hr Hq. nia. Qed.

(** Every offset nearer than [r] is among the first [4 r r] entries of a table of a
    square no smaller: those offsets are all in the square of [r]. *)
Lemma near_first (R r x y : Z) (l : list SSearchOffset) :
  0 <= r <= R -> offsets_wf R l -> x * x + y * y < r * r -> exists i, l !! i = Some (offset_at x y) /\ (i < Z.to_nat (r * r * 4))%nat.
Proof.
  intros Hr Hl Hq. assert (Hin : offset_at x y ∈ l) by (destruct (near_bounds x y r) as [Hx Hy]; [lia|done|]; apply (offset_in R); [lia|done|lia|lia]).
  apply list_elem_of_lookup in Hin as [i Hi]. exists i. split; [done|].
  assert (Hsub : take (S i) l ⊆+ table (shifted r 0) (r * 2) (r * 2)).
  { apply NoDup_submseteq; [eapply sublist_NoDup; [apply (offsets_NoDup R l); [lia|done]|apply sublist_take]|].
    intros o [j [Hj Hlt]%lookup_take_Some]%list_elem_of_lookup.
    assert (Hq' : qdist o < r * r).
    { destruct (decide (qdist o < r * r)) as [|Hge]; [done|]. exfalso.
      pose proof (sorted_prefix qdist l j i o (offset_at x y) (proj2 Hl) Hj Hi ltac:(cbn; lia)). lia. }
    destruct (offset_form R l o) as [Eo _]; [lia|done|by eapply list_elem_of_lookup_2|]. destruct o as [ox oy oq]. cbn in *. injection Eo as ->.
    destruct (near_bounds ox oy r) as [Hx Hy]; [lia|done|].
    apply elem_of_table; [lia..|]. exists (ox + r), (oy + r). split; [lia|]. split; [lia|]. unfold shifted.
    replace (ox + r - r + 0) with ox by lia. by replace (oy + r - r + 0) with oy by lia. }
  apply submseteq_length in Hsub. rewrite length_table, length_take in Hsub. apply lookup_lt_Some in Hi. lia.
Qed.

Section Tables.
Context `{StdSort}.

Lemma GetSearchOffsetTable_wf (R radius : Z) (t : SearchTables) :
  0 <= R -> 0 <= radius < 32768 -> offsets_wf R (searchOffsets t) ->
  offsets_wf (R `max` radius) (searchOffsets (GetSearchOffsetTable radius t)) /\
  searchOffsetsLow (GetSearchOffsetTable radius t) = searchOffsetsLow t.
Proof.
  intros HR Hr Hw. unfold GetSearchOffsetTable. pose proof (offsets_length R _ Hw) as Hlen.
  assert (Hu : u32 (radius * radius * 4) = radius * radius * 4) by (apply u32_small; nia). rewrite Hu, Hlen.
  destruct (Z.ltb_spec (Z.of_nat (Z.to_nat (R * R * 4))) (radius * radius * 4)) as [Hlt|Hge]; (split; [|done]).
  - rewrite Z.max_r by nia. cbn. split; [|apply sort_key_sorted]. rewrite sort_key_perm.
    rewrite write_offsets_table; [done|lia|]. by rewrite length_resize.
  - by rewrite Z.max_l by nia.
Qed.

(** An entry of the coarse table has its 64 offsets. *)
Definition entry_ok (ol : SSearchOffsetLow) : Prop :=
  (64 <= length (ofs ol))%nat /\ -32768 <= dxLow ol < 32768 /\ -32768 <= dyLow ol < 32768.

Definition low_wf (tl : list SSearchOffsetLow) : Prop :=
  exists R, 0 <= R /\ length tl = Z.to_nat (R * R * 4) /\ Forall entry_ok tl.

#[local] Instance low_wf_perm : Proper ((≡ₚ) ==> iff) low_wf.
Proof. intros l l' E. unfold low_wf. by setoid_rewrite E. Qed.

Lemma length_block_cells (xl zl : Z) : length (block_cells xl zl) = 64%nat.
Proof. reflexivity. Qed.

Lemma block_cells_bounds (xl zl x z n : Z) : (x, z) ∈ block_cells xl zl -> 0 <= xl < n -> 0 <= zl < n -> 0 <= x < 8 * n /\ 0 <= z < 8 * n.
Proof. intros [<- <-]%elem_of_block Hx Hz. Z.div_mod_to_equations. lia. Qed.

(** The entries of the cells visited have their offsets, the others are as before. *)
Lemma fill_low_ok (radius rl : Z) (offsets : list SSearchOffset) (cs : list int2) (tl : list SSearchOffsetLow) :
  0 <= rl < 32768 -> 8 * rl <= radius -> length offsets = Z.to_nat (radius * radius * 4) -> length tl = Z.to_nat (rl * rl * 4) ->
  (forall x z, (x, z) ∈ cs -> 0 <= x < rl * 2 /\ 0 <= z < rl * 2) ->
  exists tl', fill_low radius rl offsets cs tl = Some tl' /\ length tl' = length tl /\
    forall i ol, tl' !! i = Some ol -> entry_ok ol \/ (tl !! i = Some ol /\ forall c, c ∈ cs -> i <> Z.to_nat (c.2 * (rl * 2) + c.1)).
Proof.
  intros Hrl Hr Ho. revert tl. induction cs as [|[x z] cs IH]; intros tl Hl Hcs.
  { exists tl. split; [done|]. split; [done|]. intros i ol Hi. right. split; [done|]. intros c Hc. by apply elem_of_nil in Hc. }
  destruct (Hcs x z ltac:(constructor)) as [Hx Hz]. cbn [fill_low fst snd].
  destruct (lookup_lt_is_Some_2 tl (Z.to_nat (z * (rl * 2) + x))) as [il Hil]; [nia|]. rewrite Hil. cbn [mbind option_bind].
  destruct (mapM (fun q : int2 => offsets !! Z.to_nat (q.2 * (radius * 2) + q.1)) (block_cells x z)) as [new|] eqn:E; cbn [mbind option_bind].
  2:{ exfalso. apply mapM_None_1, Exists_exists in E as ([qx qz] & Hq & E). cbn in E.
      destruct (block_cells_bounds _ _ _ _ (rl * 2) Hq Hx Hz). apply lookup_ge_None_1 in E. nia. }
  pose proof (length_mapM _ _ _ E) as Hnew. rewrite length_block_cells in Hnew.
  destruct (IH (<[Z.to_nat (z * (rl * 2) + x) := {| ofs := std_sort (by_key qdist) (ofs il ++ new); dxLow := x - rl; dyLow := z - rl;
      qdistLow := (x - rl) * (x - rl) + (z - rl) * (z - rl) |}]> tl)) as (tl' & -> & Hl' & Hent); [by rewrite length_insert|..].
  { intros x' z' Hc. apply Hcs. by constructor. }
  exists tl'. rewrite Hl', length_insert. split; [done|]. split; [done|]. intros i ol Hi.
  destruct (Hent i ol Hi) as [|[Hi' Hne]]; [by left|]. apply list_lookup_insert_Some in Hi' as [(<- & <- & _)|[Hne' Hi']].
  - left. split; cbn; [|lia]. rewrite sort_key_perm, length_app. lia.
  - right. split; [done|]. intros c [->|Hc]%elem_of_cons; [cbn; congruence|by apply Hne].
Qed.

Lemma GetSearchOffsetTableLow_wf (radius : Z) (t : SearchTables) :
  0 <= radius < 32768 -> low_wf (searchOffsetsLow t) ->
  exists t', GetSearchOffsetTableLow radius t = Some t' /\ searchOffsets t' = searchOffsets t /\ low_wf (searchOffsetsLow t') /\
    (Z.to_nat ((radius ÷ 8) * (radius ÷ 8) * 4) <= length (searchOffsetsLow t'))%nat.
Proof.
  intros Hr (R & HR & Hlen & Hok). unfold GetSearchOffsetTableLow, GRID_RATIO_LOW. set (rl := radius ÷ 8).
  assert (Hrl : 0 <= rl < 32768 /\ 8 * rl <= radius) by (unfold rl; rewrite Z.quot_div_nonneg by lia; Z.div_mod_to_equations; lia).
  clearbody rl. assert (Hu : u32 (rl * rl * 4) = rl * rl * 4) by (apply u32_small; nia). rewrite Hu.
  destruct (Z.ltb_spec (Z.of_nat (length (searchOffsetsLow t))) (rl * rl * 4)) as [Hlt|Hge].
  2:{ exists t. split; [done|]. split; [done|]. split; [by exists R|lia]. }
  destruct (fill_low_ok radius rl (write_offsets radius (8 ÷ 2) (replicate (Z.to_nat (radius * radius * 4)) zero_offset)) (cells (rl * 2) (rl * 2))
      (resize (Z.to_nat (rl * rl * 4)) zero_offset_low (searchOffsetsLow t))) as (tl & -> & Hl & Hent).
  - lia.
  - lia.
  - rewrite write_offsets_table, length_table; [f_equal; lia|lia|by rewrite length_replicate].
  - by rewrite length_resize.
  - intros x z. by rewrite elem_of_cells.
  - rewrite length_resize in Hl. cbn [mbind option_bind]. eexists. split; [done|]. cbn. split; [done|]. rewrite sort_key_perm. split; [|lia].
    exists rl. split; [lia|]. split; [done|]. apply Forall_lookup. intros i ol Hi.
    destruct (Hent i ol Hi) as [|[_ Hne]]; [done|]. exfalso. apply lookup_lt_Some in Hi. rewrite Hl in Hi.
    assert (0 < rl) by nia. apply (Hne (Z.of_nat i mod (rl * 2), Z.of_nat i / (rl * 2))).
    + apply elem_of_cells. split; [apply Z.mod_pos_bound; lia|]. split; [apply Z.div_pos|apply Z.div_lt_upper_bound]; lia.
    + cbn. pose proof (Z_div_mod_eq_full (Z.of_nat i) (rl * 2)). lia.
Qed.

End Tables.

(** * Candidates *)

(** The sectors of the unit's type cover the map. *)
Definition env_wf (e : SiteEnv) (b : SBlockingMap) : Prop :=
  0 < convertStoP e /\
  match mobileSector e with
  | Some v => exists zs, length v = Z.to_nat (sectorXSize e * zs) /\
                16 * columns b <= sectorXSize e * convertStoP e /\ 16 * rows b <= zs * convertStoP e
  | None => True
  end.

Lemma CanBeBuiltAtSafe_some (e : SiteEnv) (b : SBlockingMap) (x z : Z) :
  env_wf e b -> 0 <= x < 16 * columns b -> 0 <= z < 16 * rows b -> is_Some (CanBeBuiltAtSafe e x z).
Proof.
  intros [Hc Hm] Hx Hz. unfold CanBeBuiltAtSafe. destruct (flt _ _); [done|]. unfold CanBeBuiltAt.
  destruct (mobileSector e) as [v|]; [|done]. destruct Hm as (zs & Hv & Hcols & Hrows). unfold GetSectorIndex.
  rewrite !Z.quot_div_nonneg by lia. set (i := x / convertStoP e). set (j := z / convertStoP e).
  assert (Hi : 0 <= i < sectorXSize e) by (unfold i; split; [apply Z.div_pos|apply Z.div_lt_upper_bound]; lia).
  assert (Hj : 0 <= j < zs) by (unfold j; split; [apply Z.div_pos|apply Z.div_lt_upper_bound]; lia).
  replace (sectorXSize e * j + i <? 0) with false by (symmetry; apply Z.ltb_ge; nia).
  destruct (lookup_lt_is_Some_2 v (Z.to_nat (sectorXSize e * j + i))) as [s ->]; [|done]. rewrite Hv. nia.
Qed.

Lemma all_open_spec (taken : int2 -> option bool) (cs : list int2) :
  (forall c, c ∈ cs -> is_Some (taken c)) ->
  exists k, all_open taken cs = Some k /\ (k = true <-> forall c, c ∈ cs -> taken c = Some false).
Proof.
  induction cs as [|c cs IH]; intros Hcs; cbn [all_open].
  { exists true. split; [done|]. split; [|done]. intros _ c Hc. by apply elem_of_nil in Hc. }
  destruct (Hcs c ltac:(constructor)) as [[] E]; rewrite E; cbn [mbind option_bind].
  - exists false. split; [done|]. split; [done|]. intros Hall. specialize (Hall c ltac:(constructor)). congruence.
  - destruct IH as (k & -> & Hk); [intros; apply Hcs; by constructor|]. exists k. split; [done|]. rewrite Hk. split.
    + intros Hall c' [->|Hc']%elem_of_cons; [done|by apply Hall].
    + intros Hall c' Hc'. apply Hall. by constructor.
Qed.

Lemma elem_of_rows (m1 m2 : int2) (x z : Z) : (x, z) ∈ rows_of m1 m2 <-> m1.1 <= x < m2.1 /\ m1.2 <= z < m2.2.
Proof.
  unfold rows_of. rewrite list_elem_of_bind. setoid_rewrite list_elem_of_bind. setoid_rewrite elem_of_seqZ.
  setoid_rewrite list_elem_of_singleton. split.
  - intros (z' & (x' & [= -> ->] & Hx) & Hz). lia.
  - intros [Hx Hz]. exists z. split; [|lia]. exists x. split; [done|lia].
Qed.

(** The structure's squares of a unit, with a mask or without. *)
Definition site_size (d : facing) (usize : int2) (mask0 : option IBlockMask) : int2 :=
  match mask0 with Some _ => turned d (half2 usize) | None => turned_odd d (half2 usize) end.

(** A structure whose first square is [s1] is fine there: it is inside the map, its centre
    passes every test, and on the map no square of the footprint is taken. *)
Definition acceptable (e : SiteEnv) (b : SBlockingMap) (d : facing) (usize : int2) (mask0 : option IBlockMask) (ni : Z) (s1 : int2) : Prop :=
  let s2 := add2 s1 (site_size d usize mask0) in
  let q := probe s1 s2 in
  IsInBoundsRect b s1 s2 = true /\ CanBeBuiltAtSafe e q.1 q.2 = Some true /\
  IsPossibleToBuildAt e q.1 q.2 = true /\ predicate e q.1 (GetElevationAt e q.1 q.2) q.2 = true /\
  forall x z, inside b x z ->
    match footprint_type d q usize mask0 x z with
    | STRUCT => IsBlocked b x z ni = Some false
    | BLOCK => IsStructed b x z (GetStructMask (footprint_kind mask0)) = Some false
    | OPEN => True
    end.

Definition site_of (e : SiteEnv) (q : int2) : site := (q.1, GetElevationAt e q.1 q.2, q.2).

(** What a candidate's test decides. *)
Definition decides (e : SiteEnv) (b : SBlockingMap) (d : facing) (usize : int2) (mask0 : option IBlockMask) (ni : Z) (s1 : int2)
    (r : option (option site)) : Prop :=
  (r = Some (Some (site_of e (probe s1 (add2 s1 (site_size d usize mask0))))) /\ acceptable e b d usize mask0 ni s1) \/
  (r = Some None /\ ~ acceptable e b d usize mask0 ni s1).

Lemma confirm_spec (e : SiteEnv) (q : int2) :
  (confirm e q = Some (site_of e q) /\ IsPossibleToBuildAt e q.1 q.2 = true /\ predicate e q.1 (GetElevationAt e q.1 q.2) q.2 = true) \/
  (confirm e q = None /\ ~ (IsPossibleToBuildAt e q.1 q.2 = true /\ predicate e q.1 (GetElevationAt e q.1 q.2) q.2 = true)).
Proof. unfold confirm. destruct (IsPossibleToBuildAt e q.1 q.2); [|by right; split; [|intros []]]. destruct (predicate _ _ _ _); [by left|by right; split; [|intros []]]. Qed.

Lemma in_bounds_iff (b : SBlockingMap) (r1 r2 : int2) :
  IsInBoundsRect b r1 r2 = true <-> 0 <= r1.1 /\ 0 <= r1.2 /\ r2.1 < columns b /\ r2.2 < rows b.
Proof. unfold IsInBoundsRect. rewrite !andb_true_iff, !Z.leb_le, !Z.ltb_lt. tauto. Qed.

(** The corner that marking computes from a site is the one the search tried. *)
Lemma probe_corner (s1 size : int2) :
  0 <= s1.1 -> 0 <= s1.2 -> nonneg2 size -> struct_corner (probe s1 (add2 s1 size)) size = s1.
Proof.
  destruct s1 as [x z], size as [w h]. intros Hx Hz [Hw Hh]. cbn in *. unfold struct_corner. cbn.
  f_equal; rewrite !Z.quot_div_nonneg by lia; Z.div_mod_to_equations; lia.
Qed.

Lemma site_size_nonneg (d : facing) (usize : int2) (mask0 : option IBlockMask) : nonneg2 usize -> nonneg2 (site_size d usize mask0).
Proof.
  intros [Hx Hz]. pose proof (Z.quot_pos usize.1 2). pose proof (Z.quot_pos usize.2 2).
  unfold site_size. destruct mask0, d; split; cbn; lia.
Qed.

Section Decide.
Context (e : SiteEnv) (b : SBlockingMap) (d : facing) (usize : int2).
Hypothesis (Hw : map_wf b) (He : env_wf e b) (Hu : nonneg2 usize).

Lemma IsBlocked_some (x z m : Z) : inside b x z -> is_Some (IsBlocked b x z m).
Proof using Hw. intros Hin. unfold IsBlocked. destruct (cell_at_wf b x z Hw Hin) as (c & -> & _). done. Qed.

Lemma IsStructed_some (x z m : Z) : inside b x z -> is_Some (IsStructed b x z m).
Proof using Hw. intros Hin. unfold IsStructed. destruct (cell_at_wf b x z Hw Hin) as (c & -> & _). done. Qed.

(** The centre of a structure inside the map is on the map. *)
Lemma probe_some (s1 size : int2) :
  nonneg2 size -> IsInBoundsRect b s1 (add2 s1 size) = true ->
  is_Some (CanBeBuiltAtSafe e (probe s1 (add2 s1 size)).1 (probe s1 (add2 s1 size)).2).
Proof using He.
  intros [Hx Hz] Hin%in_bounds_iff. cbn in *. apply (CanBeBuiltAtSafe_some e b); [done|lia..].
Qed.

(** The last tests of a candidate inside the map, given what the loop over its squares
    found ([k]). *)
Lemma finish_decides (mask0 : option IBlockMask) (ni : Z) (s1 : int2) (k : bool) :
  let q := probe s1 (add2 s1 (site_size d usize mask0)) in
  IsInBoundsRect b s1 (add2 s1 (site_size d usize mask0)) = true ->
  (k = true <-> forall x z, inside b x z ->
     match footprint_type d q usize mask0 x z with
     | STRUCT => IsBlocked b x z ni = Some false
     | BLOCK => IsStructed b x z (GetStructMask (footprint_kind mask0)) = Some false
     | OPEN => True
     end) ->
  (CanBeBuiltAtSafe e q.1 q.2 = Some false -> decides e b d usize mask0 ni s1 (Some None)) /\
  (k = false -> decides e b d usize mask0 ni s1 (Some None)) /\
  (CanBeBuiltAtSafe e q.1 q.2 = Some true -> k = true -> decides e b d usize mask0 ni s1 (Some (confirm e q))).
Proof using.
  intros q Hin Hk. unfold decides, acceptable. fold q. split; [|split].
  - intros E. right. split; [done|]. intros (_ & E' & _). congruence.
  - intros ->. right. split; [done|]. intros (_ & _ & _ & _ & Hsq). by apply Hk in Hsq.
  - intros E Ek. destruct (confirm_spec e q) as [(-> & H1 & H2)|[-> Hn]]; [left|right]; (split; [done|]).
    + repeat split; try done. by apply Hk.
    + intros (_ & _ & H1 & H2 & _). tauto.
Qed.

Lemma try_plain_decides (ni : Z) (corner : int2) (o : SSearchOffset) :
  decides e b d usize None ni (add2 corner (dx o, dy o)) (try_plain e b ni corner (turned_odd d (half2 usize)) o).
Proof using Hw He Hu.
  unfold try_plain. set (s1 := add2 corner (dx o, dy o)). change (turned_odd d (half2 usize)) with (site_size d usize None).
  pose proof (site_size_nonneg d usize None Hu) as Hs. set (s2 := add2 s1 (site_size d usize None)).
  destruct (IsInBoundsRect b s1 s2) eqn:Hin; cbn [negb]; [|right; split; [done|intros [E _]; unfold s2 in Hin; congruence]].
  pose proof (proj1 (in_bounds_iff b s1 s2) Hin) as Hb.
  destruct (all_open_spec (fun c => IsBlocked b c.1 c.2 ni) (rows_of s1 s2)) as (k & Hopen & Hk).
  { intros [x z] Hxz%elem_of_rows. apply IsBlocked_some. unfold inside. cbn [fst snd]. lia. }
  unfold isOpenSite. rewrite Hopen. cbn [mbind option_bind].
  destruct (finish_decides None ni s1 k Hin) as (H1 & H2 & H3).
  { rewrite Hk. cbn [footprint_type footprint_kind]. change (turned_odd d (half2 usize)) with (site_size d usize None).
    rewrite probe_corner by (tauto || done). fold s2. split.
    - intros Hall x z _. destruct (in_rect s1 s2 x z) eqn:E; [|done]. apply in_rect_iff in E. by apply (Hall (x, z)), elem_of_rows.
    - intros Hall [x z] Hxz%elem_of_rows. specialize (Hall x z). rewrite (proj2 (in_rect_iff s1 s2 x z) Hxz) in Hall.
      apply Hall. unfold inside. lia. }
  fold s2 in H1, H2, H3. destruct k; cbn [negb]; [|by apply H2]. destruct (probe_some s1 _ Hs Hin) as [[] E]; fold s2 in E; rewrite E; cbn [mbind option_bind].
  - by apply H3.
  - by apply H1.
Qed.

(** The loop over a clipped mask looks at the squares of the footprint on the map. *)
Lemma mask_open_spec (m : IBlockMask) (om : int2) :
  mask_wf (Some m) ->
  let '(m1, m2) := Bound b om (add2 om (turned d (xsize m, zsize m))) in
  exists k, isOpenMask b d m m1 m2 (sub2 m1 om) = Some k /\
    (k = true <-> forall x z, inside b x z ->
       match (if in_sizeb (turned d (xsize m, zsize m)) (x - om.1) (z - om.2) then default OPEN (GetType d m (x - om.1) (z - om.2)) else OPEN) with
       | STRUCT => IsBlocked b x z (u16 (Z.lnot (ignoreMask m))) = Some false
       | BLOCK => IsStructed b x z (GetStructMask (structType m)) = Some false
       | OPEN => True
       end).
Proof using Hw.
  intros (Hlen & _ & _). unfold Bound. cbn [fst snd]. set (ms := turned d (xsize m, zsize m)).
  set (m1 := (om.1 `max` 0, om.2 `max` 0)). set (m2 := ((add2 om ms).1 `min` columns b, (add2 om ms).2 `min` rows b)).
  assert (Hcell : forall c, c ∈ cells (m2.1 - m1.1) (m2.2 - m1.2) ->
            inside b (m1.1 + c.1) (m1.2 + c.2) /\ in_size ms (m1.1 - om.1 + c.1) (m1.2 - om.2 + c.2)).
  { intros [x z] [Hx Hz]%elem_of_cells. unfold inside, in_size, m1, m2 in *. cbn [fst snd add2] in *. lia. }
  destruct (all_open_spec (mask_taken b d m m1 (sub2 m1 om)) (cells (m2.1 - m1.1) (m2.2 - m1.2))) as (k & Hopen & Hk).
  { intros c [Hin Hs]%Hcell. unfold mask_taken. cbn [sub2 fst snd]. destruct (GetType_some d m _ _ Hlen Hs) as [ty ->]. cbn [mbind option_bind].
    destruct ty; [done|by apply IsStructed_some|by apply IsBlocked_some]. }
  exists k. split; [done|]. rewrite Hk. split.
  - intros Hall x z Hin. destruct (in_sizeb ms (x - om.1) (z - om.2)) eqn:E; [|done]. apply in_sizeb_iff in E as [Ex Ez].
    assert (Hc : (x - m1.1, z - m1.2) ∈ cells (m2.1 - m1.1) (m2.2 - m1.2)).
    { apply elem_of_cells. unfold inside, m1, m2 in *. cbn [fst snd add2] in *. lia. }
    specialize (Hall _ Hc). destruct (Hcell _ Hc) as [_ Hs]. unfold mask_taken in Hall. cbn [sub2 fst snd] in Hall, Hs.
    replace (m1.1 - om.1 + (x - m1.1)) with (x - om.1) in * by lia. replace (m1.2 - om.2 + (z - m1.2)) with (z - om.2) in * by lia.
    replace (m1.1 + (x - m1.1)) with x in Hall by lia. replace (m1.2 + (z - m1.2)) with z in Hall by lia.
    destruct (GetType_some d m _ _ Hlen Hs) as [ty E]. rewrite E in Hall |- *. cbn in Hall |- *. by destruct ty.
  - intros Hall c Hc. destruct (Hcell _ Hc) as [Hin Hs]. specialize (Hall _ _ Hin). unfold mask_taken. cbn [sub2 fst snd].
    replace (m1.1 + c.1 - om.1) with (m1.1 - om.1 + c.1) in Hall by lia. replace (m1.2 + c.2 - om.2) with (m1.2 - om.2 + c.2) in Hall by lia.
    rewrite (proj2 (in_sizeb_iff _ _ _) Hs) in Hall. destruct (GetType_some d m _ _ Hlen Hs) as [ty E]. rewrite E in Hall |- *. cbn in Hall |- *. by destruct ty.
Qed.

Lemma try_mask_decides (m : IBlockMask) (corner : int2) (o : SSearchOffset) :
  mask_wf (Some m) ->
  decides e b d usize (Some m) (u16 (Z.lnot (ignoreMask m))) (add2 corner (dx o, dy o)) (try_mask e b d m corner (turned d (half2 usize)) o).
Proof using Hw He Hu.
  intros Hm. unfold try_mask. set (s1 := add2 corner (dx o, dy o)). change (turned d (half2 usize)) with (site_size d usize (Some m)).
  pose proof (site_size_nonneg d usize (Some m) Hu) as Hs. set (s2 := add2 s1 (site_size d usize (Some m))).
  destruct (IsInBoundsRect b s1 s2) eqn:Hin; cbn [negb]; [|right; split; [done|intros [E _]; unfold s2 in Hin; congruence]].
  pose proof (proj1 (in_bounds_iff b s1 s2) Hin) as Hb.
  replace (add2 (sub2 corner (GetStructOffset d m)) (dx o, dy o)) with (sub2 s1 (GetStructOffset d m)) by (unfold s1, add2, sub2; cbn; f_equal; lia).
  pose proof (mask_open_spec m (sub2 s1 (GetStructOffset d m)) Hm) as Hopen. destruct (Bound b _ _) as [m1 m2]. destruct Hopen as (k & -> & Hk).
  destruct (finish_decides (Some m) (u16 (Z.lnot (ignoreMask m))) s1 k Hin) as (H1 & H2 & H3).
  { rewrite Hk. cbn [footprint_type footprint_kind]. change (turned d (half2 usize)) with (site_size d usize (Some m)).
    by rewrite probe_corner by (tauto || done). }
  fold s2 in H1, H2, H3. destruct (probe_some s1 _ Hs Hin) as [[] E]; fold s2 in E; rewrite E; cbn [mbind option_bind negb]; [|by apply H1].
  destruct k; [by apply H3|by apply H2].
Qed.

End Decide.

(** * The search *)

Section Loops.
Context (try : SSearchOffset -> option (option site)) (v : SSearchOffset -> site) (P : SSearchOffset -> Prop).
Hypothesis (Htry : forall o, (try o = Some (Some (v o)) /\ P o) \/ (try o = Some None /\ ~ P o)).

(** The first entry of the table that passes. *)
Definition first_of (l : list SSearchOffset) (k n : nat) (r : option site) : Prop :=
  match r with
  | Some p => exists i o, (k <= i < k + n)%nat /\ l !! i = Some o /\ p = v o /\ P o /\ forall j o', (k <= j < i)%nat -> l !! j = Some o' -> ~ P o'
  | None => forall i o, (k <= i < k + n)%nat -> l !! i = Some o -> ~ P o
  end.

Lemma search_first (l : list SSearchOffset) (k n : nat) :
  (k + n <= length l)%nat -> exists r, search try l (seq k n) = Some r /\ first_of l k n r.
Proof using Htry.
  revert k. induction n as [|n IH]; intros k Hn; cbn [seq search].
  { exists None. split; [done|]. intros i o Hi. lia. }
  destruct (lookup_lt_is_Some_2 l k) as [o Ho]; [lia|]. rewrite Ho. cbn [mbind option_bind].
  destruct (Htry o) as [[-> HP]|[-> HP]]; cbn [mbind option_bind].
  - exists (Some (v o)). split; [done|]. exists k, o. split; [lia|]. split; [done|]. split; [done|]. split; [done|]. intros j o' Hj. lia.
  - destruct (IH (S k)) as (r & -> & Hr); [lia|]. exists r. split; [done|].
    assert (Hk : forall j o', (k <= j)%nat -> l !! j = Some o' -> j = k \/ (S k <= j)%nat) by lia.
    destruct r as [p|]; cbn in Hr |- *.
    + destruct Hr as (i & o1 & Hi & Hl & Hp & HP1 & Hmin). exists i, o1. repeat split; try done; try lia.
      intros j o' Hj Hl'. destruct (Hk j o') as [->|Hj']; [lia|done|congruence|]. apply (Hmin j); [lia|done].
    + intros i o' Hi Hl'. destruct (Hk i o') as [->|Hj']; [lia|done|congruence|]. apply (Hr i); [lia|done].
Qed.

(** A coarse search returns a site that passes too, or none. *)
Lemma search_low_sound (e : SiteEnv) (b : SBlockingMap) (ni : Z) (center : int2) (tl : list SSearchOffsetLow) (sos : list nat) :
  map_wf b -> env_wf e b -> columns b < 2 ^ 31 -> rows b < 2 ^ 31 -> Forall entry_ok tl ->
  - 2 ^ 30 <= center.1 <= 2 ^ 30 -> - 2 ^ 30 <= center.2 <= 2 ^ 30 -> (forall so, so ∈ sos -> (so < length tl)%nat) ->
  exists r, search_low e b ni center try tl sos = Some r /\ forall p, r = Some p -> exists o, p = v o /\ P o.
Proof using Htry.
  intros Hw He Hcb Hrb Hok Hx Hz. pose proof (wf_cols b Hw). pose proof (wf_rows b Hw).
  induction sos as [|so sos IH]; intros Hsos; cbn [search_low]; [by exists None|].
  destruct IH as (r' & Er & Hr'); [intros; apply Hsos; by constructor|].
  destruct (lookup_lt_is_Some_2 tl so) as [ol Hol]; [apply Hsos; constructor|]. rewrite Hol. cbn [mbind option_bind].
  pose proof (proj1 (Forall_lookup _ _) Hok so ol Hol) as (Hlen & Hdx & Hdy).
  destruct (IsInBoundsLow b (center.1 + dxLow ol) (center.2 + dyLow ol)) eqn:Hin; cbn [negb mbind option_bind]; [|by exists r'].
  assert (Hlow : 0 <= center.1 + dxLow ol < columnsLow b /\ 0 <= center.2 + dyLow ol < rowsLow b).
  { unfold IsInBoundsLow in Hin. apply andb_prop in Hin as [H1%Z.ltb_lt H2%Z.ltb_lt]. unfold u32 in H1, H2.
    rewrite (Z.mod_small (columnsLow b)) in H1 by lia. rewrite (Z.mod_small (rowsLow b)) in H2 by lia.
    split; Z.div_mod_to_equations; lia. }
  destruct (low_at_wf b _ _ Hw (proj1 Hlow) (proj2 Hlow)) as (cell & Hcell & _). unfold IsBlockedLow. rewrite Hcell. cbn [mbind option_bind].
  destruct (negb _); cbn [mbind option_bind negb]; [by exists r'|].
  destruct (CanBeBuiltAtSafe_some e b ((((center.1 + dxLow ol) * 2 + 1) * 8 * GRID_RATIO_LOW)) ((((center.2 + dyLow ol) * 2 + 1) * 8 * GRID_RATIO_LOW)))
    as [ok ->]; [done|unfold GRID_RATIO_LOW; lia..|]. cbn [mbind option_bind]. destruct ok; cbn [negb]; [|by exists r'].
  destruct (search_first (ofs ol) 0 64) as (r & -> & Hr); [lia|]. cbn [mbind option_bind].
  destruct r as [p|]; [|by exists r']. exists (Some p). split; [done|]. intros p' [= <-].
  destruct Hr as (i & o & _ & _ & Hp & HP & _). by exists o.
Qed.

End Loops.

Definition tables_wf (t : SearchTables) : Prop := (exists R, 0 <= R /\ offsets_wf R (searchOffsets t)) /\ low_wf (searchOffsetsLow t).

Lemma tables_new_wf : tables_wf SearchTables_new.
Proof. split; [exists 0; split; [done|]; split; [done|constructor]|exists 0; split; [done|]; split; [done|constructor]]. Qed.

(** The kinds of blockers a unit's structure avoids. *)
Definition site_ni (mask0 : option IBlockMask) (isIgnore isFar : bool) : Z :=
  match mask0 with
  | Some m => u16 (Z.lnot (ignoreMask m))
  | None => if isFar then StructMask_ALL else if isIgnore then StructMask_NONE else StructMask_ALL
  end.

(** Whether the search is square by square. *)
Definition fine (def : BuildDef) (isFar isHighRes : bool) : bool :=
  match def_mask def with
  | Some m => negb (negb isHighRes && (isFar || (256 <? xsize m * zsize m)))
  | None => negb isFar
  end.

(** The nearest acceptable corner: no acceptable one is nearer, as far as the radius. *)
Definition nearest (ok : int2 -> Prop) (corner : int2) (radius : Z) (s1 : option int2) : Prop :=
  match s1 with
  | Some s => ok s /\ forall x y, x * x + y * y < radius * radius ->
                x * x + y * y < (s.1 - corner.1) * (s.1 - corner.1) + (s.2 - corner.2) * (s.2 - corner.2) -> ~ ok (add2 corner (x, y))
  | None => forall x y, x * x + y * y < radius * radius -> ~ ok (add2 corner (x, y))
  end.

Section Main.
Context `{StdSort}.

(** A square-by-square search over a sorted table. *)
Lemma search_nearest (try : SSearchOffset -> option (option site)) (w : int2 -> site) (ok : int2 -> Prop) (corner : int2) (radius : Z) (t : SearchTables) :
  0 <= radius < 32768 -> tables_wf t ->
  (forall o, let s1 := add2 corner (dx o, dy o) in (try o = Some (Some (w s1)) /\ ok s1) \/ (try o = Some None /\ ~ ok s1)) ->
  let t' := GetSearchOffsetTable radius t in
  tables_wf t' /\ exists s1, search try (searchOffsets t') (seq 0 (Z.to_nat (radius * radius * 4))) = Some (w <$> s1) /\ nearest ok corner radius s1.
Proof.
  intros Hr [(R & HR & Hw) Hlow] Htry t'. destruct (GetSearchOffsetTable_wf R radius t HR Hr Hw) as [Hw' El]. fold t' in Hw', El.
  assert (HR' : 0 <= R `max` radius) by lia. set (R' := R `max` radius) in *.
  split; [split; [by exists R'|by rewrite El]|].
  destruct (search_first try (fun o => w (add2 corner (dx o, dy o))) (fun o => ok (add2 corner (dx o, dy o))) Htry
              (searchOffsets t') 0 (Z.to_nat (radius * radius * 4))) as (r & -> & Hfirst).
  { rewrite (offsets_length R' _ Hw'). nia. }
  destruct r as [p|]; cbn in Hfirst.
  - destruct Hfirst as (i & o & _ & Hi & -> & Hok & Hmin). exists (Some (add2 corner (dx o, dy o))). split; [done|]. split; [done|].
    intros x y Hxy Hlt. destruct (near_first R' radius x y _ ltac:(lia) Hw' Hxy) as (j & Hj & _).
    destruct (offset_form R' _ o HR' Hw') as (Eo & _); [by eapply list_elem_of_lookup_2|].
    apply (Hmin j (offset_at x y)); [|done]. split; [lia|].
    apply (sorted_prefix qdist _ i j o _ (proj2 Hw') Hi Hj). rewrite Eo. cbn in *.
    replace (corner.1 + dx o - corner.1) with (dx o) in Hlt by lia. replace (corner.2 + dy o - corner.2) with (dy o) in Hlt by lia. lia.
  - exists None. split; [done|]. intros x y Hxy. destruct (near_first R' radius x y _ ltac:(lia) Hw' Hxy) as (j & Hj & Hlt).
    apply (Hfirst j (offset_at x y)); [lia|done].
Qed.

(** A coarse search. *)
Lemma search_coarse (try : SSearchOffset -> option (option site)) (w : int2 -> site) (ok : int2 -> Prop) (corner center : int2) (radius ni : Z)
    (e : SiteEnv) (b : SBlockingMap) (t : SearchTables) :
  0 <= radius < 32768 -> tables_wf t -> map_wf b -> env_wf e b -> columns b < 2 ^ 31 -> rows b < 2 ^ 31 ->
  - 2 ^ 30 <= center.1 <= 2 ^ 30 -> - 2 ^ 30 <= center.2 <= 2 ^ 30 ->
  (forall o, let s1 := add2 corner (dx o, dy o) in (try o = Some (Some (w s1)) /\ ok s1) \/ (try o = Some None /\ ~ ok s1)) ->
  exists t' s1, GetSearchOffsetTableLow radius t = Some t' /\ tables_wf t' /\
    search_low e b ni center try (searchOffsetsLow t') (seq 0 (Z.to_nat ((radius ÷ GRID_RATIO_LOW) * (radius ÷ GRID_RATIO_LOW) * 4))) = Some (w <$> s1) /\
    forall s, s1 = Some s -> ok s.
Proof.
  intros Hr [Ht Hlow] Hw He Hc Hrw Hcx Hcz Htry. destruct (GetSearchOffsetTableLow_wf radius t Hr Hlow) as (t' & -> & Et & Hlow' & Hlen).
  destruct (search_low_sound try _ (fun o => ok (add2 corner (dx o, dy o))) Htry e b ni center (searchOffsetsLow t')
              (seq 0 (Z.to_nat ((radius ÷ GRID_RATIO_LOW) * (radius ÷ GRID_RATIO_LOW) * 4)))) as (r & Er & Hr'); try done.
  { by destruct Hlow' as (? & _ & _ & ?). }
  { intros so Hso%elem_of_seq. unfold GRID_RATIO_LOW in Hso. lia. }
  assert (Hwf : tables_wf t') by (split; [by rewrite Et|done]).
  destruct r as [p|].
  - destruct (Hr' p eq_refl) as (o & -> & Hok). exists t', (Some (add2 corner (dx o, dy o))). split; [done|]. split; [done|]. split; [done|]. by intros s [= <-].
  - exists t', None. split; [done|]. by split.
Qed.

(** What the search needs of its inputs: finite coordinates and a radius that fit. *)
Definition inputs_ok (def : BuildDef) (d : facing) (pos : float * float) (searchRadius : float) (corner : int2) (radius : Z) : Prop :=
  corner_of pos (site_size d (def_usize def) (def_mask def)) = Some corner /\
  int_div searchRadius 16 = Some radius /\ 0 <= radius < 32768 /\
  exists c, center_of pos = Some c /\ - 2 ^ 30 <= c.1 <= 2 ^ 30 /\ - 2 ^ 30 <= c.2 <= 2 ^ 30.

Definition map_small (b : SBlockingMap) : Prop := columns b < 2 ^ 31 /\ rows b < 2 ^ 31.

Definition site_at (e : SiteEnv) (def : BuildDef) (d : facing) (s1 : int2) : site :=
  site_of e (probe s1 (add2 s1 (site_size d (def_usize def) (def_mask def)))).

Definition site_ok (e : SiteEnv) (def : BuildDef) (d : facing) (isIgnore isFar : bool) (b : SBlockingMap) : int2 -> Prop :=
  acceptable e b d (def_usize def) (def_mask def) (site_ni (def_mask def) isIgnore isFar).

(** The four variants on a map. *)
Lemma find_on_map (e : SiteEnv) (def : BuildDef) (pos : float * float) (searchRadius : float) (d : facing) (isIgnore isHighRes : bool)
    (corner : int2) (radius : Z) (t : SearchTables) (b : SBlockingMap) :
  let isFar := flt (float_of_Z 1600) searchRadius in
  map_wf b -> map_small b -> env_wf e b -> def_ok def -> tables_wf t -> inputs_ok def d pos searchRadius corner radius ->
  exists t' s1,
    match def_mask def with
    | Some m =>
        if negb isHighRes && (isFar || (256 <? xsize m * zsize m))
        then FindBuildSiteByMaskLow e b (def_usize def) pos searchRadius d m t
        else FindBuildSiteByMask e b (def_usize def) pos searchRadius d m t
    | None =>
        if isFar then FindBuildSiteLow e b (def_usize def) pos searchRadius d t
        else FindBuildSitePlain e b (def_usize def) pos searchRadius d isIgnore t
    end = Some (t', site_at e def d <$> s1) /\ tables_wf t' /\ (forall s, s1 = Some s -> site_ok e def d isIgnore isFar b s) /\
    (fine def isFar isHighRes = true -> nearest (site_ok e def d isIgnore isFar b) corner radius s1).
Proof.
  intros isFar Hw [Hc Hr] He [Hm Hu] Ht (Hcorner & Hrad & Hrange & c & Hcenter & Hcx & Hcz).
  unfold site_at, site_ok, fine. destruct (def_mask def) as [m|] eqn:Em; cbn [site_ni] in *;
    set (w := fun s1 => site_of e (probe s1 (add2 s1 (site_size _ _ _)))); set (ok := acceptable _ _ _ _ _ _); cbn [site_size] in Hcorner.
  - destruct (negb isHighRes && _); cbn [negb].
    + destruct (search_coarse (try_mask e b d m corner (turned d (half2 (def_usize def)))) w ok corner c radius (u16 (Z.lnot (ignoreMask m))) e b t
        Hrange Ht Hw He Hc Hr Hcx Hcz (fun o => try_mask_decides e b d _ Hw He Hu m corner o Hm)) as (t' & s1 & E1 & Ht' & E2 & Hs).
      exists t', s1. unfold FindBuildSiteByMaskLow. rewrite Hrad. cbn [mbind option_bind]. rewrite E1. cbn [mbind option_bind]. rewrite Hcorner. cbn [mbind option_bind].
      rewrite Hcenter. cbn [mbind option_bind]. rewrite E2. cbn [mbind option_bind]. by split.
    + destruct (search_nearest (try_mask e b d m corner (turned d (half2 (def_usize def)))) w ok corner radius t
        Hrange Ht (fun o => try_mask_decides e b d _ Hw He Hu m corner o Hm)) as [Ht' (s1 & E & Hs)].
      exists (GetSearchOffsetTable radius t), s1. unfold FindBuildSiteByMask. rewrite Hrad. cbn [mbind option_bind]. rewrite Hcorner. cbn [mbind option_bind].
      rewrite E. cbn [mbind option_bind]. split; [done|]. split; [done|]. split; [|done]. intros s ->. apply Hs.
  - destruct isFar; cbn [negb].
    + destruct (search_coarse (try_plain e b StructMask_ALL corner (turned_odd d (half2 (def_usize def)))) w ok corner c radius StructMask_ALL e b t
        Hrange Ht Hw He Hc Hr Hcx Hcz (fun o => try_plain_decides e b d _ Hw He Hu StructMask_ALL corner o)) as (t' & s1 & E1 & Ht' & E2 & Hs).
      exists t', s1. unfold FindBuildSiteLow. rewrite Hrad. cbn [mbind option_bind]. rewrite E1. cbn [mbind option_bind]. rewrite Hcenter. cbn [mbind option_bind].
      rewrite Hcorner. cbn [mbind option_bind]. rewrite E2. cbn [mbind option_bind]. by split.
    + destruct (search_nearest (try_plain e b (if isIgnore then StructMask_NONE else StructMask_ALL) corner (turned_odd d (half2 (def_usize def)))) w ok corner radius t
        Hrange Ht (fun o => try_plain_decides e b d _ Hw He Hu _ corner o)) as [Ht' (s1 & E & Hs)].
      exists (GetSearchOffsetTable radius t), s1. unfold FindBuildSitePlain. rewrite Hrad. cbn [mbind option_bind]. rewrite Hcorner. cbn [mbind option_bind].
      rewrite E. cbn [mbind option_bind]. split; [done|]. split; [done|]. split; [|done]. intros s ->. apply Hs.
Qed.

(** C27. The search for a building site finds one that is free, and the nearest: with the
    tables as earlier searches left them, on a well-formed map and with the allies of
    the frame marked first, it always ends without an access out of range; a site it
    returns is the centre of a structure inside the map, safe, usable and accepted by
    engine and caller, on which no square of the footprint is taken; and where it goes
    square by square, no acceptable corner within the radius is nearer than the one
    returned, and none exists there when it returns no site. *)
Theorem FindBuildSite_nearest (v : AllyView) (e : SiteEnv) (def : BuildDef) (pos : float * float) (searchRadius : float) (d : facing)
    (isIgnore isHighRes : bool) (corner : int2) (radius : Z) (t : SearchTables) (tm : TerrainManager) :
  terrain_ok tm -> Forall unit_ok (av_friendlies v) -> map_small (blockingMap tm) -> env_wf e (blockingMap tm) -> def_ok def -> tables_wf t ->
  inputs_ok def d pos searchRadius corner radius ->
  exists t' tm' s1,
    FindBuildSite v e def pos searchRadius d isIgnore isHighRes t tm = Some (t', tm', site_at e def d <$> s1) /\
    tables_wf t' /\ terrain_ok tm' /\
    let isFar := flt (float_of_Z 1600) searchRadius in
    (forall s, s1 = Some s -> site_ok e def d isIgnore isFar (blockingMap tm') s) /\
    (fine def isFar isHighRes = true -> nearest (site_ok e def d isIgnore isFar (blockingMap tm')) corner radius s1).
Proof.
  intros Htm Hf Hsm He Hd Ht Hin.
  assert (exists tm', (if isAllyAware v then MarkAllyBuildings (av_team v) (av_frame v) (av_friendlies v) tm else Some tm) = Some tm' /\
    terrain_ok tm' /\ same_dims (blockingMap tm) (blockingMap tm')) as (tm' & Etm & Htm' & Hdims).
  { destruct (isAllyAware v); [by apply call_total|by exists tm]. }
  destruct Hdims as (Ec & Er & _). unfold FindBuildSite. rewrite Etm. cbn [mbind option_bind].
  destruct (find_on_map e def pos searchRadius d isIgnore isHighRes corner radius t (blockingMap tm')) as (t' & s1 & E & Ht' & Hs & Hn); try done.
  { apply Htm'. } { unfold map_small. by rewrite Ec, Er. } { unfold env_wf. by rewrite Ec, Er. }
  exists t', tm', s1. rewrite E. cbn [mbind option_bind fst snd]. by split.
Qed.

End Main.

(** * From the search to the map *)

(** No structure is removed from a square that carries [BLOCK_VAL] blockers of its kind. *)
Fixpoint calm_run (os : list op) (a : Abs) : Prop :=
  match os with
  | [] => True
  | o :: os' => match o with ODelStruct x z t _ => a_n a x z t < BLOCK_VAL | _ => True end /\ calm_run os' (abs_step o a)
  end.

(** A square without a structure ignores nothing. *)
Definition clean (a : Abs) : Prop := forall x z, a_struct a x z = 0 -> a_ign a x z = 0.

Lemma calm_clean (os : list op) (a : Abs) : clean a -> calm_run os a -> clean (abs_run os a).
Proof.
  revert a. induction os as [|o os IH]; intros a Ha Hc; [done|]. destruct Hc as [Ho Hc].
  change (abs_run (o :: os) a) with (abs_run os (abs_step o a)). apply IH; [|done]. clear IH Hc. intros x' z'.
  destruct o as [x z t|x z t|x z t m|x z t m]; cbn [abs_step]; try apply Ha;
    unfold abs_AddStruct, abs_DelStruct, abs_struct; repeat case_match; cbn; unfold upd2; case_decide; try apply Ha; try done.
  - by destruct t.
  - by destruct t.
  - by destruct t.
  - by destruct t.
  - lia.
  - lia.
Qed.

Lemma legal_inside (cl rl : Z) (os : list op) (a : Abs) (o : op) : legal_run cl rl os a -> o ∈ os -> in_map cl rl (op_square o).1 (op_square o).2.
Proof.
  revert a. induction os as [|o' os IH]; intros a; [intros _ Ho; by apply elem_of_nil in Ho|]. intros [Hl Hr] [->|Ho]%elem_of_cons; [|by eapply IH].
  destruct o'; cbn in *; tauto.
Qed.

Lemma history_wf (cl rl : Z) (os : list op) (b : SBlockingMap) :
  0 <= cl -> 0 <= rl -> legal_run cl rl os Abs_new -> map_run os (SBlockingMap_new (16 * cl) (16 * rl)) = Some b ->
  map_wf b /\ columns b = 8 * cl /\ rows b = 8 * rl.
Proof.
  intros Hc Hr Hl Hrun. destruct (map_run_safe os _ (new_wf cl rl Hc Hr)) as (b' & E & Hw & Ec & Er & _).
  { intros o Ho. rewrite SBlockingMap_new_rep by done. by eapply legal_inside. }
  rewrite E in Hrun. injection Hrun as <-. rewrite Ec, Er, SBlockingMap_new_rep by done. done.
Qed.

Section Build.
Context `{StdSort}.


End Build.

(** ** Examples *)

(** Open ground, no threat, an engine that accepts everything. *)
Definition demo_env : SiteEnv :=
  {| GetBuilderThreatAt := fun _ _ => f0; mobileSector := None; immobileSector := None; sectorXSize := 4; convertStoP := 64;
     IsPossibleToBuildAt := fun _ _ => true; GetElevationAt := fun _ _ => f0; predicate := fun _ _ _ => true |}.

Definition demo_view : AllyView := {| isAllyAware := true; av_team := 0; av_frame := 1; av_friendlies := demo_first |}.
Definition demo_blind : AllyView := {| isAllyAware := false; av_team := 0; av_frame := 1; av_friendlies := [] |}.

Lemma FindBuildSite_nearest_witness :
  exists t' tm' s1, @FindBuildSite insertion_sort demo_view demo_env (demo_def 4 false false None) (float_of_Z 40, float_of_Z 40) (float_of_Z 64) SOUTH
      false false SearchTables_new demo_terrain = Some (t', tm', site_at demo_env (demo_def 4 false false None) SOUTH <$> s1) /\
    nearest (site_ok demo_env (demo_def 4 false false None) SOUTH false false (blockingMap tm')) (1, 1) 4 s1.
Proof.
  destruct (@FindBuildSite_nearest insertion_sort demo_view demo_env (demo_def 4 false false None) (float_of_Z 40, float_of_Z 40) (float_of_Z 64) SOUTH
      false false (1, 1) 4 SearchTables_new demo_terrain) as (t' & tm' & s1 & E & _ & _ & _ & Hn).
  - split; [apply (new_wf 2 2); lia|constructor].
  - repeat first [split | constructor]; vm_compute; try reflexivity; try discriminate.
  - split; vm_compute; reflexivity.
  - split; [reflexivity|exact I].
  - split; [exact I|split; cbn; lia].
  - apply tables_new_wf.
  - split; [vm_compute; reflexivity|]. split; [vm_compute; reflexivity|]. split; [lia|]. exists (0, 0). split; [vm_compute; reflexivity|]. cbn. lia.
  - exists t', tm', s1. split; [exact E|]. apply Hn. vm_compute. reflexivity.
Defined.

(** The nearest place for a solar plant beside the one an ally has. *)
Example demo_search :
  (r ← @FindBuildSite insertion_sort demo_view demo_env (demo_def 4 false false None) (float_of_Z 40, float_of_Z 40) (float_of_Z 64) SOUTH
         false false SearchTables_new demo_terrain; Some r.2) = Some (Some (64, f0, 32)).
Proof. vm_compute. reflexivity. Qed.

Definition demo_yard : BuildDef := demo_def 12 true false (Some yard).


(** ** A table that is not cleared

    When the coarse table grows, the entries it already has keep their offsets and get
    the new ones behind them: after a search of radius 8 and one of radius 16 the entry
    of a block has 128, of which the 64 the loop reads belong to more than one block. *)
Definition of_block (ol : SSearchOffsetLow) (o : SSearchOffset) : bool :=
  (8 * dxLow ol + 4 <=? dx o) && (dx o <? 8 * dxLow ol + 12) && (8 * dyLow ol + 4 <=? dy o) && (dy o <? 8 * dyLow ol + 12).

Theorem low_table_stale :
  let entries radii :=
    t ← foldl (fun t r => t ≫= @GetSearchOffsetTableLow insertion_sort r) (Some SearchTables_new) radii; Some (searchOffsetsLow t) in
  (l ← entries [16]; Some (forallb (fun ol => forallb (of_block ol) (take 64 (ofs ol))) l)) = Some true /\
  (l ← entries [8; 16]; Some (forallb (fun ol => forallb (of_block ol) (take 64 (ofs ol))) l)) = Some false /\
  (l ← entries [8; 16]; Some (length <$> (ofs <$> l))) = Some [64; 64; 64; 64; 64; 64; 64; 64; 64; 128; 64; 128; 128; 64; 64; 128]%nat.
Proof. repeat split; vm_compute; reflexivity. Qed.
