(* ===== verification/MaskHandler.v ===== *)
(** The registry that numbers names and gives each a bit (util/MaskHandler.h, .cpp),
    used for the roles, attributes and sides of units. *)

From S2P Require Import Prelude.

Record TypeMask := { type : Z; mask : Z }.

#[export] Instance TypeMask_eq_dec : EqDecision TypeMask.
Proof. solve_decision. Defined.

Record CMaskHandler := { masks : gmap string TypeMask; firstUnused : Z }.

#[export] Instance CMaskHandler_eta : Eta CMaskHandler := fun h => Build_CMaskHandler (masks h) (firstUnused h).

Definition GetMaxMasks : Z := 64.

Definition CMaskHandler_new : CMaskHandler := {| masks := ∅; firstUnused := 0 |}.

(** [masks] is left as it is. *)
Definition Init (h : CMaskHandler) : CMaskHandler := h <| firstUnused := 0 |>.

(** [firstUnused] is left as it is. *)
Definition Release (h : CMaskHandler) : CMaskHandler := h <| masks := ∅ |>.

(** [Mask GetMask(Type type) { return (1 << type); }]: the shift is one of [int], undefined
    from 32 on, and its result is widened to 64 bits with its sign. *)
Definition GetMask (t : Z) : option Z :=
  if (0 <=? t) && (t <? 32) then Some (u64 (i32 (Z.shiftl 1 t))) else None.

Definition HasType (h : CMaskHandler) (name : string) : bool := bool_decide (is_Some (masks h !! name)).

Definition no_mask : TypeMask := {| type := -1; mask := 0 |}.

Definition GetTypeMask (name : string) (h : CMaskHandler) : option (CMaskHandler * TypeMask) :=
  if decide (name = EmptyString) then Some (h, no_mask)
  else match masks h !! name with
       | Some tm => Some (h, tm)
       | None =>
           if GetMaxMasks <=? firstUnused h then Some (h, no_mask)
           else
             m ← GetMask (firstUnused h);
             let tm := {| type := firstUnused h; mask := m |} in
             Some (h <| masks ::= <[name := tm]> |> <| firstUnused ::= Z.succ |>, tm)
       end.

(** The first name of a type, in the order of the container. *)
Definition GetName (h : CMaskHandler) (t : Z) : string :=
  from_option fst EmptyString (head (filter (fun kv : string * TypeMask => t = type kv.2) (map_to_list (masks h)))).

(** The pieces of a string between the characters [c]. *)
Fixpoint split_on (c : ascii) (s : string) : list string :=
  match s with
  | EmptyString => [EmptyString]
  | String a s' =>
      if decide (a = c) then EmptyString :: split_on c s'
      else match split_on c s' with [] => [String a EmptyString] | w :: ws => String a w :: ws end
  end.

(** [while (std::getline(namesStream, name, ' '))]. *)
Fixpoint masks_loop (ws : list string) (ret : Z) (h : CMaskHandler) : option (CMaskHandler * Z) :=
  match ws with
  | [] => Some (h, ret)
  | w :: ws' =>
      if decide (w = EmptyString) then masks_loop ws' ret h
      else r ← GetTypeMask w h; masks_loop ws' (Z.lor ret (mask r.2)) r.1
  end.

Definition GetMasks (names : string) (h : CMaskHandler) : option (CMaskHandler * Z) := masks_loop (split_on " " names) 0 h.

(** [for (unsigned int bit = 1; bit != 0; bit = (bit << 1))]. *)
Fixpoint names_loop (fuel : nat) (h : CMaskHandler) (bit bits : Z) : list string :=
  match fuel with
  | O => []
  | S fuel' =>
      if bit =? 0 then []
      else (if Z.land bit bits =? 0 then []
            else fst <$> filter (fun kv : string * TypeMask => mask kv.2 = bit) (map_to_list (masks h)))
           ++ names_loop fuel' h (u32 (Z.shiftl bit 1)) bits
  end.

(** The bit leaves the word after 32 rounds. *)
Definition GetMaskNames (h : CMaskHandler) (bits : Z) : list string := names_loop 33 h 1 bits.

(** * Names and bits *)

(** Every name has a number of its own below [firstUnused], and the bit of that number. *)
Record handler_wf (h : CMaskHandler) : Prop := {
  hw_range : 0 <= firstUnused h;
  hw_type : forall n tm, masks h !! n = Some tm -> n <> EmptyString /\ 0 <= type tm < firstUnused h /\ GetMask (type tm) = Some (mask tm);
  hw_inj : forall n n' tm tm', masks h !! n = Some tm -> masks h !! n' = Some tm' -> type tm = type tm' -> n = n';
}.

Lemma new_handler_wf : handler_wf CMaskHandler_new.
Proof. split; [done|intros n tm H|intros n n' tm tm' H]; cbn [CMaskHandler_new masks] in H; by rewrite lookup_empty in H. Qed.

Lemma GetMask_bit (t : Z) : 0 <= t < 31 -> GetMask t = Some (2 ^ t).
Proof.
  intros Ht. unfold GetMask. replace ((0 <=? t) && (t <? 32)) with true by lia. rewrite Z.shiftl_1_l.
  assert (1 <= 2 ^ t < 2 ^ 31) by (split; [|apply Z.pow_lt_mono_r; lia]; pose proof (Z.pow_pos_nonneg 2 t); lia).
  rewrite i32_small, u64_small by lia. done.
Qed.

(** A lookup extends the registry and keeps what it has. *)
Definition extends (h h' : CMaskHandler) : Prop := masks h ⊆ masks h' /\ firstUnused h <= firstUnused h'.

#[export] Instance extends_preorder : PreOrder extends.
Proof. split; [by split|]. intros a b c [H1 H2] [H3 H4]. split; [by etrans|lia]. Qed.

Lemma GetTypeMask_step (name : string) (h : CMaskHandler) :
  handler_wf h -> firstUnused h < 32 ->
  exists h' tm, GetTypeMask name h = Some (h', tm) /\ handler_wf h' /\ extends h h' /\ firstUnused h' <= firstUnused h + 1 /\
    (name <> EmptyString -> masks h' !! name = Some tm) /\ (forall n, is_Some (masks h' !! n) -> is_Some (masks h !! n) \/ n = name).
Proof.
  intros Hw Hlt. unfold GetTypeMask. destruct (decide (name = EmptyString)) as [->|Hne].
  { exists h, no_mask. split; [done|]. split; [done|]. split; [done|]. split; [lia|]. split; [done|auto]. }
  destruct (masks h !! name) as [tm|] eqn:E.
  { exists h, tm. split; [done|]. split; [done|]. split; [done|]. split; [lia|]. split; [done|auto]. }
  pose proof (hw_range h Hw). unfold GetMaxMasks. replace (64 <=? firstUnused h) with false by lia.
  unfold GetMask at 1. replace ((0 <=? firstUnused h) && (firstUnused h <? 32)) with true by lia. cbn [mbind option_bind].
  eexists _, _. split; [done|]. cbn. split; [|split; [|split; [lia|split]]].
  - split; cbn; [lia| |].
    + intros n tm. rewrite lookup_insert_Some. intros [[<- <-]|[Hn Htm]].
      * cbn. split; [done|]. split; [lia|]. unfold GetMask. by replace ((0 <=? firstUnused h) && (firstUnused h <? 32)) with true by lia.
      * destruct (hw_type h Hw n tm Htm) as (H1 & H2 & H3). split; [done|]. split; [lia|done].
    + intros n n' tm tm'. rewrite !lookup_insert_Some. intros [[<- <-]|[Hn Htm]] [[<- <-]|[Hn' Htm']] Et; cbn in Et; try done.
      * destruct (hw_type h Hw n' tm' Htm') as (_ & ? & _). lia.
      * destruct (hw_type h Hw n tm Htm) as (_ & ? & _). lia.
      * by eapply (hw_inj h Hw).
  - split; cbn; [by apply insert_subseteq|lia].
  - intros _. by rewrite lookup_insert_eq.
  - intros n. rewrite lookup_insert_is_Some'. naive_solver.
Qed.

Definition words (names : string) : list string := filter (fun w => w <> EmptyString) (split_on " " names).

(** The bits of a list of names, each looked up in turn. *)
Lemma masks_loop_step (ws : list string) (ret : Z) (h : CMaskHandler) :
  handler_wf h -> firstUnused h + size_of ws <= 32 ->
  exists h' bits, masks_loop ws ret h = Some (h', bits) /\ handler_wf h' /\ extends h h' /\ firstUnused h' <= firstUnused h + size_of ws /\
    (forall w, w ∈ ws -> w <> EmptyString -> is_Some (masks h' !! w)) /\
    (forall i, 0 <= i -> Z.testbit bits i = true <->
       Z.testbit ret i = true \/ exists w tm, w ∈ ws /\ w <> EmptyString /\ masks h' !! w = Some tm /\ Z.testbit (mask tm) i = true).
Proof.
  revert ret h. induction ws as [|w ws IH]; intros ret h Hw Hn; unfold size_of in *; cbn [length] in Hn; cbn [masks_loop].
  { exists h, ret. split; [done|]. split; [done|]. split; [done|]. split; [lia|]. split; [intros w Hin; by apply elem_of_nil in Hin|].
    intros i Hi. split; [auto|]. intros [|(w & tm & Hin & _)]; [done|by apply elem_of_nil in Hin]. }
  destruct (decide (w = EmptyString)) as [->|Hne].
  - destruct (IH ret h) as (h' & bits & E & Hw' & Hx & Hf & Hin & Hb); [done|lia|]. exists h', bits. split; [done|]. split; [done|]. split; [done|].
    split; [cbn [length]; lia|]. split; [intros w [->|Hw1]%elem_of_cons; [done|by apply Hin]|].
    intros i Hi. rewrite (Hb i Hi). setoid_rewrite elem_of_cons. naive_solver.
  - destruct (GetTypeMask_step w h Hw) as (h1 & tm & -> & Hw1 & Hx1 & Hf1 & Htm & _); [lia|]. cbn [mbind option_bind fst snd].
    destruct (IH (Z.lor ret (mask tm)) h1) as (h' & bits & E & Hw' & Hx & Hf & Hin & Hb); [done|lia|]. exists h', bits. split; [done|]. split; [done|].
    split; [by etrans|]. split; [cbn [length]; lia|]. specialize (Htm Hne). assert (Htm' : masks h' !! w = Some tm) by (eapply lookup_weaken; [done|apply Hx]).
    split; [intros w' [->|Hw2]%elem_of_cons; [by eexists|by apply Hin]|].
    intros i Hi. rewrite (Hb i Hi), Z.lor_spec, orb_true_iff. setoid_rewrite elem_of_cons. split.
    + intros [[Hr|Hm]|(w' & tm' & H1 & H2)]; [by left|right; exists w, tm; auto|right; exists w', tm'; naive_solver].
    + intros [Hr|(w' & tm' & [->|H1] & H2 & H3 & H4)]; [auto| |right; exists w', tm'; auto]. left. right. congruence.
Qed.

(** The loop over the bits lists the names whose bit is set, each once. *)
Lemma names_loop_spec (fuel : nat) (k : Z) (h : CMaskHandler) (bits : Z) (n : string) :
  0 <= k <= 32 -> k + Z.of_nat fuel = 33 ->
  n ∈ names_loop fuel h (if k =? 32 then 0 else 2 ^ k) bits <->
  exists i tm, k <= i < 32 /\ Z.testbit bits i = true /\ masks h !! n = Some tm /\ mask tm = 2 ^ i.
Proof.
  revert k. induction fuel as [|fuel IH]; intros k Hk Hf; cbn [names_loop]; [lia|].
  destruct (Z.eqb_spec k 32) as [->|Hne].
  { cbn. split; [intros Hn; by apply elem_of_nil in Hn|]. intros (i & tm & Hi & _). lia. }
  assert (Hpos : 0 < 2 ^ k) by (apply Z.pow_pos_nonneg; lia). replace (2 ^ k =? 0) with false by lia.
  assert (Hnext : u32 (Z.shiftl (2 ^ k) 1) = if k + 1 =? 32 then 0 else 2 ^ (k + 1)).
  { rewrite Z.shiftl_mul_pow2, <- Z.pow_add_r by lia. destruct (Z.eqb_spec (k + 1) 32) as [->|]; [done|].
    apply u32_small. split; [apply Z.pow_nonneg; lia|apply Z.pow_lt_mono_r; lia]. }
  rewrite Hnext, elem_of_app, IH by lia.
  assert (Hland : (Z.land (2 ^ k) bits =? 0) = negb (Z.testbit bits k)).
  { destruct (Z.testbit bits k) eqn:E; cbn.
    - apply Z.eqb_neq. intros E0. apply (f_equal (fun z => Z.testbit z k)) in E0. rewrite Z.land_spec, Z.pow2_bits_true, E, Z.bits_0 in E0 by lia. done.
    - apply Z.eqb_eq. apply Z.bits_inj'. intros j Hj. rewrite Z.land_spec, Z.bits_0. destruct (decide (j = k)) as [->|]; [by rewrite E, andb_false_r|].
      rewrite Z.pow2_bits_false by lia. done. }
  rewrite Hland. split.
  - intros [Hn|(i & tm & Hi & H1 & H2 & H3)]; [|exists i, tm; split; [lia|done]]. destruct (Z.testbit bits k) eqn:E; cbn in Hn; [|by apply elem_of_nil in Hn].
    apply list_elem_of_fmap in Hn as ([n' tm] & -> & [Hm Hin]%list_elem_of_filter). exists k, tm. split; [lia|]. split; [done|].
    split; [by apply elem_of_map_to_list|done].
  - intros (i & tm & Hi & H1 & H2 & H3). destruct (decide (i = k)) as [->|]; [|right; exists i, tm; split; [lia|done]].
    left. rewrite H1. cbn. apply list_elem_of_fmap. exists (n, tm). split; [done|]. apply list_elem_of_filter. split; [done|]. by apply elem_of_map_to_list.
Qed.

(** Names survive the way into a bit field and back: in a registry with room (at most
    31 names in the end), looking up the words of a string gives a field of bits from
    which the names of exactly these words come back; no word is lost and no other
    name appears, every name keeps its number, and different names have disjoint bits. *)
Theorem mask_names_roundtrip (names : string) (h : CMaskHandler) :
  handler_wf h -> firstUnused h + size_of (split_on " " names) <= 31 ->
  exists h' bits, GetMasks names h = Some (h', bits) /\ handler_wf h' /\ masks h ⊆ masks h' /\
    (forall n, n ∈ GetMaskNames h' bits <-> n ∈ words names) /\
    (forall n n' tm tm', masks h' !! n = Some tm -> masks h' !! n' = Some tm' -> n <> n' -> Z.land (mask tm) (mask tm') = 0).
Proof.
  intros Hw Hn. destruct (masks_loop_step (split_on " " names) 0 h Hw) as (h' & bits & E & Hw' & [Hx _] & Hf & Hin & Hb); [lia|].
  exists h', bits. split; [done|]. split; [done|]. split; [done|].
  assert (Hbit : forall n tm, masks h' !! n = Some tm -> mask tm = 2 ^ type tm /\ 0 <= type tm < 31).
  { intros n tm Htm. destruct (hw_type h' Hw' n tm Htm) as (_ & Hr & Hm). rewrite GetMask_bit in Hm by lia. split; [congruence|lia]. }
  split.
  - intros n. unfold GetMaskNames. change 1 with (if 0 =? 32 then 0 else 2 ^ 0) at 1. rewrite names_loop_spec by lia.
    unfold words. rewrite list_elem_of_filter. split.
    + intros (i & tm & Hi & Hbi & Htm & Hm). apply Hb in Hbi as [Hbi|(w & tm' & Hw1 & Hne & Htm' & Hm')]; [by rewrite Z.bits_0 in Hbi| |lia].
      destruct (Hbit n tm Htm) as [E1 R1], (Hbit w tm' Htm') as [E2 R2]. rewrite E2 in Hm'.
      rewrite Z.pow2_bits_eqb in Hm' by lia. assert (type tm = i) by (apply (Z.pow_inj_r 2); lia).
      rewrite (hw_inj h' Hw' n w tm tm' Htm Htm') by lia. done.
    + intros [Hne Hw1]. destruct (Hin n Hw1 Hne) as [tm Htm]. destruct (Hbit n tm Htm) as [E1 R1]. exists (type tm), tm. split; [lia|].
      split; [|done]. apply Hb; [lia|]. right. exists n, tm. rewrite E1, Z.pow2_bits_true by lia. done.
  - intros n n' tm tm' Htm Htm' Hne. destruct (Hbit n tm Htm) as [-> R1], (Hbit n' tm' Htm') as [-> R2].
    apply Z.bits_inj'. intros j Hj. rewrite Z.land_spec, Z.bits_0, !Z.pow2_bits_eqb by lia.
    destruct (Z.eqb_spec (type tm) j), (Z.eqb_spec (type tm') j); try done. exfalso. apply Hne. apply (hw_inj h' Hw' n n' tm tm'); [done|done|lia].
Qed.

Lemma mask_names_roundtrip_witness :
  exists h' bits, GetMasks "scout raider  scout" CMaskHandler_new = Some (h', bits) /\ bits = 3 /\
    ("raider"%string ∈ GetMaskNames h' bits <-> "raider"%string ∈ words "scout raider  scout").
Proof.
  destruct (mask_names_roundtrip "scout raider  scout" CMaskHandler_new) as (h' & bits & E & _ & _ & Hn & _).
  - apply new_handler_wf.
  - vm_compute. discriminate.
  - exists h', bits. split; [exact E|]. split; [|apply Hn].
    assert (H : (r ← GetMasks "scout raider  scout" CMaskHandler_new; Some r.2) = Some 3) by (vm_compute; reflexivity).
    rewrite E in H. injection H as H. exact H.
Defined.

(** ** The limit

    64 names are promised, and 31 work: the 32nd gets the sign bit of an [int] and all the
    bits above, which [GetMaskNames] never matches, and the 33rd a shift that is
    undefined. *)
Fixpoint register (n : nat) (h : CMaskHandler) : option CMaskHandler :=
  match n with O => Some h | S n' => h' ← register n' h; r ← GetTypeMask (pretty n') h'; Some r.1 end.

Theorem mask_limit :
  GetMaxMasks = 64 /\ register 33 CMaskHandler_new = None /\
  exists h m, register 32 CMaskHandler_new = Some h /\ masks h !! (pretty 31%nat) = Some {| type := 31; mask := m |} /\
    m = 2 ^ 64 - 2 ^ 31 /\ GetMaskNames h m = [].
Proof.
  split; [done|]. split; [vm_compute; reflexivity|]. eexists _, _. split; [vm_compute; reflexivity|]. split; [vm_compute; reflexivity|].
  split; vm_compute; reflexivity.
Qed.
