(* ===== verification/AvailList.v ===== *)
(** The list of unit definitions a manager can build now, best first (util/AvailList.h).

    A [CCircuitDef*] is its address, 0 the null pointer; [T] is the data a manager keeps
    with a definition, [T0] a value-initialised one. *)

From S2P Require Import Prelude Float32 StdSort.

Section AvailList.
Context {T : Type} (T0 : T) `{StdSort}.

Record SAvailInfo := { cdef : Z; score : float; data : T }.

Record CAvailList := {
  allInfos : gmap Z SAvailInfo;
  all : gset Z;
  avail : gset Z;
  infos : list SAvailInfo;
  builderInfos : gmap Z (list Z);
  scoreFunc : Z -> float * T;
}.

#[local] Instance CAvailList_eta : Eta CAvailList := fun l =>
  Build_CAvailList (allInfos l) (all l) (avail l) (infos l) (builderInfos l) (scoreFunc l).

Definition CAvailList_new (f : Z -> float * T) : CAvailList :=
  {| allInfos := ∅; all := ∅; avail := ∅; infos := []; builderInfos := ∅; scoreFunc := f |}.

(** [e1.score > e2.score]. *)
Definition higher (e1 e2 : SAvailInfo) : bool := flt (score e2) (score e1).

Definition AddDef (d : Z) (l : CAvailList) : CAvailList := l <| all ::= union {[d]} |>.

Definition info_of (f : Z -> float * T) (d : Z) : SAvailInfo := {| cdef := d; score := (f d).1; data := (f d).2 |}.

(** The inner loop over the sorted infos: what builder [b], an identifier and what it [CanBuild], gets. *)
Definition builder_loop (xs : list SAvailInfo) (m : gmap Z (list Z)) (b : Z * (Z -> bool)) : gmap Z (list Z) :=
  foldl (fun m i => if b.2 (cdef i) then <[b.1 := default [] (m !! b.1) ++ [cdef i]]> m else m) m xs.

Definition Init (builders : list (Z * (Z -> bool))) (func : Z -> float * T) (l : CAvailList) : CAvailList :=
  let infos := info_of func <$> elements (all l) in
  let sortedInfos := std_sort higher infos in
  l <| scoreFunc := func |> <| allInfos := foldl (fun m i => <[cdef i := i]> m) (allInfos l) infos |>
    <| builderInfos := foldl (builder_loop sortedInfos) (builderInfos l) builders |>.

(** The value [allInfos[d]] default-constructs for a key that is not there. *)
Definition null_info : SAvailInfo := {| cdef := 0; score := f0; data := T0 |}.

(** [infos.push_back(allInfos[d])] for each new definition. *)
Definition push_infos (ds : list Z) (l : CAvailList) : CAvailList :=
  foldl (fun l d => let i := default null_info (allInfos l !! d) in
                    l <| allInfos ::= <[d := i]> |> <| infos ::= fun xs => xs ++ [i] |>) l ds.

Definition AddDefs (buildDefs : gset Z) (l : CAvailList) : CAvailList :=
  let newDefs := all l ∩ buildDefs in
  if decide (newDefs = ∅) then l
  else
    let diffDefs := newDefs ∖ avail l in
    if decide (diffDefs = ∅) then l
    else (push_infos (elements diffDefs) (l <| avail ::= union diffDefs |>)) <| infos ::= std_sort higher |>.

(** The loop from the end that erases. *)
Fixpoint erase_loop (i : nat) (oldDefs : gset Z) (xs : list SAvailInfo) : list SAvailInfo :=
  match i with
  | O => xs
  | S j => erase_loop j oldDefs (match xs !! j with Some x => if decide (cdef x ∈ oldDefs) then delete j xs else xs | None => xs end)
  end.

Definition RemoveDefs (buildDefs : gset Z) (l : CAvailList) : CAvailList :=
  let oldDefs := all l ∩ buildDefs in
  if decide (oldDefs = ∅) then l
  else l <| avail ::= fun a => a ∖ oldDefs |> <| infos ::= fun xs => erase_loop (length xs) oldDefs xs |>.

Definition IsAvail (l : CAvailList) (d : Z) : bool := bool_decide (d ∈ avail l).
Definition HasAvail (l : CAvailList) : bool := match infos l with [] => false | _ => true end.
Definition GetAvailInfo (l : CAvailList) (d : Z) : option T := data <$> allInfos l !! d.

(** [infos.front().cdef]; [None]: of an empty vector. *)
Definition GetFirstDef (l : CAvailList) : option Z := cdef <$> head (infos l).

Fixpoint first_where (f : Z -> T -> bool) (xs : list SAvailInfo) : option Z :=
  match xs with [] => None | i :: xs' => if f (cdef i) (data i) then Some (cdef i) else first_where f xs' end.

Definition GetBestDef (l : CAvailList) (f : Z -> T -> bool) : option Z := first_where f (infos l).
Definition GetWorstDef (l : CAvailList) (f : Z -> T -> bool) : option Z := first_where f (reverse (infos l)).

Definition GetBuildDefs (l : CAvailList) (b : Z) : list Z := default [] (builderInfos l !! b).

(** * The order of scores *)

(** Floats other than NaN by sign class, exponent and mantissa. *)
Definition fkey (f : float) : Z * Z * Z :=
  match f with
  | S754_zero _ | S754_nan => (0, 0, 0)
  | S754_infinity s => (if s then -2 else 2, 0, 0)
  | S754_finite false m e => (1, e, Zpos m)
  | S754_finite true m e => (-1, - e, Zneg m)
  end.

Definition lex_lt (k k' : Z * Z * Z) : Prop :=
  k.1.1 < k'.1.1 \/ (k.1.1 = k'.1.1 /\ (k.1.2 < k'.1.2 \/ (k.1.2 = k'.1.2 /\ k.2 < k'.2))).

Lemma flt_lex (a b : float) : a <> S754_nan -> b <> S754_nan -> flt a b = true <-> lex_lt (fkey a) (fkey b).
Proof using.
  intros Ha Hb. unfold flt, SFltb, lex_lt.
  destruct a as [sa|sa| |sa ma ea], b as [sb|sb| |sb mb eb]; try done; try destruct sa; try destruct sb; cbn; try (split; [done|lia]); try (split; [lia|done]).
  all: destruct (Z.compare_spec ea eb); try (split; [lia|done]); try (split; [done|lia]).
  all: change (Pos.compare_cont Eq ma mb) with (Pos.compare ma mb); destruct (Pos.compare_spec ma mb); cbn; split; try done; lia.
Qed.

Lemma flt_false_lex (a b : float) : a <> S754_nan -> b <> S754_nan -> flt a b = false <-> ~ lex_lt (fkey a) (fkey b).
Proof using. intros Ha Hb. rewrite <- flt_lex by done. by rewrite not_true_iff_false. Qed.

Lemma higher_weak (xs : list SAvailInfo) : Forall (fun i => score i <> S754_nan) xs -> strict_weak higher xs.
Proof using.
  intros Hf. rewrite Forall_forall in Hf. split; unfold higher.
  - intros a b Ha%Hf Hb%Hf. rewrite flt_lex, flt_false_lex by done. unfold lex_lt. lia.
  - intros a b c Ha%Hf Hb%Hf Hc%Hf. rewrite !flt_false_lex by done. unfold lex_lt. lia.
Qed.

(** * What the list holds *)

(** Every definition has been scored. *)
Definition scored (l : CAvailList) : Prop :=
  forall d, d ∈ all l -> allInfos l !! d = Some (info_of (scoreFunc l) d) /\ (scoreFunc l d).1 <> S754_nan.

(** [infos] lists the available definitions, each once, with its score, best first. *)
Definition list_wf (l : CAvailList) : Prop :=
  scored l /\ avail l ⊆ all l /\ infos l ≡ₚ info_of (scoreFunc l) <$> elements (avail l) /\ ordered higher (infos l).

Lemma erase_loop_split (old : gset Z) (pre suf : list SAvailInfo) :
  erase_loop (length pre) old (pre ++ suf) = filter (fun x => cdef x ∉ old) pre ++ suf.
Proof using.
  revert suf. induction pre as [|x pre IH] using rev_ind; intros suf; [done|]. rewrite length_app, Nat.add_comm. cbn [length Nat.add erase_loop].
  rewrite <- app_assoc. cbn [app]. rewrite list_lookup_middle by done. rewrite filter_app, filter_cons, filter_nil.
  destruct (decide (cdef x ∈ old)) as [Hin|Hin].
  - rewrite decide_False by tauto. rewrite delete_middle, IH. by rewrite app_nil_r.
  - rewrite decide_True by done. rewrite (IH (x :: suf)). by rewrite <- app_assoc.
Qed.

(** Erasing from the end keeps what is not to be removed, in order. *)
Lemma erase_loop_filter (old : gset Z) (xs : list SAvailInfo) : erase_loop (length xs) old xs = filter (fun x => cdef x ∉ old) xs.
Proof using. pose proof (erase_loop_split old xs []) as E. by rewrite !app_nil_r in E. Qed.

Lemma push_infos_scored (ds : list Z) (l : CAvailList) :
  scored l -> (forall d, d ∈ ds -> d ∈ all l) -> push_infos ds l = l <| infos ::= fun xs => xs ++ (info_of (scoreFunc l) <$> ds) |>.
Proof using.
  unfold push_infos. revert l. induction ds as [|d ds IH]; intros l Hs Hds; cbn [foldl].
  { destruct l. cbn. by rewrite app_nil_r. }
  destruct (Hs d (Hds d ltac:(constructor))) as [E _]. rewrite E. cbn [default from_option id].
  assert (El : l <| allInfos ::= <[d := info_of (scoreFunc l) d]> |> = l) by (destruct l; cbn in *; f_equal; by apply insert_id).
  rewrite El, IH; [|done|intros; apply Hds; by constructor]. destruct l. cbn. by rewrite <- app_assoc.
Qed.

Lemma elements_union_new (A B : gset Z) : A ## B -> elements (A ∪ B) ≡ₚ elements B ++ elements A.
Proof using. intros Hd. rewrite Permutation_app_comm. by apply elements_disj_union. Qed.

Lemma AddDefs_wf (B : gset Z) (l : CAvailList) :
  list_wf l -> list_wf (AddDefs B l) /\ avail (AddDefs B l) = avail l ∪ (all l ∩ B) /\ all (AddDefs B l) = all l /\ scoreFunc (AddDefs B l) = scoreFunc l.
Proof using.
  intros Hw. pose proof Hw as (Hs & Ha & Hp & Ho). unfold AddDefs. destruct (decide (all l ∩ B = ∅)) as [E|E].
  { rewrite E. split; [done|]. split; [set_solver|done]. }
  set (diff := (all l ∩ B) ∖ avail l). destruct (decide (diff = ∅)) as [Ed|Ed].
  { split; [done|]. split; [|done]. unfold diff in Ed. apply set_eq. intros d. destruct (decide (d ∈ avail l)); set_solver. }
  set (l1 := l <| avail ::= union diff |>).
  assert (Hs1 : scored l1) by exact Hs.
  rewrite push_infos_scored; [|done|intros d Hd%elem_of_elements; unfold l1; cbn; unfold diff in Hd; set_solver].
  assert (Hp1 : infos l ++ (info_of (scoreFunc l) <$> elements diff) ≡ₚ info_of (scoreFunc l) <$> elements (diff ∪ avail l)).
  { rewrite Hp, <- fmap_app. apply fmap_Permutation. symmetry. apply elements_union_new. unfold diff. set_solver. }
  assert (Hwk : strict_weak higher (infos l ++ (info_of (scoreFunc l) <$> elements diff))).
  { apply higher_weak. rewrite Hp1. apply Forall_fmap, Forall_forall. intros d Hd%elem_of_elements. cbn. apply Hs. unfold diff in Hd. set_solver. }
  cbn. split; [|split; [|done]].
  - split; [done|]. cbn. split; [unfold diff; set_solver|]. split; [rewrite std_sort_perm; [exact Hp1|exact Hwk]|by apply std_sort_ordered].
  - unfold diff. apply set_eq. intros d. destruct (decide (d ∈ avail l)); set_solver.
Qed.

Lemma ordered_filter (P : SAvailInfo -> Prop) `{!forall x, Decision (P x)} (xs : list SAvailInfo) : ordered higher xs -> ordered higher (filter P xs).
Proof using.
  induction 1 as [|x xs Hs IH Hx]; [constructor|]. rewrite filter_cons. case_decide; [|done]. constructor; [done|].
  apply Forall_forall. intros y [_ Hy]%list_elem_of_filter. rewrite Forall_forall in Hx. by apply Hx.
Qed.

Lemma RemoveDefs_wf (B : gset Z) (l : CAvailList) :
  list_wf l -> list_wf (RemoveDefs B l) /\ avail (RemoveDefs B l) = avail l ∖ (all l ∩ B) /\ all (RemoveDefs B l) = all l /\ scoreFunc (RemoveDefs B l) = scoreFunc l.
Proof using.
  intros Hw. pose proof Hw as (Hs & Ha & Hp & Ho). unfold RemoveDefs. destruct (decide (all l ∩ B = ∅)) as [E|E].
  { rewrite E. split; [done|]. split; [set_solver|done]. }
  cbn. split; [|done]. split; [done|]. cbn. split; [set_solver|]. rewrite erase_loop_filter. split; [|by apply ordered_filter].
  rewrite Hp. apply NoDup_Permutation.
  - apply NoDup_filter, NoDup_fmap_2; [intros x y; by intros [= ->]|apply NoDup_elements].
  - apply NoDup_fmap_2; [intros x y; by intros [= ->]|apply NoDup_elements].
  - intros x. rewrite list_elem_of_filter, !list_elem_of_fmap. setoid_rewrite elem_of_elements. split.
    + intros [Hx (d & -> & Hd)]. exists d. split; [done|]. cbn in Hx. set_solver.
    + intros (d & -> & Hd). split; [cbn; set_solver|]. exists d. set_solver.
Qed.

(** The definitions added before [Init]. *)
Definition with_defs (f : Z -> float * T) (ds : list Z) : CAvailList := foldr AddDef (CAvailList_new f) ds.

Lemma with_defs_spec (f : Z -> float * T) (ds : list Z) :
  all (with_defs f ds) = list_to_set ds /\ avail (with_defs f ds) = ∅ /\ infos (with_defs f ds) = [].
Proof using. unfold with_defs. induction ds as [|d ds (E1 & E2 & E3)]; [done|]. cbn. by rewrite E1, E2, E3. Qed.

Lemma allInfos_insert (xs : list SAvailInfo) (m : gmap Z SAvailInfo) (d : Z) (f : Z -> float * T) :
  (forall x, x ∈ xs -> x = info_of f (cdef x)) -> (info_of f d ∈ xs \/ m !! d = Some (info_of f d)) ->
  foldl (fun m i => <[cdef i := i]> m) m xs !! d = Some (info_of f d).
Proof using.
  revert m. induction xs as [|x xs IH]; intros m Hx Hd; cbn; [destruct Hd as [Hd|]; [by apply elem_of_nil in Hd|done]|].
  apply IH; [intros y Hy; apply Hx; by constructor|]. pose proof (Hx x ltac:(constructor)) as Ex.
  destruct (decide (cdef x = d)) as [E|E]; [right; rewrite E, lookup_insert_eq; congruence|]. rewrite lookup_insert_ne by done.
  destruct Hd as [[<-|Hd]%elem_of_cons|]; auto; done.
Qed.

Lemma Init_wf (builders : list (Z * (Z -> bool))) (f : Z -> float * T) (l : CAvailList) :
  (forall d, d ∈ all l -> (f d).1 <> S754_nan) -> avail l = ∅ -> infos l = [] -> list_wf (Init builders f l).
Proof using.
  intros Hf Ha Hi. split; [|split; [|split]]; cbn.
  - intros d Hd. cbn in *. split; [|by apply Hf]. apply allInfos_insert.
    + intros x (d' & -> & _)%list_elem_of_fmap. done.
    + left. apply list_elem_of_fmap. exists d. split; [done|]. by apply elem_of_elements.
  - rewrite Ha. set_solver.
  - by rewrite Ha, Hi.
  - rewrite Hi. constructor.
Qed.

(** * Queries *)

Lemma first_where_spec (p : Z -> T -> bool) (xs : list SAvailInfo) :
  match first_where p xs with
  | Some d => exists pre i suf, xs = pre ++ i :: suf /\ d = cdef i /\ p (cdef i) (data i) = true /\ forall j, j ∈ pre -> p (cdef j) (data j) = false
  | None => forall j, j ∈ xs -> p (cdef j) (data j) = false
  end.
Proof using.
  induction xs as [|x xs IH]; cbn; [intros j Hj; by apply elem_of_nil in Hj|]. destruct (p (cdef x) (data x)) eqn:E.
  - exists [], x, xs. split_and!; try done. intros j Hj. by apply elem_of_nil in Hj.
  - destruct (first_where p xs) as [d|].
    + destruct IH as (pre & i & suf & -> & Hd & Hp & Hpre). exists (x :: pre), i, suf. split_and!; try done. intros j [->|Hj]%elem_of_cons; auto.
    + intros j [->|Hj]%elem_of_cons; auto.
Qed.

Lemma ordered_split (pre suf : list SAvailInfo) (i j : SAvailInfo) : ordered higher (pre ++ i :: suf) -> j ∈ suf -> higher j i = false.
Proof using.
  unfold ordered. induction pre as [|x pre IH]; cbn; intros Ho Hj; apply StronglySorted_inv in Ho as [Ho Hx]; [|by apply IH].
  rewrite Forall_forall in Hx. by apply Hx.
Qed.

(** A filter over an available definition: with the data of its score. *)
Definition passes (l : CAvailList) (p : Z -> T -> bool) (d : Z) : Prop := d ∈ avail l /\ p d (scoreFunc l d).2 = true.

(** [r] is an available definition that passes [p], and none that passes is better by [lt]; or there is none. *)
Definition optimal (l : CAvailList) (p : Z -> T -> bool) (lt : float -> float -> bool) (r : option Z) : Prop :=
  match r with
  | Some d => passes l p d /\ forall d', passes l p d' -> lt (scoreFunc l d').1 (scoreFunc l d).1 = false
  | None => forall d, ~ passes l p d
  end.

Lemma in_infos (l : CAvailList) (i : SAvailInfo) : list_wf l -> i ∈ infos l <-> exists d, i = info_of (scoreFunc l) d /\ d ∈ avail l.
Proof using. intros (_ & _ & Hp & _). rewrite Hp, list_elem_of_fmap. by setoid_rewrite elem_of_elements. Qed.

Lemma flt_irrefl (a : float) : flt a a = false.
Proof using.
  destruct (decide (a = S754_nan)) as [->|Ha]; [done|]. apply flt_false_lex; [done..|]. unfold lex_lt. lia.
Qed.

(** What a scan of the infos in an order compatible with [lt] finds. *)
Lemma scan_optimal (l : CAvailList) (p : Z -> T -> bool) (lt : float -> float -> bool) (xs : list SAvailInfo) :
  list_wf l -> (forall i, i ∈ xs <-> i ∈ infos l) -> (forall a, lt a a = false) ->
  (forall pre i suf j, xs = pre ++ i :: suf -> j ∈ suf -> lt (score j) (score i) = false) ->
  optimal l p lt (first_where p xs).
Proof using.
  intros Hw Hx Hr Ho. pose proof (first_where_spec p xs) as F. unfold optimal. destruct (first_where p xs) as [d|].
  - destruct F as (pre & i & suf & Exs & -> & Hp & Hpre).
    destruct (proj1 (in_infos l i Hw)) as (d & -> & Hd); [rewrite <- Hx, Exs; set_solver|]. split; [done|].
    intros d' [Hd' Hp']. assert (Hin : info_of (scoreFunc l) d' ∈ xs) by (apply Hx, in_infos; eauto). rewrite Exs in Hin.
    apply elem_of_app in Hin as [Hin|[Hin|Hin]%elem_of_cons].
    + apply Hpre in Hin. cbn in Hin. congruence.
    + injection Hin as ->. apply Hr.
    + apply (Ho pre _ suf _ Exs Hin).
  - intros d [Hd Hp]. assert (Hin : info_of (scoreFunc l) d ∈ xs) by (apply Hx, in_infos; eauto). apply F in Hin. cbn in Hin. congruence.
Qed.

Lemma GetBestDef_optimal (l : CAvailList) (p : Z -> T -> bool) : list_wf l -> optimal l p (fun a b => flt b a) (GetBestDef l p).
Proof using.
  intros Hw. apply scan_optimal; [done|done|intros; apply flt_irrefl|]. intros pre i suf j E Hj.
  apply (ordered_split pre suf); [|done]. rewrite <- E. apply Hw.
Qed.

Lemma GetWorstDef_optimal (l : CAvailList) (p : Z -> T -> bool) : list_wf l -> optimal l p flt (GetWorstDef l p).
Proof using.
  intros Hw. apply scan_optimal; [done|intros; apply elem_of_reverse|intros; apply flt_irrefl|]. intros pre i suf j E Hj.
  apply (f_equal reverse) in E. rewrite reverse_involutive, reverse_app, reverse_cons in E.
  apply list_elem_of_split in Hj as (s1 & s2 & ->). rewrite reverse_app, reverse_cons, <- !app_assoc in E. cbn in E.
  apply (ordered_split (reverse s2) (reverse s1 ++ i :: reverse pre)); [|set_solver]. rewrite <- E. apply Hw.
Qed.

(** * What each builder builds *)

Lemma builder_loop_lookup (xs : list SAvailInfo) (b : Z * (Z -> bool)) (m : gmap Z (list Z)) (k : Z) :
  default [] (builder_loop xs m b !! k) = default [] (m !! k) ++ (if decide (k = b.1) then filter b.2 (cdef <$> xs) else []).
Proof using.
  unfold builder_loop. revert m. induction xs as [|x xs IH]; intros m; cbn [foldl]; [cbn; destruct (decide (k = b.1)); by rewrite app_nil_r|].
  rewrite IH. cbn [fmap list_fmap]. destruct (b.2 (cdef x)) eqn:E.
  - rewrite filter_cons_True by (rewrite E; exact I). destruct (decide (k = b.1)) as [->|Hk]; [rewrite lookup_insert_eq; cbn; by rewrite <- app_assoc|by rewrite lookup_insert_ne].
  - rewrite filter_cons_False; [done|]. rewrite E. exact id.
Qed.

Lemma builder_loop_other (xs : list SAvailInfo) (bs : list (Z * (Z -> bool))) (m : gmap Z (list Z)) (k : Z) :
  k ∉ bs.*1 -> default [] (foldl (builder_loop xs) m bs !! k) = default [] (m !! k).
Proof using.
  revert m. induction bs as [|c bs IH]; intros m Hn; [done|]. cbn [foldl]. rewrite IH by set_solver.
  rewrite builder_loop_lookup, decide_False by set_solver. by rewrite app_nil_r.
Qed.

Lemma builder_loops (xs : list SAvailInfo) (bs : list (Z * (Z -> bool))) (m : gmap Z (list Z)) (b : Z * (Z -> bool)) :
  NoDup bs.*1 -> b ∈ bs -> default [] (foldl (builder_loop xs) m bs !! b.1) = default [] (m !! b.1) ++ filter b.2 (cdef <$> xs).
Proof using.
  revert m. induction bs as [|c bs IH]; intros m Hnd Hb; [by apply elem_of_nil in Hb|]. cbn [foldl].
  cbn [fmap list_fmap] in Hnd. apply NoDup_cons in Hnd as [Hc Hnd]. apply elem_of_cons in Hb as [->|Hb].
  - rewrite builder_loop_other by done. by rewrite builder_loop_lookup, decide_True.
  - rewrite IH by done. rewrite builder_loop_lookup, decide_False; [by rewrite app_nil_r|]. intros E. apply Hc. rewrite <- E. apply list_elem_of_fmap; eauto.
Qed.

(** [ds] in the order of the scores of [f], best first. *)
Definition best_first (f : Z -> float * T) (ds : list Z) : Prop := StronglySorted (fun d d' => flt (f d).1 (f d').1 = false) ds.

Lemma filter_infos (f : Z -> float * T) (p : Z -> bool) (xs : list SAvailInfo) :
  (forall x, x ∈ xs -> x = info_of f (cdef x)) -> ordered higher xs -> best_first f (filter p (cdef <$> xs)).
Proof using.
  unfold best_first. intros Hx Ho. induction Ho as [|x xs Ho IH Hh]; cbn [fmap list_fmap]; [constructor|].
  assert (IH' := IH ltac:(intros; apply Hx; by constructor)). rewrite filter_cons. case_decide; [|done]. constructor; [done|].
  apply Forall_forall. intros d [_ (y & -> & Hy)%list_elem_of_fmap]%list_elem_of_filter. rewrite Forall_forall in Hh.
  specialize (Hh y Hy). unfold higher in Hh. rewrite (Hx x), (Hx y) in Hh by set_solver. exact Hh.
Qed.

Lemma Init_builders (builders : list (Z * (Z -> bool))) (f : Z -> float * T) (l : CAvailList) (b : Z * (Z -> bool)) :
  (forall d, d ∈ all l -> (f d).1 <> S754_nan) -> builderInfos l = ∅ -> NoDup builders.*1 -> b ∈ builders ->
  GetBuildDefs (Init builders f l) b.1 ≡ₚ filter b.2 (elements (all l)) /\ best_first f (GetBuildDefs (Init builders f l) b.1).
Proof using.
  intros Hf He Hnd Hb. unfold GetBuildDefs. cbn [builderInfos Init]. set (infos := info_of f <$> elements (all l)).
  assert (Hw : strict_weak higher infos).
  { apply higher_weak, Forall_fmap, Forall_forall. intros d Hd%elem_of_elements. by apply Hf. }
  change (builderInfos (Init builders f l)) with (foldl (builder_loop (std_sort higher infos)) (builderInfos l) builders).
  rewrite builder_loops, He, lookup_empty by done. cbn [default from_option app]. split.
  - rewrite std_sort_perm by done. unfold infos. rewrite <- list_fmap_compose. by rewrite (list_fmap_id (elements (all l)) : cdef ∘ info_of f <$> _ = _).
  - apply filter_infos; [|by apply std_sort_ordered]. intros x Hx. rewrite std_sort_perm in Hx by done.
    apply list_elem_of_fmap in Hx as (d & -> & _). done.
Qed.

(** * A life of the list *)

Inductive op := OAdd (buildDefs : gset Z) | ORemove (buildDefs : gset Z).

Definition apply_op (l : CAvailList) (o : op) : CAvailList :=
  match o with OAdd B => AddDefs B l | ORemove B => RemoveDefs B l end.

(** The set the list stands for. *)
Definition spec_op (ds : gset Z) (a : gset Z) (o : op) : gset Z :=
  match o with OAdd B => a ∪ (ds ∩ B) | ORemove B => a ∖ (ds ∩ B) end.

Lemma push_infos_builders (ds : list Z) (l : CAvailList) : builderInfos (push_infos ds l) = builderInfos l.
Proof using. unfold push_infos. revert l. induction ds as [|d ds IH]; intros l; [done|]. cbn [foldl]. by rewrite IH. Qed.

Lemma AddDefs_builders (B : gset Z) (l : CAvailList) : builderInfos (AddDefs B l) = builderInfos l.
Proof using. unfold AddDefs. repeat case_decide; try done. exact (push_infos_builders _ (l <| avail ::= union (all l ∩ B ∖ avail l) |>)). Qed.

Lemma apply_ops (ops : list op) (l : CAvailList) :
  list_wf l -> let l' := foldl apply_op l ops in
  list_wf l' /\ avail l' = foldl (spec_op (all l)) (avail l) ops /\ scoreFunc l' = scoreFunc l /\ builderInfos l' = builderInfos l.
Proof using.
  revert l. induction ops as [|o ops IH]; intros l Hw; cbn; [done|].
  assert (H1 : list_wf (apply_op l o) /\ avail (apply_op l o) = spec_op (all l) (avail l) o /\ all (apply_op l o) = all l /\
    scoreFunc (apply_op l o) = scoreFunc l /\ builderInfos (apply_op l o) = builderInfos l).
  { destruct o as [B|B]; cbn.
    - destruct (AddDefs_wf B l Hw) as (? & ? & ? & ?). split_and!; try done. apply AddDefs_builders.
    - destruct (RemoveDefs_wf B l Hw) as (? & ? & ? & ?). split_and!; try done. unfold RemoveDefs. by case_decide. }
  destruct H1 as (H1 & H2 & H3 & H4 & H5). destruct (IH _ H1) as (I1 & I2 & I3 & I4). rewrite I2, I3, I4, H2, H3, H4, H5. done.
Qed.

(** However definitions become buildable and stop being so after [Init], the list stands
    for exactly the known definitions that are buildable now; [infos] lists each of
    them once, with its score, the best first; [GetBestDef] and [GetWorstDef] return
    one that passes the filter and that no other passing one beats, and nothing only
    when none passes; and each builder has the definitions it can build, the best
    first. *)
Theorem avail_tracks (g f : Z -> float * T) (ds : list Z) (builders : list (Z * (Z -> bool))) (ops : list op) :
  (forall d, d ∈ ds -> (f d).1 <> S754_nan) -> NoDup builders.*1 ->
  let l := foldl apply_op (Init builders f (with_defs g ds)) ops in
  avail l = foldl (spec_op (list_to_set ds)) ∅ ops /\
  infos l ≡ₚ info_of f <$> elements (avail l) /\ ordered higher (infos l) /\
  (forall p, optimal l p (fun a b => flt b a) (GetBestDef l p)) /\
  (forall p, optimal l p flt (GetWorstDef l p)) /\
  (forall b : Z * (Z -> bool), b ∈ builders -> GetBuildDefs l b.1 ≡ₚ filter b.2 (elements (all (with_defs g ds))) /\ best_first f (GetBuildDefs l b.1)).
Proof using.
  intros Hf Hnd l. destruct (with_defs_spec g ds) as (Ea & Ev & Ei).
  assert (Hf' : forall d, d ∈ all (with_defs g ds) -> (f d).1 <> S754_nan) by (intros d; rewrite Ea, elem_of_list_to_set; apply Hf).
  destruct (apply_ops ops _ (Init_wf builders f _ Hf' Ev Ei)) as (Hw & Hav & Hsc & Hb). fold l in Hw, Hav, Hsc, Hb.
  cbn in Hav, Hsc. split; [by rewrite Hav, Ea, Ev|]. pose proof Hw as (_ & _ & Hp & Ho). rewrite Hsc in Hp.
  split_and!; [done|done|intros; by apply GetBestDef_optimal|intros; by apply GetWorstDef_optimal|].
  intros b Hin. unfold GetBuildDefs. rewrite Hb. apply Init_builders; try done. clear. unfold with_defs. by induction ds.
Qed.

End AvailList.

Lemma avail_tracks_witness :
  let f d := (float_of_Z (d mod 3), d) in
  let l := foldl (apply_op 0 (H := insertion_sort)) (Init (H := insertion_sort) [(7, Z.even)] f (with_defs f [1; 2; 3; 4])) [OAdd {[1; 2; 3; 9]}; ORemove {[2]}] in
  avail l = {[1; 3]} /\ GetBestDef l (fun _ _ => true) = Some 1 /\ GetWorstDef l (fun _ _ => true) = Some 3 /\ GetBuildDefs l 7 = [2; 4].
Proof.
  set (f := fun d => (float_of_Z (d mod 3), d)).
  destruct (avail_tracks 0 (H := insertion_sort) f f [1; 2; 3; 4] [(7, Z.even)] [OAdd {[1; 2; 3; 9]}; ORemove {[2]}]) as (E & _).
  - intros d Hd. repeat (apply elem_of_cons in Hd as [->|Hd]; [done|]). by apply elem_of_nil in Hd.
  - apply NoDup_singleton.
  - cbv zeta. rewrite E. split; [|by vm_compute]. by vm_compute.
Defined.
