(* ===== verification/Outcome.v ===== *)
(** Code that dereferences pointers, run against code it does not control.

    The task machinery of the AI calls back into overrides and scripts that may
    call it again.  A run of it yields a value; or is [Refused], when a callback did
    something its contract forbids (the contract is written out where the callback
    is made); or is [UB], when the machinery itself used memory that is not allocated
    or freed it twice.  [wp m P]: [m] is not undefined, and [P] holds of its value. *)

From S2P Require Import Prelude.

Inductive out (A : Type) := Val (a : A) | Refused | UB.
Arguments Val {A} _.
Arguments Refused {A}.
Arguments UB {A}.

#[export] Instance out_ret : MRet out := @Val.
#[export] Instance out_bind : MBind out := fun A B f m => match m with Val a => f a | Refused => Refused | UB => UB end.

Definition wp {A} (m : out A) (P : A -> Prop) : Prop :=
  match m with Val a => P a | Refused => True | UB => False end.

(** Dereference: the object at an address, if it is allocated. *)
Definition deref {A} (m : gmap Z A) (p : Z) : out A := match m !! p with Some a => Val a | None => UB end.

(** What a callback must have respected for the run to go on. *)
Definition require {A} (b : bool) (a : A) : out A := if b then Val a else Refused.

Lemma bind_Val {A B} (a : A) (f : A -> out B) : (Val a ≫= f) = f a.
Proof. done. Qed.

Lemma wp_val {A} (a : A) (P : A -> Prop) : P a -> wp (Val a) P.
Proof. done. Qed.

Lemma wp_bind {A B} (m : out A) (f : A -> out B) (P : B -> Prop) : wp m (fun a => wp (f a) P) -> wp (m ≫= f) P.
Proof. by destruct m. Qed.

Lemma wp_unbind {A B} (m : out A) (f : A -> out B) (P : B -> Prop) : wp (m ≫= f) P -> wp m (fun a => wp (f a) P).
Proof. by destruct m. Qed.

Lemma wp_mono {A} (m : out A) (P Q : A -> Prop) : wp m P -> (forall a, P a -> Q a) -> wp m Q.
Proof. destruct m; cbn; auto. Qed.

Lemma wp_and {A} (m : out A) (P Q : A -> Prop) : wp m P -> wp m Q -> wp m (fun a => P a /\ Q a).
Proof. by destruct m. Qed.

Lemma wp_deref {A} (m : gmap Z A) (p : Z) (a : A) (P : A -> Prop) : m !! p = Some a -> P a -> wp (deref m p) P.
Proof. intros E H. unfold deref. by rewrite E. Qed.

Lemma wp_require {A} (b : bool) (a : A) (P : A -> Prop) : (b = true -> P a) -> wp (require b a) P.
Proof. unfold require. destruct b; cbn; auto. Qed.

Lemma wp_val_eq {A} (m : out A) (P : A -> Prop) (a : A) : wp m P -> m = Val a -> P a.
Proof. by intros H ->. Qed.

(** A fold over a list with an invariant that says what is done and what is left. *)
Fixpoint each {A W} (f : A -> W -> out W) (l : list A) (w : W) : out W :=
  match l with [] => Val w | a :: l' => w' ← f a w; each f l' w' end.

Lemma wp_each {A W} (f : A -> W -> out W) (I : list A -> W -> Prop) (l : list A) (w : W) :
  (forall a l' w, I (a :: l') w -> wp (f a w) (I l')) -> I l w -> wp (each f l w) (I []).
Proof. intros Hf. revert w. induction l as [|a l IH]; intros w Hi; [done|]. cbn. apply wp_bind. eapply wp_mono; [by apply Hf|]. exact IH. Qed.
