(* ===== verification/OpenQueue.v ===== *)
(** The nodes of the path search and its priority queue (terrain/path/MicroPather.h,
    terrain/path/MicroPather.cpp).

    The pather allocates one [PathNode] per cell of the move map and one array of
    [ALLOCATE] node pointers, [heapArrayMem].  [OpenQueueBH] is a binary heap of pointers
    in that array, position 1 on top, the parent of position [i] at [i >> 1]; each node
    knows its position ([myIndex]).  A pointer to a node is its index in [pathNodeMem].
    Reading a cell never written, or writing outside the array, is undefined. *)

From S2P Require Import Prelude Outcome Float32 FloatOrder.

Record PathNode := {
  myIndex : option Z;        (** [None]: never assigned *)
  x2 : Z; y2 : Z; index2 : Z;
  costFromStart : float;
  totalCost : float;
  parent : option Z;         (** [None]: the null pointer *)
  inOpen : bool; inClosed : bool; isEndNode : bool;
  nframe : Z;                (** [unsigned frame:16] *)
}.

#[export] Instance PathNode_eta : Eta PathNode := fun n =>
  Build_PathNode (myIndex n) (x2 n) (y2 n) (index2 n) (costFromStart n) (totalCost n) (parent n) (inOpen n) (inClosed n) (isEndNode n) (nframe n).

(** [FLT_BIG] and [FLT_BIG / 2.0f], with [FLT_MAX] = (2^24 - 1) * 2^104. *)
Definition FLT_MAX : float := S754_finite false 16777215 104.
Definition FLT_BIG : float := S754_finite false 16777215 103.
Definition FLT_BIG_2 : float := S754_finite false 16777215 102.

(** A malloc'ed node initialised by [AllocatePathNode]. *)
Definition PathNode_Init (x y i2 frame : Z) (cost : float) (par : option Z) : PathNode :=
  {| myIndex := None; x2 := x; y2 := y; index2 := i2; costFromStart := cost; totalCost := cost; parent := par;
     inOpen := false; inClosed := false; isEndNode := false; nframe := frame `mod` 2 ^ 16 |}.

Definition PathNode_Reuse (frame : Z) (n : PathNode) : PathNode :=
  n <| costFromStart := FLT_BIG_2 |> <| parent := None |> <| nframe := frame `mod` 2 ^ 16 |> <| inOpen := false |> <| inClosed := false |>.

(** The queue together with the memory it works on. *)
Record OpenQueueBH := { nodes : gmap Z PathNode; heapArray : gmap Z Z; hsize : Z }.

#[export] Instance OpenQueueBH_eta : Eta OpenQueueBH := fun q => Build_OpenQueueBH (nodes q) (heapArray q) (hsize q).

Section OpenQueue.
Variable ALLOCATE : Z.

(** [heapArray[i] = p]. *)
Definition heap_put (i p : Z) (q : OpenQueueBH) : out OpenQueueBH :=
  if (0 <=? i) && (i <? ALLOCATE) then Val (q <| heapArray ::= <[i := p]> |>) else UB.

(** [p->field = ...]. *)
Definition node_set (p : Z) (f : PathNode -> PathNode) (q : OpenQueueBH) : out OpenQueueBH :=
  nd ← deref (nodes q) p; Val (q <| nodes ::= <[p := f nd]> |>).

(** [heapArray[i]->totalCost]. *)
Definition heap_cost (q : OpenQueueBH) (i : Z) : out float :=
  p ← deref (heapArray q) i; nd ← deref (nodes q) p; Val (totalCost nd).

(** The five assignments that exchange the pointers at [i] and [j]. *)
Definition heap_swap (i j : Z) (q : OpenQueueBH) : out OpenQueueBH :=
  temp ← deref (heapArray q) j;
  p ← deref (heapArray q) i;
  q ← heap_put j p q;
  q ← heap_put i temp q;
  q ← node_set temp (fun nd => nd <| myIndex := Some i |>) q;
  p' ← deref (heapArray q) j;
  node_set p' (fun nd => nd <| myIndex := Some j |>) q.

(** [while (i > 1 && heapArray[i >> 1]->totalCost > heapArray[i]->totalCost)]. *)
Fixpoint sift_up (i : positive) (q : OpenQueueBH) : out OpenQueueBH :=
  match i with
  | xH => Val q
  | xO j | xI j =>
      cj ← heap_cost q (Zpos j);
      ci ← heap_cost q (Zpos i);
      if flt ci cj then q' ← heap_swap (Zpos i) (Zpos j) q; sift_up j q' else Val q
  end.

Definition Push (pNode : Z) (q : OpenQueueBH) : out OpenQueueBH :=
  q ← node_set pNode (fun nd => nd <| inOpen := true |>) q;
  if 0 <? hsize q then
    let q := q <| hsize ::= Z.succ |> in
    q ← heap_put (hsize q) pNode q;
    q ← node_set pNode (fun nd => nd <| myIndex := Some (hsize q) |>) q;
    sift_up (Z.to_pos (hsize q)) q
  else
    let q := q <| hsize ::= Z.succ |> in
    q ← heap_put 1 pNode q;
    node_set pNode (fun nd => nd <| myIndex := Some (hsize q) |>) q.

Definition UpdateNode (pNode : Z) (q : OpenQueueBH) : out OpenQueueBH :=
  if 1 <? hsize q then
    nd ← deref (nodes q) pNode;
    match myIndex nd with
    | Some i => sift_up (Z.to_pos i) q
    | None => UB
    end
  else Val q.

(** [while (!heapFixed)]; the fuel is one iteration per level of the heap. *)
Fixpoint sift_down (fuel : nat) (index : Z) (q : OpenQueueBH) : out OpenQueueBH :=
  match fuel with
  | O => UB
  | S fuel' =>
      let left := 2 * index in
      let right := 2 * index + 1 in
      smalest ← (if left <=? hsize q then
                   cl ← heap_cost q left; ci ← heap_cost q index; Val (if flt cl ci then left else index)
                 else Val index);
      smalest ← (if right <=? hsize q then
                   cr ← heap_cost q right; cs ← heap_cost q smalest; Val (if flt cr cs then right else smalest)
                 else Val smalest);
      if smalest =? index then Val q
      else q' ← heap_swap smalest index q; sift_down fuel' smalest q'
  end.

Definition levels (size : Z) : nat := Pos.size_nat (Z.to_pos size).

Definition Pop (q : OpenQueueBH) : out (Z * OpenQueueBH) :=
  min ← deref (heapArray q) 1;
  q ← node_set min (fun nd => nd <| inOpen := false |>) q;
  last ← deref (heapArray q) (hsize q);
  q ← heap_put 1 last q;
  let q := q <| hsize ::= Z.pred |> in
  if hsize q =? 0 then Val (min, q)
  else
    top ← deref (heapArray q) 1;
    q ← node_set top (fun nd => nd <| myIndex := Some 1 |>) q;
    q ← sift_down (levels (hsize q)) 1 q;
    Val (min, q).

Definition Empty (q : OpenQueueBH) : bool := hsize q =? 0.

End OpenQueue.
