(* ===== verification/OpenQueueSpec.v ===== *)
(** The open queue refines a finite set of nodes from which a cheapest one is taken.

    [Rep q S]: the heap of [q] holds exactly the nodes of [S], each once and each knowing
    its position; [Sorted q]: no node is cheaper than its parent in the heap.  The
    operations keep both; they change nothing of a node but its position and its
    [inOpen] flag ([strip] erases the position). *)

From S2P Require Import Prelude Outcome Float32 FloatOrder OpenQueue.

Definition strip (nd : PathNode) : PathNode := nd <| myIndex := None |>.

(** The rank of the total cost of a node, and of the node at a position of the heap. *)
Definition ncost (q : OpenQueueBH) (p : Z) : Z := match nodes q !! p with Some nd => okey (totalCost nd) | None => 0 end.
Definition hcost (q : OpenQueueBH) (i : Z) : Z := match heapArray q !! i with Some p => ncost q p | None => 0 end.

Record Rep (ALLOCATE : Z) (q : OpenQueueBH) (S : gset Z) : Prop := {
  rep_size : hsize q = Z.of_nat (size S);
  rep_cap : hsize q < ALLOCATE;
  rep_at i : 1 <= i <= hsize q -> exists p, heapArray q !! i = Some p /\ p ∈ S;
  rep_node p : p ∈ S -> exists nd i, nodes q !! p = Some nd /\ fvalid (totalCost nd) /\ inOpen nd = true /\
                 myIndex nd = Some i /\ 1 <= i <= hsize q /\ heapArray q !! i = Some p;
  rep_index i p nd : 1 <= i <= hsize q -> heapArray q !! i = Some p -> nodes q !! p = Some nd -> myIndex nd = Some i;
}.

Definition Sorted (q : OpenQueueBH) : Prop := forall i, 1 < i <= hsize q -> hcost q (i / 2) <= hcost q i.

Section Spec.
Context {ALLOCATE : Z}.
Implicit Types (q : OpenQueueBH) (S : gset Z).

(** ** Nodes up to their position *)

Lemma strip_lookup (m m' : gmap Z PathNode) (p : Z) (nd : PathNode) : strip <$> m' = strip <$> m -> m !! p = Some nd ->
  exists nd', m' !! p = Some nd' /\ strip nd' = strip nd.
Proof.
  intros E Hp. assert ((strip <$> m') !! p = Some (strip nd)) as H by (by rewrite E, lookup_fmap, Hp).
  rewrite lookup_fmap in H. destruct (m' !! p) as [nd'|]; [|done]. exists nd'. split; [done|]. by apply (inj Some) in H.
Qed.

Lemma strip_eq (nd nd' : PathNode) : strip nd' = strip nd -> nd' = nd <| myIndex := myIndex nd' |>.
Proof. destruct nd, nd'. unfold strip. cbn. intros H. by injection H as <- <- <- <- <- <- <- <- <- <-. Qed.

Lemma strip_insert (m : gmap Z PathNode) (p : Z) (nd nd' : PathNode) : strip nd' = strip nd -> m !! p = Some nd ->
  strip <$> <[p := nd']> m = strip <$> m.
Proof. intros E Hp. rewrite fmap_insert, E. apply insert_id. by rewrite lookup_fmap, Hp. Qed.

Lemma ncost_strip q q' (p : Z) : strip <$> nodes q' = strip <$> nodes q -> ncost q' p = ncost q p.
Proof.
  intros E. unfold ncost. destruct (nodes q !! p) as [nd|] eqn:Hp.
  - destruct (strip_lookup _ _ _ _ E Hp) as (nd' & -> & ->%strip_eq). done.
  - destruct (nodes q' !! p) as [nd'|] eqn:Hp'; [|done].
    destruct (strip_lookup _ _ _ _ (eq_sym E) Hp') as (? & ? & _). congruence.
Qed.

(** ** Exchanging two positions *)

Definition swapped (i j k : Z) : Z := if decide (k = i) then j else if decide (k = j) then i else k.

Lemma rep_pos_ne q S (i j p p' : Z) : Rep ALLOCATE q S -> 1 <= i <= hsize q -> 1 <= j <= hsize q -> i <> j ->
  heapArray q !! i = Some p -> heapArray q !! j = Some p' -> p <> p'.
Proof.
  intros R Hi Hj Hne Ep Ep' <-. destruct (rep_at _ _ _ R i Hi) as (p0 & E0 & Hin). simplify_eq.
  destruct (rep_node _ _ _ R _ Hin) as (nd & k & Hnd & _).
  pose proof (rep_index _ _ _ R i _ _ Hi Ep Hnd). pose proof (rep_index _ _ _ R j _ _ Hj Ep' Hnd). congruence.
Qed.

Lemma heap_swap_spec q S (i j : Z) : Rep ALLOCATE q S -> 1 <= i <= hsize q -> 1 <= j <= hsize q -> i <> j ->
  exists q', heap_swap ALLOCATE i j q = Val q' /\ Rep ALLOCATE q' S /\ hsize q' = hsize q /\
    strip <$> nodes q' = strip <$> nodes q /\ (forall k, hcost q' k = hcost q (swapped i j k)).
Proof.
  intros R Hi Hj Hne. pose proof (rep_cap _ _ _ R) as Hcap.
  destruct (rep_at _ _ _ R i Hi) as (p & Ep & Hp), (rep_at _ _ _ R j Hj) as (t & Et & Ht).
  pose proof (rep_pos_ne q S i j p t R Hi Hj Hne Ep Et) as Hpt.
  destruct (rep_node _ _ _ R p Hp) as (np & ip & Enp & Vp & Op & Ip & _ & _).
  destruct (rep_node _ _ _ R t Ht) as (nt & it & Ent & Vt & Ot & It & _ & _).
  unfold heap_swap, heap_put, node_set, deref. cbn. rewrite Et. cbn. rewrite Ep. cbn.
  rewrite (proj2 (Z.leb_le 0 i)), (proj2 (Z.leb_le 0 j)), (proj2 (Z.ltb_lt i ALLOCATE)), (proj2 (Z.ltb_lt j ALLOCATE)) by lia. cbn.
  rewrite Ent. cbn. rewrite lookup_insert_ne, lookup_insert_eq by done. cbn. rewrite lookup_insert_ne, Enp by done. cbn.
  set (q' := {| nodes := _; heapArray := _; hsize := _ |}). exists q'. split; [done|].
  assert (strip <$> nodes q' = strip <$> nodes q) as Es.
  { unfold q'. cbn [nodes]. rewrite (strip_insert _ _ np), (strip_insert _ _ nt); try done. by rewrite lookup_insert_ne. }
  assert (forall k, heapArray q' !! k = heapArray q !! swapped i j k) as Eh.
  { intros k. unfold q', swapped. cbn [heapArray]. destruct (decide (k = i)) as [->|Hki]; [by rewrite lookup_insert_eq|].
    rewrite lookup_insert_ne by done. destruct (decide (k = j)) as [->|Hkj]; [by rewrite lookup_insert_eq|]. by rewrite lookup_insert_ne. }
  assert (hsize q' = hsize q) as Esz by done.
  assert (forall k, 1 <= k <= hsize q -> 1 <= swapped i j k <= hsize q) as Hsw by (intros k; unfold swapped; repeat case_decide; lia).
  assert (forall k, swapped i j (swapped i j k) = k) as Hinv by (intros k; unfold swapped; repeat case_decide; lia).
  split; [|split; [done|split; [done|]]].
  2: { intros k. unfold hcost. rewrite Eh. case_match; [|done]. by apply ncost_strip. }
  assert (forall k x nd, 1 <= k <= hsize q -> heapArray q' !! k = Some x -> nodes q' !! x = Some nd -> myIndex nd = Some k) as Hix.
  { intros k x nd Hk Ex En. rewrite Eh in Ex. unfold q' in En. cbn [nodes] in En. unfold swapped in Ex.
    destruct (decide (k = i)) as [->|Hki]; [|destruct (decide (k = j)) as [->|Hkj]]; simplify_eq.
    - rewrite lookup_insert_ne, lookup_insert_eq in En by done. by simplify_eq/=.
    - rewrite lookup_insert_eq in En. by simplify_eq/=.
    - pose proof (rep_pos_ne q S k i x p R Hk Hi Hki Ex Ep). pose proof (rep_pos_ne q S k j x t R Hk Hj Hkj Ex Et).
      rewrite !lookup_insert_ne in En by done. by eapply (rep_index _ _ _ R). }
  constructor; rewrite ?Esz; try apply R; [| |exact Hix].
  - intros k Hk. rewrite Eh. apply R, Hsw, Hk.
  - intros x Hx. destruct (rep_node _ _ _ R x Hx) as (nd & k & End & Vd & Od & Id & Hk & Ek).
    destruct (strip_lookup _ _ _ _ Es End) as (nd' & End' & Hs). pose proof (strip_eq _ _ Hs) as Hnd'.
    assert (heapArray q' !! swapped i j k = Some x) as Ek' by (by rewrite Eh, Hinv).
    pose proof (Hix _ _ _ (Hsw k Hk) Ek' End') as Hix'.
    exists nd', (swapped i j k). split_and!; try done; try (rewrite Hnd'; done); try (apply Hsw; done).
Qed.

(** ** Sifting up *)

(** Heap order except between position [i] and its parent. *)
Definition SortedUp (i : Z) q : Prop :=
  (forall j, 1 < j <= hsize q -> j <> i -> hcost q (j / 2) <= hcost q j) /\
  (forall j, 1 < j <= hsize q -> j / 2 = i -> 1 < i -> hcost q (i / 2) <= hcost q j).

Lemma heap_cost_spec q S (i : Z) : Rep ALLOCATE q S -> 1 <= i <= hsize q ->
  exists c, heap_cost q i = Val c /\ fvalid c /\ okey c = hcost q i.
Proof.
  intros R Hi. destruct (rep_at _ _ _ R i Hi) as (p & Ep & Hp). destruct (rep_node _ _ _ R p Hp) as (nd & k & End & Vd & _).
  exists (totalCost nd). unfold heap_cost, deref, hcost, ncost. rewrite Ep. cbn. by rewrite End.
Qed.

Lemma half_bounds (i : Z) : 1 < i -> 1 <= i / 2 < i.
Proof. intros. Z.div_mod_to_equations. lia. Qed.

Definition up_ok (S : gset Z) (i : positive) : Prop :=
  forall q, Rep ALLOCATE q S -> 1 <= Zpos i <= hsize q -> SortedUp (Zpos i) q ->
  exists q', sift_up ALLOCATE i q = Val q' /\ Rep ALLOCATE q' S /\ Sorted q' /\ strip <$> nodes q' = strip <$> nodes q.

(** One iteration of the loop. *)
Lemma sift_up_step S (i j : positive) : Zpos j = Zpos i / 2 -> 1 < Zpos i -> up_ok S j ->
  forall q, Rep ALLOCATE q S -> 1 <= Zpos i <= hsize q -> SortedUp (Zpos i) q ->
  exists q', (cj ← heap_cost q (Zpos j); ci ← heap_cost q (Zpos i);
              if flt ci cj then q' ← heap_swap ALLOCATE (Zpos i) (Zpos j) q; sift_up ALLOCATE j q' else Val q) = Val q' /\
    Rep ALLOCATE q' S /\ Sorted q' /\ strip <$> nodes q' = strip <$> nodes q.
Proof.
  intros Ej Hi1 IH q R Hi [Ho Hc]. pose proof (half_bounds (Zpos i) Hi1) as Hh.
  destruct (heap_cost_spec q S (Zpos j) R ltac:(lia)) as (cj & -> & Vj & Kj).
  destruct (heap_cost_spec q S (Zpos i) R ltac:(lia)) as (ci & -> & Vi & Ki). cbn. rewrite flt_okey by done.
  destruct (Z.ltb_spec (okey ci) (okey cj)) as [Hlt|Hge].
  - destruct (heap_swap_spec q S (Zpos i) (Zpos j) R) as (q1 & -> & R1 & Hs1 & Es1 & Hc1); [lia..|].
    cbn. destruct (IH q1 R1) as (q2 & -> & R2 & S2 & E2); [lia| |exists q2; split_and!; try done; congruence].
    split; rewrite Hs1.
    + intros k Hk Hkj. rewrite !Hc1. pose proof (half_bounds k ltac:(lia)).
      unfold swapped. destruct (decide (k = Zpos i)) as [->|Hki].
      * rewrite (decide_False (P := _ / 2 = Zpos i)) by lia. rewrite decide_True by lia. lia.
      * rewrite (decide_False (P := k = Zpos j)) by done. destruct (decide (k / 2 = Zpos i)) as [Eki|Hnki].
        -- pose proof (Hc k ltac:(lia) Eki Hi1). rewrite <-Ej in *. done.
        -- destruct (decide (k / 2 = Zpos j)) as [Ekj|]; [|apply Ho; lia].
           pose proof (Ho k ltac:(lia) Hki). rewrite Ekj in *. lia.
    + intros k Hk Ekj Hj. rewrite !Hc1. pose proof (half_bounds (Zpos j) Hj) as Hhj. unfold swapped.
      rewrite (decide_False (P := _ / 2 = Zpos i)), (decide_False (P := _ / 2 = Zpos j)) by lia.
      destruct (decide (k = Zpos i)) as [->|Hki]; [apply Ho; lia|].
      rewrite decide_False by (intros ->; lia). pose proof (Ho k ltac:(lia) Hki) as H1. rewrite Ekj in H1.
      pose proof (Ho (Zpos j) ltac:(lia) ltac:(lia)). lia.
  - exists q. split_and!; try done. intros k Hk. destruct (decide (k = Zpos i)) as [->|Hki]; [|by apply Ho]. rewrite <-Ej. lia.
Qed.

Lemma sift_up_spec S (i : positive) : up_ok S i.
Proof.
  induction i as [j IH|j IH|]; intros q R Hi HS; cbn [sift_up].
  - apply (sift_up_step S (xI j) j); try done. rewrite Pos2Z.inj_xI. Z.div_mod_to_equations. lia.
  - apply (sift_up_step S (xO j) j); try done. rewrite Pos2Z.inj_xO. Z.div_mod_to_equations. lia.
  - exists q. split_and!; try done. intros k Hk. apply HS; lia.
Qed.

(** ** Sifting down *)

(** Heap order except between position [i] and its children. *)
Definition SortedDown (i : Z) q : Prop :=
  (forall j, 1 < j <= hsize q -> j / 2 <> i -> hcost q (j / 2) <= hcost q j) /\
  (forall j, 1 < j <= hsize q -> j / 2 = i -> 1 < i -> hcost q (i / 2) <= hcost q j).

(** The comparison of [index] with its children. *)
Definition smallest_of (index : Z) q : out Z :=
  smalest ← (if 2 * index <=? hsize q then
               cl ← heap_cost q (2 * index); ci ← heap_cost q index; Val (if flt cl ci then 2 * index else index)
             else Val index);
  if 2 * index + 1 <=? hsize q then
    cr ← heap_cost q (2 * index + 1); cs ← heap_cost q smalest; Val (if flt cr cs then 2 * index + 1 else smalest)
  else Val smalest.

Lemma smallest_of_spec q S (i : Z) : Rep ALLOCATE q S -> 1 <= i <= hsize q ->
  exists m, smallest_of i q = Val m /\ (m = i \/ m / 2 = i /\ hcost q m < hcost q i) /\ i <= m <= hsize q /\
    (forall j, 1 < j <= hsize q -> j / 2 = i -> hcost q m <= hcost q j).
Proof.
  intros R Hi. unfold smallest_of.
  assert (forall j, 1 < j <= hsize q -> j / 2 = i -> j = 2 * i \/ j = 2 * i + 1) as Hch by (intros j; Z.div_mod_to_equations; lia).
  assert (2 * i / 2 = i /\ (2 * i + 1) / 2 = i) as [HL HR] by (Z.div_mod_to_equations; lia).
  destruct (heap_cost_spec q S i R Hi) as (ci & Ei & Vi & Ki).
  destruct (Z.leb_spec (2 * i) (hsize q)) as [Hl|Hl]; cbn.
  - destruct (heap_cost_spec q S (2 * i) R ltac:(lia)) as (cl & El & Vl & Kl). rewrite El, Ei. cbn. rewrite flt_okey by done.
    destruct (Z.leb_spec (2 * i + 1) (hsize q)) as [Hr|Hr].
    + destruct (heap_cost_spec q S (2 * i + 1) R ltac:(lia)) as (cr & Er & Vr & Kr). rewrite Er. cbn.
      destruct (Z.ltb_spec (okey cl) (okey ci)) as [H1|H1]; [rewrite El|rewrite Ei]; cbn; rewrite flt_okey by done;
        case_match; bools; (eexists; split; [done|split; [|split; [lia|intros j Hj Hj2; destruct (Hch j Hj Hj2) as [-> | ->]; lia]]]); auto; right; split; auto; lia.
    + destruct (Z.ltb_spec (okey cl) (okey ci)) as [H1|H1];
        (eexists; split; [done|split; [|split; [lia|intros j Hj Hj2; destruct (Hch j Hj Hj2) as [-> | ->]; lia]]]); auto; right; split; auto; lia.
  - assert ((2 * i + 1 <=? hsize q) = false) as -> by lia.
    exists i. split; [done|split; [auto|split; [lia|intros j Hj Hj2; destruct (Hch j Hj Hj2) as [-> | ->]; lia]]].
Qed.

Lemma sift_down_spec (fuel : nat) (i : Z) q S : Rep ALLOCATE q S -> 1 <= i <= hsize q -> SortedDown i q ->
  hsize q < i * 2 ^ Z.of_nat fuel ->
  exists q', sift_down ALLOCATE fuel i q = Val q' /\ Rep ALLOCATE q' S /\ Sorted q' /\ strip <$> nodes q' = strip <$> nodes q.
Proof.
  revert i q. induction fuel as [|fuel IH]; intros i q R Hi [Ho Hc] Hf; [change (Z.of_nat 0) with 0 in Hf; lia|].
  rewrite Nat2Z.inj_succ, Z.pow_succ_r in Hf by lia. cbn [sift_down].
  destruct (smallest_of_spec q S i R Hi) as (m & Em & Hm & Hmi & Hmin). unfold smallest_of in Em.
  match goal with |- context [mbind _ ?x] => destruct x as [s| |] eqn:E1; cbn in Em |- *; [|discriminate|discriminate] end.
  rewrite Em. cbn. destruct (Z.eqb_spec m i) as [->|Hne].
  { exists q. split_and!; try done. intros k Hk. destruct (decide (k / 2 = i)) as [E|]; [rewrite E; auto|auto]. }
  destruct Hm as [?|[Hmi2 Hlt]]; [done|].
  destruct (heap_swap_spec q S m i R) as (q1 & -> & R1 & Hs1 & Es1 & Hc1); [lia..|]. cbn.
  assert (2 * i <= m) by (Z.div_mod_to_equations; lia). assert (0 < 2 ^ Z.of_nat fuel) by (apply Z.pow_pos_nonneg; lia).
  destruct (IH m q1 R1) as (q2 & -> & R2 & S2 & E2); [lia| |nia|exists q2; split_and!; try done; congruence].
  assert (m / 2 < m) as Hmm by (apply half_bounds; lia). split; rewrite Hs1.
  - intros k Hk Hkm. rewrite !Hc1. pose proof (half_bounds k ltac:(lia)). unfold swapped.
    rewrite (decide_False (P := k / 2 = m)) by done. destruct (decide (k = m)) as [->|Hkm'].
    + rewrite decide_True by done. lia.
    + destruct (decide (k / 2 = i)) as [Eki|Hki].
      * rewrite decide_False by lia. apply Hmin; lia.
      * destruct (decide (k = i)) as [->|]; [|apply Ho; lia]. apply Hc; lia.
  - intros k Hk Hkm Hm1. rewrite !Hc1, Hmi2. pose proof (half_bounds k ltac:(lia)). unfold swapped.
    rewrite (decide_False (P := i = m)), (decide_True (P := i = i)), (decide_False (P := k = m)), (decide_False (P := k = i)) by lia.
    rewrite <-Hkm at 1. apply Ho; lia.
Qed.

(** ** The operations *)

(** A node put at the first free position. *)
Lemma rep_append q S (p : Z) (nd : PathNode) : Rep ALLOCATE q S -> p ∉ S -> nodes q !! p = Some nd -> fvalid (totalCost nd) ->
  hsize q + 1 < ALLOCATE -> inOpen nd = true -> myIndex nd = Some (hsize q + 1) ->
  Rep ALLOCATE {| nodes := nodes q; heapArray := <[hsize q + 1 := p]> (heapArray q); hsize := hsize q + 1 |} ({[p]} ∪ S).
Proof.
  intros R Hp Hnd V Hcap Ho Hix. constructor; cbn [nodes heapArray hsize].
  - rewrite size_union, size_singleton by set_solver. pose proof (rep_size _ _ _ R). lia.
  - done.
  - intros i Hi. destruct (decide (i = hsize q + 1)) as [->|Hne]; [rewrite lookup_insert_eq; exists p; set_solver|].
    rewrite lookup_insert_ne by done. destruct (rep_at _ _ _ R i) as (x & ? & ?); [lia|]. exists x. set_solver.
  - intros x [->%elem_of_singleton|Hx]%elem_of_union.
    + exists nd, (hsize q + 1). rewrite lookup_insert_eq. pose proof (rep_size _ _ _ R). split_and!; try done; lia.
    + destruct (rep_node _ _ _ R x Hx) as (n' & i & ? & ? & ? & ? & ? & ?). exists n', i. rewrite lookup_insert_ne by lia. split_and!; try done; lia.
  - intros i x n' Hi. destruct (decide (i = hsize q + 1)) as [->|Hne]; [rewrite lookup_insert_eq; intros [= <-]; congruence|].
    rewrite lookup_insert_ne by done. apply R. lia.
Qed.

(** [Rep] does not look at the nodes outside the set. *)
Lemma rep_other q S (p : Z) (nd : PathNode) : Rep ALLOCATE q S -> p ∉ S -> Rep ALLOCATE (q <| nodes ::= <[p := nd]> |>) S.
Proof.
  intros R Hp. assert (forall x, x ∈ S -> nodes (q <| nodes ::= <[p := nd]> |>) !! x = nodes q !! x) as E
    by (intros x Hx; cbn; apply lookup_insert_ne; set_solver).
  constructor; try apply R.
  - intros x Hx. rewrite E by done. by apply R.
  - intros i x n' Hi Ex Ex'. assert (x ∈ S) as Hx by (destruct (rep_at _ _ _ R i Hi) as (? & ? & ?); cbn in *; congruence).
    rewrite E in Ex' by done. by eapply R.
Qed.

Lemma hcost_other q S (p : Z) (nd : PathNode) (i : Z) : Rep ALLOCATE q S -> p ∉ S -> 1 <= i <= hsize q ->
  hcost (q <| nodes ::= <[p := nd]> |>) i = hcost q i.
Proof.
  intros R Hp Hi. destruct (rep_at _ _ _ R i Hi) as (x & Ex & Hx). unfold hcost, ncost. cbn. rewrite Ex.
  by rewrite lookup_insert_ne by set_solver.
Qed.

Lemma heap_Push_spec q S (p : Z) (nd : PathNode) : Rep ALLOCATE q S -> Sorted q -> p ∉ S -> nodes q !! p = Some nd ->
  fvalid (totalCost nd) -> hsize q + 1 < ALLOCATE ->
  exists q', Push ALLOCATE p q = Val q' /\ Rep ALLOCATE q' ({[p]} ∪ S) /\ Sorted q' /\
    strip <$> nodes q' = strip <$> <[p := nd <| inOpen := true |>]> (nodes q).
Proof.
  intros R HS Hp Hnd V Hcap. pose proof (rep_size _ _ _ R) as Hsz.
  set (nd1 := nd <| inOpen := true |> <| myIndex := Some (hsize q + 1) |>).
  set (q1 := {| nodes := <[p := nd1]> (nodes q); heapArray := <[hsize q + 1 := p]> (heapArray q); hsize := hsize q + 1 |}).
  assert (Rep ALLOCATE q1 ({[p]} ∪ S)) as R1.
  { set (q0 := q <| nodes ::= <[p := nd1]> |>). apply (rep_append q0 S p nd1); try done; [by apply (rep_other q S p nd1)|apply lookup_insert_eq]. }
  assert (strip <$> nodes q1 = strip <$> <[p := nd <| inOpen := true |>]> (nodes q)) as E1 by (cbn; by rewrite !fmap_insert).
  assert (forall i, 1 <= i <= hsize q -> hcost q1 i = hcost q i) as Hk.
  { intros i Hi. rewrite <-(hcost_other q S p nd1 i R Hp Hi). unfold hcost, q1. cbn. by rewrite lookup_insert_ne by lia. }
  assert (SortedUp (hsize q + 1) q1) as HU.
  { split; cbn [hsize q1].
    - intros j Hj Hne. pose proof (half_bounds j ltac:(lia)). rewrite !Hk by lia. apply HS. lia.
    - intros j Hj E. pose proof (half_bounds j ltac:(lia)). lia. }
  assert (Push ALLOCATE p q = if 0 <? hsize q then sift_up ALLOCATE (Z.to_pos (hsize q + 1)) q1 else Val q1) as ->.
  { unfold Push, node_set, heap_put, deref. rewrite Hnd. cbn. unfold Z.succ. destruct (Z.ltb_spec 0 (hsize q)).
    - assert ((0 <=? hsize q + 1) && (hsize q + 1 <? ALLOCATE) = true) as -> by lia. cbn. rewrite lookup_insert_eq. cbn. by rewrite insert_insert_eq.
    - assert (hsize q = 0) as Hz by lia. assert ((1 <? ALLOCATE) = true) as -> by lia. cbn. rewrite lookup_insert_eq. cbn.
      rewrite insert_insert_eq. unfold q1, nd1. rewrite Hz. done. }
  destruct (Z.ltb_spec 0 (hsize q)).
  - destruct (sift_up_spec ({[p]} ∪ S) (Z.to_pos (hsize q + 1)) q1 R1) as (q' & -> & ? & ? & E'); rewrite ?Z2Pos.id by lia; [cbn; lia|done|].
    exists q'. split_and!; try done. congruence.
  - exists q1. split_and!; try done. intros i Hi. cbn in Hi. lia.
Qed.

(** [Update], after the total cost of a queued node was lowered. *)
Lemma Update_spec q S (p : Z) (nd nd' : PathNode) : Rep ALLOCATE q S -> Sorted q -> p ∈ S -> nodes q !! p = Some nd ->
  myIndex nd' = myIndex nd -> inOpen nd' = inOpen nd -> fvalid (totalCost nd') -> okey (totalCost nd') <= okey (totalCost nd) ->
  exists q', UpdateNode ALLOCATE p (q <| nodes ::= <[p := nd']> |>) = Val q' /\ Rep ALLOCATE q' S /\ Sorted q' /\
    strip <$> nodes q' = strip <$> <[p := nd']> (nodes q).
Proof.
  intros R HS Hp Hnd Hix Ho V Hle. set (q1 := q <| nodes ::= <[p := nd']> |>).
  destruct (rep_node _ _ _ R p Hp) as (n0 & i & E0 & _ & Ho0 & Hi0 & Hi & Ehi). simplify_eq.
  assert (Rep ALLOCATE q1 S) as R1.
  { constructor; try apply R; cbn [q1 nodes heapArray hsize set_field].
    - intros x Hx. cbn. destruct (decide (x = p)) as [->|Hne].
      + rewrite lookup_insert_eq. exists nd', i. split_and!; try done; try congruence; lia.
      + rewrite lookup_insert_ne by done. by apply R.
    - intros j x n' Hj Ex. cbn in Ex |- *. destruct (decide (x = p)) as [->|Hne].
      + rewrite lookup_insert_eq. intros [= <-]. rewrite Hix. by eapply R.
      + rewrite lookup_insert_ne by done. by eapply R. }
  assert (forall j, 1 <= j <= hsize q -> hcost q1 j <= hcost q j /\ (j <> i -> hcost q1 j = hcost q j)) as Hk.
  { intros j Hj. destruct (rep_at _ _ _ R j Hj) as (x & Ex & Hx). unfold hcost, ncost. cbn. rewrite Ex.
    destruct (decide (x = p)) as [->|Hne]; [|by rewrite lookup_insert_ne by done].
    rewrite lookup_insert_eq, Hnd. split; [done|]. intros Hji. by destruct (rep_pos_ne q S j i p p R Hj Hi Hji Ex Ehi). }
  assert (SortedUp i q1) as HU.
  { split; cbn.
    - intros j Hj Hne. pose proof (half_bounds j ltac:(lia)) as Hh. pose proof (HS j Hj). destruct (Hk j ltac:(lia)) as [_ ->]; [|done].
      destruct (Hk (j / 2) ltac:(lia)). lia.
    - intros j Hj <- Hi1. pose proof (half_bounds j ltac:(lia)) as Hh. pose proof (half_bounds (j / 2) Hi1) as Hh2.
      pose proof (HS j Hj). pose proof (HS (j / 2) ltac:(lia)). destruct (Hk j ltac:(lia)) as [_ ->]; [|lia].
      destruct (Hk (j / 2 / 2) ltac:(lia)). lia. }
  assert (UpdateNode ALLOCATE p q1 = if 1 <? hsize q then sift_up ALLOCATE (Z.to_pos i) q1 else Val q1) as ->.
  { unfold UpdateNode, deref. cbn. case_match; [|done]. rewrite lookup_insert_eq. cbn. by rewrite Hix, Hi0. }
  destruct (Z.ltb_spec 1 (hsize q)).
  - destruct (sift_up_spec S (Z.to_pos i) q1 R1) as (q' & -> & ? & ? & E'); rewrite ?Z2Pos.id by lia; [done|done|]. eauto.
  - exists q1. split_and!; try done. intros j Hj. cbn in Hj. lia.
Qed.

(** No queued node is cheaper than the one on top. *)
Lemma top_cheapest q (i : Z) : Sorted q -> 1 <= i <= hsize q -> hcost q 1 <= hcost q i.
Proof.
  intros HS [H1 Hi]. revert Hi. induction i as [i IH] using (well_founded_induction (Z.lt_wf 1)). intros Hi.
  destruct (decide (i = 1)) as [->|]; [done|]. pose proof (half_bounds i ltac:(lia)).
  transitivity (hcost q (i / 2)); [apply IH; lia|apply HS; lia].
Qed.

Lemma size_levels (n : Z) : 0 < n -> n < 2 ^ Z.of_nat (levels n).
Proof.
  intros Hn. unfold levels. destruct n as [|p|]; try lia. cbn [Z.to_pos]. clear Hn.
  induction p as [p IH|p IH|]; cbn [Pos.size_nat]; rewrite ?Nat2Z.inj_succ, ?Z.pow_succ_r by lia; [lia|lia|done].
Qed.

(** The last node moved to the top, the queue one shorter. *)
Lemma rep_remove_top q S (p l : Z) (nd ndl : PathNode) : Rep ALLOCATE q S -> 1 < hsize q ->
  heapArray q !! 1 = Some p -> heapArray q !! hsize q = Some l -> nodes q !! l = Some ndl ->
  Rep ALLOCATE {| nodes := <[l := ndl <| myIndex := Some 1 |>]> (<[p := nd]> (nodes q));
                  heapArray := <[1 := l]> (heapArray q); hsize := hsize q - 1 |} (S ∖ {[p]}).
Proof.
  intros R Hsz Ep El Hndl. assert (p <> l) as Hpl by (eapply (rep_pos_ne q S 1 (hsize q)); try done; lia).
  assert (p ∈ S) as HpS by (destruct (rep_at _ _ _ R 1) as (? & ? & ?); [lia|congruence]).
  assert (l ∈ S) as HlS by (destruct (rep_at _ _ _ R (hsize q)) as (? & ? & ?); [lia|congruence]).
  destruct (rep_node _ _ _ R l HlS) as (n0 & il & E0 & Vl & Ol & Il & Hil & Ehl). simplify_eq.
  assert (forall i x, 1 < i <= hsize q - 1 -> heapArray q !! i = Some x -> x <> p /\ x <> l) as Hne.
  { intros i x Hi Ex. split; [eapply (rep_pos_ne q S i 1)|eapply (rep_pos_ne q S i (hsize q))]; try done; lia. }
  constructor; cbn [nodes heapArray hsize].
  - rewrite size_difference, size_singleton by set_solver. pose proof (rep_size _ _ _ R). lia.
  - pose proof (rep_cap _ _ _ R). lia.
  - intros i Hi. destruct (decide (i = 1)) as [->|Hi1]; [rewrite lookup_insert_eq; exists l; set_solver|].
    rewrite lookup_insert_ne by done. destruct (rep_at _ _ _ R i) as (x & Ex & Hx); [lia|]. exists x.
    destruct (Hne i x ltac:(lia) Ex). set_solver.
  - intros x [Hx Hxp]%elem_of_difference. apply not_elem_of_singleton in Hxp. destruct (decide (x = l)) as [->|Hxl].
    + eexists _, 1. rewrite !lookup_insert_eq. split_and!; try done; lia.
    + destruct (rep_node _ _ _ R x Hx) as (nx & i & Enx & Vx & Ox & Ix & Hi & Exi). exists nx, i.
      assert (i <> 1) by congruence. assert (i <> hsize q) by congruence.
      rewrite !lookup_insert_ne by done. split_and!; try done; lia.
  - intros i x nx Hi. destruct (decide (i = 1)) as [->|Hi1].
    + rewrite lookup_insert_eq. intros [= <-]. rewrite lookup_insert_eq. by intros [= <-].
    + rewrite lookup_insert_ne by done. intros Ex. destruct (Hne i x ltac:(lia) Ex). rewrite !lookup_insert_ne by done.
      eapply R; [lia|done].
Qed.

Lemma Pop_spec q S : Rep ALLOCATE q S -> Sorted q -> 0 < hsize q ->
  exists p nd q', Pop ALLOCATE q = Val (p, q') /\ p ∈ S /\ nodes q !! p = Some nd /\ (forall x, x ∈ S -> ncost q p <= ncost q x) /\
    Rep ALLOCATE q' (S ∖ {[p]}) /\ Sorted q' /\ strip <$> nodes q' = strip <$> <[p := nd <| inOpen := false |>]> (nodes q).
Proof.
  intros R HS Hsz. pose proof (rep_cap _ _ _ R) as Hcap.
  destruct (rep_at _ _ _ R 1 ltac:(lia)) as (p & Ep & Hp). destruct (rep_node _ _ _ R p Hp) as (nd & i & End & V & _).
  destruct (rep_at _ _ _ R (hsize q) ltac:(lia)) as (l & El & Hl). destruct (rep_node _ _ _ R l Hl) as (ndl & il & Endl & Vl & _).
  exists p, nd. unfold Pop, node_set, heap_put, deref. rewrite Ep. cbn. rewrite End. cbn. rewrite El. cbn.
  rewrite (proj2 (Z.ltb_lt 1 ALLOCATE)) by lia. cbn. unfold Z.pred. fold (hsize q - 1).
  assert (forall x, x ∈ S -> ncost q p <= ncost q x) as Hmin.
  { intros x Hx. destruct (rep_node _ _ _ R x Hx) as (nx & j & _ & _ & _ & _ & Hj & Ej).
    pose proof (top_cheapest q j HS Hj) as H. unfold hcost in H. by rewrite Ep, Ej in H. }
  destruct (Z.eqb_spec (hsize q + -1) 0) as [Hz|Hz].
  - eexists. split; [done|]. assert (S = {[p]}) as ->.
    { pose proof (rep_size _ _ _ R). assert (size S = 1%nat) as (x & ->%leibniz_equiv)%size_1_elem_of by lia. set_solver. }
    split_and!; try done; [|intros j Hj; cbn in Hj; lia]. rewrite difference_diag_L. constructor; cbn; try lia; set_solver.
  - assert (p <> l) as Hpl by (eapply (rep_pos_ne q S 1 (hsize q)); try done; lia).
    rewrite lookup_insert_eq. cbn. rewrite lookup_insert_ne, Endl by done. cbn.
    pose proof (rep_remove_top q S p l (nd <| inOpen := false |>) ndl R ltac:(lia) Ep El Endl) as R1.
    cbn in R1. replace (hsize q + -1) with (hsize q - 1) in * by lia.
    set (q1 := {| nodes := _; heapArray := _; hsize := _ |}) in *.
    assert (strip <$> nodes q1 = strip <$> <[p := nd <| inOpen := false |>]> (nodes q)) as E1.
    { cbn. apply (strip_insert _ _ ndl); [done|]. by rewrite lookup_insert_ne. }
    assert (forall i, 1 < i <= hsize q - 1 -> hcost q1 i = hcost q i) as Hk.
    { intros j Hj. destruct (rep_at _ _ _ R j) as (x & Ex & Hx); [lia|].
      assert (x <> p) by (eapply (rep_pos_ne q S j 1); try done; lia). assert (x <> l) by (eapply (rep_pos_ne q S j (hsize q)); try done; lia).
      unfold hcost, ncost, q1. cbn. rewrite lookup_insert_ne by lia. rewrite Ex. by rewrite !lookup_insert_ne. }
    destruct (sift_down_spec (levels (hsize q - 1)) 1 q1 _ R1) as (q' & -> & R' & S' & E'); cbn -[Z.mul Z.div].
    + lia.
    + split; cbn -[Z.div]; [|lia]. intros j Hj Hj1. pose proof (half_bounds j ltac:(lia)). rewrite !Hk by lia. apply HS. lia.
    + pose proof (size_levels (hsize q - 1) ltac:(lia)). lia.
    + exists q'. split_and!; try done. exact (eq_trans E' E1).
Qed.

End Spec.

(** ** Refinement *)

(** What a search does with the queue: it gives a node a total cost and pushes it, lowers
    the cost of a queued node and lets the queue know, or takes a node out. *)
Inductive qop := OpPush (p : Z) (c : float) | OpLower (p : Z) (c : float) | OpPop.

Definition qstep (ALLOCATE : Z) (o : qop) (q : OpenQueueBH) : out (option Z * OpenQueueBH) :=
  match o with
  | OpPush p c => q ← node_set p (fun nd => nd <| totalCost := c |>) q; q ← Push ALLOCATE p q; Val (None, q)
  | OpLower p c => q ← node_set p (fun nd => nd <| totalCost := c |>) q; q ← UpdateNode ALLOCATE p q; Val (None, q)
  | OpPop => '(p, q) ← Pop ALLOCATE q; Val (Some p, q)
  end.

(** The specification: a finite map from the queued nodes to the ranks of their costs,
    of which [OpPop] takes out some cheapest node. *)
Inductive pq_step (A : gmap Z Z) : qop -> option Z -> gmap Z Z -> Prop :=
  | pq_push p c : pq_step A (OpPush p c) None (<[p := okey c]> A)
  | pq_lower p c : pq_step A (OpLower p c) None (<[p := okey c]> A)
  | pq_pop p k : A !! p = Some k -> (forall x k', A !! x = Some k' -> k <= k') -> pq_step A OpPop (Some p) (delete p A).

(** What the caller has to respect. *)
Definition enabled (ALLOCATE : Z) (q : OpenQueueBH) (A : gmap Z Z) (o : qop) : Prop :=
  match o with
  | OpPush p c => A !! p = None /\ is_Some (nodes q !! p) /\ fvalid c /\ Z.of_nat (size A) + 1 < ALLOCATE
  | OpLower p c => fvalid c /\ exists k, A !! p = Some k /\ okey c <= k
  | OpPop => A <> ∅
  end.

Definition Represents (ALLOCATE : Z) (q : OpenQueueBH) (A : gmap Z Z) : Prop :=
  Rep ALLOCATE q (dom A) /\ Sorted q /\ forall p k, A !! p = Some k -> ncost q p = k.

Lemma ncost_update (q q' : OpenQueueBH) (p x : Z) (nd : PathNode) : strip <$> nodes q' = strip <$> <[p := nd]> (nodes q) ->
  ncost q' x = if decide (x = p) then okey (totalCost nd) else ncost q x.
Proof.
  intros E. rewrite (ncost_strip {| nodes := <[p := nd]> (nodes q); heapArray := ∅; hsize := 0 |} q') by done. unfold ncost. cbn.
  case_decide as Hx; [subst; by rewrite lookup_insert_eq|by rewrite lookup_insert_ne].
Qed.

(** C34. The open queue of the search is a priority queue: each operation the search performs
    on it is defined, leaves a well-formed heap whose nodes know their positions, and
    matches the specification; in particular [Pop] takes out a cheapest queued node. *)
Theorem open_queue_refines (ALLOCATE : Z) (q : OpenQueueBH) (A : gmap Z Z) (o : qop) :
  Represents ALLOCATE q A -> enabled ALLOCATE q A o ->
  exists r q' A', qstep ALLOCATE o q = Val (r, q') /\ pq_step A o r A' /\ Represents ALLOCATE q' A'.
Proof.
  intros (R & HS & HA) He. pose proof (rep_size _ _ _ R) as Hsz. rewrite size_dom in Hsz.
  destruct o as [p c|p c|]; cbn [enabled qstep] in *.
  - destruct He as (Hp & [nd Hnd] & V & Hc). unfold node_set, deref. rewrite Hnd. cbn.
    set (q1 := {| nodes := _; heapArray := _; hsize := _ |}).
    assert (p ∉ dom A) as Hd by (by apply not_elem_of_dom).
    destruct (heap_Push_spec (ALLOCATE := ALLOCATE) q1 (dom A) p (nd <| totalCost := c |>)) as (q' & -> & R' & S' & E'); try done.
    + by apply (rep_other q _ p).
    + assert (forall i, 1 <= i <= hsize q -> hcost q1 i = hcost q i) as Hk by (intros i; exact (hcost_other q (dom A) p _ i R Hd)).
      intros i Hi. change (1 < i <= hsize q) in Hi. pose proof (half_bounds i ltac:(lia)). rewrite !Hk by lia. by apply HS.
    + apply lookup_insert_eq.
    + cbn. lia.
    + cbn in *. exists None, q', (<[p := okey c]> A). split_and!; [done|constructor|]. split; [|split; [done|]].
      * by rewrite dom_insert_L.
      * intros x k Hx. rewrite (ncost_update q q' p x (nd <| totalCost := c |> <| inOpen := true |>)) by (rewrite E'; by rewrite insert_insert_eq).
        rewrite lookup_insert in Hx. repeat case_decide; simplify_eq/=; try done. by apply HA.
  - destruct He as (V & k & Hk & Hle). assert (p ∈ dom A) as Hd by (by apply elem_of_dom_2 in Hk).
    destruct (rep_node _ _ _ R p Hd) as (nd & i & Hnd & _). unfold node_set, deref. rewrite Hnd. cbn.
    destruct (Update_spec q (dom A) p nd (nd <| totalCost := c |>) R HS Hd Hnd) as (q' & E0 & R' & S' & E'); try done.
    { cbn. specialize (HA p k Hk). unfold ncost in HA. rewrite Hnd in HA. lia. }
    cbn in E0. rewrite E0. cbn. exists None, q', (<[p := okey c]> A). split_and!; [done|constructor|]. split; [|split; [done|]].
    + rewrite dom_insert_lookup_L by done. done.
    + intros x k' Hx. rewrite (ncost_update q q' p x _ E'). rewrite lookup_insert in Hx. repeat case_decide; simplify_eq/=; try done. by apply HA.
  - assert (0 < hsize q) as Hpos.
    { destruct (decide (hsize q = 0)) as [Hz|]; [|lia]. destruct He. apply map_size_empty_inv. lia. }
    destruct (Pop_spec q (dom A) R HS Hpos) as (p & nd & q' & -> & Hp & Hnd & Hmin & R' & S' & E').
    apply elem_of_dom in Hp as [k Hk]. cbn. exists (Some p), q', (delete p A). split_and!; [done| |split; [|split; [done|]]].
    + econstructor; [done|]. intros x k' Hx. rewrite <-(HA p k Hk), <-(HA x k' Hx). apply Hmin. by apply elem_of_dom_2 in Hx.
    + by rewrite dom_delete_L.
    + intros x k' [Hxp Hx]%lookup_delete_Some. rewrite (ncost_update q q' p x _ E'). rewrite decide_False by done. by apply HA.
Qed.

(** The first node of a search. *)
Definition demo_queue : OpenQueueBH := {| nodes := {[ 5 := PathNode_Init 1 1 0 0 FLT_BIG None ]}; heapArray := ∅; hsize := 0 |}.

Lemma open_queue_refines_witness : exists q', qstep 12 (OpPush 5 (float_of_Z 3)) demo_queue = Val (None, q') /\ Represents 12 q' {[ 5 := okey (float_of_Z 3) ]}.
Proof.
  destruct (open_queue_refines 12 demo_queue ∅ (OpPush 5 (float_of_Z 3))) as (r & q' & A' & E & Hstep & HR).
  - split; [|split; [|done]].
    + constructor; cbn; try lia; set_solver.
    + intros i Hi. cbn in Hi. lia.
  - cbn. split_and!; [done|by eexists|by vm_compute|done].
  - inversion Hstep; subst. exists q'. done.
Defined.
