(* ===== verification/MicroPather.v ===== *)
(** The path search (terrain/path/MicroPather.h, terrain/path/MicroPather.cpp).

    [CMicroPather] keeps one [PathNode] per cell of the move map, which is the path map with a
    border of blocked cells around it.  Its four searches share one loop: take the
    cheapest open node, stop if it is a goal, otherwise try to improve the nodes one step
    away.  They differ in the steps, in what a step costs, in what is a goal and, for
    [MakeCostMap], in which field holds the cost compared; [Rules] collects what differs
    and [relax], [expand] and [search_loop] are the code they share, the instances follow
    each function.  The loop takes fuel, [None] when it runs out.

    A [void*] node is its index in [pathNodeMem]; [moveFun] and [threatFun] are the
    [CostFunc] callbacks of the query, which may themselves be undefined on an index. *)

From S2P Require Import Prelude Outcome Float32 FloatOrder OpenQueue.

(** 1.4142f, 0.5858f, COST_BASE, COST_STRUCT * 3 / 4 and COST_BLOCKED. *)
Definition SQRT_2 : float := S754_finite false 11863169 (-23).
Definition C_05858 : float := S754_finite false 9828093 (-24).
Definition COST_BASE : float := float_of_Z 1.
Definition COST_STRUCT_3_4 : float := float_of_Z 300.
Definition COST_BLOCKED : float := float_of_Z 1000.
Definition COST_BLOCK : float := float_of_Z 1001.

(** The results. *)
Definition SOLVED : Z := 0.
Definition NO_SOLUTION : Z := 1.

Record CMicroPather := {
  mapSizeX : Z; mapSizeY : Z;
  pathNodeMem : gmap Z PathNode;
  heapArrayMem : gmap Z Z;
  frame : Z;
  xEndNode : Z; yEndNode : Z;
  isRunning : bool;
  canMoveArray : gmap Z float;
  threatArray : gmap Z float;
  moveFun : Z -> out float;
  threatFun : Z -> out float;
}.

#[export] Instance CMicroPather_eta : Eta CMicroPather := fun p =>
  Build_CMicroPather (mapSizeX p) (mapSizeY p) (pathNodeMem p) (heapArrayMem p) (frame p) (xEndNode p) (yEndNode p) (isRunning p)
    (canMoveArray p) (threatArray p) (moveFun p) (threatFun p).

Definition ALLOCATE (p : CMicroPather) : Z := mapSizeX p * mapSizeY p.

(** ** Construction, reset *)

Definition cell_x (X i : Z) : Z := i - i / X * X.
Definition cell_y (X i : Z) : Z := i / X.
Definition cell_index2 (X i : Z) : Z := (cell_y X i - 1) * (X - 2) + cell_x X i - 1.

Definition AllocatePathNode (X Y : Z) : gmap Z PathNode :=
  list_to_map ((fun i => (i, PathNode_Init (cell_x X i) (cell_y X i) (cell_index2 X i) 0 FLT_BIG None)) <$> seqZ 0 (X * Y)).

(** [CMicroPather(pf, sizeX, sizeY)]; the map data is set before a search. *)
Definition CMicroPather_new (sizeX sizeY : Z) : CMicroPather :=
  {| mapSizeX := sizeX + 2; mapSizeY := sizeY + 2; pathNodeMem := AllocatePathNode (sizeX + 2) (sizeY + 2); heapArrayMem := ∅;
     frame := 0; xEndNode := 0; yEndNode := 0; isRunning := false; canMoveArray := ∅; threatArray := ∅;
     moveFun := fun _ => UB; threatFun := fun _ => UB |}.

Definition SetMapData (cm th : gmap Z float) (mf tf : Z -> out float) (p : CMicroPather) : CMicroPather :=
  p <| canMoveArray := cm |> <| threatArray := th |> <| moveFun := mf |> <| threatFun := tf |>.

(** The smart ordering: the four axis steps, then the four diagonal ones. *)
Definition offsets (X : Z) : list Z := [-1; 1; X; - X; - X - 1; - X + 1; X - 1; X + 1].

Definition Reset (p : CMicroPather) : CMicroPather :=
  p <| pathNodeMem ::= fmap (PathNode_Reuse 0) |> <| frame := 1 |>.

(** [++frame; if (frame > 65534) Reset();] *)
Definition next_frame (p : CMicroPather) : CMicroPather :=
  let p := p <| frame ::= Z.succ |> in
  if 65534 <? frame p then Reset p else p.

(** ** Cells *)

Definition CantMoveTo (p : CMicroPather) (node : Z) : out bool := c ← deref (canMoveArray p) node; Val (flt COST_BLOCKED c).

(** [if (x == 0) x = 1; else if (x == size - 1) x = size - 2;] *)
Definition off_edge (size x : Z) : Z := if x =? 0 then 1 else if x =? size - 1 then size - 2 else x.

Definition FixNode (X Y node : Z) : Z := off_edge Y (cell_y X node) * X + off_edge X (cell_x X node).

(** The fixed start and end; the end's coordinates are kept for the estimates. *)
Definition FixStartEndNode (start end_ : Z) (p : CMicroPather) : Z * Z * CMicroPather :=
  let X := mapSizeX p in let Y := mapSizeY p in
  (FixNode X Y start, FixNode X Y end_,
   p <| xEndNode := off_edge X (cell_x X end_) |> <| yEndNode := off_edge Y (cell_y X end_) |>).

Definition DiagonalDistance (xStart yStart xEnd yEnd : Z) : float :=
  let dx := Z.abs (xStart - xEnd) in let dy := Z.abs (yStart - yEnd) in
  fsub (float_of_Z (dx + dy)) (fmul C_05858 (float_of_Z (Z.min dx dy))).

Definition AxisDistance (xStart yStart xEnd yEnd : Z) : float :=
  let dx := Z.abs (xStart - xEnd) in let dy := Z.abs (yStart - yEnd) in
  if (0 <? dx) && (0 <? dy) then float_of_Z (Z.min dx dy) else if 0 <? dx then float_of_Z dx else float_of_Z dy.

Definition LeastCostEstimateLocal (p : CMicroPather) (x y : Z) : float := DiagonalDistance x y (xEndNode p) (yEndNode p).
Definition AxisCostEstimate (p : CMicroPather) (x y : Z) : float := AxisDistance x y (xEndNode p) (yEndNode p).

(** ** The shared loop *)

(** The steps of a node: offset and whether it is diagonal ([i > 3]). *)
Definition steps8 (X : Z) : list (Z * bool) := imap (fun i o => (o, bool_decide (3 < i)%nat)) (offsets X).
Definition steps4 (X : Z) : list (Z * bool) := take 4 (steps8 X).

Record Rules := {
  rsteps : list (Z * bool);
  rblocked : Z -> out bool;                        (** the terrain test of the cell stepped to *)
  runsafe : Z -> out bool;                         (** the threat test, by [index2] *)
  rcost : Z -> Z -> out float;                     (** [nodeCost] of a cell, by index and [index2] *)
  rtotal : bool;                                   (** the compared cost is [totalCost] *)
  rimprove : bool -> Z -> Z -> float -> float -> PathNode -> out PathNode;
                                                   (** diagonal, cell, [index2], new cost, travel so far: the node's new costs *)
}.

Definition prim (r : Rules) (nd : PathNode) : float := if rtotal r then totalCost nd else costFromStart nd.

(** The node's data refreshed for this search. *)
Definition fresh (r : Rules) (fr : Z) (nd : PathNode) : PathNode :=
  if nframe nd =? fr then nd
  else let nd := PathNode_Reuse fr nd in if rtotal r then nd <| totalCost := costFromStart nd |> else nd.

Definition scale (diag : bool) (c : float) : float := if diag then fmul c SQRT_2 else c.

(** The body of the loop over the directions, for a step from [node] whose cost is [c] and travel [t]. *)
Definition relax (r : Rules) (A fr node : Z) (c t : float) (d : Z * bool) (q : OpenQueueBH) : out OpenQueueBH :=
  let indexEnd := d.1 + node in
  blocked ← rblocked r indexEnd;
  if (blocked : bool) then Val q
  else
    nd ← deref (nodes q) indexEnd;
    unsafe ← runsafe r (index2 nd);
    if (unsafe : bool) then Val q
    else
      let nd := fresh r fr nd in
      let q := q <| nodes ::= <[indexEnd := nd]> |> in
      nodeCost ← rcost r indexEnd (index2 nd);
      let newCost := fadd c (scale d.2 nodeCost) in
      if fle (prim r nd) newCost then Val q
      else
        nd ← rimprove r d.2 indexEnd (index2 nd) newCost t (nd <| parent := Some node |>);
        let q := q <| nodes ::= <[indexEnd := nd]> |> in
        if inOpen nd then UpdateNode A indexEnd q
        else q ← node_set indexEnd (fun nd => nd <| inClosed := false |>) q; Push A indexEnd q.

Definition expand (r : Rules) (A fr node : Z) (nd : PathNode) (q : OpenQueueBH) : out OpenQueueBH :=
  each (relax r A fr node (prim r nd) (costFromStart nd)) (rsteps r) q.

(** [while (!open.Empty())]: the goal reached, if any, and the memory left.  [goal] is the test of the popped node,
    [visit] what else is done with it. *)
Fixpoint search_loop {V} (fuel : nat) (r : Rules) (A fr : Z) (goal : Z -> PathNode -> out bool) (visit : PathNode -> V -> out V)
    (v : V) (q : OpenQueueBH) : out (option (option Z * V * OpenQueueBH)) :=
  match fuel with
  | O => Val None
  | S fuel' =>
      if Empty q then Val (Some (None, v, q))
      else
        '(node, q) ← Pop A q;
        nd ← deref (nodes q) node;
        reached ← goal node nd;
        if (reached : bool) then Val (Some (Some node, v, q))
        else
          v ← visit nd v;
          q ← expand r A fr node nd q;
          q ← node_set node (fun nd => nd <| inClosed := true |>) q;
          search_loop fuel' r A fr goal visit v q
  end.

(** ** The path *)

(** [while (it->parent) { ++count; it = it->parent; }]: the chain has no more nodes than there are; a longer one never ends,
    which is undefined. *)
Fixpoint count_parents (fuel : nat) (m : gmap Z PathNode) (it count : Z) : out Z :=
  match fuel with
  | O => UB
  | S fuel' => nd ← deref m it; match parent nd with Some it' => count_parents fuel' m it' (count + 1) | None => Val count end
  end.

(** [path[i] = v]. *)
Definition path_put (i v : Z) (path : list Z) : out (list Z) :=
  if (0 <=? i) && (i <? size_of path) then Val (<[Z.to_nat i := v]> path) else UB.

(** [while (it->parent) { path[count] = it->index2; it = it->parent; --count; }] *)
Fixpoint fill_path (fuel : nat) (m : gmap Z PathNode) (it count : Z) (path : list Z) : out (list Z) :=
  match fuel with
  | O => UB
  | S fuel' =>
      nd ← deref m it;
      match parent nd with
      | Some it' => path ← path_put count (index2 nd) path; fill_path fuel' m it' (count - 1) path
      | None => Val path
      end
  end.

Definition GoalReached (m : gmap Z PathNode) (node start end_ : Z) : out (list Z) :=
  let fuel := S (size m) in
  s ← deref m start;
  if start =? end_ then Val [index2 s]
  else
    count ← count_parents fuel m node 1;
    n ← deref m node;
    if count <? 3 then Val [index2 s; index2 n]
    else
      path ← path_put 0 (index2 s) (replicate (Z.to_nat count) 0);
      path ← path_put (count - 1) (index2 n) path;
      match parent n with
      | Some it => fill_path fuel m it (count - 2) path
      | None => UB
      end.

(** ** The searches *)

(** The queue over the pather's memory, the start node put in it, and back. *)
Definition open_queue (p : CMicroPather) : OpenQueueBH := {| nodes := pathNodeMem p; heapArray := heapArrayMem p; hsize := 0 |}.

Definition push_start (p : CMicroPather) (start : Z) (total : float) (q : OpenQueueBH) : out OpenQueueBH :=
  q ← node_set start (fun nd => (PathNode_Reuse (frame p) nd) <| costFromStart := f0 |> <| totalCost := total |>) q;
  Push (ALLOCATE p) start q.

Definition store (q : OpenQueueBH) (p : CMicroPather) : CMicroPather := p <| pathNodeMem := nodes q |> <| heapArrayMem := heapArray q |>.

Definition set_end (b : bool) (node : Z) (q : OpenQueueBH) : out OpenQueueBH := node_set node (fun nd => nd <| isEndNode := b |>) q.

(** [canMoveArray[indexEnd] + moveFun(index2) + threatFun(index2)]. *)
Definition node_cost (p : CMicroPather) (i i2 : Z) : out float :=
  c ← deref (canMoveArray p) i; mv ← moveFun p i2; th ← threatFun p i2; Val (fadd (fadd c mv) th).

(** [threatArray[index2] > maxThreat]. *)
Definition too_unsafe (p : CMicroPather) (maxThreat : float) (i2 : Z) : out bool :=
  t ← deref (threatArray p) i2; Val (flt maxThreat t).

(** [costFromStart = newCost; totalCost = newCost + estimate(x2, y2)]. *)
Definition improve_astar (est : Z -> Z -> float) (newCost : float) (nd : PathNode) : PathNode :=
  nd <| costFromStart := newCost |> <| totalCost := fadd newCost (est (x2 nd) (y2 nd)) |>.

Definition astar_rules (p : CMicroPather) (maxThreat : float) : Rules :=
  {| rsteps := steps8 (mapSizeX p);
     rblocked := CantMoveTo p;
     runsafe := too_unsafe p maxThreat;
     rcost := node_cost p;
     rtotal := false;
     rimprove := fun _ _ _ newCost _ nd => Val (improve_astar (LeastCostEstimateLocal p) newCost nd) |}.

(** The test of the searches that mark their end nodes; they do nothing else with a node. *)
Definition is_end (_ : Z) (nd : PathNode) : out bool := Val (isEndNode nd).
Definition no_visit (_ : PathNode) (v : ()) : out () := Val v.

Record Answer := { result : Z; path : list Z; cost : float }.

(** What [GoalReached] and the return value report. *)
Definition answer (start : Z) (hit : option Z) (path0 : list Z) (q : OpenQueueBH) : out Answer :=
  match hit with
  | Some n => path ← GoalReached (nodes q) n start n; nd ← deref (nodes q) n;
              Val {| result := SOLVED; path := path; cost := costFromStart nd |}
  | None => Val {| result := NO_SOLUTION; path := path0; cost := f0 |}
  end.

(** The target closest to the start, by the estimate; the targets are fixed in place. *)
Definition best_goal (X Y start : Z) (targets : list Z) (end0 : Z) : Z * list Z :=
  let best := foldl (fun '(least, e) t =>
                let t := FixNode X Y t in
                let c := DiagonalDistance (cell_x X start) (cell_y X start) (cell_x X t) (cell_y X t) in
                if flt c least then (c, t) else (least, e)) (FLT_MAX, end0) targets in
  (best.2, FixNode X Y <$> targets).

(** The path written so far is [path0]; also returned are [endNodes] and [targets], which the search fixes in place. *)
Definition FindBestPathToAnyGivenPoint (fuel : nat) (startNode : Z) (endNodes targets : list Z) (maxThreat : float) (path0 : list Z)
    (p : CMicroPather) : out (option (Answer * list Z * list Z * CMicroPather)) :=
  match endNodes with
  | [] => Val (Some ({| result := NO_SOLUTION; path := path0; cost := f0 |}, endNodes, targets, p <| isRunning := false |>))
  | end0 :: _ =>
      let X := mapSizeX p in let Y := mapSizeY p in
      let '(endNode, targets) := best_goal X Y startNode targets end0 in
      let '(startNode, _, p) := FixStartEndNode startNode endNode (p <| isRunning := true |>) in
      let p := next_frame p in
      q ← push_start p startNode (LeastCostEstimateLocal p (cell_x X startNode) (cell_y X startNode)) (open_queue p);
      let endNodes := FixNode X Y <$> endNodes in
      q ← each (set_end true) endNodes q;
      r ← search_loop fuel (astar_rules p maxThreat) (ALLOCATE p) (frame p) is_end no_visit () q;
      match r with
      | None => Val None
      | Some (hit, _, q) =>
          a ← answer startNode hit path0 q;
          q ← each (set_end false) endNodes q;
          Val (Some (a, endNodes, targets, (store q p) <| isRunning := false |>))
      end
  end.

(** [xend[a] = int(sqrtf(radius * radius - z * z))] with [z = a - radius]. *)
Definition xend_entry (radius a : Z) : option Z :=
  let z := float_of_Z (a - radius) in
  ftrunc (SFsqrt 24 128 (fsub (float_of_Z (radius * radius)) (fmul z z))).

Definition xend_table (radius : Z) : option (list Z) := mapM (xend_entry radius) (seqZ 0 (2 * radius + 1)).

(** The box test, then the circle and the hit test. *)
Definition on_radius (p : CMicroPather) (x y radius : Z) (xend : list Z) (hitTest : Z * Z -> Z * Z -> bool) (node : Z) : out bool :=
  let ystart := cell_y (mapSizeX p) node in let xstart := cell_x (mapSizeX p) node in
  if (y - radius <=? ystart) && (ystart <=? y + radius) && ((x - radius <=? xstart) && (xstart <=? x + radius)) then
    let relativeY := ystart - (yEndNode p - radius) in
    let relativeX := Z.abs (xstart - xEndNode p) in
    match xend !! Z.to_nat relativeY with
    | Some xe => Val ((relativeX <=? xe) && hitTest (xstart - 1, ystart - 1) (x - 1, y - 1))
    | None => UB
    end
  else Val false.

Definition FindBestPathToPointOnRadius (fuel : nat) (startNode endNode radius : Z) (maxThreat : float) (hitTest : Z * Z -> Z * Z -> bool)
    (path0 : list Z) (p : CMicroPather) : out (option (Answer * CMicroPather)) :=
  if radius <=? 0 then Val (Some ({| result := NO_SOLUTION; path := path0; cost := f0 |}, p <| isRunning := false |>))
  else
    let X := mapSizeX p in
    let '(startNode, endNode, p) := FixStartEndNode startNode endNode (p <| isRunning := true |>) in
    let p := next_frame p in
    q ← push_start p startNode (LeastCostEstimateLocal p (cell_x X startNode) (cell_y X startNode)) (open_queue p);
    match xend_table radius with
    | None => UB
    | Some xend =>
        let goal := fun node (_ : PathNode) => on_radius p (cell_x X endNode) (cell_y X endNode) radius xend hitTest node in
        r ← search_loop fuel (astar_rules p maxThreat) (ALLOCATE p) (frame p) goal no_visit () q;
        match r with
        | None => Val None
        | Some (hit, _, q) => a ← answer startNode hit path0 q; Val (Some (a, (store q p) <| isRunning := false |>))
        end
    end.

(** [a || b] on tests that read memory. *)
Definition any_of (f : Z -> out bool) : list Z -> out bool :=
  fix go l := match l with [] => Val false | i :: l' => b ← f i; if (b : bool) then Val true else go l' end.

(** The cells of a square of side four around [i], in the order of the two loops. *)
Definition square4 (X i : Z) : list Z := k ← [-1; 0; 1; 2]; j ← [-1; 0; 1; 2]; [i + k * X + j].

(** The cells whose terrain is tested, by width. *)
Definition wide_cells (X howWide i : Z) : list Z :=
  if howWide =? 1 then [i]
  else if howWide =? 2 then [i; i + 1; i + X; i + X + 1]
  else if howWide =? 3 then [i; i - 1; i + 1; i - X; i + X]
  else square4 X i.

(** [sum += canMoveArray[i]] over the cells. *)
Definition add_costs (p : CMicroPather) (cells : list Z) (c : float) : out float :=
  each (fun i c => x ← deref (canMoveArray p) i; Val (fadd c x)) cells c.

(** [canMoveArray[a] + canMoveArray[b] + ...], summed before it is added. *)
Definition sum_costs (p : CMicroPather) (cells : list Z) : out float :=
  match cells with
  | [] => UB
  | i :: l => x ← deref (canMoveArray p) i; add_costs p l x
  end.

Definition wide_cost (p : CMicroPather) (howWide i i2 : Z) : out float :=
  let X := mapSizeX p in
  c ← moveFun p i2;
  if howWide =? 1 then s ← sum_costs p [i]; Val (fadd c s)
  else if howWide =? 2 then s ← sum_costs p [i; i + 1; i + X]; Val (fadd c s)
  else if howWide =? 3 then s ← sum_costs p [i; i - 1; i + 1; i - X; i + X]; Val (fadd c s)
  else add_costs p (square4 X i) c.

Definition wide_rules (p : CMicroPather) (howWide : Z) : Rules :=
  {| rsteps := steps4 (mapSizeX p);
     rblocked := fun i => any_of (CantMoveTo p) (wide_cells (mapSizeX p) howWide i);
     runsafe := fun _ => Val false;
     rcost := wide_cost p howWide;
     rtotal := false;
     rimprove := fun _ _ _ newCost _ nd => Val (improve_astar (AxisCostEstimate p) newCost nd) |}.

(** [endNodes.back()] is fixed in place; the caller has marked the end nodes. *)
Definition FindWidePathToBus (fuel : nat) (startNode : Z) (endNodes : list Z) (howWide : Z) (path0 : list Z) (p : CMicroPather) :
    out (option (Answer * list Z * CMicroPather)) :=
  match last endNodes with
  | None => Val (Some ({| result := NO_SOLUTION; path := path0; cost := f0 |}, endNodes, p <| isRunning := false |>))
  | Some back =>
      let X := mapSizeX p in
      let '(startNode, back, p) := FixStartEndNode startNode back (p <| isRunning := true |>) in
      let endNodes := <[pred (length endNodes) := back]> endNodes in
      let p := next_frame p in
      q ← push_start p startNode (AxisCostEstimate p (cell_x X startNode) (cell_y X startNode)) (open_queue p);
      r ← search_loop fuel (wide_rules p howWide) (ALLOCATE p) (frame p) is_end no_visit () q;
      match r with
      | None => Val None
      | Some (hit, _, q) =>
          a ← answer startNode hit path0 q;
          q ← each (set_end false) endNodes q;
          Val (Some (a, endNodes, (store q p) <| isRunning := false |>))
      end
  end.

(** [canMoveArray[indexEnd] + threat]. *)
Definition map_cost (p : CMicroPather) (i i2 : Z) : out float :=
  c ← deref (canMoveArray p) i; t ← deref (threatArray p) i2; Val (fadd c t).

(** The travel distance goes into [costFromStart], the compared cost into [totalCost]. *)
Definition improve_map (p : CMicroPather) (diag : bool) (i i2 : Z) (newCost travelNum : float) (nd : PathNode) : out PathNode :=
  c ← deref (canMoveArray p) i;
  t ← deref (threatArray p) i2;
  let travelCost := fadd (if fle COST_STRUCT_3_4 c then c else COST_BASE) t in
  Val (nd <| costFromStart := fadd travelNum (scale diag travelCost) |> <| totalCost := newCost |>).

Definition map_rules (p : CMicroPather) (maxThreat : float) : Rules :=
  {| rsteps := steps8 (mapSizeX p);
     rblocked := CantMoveTo p;
     runsafe := too_unsafe p maxThreat;
     rcost := map_cost p;
     rtotal := true;
     rimprove := improve_map p |}.

(** [costMap[node->index2] = travelNumFromStart]. *)
Definition write_cost (nd : PathNode) (costMap : list float) : out (list float) :=
  if (0 <=? index2 nd) && (index2 nd <? size_of costMap) then Val (<[Z.to_nat (index2 nd) := costFromStart nd]> costMap) else UB.

Definition MakeCostMap (fuel : nat) (startNode : Z) (maxThreat : float) (costMap : list float) (p : CMicroPather) :
    out (option (list float * CMicroPather)) :=
  let startNode := FixNode (mapSizeX p) (mapSizeY p) startNode in
  let p := next_frame (p <| isRunning := true |>) in
  q ← push_start p startNode f0 (open_queue p);
  r ← search_loop fuel (map_rules p maxThreat) (ALLOCATE p) (frame p) (fun _ _ => Val false) write_cost costMap q;
  match r with
  | None => Val None
  | Some (_, costMap, q) => Val (Some (costMap, (store q p) <| isRunning := false |>))
  end.
