(* ===== verification/PatherInv.v ===== *)
(** The invariant of a search over the cells of the move map.

    The invariant speaks of the nodes up to their heap positions.  A node is touched when
    its frame is the current one; its label is the rank of its cost, [BIG] when it is not
    touched.  Labels are costs of walks from the start; the parent pointers lead back to
    the start along steps whose costs add up to at most the label; and a node that is not
    open has been expanded with its present label ([li_closed]). *)

From S2P Require Import Prelude Outcome Float32 FloatOrder OpenQueue OpenQueueSpec MicroPather.

Definition BIG : Z := okey FLT_BIG_2.

Definition interior (X Y n : Z) : Prop := 0 < cell_x X n < X - 1 /\ 0 < cell_y X n < Y - 1.

(** What the searches guarantee about their rules, on a map of [X] by [Y] cells.
    [T]: the total cost of an improved node, [tr]: its travel distance. *)
Record RulesOk (r : Rules) (X Y : Z) (T : Z -> Z -> float -> float) (tr : bool -> Z -> float -> float -> float) : Prop := {
  ok_dirs d : d ∈ rsteps r -> d.1 <> 0;
  ok_blocked u d : interior X Y u -> d ∈ rsteps r -> exists b : bool, rblocked r (d.1 + u) = Val b /\ (b = false -> interior X Y (d.1 + u));
  ok_unsafe v : interior X Y v -> exists b : bool, runsafe r (cell_index2 X v) = Val b;
  ok_cost v : interior X Y v -> rblocked r v = Val false -> exists nc, rcost r v (cell_index2 X v) = Val nc /\ cost_ok nc;
  ok_total v c : interior X Y v -> cost_ok c -> okey c < BIG -> fvalid (T (cell_x X v) (cell_y X v) c);
  ok_total_mono v c c' : interior X Y v -> cost_ok c -> cost_ok c' -> okey c <= okey c' -> okey c' < BIG ->
    okey (T (cell_x X v) (cell_y X v) c) <= okey (T (cell_x X v) (cell_y X v) c');
  ok_improve dg v newCost t nd : interior X Y v -> rblocked r v = Val false ->
    exists cf tc, rimprove r dg v (cell_index2 X v) newCost t nd = Val (nd <| costFromStart := cf |> <| totalCost := tc |>) /\
      (if rtotal r then tc else cf) = newCost /\ tc = T (x2 nd) (y2 nd) newCost /\ cf = tr dg v newCost t;
}.

Lemma prim_strip (r : Rules) (nd : PathNode) : prim r (strip nd) = prim r nd.
Proof. by destruct nd. Qed.

Section Inv.
Context {r : Rules} {X Y : Z} {T : Z -> Z -> float -> float} {tr : bool -> Z -> float -> float -> float} (Hr : RulesOk r X Y T tr).
Context (fr s : Z) (E : Z -> bool).

(** [v] can be stepped to from [u] in direction [d], at cost [w]. *)
Definition Step (u : Z) (d : Z * bool) (v : Z) (w : float) : Prop :=
  d ∈ rsteps r /\ v = d.1 + u /\ rblocked r v = Val false /\ runsafe r (cell_index2 X v) = Val false /\
  exists nc, rcost r v (cell_index2 X v) = Val nc /\ w = scale d.2 nc.

(** A walk from the start, as the cells from its end back to the start, with its cost and its travel distance. *)
Inductive Walk : list Z -> Z -> float -> float -> Prop :=
  | walk_start : Walk [s] s f0 f0
  | walk_step l u c t d v w : Walk l u c t -> Step u d v w -> Walk (v :: l) v (fadd c w) (tr d.2 v (fadd c w) t).

Definition touched (nd : PathNode) : Prop := nframe nd = fr.

Definition label (m : gmap Z PathNode) (n : Z) : Z :=
  match m !! n with Some nd => if nframe nd =? fr then okey (prim r nd) else BIG | None => BIG end.

(** The chain of parents of a node. *)
Inductive Chain (m : gmap Z PathNode) : list Z -> Z -> Prop :=
  | chain_start nd : m !! s = Some nd -> touched nd -> parent nd = None -> prim r nd = f0 -> Chain m [s] s
  | chain_step l n nd u ndu d w : m !! n = Some nd -> touched nd -> parent nd = Some u ->
      m !! u = Some ndu -> touched ndu -> Step u d n w -> okey (fadd (prim r ndu) w) <= okey (prim r nd) ->
      Chain m l u -> Chain m (n :: l) n.

Record LInv (m : gmap Z PathNode) (S : gset Z) (ex : option Z) : Prop := {
  li_dom n : is_Some (m !! n) <-> 0 <= n < X * Y;
  li_cell n nd : m !! n = Some nd -> x2 nd = cell_x X n /\ y2 nd = cell_y X n /\ index2 nd = cell_index2 X n /\
                 0 <= nframe nd <= fr /\ isEndNode nd = E n;
  li_open n nd : m !! n = Some nd -> touched nd -> inOpen nd = true <-> n ∈ S;
  li_sub n : n ∈ S -> exists nd, m !! n = Some nd /\ touched nd /\ okey (prim r nd) < BIG /\
             (n <> s -> totalCost nd = T (x2 nd) (y2 nd) (prim r nd));
  li_touched n nd : m !! n = Some nd -> touched nd -> interior X Y n /\ cost_ok (prim r nd) /\ okey (prim r nd) <= BIG;
  li_start : exists nd, m !! s = Some nd /\ touched nd /\ parent nd = None /\ prim r nd = f0 /\ costFromStart nd = f0;
  li_walk n nd : m !! n = Some nd -> touched nd -> okey (prim r nd) < BIG -> exists l, Walk l n (prim r nd) (costFromStart nd);
  li_chain n nd : m !! n = Some nd -> touched nd -> okey (prim r nd) < BIG -> exists l, Chain m l n;
  li_closed n nd d v w : m !! n = Some nd -> touched nd -> okey (prim r nd) < BIG -> n ∉ S -> ex <> Some n ->
    Step n d v w -> label m v <= okey (fadd (prim r nd) w);
}.

(** ** Steps, labels *)

Lemma step_cost_ok u d v w : interior X Y u -> Step u d v w -> cost_ok w /\ interior X Y v.
Proof.
  intros Hu (Hd & -> & Hb & Hs & nc & Hc & ->). destruct (ok_blocked _ _ _ _ _ Hr u d Hu Hd) as (b & Eb & Hi).
  rewrite Eb in Hb. injection Hb as ->. specialize (Hi eq_refl). destruct (ok_cost _ _ _ _ _ Hr _ Hi Eb) as (nc' & Ec & Hok).
  rewrite Ec in Hc. injection Hc as ->. split; [|done]. unfold scale. case_match; [|done]. by apply fmul_ok.
Qed.

Lemma step_fun u d v v' w w' : Step u d v w -> Step u d v' w' -> v = v' /\ w = w'.
Proof. intros (_ & -> & _ & _ & nc & E1 & ->) (_ & -> & _ & _ & nc' & E2 & ->). rewrite E1 in E2. by injection E2 as ->. Qed.

Lemma label_touched (m : gmap Z PathNode) n nd : m !! n = Some nd -> touched nd -> label m n = okey (prim r nd).
Proof. intros H Ht. unfold label. rewrite H. by rewrite (proj2 (Z.eqb_eq _ _) Ht). Qed.

Lemma label_BIG m S ex n : LInv m S ex -> 0 <= label m n <= BIG.
Proof.
  intros L. unfold label. destruct (m !! n) as [nd|] eqn:H; [|done]. destruct (Z.eqb_spec (nframe nd) fr) as [Ht|]; [|done].
  destruct (li_touched _ _ _ L n nd H Ht) as (_ & [_ ?] & ?). done.
Qed.

Lemma label_small (m : gmap Z PathNode) n : label m n < BIG -> exists nd, m !! n = Some nd /\ touched nd /\ label m n = okey (prim r nd).
Proof.
  unfold label. destruct (m !! n) as [nd|]; [|lia]. destruct (Z.eqb_spec (nframe nd) fr) as [Ht|]; [|lia]. intros _. by exists nd.
Qed.

(** ** A cell that is not touched yet is refreshed *)

Lemma fresh_touched nd : touched nd -> fresh r fr nd = nd.
Proof. intros Ht. unfold fresh. by rewrite (proj2 (Z.eqb_eq _ _) Ht). Qed.

Lemma fresh_new nd : ~ touched nd -> 0 <= fr < 2 ^ 16 ->
  let nd' := fresh r fr nd in
  touched nd' /\ prim r nd' = FLT_BIG_2 /\ parent nd' = None /\ inOpen nd' = false /\ x2 nd' = x2 nd /\ y2 nd' = y2 nd /\
  index2 nd' = index2 nd /\ isEndNode nd' = isEndNode nd /\ nframe nd' = fr.
Proof.
  intros Ht Hfr. unfold fresh, touched in *. rewrite (proj2 (Z.eqb_neq _ _) Ht). unfold prim, PathNode_Reuse.
  destruct (rtotal r); cbn; rewrite Z.mod_small by done; done.
Qed.

(** Labels and chains of the other cells do not change. *)
Lemma label_insert (m : gmap Z PathNode) v nd n :
  label (<[v := nd]> m) n = if decide (n = v) then (if nframe nd =? fr then okey (prim r nd) else BIG) else label m n.
Proof. unfold label. case_decide as Hn; [subst; by rewrite lookup_insert_eq|by rewrite lookup_insert_ne]. Qed.

Lemma chain_in (m : gmap Z PathNode) l n : Chain m l n -> forall x, x ∈ l -> exists nd, m !! x = Some nd /\ touched nd.
Proof.
  induction 1 as [nd Hs Ht|l n nd u ndu d w Hn Ht Hp Hu Htu Hst Hle Hc IH]; intros x Hx.
  - apply list_elem_of_singleton in Hx as ->. eauto.
  - apply elem_of_cons in Hx as [->|Hx]; eauto.
Qed.

Lemma chain_insert (m : gmap Z PathNode) v nd l n : v ∉ l -> Chain m l n -> Chain (<[v := nd]> m) l n.
Proof.
  intros Hv Hc. induction Hc as [nd0 Hs Ht Hp Hz|l n nd0 u ndu d w Hn Ht Hp Hu Htu Hst Hle Hc IH].
  - apply (chain_start _ nd0); try done. rewrite lookup_insert_ne; [done|]. set_solver.
  - assert (u ∈ l) by (inversion Hc; subst; set_solver).
    apply (chain_step _ l n nd0 u ndu d w); try done; [rewrite lookup_insert_ne by set_solver; done..|]. apply IH. set_solver.
Qed.

Lemma untouched_not_chain (m : gmap Z PathNode) v nd l n : m !! v = Some nd -> ~ touched nd -> Chain m l n -> v ∉ l.
Proof. intros Hv Ht Hc Hin. destruct (chain_in _ _ _ Hc v Hin) as (nd' & ? & ?). congruence. Qed.

Lemma linv_touch m S ex v nd : LInv m S ex -> 0 <= fr < 2 ^ 16 -> interior X Y v -> m !! v = Some nd -> ~ touched nd ->
  LInv (<[v := fresh r fr nd]> m) S ex /\ (v ∉ S) /\ (forall n, label (<[v := fresh r fr nd]> m) n = label m n).
Proof.
  intros L Hfr Hi Hv Ht. destruct (fresh_new nd Ht Hfr) as (Ft & Fp & Fpar & Fo & Fx & Fy & Fi & Fe & Ff). set (nd' := fresh r fr nd) in *.
  assert (v ∉ S) as HvS.
  { intros Hin. destruct (li_sub _ _ _ L v Hin) as (? & ? & ? & _). congruence. }
  assert (forall n, label (<[v := nd']> m) n = label m n) as Hlab.
  { intros n. rewrite label_insert. case_decide as Hn; [subst|done]. rewrite Ff, Z.eqb_refl, Fp.
    unfold label. rewrite Hv. by rewrite (proj2 (Z.eqb_neq _ _) Ht). }
  assert (forall n nd0, <[v := nd']> m !! n = Some nd0 -> okey (prim r nd0) < BIG -> m !! n = Some nd0 /\ n <> v) as Hsmall.
  { intros n nd0 Hn Hlt. destruct (decide (n = v)) as [->|Hne]; [|by rewrite lookup_insert_ne in Hn].
    rewrite lookup_insert_eq in Hn. simplify_eq. rewrite Fp in Hlt. unfold BIG in Hlt. lia. }
  split; [|split; [done|done]]. destruct (li_cell _ _ _ L v nd Hv) as (Cx & Cy & Ci & Cf & Ce). constructor.
  - intros n. rewrite lookup_insert_is_Some. rewrite <-(li_dom _ _ _ L n). split; [intros [<- | [? ?]]; eauto|].
    intros Hs. destruct (decide (v = n)); auto.
  - intros n nd0 Hn. destruct (decide (n = v)) as [->|Hne].
    + rewrite lookup_insert_eq in Hn. simplify_eq. rewrite Fx, Fy, Fi, Fe, Ff. split_and!; try done; lia.
    + rewrite lookup_insert_ne in Hn by done. by apply L.
  - intros n nd0 Hn Ht0. destruct (decide (n = v)) as [->|Hne].
    + rewrite lookup_insert_eq in Hn. simplify_eq. rewrite Fo. done.
    + rewrite lookup_insert_ne in Hn by done. by apply L.
  - intros n Hn. rewrite lookup_insert_ne by set_solver. by apply L.
  - intros n nd0 Hn Ht0. destruct (decide (n = v)) as [->|Hne].
    + rewrite lookup_insert_eq in Hn. simplify_eq. rewrite Fp. split_and!; try done.
    + rewrite lookup_insert_ne in Hn by done. by apply L.
  - destruct (li_start _ _ _ L) as (nds & Hs & Hts & Hrest). exists nds. rewrite lookup_insert_ne by congruence. done.
  - intros n nd0 Hn Ht0 Hlt. destruct (Hsmall n nd0 Hn Hlt) as [Hm _]. by apply (li_walk _ _ _ L).
  - intros n nd0 Hn Ht0 Hlt. destruct (Hsmall n nd0 Hn Hlt) as [Hm _]. destruct (li_chain _ _ _ L n nd0 Hm Ht0 Hlt) as (l & Hc).
    exists l. apply chain_insert; [|done]. by eapply untouched_not_chain.
  - intros n nd0 d v' w Hn Ht0 Hlt HnS Hex Hst. destruct (Hsmall n nd0 Hn Hlt) as [Hm _]. rewrite Hlab. by eapply (li_closed _ _ _ L).
Qed.
(** ** A better way to a touched cell *)

Lemma chain_le (m : gmap Z PathNode) l n : Chain m l n -> (forall x nd, m !! x = Some nd -> touched nd -> interior X Y x /\ cost_ok (prim r nd)) ->
  forall x nd ndx, m !! n = Some nd -> x ∈ l -> m !! x = Some ndx -> okey (prim r ndx) <= okey (prim r nd).
Proof.
  intros Hc Hok. induction Hc as [nd0 Hs Ht Hp Hz|l n nd0 u ndu d w Hn Ht Hp Hu Htu Hst Hle Hc IH]; intros x nd ndx Hnd Hx Hxn.
  - apply list_elem_of_singleton in Hx as ->. by simplify_eq.
  - apply elem_of_cons in Hx as [->|Hx]; [by simplify_eq|]. simplify_eq. specialize (IH x ndu ndx Hu Hx Hxn).
    destruct (Hok u ndu Hu Htu) as [Hi Hcu]. destruct (step_cost_ok _ _ _ _ Hi Hst). pose proof (fadd_ge (prim r ndu) w Hcu ltac:(done)). lia.
Qed.

(** The chain of every other cell still leads to the start when [v] gets a better parent. *)
Lemma chain_improve (m : gmap Z PathNode) v nd' lv : (forall x nd, m !! x = Some nd -> touched nd -> interior X Y x /\ cost_ok (prim r nd)) ->
  v <> s -> touched nd' -> Chain (<[v := nd']> m) (v :: lv) v -> okey (prim r nd') <= label m v -> cost_ok (prim r nd') ->
  forall l n, Chain m l n -> exists l', Chain (<[v := nd']> m) l' n.
Proof.
  intros Hok Hvs Ht' Hv Hle Hcn l n Hc. induction Hc as [nd0 Hs Ht Hp Hz|l n nd0 u ndu d w Hn Ht Hp Hu Htu Hst Hle0 Hc IH].
  - exists [s]. apply (chain_start _ nd0); try done. by rewrite lookup_insert_ne.
  - destruct (decide (n = v)) as [->|Hne]; [eauto|]. destruct IH as (l' & Hl'). exists (n :: l').
    destruct (decide (u = v)) as [->|Huv].
    + apply (chain_step _ l' n nd0 v nd' d w); try done; [by rewrite lookup_insert_ne|by rewrite lookup_insert_eq|].
      destruct (Hok v ndu Hu Htu) as [Hi Hcu]. destruct (step_cost_ok _ _ _ _ Hi Hst) as [Hw _].
      rewrite (label_touched _ _ _ Hu Htu) in Hle. pose proof (fadd_mono (prim r nd') (prim r ndu) w w Hcn Hcu Hw Hw Hle ltac:(done)). lia.
    + apply (chain_step _ l' n nd0 u ndu d w); try done; by rewrite lookup_insert_ne.
Qed.

Lemma linv_improve m S u ndu d v w nd nd' : LInv m S (Some u) -> m !! u = Some ndu -> touched ndu -> okey (prim r ndu) < BIG ->
  Step u d v w -> m !! v = Some nd -> touched nd -> okey (fadd (prim r ndu) w) < okey (prim r nd) ->
  x2 nd' = x2 nd -> y2 nd' = y2 nd -> index2 nd' = index2 nd -> isEndNode nd' = isEndNode nd -> nframe nd' = nframe nd ->
  parent nd' = Some u -> inOpen nd' = true -> prim r nd' = fadd (prim r ndu) w ->
  totalCost nd' = T (x2 nd) (y2 nd) (prim r nd') -> costFromStart nd' = tr d.2 v (prim r nd') (costFromStart ndu) ->
  LInv (<[v := nd']> m) ({[v]} ∪ S) (Some u) /\ v <> u /\
  (forall n, label (<[v := nd']> m) n = if decide (n = v) then okey (prim r nd') else label m n).
Proof.
  intros L Hu Htu Hub Hst Hv Htv Hlt Ex Ey Ei Ee Ef Epar Eo Ep Et Ec.
  destruct (li_touched _ _ _ L u ndu Hu Htu) as (Iu & Cu & _). destruct (li_touched _ _ _ L v nd Hv Htv) as (Iv & Cv & Bv).
  destruct (step_cost_ok _ _ _ _ Iu Hst) as [Hw _]. pose proof (fadd_ok _ _ Cu Hw) as Hnc. pose proof (fadd_ge _ _ Cu Hw) as Hge.
  assert (v <> u) as Hvu by (intros ->; simplify_eq; lia).
  destruct (li_start _ _ _ L) as (nds & Hs & Hts & Hps & Hzs & Hcs).
  assert (v <> s) as Hvs by (intros ->; simplify_eq; rewrite Hzs in Hlt; destruct Hnc as [_ ?]; cbn in Hlt; lia).
  assert (touched nd') as Ht' by (unfold touched in *; congruence).
  assert (forall n, label (<[v := nd']> m) n = if decide (n = v) then okey (prim r nd') else label m n) as Hlab.
  { intros n. rewrite label_insert. case_decide; [|done]. by rewrite (proj2 (Z.eqb_eq _ _) Ht'). }
  assert (forall x nd, m !! x = Some nd -> touched nd -> interior X Y x /\ cost_ok (prim r nd)) as Hok.
  { intros x nx Hx Htx. destruct (li_touched _ _ _ L x nx Hx Htx) as (? & ? & _). done. }
  destruct (li_chain _ _ _ L u ndu Hu Htu Hub) as (lu & Hlu).
  assert (v ∉ lu) as Hvlu by (intros Hin; pose proof (chain_le _ _ _ Hlu Hok v ndu nd Hu Hin Hv); lia).
  assert (Chain (<[v := nd']> m) (v :: lu) v) as Hcv.
  { apply (chain_step _ lu v nd' u ndu d w); try done; [by rewrite lookup_insert_eq|by rewrite lookup_insert_ne|by rewrite Ep|].
    by apply chain_insert. }
  split; [|split; [done|done]]. destruct (li_cell _ _ _ L v nd Hv) as (Gx & Gy & Gi & Gf & Ge). constructor.
  - intros n. rewrite lookup_insert_is_Some. rewrite <-(li_dom _ _ _ L n). split; [intros [<- | [? ?]]; eauto|].
    intros Hn. destruct (decide (v = n)); auto.
  - intros n nd0 [[<- <-]|[Hne Hn]]%lookup_insert_Some; [|by apply L]. rewrite Ex, Ey, Ei, Ee, Ef. split_and!; try done; lia.
  - intros n nd0 [[<- <-]|[Hne Hn]]%lookup_insert_Some Ht0; [rewrite Eo; set_solver|]. rewrite (li_open _ _ _ L n nd0 Hn Ht0). set_solver.
  - intros n [->%elem_of_singleton|Hn]%elem_of_union.
    + exists nd'. rewrite lookup_insert_eq, Ex, Ey. split_and!; try done. rewrite Ep. lia.
    + destruct (decide (n = v)) as [->|Hne]; [|rewrite lookup_insert_ne by done; by apply L].
      exists nd'. rewrite lookup_insert_eq, Ex, Ey. split_and!; try done. rewrite Ep. lia.
  - intros n nd0 [[<- <-]|[Hne Hn]]%lookup_insert_Some Ht0; [|by apply L]. rewrite Ep. split_and!; try done; lia.
  - exists nds. rewrite lookup_insert_ne by done. done.
  - intros n nd0 [[<- <-]|[Hne Hn]]%lookup_insert_Some Ht0 Hb; [|by apply (li_walk _ _ _ L)].
    destruct (li_walk _ _ _ L u ndu Hu Htu Hub) as (l & Hl). exists (v :: l). rewrite Ec, Ep. by apply (walk_step l u).
  - intros n nd0 [[<- <-]|[Hne Hn]]%lookup_insert_Some Ht0 Hb; [eauto|].
    destruct (li_chain _ _ _ L n nd0 Hn Ht0 Hb) as (l & Hl). apply (chain_improve m v nd' lu Hok Hvs Ht' Hcv) with l; try done.
    + rewrite (label_touched _ _ _ Hv Htv), Ep. lia.
    + by rewrite Ep.
  - intros n nd0 d0 v0 w0 [[<- <-]|[Hne Hn]]%lookup_insert_Some Ht0 Hb HnS Hex Hst0; [set_solver|].
    pose proof (li_closed _ _ _ L n nd0 d0 v0 w0 Hn Ht0 Hb ltac:(set_solver) Hex Hst0) as Hcl.
    rewrite Hlab. case_decide; [subst|done]. rewrite (label_touched _ _ _ Hv Htv) in Hcl. rewrite Ep. lia.
Qed.

(** ** Taking a node out, and closing it *)

Lemma chain_flags (m : gmap Z PathNode) v nd nd' : m !! v = Some nd -> prim r nd' = prim r nd -> parent nd' = parent nd -> nframe nd' = nframe nd ->
  forall l n, Chain m l n -> Chain (<[v := nd']> m) l n.
Proof.
  intros Hv Ep Epar Ef l n Hc.
  assert (forall x nx, m !! x = Some nx -> exists nx', <[v := nd']> m !! x = Some nx' /\ prim r nx' = prim r nx /\ parent nx' = parent nx /\ nframe nx' = nframe nx) as Hin.
  { intros x nx Hx. destruct (decide (x = v)) as [->|Hne]; [simplify_eq; exists nd'; by rewrite lookup_insert_eq|].
    exists nx. by rewrite lookup_insert_ne. }
  unfold touched in *. induction Hc as [nd0 Hs Ht Hp Hz|l n nd0 u ndu d w Hn Ht Hp Hu Htu Hst Hle Hc IH]; unfold touched in *.
  - destruct (Hin s nd0 Hs) as (n0 & E0 & E1 & E2 & E3). apply (chain_start _ n0); unfold touched; congruence.
  - destruct (Hin n nd0 Hn) as (n0 & E0 & E1 & E2 & E3), (Hin u ndu Hu) as (n1 & F0 & F1 & F2 & F3).
    apply (chain_step _ l n n0 u n1 d w); unfold touched; try congruence.
Qed.

(** Changing the open and closed flags of a node. *)
Lemma linv_flags m S S' ex ex' v nd nd' : LInv m S ex -> m !! v = Some nd -> touched nd -> okey (prim r nd) < BIG ->
  (exists o c, nd' = nd <| inOpen := o |> <| inClosed := c |>) ->
  S' ⊆ S -> S ⊆ {[v]} ∪ S' -> (inOpen nd' = true <-> v ∈ S') ->
  (ex' <> Some v -> v ∉ S' -> forall d x w, Step v d x w -> label m x <= okey (fadd (prim r nd) w)) ->
  (forall n, n <> v -> ex' <> Some n -> ex <> Some n) ->
  LInv (<[v := nd']> m) S' ex' /\ (forall n, label (<[v := nd']> m) n = label m n).
Proof.
  intros L Hv Htv Hb (o & c & ->) HS1 HS2 Ho Hcl Hex. set (nd' := nd <| inOpen := o |> <| inClosed := c |>) in *.
  assert (prim r nd' = prim r nd) as Ep by (unfold prim; by destruct (rtotal r)). assert (touched nd') as Ht' by done.
  assert (forall n, label (<[v := nd']> m) n = label m n) as Hlab.
  { intros n. rewrite label_insert. case_decide as Hn; [subst|done]. rewrite (label_touched _ _ _ Hv Htv), Ep. by rewrite (proj2 (Z.eqb_eq _ _) Ht'). }
  split; [|done]. constructor.
  - intros n. rewrite lookup_insert_is_Some. rewrite <-(li_dom _ _ _ L n). split; [intros [<- | [? ?]]; eauto|].
    intros Hn. destruct (decide (v = n)); auto.
  - intros n nd0 [[<- <-]|[Hne Hn]]%lookup_insert_Some; [|by apply L]. apply (li_cell _ _ _ L v nd Hv).
  - intros n nd0 [[<- <-]|[Hne Hn]]%lookup_insert_Some Ht0; [done|]. rewrite (li_open _ _ _ L n nd0 Hn Ht0). set_solver.
  - intros n Hn. destruct (li_sub _ _ _ L n ltac:(set_solver)) as (n0 & H0 & Ht0 & Hb0 & HT). destruct (decide (n = v)) as [->|Hne].
    + simplify_eq. exists nd'. rewrite lookup_insert_eq, Ep. done.
    + exists n0. by rewrite lookup_insert_ne.
  - intros n nd0 [[<- <-]|[Hne Hn]]%lookup_insert_Some Ht0; [|by apply L]. rewrite Ep. by apply (li_touched _ _ _ L v nd).
  - destruct (li_start _ _ _ L) as (nds & Hs & Hts & Hps & Hzs & Hcs). destruct (decide (s = v)) as [->|Hne].
    + simplify_eq. exists nd'. rewrite lookup_insert_eq, Ep. done.
    + exists nds. by rewrite lookup_insert_ne.
  - intros n nd0 [[<- <-]|[Hne Hn]]%lookup_insert_Some Ht0 Hb0; [|by apply (li_walk _ _ _ L)]. rewrite Ep. by apply (li_walk _ _ _ L v nd).
  - intros n nd0 Hn Ht0 Hb0. assert (exists l, Chain m l n) as (l & Hl).
    { apply lookup_insert_Some in Hn as [[<- <-]|[Hne Hn]]; [by apply (li_chain _ _ _ L v nd)|by apply (li_chain _ _ _ L n nd0)]. }
    exists l. by apply (chain_flags m v nd).
  - intros n nd0 d x w [[<- <-]|[Hne Hn]]%lookup_insert_Some Ht0 Hb0 HnS Hex0 Hst; rewrite Hlab; [rewrite Ep; eauto|].
    apply (li_closed _ _ _ L n nd0 d x w); try done; [set_solver|by apply Hex].
Qed.
End Inv.

Definition mark (E : Z -> bool) (v : Z) (b : bool) (n : Z) : bool := if decide (n = v) then b else E n.

(** Marking and unmarking an end node. *)
Lemma linv_mark {r X Y T tr} (Hr : RulesOk r X Y T tr) (fr s : Z) (E : Z -> bool) m S ex v nd b :
  LInv (r := r) (X := X) (Y := Y) (T := T) (tr := tr) fr s E m S ex -> m !! v = Some nd ->
  LInv (r := r) (X := X) (Y := Y) (T := T) (tr := tr) fr s (mark E v b) (<[v := nd <| isEndNode := b |>]> m) S ex /\
  (forall n, label (r := r) fr (<[v := nd <| isEndNode := b |>]> m) n = label (r := r) fr m n).
Proof.
  intros L Hv. set (nd' := nd <| isEndNode := b |>). assert (prim r nd' = prim r nd) as Ep by (unfold prim; by destruct (rtotal r)).
  assert (forall n nx, <[v := nd']> m !! n = Some nx -> exists ny, m !! n = Some ny /\ prim r nx = prim r ny /\ nframe nx = nframe ny /\ costFromStart nx = costFromStart ny /\
    inOpen nx = inOpen ny) as Hback.
  { intros n nx [[<- <-]|[Hne Hn]]%lookup_insert_Some; eauto 6. }
  assert (forall n, label (r := r) fr (<[v := nd']> m) n = label (r := r) fr m n) as Hlab.
  { intros n. rewrite label_insert. unfold label. case_decide as Hn; [subst|done]. by rewrite Hv, Ep. }
  split; [|done]. unfold touched in *. constructor; unfold touched in *.
  - intros n. rewrite lookup_insert_is_Some. rewrite <-(li_dom _ _ _ _ _ _ L n). split; [intros [<- | [? ?]]; eauto|].
    intros Hn. destruct (decide (v = n)); auto.
  - intros n nd0 Hn. unfold mark. apply lookup_insert_Some in Hn as [[<- <-]|[Hne Hn]].
    + rewrite decide_True by done. destruct (li_cell _ _ _ _ _ _ L v nd Hv) as (? & ? & ? & ? & _). done.
    + rewrite decide_False by done. by apply L.
  - intros n nd0 Hn Ht. destruct (Hback n nd0 Hn) as (ny & Hy & _ & Ef & _ & Eo). rewrite Eo. apply (li_open _ _ _ _ _ _ L n ny Hy). unfold touched. congruence.
  - intros n Hn. destruct (li_sub _ _ _ _ _ _ L n Hn) as (n0 & H0 & Ht & Hb & HT). destruct (decide (n = v)) as [->|Hne].
    + rewrite Hv in H0. apply (inj Some) in H0 as <-. exists nd'. rewrite lookup_insert_eq, Ep. done.
    + exists n0. by rewrite lookup_insert_ne.
  - intros n nd0 Hn Ht. destruct (Hback n nd0 Hn) as (ny & Hy & Epy & Ef & _). rewrite Epy. apply (li_touched _ _ _ _ _ _ L n ny Hy). unfold touched. congruence.
  - destruct (li_start _ _ _ _ _ _ L) as (nds & Hs & Hts & Hps & Hzs & Hcs). destruct (decide (s = v)) as [->|Hne].
    + rewrite Hv in Hs. apply (inj Some) in Hs as <-. exists nd'. rewrite lookup_insert_eq, Ep. done.
    + exists nds. by rewrite lookup_insert_ne.
  - intros n nd0 Hn Ht Hb. destruct (Hback n nd0 Hn) as (ny & Hy & Epy & Ef & Ec & _). rewrite Epy, Ec in *. apply (li_walk _ _ _ _ _ _ L n ny Hy); [unfold touched; congruence|done].
  - intros n nd0 Hn Ht Hb. destruct (Hback n nd0 Hn) as (ny & Hy & Epy & Ef & _). rewrite Epy in *.
    destruct (li_chain _ _ _ _ _ _ L n ny Hy) as (l & Hl); [unfold touched; congruence|done|]. exists l. by apply (chain_flags fr s m v nd).
  - intros n nd0 d x w Hn Ht Hb HnS Hex Hst. destruct (Hback n nd0 Hn) as (ny & Hy & Epy & Ef & _). rewrite Epy in *. rewrite Hlab.
    apply (li_closed _ _ _ _ _ _ L n ny d x w Hy); try done. unfold touched. congruence.
Qed.
