(* ===== verification/PatherLoop.v ===== *)
(** The search loop: it is defined, ends, and keeps the invariant.

    [QI]: the heap is a heap of exactly the open nodes and the nodes satisfy the search
    invariant.  Every iteration lowers [weight]: twice the sum of the labels, plus the
    number of open nodes. *)

From S2P Require Import Prelude Outcome Float32 FloatOrder OpenQueue OpenQueueSpec MicroPather PatherInv.

Lemma deref_Some {A} (m : gmap Z A) (p : Z) (a : A) : m !! p = Some a -> deref m p = Val a.
Proof. unfold deref. by intros ->. Qed.

(** A loop over a list whose body always succeeds and keeps an invariant of what is done. *)
Lemma each_ok {A W} (f : A -> W -> out W) (I : list A -> W -> Prop) (l : list A) (w : W) : I [] w ->
  (forall a done w, a ∈ l -> I done w -> exists w', f a w = Val w' /\ I (done ++ [a]) w') ->
  exists w', each f l w = Val w' /\ I l w'.
Proof.
  intros H0 Hf. assert (forall l2 l1 w, l = l1 ++ l2 -> I l1 w -> exists w', each f l2 w = Val w' /\ I l w') as H; [|by apply (H l [] w)].
  induction l2 as [|a l2 IH]; intros l1 w1 E H1; [rewrite app_nil_r in E; subst; eauto|]. cbn.
  destruct (Hf a l1 w1) as (w2 & -> & H2); [set_solver|done|]. cbn. apply (IH (l1 ++ [a])); [|done]. by rewrite <-app_assoc.
Qed.

Lemma sum_list_with_le {A} (f g : A -> nat) (l : list A) : (forall x, x ∈ l -> (f x <= g x)%nat) -> (sum_list_with f l <= sum_list_with g l)%nat.
Proof.
  induction l as [|a l IH]; intros H; [done|]. cbn. assert (f a <= g a)%nat by (apply H; set_solver).
  assert (sum_list_with f l <= sum_list_with g l)%nat by (apply IH; set_solver). lia.
Qed.

Lemma sum_list_with_lt {A} (f g : A -> nat) (l : list A) (v : A) : v ∈ l -> (f v < g v)%nat -> (forall x, (f x <= g x)%nat) ->
  (sum_list_with f l < sum_list_with g l)%nat.
Proof.
  intros Hv Hlt Hle. induction l as [|a l IH]; [set_solver|]. cbn. specialize (Hle a) as Ha.
  assert (sum_list_with f l <= sum_list_with g l)%nat by (by apply sum_list_with_le). apply elem_of_cons in Hv as [->|Hv]; [lia|].
  specialize (IH Hv). lia.
Qed.

Lemma cell_split (X n : Z) : n = cell_y X n * X + cell_x X n.
Proof. unfold cell_x, cell_y. lia. Qed.

Lemma interior_range (X Y n : Z) : interior X Y n -> 1 <= n < X * Y - 1.
Proof. intros [Hx Hy]. rewrite (cell_split X n). nia. Qed.

Definition mem (q : OpenQueueBH) : gmap Z PathNode := strip <$> nodes q.

Lemma mem_lookup q n nd : nodes q !! n = Some nd -> mem q !! n = Some (strip nd).
Proof. intros H. unfold mem. by rewrite lookup_fmap, H. Qed.

Lemma mem_lookup_inv q n nd : mem q !! n = Some nd -> exists nd', nodes q !! n = Some nd' /\ nd = strip nd'.
Proof. unfold mem. rewrite lookup_fmap. destruct (nodes q !! n) as [nd'|]; [|done]. intros [= <-]. eauto. Qed.

Section Loop.
Context {r : Rules} {X Y : Z} {T : Z -> Z -> float -> float} {tr : bool -> Z -> float -> float -> float} (Hr : RulesOk r X Y T tr).
Context (fr s : Z) (E : Z -> bool) (Hfr : 0 <= fr < 2 ^ 16).
Abbreviation A := (X * Y).
Abbreviation Inv := (LInv (r := r) (X := X) (Y := Y) (T := T) (tr := tr) fr s E).
Abbreviation lab := (label (r := r) fr).
Abbreviation step := (Step (r := r) (X := X)).

Record QI (q : OpenQueueBH) (S : gset Z) (ex : option Z) : Prop := {
  qi_rep : Rep A q S;
  qi_sorted : Sorted q;
  qi_inv : Inv (mem q) S ex;
}.

Definition weight (q : OpenQueueBH) (S : gset Z) : nat :=
  (2 * sum_list_with (fun n => Z.to_nat (lab (mem q) n)) (seqZ 0 A) + size S)%nat.

Lemma weight_le q S q' S' : (forall n, lab (mem q') n <= lab (mem q) n) -> (size S' <= size S)%nat -> (weight q' S' <= weight q S)%nat.
Proof.
  intros Hl Hs. unfold weight.
  assert (sum_list_with (fun n => Z.to_nat (lab (mem q') n)) (seqZ 0 A) <= sum_list_with (fun n => Z.to_nat (lab (mem q) n)) (seqZ 0 A))%nat; [|lia].
  apply sum_list_with_le. intros n _. specialize (Hl n). lia.
Qed.

(** What steps of one iteration may do: labels go down, a node that is not open afterwards was not changed. *)
Record Adv (q : OpenQueueBH) (S : gset Z) (q' : OpenQueueBH) (S' : gset Z) : Prop := {
  adv_le n : lab (mem q') n <= lab (mem q) n;
  adv_sub : S ⊆ S';
  adv_mem n : n ∉ S' -> lab (mem q') n < BIG -> mem q' !! n = mem q !! n;
  adv_weight : (weight q' S' <= weight q S)%nat;
}.

Lemma adv_refl q S : Adv q S q S.
Proof. constructor; done. Qed.

Lemma adv_trans q S q1 S1 q2 S2 : Adv q S q1 S1 -> Adv q1 S1 q2 S2 -> Adv q S q2 S2.
Proof.
  intros A1 A2. constructor.
  - intros n. pose proof (adv_le _ _ _ _ A1 n). pose proof (adv_le _ _ _ _ A2 n). lia.
  - pose proof (adv_sub _ _ _ _ A1). pose proof (adv_sub _ _ _ _ A2). set_solver.
  - intros n Hn Hlt. pose proof (adv_mem _ _ _ _ A2 n Hn Hlt) as E2. rewrite E2. apply (adv_mem _ _ _ _ A1).
    + pose proof (adv_sub _ _ _ _ A2). set_solver.
    + unfold label in *. by rewrite <-E2.
  - pose proof (adv_weight _ _ _ _ A1). pose proof (adv_weight _ _ _ _ A2). lia.
Qed.

(** There is room for one more open node. *)
Lemma open_room (m : gmap Z PathNode) S ex v : Inv m S ex -> interior X Y v -> v ∉ S -> Z.of_nat (size S) + 1 < A.
Proof.
  intros L Hv HvS. assert (({[v]} ∪ S : gset Z) ⊆ list_to_set (seqZ 1 (A - 1))) as Hsub.
  { intros n Hn. apply elem_of_list_to_set, elem_of_seqZ. apply elem_of_union in Hn as [->%elem_of_singleton|Hn].
    - pose proof (interior_range X Y v Hv). lia.
    - destruct (li_sub _ _ _ _ _ _ L n Hn) as (nd & Hm & Ht & _). destruct (li_touched _ _ _ _ _ _ L n nd Hm Ht) as (Hi & _).
      pose proof (interior_range X Y n Hi). lia. }
  apply subseteq_size in Hsub. rewrite size_union, size_singleton in Hsub by set_solver.
  rewrite size_list_to_set in Hsub by apply NoDup_seqZ. rewrite length_seqZ in Hsub. pose proof (interior_range X Y v Hv). lia.
Qed.

Lemma sorted_other q S p nd : Rep A q S -> Sorted q -> p ∉ S -> Sorted (q <| nodes ::= <[p := nd]> |>).
Proof.
  intros R HS Hp i Hi. change (1 < i <= hsize q) in Hi. pose proof (half_bounds i ltac:(lia)).
  rewrite !(hcost_other (ALLOCATE := A) q S) by (done || lia). by apply HS.
Qed.

Lemma mem_insert q p nd : mem (q <| nodes ::= <[p := nd]> |>) = <[p := strip nd]> (mem q).
Proof. unfold mem. cbn. by rewrite fmap_insert. Qed.

(** The refreshed cell. *)
Lemma fresh_strip nd : strip (fresh r fr nd) = fresh r fr (strip nd).
Proof. unfold fresh. cbn. case_match; [done|]. by destruct (rtotal r). Qed.

Lemma touch_spec q S ex v nd : QI q S ex -> interior X Y v -> nodes q !! v = Some nd ->
  let q1 := q <| nodes ::= <[v := fresh r fr nd]> |> in
  QI q1 S ex /\ Adv q S q1 S /\ nframe (fresh r fr nd) = fr /\ (forall n, lab (mem q1) n = lab (mem q) n).
Proof.
  intros [R HS L] Hi Hv q1. destruct (decide (nframe nd = fr)) as [Ht|Ht].
  - assert (fresh r fr nd = nd) as Ef by (by apply fresh_touched).
    assert (q1 = q) as -> by (unfold q1; rewrite Ef; destruct q; cbn in *; by rewrite insert_id).
    rewrite Ef. split_and!; done.
  - destruct (linv_touch Hr fr s E (mem q) S ex v (strip nd) L Hfr Hi) as (L1 & HvS & Hlab); [by apply mem_lookup|done|].
    rewrite <-fresh_strip, <-mem_insert in L1, Hlab. fold q1 in L1, Hlab.
    assert (nframe (fresh r fr nd) = fr) as Hf by (destruct (fresh_new (r := r) fr nd Ht Hfr) as (? & _); done).
    split; [|split; [|done]].
    + constructor; [by apply (rep_other q S v)|by apply (sorted_other q S)|done].
    + constructor; try done; [intros n; rewrite Hlab; lia| |].
      * intros n Hn Hlt. rewrite Hlab in Hlt. unfold q1. rewrite mem_insert. destruct (decide (n = v)) as [->|Hne]; [|by rewrite lookup_insert_ne].
        exfalso. unfold label in Hlt. rewrite (mem_lookup _ _ _ Hv) in Hlt. cbn in Hlt. rewrite (proj2 (Z.eqb_neq _ _) Ht) in Hlt. lia.
      * apply weight_le; [|done]. intros n. by rewrite Hlab.
Qed.
(** ** One step *)

(** The queue operation at the end of the loop body. *)
Definition enqueue (v : Z) (nd' : PathNode) (q : OpenQueueBH) : out OpenQueueBH :=
  let q := q <| nodes ::= <[v := nd']> |> in
  if inOpen nd' then UpdateNode A v q
  else q ← node_set v (fun nd => nd <| inClosed := false |>) q; Push A v q.

Lemma enqueue_spec q S ex v nd nd' : QI q S ex -> interior X Y v -> nodes q !! v = Some nd -> nframe nd = fr ->
  myIndex nd' = myIndex nd -> inOpen nd' = inOpen nd -> fvalid (totalCost nd') -> (v ∈ S -> okey (totalCost nd') <= okey (totalCost nd)) ->
  exists q' c, enqueue v nd' q = Val q' /\ Rep A q' ({[v]} ∪ S) /\ Sorted q' /\
    mem q' = <[v := strip nd' <| inOpen := true |> <| inClosed := c |>]> (mem q).
Proof.
  intros [R HS L] Hi Hv Ht Hix Ho V Hle. pose proof (li_open _ _ _ _ _ _ L v (strip nd) (mem_lookup _ _ _ Hv) Ht) as HoS.
  unfold enqueue. rewrite Ho. destruct (inOpen nd) eqn:Eo.
  - assert (v ∈ S) as HvS by (by apply HoS). destruct (Update_spec q S v nd nd' R HS HvS Hv) as (q' & -> & R' & S' & E'); try done; [congruence|auto|].
    exists q', (inClosed nd'). replace ({[v]} ∪ S) with S by set_solver. split_and!; try done. unfold mem. rewrite E', fmap_insert. f_equal.
    destruct nd'; cbn in *. by subst.
  - assert (v ∉ S) as HvS by (intros H; apply HoS in H; cbn in H; congruence).
    unfold node_set, deref. cbn. rewrite lookup_insert_eq. cbn. rewrite insert_insert_eq.
    set (nd2 := {| myIndex := _; x2 := _ |}). set (q2 := {| nodes := _; heapArray := _; hsize := _ |}).
    destruct (heap_Push_spec (ALLOCATE := A) q2 S v nd2) as (q' & -> & R' & S' & E'); try done.
    + by apply (rep_other q S v).
    + by apply (sorted_other q S v).
    + apply lookup_insert_eq.
    + cbn. rewrite (rep_size _ _ _ R). by eapply open_room.
    + exists q', false. split_and!; try done. unfold mem. rewrite E'. cbn. by rewrite insert_insert_eq, fmap_insert.
Qed.

Lemma improve_spec q S u nu d v w nd nd' cf tc : QI q S (Some u) -> nodes q !! u = Some nu -> nframe nu = fr -> okey (prim r nu) < BIG -> u ∉ S ->
  step u d v w -> nodes q !! v = Some nd -> nframe nd = fr -> okey (fadd (prim r nu) w) < okey (prim r nd) ->
  nd' = (nd <| parent := Some u |>) <| costFromStart := cf |> <| totalCost := tc |> ->
  (if rtotal r then tc else cf) = fadd (prim r nu) w -> tc = T (x2 nd) (y2 nd) (fadd (prim r nu) w) ->
  cf = tr d.2 v (fadd (prim r nu) w) (costFromStart nu) ->
  exists q', enqueue v nd' q = Val q' /\ QI q' ({[v]} ∪ S) (Some u) /\ Adv q S q' ({[v]} ∪ S) /\ (u ∉ ({[v]} ∪ S : gset Z)) /\
    lab (mem q') v = okey (fadd (prim r nu) w).
Proof.
  intros [R HS L] Hu Htu Hub HuS Hst Hv Htv Hlt -> Ep Et Ec. set (nd' := (nd <| parent := Some u |>) <| costFromStart := cf |> <| totalCost := tc |>).
  pose proof (mem_lookup _ _ _ Hu) as Mu. pose proof (mem_lookup _ _ _ Hv) as Mv.
  destruct (li_touched _ _ _ _ _ _ L u _ Mu Htu) as (Iu & Cu & _). destruct (li_touched _ _ _ _ _ _ L v _ Mv Htv) as (Iv & Cv & Bv).
  rewrite prim_strip in Cu, Cv, Bv. destruct (step_cost_ok Hr _ _ _ _ Iu Hst) as [Hw _].
  destruct (li_cell _ _ _ _ _ _ L v _ Mv) as (Gx & Gy & _). cbn in Gx, Gy.
  assert (prim r nd' = fadd (prim r nu) w) as Ep' by (unfold prim at 1; destruct (rtotal r); exact Ep).
  destruct (li_start _ _ _ _ _ _ L) as (nds & Hs & _ & _ & Hzs & _).
  assert (v <> s) as Hvs.
  { intros ->. rewrite Mv in Hs. simplify_eq. rewrite prim_strip in Hzs. rewrite Hzs in Hlt. destruct (fadd_ok _ _ Cu Hw) as [_ ?]. cbn in Hlt. lia. }
  destruct (enqueue_spec q S (Some u) v nd nd') as (q' & c & -> & R' & S' & Em); try done.
  { cbn. rewrite Et, Gx, Gy. apply (ok_total _ _ _ _ _ Hr); auto with cost. lia. }
  { intros HvS. destruct (li_sub _ _ _ _ _ _ L v HvS) as (n0 & Hn0 & _ & Hb0 & HT). rewrite Mv in Hn0. apply (inj Some) in Hn0 as <-. specialize (HT Hvs).
    rewrite prim_strip in HT, Hb0. cbn in HT |- *. rewrite Et, HT, Gx, Gy. apply (ok_total_mono _ _ _ _ _ Hr); auto with cost; lia. }
  set (ndn := strip nd' <| inOpen := true |> <| inClosed := c |>) in *.
  assert (prim r ndn = fadd (prim r nu) w) as En by (unfold ndn; rewrite prim_strip; exact Ep').
  destruct (linv_improve Hr fr s E (mem q) S u (strip nu) d v w (strip nd) ndn) as (L' & Hvu & Hlab); try done; try (rewrite ?prim_strip; done).
  { rewrite En. exact Et. }
  { rewrite En. exact Ec. }
  rewrite <-Em in L', Hlab. rewrite En in Hlab.
  assert (lab (mem q) v = okey (prim r nd)) as Hlv by (rewrite (label_touched fr _ _ _ Mv Htv); by rewrite prim_strip).
  assert (forall n, lab (mem q') n <= lab (mem q) n) as Hle by (intros n; rewrite Hlab; case_decide; subst; lia).
  exists q'. split; [done|]. split; [by constructor|]. split; [|split; [set_solver|rewrite Hlab; by rewrite decide_True]].
  constructor; try done; [set_solver| |].
  - intros n Hn _. rewrite Em. apply lookup_insert_ne. set_solver.
  - unfold weight. assert (sum_list_with (fun n => Z.to_nat (lab (mem q') n)) (seqZ 0 A) < sum_list_with (fun n => Z.to_nat (lab (mem q) n)) (seqZ 0 A))%nat as Hsum.
    { apply sum_list_with_lt with v.
      - apply elem_of_seqZ. destruct (li_dom _ _ _ _ _ _ L v) as [Hd _]. specialize (Hd (mk_is_Some _ _ Mv)). lia.
      - rewrite Hlab, decide_True, Hlv by done. destruct (fadd_ok _ _ Cu Hw). lia.
      - intros n. specialize (Hle n). lia. }
    assert (size ({[v]} ∪ S) <= 1 + size S)%nat by (rewrite size_union_alt, size_singleton; pose proof (subseteq_size (S ∖ {[v]}) S ltac:(set_solver)); lia). lia.
Qed.
Definition relaxed (q : OpenQueueBH) (u : Z) (c : float) (d : Z * bool) : Prop :=
  forall v w, step u d v w -> lab (mem q) v <= okey (fadd c w).

Lemma relax_spec q S u nu d : QI q S (Some u) -> nodes q !! u = Some nu -> nframe nu = fr -> okey (prim r nu) < BIG -> u ∉ S -> d ∈ rsteps r ->
  exists q' S', relax r A fr u (prim r nu) (costFromStart nu) d q = Val q' /\ QI q' S' (Some u) /\ Adv q S q' S' /\ (u ∉ S') /\ relaxed q' u (prim r nu) d.
Proof.
  intros Q Hu Htu Hub HuS Hd. pose proof (qi_inv _ _ _ Q) as L. pose proof (mem_lookup _ _ _ Hu) as Mu.
  destruct (li_touched _ _ _ _ _ _ L u _ Mu Htu) as (Iu & Cu & _). rewrite prim_strip in Cu.
  destruct (ok_blocked _ _ _ _ _ Hr u d Iu Hd) as (b & Eb & Hi). unfold relax. set (v := d.1 + u) in *. rewrite Eb. cbn.
  destruct b.
  { exists q, S. split_and!; try done; try apply adv_refl. intros v' w (_ & -> & Hb & _). fold v in Hb. congruence. }
  specialize (Hi eq_refl). assert (is_Some (mem q !! v)) as [nd0 Mv].
  { apply (li_dom _ _ _ _ _ _ L). pose proof (interior_range X Y v Hi). lia. }
  destruct (mem_lookup_inv _ _ _ Mv) as (nd & Hv & ->). unfold deref. rewrite Hv. cbn.
  assert (index2 nd = cell_index2 X v) as Ei by (by destruct (li_cell _ _ _ _ _ _ L v _ Mv) as (_ & _ & ? & _)).
  rewrite Ei. destruct (ok_unsafe _ _ _ _ _ Hr v Hi) as (b & Es). rewrite Es. cbn. destruct b.
  { exists q, S. split_and!; try done; try apply adv_refl. intros v' w (_ & -> & _ & Hs & _). fold v in Hs. congruence. }
  destruct (touch_spec q S (Some u) v nd Q Hi Hv) as (Q1 & A1 & Hf & Hlab). cbn -[fresh] in Q1, A1, Hlab.
  set (nd1 := fresh r fr nd) in *. set (q1 := {| nodes := <[v := nd1]> (nodes q); heapArray := heapArray q; hsize := hsize q |}) in *.
  assert (nodes q1 !! v = Some nd1) as Hv1 by apply lookup_insert_eq. pose proof (mem_lookup _ _ _ Hv1) as Mv1.
  pose proof (qi_inv _ _ _ Q1) as L1. destruct (li_cell _ _ _ _ _ _ L1 v _ Mv1) as (Gx & Gy & Gi & _). cbn in Gx, Gy, Gi.
  destruct (ok_cost _ _ _ _ _ Hr v Hi Eb) as (nc & Ec & Hnc).
  assert (step u d v (scale d.2 nc)) as Hst by (repeat split; eauto).
  rewrite <-Gi in Ec. rewrite Ec. cbn.
  destruct (step_cost_ok Hr _ _ _ _ Iu Hst) as [Hw _]. destruct (li_touched _ _ _ _ _ _ L1 v _ Mv1 Hf) as (_ & Cv & Bv). rewrite prim_strip in Cv, Bv.
  assert (lab (mem q1) v = okey (prim r nd1)) as Hl1 by (rewrite (label_touched fr _ _ _ Mv1 Hf); by rewrite prim_strip).
  assert (forall v' w', step u d v' w' -> v' = v /\ w' = scale d.2 nc) as Huniq by (intros v' w' Hst'; eapply step_fun; eauto).
  rewrite fle_okey by (apply Cv || by apply fadd_ok). destruct (Z.leb_spec (okey (prim r nd1)) (okey (fadd (prim r nu) (scale d.2 nc)))) as [Hle|Hgt].
  { exists q1, S. split_and!; try done. intros v' w' [-> ->]%Huniq. lia. }
  destruct (ok_improve _ _ _ _ _ Hr d.2 v (fadd (prim r nu) (scale d.2 nc)) (costFromStart nu) (nd1 <| parent := Some u |>) Hi Eb) as (cf & tc & Eimp & H1 & H2 & H3).
  rewrite <-Gi in Eimp. cbn in Eimp. rewrite Eimp. cbn -[enqueue].
  assert (v <> u) as Hvu by (intros E0; rewrite <-E0 in Hu; pose proof (ok_dirs _ _ _ _ _ Hr d Hd); unfold v in E0; lia).
  assert (nodes q1 !! u = Some nu) as Hu1 by (cbn; by rewrite lookup_insert_ne).
  destruct (improve_spec q1 S u nu d v (scale d.2 nc) nd1 _ cf tc Q1 Hu1 Htu Hub HuS Hst Hv1 Hf Hgt eq_refl H1 H2 H3) as (q' & Eq & Q' & A' & Hu' & Hl').
  unfold enqueue in Eq. cbn in Eq. rewrite Eq. exists q', ({[v]} ∪ S). split_and!; try done; [by eapply adv_trans|].
  intros v' w' [-> ->]%Huniq. lia.
Qed.

Lemma expand_spec q S u nu : QI q S (Some u) -> nodes q !! u = Some nu -> nframe nu = fr -> okey (prim r nu) < BIG -> u ∉ S ->
  exists q' S', expand r A fr u nu q = Val q' /\ QI q' S' (Some u) /\ Adv q S q' S' /\ (u ∉ S') /\ forall d, d ∈ rsteps r -> relaxed q' u (prim r nu) d.
Proof.
  intros Q Hu Htu Hub HuS. unfold expand.
  destruct (each_ok (relax r A fr u (prim r nu) (costFromStart nu)) (fun done q' => exists S', QI q' S' (Some u) /\ Adv q S q' S' /\ (u ∉ S') /\
    forall d, d ∈ done -> relaxed q' u (prim r nu) d) (rsteps r) q) as (q' & -> & S' & H).
  - exists S. split_and!; try done; try apply adv_refl; set_solver.
  - intros d done q1 Hd (S1 & Q1 & A1 & Hu1 & Hdone).
    assert (lab (mem q) u < BIG) as Hlu by (rewrite (label_touched fr _ _ _ (mem_lookup _ _ _ Hu) Htu), prim_strip; lia).
    assert (lab (mem q1) u < BIG) as Hlu1 by (pose proof (adv_le _ _ _ _ A1 u); lia).
    pose proof (adv_mem _ _ _ _ A1 u Hu1 Hlu1) as Em. rewrite (mem_lookup _ _ _ Hu) in Em.
    destruct (mem_lookup_inv _ _ _ Em) as (nu1 & Hnu1 & Es). pose proof (strip_eq _ _ (eq_sym Es)) as Enu.
    assert (prim r nu1 = prim r nu /\ costFromStart nu1 = costFromStart nu /\ nframe nu1 = nframe nu) as (Ep & Ec & Ef).
    { rewrite Enu. unfold prim. by destruct (rtotal r). }
    rewrite <-Ep, <-Ec. destruct (relax_spec q1 S1 u nu1 d Q1 Hnu1) as (q2 & S2 & E2 & Q2 & A2 & Hu2 & Hrel); try done; [congruence|by rewrite Ep|].
    exists q2. split; [done|]. exists S2. split_and!; try done; [by eapply adv_trans|]. intros d' [Hd'| ->%list_elem_of_singleton]%elem_of_app; [|done].
    intros v w Hst. pose proof (Hdone d' Hd' v w Hst). pose proof (adv_le _ _ _ _ A2 v). rewrite Ep. lia.
  - exists q', S'. destruct H as (? & ? & ? & ?). done.
Qed.
(** ** The loop *)

(** The node taken out. *)
Lemma pop_spec q S : QI q S None -> 0 < hsize q ->
  exists p nd q', Pop A q = Val (p, q') /\ p ∈ S /\ nodes q' !! p = Some nd /\ nframe nd = fr /\ okey (prim r nd) < BIG /\
    QI q' (S ∖ {[p]}) (Some p) /\ (forall n, lab (mem q') n = lab (mem q) n) /\ (forall n, n <> p -> mem q' !! n = mem q !! n) /\
    (weight q' (S ∖ {[p]}) < weight q S)%nat.
Proof.
  intros [R HS L] Hsz. destruct (Pop_spec (ALLOCATE := A) q S R HS Hsz) as (p & nd & q' & -> & Hp & Hnd & _ & R' & S' & Es).
  pose proof (mem_lookup _ _ _ Hnd) as Mp. destruct (li_sub _ _ _ _ _ _ L p Hp) as (n0 & Hn0 & Ht & Hb & _).
  rewrite Mp in Hn0. apply (inj Some) in Hn0 as <-. set (ndp := strip nd <| inOpen := false |>).
  assert (mem q' = <[p := ndp]> (mem q)) as Em by (unfold mem; rewrite Es, fmap_insert; done).
  destruct (linv_flags Hr fr s E (mem q) S (S ∖ {[p]}) None (Some p) p (strip nd) ndp L Mp Ht Hb) as [L' Hlab].
  { exists false, (inClosed nd). by destruct nd. }
  { set_solver. }
  { intros x Hx. destruct (decide (x = p)); set_solver. }
  { split; [done|set_solver]. }
  { done. }
  { done. }
  rewrite <-Em in L', Hlab. destruct (mem_lookup_inv q' p ndp) as (nd' & Hnd' & Es'); [by rewrite Em, lookup_insert_eq|].
  exists p, nd', q'. rewrite <-(prim_strip r nd'), <-Es'. pose proof (f_equal nframe Es') as Ef. cbn in Ef.
  split_and!; try done.
  - rewrite <-Ef. exact Ht.
  - intros n Hn. rewrite Em. by apply lookup_insert_ne.
  - unfold weight. assert (size (S ∖ {[p]}) < size S)%nat.
    { rewrite size_difference, size_singleton by set_solver. assert (size S <> 0)%nat by (intros H0%size_empty_inv; set_solver). lia. }
    assert (sum_list_with (fun n => Z.to_nat (lab (mem q') n)) (seqZ 0 A) <= sum_list_with (fun n => Z.to_nat (lab (mem q) n)) (seqZ 0 A))%nat; [|lia].
    apply sum_list_with_le. intros n _. by rewrite Hlab.
Qed.

(** The node expanded and closed. *)
Lemma close_spec q S u nu : QI q S (Some u) -> nodes q !! u = Some nu -> nframe nu = fr -> okey (prim r nu) < BIG -> u ∉ S ->
  exists q' S', (q1 ← expand r A fr u nu q; node_set u (fun nd => nd <| inClosed := true |>) q1) = Val q' /\ QI q' S' None /\ (u ∉ S') /\ S ⊆ S' /\
    (weight q' S' <= weight q S)%nat /\ (forall n, lab (mem q') n <= lab (mem q) n) /\
    (forall n, n ∉ S' -> lab (mem q') n < BIG -> n <> u -> mem q' !! n = mem q !! n) /\
    exists nu', nodes q' !! u = Some nu' /\ costFromStart nu' = costFromStart nu /\ nframe nu' = fr /\ prim r nu' = prim r nu.
Proof.
  intros Q Hu Htu Hub HuS. destruct (expand_spec q S u nu Q Hu Htu Hub HuS) as (q1 & S1 & -> & Q1 & A1 & Hu1 & Hrel). cbn.
  pose proof (mem_lookup _ _ _ Hu) as Mu.
  assert (lab (mem q1) u < BIG) as Hlu by (pose proof (adv_le _ _ _ _ A1 u) as H0; rewrite (label_touched fr _ _ _ Mu Htu), prim_strip in H0; lia).
  pose proof (adv_mem _ _ _ _ A1 u Hu1 Hlu) as Em. rewrite Mu in Em. destruct (mem_lookup_inv _ _ _ Em) as (nu1 & Hnu1 & Es).
  unfold node_set, deref. rewrite Hnu1. cbn. pose proof (strip_eq _ _ (eq_sym Es)) as Enu.
  assert (prim r nu1 = prim r nu /\ costFromStart nu1 = costFromStart nu /\ nframe nu1 = nframe nu) as (Ep & Ec & Ef) by (rewrite Enu; unfold prim; by destruct (rtotal r)).
  set (nu2 := {| myIndex := _; x2 := _ |}). set (q2 := {| nodes := _; heapArray := _; hsize := _ |}).
  assert (mem q2 = <[u := strip nu2]> (mem q1)) as Em2 by (unfold mem; cbn; by rewrite fmap_insert).
  pose proof (qi_inv _ _ _ Q1) as L1. rewrite Es in Em.
  destruct (linv_flags Hr fr s E (mem q1) S1 S1 (Some u) None u (strip nu1) (strip nu2) L1 Em) as [L2 Hlab2]; try done.
  { unfold touched. cbn. congruence. }
  { rewrite prim_strip. by rewrite Ep. }
  { exists (inOpen nu1), true. by destruct nu1. }
  { set_solver. }
  { rewrite <-(li_open _ _ _ _ _ _ L1 u _ Em); [done|]. unfold touched. cbn. congruence. }
  { intros _ _ d x w Hst. rewrite prim_strip, Ep. apply (Hrel d); [by destruct Hst|done]. }
  { intros n Hn _ [= ->]. done. }
  rewrite <-Em2 in L2, Hlab2. exists q2, S1. split_and!; try done.
  - constructor; [by apply (rep_other q1 S1 u); [apply Q1|]|by apply (sorted_other q1 S1 u); [apply Q1|apply Q1|]|done].
  - apply A1.
  - transitivity (weight q1 S1); [|apply A1]. apply weight_le; [|done]. intros n. by rewrite Hlab2.
  - intros n. rewrite Hlab2. apply A1.
  - intros n Hn Hlt Hne. rewrite Hlab2 in Hlt. rewrite Em2, lookup_insert_ne by done. by apply A1.
  - exists nu2. cbn. rewrite lookup_insert_eq. split_and!; try done; congruence.
Qed.

Context {V : Type} (goal : Z -> PathNode -> out bool) (visit : PathNode -> V -> out V) (G : Z -> bool).
Context (Vgood : V -> Prop) (Vok : V -> Z -> option float -> Prop).

(** What the test of the popped node and the visit of a node promise. *)
Record VisitOk : Prop := {
  vo_goal n nd : interior X Y n -> isEndNode nd = E n -> goal n nd = Val (G n);
  vo_visit n nd v : interior X Y n -> index2 nd = cell_index2 X n -> Vgood v ->
    exists v', visit nd v = Val v' /\ Vgood v' /\ Vok v' n (Some (costFromStart nd)) /\
      forall n' o, n' <> n -> interior X Y n' -> Vok v n' o -> Vok v' n' o;
}.
Hypothesis HV : VisitOk.

(** The travel distance of a node reached, [None] if it was not. *)
Definition travel (m : gmap Z PathNode) (n : Z) : option float :=
  match m !! n with Some nd => if (nframe nd =? fr) && (okey (prim r nd) <? BIG) then Some (costFromStart nd) else None | None => None end.

Record LoopInv (q : OpenQueueBH) (S : gset Z) (v : V) : Prop := {
  lp_qi : QI q S None;
  lp_good : Vgood v;
  lp_visited n : interior X Y n -> n ∉ S -> Vok v n (travel (mem q) n);
  lp_nogoal n : lab (mem q) n < BIG -> n ∉ S -> G n = false;
}.

Lemma travel_BIG (m : gmap Z PathNode) n : BIG <= lab m n -> travel m n = None.
Proof.
  unfold travel, label. destruct (m !! n) as [nd|]; [|done]. destruct (nframe nd =? fr); [|done]. cbn. intros H. by rewrite (proj2 (Z.ltb_ge _ _) H).
Qed.

Lemma travel_same (m m' : gmap Z PathNode) n : m !! n = m' !! n -> travel m n = travel m' n /\ lab m n = lab m' n.
Proof. unfold travel, label. by intros ->. Qed.

(** One iteration that does not reach a goal. *)
Lemma iteration_spec q S v p nd q1 : LoopInv q S v -> QI q1 (S ∖ {[p]}) (Some p) -> p ∈ S -> nodes q1 !! p = Some nd -> nframe nd = fr ->
  okey (prim r nd) < BIG -> (forall n, lab (mem q1) n = lab (mem q) n) -> (forall n, n <> p -> mem q1 !! n = mem q !! n) -> G p = false ->
  exists v' q' S', visit nd v = Val v' /\ (q2 ← expand r A fr p nd q1; node_set p (fun nd => nd <| inClosed := true |>) q2) = Val q' /\
    LoopInv q' S' v' /\ (weight q' S' <= weight q1 (S ∖ {[p]}))%nat.
Proof.
  intros [Q Hgood Hvis Hng] Q1 Hp Hnd Hf Hb Hlab1 Hmem1 HG.
  destruct (li_cell _ _ _ _ _ _ (qi_inv _ _ _ Q1) p _ (mem_lookup _ _ _ Hnd)) as (_ & _ & Ei & _ & _). cbn in Ei.
  destruct (li_touched _ _ _ _ _ _ (qi_inv _ _ _ Q1) p _ (mem_lookup _ _ _ Hnd) Hf) as (Ip & _ & _).
  destruct (vo_visit HV p nd v Ip Ei Hgood) as (v' & Ev & Hgood' & Hok' & Hkeep).
  destruct (close_spec q1 (S ∖ {[p]}) p nd Q1 Hnd Hf Hb ltac:(set_solver)) as (q' & S' & Eq & Q' & Hp' & Hsub & Hw & Hle & Hmem & nu' & Hnu' & Ec' & Ef' & Ep').
  exists v', q', S'. split_and!; try done.
  assert (lab (mem q') p < BIG) as Hlp.
  { pose proof (Hle p) as H0. rewrite (label_touched fr (mem q1) p _ (mem_lookup _ _ _ Hnd) Hf), prim_strip in H0. lia. }
  assert (forall n, n ∉ S' -> n <> p -> n ∉ S) as HnS.
  { intros n Hn Hne HnS. apply Hn, Hsub. set_solver. }
  constructor; try done.
  - intros n Hi Hn. destruct (decide (n = p)) as [->|Hne].
    + assert (travel (mem q') p = Some (costFromStart nd)) as ->; [|done]. unfold travel. rewrite (mem_lookup _ _ _ Hnu'), prim_strip.
      change (nframe (strip nu')) with (nframe nu'). rewrite Ef', Z.eqb_refl, Ep', (proj2 (Z.ltb_lt _ _) Hb). cbn. by rewrite Ec'.
    + specialize (HnS n Hn Hne). apply Hkeep; [done|done|]. specialize (Hvis n Hi HnS).
      destruct (Z.lt_ge_cases (lab (mem q') n) BIG) as [Hlt|Hge].
      * destruct (travel_same (mem q') (mem q) n) as [-> _]; [|done]. rewrite Hmem by done. by apply Hmem1.
      * rewrite travel_BIG by done. rewrite travel_BIG in Hvis; [done|]. specialize (Hle n). rewrite Hlab1 in Hle. lia.
  - intros n Hlt Hn. destruct (decide (n = p)) as [->|Hne]; [done|]. apply Hng; [|by apply HnS].
    destruct (travel_same (mem q') (mem q) n) as [_ <-]; [|done]. rewrite Hmem by done. by apply Hmem1.
Qed.

(** Where the loop stops. *)
Definition stopped (hit : option Z) (v : V) (q : OpenQueueBH) : Prop :=
  match hit with
  | None => LoopInv q ∅ v
  | Some n => G n = true /\ lab (mem q) n < BIG /\ exists S, QI q S (Some n)
  end.

Theorem loop_spec (v : V) (q : OpenQueueBH) (S : gset Z) : LoopInv q S v ->
  exists N hit v' q', stopped hit v' q' /\ forall fuel, (N <= fuel)%nat -> search_loop fuel r A fr goal visit v q = Val (Some (hit, v', q')).
Proof.
  remember (weight q S) as k eqn:Ek. revert v q S Ek. induction (Nat.lt_wf_0 k) as [k _ IH]. intros v q S -> I. pose proof (lp_qi _ _ _ I) as Q.
  pose proof (rep_size _ _ _ (qi_rep _ _ _ Q)) as Hsz. destruct (decide (hsize q = 0)) as [Hz|Hz].
  { assert (S = ∅) as -> by (apply leibniz_equiv, size_empty_inv; lia). exists 1%nat, None, v, q. split; [done|].
    intros [|fuel] Hf; [lia|]. cbn. unfold Empty. by rewrite (proj2 (Z.eqb_eq _ _) Hz). }
  destruct (pop_spec q S Q ltac:(lia)) as (p & nd & q1 & Epop & Hp & Hnd & Hf & Hb & Q1 & Hlab & Hmem & Hw).
  destruct (li_cell _ _ _ _ _ _ (qi_inv _ _ _ Q1) p _ (mem_lookup _ _ _ Hnd)) as (_ & _ & _ & _ & He). cbn in He.
  destruct (li_touched _ _ _ _ _ _ (qi_inv _ _ _ Q1) p _ (mem_lookup _ _ _ Hnd) Hf) as (Ip & _ & _).
  pose proof (vo_goal HV p nd Ip He) as Eg. destruct (G p) eqn:EG.
  { exists 1%nat, (Some p), v, q1. split.
    - split_and!; [done| |eauto]. rewrite (label_touched fr _ _ _ (mem_lookup _ _ _ Hnd) Hf). by rewrite prim_strip.
    - intros [|fuel] Hfu; [lia|]. cbn. unfold Empty. rewrite (proj2 (Z.eqb_neq _ _) Hz), Epop. cbn. unfold deref. rewrite Hnd. cbn. by rewrite Eg. }
  destruct (iteration_spec q S v p nd q1 I Q1 Hp Hnd Hf Hb Hlab Hmem EG) as (v' & q' & S' & Ev & Eq & I' & Hw').
  destruct (IH (weight q' S') ltac:(lia) v' q' S' eq_refl I') as (N & hit & v2 & q2 & Hstop & Hrun).
  exists (Datatypes.S N), hit, v2, q2. split; [done|]. intros [|fuel] Hfu; [lia|]. cbn. unfold Empty. rewrite (proj2 (Z.eqb_neq _ _) Hz), Epop. cbn.
  unfold deref. rewrite Hnd. cbn. rewrite Eg. cbn. rewrite Ev. cbn.
  destruct (expand r A fr p nd q1) as [q3| |]; [|done|done]. cbn in Eq |- *. rewrite Eq. cbn. apply Hrun. lia.
Qed.
End Loop.
