(* ===== verification/PatherResult.v ===== *)
(** What the invariant says once the loop has stopped: labels are least costs, the parent
    pointers spell out a walk, and [GoalReached] writes that walk down. *)

From S2P Require Import Prelude Outcome Float32 FloatOrder OpenQueue OpenQueueSpec MicroPather PatherInv PatherLoop.

Section Result.
Context {r : Rules} {X Y : Z} {T : Z -> Z -> float -> float} {tr : bool -> Z -> float -> float -> float} (Hr : RulesOk r X Y T tr).
Context (fr s : Z) (E : Z -> bool).
Abbreviation Inv := (LInv (r := r) (X := X) (Y := Y) (T := T) (tr := tr) fr s E).
Abbreviation lab := (label (r := r) fr).
Abbreviation walk := (Walk (r := r) (X := X) (tr := tr) s).
Abbreviation chain := (Chain (r := r) (X := X) fr s).

Lemma walk_ok l n c t : interior X Y s -> walk l n c t -> interior X Y n /\ cost_ok c.
Proof.
  intros Hs Hw. induction Hw as [|l u c t d v w Hw [IHi IHc] Hst]; [done|]. destruct (step_cost_ok Hr _ _ _ _ IHi Hst). auto with cost.
Qed.

(** When nothing is open any more, no walk is cheaper than the label of its end. *)
Lemma walk_label m l n c t : Inv m ∅ None -> walk l n c t -> lab m n <= okey c.
Proof.
  intros L Hw. destruct (li_start _ _ _ _ _ _ L) as (nds & Hs & Hts & _ & Hz & _).
  destruct (li_touched _ _ _ _ _ _ L s nds Hs Hts) as (Is & _).
  induction Hw as [|l u c t d v w Hw IH Hst]; [rewrite (label_touched fr _ _ _ Hs Hts), Hz; done|].
  destruct (walk_ok _ _ _ _ Is Hw) as [Iu Cc]. destruct (step_cost_ok Hr _ _ _ _ Iu Hst) as [Hcw Iv].
  destruct (Z.lt_ge_cases (lab m u) BIG) as [Hlt|Hge].
  - destruct (label_small fr m u Hlt) as (nu & Hu & Htu & El). destruct (li_touched _ _ _ _ _ _ L u nu Hu Htu) as (_ & Cu & _).
    pose proof (li_closed _ _ _ _ _ _ L u nu d v w Hu Htu ltac:(lia) ltac:(set_solver) ltac:(done) Hst).
    pose proof (fadd_mono (prim r nu) c w w Cu Cc Hcw Hcw ltac:(lia) ltac:(done)). lia.
  - pose proof (label_BIG fr s E m ∅ None v L). pose proof (fadd_ge c w Cc Hcw). lia.
Qed.

(** Walks over moderate costs stay moderate. *)
Lemma walk_bounded l n c t : interior X Y s -> (forall u d v w, interior X Y u -> Step (r := r) (X := X) u d v w -> okey w <= okey two100) ->
  walk l n c t -> okey c < BIG.
Proof.
  intros Hs Hb Hw. assert (okey c <= okey two125); [|unfold BIG; cbn in *; lia].
  induction Hw as [|l u c t d v w Hw IH Hst]; [done|]. destruct (walk_ok _ _ _ _ Hs Hw) as [Iu Cc].
  destruct (step_cost_ok Hr _ _ _ _ Iu Hst) as [Hcw _]. apply fadd_bounded; eauto.
Qed.

(** The parent pointers are a walk that costs no more than the label. *)
Lemma chain_walk m S ex l n : Inv m S ex -> chain m l n -> exists c t, walk l n c t /\ okey c <= lab m n.
Proof.
  intros L Hc. destruct (li_start _ _ _ _ _ _ L) as (nds & Hs & Hts & _). destruct (li_touched _ _ _ _ _ _ L s nds Hs Hts) as (Is & _).
  induction Hc as [nd Hs' Ht Hp Hz|l n nd u ndu d w Hn Ht Hp Hu Htu Hst Hle Hc IH].
  - exists f0, f0. split; [constructor|]. by rewrite (label_touched fr _ _ _ Hs' Ht), Hz.
  - destruct IH as (c & t & Hw & Hcl). rewrite (label_touched fr _ _ _ Hu Htu) in Hcl. eexists _, _. split; [by eapply walk_step|].
    destruct (walk_ok _ _ _ _ Is Hw) as [Iu Cc]. destruct (step_cost_ok Hr _ _ _ _ Iu Hst) as [Hcw _].
    destruct (li_touched _ _ _ _ _ _ L u ndu Hu Htu) as (_ & Cu & _). rewrite (label_touched fr _ _ _ Hn Ht).
    pose proof (fadd_mono c (prim r ndu) w w Cc Cu Hcw Hcw Hcl ltac:(done)). lia.
Qed.

(** ** The length of a chain *)

Lemma chain_last m l n : chain m l n -> last l = Some s.
Proof. induction 1 as [|l n nd u ndu d w ? ? ? ? ? ? ? Hc IH]; [done|]. inversion Hc; subst; exact IH. Qed.

Lemma chain_head m l n : chain m l n -> exists l', l = n :: l'.
Proof. inversion 1; eauto. Qed.

Lemma chain_det m l n : chain m l n -> forall l', chain m l' n -> l = l'.
Proof.
  induction 1 as [nd Hs Ht Hp Hz|l n nd u ndu d w Hn Ht Hp Hu Htu Hst Hle Hc IH]; intros l' Hc'; inversion Hc'; subst; try done; try congruence.
  f_equal. apply IH. congruence.
Qed.

Lemma chain_suffix m l n x : chain m l n -> x ∈ l -> exists l', chain m l' x /\ (length l' <= length l)%nat.
Proof.
  induction 1 as [nd Hs Ht Hp Hz|l n nd u ndu d w Hn Ht Hp Hu Htu Hst Hle Hc IH]; intros Hx.
  - apply list_elem_of_singleton in Hx as ->. exists [s]. split; [|done]. by apply (chain_start _ _ _ nd).
  - apply elem_of_cons in Hx as [->|Hx].
    + exists (n :: l). split; [|done]. by apply (chain_step _ _ _ l n nd u ndu d w).
    + destruct (IH Hx) as (l' & ? & ?). exists l'. cbn. split; [done|lia].
Qed.

Lemma chain_NoDup m l n : chain m l n -> NoDup l.
Proof.
  induction 1 as [nd Hs Ht Hp Hz|l n nd u ndu d w Hn Ht Hp Hu Htu Hst Hle Hc IH]; [apply NoDup_singleton|].
  constructor; [|done]. intros Hin. destruct (chain_suffix m l u n Hc Hin) as (l' & Hl' & Hlen).
  assert (chain m (n :: l) n) as Hc2 by (by apply (chain_step _ _ _ l n nd u ndu d w)).
  pose proof (chain_det m _ _ Hc2 _ Hl') as <-. cbn in Hlen. lia.
Qed.

Lemma chain_length q l n : chain (mem q) l n -> (length l <= size (nodes q))%nat.
Proof.
  intros Hc. pose proof (chain_NoDup _ _ _ Hc) as Hnd. rewrite <-(size_list_to_set (C := gset Z) l Hnd), <-size_dom.
  apply subseteq_size. intros x Hx%elem_of_list_to_set. destruct (chain_in (r := r) (X := X) fr s _ _ _ Hc x Hx) as (nd & Hm & _).
  destruct (mem_lookup_inv _ _ _ Hm) as (nd' & Hn & _). by apply elem_of_dom_2 in Hn.
Qed.

(** ** Writing the path down *)

Lemma count_parents_spec q l n fuel k : chain (mem q) l n -> (length l <= fuel)%nat -> count_parents fuel (nodes q) n k = Val (k + size_of l - 1).
Proof.
  intros Hc. revert fuel k. induction Hc as [nd Hs Ht Hp Hz|l n nd u ndu d w Hn Ht Hp Hu Htu Hst Hle Hc IH]; intros [|fuel] k Hf; cbn in Hf; try lia.
  - destruct (mem_lookup_inv _ _ _ Hs) as (nd' & Hs' & ->). cbn. unfold deref. rewrite Hs'. cbn in Hp |- *. rewrite Hp. f_equal. rewrite size_of_cons, size_of_nil. lia.
  - destruct (mem_lookup_inv _ _ _ Hn) as (nd' & Hn' & ->). cbn. unfold deref. rewrite Hn'. cbn in Hp |- *. rewrite Hp, IH by lia. f_equal. rewrite size_of_cons. lia.
Qed.

Lemma path_put_ok i v (path : list Z) : 0 <= i < size_of path -> path_put i v path = Val (<[Z.to_nat i := v]> path).
Proof. intros Hi. unfold path_put. by assert ((0 <=? i) && (i <? size_of path) = true) as -> by lia. Qed.

(** Filling in a chain, except its last node, from the position of its length. *)
Lemma fill_path_spec q l n fuel (path : list Z) : (forall x nd, nodes q !! x = Some nd -> index2 nd = cell_index2 X x) ->
  chain (mem q) l n -> (length l <= fuel)%nat -> (length l <= length path)%nat ->
  exists path', fill_path fuel (nodes q) n (size_of l - 1) path = Val path' /\ length path' = length path /\
    forall i : nat, path' !! i = if decide (1 <= i < length l)%nat then cell_index2 X <$> (rev l !! i) else path !! i.
Proof.
  intros Hcell Hc. revert fuel path. induction Hc as [nd Hs Ht Hp Hz|l n nd u ndu d w Hn Ht Hp Hu Htu Hst Hle Hc IH]; intros [|fuel] path Hf Hl; cbn in Hf; try lia.
  - destruct (mem_lookup_inv _ _ _ Hs) as (nd' & Hs' & ->). cbn. unfold deref. rewrite Hs'. cbn in Hp |- *. rewrite Hp. exists path. split_and!; try done.
    intros i. rewrite decide_False by (cbn; lia). done.
  - destruct (mem_lookup_inv _ _ _ Hn) as (nd' & Hn' & ->). cbn. unfold deref. rewrite Hn'. cbn in Hp |- *. rewrite Hp, size_of_cons.
    cbn in Hl. rewrite path_put_ok by (unfold size_of in *; lia). cbn.
    replace (1 + size_of l - 1 - 1) with (size_of l - 1) by lia.
    destruct (IH fuel (<[Z.to_nat (1 + size_of l - 1) := index2 nd']> path)) as (path' & -> & Hlen & Hp'); [lia|rewrite length_insert; lia|].
    exists path'. rewrite length_insert in Hlen. split_and!; try done. intros i. rewrite Hp'. cbn [rev length].
    replace (Z.to_nat (1 + size_of l - 1)) with (length l) by (unfold size_of; lia).
    destruct (decide (i = length l)) as [->|Hne].
    + rewrite (decide_False (P := (1 <= length l < length l)%nat)) by lia. rewrite list_lookup_insert_eq by lia.
      destruct (chain_head _ _ _ Hc) as (l0 & E0). rewrite decide_True by (rewrite E0; cbn; lia).
      rewrite lookup_app_r by (rewrite length_rev; lia). rewrite length_rev, Nat.sub_diag. cbn. f_equal. by apply Hcell.
    + destruct (decide (1 <= i < length l)%nat) as [Hi|Hi].
      * rewrite decide_True by lia. by rewrite lookup_app_l by (rewrite length_rev; lia).
      * rewrite decide_False by lia. by rewrite list_lookup_insert_ne.
Qed.

(** The path reported is the walk along the parents. *)
Lemma GoalReached_spec q l n : (forall x nd, nodes q !! x = Some nd -> index2 nd = cell_index2 X x) -> chain (mem q) l n ->
  GoalReached (nodes q) n s n = Val (cell_index2 X <$> rev l).
Proof.
  intros Hcell Hc. pose proof (chain_length q l n Hc) as Hlen. pose proof (chain_NoDup _ _ _ Hc) as Hnd.
  assert (exists nds, nodes q !! s = Some nds) as [nds Hs].
  { pose proof (chain_last _ _ _ Hc) as Hlast. apply last_Some_elem_of in Hlast.
    destruct (chain_in (r := r) (X := X) fr s _ _ _ Hc s Hlast) as (nd & Hm & _). destruct (mem_lookup_inv _ _ _ Hm) as (nd' & ? & _). eauto. }
  unfold GoalReached. remember (S (size (nodes q))) as F eqn:EF. assert (size (nodes q) < F)%nat as HF by lia. clear EF. cbn zeta. rewrite (deref_Some _ _ _ Hs). cbn. rewrite (Hcell s nds Hs).
  pose proof (count_parents_spec q l n F 1 Hc ltac:(lia)) as Ecount.
  inversion Hc as [nd Hs' Ht Hp Hz|l' n' nd u ndu d w Hn Ht Hp Hu Htu Hst Hle Hc' El En]; subst; [by rewrite Z.eqb_refl|].
  destruct (Z.eqb_spec s n) as [Esn|Hne].
  { exfalso. apply NoDup_cons in Hnd as [Hnot _]. apply Hnot. rewrite <-Esn. by apply last_Some_elem_of, (chain_last _ _ _ Hc'). }
  destruct (mem_lookup_inv _ _ _ Hn) as (ndn & Hn' & ->). cbn in Hp. rewrite Ecount. cbn. rewrite (deref_Some _ _ _ Hn'). cbn.
  rewrite (Hcell n ndn Hn'). rewrite size_of_cons in *. destruct (chain_head _ _ _ Hc') as (l0 & ->).
  destruct (Z.ltb_spec (1 + (1 + size_of (u :: l0)) - 1) 3) as [Hlt|Hge].
  { assert (l0 = []) as -> by (destruct l0; [done|rewrite !size_of_cons in Hlt; pose proof (size_of_nonneg l0); lia]).
    pose proof (chain_last _ _ _ Hc') as Hu'. cbn in Hu'. by simplify_eq/=. }
  set (l1 := u :: l0) in *. set (c := 1 + (1 + size_of l1) - 1) in *. assert (0 <= size_of l1) by apply size_of_nonneg.
  rewrite path_put_ok by (unfold size_of; rewrite length_replicate; lia). cbn. rewrite path_put_ok by (unfold size_of; rewrite length_insert, length_replicate; lia). cbn.
  rewrite Hp. replace (c - 2) with (size_of l1 - 1) by lia. change (Z.to_nat 0) with 0%nat. change (rev l0 ++ [u]) with (rev l1).
  destruct (fill_path_spec q l1 u F (<[Z.to_nat (c - 1) := cell_index2 X n]> (<[0%nat := cell_index2 X s]> (replicate (Z.to_nat c) 0))) Hcell Hc') as (path' & Ef & Hlen' & Hp').
  { change (length (n :: l1)) with (S (length l1)) in Hlen. lia. }
  { rewrite !length_insert, length_replicate. unfold c, size_of. lia. }
  rewrite Ef. f_equal. rewrite !length_insert, length_replicate in Hlen'. apply list_eq. intros i. rewrite Hp', list_lookup_fmap. cbn [rev].
  assert (Z.to_nat (c - 1) = length l1) as Ec by (unfold c, size_of; lia). rewrite Ec.
  assert (Z.to_nat c = S (length l1)) as Ec' by (unfold c, size_of; lia). rewrite Ec'.
  destruct (decide (1 <= i < length l1)%nat) as [Hi|Hi]; [by rewrite lookup_app_l by (rewrite length_rev; lia)|].
  destruct (decide (i = length l1)) as [->|Hil].
  - rewrite list_lookup_insert_eq by (rewrite length_insert, length_replicate; lia).
    rewrite lookup_app_r by (rewrite length_rev; lia). by rewrite length_rev, Nat.sub_diag.
  - rewrite list_lookup_insert_ne by done. destruct (decide (i = 0%nat)) as [->|Hi0].
    + rewrite list_lookup_insert_eq by (rewrite length_replicate; lia). rewrite lookup_app_l by (rewrite length_rev; unfold l1; cbn; lia).
      pose proof (chain_last _ _ _ Hc') as Hlast. fold l1 in Hlast. rewrite <-head_reverse in Hlast. unfold reverse in Hlast. rewrite <-rev_alt in Hlast.
      destruct (rev l1) as [|z zs]; [done|]. cbn in Hlast |- *. by simplify_eq.
    + rewrite list_lookup_insert_ne by done. rewrite !lookup_ge_None_2; [done| |rewrite length_replicate; lia]. rewrite length_app, length_rev. change (length [n]) with 1%nat. lia.
Qed.
End Result.
