(* ===== verification/PatherRules.v ===== *)
(** The rules of the four searches satisfy what the shared loop needs, on a map whose
    border is blocked and whose costs are not negative. *)

From S2P Require Import Prelude Outcome Float32 FloatOrder OpenQueue OpenQueueSpec MicroPather PatherInv PatherLoop.

(** ** Cells of the move map *)

Definition in_map (X Y n : Z) : Prop := 0 <= n < X * Y.

Lemma cell_eq (X x y : Z) : 0 <= x < X -> cell_x X (y * X + x) = x /\ cell_y X (y * X + x) = y.
Proof.
  intros Hx. unfold cell_x, cell_y. assert ((y * X + x) / X = y) as ->; [|lia].
  rewrite Z.add_comm, Z.div_add by lia. rewrite Z.div_small by lia. lia.
Qed.

Lemma cell_bounds (X Y n : Z) : 0 < X -> in_map X Y n -> 0 <= cell_x X n < X /\ 0 <= cell_y X n < Y.
Proof.
  intros HX Hn. unfold in_map in Hn. unfold cell_x, cell_y. pose proof (Z.div_mod n X ltac:(lia)). pose proof (Z.mod_pos_bound n X ltac:(lia)).
  assert (0 <= n / X) by (apply Z.div_pos; lia). assert (n / X < Y) by (apply Z.div_lt_upper_bound; lia). lia.
Qed.

Lemma off_edge_bounds (k x : Z) : 3 <= k -> 0 <= x < k -> 0 < off_edge k x < k - 1.
Proof. intros Hk Hx. unfold off_edge. repeat case_match; bools; lia. Qed.

Lemma interior_in_map (X Y n : Z) : interior X Y n -> in_map X Y n.
Proof. intros H%interior_range. unfold in_map. lia. Qed.

Lemma FixNode_interior (X Y n : Z) : 3 <= X -> 3 <= Y -> in_map X Y n -> interior X Y (FixNode X Y n).
Proof.
  intros HX HY Hn. destruct (cell_bounds X Y n ltac:(lia) Hn) as [Hx Hy]. pose proof (off_edge_bounds X (cell_x X n) HX Hx).
  pose proof (off_edge_bounds Y (cell_y X n) HY Hy). unfold FixNode, interior.
  destruct (cell_eq X (off_edge X (cell_x X n)) (off_edge Y (cell_y X n))) as [-> ->]; lia.
Qed.

Lemma FixNode_cell (X Y n : Z) : 3 <= X -> in_map X Y n ->
  cell_x X (FixNode X Y n) = off_edge X (cell_x X n) /\ cell_y X (FixNode X Y n) = off_edge Y (cell_y X n).
Proof. intros HX Hn. destruct (cell_bounds X Y n ltac:(lia) Hn) as [Hx _]. apply cell_eq. pose proof (off_edge_bounds X _ HX Hx). lia. Qed.

(** A node that is not on the edge is not moved. *)
Lemma FixNode_id (X Y n : Z) : interior X Y n -> FixNode X Y n = n.
Proof.
  intros [Hx Hy]. unfold FixNode, off_edge. pose proof (cell_split X n). repeat case_match; bools; lia.
Qed.

Lemma neighbour_in_map (X Y u : Z) (d : Z * bool) : interior X Y u -> d ∈ steps8 X -> in_map X Y (d.1 + u) /\ d.1 <> 0.
Proof.
  intros [Hx Hy] Hd. assert (d.1 ∈ offsets X) as Ho.
  { unfold steps8 in Hd. apply elem_of_lookup_imap_1 in Hd as (i & o & -> & Ho). cbn. by apply list_elem_of_lookup_2 in Ho. }
  unfold in_map. rewrite (cell_split X u). set (x := cell_x X u) in *. set (y := cell_y X u) in *. clearbody x y.
  unfold offsets in Ho. repeat (apply elem_of_cons in Ho as [-> | Ho]; [split; nia|]). set_solver.
Qed.

Lemma steps8_ne (X : Z) (d : Z * bool) : 3 <= X -> d ∈ steps8 X -> d.1 <> 0.
Proof.
  intros HX Hd. unfold steps8, offsets in Hd. apply elem_of_lookup_imap_1 in Hd as (i & o & -> & Ho). cbn.
  apply list_elem_of_lookup_2 in Ho. repeat (apply elem_of_cons in Ho as [-> | Ho]; [lia|]). set_solver.
Qed.

Lemma steps4_8 (X : Z) (d : Z * bool) : d ∈ steps4 X -> d ∈ steps8 X.
Proof. unfold steps4. apply subseteq_take. Qed.

(** Different cells inside have different [index2]. *)
Lemma index2_bounds (X Y n : Z) : interior X Y n -> 0 <= cell_index2 X n < (X - 2) * (Y - 2).
Proof. intros [Hx Hy]. unfold cell_index2. nia. Qed.

Lemma index2_inj (X Y n n' : Z) : interior X Y n -> interior X Y n' -> cell_index2 X n = cell_index2 X n' -> n = n'.
Proof.
  intros [Hx Hy] [Hx' Hy'] E. unfold cell_index2 in E. rewrite (cell_split X n), (cell_split X n').
  assert (cell_y X n = cell_y X n') as Ey by nia. rewrite Ey in *. lia.
Qed.

(** ** What a query provides *)

Record GridOk (p : CMicroPather) : Prop := {
  go_x : 3 <= mapSizeX p;
  go_y : 3 <= mapSizeY p;
  go_area : mapSizeX p * mapSizeY p < 2 ^ 31;
}.

Definition inside (p : CMicroPather) : Z -> Prop := interior (mapSizeX p) (mapSizeY p).

(** Every cell has a cost, not negative, and the border is blocked. *)
Definition TerrainOk (p : CMicroPather) : Prop :=
  forall n, in_map (mapSizeX p) (mapSizeY p) n -> exists c, canMoveArray p !! n = Some c /\ cost_ok c /\ (~ inside p n -> flt COST_BLOCKED c = true).

Definition fun_ok (p : CMicroPather) (f : Z -> out float) : Prop := forall n, inside p n -> exists c, f (cell_index2 (mapSizeX p) n) = Val c /\ cost_ok c.

Definition ThreatOk (p : CMicroPather) : Prop :=
  forall n, inside p n -> exists t, threatArray p !! cell_index2 (mapSizeX p) n = Some t /\ cost_ok t.

Definition EndOk (p : CMicroPather) : Prop := 0 <= xEndNode p < mapSizeX p /\ 0 <= yEndNode p < mapSizeY p.

(** ** The estimates are costs *)

Lemma DiagonalDistance_ok (x y x' y' : Z) : 0 <= Z.abs (x - x') + Z.abs (y - y') <= 2 ^ 31 -> cost_ok (DiagonalDistance x y x' y').
Proof.
  intros Hd. unfold DiagonalDistance. set (dx := Z.abs (x - x')) in *. set (dy := Z.abs (y - y')) in *.
  destruct (float_of_Z_finite (dx + dy) ltac:(lia)) as [Hf Hc].
  assert (cost_ok (fmul C_05858 (float_of_Z (Z.min dx dy))) /\ okey (fmul C_05858 (float_of_Z (Z.min dx dy))) <= okey (float_of_Z (Z.min dx dy))) as [Hm Hle].
  { destruct (decide (Z.min dx dy = 0)) as [->|Hne]; [done|]. destruct (float_of_Z_exp (Z.min dx dy) ltac:(lia)) as (m & e & -> & He & Hv). by apply fmul_le. }
  apply fsub_ok; try done; [by destruct (float_of_Z (dx + dy))|]. pose proof (float_of_Z_mono (Z.min dx dy) (dx + dy) ltac:(lia) ltac:(lia)). lia.
Qed.

Lemma AxisDistance_ok (x y x' y' : Z) : 0 <= Z.abs (x - x') + Z.abs (y - y') <= 2 ^ 31 -> cost_ok (AxisDistance x y x' y').
Proof. intros Hd. unfold AxisDistance. repeat case_match; apply float_of_Z_finite; lia. Qed.

Lemma end_distance p n : GridOk p -> EndOk p -> in_map (mapSizeX p) (mapSizeY p) n ->
  0 <= Z.abs (cell_x (mapSizeX p) n - xEndNode p) + Z.abs (cell_y (mapSizeX p) n - yEndNode p) <= 2 ^ 31.
Proof. intros [HX HY HA] [Hx Hy] Hn. destruct (cell_bounds (mapSizeX p) (mapSizeY p) n ltac:(lia) Hn). assert (mapSizeX p + mapSizeY p <= mapSizeX p * mapSizeY p) by nia. lia. Qed.

Definition est_ok (p : CMicroPather) (est : Z -> Z -> float) : Prop :=
  forall n, inside p n -> cost_ok (est (cell_x (mapSizeX p) n) (cell_y (mapSizeX p) n)).

Lemma diagonal_est_ok p : GridOk p -> EndOk p -> est_ok p (LeastCostEstimateLocal p).
Proof. intros HG HE n Hn. apply DiagonalDistance_ok, end_distance; try done. by apply interior_in_map. Qed.

Lemma axis_est_ok p : GridOk p -> EndOk p -> est_ok p (AxisCostEstimate p).
Proof. intros HG HE n Hn. apply AxisDistance_ok, end_distance; try done. by apply interior_in_map. Qed.

(** ** The terrain test *)

Lemma CantMoveTo_ok p n : TerrainOk p -> in_map (mapSizeX p) (mapSizeY p) n -> exists b, CantMoveTo p n = Val b /\ (b = false -> inside p n).
Proof.
  intros HT Hn. destruct (HT n Hn) as (c & Ec & Hc & Hb). unfold CantMoveTo. rewrite (deref_Some _ _ _ Ec). cbn.
  exists (flt COST_BLOCKED c). split; [done|]. intros Hf. destruct (decide (inside p n)) as [|Hni]; [done|]. rewrite Hb in Hf by done. done.
Qed.

Lemma fadd_est_valid (c h : float) : cost_ok c -> cost_ok h -> fvalid (fadd c h).
Proof. intros Hc Hh. by apply fadd_ok. Qed.

(** The total cost and the travel distance of the A* searches. *)
Definition T_astar (est : Z -> Z -> float) (x y : Z) (c : float) : float := fadd c (est x y).
Definition tr_astar (_ : bool) (_ : Z) (c _ : float) : float := c.

Lemma astar_rules_ok p maxThreat : GridOk p -> EndOk p -> TerrainOk p -> ThreatOk p -> fun_ok p (moveFun p) -> fun_ok p (threatFun p) ->
  RulesOk (astar_rules p maxThreat) (mapSizeX p) (mapSizeY p) (T_astar (LeastCostEstimateLocal p)) tr_astar.
Proof.
  intros HG HE HT HTh Hmv Htf. pose proof (diagonal_est_ok p HG HE) as Hest. constructor; cbn [astar_rules rsteps rblocked runsafe rcost rtotal rimprove].
  - intros d Hd. by apply (steps8_ne (mapSizeX p)); [apply HG|].
  - intros u d Hu Hd. destruct (neighbour_in_map _ _ _ _ Hu Hd) as [Hm _]. by apply CantMoveTo_ok.
  - intros v Hv. destruct (HTh v Hv) as (t & Et & _). unfold too_unsafe. rewrite (deref_Some _ _ _ Et). cbn. eauto.
  - intros v Hv _. destruct (HT v (interior_in_map _ _ _ Hv)) as (c & Ec & Hc & _). destruct (Hmv v Hv) as (mv & Emv & Hcm), (Htf v Hv) as (th & Eth & Hct).
    unfold node_cost. rewrite (deref_Some _ _ _ Ec). cbn. rewrite Emv. cbn. rewrite Eth. cbn. eexists. split; [done|]. auto with cost.
  - intros v c Hv Hc _. apply fadd_est_valid; [done|by apply Hest].
  - intros v c c' Hv Hc Hc' Hle _. pose proof (Hest v Hv). by apply fadd_mono.
  - intros dg v newCost t nd Hv _. eexists _, _. split; [done|done].
Qed.

(** ** The cost map *)

Definition T_map (_ _ : Z) (c : float) : float := c.

Definition tr_map (p : CMicroPather) (dg : bool) (v : Z) (_ t : float) : float :=
  match canMoveArray p !! v, threatArray p !! cell_index2 (mapSizeX p) v with
  | Some c, Some th => fadd t (scale dg (fadd (if fle COST_STRUCT_3_4 c then c else COST_BASE) th))
  | _, _ => t
  end.

Lemma map_rules_ok p maxThreat : GridOk p -> TerrainOk p -> ThreatOk p ->
  RulesOk (map_rules p maxThreat) (mapSizeX p) (mapSizeY p) T_map (tr_map p).
Proof.
  intros HG HT HTh. constructor; cbn [map_rules rsteps rblocked runsafe rcost rtotal rimprove].
  - intros d Hd. by apply (steps8_ne (mapSizeX p)); [apply HG|].
  - intros u d Hu Hd. destruct (neighbour_in_map _ _ _ _ Hu Hd) as [Hm _]. by apply CantMoveTo_ok.
  - intros v Hv. destruct (HTh v Hv) as (t & Et & _). unfold too_unsafe. rewrite (deref_Some _ _ _ Et). cbn. eauto.
  - intros v Hv _. destruct (HT v (interior_in_map _ _ _ Hv)) as (c & Ec & Hc & _). destruct (HTh v Hv) as (t & Et & Ht).
    unfold map_cost. rewrite (deref_Some _ _ _ Ec). cbn. rewrite (deref_Some _ _ _ Et). cbn. eexists. split; [done|]. auto with cost.
  - intros v c Hv Hc _. apply Hc.
  - intros v c c' Hv Hc Hc' Hle _. exact Hle.
  - intros dg v newCost t nd Hv _. destruct (HT v (interior_in_map _ _ _ Hv)) as (c & Ec & _). destruct (HTh v Hv) as (th & Et & _).
    eexists _, _. unfold improve_map, tr_map. rewrite (deref_Some _ _ _ Ec). cbn. rewrite (deref_Some _ _ _ Et). cbn. rewrite Ec, Et. done.
Qed.

(** ** The wide paths, up to width three *)

Lemma any_of_ok p (cells : list Z) : TerrainOk p -> (forall i, i ∈ cells -> in_map (mapSizeX p) (mapSizeY p) i) ->
  exists b, any_of (CantMoveTo p) cells = Val b /\ (b = false -> forall i, i ∈ cells -> inside p i).
Proof.
  intros HT. induction cells as [|i cells IH]; intros Hc; [exists false; split; [done|set_solver]|].
  destruct (CantMoveTo_ok p i HT) as (b & Eb & Hb); [apply Hc; set_solver|]. cbn. rewrite Eb. cbn. destruct b; [exists true; done|].
  destruct IH as (b & -> & Hb'); [set_solver|]. exists b. split; [done|]. intros Hf j [->|Hj]%elem_of_cons; auto.
Qed.

(** The cells around a cell inside the map. *)
Lemma around_in_map (X Y v : Z) : interior X Y v -> forall i, i ∈ [v; v - 1; v + 1; v - X; v + X; v + X + 1] -> in_map X Y i.
Proof.
  intros [Hx Hy] i Hi. unfold in_map. rewrite (cell_split X v) in Hi. set (x := cell_x X v) in *. set (y := cell_y X v) in *. clearbody x y.
  repeat (apply elem_of_cons in Hi as [-> | Hi]; [nia|]). set_solver.
Qed.

Lemma wide_cells_head X w v : w = 1 \/ w = 2 \/ w = 3 -> exists l, wide_cells X w v = v :: l /\ forall i, i ∈ l -> i ∈ [v; v - 1; v + 1; v - X; v + X; v + X + 1].
Proof. intros [-> | [-> | ->]]; cbn; eexists; (split; [done|]); set_solver. Qed.

Lemma wide_blocked_ok p w v : TerrainOk p -> in_map (mapSizeX p) (mapSizeY p) v -> w = 1 \/ w = 2 \/ w = 3 ->
  exists b, any_of (CantMoveTo p) (wide_cells (mapSizeX p) w v) = Val b /\ (b = false -> inside p v).
Proof.
  intros HT Hv Hw. destruct (wide_cells_head (mapSizeX p) w v Hw) as (l & -> & Hl). cbn.
  destruct (CantMoveTo_ok p v HT Hv) as (b & -> & Hb). cbn. destruct b; [exists true; done|]. specialize (Hb eq_refl).
  destruct (any_of_ok p l HT) as (b & -> & _); [|eauto]. intros i Hi. by apply (around_in_map _ _ v Hb), Hl.
Qed.

Lemma add_costs_ok p cells c : TerrainOk p -> cost_ok c -> (forall i, i ∈ cells -> in_map (mapSizeX p) (mapSizeY p) i) ->
  exists c', add_costs p cells c = Val c' /\ cost_ok c'.
Proof.
  intros HT Hc Hcells. destruct (each_ok (fun i c => x ← deref (canMoveArray p) i; Val (fadd c x)) (fun _ c => cost_ok c) cells c Hc) as (c' & E & H); [|eauto].
  intros i done c1 Hi Hc1. destruct (HT i (Hcells i Hi)) as (x & Ex & Hx & _). rewrite (deref_Some _ _ _ Ex). cbn. eauto with cost.
Qed.

Lemma sum_costs_ok p i cells : TerrainOk p -> (forall j, j ∈ i :: cells -> in_map (mapSizeX p) (mapSizeY p) j) ->
  exists c, sum_costs p (i :: cells) = Val c /\ cost_ok c.
Proof.
  intros HT Hc. destruct (HT i (Hc i ltac:(set_solver))) as (x & Ex & Hx & _). cbn. rewrite (deref_Some _ _ _ Ex). cbn.
  apply add_costs_ok; [done|done|]. intros j Hj. apply Hc. set_solver.
Qed.

Lemma wide_cost_ok p w v : TerrainOk p -> fun_ok p (moveFun p) -> inside p v -> w = 1 \/ w = 2 \/ w = 3 ->
  exists c, wide_cost p w v (cell_index2 (mapSizeX p) v) = Val c /\ cost_ok c.
Proof.
  intros HT Hmv Hv Hw. destruct (Hmv v Hv) as (mv & Emv & Hcm). unfold wide_cost. rewrite Emv.
  destruct Hw as [-> | [-> | ->]]; cbn -[sum_costs];
    match goal with |- context [sum_costs p (?i :: ?l)] =>
      destruct (sum_costs_ok p i l HT) as (c & -> & Hc); [intros j Hj; apply (around_in_map _ _ v Hv); set_solver|] end; cbn; eauto with cost.
Qed.

Lemma wide_rules_ok p w : GridOk p -> EndOk p -> TerrainOk p -> fun_ok p (moveFun p) -> w = 1 \/ w = 2 \/ w = 3 ->
  RulesOk (wide_rules p w) (mapSizeX p) (mapSizeY p) (T_astar (AxisCostEstimate p)) tr_astar.
Proof.
  intros HG HE HT Hmv Hw. pose proof (axis_est_ok p HG HE) as Hest. constructor; cbn [wide_rules rsteps rblocked runsafe rcost rtotal rimprove].
  - intros d Hd%steps4_8. by apply (steps8_ne (mapSizeX p)); [apply HG|].
  - intros u d Hu Hd%steps4_8. destruct (neighbour_in_map _ _ _ _ Hu Hd) as [Hm _]. by apply wide_blocked_ok.
  - eauto.
  - intros v Hv _. by apply wide_cost_ok.
  - intros v c Hv Hc _. apply fadd_est_valid; [done|by apply Hest].
  - intros v c c' Hv Hc Hc' Hle _. pose proof (Hest v Hv). by apply fadd_mono.
  - intros dg v newCost t nd Hv _. eexists _, _. split; [done|done].
Qed.
