(* ===== verification/PatherSearch.v ===== *)
(** The searches of the pather, from the call to the answer.

    [PatherOk p E]: the pather between two searches, [E] the end-node flags of its nodes.
    Every search takes a fresh frame number (resetting all nodes when the 16 bits run out),
    so whatever an earlier search left in the nodes is not looked at. *)

From S2P Require Import Prelude Outcome Float32 FloatOrder OpenQueue OpenQueueSpec MicroPather PatherInv PatherLoop PatherResult PatherRules.

Definition node_ok (X n : Z) (nd : PathNode) : Prop := x2 nd = cell_x X n /\ y2 nd = cell_y X n /\ index2 nd = cell_index2 X n.

Record PatherOk (p : CMicroPather) (E : Z -> bool) : Prop := {
  po_grid : GridOk p;
  po_frame : 0 <= frame p <= 65534;
  po_dom n : is_Some (pathNodeMem p !! n) <-> in_map (mapSizeX p) (mapSizeY p) n;
  po_node n nd : pathNodeMem p !! n = Some nd -> node_ok (mapSizeX p) n nd /\ 0 <= nframe nd <= frame p /\ isEndNode nd = E n;
}.

Definition no_marks (n : Z) : bool := false.

(** ** The constructor *)

Lemma AllocatePathNode_lookup (X Y n : Z) (nd : PathNode) :
  AllocatePathNode X Y !! n = Some nd <-> in_map X Y n /\ nd = PathNode_Init (cell_x X n) (cell_y X n) (cell_index2 X n) 0 FLT_BIG None.
Proof.
  unfold AllocatePathNode, in_map. rewrite <-elem_of_list_to_map.
  - rewrite list_elem_of_fmap. setoid_rewrite elem_of_seqZ. split; [intros (i & [= -> ->] & Hi)|intros [Hi ->]]; [split; [lia|done]|exists n; split; [done|lia]].
  - rewrite <-list_fmap_compose. change (fst ∘ _) with (fun i : Z => i). rewrite list_fmap_id. apply NoDup_seqZ.
Qed.

Lemma CMicroPather_new_ok (sizeX sizeY : Z) : 1 <= sizeX -> 1 <= sizeY -> (sizeX + 2) * (sizeY + 2) < 2 ^ 31 ->
  PatherOk (CMicroPather_new sizeX sizeY) no_marks.
Proof.
  intros HX HY HA. constructor; cbn [CMicroPather_new mapSizeX mapSizeY pathNodeMem frame].
  - constructor; cbn; lia.
  - lia.
  - intros n. split; [intros [nd [H _]%AllocatePathNode_lookup]; done|]. intros H. eexists. apply AllocatePathNode_lookup. eauto.
  - intros n nd [Hn ->]%AllocatePathNode_lookup. done.
Qed.

(** ** A new frame *)

Record SameMap (p p' : CMicroPather) : Prop := {
  sm_x : mapSizeX p' = mapSizeX p;
  sm_y : mapSizeY p' = mapSizeY p;
  sm_can : canMoveArray p' = canMoveArray p;
  sm_threat : threatArray p' = threatArray p;
  sm_move : moveFun p' = moveFun p;
  sm_tf : threatFun p' = threatFun p;
}.

Lemma grid_same p p' : SameMap p p' -> GridOk p -> GridOk p'.
Proof. intros [Ex Ey _ _ _ _] [HX HY HA]. constructor; rewrite ?Ex, ?Ey; done. Qed.

(** The pather when the nodes of no earlier search are looked at. *)
Record FreshOk (p : CMicroPather) (E : Z -> bool) : Prop := {
  fo_grid : GridOk p;
  fo_frame : 1 <= frame p <= 65534;
  fo_dom n : is_Some (pathNodeMem p !! n) <-> in_map (mapSizeX p) (mapSizeY p) n;
  fo_node n nd : pathNodeMem p !! n = Some nd -> node_ok (mapSizeX p) n nd /\ 0 <= nframe nd < frame p /\ isEndNode nd = E n;
}.

Lemma next_frame_ok p E : PatherOk p E -> FreshOk (next_frame p) E /\ SameMap p (next_frame p) /\
  xEndNode (next_frame p) = xEndNode p /\ yEndNode (next_frame p) = yEndNode p.
Proof.
  intros [HG HF HD HN]. unfold next_frame. cbn [frame set_field]. cbn. destruct (Z.ltb_spec 65534 (Z.succ (frame p))) as [Hgt|Hle].
  - assert (SameMap p (Reset (p <| frame ::= Z.succ |>))) as HS by done. split; [|done]. constructor; [by apply (grid_same p)|cbn; lia| |]; cbn.
    + intros n. rewrite lookup_fmap, fmap_is_Some. apply HD.
    + intros n nd. rewrite lookup_fmap, fmap_Some. intros (nd0 & H0 & ->). destruct (HN n nd0 H0) as (? & ? & ?). done.
  - assert (SameMap p (p <| frame ::= Z.succ |>)) as HS by done. split; [|done]. constructor; [by apply (grid_same p)|cbn; lia|done|]; cbn.
    intros n nd Hn. destruct (HN n nd Hn) as (? & ? & ?). split_and!; try done; lia.
Qed.

(** ** The start node *)

Section Init.
Context {r : Rules} {T : Z -> Z -> float -> float} {tr : bool -> Z -> float -> float -> float} (p : CMicroPather) (E : Z -> bool).
Context (Hr : RulesOk r (mapSizeX p) (mapSizeY p) T tr).
Abbreviation QI' := (QI (r := r) (X := mapSizeX p) (Y := mapSizeY p) (T := T) (tr := tr) (frame p)).
Abbreviation LI := (LInv (r := r) (X := mapSizeX p) (Y := mapSizeY p) (T := T) (tr := tr) (frame p)).

Lemma linv_init (m : gmap Z PathNode) (s : Z) (nd : PathNode) : FreshOk p E -> inside p s ->
  m = strip <$> pathNodeMem p -> node_ok (mapSizeX p) s nd -> nframe nd = frame p -> isEndNode nd = E s -> parent nd = None -> inOpen nd = true ->
  costFromStart nd = f0 -> prim r nd = f0 -> LI s E (<[s := nd]> m) {[s]} None.
Proof.
  intros HF Hs -> Hnd Hfr HE Hpar Ho Hc Hp. set (m := strip <$> pathNodeMem p).
  assert (forall n nx, <[s := nd]> m !! n = Some nx -> nframe nx = frame p -> n = s /\ nx = nd) as Honly.
  { intros n nx [[<- <-]|[Hne Hn]]%lookup_insert_Some Ht; [done|]. exfalso. unfold m in Hn. rewrite lookup_fmap in Hn. apply fmap_Some in Hn as (n0 & H0 & ->).
    destruct (fo_node _ _ HF n n0 H0) as (_ & ? & _). cbn in Ht. lia. }
  constructor.
  - intros n. rewrite lookup_insert_is_Some. unfold m. rewrite lookup_fmap, fmap_is_Some, (fo_dom _ _ HF n). pose proof (interior_in_map _ _ _ Hs) as Hm. unfold in_map in *.
    split; [intros [<- | [_ ?]]; done|]. intros Hn. destruct (decide (s = n)); auto.
  - intros n nx [[<- <-]|[Hne Hn]]%lookup_insert_Some.
    + destruct Hnd as (? & ? & ?). rewrite Hfr. destruct (fo_frame _ _ HF). split_and!; try done; lia.
    + unfold m in Hn. rewrite lookup_fmap in Hn. apply fmap_Some in Hn as (n0 & H0 & ->). destruct (fo_node _ _ HF n n0 H0) as ((? & ? & ?) & ? & ?). split_and!; try done; cbn; lia.
  - intros n nx Hn Ht. destruct (Honly n nx Hn Ht) as [-> ->]. rewrite Ho. set_solver.
  - intros n ->%elem_of_singleton. exists nd. rewrite lookup_insert_eq, Hp. split_and!; try done.
  - intros n nx Hn Ht. destruct (Honly n nx Hn Ht) as [-> ->]. rewrite Hp. done.
  - exists nd. by rewrite lookup_insert_eq.
  - intros n nx Hn Ht Hb. destruct (Honly n nx Hn Ht) as [-> ->]. exists [s]. rewrite Hp, Hc. constructor.
  - intros n nx Hn Ht Hb. destruct (Honly n nx Hn Ht) as [-> ->]. exists [s]. by apply (chain_start _ _ _ nd).
  - intros n nx d v w Hn Ht Hb HnS. destruct (Honly n nx Hn Ht) as [-> ->]. set_solver.
Qed.

Lemma push_start_ok (s : Z) (total : float) : FreshOk p E -> inside p s -> fvalid total -> (if rtotal r then total = f0 else True) ->
  exists q, push_start p s total (open_queue p) = Val q /\ QI' s E q {[s]} None /\ forall n, n <> s -> label (r := r) (frame p) (mem q) n = BIG.
Proof.
  intros HF Hs HV Ht. assert (is_Some (pathNodeMem p !! s)) as [nd0 H0] by (apply (fo_dom _ _ HF), interior_in_map, Hs).
  destruct (fo_node _ _ HF s nd0 H0) as (Hok & _ & HE).
  assert (0 <= frame p < 2 ^ 16) as Hfr by (destruct (fo_frame _ _ HF); lia).
  set (nd := (PathNode_Reuse (frame p) nd0) <| costFromStart := f0 |> <| totalCost := total |>).
  set (q0 := {| nodes := <[s := nd]> (pathNodeMem p); heapArray := heapArrayMem p; hsize := 0 |}).
  assert (push_start p s total (open_queue p) = Push (ALLOCATE p) s q0) as ->.
  { unfold push_start, node_set, open_queue. cbn [nodes]. rewrite (deref_Some _ _ _ H0). reflexivity. }
  assert (Rep (ALLOCATE p) q0 ∅) as R0.
  { constructor; cbn; try lia; try set_solver. destruct (fo_grid _ _ HF). unfold ALLOCATE. nia. }
  destruct (heap_Push_spec (ALLOCATE := ALLOCATE p) q0 ∅ s nd R0) as (q & -> & R & HS & Es); try done.
  { intros i Hi. cbn in Hi. lia. }
  { apply lookup_insert_eq. }
  { cbn. destruct (fo_grid _ _ HF). unfold ALLOCATE. nia. }
  replace ({[s]} ∪ ∅ : gset Z) with ({[s]} : gset Z) in R by set_solver.
  assert (mem q = <[s := strip nd <| inOpen := true |>]> (strip <$> pathNodeMem p)) as Em.
  { unfold mem. rewrite Es. cbn. by rewrite insert_insert_eq, fmap_insert. }
  exists q. split; [done|]. split.
  - constructor; [done|done|]. rewrite Em. apply linv_init; try done.
    + cbn. by apply Z.mod_small.
    + rewrite prim_strip. unfold prim. destruct (rtotal r); done.
  - intros n Hne. rewrite Em, label_insert, decide_False by done. unfold label. rewrite lookup_fmap.
    destruct (pathNodeMem p !! n) as [nx|] eqn:Hn; [|done]. cbn. destruct (fo_node _ _ HF n nx Hn) as (_ & Hf & _).
    by assert ((nframe nx =? frame p) = false) as -> by lia.
Qed.

(** ** The end-node flags *)

Lemma rep_field q S v nd nd' : Rep (mapSizeX p * mapSizeY p) q S -> Sorted q -> nodes q !! v = Some nd ->
  myIndex nd' = myIndex nd -> inOpen nd' = inOpen nd -> totalCost nd' = totalCost nd ->
  Rep (mapSizeX p * mapSizeY p) (q <| nodes ::= <[v := nd']> |>) S /\ Sorted (q <| nodes ::= <[v := nd']> |>).
Proof.
  intros R HS Hv Ei Eo Et. split.
  - constructor; try apply R; cbn.
    + intros x Hx. destruct (rep_node _ _ _ R x Hx) as (n0 & i & H0 & Hrest). destruct (decide (x = v)) as [->|Hne].
      * rewrite Hv in H0. apply (inj Some) in H0 as <-. exists nd', i. rewrite lookup_insert_eq, Ei, Eo, Et. done.
      * exists n0, i. by rewrite lookup_insert_ne.
    + intros i x nx Hi Hx [[<- <-]|[Hne Hn]]%lookup_insert_Some; [rewrite Ei|]; by eapply (rep_index _ _ _ R).
  - assert (forall i, hcost (q <| nodes ::= <[v := nd']> |>) i = hcost q i) as Hc.
    { intros i. unfold hcost, ncost. cbn. case_match; [|done]. destruct (decide (z = v)) as [->|Hne]; [by rewrite lookup_insert_eq, Hv, Et|by rewrite lookup_insert_ne]. }
    intros i Hi. rewrite !Hc. by apply HS.
Qed.

Lemma set_end_ok (s : Z) (F : Z -> bool) q S ex v b : QI' s F q S ex -> in_map (mapSizeX p) (mapSizeY p) v ->
  exists q', set_end b v q = Val q' /\ QI' s (mark F v b) q' S ex /\ (forall n, label (r := r) (frame p) (mem q') n = label (r := r) (frame p) (mem q) n).
Proof.
  intros [R HS L] Hv. assert (is_Some (mem q !! v)) as [nd0 Hm] by (by apply (li_dom _ _ _ _ _ _ L)).
  destruct (mem_lookup_inv _ _ _ Hm) as (nd & Hn & ->). unfold set_end, node_set. rewrite (deref_Some _ _ _ Hn). cbn -[set_field].
  destruct (rep_field q S v nd (nd <| isEndNode := b |>) R HS Hn) as [R' S']; try done.
  destruct (linv_mark Hr (frame p) s F (mem q) S ex v (strip nd) b L Hm) as [L' Hlab].
  eexists. split; [done|]. rewrite mem_insert. split; [|exact Hlab]. constructor; [done|done|]. rewrite mem_insert. exact L'.
Qed.

Lemma set_ends_ok (s : Z) (F : Z -> bool) q S ex vs b : QI' s F q S ex -> (forall v, v ∈ vs -> in_map (mapSizeX p) (mapSizeY p) v) ->
  exists q', each (set_end b) vs q = Val q' /\ QI' s (fun n => if decide (n ∈ vs) then b else F n) q' S ex /\
    (forall n, label (r := r) (frame p) (mem q') n = label (r := r) (frame p) (mem q) n).
Proof.
  intros Q Hvs. destruct (each_ok (set_end b) (fun done q' => QI' s (fun n => if decide (n ∈ done) then b else F n) q' S ex /\
    (forall n, label (r := r) (frame p) (mem q') n = label (r := r) (frame p) (mem q) n)) vs q) as (q' & E' & H); [| |eauto].
  - split; [|done]. destruct Q as [R HS L]. constructor; [done|done|]. constructor; try apply L.
  - intros v done q1 Hv [Q1 Hl]. destruct (set_end_ok s _ q1 S ex v b Q1 (Hvs v Hv)) as (q2 & E2 & Q2 & Hl2). exists q2. split; [done|]. split.
    + destruct Q2 as [R2 S2 L2]. constructor; [done|done|]. constructor; try apply L2. intros n nd Hn. destruct (li_cell _ _ _ _ _ _ L2 n nd Hn) as (? & ? & ? & ? & ->).
      split_and!; try done; try lia. unfold mark. repeat case_decide; try done; set_solver.
    + intros n. by rewrite Hl2.
Qed.

(** ** The pather after the search *)

Lemma store_ok (s : Z) (F : Z -> bool) q S ex : FreshOk p E -> QI' s F q S ex -> PatherOk ((store q p) <| isRunning := false |>) F.
Proof.
  intros HF [R HS L]. constructor; [by apply (grid_same p); [|apply HF]|..]; cbn.
  - destruct (fo_frame _ _ HF). lia.
  - intros n. rewrite <-(li_dom _ _ _ _ _ _ L n). unfold mem. by rewrite lookup_fmap, fmap_is_Some.
  - intros n nd Hn. destruct (li_cell _ _ _ _ _ _ L n _ (mem_lookup _ _ _ Hn)) as (? & ? & ? & ? & ?). done.
Qed.
End Init.
