(* ===== verification/PatherCorrect.v ===== *)
(** What the searches answer.

    A walk by the rules of a search starts at the start cell, goes in each step to one of
    the neighbours the search looks at, over cells that are not blocked and not too
    dangerous, and costs what the search adds up, in the order it adds it up, in [float].
    A search that is [SOLVED] reports such a walk to a goal; one that has [NO_SOLUTION]
    had no walk to a goal at all. *)

From S2P Require Import Prelude Outcome Float32 FloatOrder OpenQueue OpenQueueSpec MicroPather PatherInv PatherLoop PatherResult PatherRules PatherSearch.

(** No single step costs more than 2^100. *)
Definition moderate (r : Rules) (X Y : Z) : Prop := forall u d v w, interior X Y u -> Step (r := r) (X := X) u d v w -> okey w <= okey two100.

Definition Answered (walk : list Z -> Z -> float -> float -> Prop) (X : Z) (goal : Z -> bool) (path0 : list Z) (a : Answer) : Prop :=
  (result a = SOLVED /\ exists n l c t, goal n = true /\ walk l n c t /\ path a = cell_index2 X <$> rev l /\ okey c <= okey (cost a) /\
     exists l' t', walk l' n (cost a) t') \/
  (result a = NO_SOLUTION /\ path a = path0 /\ cost a = f0 /\ ~ exists n l c t, goal n = true /\ walk l n c t).

Lemma answered_ext (walk walk' : list Z -> Z -> float -> float -> Prop) X goal goal' path0 a :
  (forall l n c t, walk l n c t <-> walk' l n c t) -> (forall l n c t, walk l n c t -> goal n = goal' n) -> Answered walk X goal path0 a -> Answered walk' X goal' path0 a.
Proof.
  intros Hw Hg [(Hr & n & l & c & t & H1 & H2 & H3 & H4 & l' & t' & H5)|(Hr & Hp & Hc & Hno)].
  - left. split; [done|]. exists n, l, c, t. rewrite <-(Hg l n c t H2), <-Hw. split_and!; try done. exists l', t'. by rewrite <-Hw.
  - right. split_and!; try done. intros (n & l & c & t & H1 & H2%Hw). apply Hno. exists n, l, c, t. by rewrite (Hg l n c t H2).
Qed.

(** ** The shared part of the A* searches *)

Section Astar.
Context {r : Rules} {T : Z -> Z -> float -> float} {tr : bool -> Z -> float -> float -> float} (p : CMicroPather) (s : Z) (E : Z -> bool) (G : Z -> bool).
Context (goal : Z -> PathNode -> out bool).
Context (Hr : RulesOk r (mapSizeX p) (mapSizeY p) T tr) (Hprim : rtotal r = false) (Hmod : moderate r (mapSizeX p) (mapSizeY p)) (Hfr : 1 <= frame p <= 65534).
Context (Hgoal : forall n nd, inside p n -> isEndNode nd = E n -> goal n nd = Val (G n)).
Abbreviation QI' := (QI (r := r) (X := mapSizeX p) (Y := mapSizeY p) (T := T) (tr := tr) (frame p) s).
Abbreviation walk := (Walk (r := r) (X := mapSizeX p) (tr := tr) s).

Lemma astar_visit_ok : VisitOk (X := mapSizeX p) (Y := mapSizeY p) E goal no_visit G (fun _ => True) (fun _ _ _ => True).
Proof. constructor; [exact Hgoal|]. intros n nd v _ _ _. by exists v. Qed.

Lemma nodes_cell q S ex x nd : QI' E q S ex -> nodes q !! x = Some nd -> index2 nd = cell_index2 (mapSizeX p) x.
Proof. intros Q Hx. by destruct (li_cell _ _ _ _ _ _ (qi_inv _ _ _ _ _ _ Q) x _ (mem_lookup _ _ _ Hx)) as (_ & _ & ? & _). Qed.

Lemma answer_hit q S n path0 : QI' E q S (Some n) -> G n = true -> label (r := r) (frame p) (mem q) n < BIG ->
  exists a, answer s (Some n) path0 q = Val a /\ Answered walk (mapSizeX p) G path0 a.
Proof.
  intros Q HG Hlt. pose proof (qi_inv _ _ _ _ _ _ Q) as L. destruct (label_small _ _ _ Hlt) as (nd & Hn & Ht & El).
  destruct (li_chain _ _ _ _ _ _ L n nd Hn Ht ltac:(lia)) as (l & Hl). destruct (li_walk _ _ _ _ _ _ L n nd Hn Ht ltac:(lia)) as (l' & Hl').
  destruct (chain_walk Hr (frame p) s E _ _ _ _ _ L Hl) as (c & t & Hw & Hle).
  destruct (mem_lookup_inv _ _ _ Hn) as (nd0 & Hn0 & ->). rewrite prim_strip in *.
  assert (prim r nd0 = costFromStart nd0) as Ep by (unfold prim; by rewrite Hprim).
  unfold answer. rewrite (GoalReached_spec (r := r) (X := mapSizeX p) (frame p) s q l n); [|intros x nx; by eapply nodes_cell|done]. cbn. rewrite (deref_Some _ _ _ Hn0). cbn.
  eexists. split; [done|]. left. split; [done|]. exists n, l, c, t. cbn. rewrite <-Ep. split_and!; try done; [lia|]. eauto.
Qed.

Lemma answer_none q path0 : LoopInv (r := r) (X := mapSizeX p) (Y := mapSizeY p) (T := T) (tr := tr) (frame p) s E G (fun _ : () => True) (fun _ _ _ => True) q ∅ () ->
  exists a, answer s None path0 q = Val a /\ Answered walk (mapSizeX p) G path0 a.
Proof.
  intros [Q _ _ Hng]. pose proof (qi_inv _ _ _ _ _ _ Q) as L. cbn. eexists. split; [done|]. right. split_and!; try done.
  intros (n & l & c & t & HG & Hw). destruct (li_start _ _ _ _ _ _ L) as (nds & Hs & Hts & _). destruct (li_touched _ _ _ _ _ _ L s nds Hs Hts) as (Is & _).
  pose proof (walk_label Hr (frame p) s E _ _ _ _ _ L Hw). pose proof (walk_bounded Hr s _ _ _ _ Is Hmod Hw).
  rewrite Hng in HG; [done|lia|set_solver].
Qed.

(** The loop from the start node alone to the answer. *)
Lemma astar_loop q path0 : QI' E q {[s]} None -> (forall n, n <> s -> label (r := r) (frame p) (mem q) n = BIG) ->
  exists N hit q' a S ex, (forall fuel, (N <= fuel)%nat -> search_loop fuel r (mapSizeX p * mapSizeY p) (frame p) goal no_visit () q = Val (Some (hit, (), q'))) /\
    answer s hit path0 q' = Val a /\ Answered walk (mapSizeX p) G path0 a /\ QI' E q' S ex.
Proof.
  intros Q Hlab. assert (0 <= frame p < 2 ^ 16) as Hfr' by lia.
  destruct (loop_spec Hr (frame p) s E Hfr' goal no_visit G (fun _ => True) (fun _ _ _ => True) astar_visit_ok () q {[s]}) as (N & hit & [] & q' & Hstop & Hrun).
  { constructor; [done|done|done|]. intros n Hlt Hn. rewrite Hlab in Hlt by set_solver. lia. }
  destruct hit as [n|]; cbn in Hstop.
  - destruct Hstop as (HG & Hlt & S & Q'). destruct (answer_hit q' S n path0 Q' HG Hlt) as (a & Ha & Hans). by exists N, (Some n), q', a, S, (Some n).
  - destruct (answer_none q' path0 Hstop) as (a & Ha & Hans). exists N, None, q', a, ∅, None. split_and!; try done. apply Hstop.
Qed.
End Astar.

Lemma walk_inside {r T tr} (p : CMicroPather) (s : Z) (Hr : RulesOk r (mapSizeX p) (mapSizeY p) T tr) l n c t :
  inside p s -> Walk (r := r) (X := mapSizeX p) (tr := tr) s l n c t -> inside p n.
Proof. intros Hs Hw. by destruct (walk_ok Hr s l n c t Hs Hw). Qed.

(** ** The map data a query sets *)

Record AstarOk (p : CMicroPather) (maxThreat : float) : Prop := {
  ao_terrain : TerrainOk p;
  ao_threat : ThreatOk p;
  ao_move : fun_ok p (moveFun p);
  ao_tf : fun_ok p (threatFun p);
  ao_moderate : moderate (astar_rules p maxThreat) (mapSizeX p) (mapSizeY p);
}.

Lemma same_refl p : SameMap p p.
Proof. done. Qed.

Lemma same_trans p p1 p2 : SameMap p p1 -> SameMap p1 p2 -> SameMap p p2.
Proof. intros [? ? ? ? ? ?] [? ? ? ? ? ?]. constructor; congruence. Qed.

Lemma astar_ok_same p p' maxThreat : SameMap p p' -> AstarOk p maxThreat -> AstarOk p' maxThreat.
Proof. intros [? ? ? ? ? ?] [H1 H2 H3 H4 H5]. destruct p, p'. cbn in *. subst. constructor; [exact H1|exact H2|exact H3|exact H4|exact H5]. Qed.

(** The walks of the A* searches. *)
Definition route (p : CMicroPather) (maxThreat : float) (s : Z) : list Z -> Z -> float -> float -> Prop :=
  Walk (r := astar_rules p maxThreat) (X := mapSizeX p) (tr := tr_astar) s.

Lemma walk_same {r r' : Rules} {X tr s l n c t} : (forall u d v w, Step (r := r) (X := X) u d v w -> Step (r := r') (X := X) u d v w) ->
  Walk (r := r) (X := X) (tr := tr) s l n c t -> Walk (r := r') (X := X) (tr := tr) s l n c t.
Proof. intros H. induction 1 as [|l u c t d v w _ IH Hst]; [constructor|]. constructor 2 with (u := u) (d := d); auto. Qed.

Lemma route_same p p' maxThreat s l n c t : SameMap p p' -> route p' maxThreat s l n c t <-> route p maxThreat s l n c t.
Proof. intros [? ? ? ? ? ?]. destruct p, p'. cbn in *. subst. split; apply walk_same; intros u d v w H; exact H. Qed.

(** ** Preparing a search *)

Definition with_ends (p : CMicroPather) (e : Z) : CMicroPather :=
  p <| isRunning := true |> <| xEndNode := off_edge (mapSizeX p) (cell_x (mapSizeX p) e) |> <| yEndNode := off_edge (mapSizeY p) (cell_y (mapSizeX p) e) |>.

Lemma prepare_ok p E e : PatherOk p E -> in_map (mapSizeX p) (mapSizeY p) e ->
  let p' := next_frame (with_ends p e) in
  FreshOk p' E /\ SameMap p p' /\ EndOk p' /\ xEndNode p' = off_edge (mapSizeX p) (cell_x (mapSizeX p) e) /\ yEndNode p' = off_edge (mapSizeY p) (cell_y (mapSizeX p) e).
Proof.
  intros HP He p'. assert (SameMap p (with_ends p e)) as HS1 by done. pose proof (po_grid _ _ HP) as HG.
  assert (PatherOk (with_ends p e) E) as HP1 by (constructor; [by apply (grid_same p)|apply HP|apply HP|apply HP]).
  destruct (next_frame_ok _ _ HP1) as (HF & HS2 & Ex & Ey). fold p' in HF, HS2, Ex, Ey. cbn in Ex, Ey.
  assert (SameMap p p') as HS by (by eapply same_trans).
  destruct HG as [HX HY _]. destruct (cell_bounds (mapSizeX p) (mapSizeY p) e ltac:(lia) He) as [Hx Hy].
  pose proof (off_edge_bounds (mapSizeX p) _ HX Hx). pose proof (off_edge_bounds (mapSizeY p) _ HY Hy).
  unfold EndOk. rewrite Ex, Ey, (sm_x _ _ HS), (sm_y _ _ HS). split_and!; done || lia.
Qed.

Lemma best_goal_in p start targets end0 : GridOk p -> in_map (mapSizeX p) (mapSizeY p) end0 -> Forall (in_map (mapSizeX p) (mapSizeY p)) targets ->
  in_map (mapSizeX p) (mapSizeY p) (best_goal (mapSizeX p) (mapSizeY p) start targets end0).1.
Proof.
  intros [HX HY _] H0 Ht. unfold best_goal. cbn [fst]. generalize FLT_MAX. revert end0 H0.
  induction Ht as [|t targets Hi Ht IH]; intros e He least; cbn; [done|]. case_match; apply IH; try done. apply interior_in_map, FixNode_interior; done.
Qed.
