(* ===== verification/PathSearch.v ===== *)
(** The contracts of the four searches of [CMicroPather]. *)

From S2P Require Import Prelude Outcome Float32 FloatOrder OpenQueue OpenQueueSpec MicroPather PatherInv PatherLoop PatherResult PatherRules PatherSearch PatherCorrect.

Lemma pather_ext p E E' : (forall n, E n = E' n) -> PatherOk p E -> PatherOk p E'.
Proof. intros H [? ? ? HN]. constructor; try done. intros n nd Hn. rewrite <-H. by apply HN. Qed.

Definition among (l : list Z) (n : Z) : bool := bool_decide (n ∈ l).

(** The pather between searches: no node inside the map is marked as an end node. *)
Definition Resting (p : CMicroPather) : Prop := exists E, PatherOk p E /\ forall n, inside p n -> E n = false.

Lemma resting_same p p' E : SameMap p p' -> PatherOk p' E -> (forall n, inside p n -> E n = false) -> Resting p'.
Proof. intros [Ex Ey _ _ _ _] HP HE. exists E. split; [done|]. intros n Hn. apply HE. unfold inside in *. by rewrite <-Ex, <-Ey. Qed.

Lemma fix_all_in p (l : list Z) : GridOk p -> Forall (in_map (mapSizeX p) (mapSizeY p)) l ->
  forall v, v ∈ FixNode (mapSizeX p) (mapSizeY p) <$> l -> in_map (mapSizeX p) (mapSizeY p) v.
Proof.
  intros [HX HY _] Hl v (n & -> & Hn)%list_elem_of_fmap. apply interior_in_map, FixNode_interior; try done. by eapply Forall_forall.
Qed.

(** [FindBestPathToAnyGivenPoint], on a pather in any state its searches leave behind, on a
    map with a blocked border and nonnegative costs: the search is defined (no index out of
    range, no heap cell read before it is written, no endless parent chain), it ends, and its answer is
    right.  [SOLVED]: the path written is a walk from the fixed start to one of the fixed
    end nodes, step by step between neighbouring passable cells within the threat limit, and the
    cost reported is the cost of a walk to that node that is at least the path's own;
    [NO_SOLUTION]: there is no such walk.  The flags of the end nodes are cleared, the pather is ready for the
    next search. *)
Lemma FindBestPathToAnyGivenPoint_correct p start ends targets maxThreat path0 : Resting p -> AstarOk p maxThreat ->
  in_map (mapSizeX p) (mapSizeY p) start -> Forall (in_map (mapSizeX p) (mapSizeY p)) ends -> Forall (in_map (mapSizeX p) (mapSizeY p)) targets -> ends <> [] ->
  let fix1 := FixNode (mapSizeX p) (mapSizeY p) in
  exists N a p', (forall fuel, (N <= fuel)%nat ->
      FindBestPathToAnyGivenPoint fuel start ends targets maxThreat path0 p = Val (Some (a, fix1 <$> ends, fix1 <$> targets, p'))) /\
    Answered (route p maxThreat (fix1 start)) (mapSizeX p) (among (fix1 <$> ends)) path0 a /\
    Resting p' /\ SameMap p p' /\ isRunning p' = false.
Proof.
  intros (M & HP & HM) HA Hs He Ht Hne fix1. destruct ends as [|end0 rest]; [done|]. pose proof (po_grid _ _ HP) as HG. destruct HG as [HX HY HAr] eqn:EG; clear EG.
  pose proof (best_goal_in p start targets end0 (po_grid _ _ HP) (Forall_inv He) Ht) as Hg.
  destruct (best_goal (mapSizeX p) (mapSizeY p) start targets end0) as [endNode targets'] eqn:Eb. assert (targets' = fix1 <$> targets) as -> by (unfold best_goal in Eb; by injection Eb).
  cbn [fst] in Hg. destruct (prepare_ok p M endNode HP Hg) as (HF & HS & HE & _). set (p2 := next_frame (with_ends p endNode)) in *.
  pose proof (astar_ok_same p p2 maxThreat HS HA) as [H1 H2 H3 H4 H5]. pose proof (fo_grid _ _ HF) as HG2.
  pose proof (astar_rules_ok p2 maxThreat HG2 HE H1 H2 H3 H4) as Hr. set (s := fix1 start).
  assert (inside p2 s) as Is by (unfold inside; rewrite (sm_x _ _ HS), (sm_y _ _ HS); by apply FixNode_interior).
  destruct (push_start_ok p2 M Hr s (LeastCostEstimateLocal p2 (cell_x (mapSizeX p) s) (cell_y (mapSizeX p) s)) HF Is) as (q1 & E1 & Q1 & L1); [|done|].
  { rewrite <-(sm_x _ _ HS). by apply (diagonal_est_ok p2 HG2 HE). }
  assert (forall v, v ∈ fix1 <$> end0 :: rest -> in_map (mapSizeX p2) (mapSizeY p2) v) as Hin.
  { rewrite (sm_x _ _ HS), (sm_y _ _ HS). by apply fix_all_in. }
  destruct (set_ends_ok p2 M Hr s M q1 {[s]} None (fix1 <$> end0 :: rest) true Q1 Hin) as (q2 & E2 & Q2 & L2).
  set (F := fun n => if decide (n ∈ fix1 <$> end0 :: rest) then true else M n) in *.
  destruct (astar_loop p2 s F F is_end Hr eq_refl H5 (fo_frame _ _ HF)) with (q := q2) (path0 := path0)
    as (N & hit & q3 & a & S & ex & Hrun & Ha & Hans & Q3); [|done|intros n Hn; by rewrite L2, L1|].
  { intros n nd _ Hend. unfold is_end. by rewrite Hend. }
  destruct (set_ends_ok p2 M Hr s _ q3 S ex (fix1 <$> end0 :: rest) false Q3 Hin) as (q4 & E4 & Q4 & _).
  exists N, a, ((store q4 p2) <| isRunning := false |>). split_and!; try done.
  - intros fuel Hfuel. unfold FindBestPathToAnyGivenPoint. rewrite Eb.
    change (FixStartEndNode start endNode (p <| isRunning := true |>)) with (s, fix1 endNode, with_ends p endNode). cbv beta iota zeta. fold p2 fix1.
    rewrite E1, bind_Val, E2, bind_Val. setoid_rewrite Hrun; [|done]. rewrite bind_Val. cbv beta iota. rewrite Ha, bind_Val, E4. done.
  - eapply answered_ext; [| |rewrite <-(sm_x _ _ HS); exact Hans]; [intros l n c t; apply (route_same p p2 maxThreat s l n c t HS)|].
    intros l n c t Hw%(walk_inside p2 s Hr); [|done]. unfold F, among. case_decide as Hd; [by rewrite bool_decide_true|rewrite bool_decide_false by done].
    apply HM. unfold inside in *. by rewrite <-(sm_x _ _ HS), <-(sm_y _ _ HS).
  - apply (resting_same p _ (fun n => if decide (n ∈ fix1 <$> end0 :: rest) then false else F n)).
    + by eapply same_trans.
    + by eapply (store_ok p2 M).
    + intros n Hn. unfold F. case_decide; [done|]. by apply HM.
  - eapply same_trans; [exact HS|]. done.
Qed.

(** ** The path to a point on a radius *)

(** [n] lies on the disc around the end node, as [xend] tabulates it, and the hit test accepts it. *)
Definition hit_at (X ex ey radius : Z) (xend : list Z) (hitTest : Z * Z -> Z * Z -> bool) (n : Z) : bool :=
  (ey - radius <=? cell_y X n) && (cell_y X n <=? ey + radius) && ((ex - radius <=? cell_x X n) && (cell_x X n <=? ex + radius)) &&
  match xend !! Z.to_nat (cell_y X n - (ey - radius)) with
  | Some xe => (Z.abs (cell_x X n - ex) <=? xe) && hitTest (cell_x X n - 1, cell_y X n - 1) (ex - 1, ey - 1)
  | None => false
  end.

Lemma on_radius_ok p radius xend hitTest n : 0 < radius -> size_of xend = 2 * radius + 1 ->
  on_radius p (xEndNode p) (yEndNode p) radius xend hitTest n = Val (hit_at (mapSizeX p) (xEndNode p) (yEndNode p) radius xend hitTest n).
Proof.
  intros Hr Hl. unfold on_radius, hit_at. case_match eqn:Hb; [|done]. rewrite andb_true_l. bools.
  destruct (lookup_lt_is_Some_2 xend (Z.to_nat (cell_y (mapSizeX p) n - (yEndNode p - radius)))) as [xe ->]; [|done]. unfold size_of in Hl. lia.
Qed.

Lemma xend_length radius xend : xend_table radius = Some xend -> 0 < radius -> size_of xend = 2 * radius + 1.
Proof. intros H%length_mapM Hr. rewrite length_seqZ in H. unfold size_of. lia. Qed.

(** [FindBestPathToPointOnRadius]: the search is defined, ends, and its answer is right: a walk from
    the fixed start to a cell on the disc that the hit test accepts, or none exists.  The disc
    is centred at the fixed end node; [radius <= 0] is answered with [NO_SOLUTION] at once. *)
Lemma FindBestPathToPointOnRadius_correct p start end_ radius xend maxThreat hitTest path0 : Resting p -> AstarOk p maxThreat ->
  in_map (mapSizeX p) (mapSizeY p) start -> in_map (mapSizeX p) (mapSizeY p) end_ -> xend_table radius = Some xend ->
  let fix1 := FixNode (mapSizeX p) (mapSizeY p) in
  exists N a p', (forall fuel, (N <= fuel)%nat -> FindBestPathToPointOnRadius fuel start end_ radius maxThreat hitTest path0 p = Val (Some (a, p'))) /\
    (if radius <=? 0 then a = {| result := NO_SOLUTION; path := path0; cost := f0 |}
     else Answered (route p maxThreat (fix1 start)) (mapSizeX p)
            (hit_at (mapSizeX p) (cell_x (mapSizeX p) (fix1 end_)) (cell_y (mapSizeX p) (fix1 end_)) radius xend hitTest) path0 a) /\
    Resting p' /\ SameMap p p' /\ isRunning p' = false.
Proof.
  intros (M & HP & HM) HA Hs He Hx fix1. unfold FindBestPathToPointOnRadius. destruct (Z.leb_spec radius 0) as [Hle|Hgt].
  { exists 0%nat. eexists _, _. split; [done|]. split_and!; try done.
    apply (resting_same p _ M); [done| |done]. constructor; [by apply (grid_same p); [|apply HP]|apply HP..]. }
  pose proof (po_grid _ _ HP) as [HX HY _]. destruct (prepare_ok p M end_ HP He) as (HF & HS & HE & Ex & Ey). set (p2 := next_frame (with_ends p end_)) in *.
  pose proof (astar_ok_same p p2 maxThreat HS HA) as [H1 H2 H3 H4 H5]. pose proof (fo_grid _ _ HF) as HG2.
  pose proof (astar_rules_ok p2 maxThreat HG2 HE H1 H2 H3 H4) as Hr. set (s := fix1 start).
  assert (inside p2 s) as Is by (unfold inside; rewrite (sm_x _ _ HS), (sm_y _ _ HS); by apply FixNode_interior).
  destruct (push_start_ok p2 M Hr s (LeastCostEstimateLocal p2 (cell_x (mapSizeX p) s) (cell_y (mapSizeX p) s)) HF Is) as (q1 & E1 & Q1 & L1); [|done|].
  { rewrite <-(sm_x _ _ HS). by apply (diagonal_est_ok p2 HG2 HE). }
  destruct (FixNode_cell (mapSizeX p) (mapSizeY p) end_ HX He) as [Ecx Ecy]. fold fix1 in Ecx, Ecy. rewrite <-Ex in Ecx. rewrite <-Ey in Ecy. rewrite Ecx, Ecy.
  set (G := hit_at (mapSizeX p) (xEndNode p2) (yEndNode p2) radius xend hitTest).
  destruct (astar_loop p2 s M G (fun n _ => on_radius p2 (xEndNode p2) (yEndNode p2) radius xend hitTest n) Hr eq_refl H5 (fo_frame _ _ HF)) with (q := q1) (path0 := path0)
    as (N & hit & q3 & a & S & ex & Hrun & Ha & Hans & Q3); [|done|done|].
  { intros n nd _ _. rewrite (on_radius_ok p2 radius xend hitTest n Hgt (xend_length radius xend Hx Hgt)). by rewrite (sm_x _ _ HS). }
  exists N, a, ((store q3 p2) <| isRunning := false |>). split_and!; try done.
  - intros fuel Hfuel. change (FixStartEndNode start end_ (p <| isRunning := true |>)) with (s, fix1 end_, with_ends p end_). cbv beta iota zeta. fold p2.
    rewrite Ecx, Ecy, E1, bind_Val, Hx. setoid_rewrite Hrun; [|done]. rewrite bind_Val. cbv beta iota. rewrite Ha. done.
  - eapply answered_ext; [|done|]; [|rewrite <-(sm_x _ _ HS); exact Hans]. intros l n c t. apply (route_same p p2 maxThreat s l n c t HS).
  - apply (resting_same p _ M); [by eapply same_trans|by eapply (store_ok p2 M)|done].
  - eapply same_trans; [exact HS|]. done.
Qed.

(** ** Wide paths *)

Record WideOk (p : CMicroPather) (w : Z) : Prop := {
  wo_terrain : TerrainOk p;
  wo_move : fun_ok p (moveFun p);
  wo_moderate : moderate (wide_rules p w) (mapSizeX p) (mapSizeY p);
}.

Definition wide_route (p : CMicroPather) (w s : Z) : list Z -> Z -> float -> float -> Prop :=
  Walk (r := wide_rules p w) (X := mapSizeX p) (tr := tr_astar) s.

Lemma wide_ok_same p p' w : SameMap p p' -> WideOk p w -> WideOk p' w.
Proof. intros [? ? ? ? ? ?] [H1 H2 H3]. destruct p, p'. cbn in *. subst. constructor; [exact H1|exact H2|exact H3]. Qed.

Lemma wide_route_same p p' w s l n c t : SameMap p p' -> wide_route p' w s l n c t <-> wide_route p w s l n c t.
Proof. intros [? ? ? ? ? ?]. destruct p, p'. cbn in *. subst. split; apply walk_same; intros u d v x H; exact H. Qed.

(** The end nodes with the last one fixed. *)
Definition fix_back (X Y : Z) (ends : list Z) : list Z :=
  match last ends with Some e => <[pred (length ends) := FixNode X Y e]> ends | None => ends end.

Lemma fix_back_in X Y ends v : 3 <= X -> 3 <= Y -> Forall (in_map X Y) ends -> v ∈ fix_back X Y ends -> in_map X Y v.
Proof.
  intros HX HY He. unfold fix_back. destruct (last ends) as [e|] eqn:El; [|by intros Hv; eapply Forall_forall in He].
  intros Hv. assert (Forall (in_map X Y) (<[pred (length ends) := FixNode X Y e]> ends)) as H; [|by eapply Forall_forall in H].
  apply Forall_insert; [done|]. apply interior_in_map, FixNode_interior; try done. apply last_Some_elem_of in El. by eapply Forall_forall in He.
Qed.

(** An end node inside the map is in the list as the search leaves it. *)
Lemma fix_back_keeps X Y ends n : interior X Y n -> n ∈ ends -> n ∈ fix_back X Y ends.
Proof.
  intros Hn Hin. unfold fix_back. destruct (last ends) as [e|] eqn:El; [|done]. rewrite last_lookup in El.
  apply list_elem_of_lookup in Hin as [i Hi]. apply list_elem_of_lookup. exists i. destruct (decide (i = pred (length ends))) as [->|Hne].
  - rewrite list_lookup_insert_eq by (by eapply lookup_lt_Some). simplify_eq. by rewrite FixNode_id.
  - by rewrite list_lookup_insert_ne.
Qed.

(** [FindWidePathToBus], for widths 1 to 3 and end nodes its caller has marked: the search is
    defined, ends, and its answer is right: a walk of axis steps over cells wide enough, from the fixed start to a
    marked node inside the map, or none exists.  The search moves the last end node off the edge
    and unmarks the nodes of the list as it then is: a last end node on the edge stays marked, no node
    inside the map does. *)
Lemma FindWidePathToBus_correct p M start ends howWide path0 : PatherOk p M -> (forall n, inside p n -> M n = among ends n) -> WideOk p howWide -> howWide = 1 \/ howWide = 2 \/ howWide = 3 ->
  in_map (mapSizeX p) (mapSizeY p) start -> Forall (in_map (mapSizeX p) (mapSizeY p)) ends -> ends <> [] ->
  let ends' := fix_back (mapSizeX p) (mapSizeY p) ends in
  exists N a p', (forall fuel, (N <= fuel)%nat -> FindWidePathToBus fuel start ends howWide path0 p = Val (Some (a, ends', p'))) /\
    Answered (wide_route p howWide (FixNode (mapSizeX p) (mapSizeY p) start)) (mapSizeX p) (among ends) path0 a /\
    PatherOk p' (fun n => M n && negb (among ends' n)) /\ (forall n, inside p n -> M n && negb (among ends' n) = false) /\
    SameMap p p' /\ isRunning p' = false.
Proof.
  intros HP HM HW Hw Hs He Hne ends'. destruct (last ends) as [back|] eqn:El; [|by apply last_None in El].
  assert (in_map (mapSizeX p) (mapSizeY p) back) as Hb by (pose proof (last_Some_elem_of _ _ El); by eapply Forall_forall in He).
  pose proof (po_grid _ _ HP) as [HX HY _]. destruct (prepare_ok p M back HP Hb) as (HF & HS & HE & _). set (p2 := next_frame (with_ends p back)) in *.
  pose proof (wide_ok_same p p2 howWide HS HW) as [H1 H2 H3]. pose proof (fo_grid _ _ HF) as HG2.
  pose proof (wide_rules_ok p2 howWide HG2 HE H1 H2 Hw) as Hr. set (s := FixNode (mapSizeX p) (mapSizeY p) start).
  assert (inside p2 s) as Is by (unfold inside; rewrite (sm_x _ _ HS), (sm_y _ _ HS); by apply FixNode_interior).
  destruct (push_start_ok p2 M Hr s (AxisCostEstimate p2 (cell_x (mapSizeX p) s) (cell_y (mapSizeX p) s)) HF Is) as (q1 & E1 & Q1 & L1); [|done|].
  { rewrite <-(sm_x _ _ HS). by apply (axis_est_ok p2 HG2 HE). }
  destruct (astar_loop p2 s M M is_end Hr eq_refl H3 (fo_frame _ _ HF)) with (q := q1) (path0 := path0)
    as (N & hit & q3 & a & S & ex & Hrun & Ha & Hans & Q3); [|done|done|].
  { intros n nd _ Hend. unfold is_end. by rewrite Hend. }
  assert (forall v, v ∈ ends' -> in_map (mapSizeX p2) (mapSizeY p2) v) as Hin.
  { rewrite (sm_x _ _ HS), (sm_y _ _ HS). intros v. by apply fix_back_in. }
  destruct (set_ends_ok p2 M Hr s _ q3 S ex ends' false Q3 Hin) as (q4 & E4 & Q4 & _).
  exists N, a, ((store q4 p2) <| isRunning := false |>). split_and!; try done.
  - intros fuel Hfuel. unfold FindWidePathToBus. rewrite El.
    change (FixStartEndNode start back (p <| isRunning := true |>)) with (s, FixNode (mapSizeX p) (mapSizeY p) back, with_ends p back). cbv beta iota zeta. fold p2.
    assert (<[pred (length ends) := FixNode (mapSizeX p) (mapSizeY p) back]> ends = ends') as -> by (unfold ends', fix_back; by rewrite El).
    rewrite E1, bind_Val. setoid_rewrite Hrun; [|done]. rewrite bind_Val. cbv beta iota. rewrite Ha, bind_Val, E4. done.
  - eapply answered_ext; [| |rewrite <-(sm_x _ _ HS); exact Hans]; [intros l n c t; apply (wide_route_same p p2 howWide s l n c t HS)|].
    intros l n c t Hw'%(walk_inside p2 s Hr); [|done]. apply HM. unfold inside in *. by rewrite <-(sm_x _ _ HS), <-(sm_y _ _ HS).
  - apply (pather_ext _ (fun n => if decide (n ∈ ends') then false else M n)); [|by eapply (store_ok p2 M)].
    intros n. unfold among. case_decide; [rewrite bool_decide_true by done|rewrite bool_decide_false by done]; by destruct (M n).
  - intros n Hn. rewrite HM by done. unfold among. destruct (decide (n ∈ ends)) as [Hin'|]; [|by rewrite bool_decide_false].
    rewrite !bool_decide_true; [done| |done]. by apply fix_back_keeps.
  - eapply same_trans; [exact HS|]. done.
Qed.

(** ** The cost map *)

Record CostMapOk (p : CMicroPather) (maxThreat : float) : Prop := {
  co_terrain : TerrainOk p;
  co_threat : ThreatOk p;
  co_moderate : moderate (map_rules p maxThreat) (mapSizeX p) (mapSizeY p);
}.

(** The walks of the cost map, with the compared cost and the travel distance. *)
Definition map_walk (p : CMicroPather) (maxThreat : float) (s : Z) : list Z -> Z -> float -> float -> Prop :=
  Walk (r := map_rules p maxThreat) (X := mapSizeX p) (tr := tr_map p) s.

Lemma map_ok_same p p' maxThreat : SameMap p p' -> CostMapOk p maxThreat -> CostMapOk p' maxThreat.
Proof. intros [? ? ? ? ? ?] [H1 H2 H3]. destruct p, p'. cbn in *. subst. constructor; [exact H1|exact H2|exact H3]. Qed.

Lemma map_walk_same p p' maxThreat s l n c t : SameMap p p' -> map_walk p' maxThreat s l n c t <-> map_walk p maxThreat s l n c t.
Proof.
  intros [? ? ? ? ? ?]. destruct p, p'. cbn in *. subst. unfold map_walk. split.
  - induction 1 as [|l u c t d v w _ IH Hst]; [constructor|]. by apply (walk_step _ l u c t d v w IH).
  - induction 1 as [|l u c t d v w _ IH Hst]; [constructor|]. by apply (walk_step _ l u c t d v w IH).
Qed.

(** Writing a travel distance into the map. *)
Lemma write_cost_ok (X Y : Z) (E : Z -> bool) (costMap : list float) : size_of costMap = (X - 2) * (Y - 2) ->
  VisitOk (X := X) (Y := Y) E (fun _ _ => Val false) write_cost (fun _ => false) (fun v => length v = length costMap)
    (fun v n o => v !! Z.to_nat (cell_index2 X n) = match o with Some t => Some t | None => costMap !! Z.to_nat (cell_index2 X n) end).
Proof.
  intros Hsz. constructor; [done|]. intros n nd v Hn Ei Hl. pose proof (index2_bounds X Y n Hn) as Hb. unfold size_of in Hsz. unfold write_cost. rewrite Ei.
  assert ((0 <=? cell_index2 X n) && (cell_index2 X n <? size_of v) = true) as -> by (unfold size_of; lia).
  eexists. split; [done|]. split_and!.
  - by rewrite length_insert.
  - apply list_lookup_insert_eq. lia.
  - intros n' o Hne Hn' Hv. rewrite list_lookup_insert_ne; [done|]. pose proof (index2_bounds X Y n' Hn'). intros E'. apply Hne, (index2_inj X Y n' n); try done. lia.
Qed.

(** [MakeCostMap]: the search is defined, ends, and computes the cheapest walks to all cells.  The
    entry of a cell that some walk reaches is the travel distance along a walk to it that no other walk
    undercuts in the cost compared; the entry of any other cell is left as it was. *)
Lemma MakeCostMap_exact p E start maxThreat costMap : PatherOk p E -> CostMapOk p maxThreat ->
  in_map (mapSizeX p) (mapSizeY p) start -> size_of costMap = (mapSizeX p - 2) * (mapSizeY p - 2) ->
  let walk := map_walk p maxThreat (FixNode (mapSizeX p) (mapSizeY p) start) in
  exists N m p', (forall fuel, (N <= fuel)%nat -> MakeCostMap fuel start maxThreat costMap p = Val (Some (m, p'))) /\
    length m = length costMap /\ PatherOk p' E /\ SameMap p p' /\ isRunning p' = false /\
    forall n, inside p n -> let i := Z.to_nat (cell_index2 (mapSizeX p) n) in
      (exists l c t, walk l n c t /\ m !! i = Some t /\ forall l' c' t', walk l' n c' t' -> okey c <= okey c') \/
      ((~ exists l c t, walk l n c t) /\ m !! i = costMap !! i).
Proof.
  intros HP HC Hs Hsz walk. pose proof (po_grid _ _ HP) as [HX HY _]. set (p1 := p <| isRunning := true |>).
  assert (PatherOk p1 E) as HP1 by (constructor; [by apply (grid_same p); [|apply HP]|apply HP..]).
  destruct (next_frame_ok p1 E HP1) as (HF & HS1 & _). set (p2 := next_frame p1) in *. assert (SameMap p p2) as HS by (by eapply (same_trans p p1)).
  pose proof (map_ok_same p p2 maxThreat HS HC) as [H1 H2 H3]. pose proof (map_rules_ok p2 maxThreat (fo_grid _ _ HF) H1 H2) as Hr.
  set (s := FixNode (mapSizeX p) (mapSizeY p) start).
  assert (inside p2 s) as Is by (unfold inside; rewrite (sm_x _ _ HS), (sm_y _ _ HS); by apply FixNode_interior).
  destruct (push_start_ok p2 E Hr s f0 HF Is) as (q1 & E1 & Q1 & L1); [done|done|].
  assert (0 <= frame p2 < 2 ^ 16) as Hfr by (pose proof (fo_frame _ _ HF); lia).
  assert (size_of costMap = (mapSizeX p2 - 2) * (mapSizeY p2 - 2)) as Hsz2 by (by rewrite (sm_x _ _ HS), (sm_y _ _ HS)).
  destruct (loop_spec Hr (frame p2) s E Hfr _ _ _ _ _ (write_cost_ok (mapSizeX p2) (mapSizeY p2) E costMap Hsz2) costMap q1 {[s]}) as (N & hit & m & q2 & Hstop & Hrun).
  { constructor; try done. intros n Hi Hn. rewrite travel_BIG; [done|]. rewrite L1 by set_solver. done. }
  destruct hit as [n|]; [by destruct Hstop|]. destruct Hstop as [Q2 Hlen Hvis _]. exists N, m, ((store q2 p2) <| isRunning := false |>). split_and!; try done.
  - intros fuel Hfuel. unfold MakeCostMap. fold s p1 p2. rewrite E1, bind_Val. setoid_rewrite Hrun; [|done]. done.
  - by eapply (store_ok p2 E).
  - eapply same_trans; [exact HS|]. done.
  - pose proof (qi_inv _ _ _ _ _ _ Q2) as L. intros n Hn i. assert (inside p2 n) as Hn2 by (unfold inside; by rewrite (sm_x _ _ HS), (sm_y _ _ HS)).
    specialize (Hvis n Hn2 ltac:(set_solver)). cbv beta in Hvis. rewrite (sm_x _ _ HS) in Hvis. fold i in Hvis.
    assert (forall l c t, walk l n c t -> label (r := map_rules p2 maxThreat) (frame p2) (mem q2) n <= okey c /\ okey c < BIG) as Hmin.
    { intros l c t Hw. apply (map_walk_same p p2 maxThreat s l n c t HS) in Hw. split; [by eapply (walk_label Hr)|exact (walk_bounded Hr s l n c t Is H3 Hw)]. }
    destruct (Z.lt_ge_cases (label (r := map_rules p2 maxThreat) (frame p2) (mem q2) n) BIG) as [Hlt|Hge].
    + left. destruct (label_small _ _ _ Hlt) as (nd & Hnd & Ht & El). destruct (li_walk _ _ _ _ _ _ L n nd Hnd Ht ltac:(lia)) as (l & Hl).
      exists l, (prim (map_rules p2 maxThreat) nd), (costFromStart nd). split_and!.
      * by apply (map_walk_same p p2 maxThreat s l n _ _ HS).
      * rewrite Hvis. unfold travel. rewrite Hnd, (proj2 (Z.eqb_eq _ _) Ht), (proj2 (Z.ltb_lt _ _)) by lia. done.
      * intros l' c' t' Hw'. destruct (Hmin l' c' t' Hw'). lia.
    + right. split; [intros (l & c & t & Hw); destruct (Hmin l c t Hw); lia|]. by rewrite travel_BIG in Hvis.
Qed.
