(* ===== verification/PathFinder.v ===== *)
(** The path finder (terrain/path/PathFinder.h, terrain/path/PathFinder.cpp): the cost arrays the searches
    run on, and the conversions between the path map and the move map, which has a border of one
    cell around it.

    Per mobile type there are two arrays, one in use by the queries and one that
    [UpdateAreaUsers] rewrites before the two change roles.  An array of [new float] starts
    with no cell written; reading such a cell, or writing outside the array, is undefined.  What is known of the
    terrain (which sectors of a mobile type belong to an area) is an argument. *)

From S2P Require Import Prelude Outcome Float32 FloatOrder BlockingMap OpenQueue MicroPather.

Record CPathFinder := {
  squareSize : Z;
  pathMapXSize : Z; pathMapYSize : Z;
  moveMapXSize : Z; moveMapYSize : Z;
  moveData0 : list (gmap Z float);
  moveData1 : list (gmap Z float);
  pMoveData : bool;                       (** [false]: points to [moveData0] *)
  airMoveArray : gmap Z float;
  isAreaUpdated : bool;
  blockArray : list (Z * Z);              (** [structs], [reserve] *)
  queryId : Z;
}.

#[export] Instance CPathFinder_eta : Eta CPathFinder := fun f =>
  Build_CPathFinder (squareSize f) (pathMapXSize f) (pathMapYSize f) (moveMapXSize f) (moveMapYSize f) (moveData0 f) (moveData1 f) (pMoveData f)
    (airMoveArray f) (isAreaUpdated f) (blockArray f) (queryId f).

(** ** Filling an array *)

(** [array[i] = v], of [total] cells. *)
Definition arr_put (total i : Z) (v : float) (m : gmap Z float) : out (gmap Z float) :=
  if (0 <=? i) && (i <? total) then Val (<[i := v]> m) else UB.

(** [k = 0; for z in 1 .. Y-2: for x in 1 .. X-2: array[z * X + x] = f(k); ++k]. *)
Definition fill_inner (X Y : Z) (f : Z -> out float) (m : gmap Z float) : out (gmap Z float) :=
  '(m, _) ← each (fun z => each (fun x '(m, k) => v ← f k; m ← arr_put (X * Y) (z * X + x) v m; Val (m, k + 1)) (seqZ 1 (X - 2))) (seqZ 1 (Y - 2)) (m, 0);
  Val m.

(** Make sure that the edges are no-go. *)
Definition block_edges (X Y : Z) (m : gmap Z float) : out (gmap Z float) :=
  m ← each (fun i m => m ← arr_put (X * Y) i COST_BLOCK m; arr_put (X * Y) (X * (Y - 1) + i) COST_BLOCK m) (seqZ 0 X) m;
  each (fun i m => m ← arr_put (X * Y) (i * X) COST_BLOCK m; arr_put (X * Y) (i * X + X - 1) COST_BLOCK m) (seqZ 0 Y) m.

(** [mt.sector[k].area != nullptr]. *)
Definition has_area (sector : list bool) (k : Z) : out bool :=
  match sector !! Z.to_nat k with Some a => Val a | None => UB end.

Definition initial_array (X Y : Z) (sector : list bool) : out (gmap Z float) :=
  m ← fill_inner X Y (fun k => a ← has_area sector k; Val (if (a : bool) then COST_BASE else COST_BLOCK)) ∅;
  block_edges X Y m.

Definition air_array (X Y : Z) : out (gmap Z float) :=
  m ← each (fun i m => arr_put (X * Y) i COST_BASE m) (seqZ 0 (X * Y)) ∅;
  block_edges X Y m.

Fixpoint map_out {A B} (f : A -> out B) (l : list A) : out (list B) :=
  match l with [] => Val [] | a :: l' => b ← f a; k ← map_out f l'; Val (b :: k) end.

(** [CPathFinder(terrainData, numThreads)]: sizes from the terrain, arrays of every mobile type. *)
Definition CPathFinder_new (convertStoP sectorXSize sectorZSize : Z) (mobileType : list (list bool)) : out CPathFinder :=
  let X := sectorXSize + 2 in let Y := sectorZSize + 2 in
  arrays ← map_out (initial_array X Y) mobileType;
  air ← air_array X Y;
  Val {| squareSize := convertStoP; pathMapXSize := sectorXSize; pathMapYSize := sectorZSize; moveMapXSize := X; moveMapYSize := Y;
         moveData0 := arrays; moveData1 := arrays; pMoveData := false; airMoveArray := air; isAreaUpdated := true;
         blockArray := replicate (Z.to_nat (sectorXSize * sectorZSize)) (0, 0); queryId := 0 |}.

Definition SetAreaUpdated (value : bool) (f : CPathFinder) : CPathFinder := f <| isAreaUpdated := value |>.
Definition MakeQueryId (f : CPathFinder) : Z * CPathFinder := (queryId f, f <| queryId ::= fun n => i32 (n + 1) |>).

Definition GetMoveData (f : CPathFinder) : list (gmap Z float) := if pMoveData f then moveData1 f else moveData0 f.
Definition GetNextMoveData (f : CPathFinder) : list (gmap Z float) := if pMoveData f then moveData0 f else moveData1 f.

(** ** UpdateAreaUsers *)

(** [++blockArray[i].structs] and [++blockArray[i].reserve]. *)
Definition count_at (i : Z) (g : Z * Z -> Z * Z) (b : list (Z * Z)) : out (list (Z * Z)) :=
  if 0 <=? i then match b !! Z.to_nat i with Some c => Val (<[Z.to_nat i := g c]> b) | None => UB end else UB.

Definition of_option {A} (o : option A) : out A := match o with Some a => Val a | None => UB end.

Definition notIgnore : Z := Z.lor (GetStructMask MEX) (GetStructMask GEO).

(** The body of the loops over the blocking map. *)
Definition count_cell (bm : SBlockingMap) (granularity sectorXSize : Z) (c : Z * Z) (b : list (Z * Z)) : out (list (Z * Z)) :=
  let '(x, z) := c in
  let i := z / granularity * sectorXSize + x / granularity in
  str ← of_option (IsStruct bm x z);
  if (str : bool) then count_at i (fun '(s, r) => (s + 1, r)) b
  else
    blk ← of_option (IsBlocked bm x z notIgnore);
    if (blk : bool) then count_at i (fun '(s, r) => (s, r + 1)) b else Val b.

Definition cells_of (columns rows : Z) : list (Z * Z) := z ← seqZ 0 rows; x ← seqZ 0 columns; [(x, z)].

(** [COST_STRUCT / (granularity * granularity)] and the like. *)
Definition per_square (c : Z) (granularity : Z) : float := SFdiv 24 128 (float_of_Z c) (float_of_Z (granularity * granularity)).

(** [structs * costStruct + reserve * costReserve + COST_BASE]. *)
Definition sector_cost (granularity : Z) (c : Z * Z) : float :=
  fadd (fadd (fmul (float_of_Z c.1) (per_square 400 granularity)) (fmul (float_of_Z c.2) (per_square 40 granularity))) COST_BASE.

Definition area_cost (granularity : Z) (sector : list bool) (b : list (Z * Z)) (k : Z) : out float :=
  a ← has_area sector k;
  if (a : bool) then c ← of_option (b !! Z.to_nat k); Val (sector_cost granularity c) else Val COST_BLOCK.

(** [moveArrays[j]] for each of the mobile types. *)
Fixpoint update_arrays (X Y granularity : Z) (b : list (Z * Z)) (mobileType : list (list bool)) (arrays : list (gmap Z float)) : out (list (gmap Z float)) :=
  match mobileType, arrays with
  | [], _ => Val arrays
  | _ :: _, [] => UB
  | sector :: mts, m :: ms => m' ← fill_inner X Y (area_cost granularity sector b) m; ms' ← update_arrays X Y granularity b mts ms; Val (m' :: ms')
  end.

Definition UpdateAreaUsers (bm : SBlockingMap) (mobileType : list (list bool)) (f : CPathFinder) : out CPathFinder :=
  if isAreaUpdated f then Val f
  else
    let f := f <| isAreaUpdated := true |> <| blockArray ::= fmap (fun _ => (0, 0)) |> in
    let granularity := squareSize f / 16 in
    b ← each (count_cell bm granularity (pathMapXSize f)) (cells_of (columns bm) (rows bm)) (blockArray f);
    arrays ← update_arrays (moveMapXSize f) (moveMapYSize f) granularity b mobileType (GetNextMoveData f);
    let f := f <| blockArray := b |> in
    let f := if pMoveData f then f <| moveData0 := arrays |> else f <| moveData1 := arrays |> in
    Val (f <| pMoveData ::= negb |>).

(** ** Conversions *)

Definition MoveXY2MoveNode (f : CPathFinder) (x y : Z) : Z := y * moveMapXSize f + x.
Definition MoveNode2MoveXY (f : CPathFinder) (node : Z) : Z * Z := (node - node / moveMapXSize f * moveMapXSize f, node / moveMapXSize f).
Definition PathXY2PathIndex (f : CPathFinder) (x y : Z) : Z := y * pathMapXSize f + x.
Definition PathIndex2PathXY (f : CPathFinder) (index : Z) : Z * Z := (index - index / pathMapXSize f * pathMapXSize f, index / pathMapXSize f).
Definition PathIndex2MoveXY (f : CPathFinder) (index : Z) : Z * Z :=
  let ty := index / pathMapXSize f in (index - ty * pathMapXSize f + 1, ty + 1).

Definition IsInPathMapR (f : CPathFinder) (x y radius : Z) : bool :=
  ((radius <=? x) && (x <=? pathMapXSize f - 1 - radius)) && ((radius <=? y) && (y <=? pathMapYSize f - 1 - radius)).
Definition IsInPathMap (f : CPathFinder) (x y : Z) : bool :=
  (0 <=? x) && (x <=? pathMapXSize f - 1) && (0 <=? y) && (y <=? pathMapYSize f - 1).
