(* ===== verification/PathFinderInv.v ===== *)
(** The cost arrays of the path finder are what the searches need: every cell has a cost that is not
    negative, the border is blocked, and inside the map exactly the sectors without an area are. *)

From S2P Require Import Prelude Outcome Float32 FloatOrder BlockingMap OpenQueue MicroPather PathFinder PatherInv PatherLoop PatherRules.

(** A loop over a list, with the part already done known. *)
Lemma each_prefix {A W} (f : A -> W -> out W) (I : list A -> W -> Prop) (l : list A) (w : W) : I [] w ->
  (forall a done rest w, l = done ++ a :: rest -> I done w -> exists w', f a w = Val w' /\ I (done ++ [a]) w') ->
  exists w', each f l w = Val w' /\ I l w'.
Proof.
  intros H0 Hf. assert (forall l2 l1 w, l = l1 ++ l2 -> I l1 w -> exists w', each f l2 w = Val w' /\ I l w') as H; [|by apply (H l [] w)].
  induction l2 as [|a l2 IH]; intros l1 w1 E H1; [rewrite app_nil_r in E; subst; eauto|]. cbn.
  destruct (Hf a l1 l2 w1 E H1) as (w2 & -> & H2). cbn. apply (IH (l1 ++ [a])); [|done]. by rewrite <-app_assoc.
Qed.

Lemma seqZ_prefix (m n a : Z) (l1 l2 : list Z) : seqZ m n = l1 ++ a :: l2 -> a = m + Z.of_nat (length l1) /\ Z.of_nat (length l1) < n.
Proof.
  intros E. assert (seqZ m n !! length l1 = Some a) as H by (rewrite E; by apply list_lookup_middle). apply lookup_seqZ in H. lia.
Qed.

Lemma arr_put_ok (total i : Z) (v : float) (m : gmap Z float) : 0 <= i < total -> arr_put total i v m = Val (<[i := v]> m).
Proof. intros Hi. unfold arr_put. by assert ((0 <=? i) && (i <? total) = true) as -> by lia. Qed.

#[export] Instance interior_dec X Y n : Decision (interior X Y n).
Proof. unfold interior. apply _. Defined.

Section Arrays.
Context (X Y : Z) (HX : 3 <= X) (HY : 3 <= Y).

(** The cell written with counter [k]. *)
Lemma inner_cell (z x : Z) : 1 <= z <= Y - 2 -> 1 <= x <= X - 2 ->
  interior X Y (z * X + x) /\ cell_index2 X (z * X + x) = (z - 1) * (X - 2) + (x - 1) /\ 0 <= z * X + x < X * Y.
Proof.
  intros Hz Hx. destruct (cell_eq X x z) as [Ex Ey]; [lia|]. unfold interior, cell_index2. rewrite Ex, Ey. split_and!; try lia; nia.
Qed.

(** The cells with a number below [k] have been written. *)
Definition filled (g : Z -> float) (m : gmap Z float) (k : Z) (m' : gmap Z float) : Prop :=
  forall n, m' !! n = if decide (interior X Y n /\ cell_index2 X n < k) then Some (g (cell_index2 X n)) else m !! n.

Lemma filled_step g m k m' i : filled g m k m' -> interior X Y i -> cell_index2 X i = k -> filled g m (k + 1) (<[i := g k]> m').
Proof.
  intros Hf Hi Hk n. destruct (decide (n = i)) as [->|Hne].
  - rewrite lookup_insert_eq, decide_True by (split; [done|lia]). by rewrite Hk.
  - rewrite lookup_insert_ne, Hf by done. destruct (decide (interior X Y n /\ cell_index2 X n < k)) as [[Hn Hlt]|Hnot].
    + rewrite decide_True; [done|]. split; [done|lia].
    + rewrite decide_False; [done|]. intros [Hn Hlt]. apply Hnot. split; [done|].
      assert (cell_index2 X n <> k); [|lia]. intros Eq. apply Hne, (index2_inj X Y n i); congruence.
Qed.

Lemma fill_inner_ok (f : Z -> out float) (g : Z -> float) (m : gmap Z float) : (forall k, 0 <= k < (X - 2) * (Y - 2) -> f k = Val (g k)) ->
  exists m', fill_inner X Y f m = Val m' /\ filled g m ((X - 2) * (Y - 2)) m'.
Proof.
  intros Hf. unfold fill_inner.
  destruct (each_prefix (fun z => each (fun x '(m, k) => v ← f k; m ← arr_put (X * Y) (z * X + x) v m; Val (m, k + 1)) (seqZ 1 (X - 2)))
    (fun done '(m', k) => k = Z.of_nat (length done) * (X - 2) /\ filled g m k m') (seqZ 1 (Y - 2)) (m, 0)) as ([m' k] & -> & Hk & Hm').
  - split; [done|]. intros n. rewrite decide_False; [done|]. intros [Hn%index2_bounds Hlt]. lia.
  - intros z done rest [m1 k1] Ez (Hk1 & Hm1). apply seqZ_prefix in Ez as [Ez Hz].
    destruct (each_prefix (fun x '(m, k) => v ← f k; m ← arr_put (X * Y) (z * X + x) v m; Val (m, k + 1))
      (fun xs '(m', k) => k = k1 + Z.of_nat (length xs) /\ filled g m k m') (seqZ 1 (X - 2)) (m1, k1)) as ([m2 k2] & E2 & Hk2 & Hm2).
    + split; [cbn; lia|done].
    + intros x xs xrest [m3 k3] Ex (Hk3 & Hm3). apply seqZ_prefix in Ex as [Ex Hx].
      destruct (inner_cell z x) as (Hi & Hi2 & Hr); [lia|lia|]. assert (cell_index2 X (z * X + x) = k3) as Ek by (rewrite Hi2; nia).
      rewrite Hf by (rewrite <-Ek; apply (index2_bounds X Y), Hi). cbn. rewrite arr_put_ok by done. cbn. eexists (_, _). split; [done|]. split.
      * rewrite length_app. cbn. lia.
      * by apply filled_step.
    + exists (m2, k2). split; [exact E2|]. rewrite length_seqZ in Hk2. split; [rewrite length_app; cbn; lia|done].
  - cbn. exists m'. split; [done|]. rewrite length_seqZ in Hk. replace ((X - 2) * (Y - 2)) with k by nia. exact Hm'.
Qed.

(** Two cells per iteration are blocked. *)
Lemma block_loop_ok (k1 k2 : Z -> Z) (l : list Z) (m : gmap Z float) : (forall i, i ∈ l -> 0 <= k1 i < X * Y /\ 0 <= k2 i < X * Y) ->
  exists m', each (fun i m => m ← arr_put (X * Y) (k1 i) COST_BLOCK m; arr_put (X * Y) (k2 i) COST_BLOCK m) l m = Val m' /\
    (forall i, i ∈ l -> m' !! k1 i = Some COST_BLOCK /\ m' !! k2 i = Some COST_BLOCK) /\
    (forall n, m !! n = Some COST_BLOCK -> m' !! n = Some COST_BLOCK) /\
    (forall n, (forall i, i ∈ l -> n <> k1 i /\ n <> k2 i) -> m' !! n = m !! n).
Proof.
  intros Hr. destruct (each_ok (fun i m => m ← arr_put (X * Y) (k1 i) COST_BLOCK m; arr_put (X * Y) (k2 i) COST_BLOCK m)
    (fun done m' => (forall i, i ∈ done -> m' !! k1 i = Some COST_BLOCK /\ m' !! k2 i = Some COST_BLOCK) /\
      (forall n, m !! n = Some COST_BLOCK -> m' !! n = Some COST_BLOCK) /\
      (forall n, (forall i, i ∈ done -> n <> k1 i /\ n <> k2 i) -> m' !! n = m !! n)) l m) as (m' & -> & H); [| |eauto].
  - split_and!; try done. set_solver.
  - intros i done m1 Hi (H1 & H2 & H3). destruct (Hr i Hi). rewrite arr_put_ok by done. cbn. rewrite arr_put_ok by done. eexists. split; [done|].
    assert (forall n, m1 !! n = Some COST_BLOCK -> <[k2 i := COST_BLOCK]> (<[k1 i := COST_BLOCK]> m1) !! n = Some COST_BLOCK) as Hk.
    { intros n Hn. destruct (decide (n = k2 i)) as [->|]; [by rewrite lookup_insert_eq|]. rewrite lookup_insert_ne by done.
      destruct (decide (n = k1 i)) as [->|]; [by rewrite lookup_insert_eq|]. by rewrite lookup_insert_ne. }
    split_and!.
    + intros j [Hj| ->%list_elem_of_singleton]%elem_of_app; [destruct (H1 j Hj); split; by apply Hk|]. rewrite lookup_insert_eq. split; [|done].
      destruct (decide (k1 i = k2 i)) as [->|]; [by rewrite lookup_insert_eq|]. rewrite lookup_insert_ne by done. by rewrite lookup_insert_eq.
    + intros n Hn. by apply Hk, H2.
    + intros n Hn. destruct (Hn i ltac:(set_solver)). rewrite !lookup_insert_ne by done. apply H3. intros j Hj. apply Hn. set_solver.
Qed.

Lemma edge_cases n : in_map X Y n -> ~ interior X Y n ->
  cell_y X n = 0 \/ cell_y X n = Y - 1 \/ cell_x X n = 0 \/ cell_x X n = X - 1.
Proof. intros Hn Hi. destruct (cell_bounds X Y n ltac:(lia) Hn). unfold interior in Hi. lia. Qed.

Lemma block_edges_ok (m : gmap Z float) : exists m', block_edges X Y m = Val m' /\
  (forall n, in_map X Y n -> ~ interior X Y n -> m' !! n = Some COST_BLOCK) /\ (forall n, interior X Y n -> m' !! n = m !! n).
Proof.
  unfold block_edges.
  destruct (block_loop_ok (fun i => i) (fun i => X * (Y - 1) + i) (seqZ 0 X) m) as (m1 & -> & A1 & A2 & A3).
  { intros i Hi%elem_of_seqZ. nia. }
  rewrite bind_Val. destruct (block_loop_ok (fun i => i * X) (fun i => i * X + X - 1) (seqZ 0 Y) m1) as (m2 & -> & B1 & B2 & B3).
  { intros i Hi%elem_of_seqZ. nia. }
  exists m2. split; [done|]. split.
  - intros n Hn Hi. destruct (cell_bounds X Y n ltac:(lia) Hn) as [Hx Hy]. pose proof (cell_split X n) as Es.
    destruct (edge_cases n Hn Hi) as [E|[E|[E|E]]]; rewrite E in Es.
    + apply B2. destruct (A1 n); [apply elem_of_seqZ; lia|done].
    + apply B2. destruct (A1 (cell_x X n)) as [_ H]; [apply elem_of_seqZ; lia|]. rewrite Es. replace ((Y - 1) * X) with (X * (Y - 1)) by lia. done.
    + destruct (B1 (cell_y X n)) as [H _]; [apply elem_of_seqZ; lia|]. rewrite Es, Z.add_0_r. done.
    + destruct (B1 (cell_y X n)) as [_ H]; [apply elem_of_seqZ; lia|]. rewrite Es. replace (cell_y X n * X + (X - 1)) with (cell_y X n * X + X - 1) by lia. done.
  - intros n [Hx Hy]. rewrite B3, A3; [done| |].
    + intros i Hi%elem_of_seqZ. split; intros ->.
      * destruct (cell_eq X i 0) as [_ Ey]; [lia|]. replace (0 * X + i) with i in Ey by lia. lia.
      * destruct (cell_eq X i (Y - 1)) as [_ Ey]; [lia|]. replace ((Y - 1) * X + i) with (X * (Y - 1) + i) in Ey by lia. lia.
    + intros i Hi%elem_of_seqZ. split; intros ->.
      * destruct (cell_eq X 0 i) as [Ex _]; [lia|]. rewrite Z.add_0_r in Ex. lia.
      * destruct (cell_eq X (X - 1) i) as [Ex _]; [lia|]. replace (i * X + (X - 1)) with (i * X + X - 1) in Ex by lia. lia.
Qed.
End Arrays.

(** ** What the arrays hold *)

(** Inside the map the cost of a cell is [g] of its number; the border is blocked. *)
Definition ArrayIs (X Y : Z) (g : Z -> float) (m : gmap Z float) : Prop :=
  forall n, in_map X Y n -> m !! n = Some (if decide (interior X Y n) then g (cell_index2 X n) else COST_BLOCK).

Definition MoveArrayOk (X Y : Z) (m : gmap Z float) : Prop :=
  exists g, ArrayIs X Y g m /\ forall k, 0 <= k < (X - 2) * (Y - 2) -> cost_ok (g k).

Lemma move_array_terrain p : MoveArrayOk (mapSizeX p) (mapSizeY p) (canMoveArray p) -> TerrainOk p.
Proof.
  intros (g & Hg & Hc) n Hn. eexists. split; [by apply Hg|]. unfold inside. case_decide as Hi; [|done].
  split; [by apply Hc, index2_bounds|]. done.
Qed.

Lemma refill_ok X Y f g m : 3 <= X -> 3 <= Y -> (forall k, 0 <= k < (X - 2) * (Y - 2) -> f k = Val (g k)) -> MoveArrayOk X Y m ->
  exists m', fill_inner X Y f m = Val m' /\ ArrayIs X Y g m'.
Proof.
  intros HX HY Hf (g0 & Hg0 & _). destruct (fill_inner_ok X Y HX HY f g m Hf) as (m' & E' & Hm'). exists m'. split; [done|]. intros n Hn. rewrite Hm'.
  destruct (decide (interior X Y n)) as [Hi|Hi].
  - by rewrite decide_True by (split; [done|apply (index2_bounds X Y), Hi]).
  - rewrite decide_False by tauto. rewrite (Hg0 n Hn). by rewrite decide_False.
Qed.

Definition area_base (sector : list bool) (k : Z) : float := if default false (sector !! Z.to_nat k) then COST_BASE else COST_BLOCK.

Lemma has_area_ok sector k : 0 <= k < size_of sector -> has_area sector k = Val (default false (sector !! Z.to_nat k)).
Proof. intros Hk. unfold has_area. destruct (lookup_lt_is_Some_2 sector (Z.to_nat k)) as [a ->]; [unfold size_of in Hk; lia|done]. Qed.

Lemma initial_array_ok X Y sector : 3 <= X -> 3 <= Y -> size_of sector = (X - 2) * (Y - 2) ->
  exists m, initial_array X Y sector = Val m /\ ArrayIs X Y (area_base sector) m.
Proof.
  intros HX HY Hs. unfold initial_array.
  destruct (fill_inner_ok X Y HX HY (fun k => a ← has_area sector k; Val (if (a : bool) then COST_BASE else COST_BLOCK)) (area_base sector) ∅) as (m1 & -> & H1).
  { intros k Hk. rewrite has_area_ok by lia. done. }
  rewrite bind_Val. destruct (block_edges_ok X Y HX HY m1) as (m2 & -> & H2 & H3). exists m2. split; [done|]. intros n Hn. case_decide as Hi; [|by apply H2].
  rewrite H3, H1 by done. by rewrite decide_True by (split; [done|apply (index2_bounds X Y), Hi]).
Qed.

Lemma air_array_ok X Y : 3 <= X -> 3 <= Y -> exists m, air_array X Y = Val m /\ ArrayIs X Y (fun _ => COST_BASE) m.
Proof.
  intros HX HY. unfold air_array.
  destruct (each_ok (fun i m => arr_put (X * Y) i COST_BASE m) (fun done m => forall n, n ∈ done -> m !! n = Some COST_BASE) (seqZ 0 (X * Y)) ∅) as (m1 & -> & H1).
  { set_solver. }
  { intros i done m Hi%elem_of_seqZ Hm. rewrite arr_put_ok by lia. eexists. split; [done|]. intros n [Hn| ->%list_elem_of_singleton]%elem_of_app; [|by rewrite lookup_insert_eq].
    destruct (decide (n = i)) as [->|]; [by rewrite lookup_insert_eq|]. rewrite lookup_insert_ne by done. by apply Hm. }
  rewrite bind_Val. destruct (block_edges_ok X Y HX HY m1) as (m2 & -> & H2 & H3). exists m2. split; [done|]. intros n Hn. case_decide as Hi; [|by apply H2].
  rewrite H3 by done. apply H1, elem_of_seqZ. unfold in_map in Hn. lia.
Qed.

Lemma base_ok (sector : list bool) k : cost_ok (area_base sector k).
Proof. unfold area_base. case_match; done. Qed.

(** ** Counting the blocked squares of a sector *)

Definition sector_of (g sx : Z) (c : Z * Z) : Z := c.2 / g * sx + c.1 / g.

Lemma cells_of_elem C R c : c ∈ cells_of C R <-> 0 <= c.1 < C /\ 0 <= c.2 < R.
Proof.
  unfold cells_of. rewrite list_elem_of_bind. setoid_rewrite list_elem_of_bind. setoid_rewrite elem_of_seqZ. setoid_rewrite list_elem_of_singleton. split.
  - intros (z & (x & -> & Hx) & Hz). cbn. lia.
  - intros [Hx Hz]. exists c.2. split; [|lia]. exists c.1. split; [by destruct c|lia].
Qed.

Lemma cells_of_NoDup C R : NoDup (cells_of C R).
Proof.
  unfold cells_of. apply NoDup_bind; [|intros z _; apply NoDup_bind|apply NoDup_seqZ].
  - intros z1 z2 c _ _ H1 H2. apply list_elem_of_bind in H1 as (x1 & ->%list_elem_of_singleton & _), H2 as (x2 & H2%list_elem_of_singleton & _). by injection H2.
  - intros x1 x2 c _ _ ->%list_elem_of_singleton H2%list_elem_of_singleton. by injection H2.
  - intros x _. apply NoDup_singleton.
  - apply NoDup_seqZ.
Qed.

Lemma sector_squares g sx sz k : 0 < g -> 0 < sx ->
  (length (filter (fun c => sector_of g sx c = k) (cells_of (g * sx) (g * sz))) <= Z.to_nat (g * g))%nat.
Proof.
  intros Hg Hsx.
  set (sq := z ← seqZ (k / sx * g) g; x ← seqZ (k `mod` sx * g) g; [(x, z)]).
  assert (length sq = Z.to_nat (g * g)) as <-.
  { unfold sq. assert (forall l : list Z, length (z ← l; x ← seqZ (k `mod` sx * g) g; [(x, z)]) = (length l * Z.to_nat g)%nat) as ->.
    { intros l. induction l as [|z l IH]; [done|]. rewrite bind_cons, length_app, IH. cbn [length]. f_equal.
      assert (forall l' : list Z, length (x ← l'; [(x, z)]) = length l') as -> by (intros l'; induction l' as [|? ? IH']; [done|cbn; by rewrite <-IH']). by rewrite length_seqZ. }
    rewrite length_seqZ. nia. }
  apply submseteq_length, NoDup_submseteq; [apply NoDup_filter, cells_of_NoDup|]. intros c [Hs Hc]%list_elem_of_filter. apply cells_of_elem in Hc as [Hx Hz].
  unfold sector_of in Hs. assert (0 <= c.1 / g < sx) as Hxg by (split; [apply Z.div_pos; lia|apply Z.div_lt_upper_bound; lia]).
  assert (k / sx = c.2 / g /\ k `mod` sx = c.1 / g) as [Ez Ex].
  { rewrite <-Hs. rewrite Z.add_comm, Z.div_add, Z.mod_add by lia. rewrite Z.div_small, Z.mod_small by lia. lia. }
  unfold sq. rewrite list_elem_of_bind. exists c.2. rewrite list_elem_of_bind, elem_of_seqZ, Ez. split.
  - exists c.1. rewrite elem_of_seqZ, Ex. split; [apply list_elem_of_singleton; by destruct c|]. pose proof (Z.div_mod c.1 g ltac:(lia)). pose proof (Z.mod_pos_bound c.1 g Hg). lia.
  - pose proof (Z.div_mod c.2 g ltac:(lia)). pose proof (Z.mod_pos_bound c.2 g Hg). lia.
Qed.

(** Every square of the blocking map lies in the grid. *)
Definition BlockMapOk (bm : SBlockingMap) : Prop := 0 <= columns bm /\ 0 <= rows bm /\ size_of (grid bm) = columns bm * rows bm.

Lemma cell_at_some bm x z : BlockMapOk bm -> 0 <= x < columns bm -> 0 <= z < rows bm -> exists c, cell_at bm x z = Some c.
Proof.
  intros (Hc & Hr & Hg) Hx Hz. unfold cell_at, index. assert (0 <= z * columns bm + x < columns bm * rows bm) as Hi by nia.
  rewrite (proj2 (Z.ltb_ge _ _)) by lia. cbn. apply lookup_lt_is_Some_2. unfold size_of in Hg. lia.
Qed.

Definition counted (g sx : Z) (b0 : list (Z * Z)) (done : list (Z * Z)) (b : list (Z * Z)) : Prop :=
  length b = length b0 /\
  forall k c, b !! k = Some c -> 0 <= c.1 /\ 0 <= c.2 /\ c.1 + c.2 <= Z.of_nat (length (filter (fun x => sector_of g sx x = Z.of_nat k) done)).

Lemma counted_keep g sx b0 done b x : counted g sx b0 done b -> counted g sx b0 (done ++ [x]) b.
Proof.
  intros [Hl Hc]. split; [done|]. intros k c Hk. destruct (Hc k c Hk) as (? & ? & ?). rewrite filter_app, length_app. split_and!; try done; lia.
Qed.

Lemma count_at_ok g sx sz b0 done b x inc : 0 < g -> length b0 = Z.to_nat (sx * sz) -> 0 <= x.1 < g * sx -> 0 <= x.2 < g * sz ->
  (inc = (fun '(s, r) => (s + 1, r)) \/ inc = (fun '(s, r) => (s, r + 1))) -> counted g sx b0 done b ->
  exists b', count_at (x.2 / g * sx + x.1 / g) inc b = Val b' /\ counted g sx b0 (done ++ [x]) b'.
Proof.
  intros Hg Hl0 Hx Hz Hinc [Hl Hc]. fold (sector_of g sx x). set (k := sector_of g sx x).
  assert (0 <= x.1 / g < sx) by (split; [apply Z.div_pos; lia|apply Z.div_lt_upper_bound; lia]).
  assert (0 <= x.2 / g < sz) by (split; [apply Z.div_pos; lia|apply Z.div_lt_upper_bound; lia]).
  assert (0 <= k < sx * sz) as Hk by (unfold k, sector_of; nia).
  destruct (lookup_lt_is_Some_2 b (Z.to_nat k)) as [c Hbc]; [lia|]. unfold count_at. rewrite (proj2 (Z.leb_le 0 k)) by lia. rewrite Hbc.
  eexists. split; [done|]. split; [by rewrite length_insert|]. intros j c' Hj. rewrite filter_app, length_app.
  destruct (decide (j = Z.to_nat k)) as [->|Hne].
  - rewrite list_lookup_insert_eq in Hj by lia. injection Hj as <-. destruct (Hc (Z.to_nat k) c Hbc) as (? & ? & ?).
    rewrite (filter_cons_True (fun y => sector_of g sx y = Z.of_nat (Z.to_nat k))) by (fold k; lia). cbn [length]. destruct c as [s r]. destruct Hinc as [-> | ->]; cbn in *; lia.
  - rewrite list_lookup_insert_ne in Hj by done. destruct (Hc j c' Hj) as (? & ? & ?). split_and!; try done; lia.
Qed.

Lemma count_ok bm g sx sz b0 : 0 < g -> 0 < sx -> BlockMapOk bm -> columns bm = g * sx -> rows bm = g * sz -> b0 = replicate (Z.to_nat (sx * sz)) (0, 0) ->
  exists b, each (count_cell bm g sx) (cells_of (columns bm) (rows bm)) b0 = Val b /\ length b = Z.to_nat (sx * sz) /\
    forall k c, b !! k = Some c -> 0 <= c.1 <= g * g /\ 0 <= c.2 <= g * g.
Proof.
  intros Hg Hsx Hbm EC ER ->. set (b0 := replicate _ _). destruct (each_ok (count_cell bm g sx) (counted g sx b0) (cells_of (columns bm) (rows bm)) b0) as (b & -> & Hb).
  - split; [done|]. intros k c [-> _]%lookup_replicate. cbn. lia.
  - intros [x z] done b Hin Hcnt. apply cells_of_elem in Hin as [Hx Hz]. cbn in Hx, Hz. destruct (cell_at_some bm x z Hbm Hx Hz) as (c & Ec).
    assert (length b0 = Z.to_nat (sx * sz)) as Hl0 by apply length_replicate.
    assert (forall inc, (inc = (fun '(s, r) => (s + 1, r)) \/ inc = (fun '(s, r) => (s, r + 1))) ->
      exists b', count_at (z / g * sx + x / g) inc b = Val b' /\ counted g sx b0 (done ++ [(x, z)]) b') as Hinc.
    { intros inc Hi. apply (count_at_ok g sx sz b0 done b (x, z) inc); try done; cbn; lia. }
    unfold count_cell, IsStruct, IsBlocked. rewrite Ec. cbn [mbind option_bind of_option]. rewrite bind_Val. case_match; [apply Hinc; auto|].
    rewrite bind_Val. case_match; [apply Hinc; auto|]. eexists. split; [done|]. by apply counted_keep.
  - exists b. destruct Hb as [Hl Hc]. split_and!; [done|rewrite Hl; apply length_replicate|]. intros k c Hk. destruct (Hc k c Hk) as (H1 & H2 & H3).
    rewrite EC, ER in H3. pose proof (sector_squares g sx sz (Z.of_nat k) Hg Hsx). nia.
Qed.

(** ** What a passable sector costs *)

Definition cost_okb (c : float) : bool := valid_binary 24 128 c && match c with S754_nan => false | _ => true end && (0 <=? okey c).

Definition sector_costs_ok (g : Z) : bool :=
  forallb (fun s => forallb (fun r => cost_okb (sector_cost g (s, r)) && negb (flt COST_BLOCKED (sector_cost g (s, r)))) (seqZ 0 (g * g + 1))) (seqZ 0 (g * g + 1)).

Lemma sector_cost_ok g c : g = 2 \/ g = 4 \/ g = 8 -> 0 <= c.1 <= g * g -> 0 <= c.2 <= g * g ->
  cost_ok (sector_cost g c) /\ flt COST_BLOCKED (sector_cost g c) = false.
Proof.
  intros Hg H1 H2. assert (sector_costs_ok g = true) as H by (destruct Hg as [-> | [-> | ->]]; vm_compute; reflexivity).
  unfold sector_costs_ok in H. rewrite forallb_forall in H. specialize (H c.1 ltac:(apply list_elem_of_In, elem_of_seqZ; lia)).
  rewrite forallb_forall in H. specialize (H c.2 ltac:(apply list_elem_of_In, elem_of_seqZ; lia)). destruct c as [s r]. cbn [fst snd] in H.
  apply andb_true_iff in H as [Hc Hb]. apply negb_true_iff in Hb. split; [|done]. unfold cost_okb in Hc. bools. split; [split; [done|]|done]. by destruct (sector_cost g (s, r)).
Qed.

(** ** The path finder *)

Record PFOk (f : CPathFinder) : Prop := {
  pf_x : 1 <= pathMapXSize f;
  pf_y : 1 <= pathMapYSize f;
  pf_mx : moveMapXSize f = pathMapXSize f + 2;
  pf_my : moveMapYSize f = pathMapYSize f + 2;
  pf_square : squareSize f = 32 \/ squareSize f = 64 \/ squareSize f = 128;
  pf_block : length (blockArray f) = Z.to_nat (pathMapXSize f * pathMapYSize f);
  pf_len : length (moveData0 f) = length (moveData1 f);
  pf_data0 : Forall (MoveArrayOk (moveMapXSize f) (moveMapYSize f)) (moveData0 f);
  pf_data1 : Forall (MoveArrayOk (moveMapXSize f) (moveMapYSize f)) (moveData1 f);
  pf_air : MoveArrayOk (moveMapXSize f) (moveMapYSize f) (airMoveArray f);
}.

Lemma map_out_ok {A B} (f : A -> out B) (P : A -> B -> Prop) (l : list A) : (forall a, a ∈ l -> exists b, f a = Val b /\ P a b) ->
  exists k, map_out f l = Val k /\ Forall2 P l k.
Proof.
  induction l as [|a l IH]; intros H; [by exists []|]. destruct (H a ltac:(set_solver)) as (b & Eb & Hb). destruct IH as (k & Ek & Hk); [set_solver|].
  exists (b :: k). cbn [map_out]. rewrite Eb, bind_Val, Ek, bind_Val. split; [done|by constructor].
Qed.

(** The constructor: all arrays hold what the searches need. *)
Lemma CPathFinder_new_ok s sx sz mts : 1 <= sx -> 1 <= sz -> s = 32 \/ s = 64 \/ s = 128 -> Forall (fun sector => size_of sector = sx * sz) mts ->
  exists f, CPathFinder_new s sx sz mts = Val f /\ PFOk f /\ Forall2 (fun sector m => ArrayIs (sx + 2) (sz + 2) (area_base sector) m) mts (GetMoveData f).
Proof.
  intros Hx Hz Hs Hm. unfold CPathFinder_new.
  destruct (map_out_ok (initial_array (sx + 2) (sz + 2)) (fun sector m => ArrayIs (sx + 2) (sz + 2) (area_base sector) m) mts) as (k & -> & Hk).
  { intros sector Hin. apply initial_array_ok; [lia|lia|]. rewrite Forall_forall in Hm. rewrite (Hm sector Hin). lia. }
  rewrite bind_Val. destruct (air_array_ok (sx + 2) (sz + 2)) as (air & -> & Ha); [lia|lia|]. rewrite bind_Val. eexists. split; [done|]. split; [|done].
  assert (Forall (MoveArrayOk (sx + 2) (sz + 2)) k) as Hok.
  { apply Forall_forall. intros m Hin. apply list_elem_of_lookup in Hin as [j Hj]. destruct (Forall2_lookup_r _ _ _ _ _ Hk Hj) as (sector & _ & Hs').
    exists (area_base sector). split; [done|]. intros i _. apply base_ok. }
  constructor; cbn; try done; [by rewrite length_replicate|]. exists (fun _ => COST_BASE). split; [done|]. done.
Qed.

(** The cost of sector [k] after an update. *)
Definition updated (g : Z) (sector : list bool) (b : list (Z * Z)) (k : Z) : float :=
  if default false (sector !! Z.to_nat k) then sector_cost g (default (0, 0) (b !! Z.to_nat k)) else COST_BLOCK.

Lemma updated_ok g sector b k : g = 2 \/ g = 4 \/ g = 8 -> (forall j c, b !! j = Some c -> 0 <= c.1 <= g * g /\ 0 <= c.2 <= g * g) ->
  cost_ok (updated g sector b k) /\ flt COST_BLOCKED (updated g sector b k) = negb (default false (sector !! Z.to_nat k)).
Proof.
  intros Hg Hb. unfold updated. destruct (default false (sector !! Z.to_nat k)); [|done]. cbn. apply sector_cost_ok; [done|..];
    (destruct (b !! Z.to_nat k) as [c|] eqn:Ec; [apply (Hb _ _ Ec)|cbn; nia]).
Qed.

Lemma update_arrays_ok X Y g b mts ms : 3 <= X -> 3 <= Y -> length b = Z.to_nat ((X - 2) * (Y - 2)) ->
  Forall (fun sector => size_of sector = (X - 2) * (Y - 2)) mts -> Forall (MoveArrayOk X Y) ms -> length mts = length ms ->
  exists ms', update_arrays X Y g b mts ms = Val ms' /\ Forall2 (fun sector m => ArrayIs X Y (updated g sector b) m) mts ms'.
Proof.
  intros HX HY Hb Hm. revert ms. induction Hm as [|sector mts Hs Hm IH]; intros [|m ms] Hok Hl; try done; [by exists []|].
  inversion Hok as [|? ? Hok1 Hok2]; subst. cbn.
  destruct (refill_ok X Y (area_cost g sector b) (updated g sector b) m HX HY) as (m' & -> & Hm'); [|done|].
  { intros k Hk. unfold area_cost, updated. rewrite has_area_ok by lia. rewrite bind_Val. destruct (default false (sector !! Z.to_nat k)); [|done].
    destruct (lookup_lt_is_Some_2 b (Z.to_nat k)) as [c ->]; [lia|done]. }
  cbn. destruct (IH ms Hok2) as (ms' & -> & Hms'); [by injection Hl|]. cbn. eexists. split; [done|by constructor].
Qed.

(** The state an update leaves, given the counted blocks and the refilled arrays. *)
Definition next_data (f : CPathFinder) (b : list (Z * Z)) (arrays : list (gmap Z float)) : CPathFinder :=
  let f := f <| isAreaUpdated := true |> <| blockArray := b |> in
  (if pMoveData f then f <| moveData0 := arrays |> else f <| moveData1 := arrays |>) <| pMoveData ::= negb |>.

Lemma UpdateAreaUsers_eq f bm mts : isAreaUpdated f = false ->
  UpdateAreaUsers bm mts f =
    (b ← each (count_cell bm (squareSize f / 16) (pathMapXSize f)) (cells_of (columns bm) (rows bm)) ((fun _ => (0, 0)) <$> blockArray f);
     arrays ← update_arrays (moveMapXSize f) (moveMapYSize f) (squareSize f / 16) b mts (GetNextMoveData f);
     Val (next_data f b arrays)).
Proof. intros H. unfold UpdateAreaUsers. rewrite H. reflexivity. Qed.

Lemma next_data_ok f b arrays : PFOk f -> length b = Z.to_nat (pathMapXSize f * pathMapYSize f) -> length arrays = length (moveData0 f) ->
  Forall (MoveArrayOk (moveMapXSize f) (moveMapYSize f)) arrays ->
  PFOk (next_data f b arrays) /\ GetMoveData (next_data f b arrays) = arrays /\ GetNextMoveData (next_data f b arrays) = GetMoveData f.
Proof.
  intros [] Hb Hl Ha. unfold next_data, GetMoveData, GetNextMoveData. destruct f as [? ? ? ? ? ? ? [] ? ? ? ?]; cbn in *; (split; [constructor; cbn; done || lia|done]).
Qed.

(** C35. [UpdateAreaUsers] prepares the arrays for the searches: every array, in use or not, stays one the searches
    are defined on (each cell a nonnegative cost, the border blocked).  In the arrays that come
    into use a cell inside the map is impassable exactly if its sector has no area for the mobile type: structures and
    reservations make it dearer but never close it.  The arrays the running queries read are not
    written. *)
Theorem UpdateAreaUsers_arrays f bm mts : PFOk f -> isAreaUpdated f = false -> BlockMapOk bm ->
  columns bm = squareSize f / 16 * pathMapXSize f -> rows bm = squareSize f / 16 * pathMapYSize f ->
  Forall (fun sector => size_of sector = pathMapXSize f * pathMapYSize f) mts -> length mts = length (moveData0 f) ->
  exists f', UpdateAreaUsers bm mts f = Val f' /\ PFOk f' /\ isAreaUpdated f' = true /\
    GetNextMoveData f' = GetMoveData f /\
    Forall2 (fun sector m => forall n, in_map (moveMapXSize f) (moveMapYSize f) n -> exists c, m !! n = Some c /\ cost_ok c /\
      flt COST_BLOCKED c = negb (bool_decide (interior (moveMapXSize f) (moveMapYSize f) n) && default false (sector !! Z.to_nat (cell_index2 (moveMapXSize f) n))))
      mts (GetMoveData f').
Proof.
  intros HP Hu Hbm EC ER Hmts Hlen. rewrite UpdateAreaUsers_eq by done. pose proof HP as [Hx Hy Hmx Hmy Hsq Hbl Hml H0 H1 Hair].
  set (g := squareSize f / 16) in *. assert (g = 2 \/ g = 4 \/ g = 8) as Hg by (unfold g; destruct Hsq as [-> | [-> | ->]]; auto).
  assert ((fun _ => (0, 0)) <$> blockArray f = replicate (Z.to_nat (pathMapXSize f * pathMapYSize f)) (0, 0)) as ->.
  { rewrite <-Hbl. generalize (blockArray f). intros l. induction l as [|? ? IHl]; [done|]. cbn. by rewrite IHl. }
  destruct (count_ok bm g (pathMapXSize f) (pathMapYSize f) (replicate (Z.to_nat (pathMapXSize f * pathMapYSize f)) (0, 0))) as (b & -> & Hb & Hbc); try done; try lia.
  rewrite bind_Val. assert ((moveMapXSize f - 2) * (moveMapYSize f - 2) = pathMapXSize f * pathMapYSize f) as Earea by (rewrite Hmx, Hmy; lia).
  destruct (update_arrays_ok (moveMapXSize f) (moveMapYSize f) g b mts (GetNextMoveData f)) as (ms & -> & Hms); try lia.
  { by rewrite Earea. }
  { unfold GetNextMoveData. by destruct (pMoveData f). }
  { unfold GetNextMoveData. destruct (pMoveData f); lia. }
  destruct (next_data_ok f b ms) as (HP' & E1 & E2); [done|done|apply Forall2_length in Hms; lia|..].
  { apply Forall_forall. intros m Hin. apply list_elem_of_lookup in Hin as [j Hj]. destruct (Forall2_lookup_r _ _ _ _ _ Hms Hj) as (sector & _ & Hs').
    exists (updated g sector b). split; [done|]. intros k _. by apply updated_ok. }
  rewrite bind_Val. eexists. split; [done|]. split; [done|]. split; [by destruct f as [? ? ? ? ? ? ? [] ? ? ? ?]|]. split; [done|].
  rewrite E1. eapply Forall2_impl; [exact Hms|]. intros sector m Hm n Hn. eexists. split; [by apply Hm|].
  case_decide as Hi; [rewrite bool_decide_true by done|by rewrite bool_decide_false]. cbn [andb]. by apply updated_ok.
Qed.

(** Two squares, the second without an area for the mobile type. *)
Lemma UpdateAreaUsers_arrays_witness : exists f f' m, CPathFinder_new 32 2 1 [[true; false]] = Val f /\
  UpdateAreaUsers (SBlockingMap_new 8 4) [[true; false]] (SetAreaUpdated false f) = Val f' /\ GetMoveData f' = [m] /\ m !! 6 = Some COST_BLOCK.
Proof.
  destruct (CPathFinder_new_ok 32 2 1 [[true; false]]) as (f & E & HP & _); [done|done|auto|by apply Forall_singleton|].
  vm_compute in E. injection E as <-.
  eassert (PFOk (SetAreaUpdated false _)) as HP'.
  { destruct HP as [H1 H2 H3 H4 H5 H6 H7 H8 H9 H10]. constructor; [exact H1|exact H2|exact H3|exact H4|exact H5|exact H6|exact H7|exact H8|exact H9|exact H10]. }
  destruct (UpdateAreaUsers_arrays _ (SBlockingMap_new 8 4) [[true; false]] HP') as (f' & E' & _); [done|by vm_compute|done|done|by apply Forall_singleton|done|].
  vm_compute in E'. injection E' as <-. eexists _, _, _. split; [vm_compute; reflexivity|]. split; [vm_compute; reflexivity|]. split; [reflexivity|vm_compute; reflexivity].
Defined.
