(* ===== verification/PathLine.v ===== *)
(** Straight lines on the path map: the line draw of [RefinePath] (terrain/path/MicroPather.cpp) and of
    [IsSafeLine] (terrain/path/QueryLineMap.cpp), and what [FillPathInfo] keeps of a path.

    Both functions walk the cells of a line with the error term [err] and stop at the first cell that
    fails their test.  The walk takes fuel; a walk that would not end is undefined.
    Coordinates are those of maps whose cells are counted by an [int], so no sum of
    two of them overflows. *)

From S2P Require Import Prelude Outcome Float32 FloatOrder OpenQueue MicroPather PathFinder.

(** ** The line draw *)

(** [bad x y]: the cell ends the walk with [false]. *)
Fixpoint draw (fuel : nat) (bad : Z -> Z -> out bool) (x1 y1 dx dy sx sy x y err : Z) : out bool :=
  match fuel with
  | O => UB
  | S fuel' =>
      let e2 := 2 * err in
      if (dy <=? e2) && (x =? x1) then Val true
      else
        let '(err, x) := if dy <=? e2 then (err + dy, x + sx) else (err, x) in
        if (e2 <=? dx) && (y =? y1) then Val true
        else
          let '(err, y) := if e2 <=? dx then (err + dx, y + sy) else (err, y) in
          stop ← bad x y;
          if (stop : bool) then Val false else draw fuel' bad x1 y1 dx dy sx sy x y err
  end.

Definition draw_line (bad : Z -> Z -> out bool) (x0 y0 x1 y1 : Z) : out bool :=
  let dx := Z.abs (x1 - x0) in let sx := if x0 <? x1 then 1 else -1 in
  let dy := - Z.abs (y1 - y0) in let sy := if y0 <? y1 then 1 else -1 in
  draw (S (Z.to_nat (dx - dy))) bad x1 y1 dx dy sx sy x0 y0 (dx + dy).

(** ** Refining a path *)

(** 1e-2f and 1e-1f. *)
Definition THREAT_EPSILON : float := S754_finite false 10737418 (-30).
Definition MOVE_EPSILON : float := S754_finite false 13421773 (-27).

Definition CanMoveNode2Index (p : CMicroPather) (node : Z) : out Z :=
  b ← CantMoveTo p node; if (b : bool) then Val (-1) else nd ← deref (pathNodeMem p) node; Val (index2 nd).

(** [(idx < 0) || (threatArray[idx] > THREAT_EPSILON) || (moveFun(idx) > moveCost)]. *)
Definition rough (f : CPathFinder) (p : CMicroPather) (moveCost : float) (x y : Z) : out bool :=
  idx ← CanMoveNode2Index p (MoveXY2MoveNode f x y);
  if idx <? 0 then Val true
  else t ← deref (threatArray p) idx;
       if flt THREAT_EPSILON t then Val true else mv ← moveFun p idx; Val (flt moveCost mv).

Definition IsStraightLine (f : CPathFinder) (p : CMicroPather) (moveCost : float) (x0 y0 index : Z) : out bool :=
  let '(x1, y1) := PathIndex2MoveXY f index in draw_line (rough f p moveCost) x0 y0 x1 y1.

(** [while (l <= r)]: the binary search. *)
Fixpoint bisect (fuel : nat) (line : Z -> out bool) (path : list Z) (l r : Z) : out Z :=
  match fuel with
  | O => UB
  | S fuel' =>
      if r <? l then Val (l - 1)
      else
        let m := (l + r) / 2 in
        match path !! Z.to_nat m with
        | None => UB
        | Some i => b ← line i; if (b : bool) then bisect fuel' line path (m + 1) r else bisect fuel' line path l (m - 1)
        end
  end.

Definition RefinePath (f : CPathFinder) (p : CMicroPather) (path : list Z) : out Z :=
  match path with
  | [] => UB
  | i0 :: _ =>
      t ← deref (threatArray p) i0;
      if flt THREAT_EPSILON t then Val 0
      else
        let '(x0, y0) := PathIndex2MoveXY f i0 in
        mv ← moveFun p i0;
        bisect (S (length path)) (IsStraightLine f p (fadd mv MOVE_EPSILON) x0 y0) path 1 (size_of path - 1)
  end.

(** ** Positions *)

(** The centre of a path cell; [y] is set from the height map. *)
Definition PathIndex2Pos (f : CPathFinder) (index : Z) : float * float :=
  let z := index / pathMapXSize f in
  (float_of_Z ((index - z * pathMapXSize f) * squareSize f + squareSize f / 2), float_of_Z (z * squareSize f + squareSize f / 2)).

(** [SAreaData]: the height map and its width. *)
Record SAreaData := { heightMap : list float; heightMapXSize : Z }.

(** [int(f)]: defined when the truncated value is an [int]. *)
Definition to_int (x : float) : out Z :=
  match ftrunc x with Some z => if (- 2 ^ 31 <=? z) && (z <? 2 ^ 31) then Val z else UB | None => UB end.

(** [heightMap[int(posZ) / SQUARE_SIZE * heightMapXSize + int(posX) / SQUARE_SIZE]]. *)
Definition GetElevationAt (ar : SAreaData) (posX posZ : float) : out float :=
  z ← to_int posZ; x ← to_int posX;
  let i := Z.quot z 8 * heightMapXSize ar + Z.quot x 8 in
  if 0 <=? i then match heightMap ar !! Z.to_nat i with Some h => Val h | None => UB end else UB.

(** [CPathInfo]: [posPath] as points (x, y, z). *)
Record CPathInfo := { posPath : list (float * float * float); ipath : list Z; istart : Z; isEndPos : bool }.
#[export] Instance CPathInfo_eta : Eta CPathInfo := fun i => Build_CPathInfo (posPath i) (ipath i) (istart i) (isEndPos i).

Definition CPathInfo_new (last : bool) : CPathInfo := {| posPath := []; ipath := []; istart := 0; isEndPos := last |}.
Definition CPathInfo_Clear (i : CPathInfo) : CPathInfo := i <| posPath := [] |> <| ipath := [] |>.

(** [pos = PathIndex2Pos(index); pos.y = GetElevationAt(pos.x, pos.z); posPath.push_back(pos)]. *)
Definition push_pos (f : CPathFinder) (ar : SAreaData) (index : Z) (ps : list (float * float * float)) : out (list (float * float * float)) :=
  let '(x, z) := PathIndex2Pos f index in
  y ← GetElevationAt ar x z; Val (ps ++ [(x, y, z)]).

Definition FillPathInfo (f : CPathFinder) (ar : SAreaData) (p : CMicroPather) (iPath : CPathInfo) : out CPathInfo :=
  if isEndPos iPath then
    match last (ipath iPath) with
    | None => UB
    | Some i => ps ← push_pos f ar i (posPath iPath); Val (iPath <| posPath := ps |>)
    end
  else
    start ← RefinePath f p (ipath iPath);
    ps ← each (push_pos f ar) (drop (Z.to_nat start) (ipath iPath)) (posPath iPath);
    Val (iPath <| istart := start |> <| posPath := ps |>).
