(* ===== verification/PathLineInv.v ===== *)
(** What the line draw walks over, and what [RefinePath] makes of it.

    The cells drawn from one point to another are linked by king's moves, end at the target, stay in
    the box of the two points and within half a cell of the ideal segment; the walk ends after at
    most one iteration per row and column. *)

From S2P Require Import Prelude Outcome Float32 FloatOrder OpenQueue OpenQueueSpec MicroPather PathFinder PatherInv PatherLoop PatherResult PatherRules PatherSearch PatherCorrect PathFinderInv PathLine.

(** ** The cells of a line, as steps from its start *)

(** Half a cell off the segment to [(dx, D)] at most. *)
Definition near (dx D i j : Z) : Prop := 0 <= i <= dx /\ 0 <= j <= D /\ 2 * Z.abs (i * D - j * dx) <= Z.max dx D.

Definition moves_x (dx D i j : Z) : bool := - D <=? 2 * ((j + 1) * dx - (i + 1) * D).
Definition moves_y (dx D i j : Z) : bool := 2 * ((j + 1) * dx - (i + 1) * D) <=? dx.

Fixpoint trace (fuel : nat) (dx D i j : Z) : list (Z * Z) :=
  match fuel with
  | O => []
  | S fuel' =>
      if (moves_x dx D i j && (i =? dx)) || (moves_y dx D i j && (j =? D)) then []
      else
        let i' := if moves_x dx D i j then i + 1 else i in
        let j' := if moves_y dx D i j then j + 1 else j in
        (i', j') :: trace fuel' dx D i' j'
  end.

Lemma near_step dx D i j : near dx D i j -> ~ (i = dx /\ j = D) ->
  (moves_x dx D i j = true -> i < dx) /\ (moves_y dx D i j = true -> j < D) /\ (moves_x dx D i j = true \/ moves_y dx D i j = true) /\
  near dx D (if moves_x dx D i j then i + 1 else i) (if moves_y dx D i j then j + 1 else j).
Proof.
  intros (Hi & Hj & Hd) Hne. unfold moves_x, moves_y.
  assert (- D <= 2 * ((j + 1) * dx - (i + 1) * D) -> i < dx) as Hx by (intros Ha; destruct (decide (i = dx)) as [->|]; [|lia]; assert (j < D) by lia; nia).
  assert (2 * ((j + 1) * dx - (i + 1) * D) <= dx -> j < D) as Hy by (intros Ha; destruct (decide (j = D)) as [->|]; [|lia]; assert (i < dx) by lia; nia).
  destruct (Z.leb_spec (- D) (2 * ((j + 1) * dx - (i + 1) * D))) as [Ha|Ha], (Z.leb_spec (2 * ((j + 1) * dx - (i + 1) * D)) dx) as [Hb|Hb]; try lia;
    (split_and!; [auto; try lia|auto; try lia|auto|unfold near; split_and!; try lia]).
Qed.

Lemma near_end dx D i j : near dx D i j -> i = dx -> j = D -> moves_x dx D i j && (i =? dx) || moves_y dx D i j && (j =? D) = true.
Proof. intros (Hi & Hj & Hd) -> ->. rewrite !Z.eqb_refl, !andb_true_r. unfold moves_x, moves_y. apply orb_true_iff. rewrite !Z.leb_le. lia. Qed.

Lemma near_go dx D i j : near dx D i j -> ~ (i = dx /\ j = D) -> moves_x dx D i j && (i =? dx) || moves_y dx D i j && (j =? D) = false.
Proof.
  intros Hn Hne. destruct (near_step dx D i j Hn Hne) as (Hx & Hy & _ & _). apply orb_false_iff. split.
  - destruct (moves_x dx D i j); [|done]. specialize (Hx eq_refl). lia.
  - destruct (moves_y dx D i j); [|done]. specialize (Hy eq_refl). lia.
Qed.

(** Steps by one in a coordinate or in both, up to the last cell. *)
Fixpoint climbs (a : Z * Z) (l : list (Z * Z)) (b : Z * Z) : Prop :=
  match l with
  | [] => a = b
  | c :: l' => (0 <= c.1 - a.1 <= 1 /\ 0 <= c.2 - a.2 <= 1 /\ a <> c) /\ climbs c l' b
  end.

Lemma trace_ok dx D fuel i j : near dx D i j -> (dx - i) + (D - j) < Z.of_nat fuel ->
  climbs (i, j) (trace fuel dx D i j) (dx, D) /\ Forall (fun c => near dx D c.1 c.2) (trace fuel dx D i j).
Proof.
  revert i j. induction fuel as [|fuel IH]; intros i j Hn Hf; [destruct Hn; lia|]. cbn [trace].
  destruct (decide (i = dx /\ j = D)) as [[-> ->]|Hne]; [by rewrite near_end|]. rewrite near_go by done.
  destruct (near_step dx D i j Hn Hne) as (_ & _ & Hor & Hn'). destruct (IH _ _ Hn') as [Hc Hall].
  { destruct (moves_x dx D i j), (moves_y dx D i j); destruct Hor as [?|?]; try done; lia. }
  split; [|by constructor]. split; [|done]. cbn. destruct (moves_x dx D i j), (moves_y dx D i j); destruct Hor as [?|?]; try done; split_and!; try lia; (intros E; injection E; lia).
Qed.

(** ** The walk over the map *)

Definition sign (a b : Z) : Z := if a <? b then 1 else -1.

Section Line.
Context (x0 y0 x1 y1 : Z).
Abbreviation dx := (Z.abs (x1 - x0)).
Abbreviation D := (Z.abs (y1 - y0)).
Definition at_step (c : Z * Z) : Z * Z := (x0 + sign x0 x1 * c.1, y0 + sign y0 y1 * c.2).

Definition line_cells : list (Z * Z) := at_step <$> trace (S (Z.to_nat (dx + D))) dx D 0 0.

(** In the box of the end points. *)
Definition in_box (c : Z * Z) : Prop := Z.min x0 x1 <= c.1 <= Z.max x0 x1 /\ Z.min y0 y1 <= c.2 <= Z.max y0 y1.

Lemma at_box c : near dx D c.1 c.2 -> in_box (at_step c).
Proof.
  intros (Hi & Hj & _). unfold in_box, at_step, sign. cbn. destruct (Z.ltb_spec x0 x1), (Z.ltb_spec y0 y1); lia.
Qed.

Lemma draw_trace (bad : Z -> Z -> out bool) (B : Z -> Z -> bool) fuel i j : near dx D i j -> (dx - i) + (D - j) < Z.of_nat fuel ->
  (forall x y, in_box (x, y) -> bad x y = Val (B x y)) ->
  draw fuel bad x1 y1 dx (- D) (sign x0 x1) (sign y0 y1) (x0 + sign x0 x1 * i) (y0 + sign y0 y1 * j) ((j + 1) * dx - (i + 1) * D) =
    Val (forallb (fun c => negb (B c.1 c.2)) (at_step <$> trace fuel dx D i j)).
Proof.
  intros Hn Hf Hbad. revert i j Hn Hf. induction fuel as [|fuel IH]; intros i j Hn Hf; [destruct Hn; lia|]. cbn [draw trace].
  change (- D <=? 2 * ((j + 1) * dx - (i + 1) * D)) with (moves_x dx D i j). change (2 * ((j + 1) * dx - (i + 1) * D) <=? dx) with (moves_y dx D i j).
  assert ((x0 + sign x0 x1 * i =? x1) = (i =? dx)) as ->.
  { unfold sign. destruct Hn as (? & _). apply eq_true_iff_eq. rewrite !Z.eqb_eq. destruct (Z.ltb_spec x0 x1); lia. }
  assert ((y0 + sign y0 y1 * j =? y1) = (j =? D)) as ->.
  { unfold sign. destruct Hn as (_ & ? & _). apply eq_true_iff_eq. rewrite !Z.eqb_eq. destruct (Z.ltb_spec y0 y1); lia. }
  destruct (decide (i = dx /\ j = D)) as [[Ei Ej]|Hne].
  { rewrite near_end by done. pose proof (near_end dx D i j Hn Ei Ej) as [->|Hy]%orb_true_iff; [done|].
    apply andb_true_iff in Hy as [Hy1 Hy2]. rewrite Hy1, Hy2. destruct (moves_x dx D i j && (i =? dx)); [done|]. by destruct (moves_x dx D i j). }
  rewrite near_go by done. pose proof (near_go dx D i j Hn Hne) as [-> Hy]%orb_false_iff.
  destruct (near_step dx D i j Hn Hne) as (_ & _ & Hor & Hn').
  set (i' := if moves_x dx D i j then i + 1 else i) in *. set (j' := if moves_y dx D i j then j + 1 else j) in *.
  assert ((if moves_x dx D i j then ((j + 1) * dx - (i + 1) * D + - D, x0 + sign x0 x1 * i + sign x0 x1) else ((j + 1) * dx - (i + 1) * D, x0 + sign x0 x1 * i))
    = ((j + 1) * dx - (i' + 1) * D, x0 + sign x0 x1 * i')) as -> by (unfold i'; destruct (moves_x dx D i j); f_equal; lia).
  cbv beta iota. rewrite Hy.
  assert ((if moves_y dx D i j then ((j + 1) * dx - (i' + 1) * D + dx, y0 + sign y0 y1 * j + sign y0 y1) else ((j + 1) * dx - (i' + 1) * D, y0 + sign y0 y1 * j))
    = ((j' + 1) * dx - (i' + 1) * D, y0 + sign y0 y1 * j')) as -> by (unfold j'; destruct (moves_y dx D i j); f_equal; lia).
  cbv beta iota. pose proof (at_box (i', j') Hn') as Hb. unfold at_step in Hb. cbn [fst snd] in Hb. rewrite (Hbad _ _ Hb), bind_Val. cbn [fmap list_fmap forallb at_step fst snd].
  destruct (B (x0 + sign x0 x1 * i') (y0 + sign y0 y1 * j')); [done|]. apply IH; [done|].
  unfold i', j'. destruct (moves_x dx D i j), (moves_y dx D i j); destruct Hor as [?|?]; try done; lia.
Qed.

Lemma near_start : near dx D 0 0.
Proof. unfold near. lia. Qed.

(** The draw answers whether all cells of the line pass. *)
Lemma draw_line_ok (bad : Z -> Z -> out bool) (B : Z -> Z -> bool) : (forall x y, in_box (x, y) -> bad x y = Val (B x y)) ->
  draw_line bad x0 y0 x1 y1 = Val (forallb (fun c => negb (B c.1 c.2)) line_cells).
Proof.
  intros Hbad. unfold draw_line, line_cells. fold (sign x0 x1) (sign y0 y1). replace (dx - - D) with (dx + D) by lia.
  pose proof (draw_trace bad B (S (Z.to_nat (dx + D))) 0 0 near_start ltac:(lia) Hbad) as H. rewrite !Z.mul_0_r, !Z.add_0_r in H. rewrite <-H. f_equal. lia.
Qed.

Lemma line_cells_box c : c ∈ line_cells -> in_box c.
Proof.
  intros (s & -> & Hs)%list_elem_of_fmap. apply at_box. destruct (trace_ok dx D (S (Z.to_nat (dx + D))) 0 0 near_start ltac:(lia)) as [_ H].
  by eapply Forall_forall in H.
Qed.
End Line.

(** King's moves from [a] through [l] to [b]. *)
Fixpoint linked (a : Z * Z) (l : list (Z * Z)) (b : Z * Z) : Prop :=
  match l with
  | [] => a = b
  | c :: l' => (Z.abs (c.1 - a.1) <= 1 /\ Z.abs (c.2 - a.2) <= 1 /\ a <> c) /\ linked c l' b
  end.

(** The rasterisation of a segment: linked, and every cell at most half a cell away from the segment. *)
Definition Raster (x0 y0 x1 y1 : Z) (l : list (Z * Z)) : Prop :=
  linked (x0, y0) l (x1, y1) /\
  Forall (fun c => in_box x0 y0 x1 y1 c /\ 2 * Z.abs ((c.1 - x0) * (y1 - y0) - (c.2 - y0) * (x1 - x0)) <= Z.max (Z.abs (x1 - x0)) (Z.abs (y1 - y0))) l.

Lemma climbs_linked x0 y0 x1 y1 a l b : climbs a l b -> linked (at_step x0 y0 x1 y1 a) (at_step x0 y0 x1 y1 <$> l) (at_step x0 y0 x1 y1 b).
Proof.
  revert a. induction l as [|c l IH]; intros a; [by intros ->|]. intros [(H1 & H2 & H3) Hl]. split; [|by apply IH]. unfold at_step, sign. cbn.
  destruct (Z.ltb_spec x0 x1), (Z.ltb_spec y0 y1); (split_and!; [lia|lia|]); intros [= E1 E2]; apply H3; destruct a, c; cbn in *; f_equal; lia.
Qed.

Lemma line_raster x0 y0 x1 y1 : Raster x0 y0 x1 y1 (line_cells x0 y0 x1 y1).
Proof.
  set (dx := Z.abs (x1 - x0)). set (D := Z.abs (y1 - y0)).
  destruct (trace_ok dx D (S (Z.to_nat (dx + D))) 0 0 (near_start x0 y0 x1 y1) ltac:(lia)) as [Hc Hall]. split.
  - apply (climbs_linked x0 y0 x1 y1) in Hc. unfold at_step, sign, dx, D in Hc. cbn in Hc. rewrite !Z.mul_0_r, !Z.add_0_r in Hc.
    destruct (Z.ltb_spec x0 x1), (Z.ltb_spec y0 y1); cbn in Hc; (replace (x1, y1) with (x0 + (if x0 <? x1 then 1 else -1) * dx, y0 + (if y0 <? y1 then 1 else -1) * D)); 
      try (unfold dx, D; destruct (Z.ltb_spec x0 x1), (Z.ltb_spec y0 y1); f_equal; lia).
    all: unfold line_cells; fold dx D; unfold at_step, sign, dx, D in *; destruct (Z.ltb_spec x0 x1), (Z.ltb_spec y0 y1); try lia; exact Hc.
  - apply Forall_forall. intros c Hc'. split; [by apply line_cells_box|]. apply list_elem_of_fmap in Hc' as (s & -> & Hs). eapply Forall_forall in Hall as (Hi & Hj & Hd); [|exact Hs].
    unfold at_step, sign. cbn. fold dx D. unfold dx, D in *. destruct (Z.ltb_spec x0 x1), (Z.ltb_spec y0 y1); nia.
Qed.

(** C37. The line draw of [RefinePath] and [IsSafeLine], for any cell test that is defined in the box of the two points: the walk
    ends, and it answers whether every cell of the line passes the test.  The
    cells of the line depend on the two points only; they lead from the start to the target by
    king's moves and lie within half a cell of the ideal segment. *)
Theorem draw_line_raster x0 y0 x1 y1 bad B : (forall x y, in_box x0 y0 x1 y1 (x, y) -> bad x y = Val (B x y)) ->
  draw_line bad x0 y0 x1 y1 = Val (forallb (fun c => negb (B c.1 c.2)) (line_cells x0 y0 x1 y1)) /\
  Raster x0 y0 x1 y1 (line_cells x0 y0 x1 y1).
Proof. intros H. split; [by apply draw_line_ok|apply line_raster]. Qed.

Lemma draw_line_raster_witness : draw_line (fun x y => Val (x + 1 =? y)) 5 1 1 3 = Val false /\ line_cells 5 1 1 3 = [(4, 2); (3, 2); (2, 3); (1, 3)].
Proof.
  split; [|reflexivity]. destruct (draw_line_raster 5 1 1 3 (fun x y => Val (x + 1 =? y)) (fun x y => x + 1 =? y)) as [-> _]; [done|]. reflexivity.
Defined.

(** ** Refining *)

(** The path finder that made the pather. *)
Record GraphOf (f : CPathFinder) (p : CMicroPather) : Prop := {
  gr_px : pathMapXSize f = mapSizeX p - 2;
  gr_mx : moveMapXSize f = mapSizeX p;
}.

Lemma index2_xy X Y n : 3 <= X -> interior X Y n -> (cell_index2 X n / (X - 2), cell_index2 X n `mod` (X - 2)) = (cell_y X n - 1, cell_x X n - 1).
Proof.
  intros HX [Hx Hy]. unfold cell_index2. replace ((cell_y X n - 1) * (X - 2) + cell_x X n - 1) with ((cell_x X n - 1) + (cell_y X n - 1) * (X - 2)) by lia.
  rewrite Z.div_add, Z.mod_add, Z.div_small, Z.mod_small by lia. f_equal.
Qed.

(** From a path index to the cell of the move map it names, and back to the node. *)
Lemma PathIndex2MoveXY_cell f p n : GridOk p -> GraphOf f p -> inside p n ->
  PathIndex2MoveXY f (cell_index2 (mapSizeX p) n) = (cell_x (mapSizeX p) n, cell_y (mapSizeX p) n).
Proof.
  intros [HX HY _] [Ep _] Hn. unfold PathIndex2MoveXY. rewrite Ep. pose proof (index2_xy _ _ n HX Hn) as [= E1 E2].
  rewrite Z.mod_eq in E2 by lia. rewrite E1 in E2 |- *. f_equal; lia.
Qed.

Lemma MoveXY2MoveNode_cell f p n : GraphOf f p -> MoveXY2MoveNode f (cell_x (mapSizeX p) n) (cell_y (mapSizeX p) n) = n.
Proof. intros [_ Em]. unfold MoveXY2MoveNode. rewrite Em. symmetry. apply cell_split. Qed.

Section Refine.
Context (f : CPathFinder) (p : CMicroPather) (E : Z -> bool) (HP : PatherOk p E) (Hf : GraphOf f p).
Context (HT : TerrainOk p) (Hth : ThreatOk p) (Hmv : fun_ok p (moveFun p)).
Abbreviation X := (mapSizeX p).
Abbreviation i2 := (cell_index2 (mapSizeX p)).

(** A cell the line may go over: passable, safe, and not dearer to move on than [mc]. *)
Definition easy (mc : float) (n : Z) : Prop :=
  CantMoveTo p n = Val false /\ (exists t, threatArray p !! i2 n = Some t /\ flt THREAT_EPSILON t = false) /\ (exists mv, moveFun p (i2 n) = Val mv /\ flt mc mv = false).

Lemma rough_ok mc x y : 1 <= x <= mapSizeX p - 2 -> 1 <= y <= mapSizeY p - 2 ->
  exists b, rough f p mc x y = Val b /\ (b = false <-> easy mc (y * X + x)).
Proof.
  intros Hx Hy. pose proof (po_grid _ _ HP) as [HX HY _]. unfold rough, CanMoveNode2Index. pose proof (inner_cell X (mapSizeY p) HX HY y x Hy Hx) as (Hin & _ & Hrange).
  unfold MoveXY2MoveNode. rewrite (gr_mx _ _ Hf). set (n := y * X + x) in *. destruct (CantMoveTo_ok p n HT) as (b & Eb & _); [split; apply Hrange|].
  rewrite Eb, bind_Val. unfold easy. rewrite Eb. destruct b.
  { rewrite bind_Val. exists true. split; [done|]. split; [done|]. by intros [? _]. }
  destruct (proj2 (po_dom _ _ HP n)) as [nd Hnd]; [split; apply Hrange|]. rewrite (deref_Some _ _ _ Hnd), !bind_Val.
  destruct (po_node _ _ HP n nd Hnd) as ((_ & _ & ->) & _ & _). pose proof (index2_bounds X (mapSizeY p) n Hin) as Hi2. rewrite (proj2 (Z.ltb_ge _ _)) by lia.
  destruct (Hth n Hin) as (t & Et & _). rewrite (deref_Some _ _ _ Et), bind_Val. destruct (Hmv n Hin) as (mv & Emv & _). rewrite Emv, bind_Val, Et.
  destruct (flt THREAT_EPSILON t) eqn:Eth.
  { exists true. split; [done|]. split; [done|]. intros (_ & (t' & [= <-] & Ht') & _). congruence. }
  exists (flt mc mv). naive_solver.
Qed.

(** The straight line from one cell to another, the first the start of the path. *)
Definition straight (a b : Z) : Prop := exists mv, moveFun p (i2 a) = Val mv /\
  Forall (fun c => easy (fadd mv MOVE_EPSILON) (c.2 * X + c.1)) (line_cells (cell_x X a) (cell_y X a) (cell_x X b) (cell_y X b)).

Lemma straight_line a b mv : inside p a -> inside p b -> moveFun p (i2 a) = Val mv ->
  exists s, IsStraightLine f p (fadd mv MOVE_EPSILON) (cell_x X a) (cell_y X a) (i2 b) = Val s /\ (s = true <-> straight a b).
Proof.
  intros Ha Hb Hm. pose proof (po_grid _ _ HP) as HG. unfold IsStraightLine. rewrite (PathIndex2MoveXY_cell f p b HG Hf Hb). set (mc := fadd mv MOVE_EPSILON).
  assert (forall x y, in_box (cell_x X a) (cell_y X a) (cell_x X b) (cell_y X b) (x, y) -> 1 <= x <= mapSizeX p - 2 /\ 1 <= y <= mapSizeY p - 2) as Hbox.
  { intros x y [Hx Hy]. cbn in Hx, Hy. destruct Ha, Hb. lia. }
  rewrite (draw_line_ok _ _ _ _ _ (fun x y => match rough f p mc x y with Val b => b | _ => true end)).
  - eexists. split; [done|]. rewrite <-Is_true_true, forallb_True, Forall_forall. unfold straight. setoid_rewrite Forall_forall. fold mc. split.
    + intros H. exists mv. split; [done|]. intros [x y] Hc. specialize (H _ Hc). cbn in *. destruct (Hbox x y (line_cells_box _ _ _ _ _ Hc)) as [Hx Hy].
      destruct (rough_ok mc x y Hx Hy) as (r & Er & Hr). rewrite Er in H. apply Hr. by destruct r.
    + intros (mv' & Hm' & H) [x y] Hc. rewrite Hm in Hm'. injection Hm' as <-. specialize (H _ Hc). cbn in *. destruct (Hbox x y (line_cells_box _ _ _ _ _ Hc)) as [Hx Hy].
      destruct (rough_ok mc x y Hx Hy) as (r & Er & Hr). rewrite Er. apply Hr in H as ->. done.
  - intros x y Hin. destruct (Hbox x y Hin) as [Hx Hy]. by destruct (rough_ok mc x y Hx Hy) as (r & -> & _).
Qed.
End Refine.

(** The binary search stops where a yes is followed by a no, or at an end. *)
Lemma bisect_ok (line : Z -> out bool) (path : list Z) (b : Z -> bool) fuel l r : (forall m i, path !! Z.to_nat m = Some i -> 1 <= m -> line i = Val (b m)) ->
  1 <= l -> r < size_of path -> l <= r + 1 -> r - l + 1 < Z.of_nat fuel -> (l = 1 \/ b (l - 1) = true) -> (r = size_of path - 1 \/ b (r + 1) = false) ->
  exists k, bisect fuel line path l r = Val k /\ l - 1 <= k <= r /\ (k = 0 \/ b k = true) /\ (k = size_of path - 1 \/ b (k + 1) = false).
Proof.
  intros Hline. revert l r. induction fuel as [|fuel IH]; intros l r Hl Hr Hlr Hfuel Hyes Hno; [lia|]. cbn [bisect]. unfold size_of in *.
  destruct (Z.ltb_spec r l).
  { exists (l - 1). assert (r = l - 1) as -> by lia. split_and!; try done; try lia. destruct Hyes as [->|?]; [by left|by right]. }
  pose proof (Z.div_mod (l + r) 2 ltac:(lia)) as Hm. pose proof (Z.mod_pos_bound (l + r) 2 ltac:(lia)) as Hm'. set (m := (l + r) / 2) in *.
  destruct (lookup_lt_is_Some_2 path (Z.to_nat m)) as [i Hi]; [lia|]. rewrite Hi, (Hline m i Hi ltac:(lia)), bind_Val. destruct (b m) eqn:Eb.
  - destruct (IH (m + 1) r) as (k & -> & Hk & H1 & H2); try lia; try done; [right; by replace (m + 1 - 1) with m by lia|]. exists k. split_and!; try done; lia.
  - destruct (IH l (m - 1)) as (k & -> & Hk & H1 & H2); try lia; try done; [right; by replace (m - 1 + 1) with m by lia|]. exists k. split_and!; try done; lia.
Qed.

(** [RefinePath] on a path of cells inside the map: it is defined and ends; the
    straight line from the start to the cell it answers is free, and to the cell after it is not, unless the
    path ends there.  A start under threat is answered with 0. *)
Lemma RefinePath_ok f p E cells a rest : PatherOk p E -> GraphOf f p -> TerrainOk p -> ThreatOk p -> fun_ok p (moveFun p) ->
  cells = a :: rest -> Forall (inside p) cells ->
  exists k, RefinePath f p (cell_index2 (mapSizeX p) <$> cells) = Val k /\ 0 <= k < size_of cells /\
    (0 < k -> exists b, cells !! Z.to_nat k = Some b /\ straight p a b) /\
    (forall b t, cells !! Z.to_nat (k + 1) = Some b -> threatArray p !! cell_index2 (mapSizeX p) a = Some t -> flt THREAT_EPSILON t = false -> ~ straight p a b).
Proof.
  intros HP Hf HT Hth Hmv Hc Hin. set (i2 := cell_index2 (mapSizeX p)). subst cells. pose proof (Forall_inv Hin) as Ha. cbn [fmap list_fmap RefinePath]. fold i2.
  destruct (Hth a Ha) as (t & Et & _). fold i2 in Et. rewrite (deref_Some _ _ _ Et), bind_Val. destruct (flt THREAT_EPSILON t) eqn:Eth.
  { exists 0. split_and!; try done. intros b t' _ Ht' Hle. congruence. }
  assert (PathIndex2MoveXY f (i2 a) = (cell_x (mapSizeX p) a, cell_y (mapSizeX p) a)) as -> by exact (PathIndex2MoveXY_cell f p a (po_grid _ _ HP) Hf Ha). destruct (Hmv a Ha) as (mv & Emv & _). fold i2 in Emv. rewrite Emv, bind_Val.
  set (path := i2 a :: (i2 <$> rest)). set (line := IsStraightLine f p (fadd mv MOVE_EPSILON) (cell_x (mapSizeX p) a) (cell_y (mapSizeX p) a)).
  assert (forall n, inside p n -> exists s, line (i2 n) = Val s /\ (s = true <-> straight p a n)) as Hst by (intros n Hn; exact (straight_line f p E HP Hf HT Hth Hmv a n mv Ha Hn Emv)).
  set (b := fun m => match path !! Z.to_nat m with Some i => match line i with Val s => s | _ => false end | None => false end).
  assert (forall m i, path !! Z.to_nat m = Some i -> exists n, (a :: rest) !! Z.to_nat m = Some n /\ inside p n /\ i = i2 n) as Hpath.
  { intros m i Hi. change path with (i2 <$> a :: rest) in Hi. rewrite list_lookup_fmap in Hi. apply fmap_Some in Hi as (n & Hn & ->). exists n. split_and!; try done.
    eapply Forall_lookup_1; [exact Hin|done]. }
  destruct (bisect_ok line path b (S (length path)) 1 (size_of path - 1)) as (k & Ek & Hk & Hyes & Hno); try (unfold size_of; cbn; lia); try auto.
  { intros m i Hi _. unfold b. rewrite Hi. destruct (Hpath m i Hi) as (n & _ & Hn & ->). destruct (Hst n Hn) as (s & Es & _). by rewrite Es. }
  assert (size_of path = size_of (a :: rest)) as Esz by (unfold size_of, path; cbn; by rewrite length_fmap).
  exists k. rewrite Ek, <-Esz. split_and!; [done|lia|lia|..].
  - intros Hpos. destruct Hyes as [->|Hb]; [lia|]. unfold b in Hb. destruct (path !! Z.to_nat k) as [i|] eqn:Ei; [|done]. destruct (Hpath k i Ei) as (n & Hn & Hi & ->).
    exists n. split; [done|]. destruct (Hst n Hi) as (s & Es & Hs). rewrite Es in Hb. by apply Hs.
  - intros n t' Hn _ _ Hfree. assert (path !! Z.to_nat (k + 1) = Some (i2 n)) as Ei by (change path with (i2 <$> a :: rest); by rewrite list_lookup_fmap, Hn).
    destruct Hno as [->|Hb]; [apply lookup_lt_Some in Ei; unfold size_of in *; lia|]. unfold b in Hb. rewrite Ei in Hb.
    destruct (Hpath (k + 1) _ Ei) as (n' & Hn' & Hi & _). rewrite Hn in Hn'. injection Hn' as <-.
    destruct (Hst n Hi) as (s & Es & Hs). rewrite Es in Hb. apply Hs in Hfree. congruence.
Qed.
