(* ===== verification/PathQuery.v ===== *)
(** The queries of the path finder (terrain/path/PathQuery.h, PathQuery.cpp, QueryPathSingle.cpp,
    QueryPathMulti.cpp, QueryPathWide.cpp, QueryCostMap.cpp, QueryLineMap.cpp) and how [CPathFinder] creates and
    answers them (terrain/path/PathFinder.cpp).

    A query is made on the main thread with the arrays and cost functions of its unit, and
    answered by a worker with that worker's own pather.  A position is a point (x, y, z); a null pointer to an array is the
    empty array, every read of which is undefined.  What the engine says of the unit (its
    type, whether it is cloaked) and what the threat map holds are arguments. *)

From S2P Require Import Prelude Outcome Float32 FloatOrder OpenQueue MicroPather PathFinder PathLine.

Definition AIFloat3 : Type := float * float * float.
Definition pos_x (a : AIFloat3) : float := a.1.1.
Definition pos_y (a : AIFloat3) : float := a.1.2.
Definition pos_z (a : AIFloat3) : float := a.2.

Definition fdiv (a b : float) : float := SFdiv 24 128 a b.

(** ** Positions and cells *)

(** [if (v < 1) v = 1; else if (v > max - 2) v = max - 2;] *)
Definition correct (max v : float) : float :=
  let hi := fsub max (float_of_Z 2) in
  if flt v (float_of_Z 1) then float_of_Z 1 else if flt hi v then hi else v.

(** [AIFloat3::maxxpos] and [AIFloat3::maxzpos] are [bound.1] and [bound.2]. *)
Definition CorrectPosition (bound : float * float) (a : AIFloat3) : AIFloat3 := (correct bound.1 (pos_x a), pos_y a, correct bound.2 (pos_z a)).

(** [int(v / squareSize + 1)]. *)
Definition move_coord (f : CPathFinder) (v : float) : out Z := to_int (fadd (fdiv v (float_of_Z (squareSize f))) (float_of_Z 1)).

Definition Pos2MoveNode (f : CPathFinder) (a : AIFloat3) : out Z :=
  z ← move_coord f (pos_z a); x ← move_coord f (pos_x a); Val (z * moveMapXSize f + x).

(** [int(v / squareSize)]. *)
Definition path_coord (f : CPathFinder) (v : float) : out Z := to_int (fdiv v (float_of_Z (squareSize f))).

Definition Pos2PathXY (f : CPathFinder) (a : AIFloat3) : out (Z * Z) := x ← path_coord f (pos_x a); y ← path_coord f (pos_z a); Val (x, y).
Definition Pos2MoveXY (f : CPathFinder) (a : AIFloat3) : out (Z * Z) := x ← path_coord f (pos_x a); y ← path_coord f (pos_z a); Val (x + 1, y + 1).
Definition Pos2PathIndex (f : CPathFinder) (a : AIFloat3) : out Z := y ← path_coord f (pos_z a); x ← path_coord f (pos_x a); Val (y * pathMapXSize f + x).

Definition PushPos (f : CPathFinder) (a : AIFloat3) (i : CPathInfo) : out CPathInfo :=
  k ← Pos2PathIndex f a; Val (i <| posPath ::= fun l => l ++ [a] |> <| ipath ::= fun l => l ++ [k] |>).

(** ** The query and its map data *)

Inductive QType := QNONE | SINGLE | MULTI | WIDE | COST | LINE.
Inductive QState := SNONE | PROCESS | READY.
#[export] Instance QType_eq_dec : EqDecision QType.
Proof. solve_decision. Defined.
#[export] Instance QState_eq_dec : EqDecision QState.
Proof. solve_decision. Defined.

Record IPathQuery := {
  qid : Z; qtype : QType; qstate : QState;
  qcanMove : gmap Z float; qthreat : gmap Z float;
  qmoveFun : Z -> out float; qthreatFun : Z -> out float;
}.
#[export] Instance IPathQuery_eta : Eta IPathQuery := fun q =>
  Build_IPathQuery (qid q) (qtype q) (qstate q) (qcanMove q) (qthreat q) (qmoveFun q) (qthreatFun q).

Definition IPathQuery_new (id : Z) (type : QType) : IPathQuery :=
  {| qid := id; qtype := type; qstate := SNONE; qcanMove := ∅; qthreat := ∅; qmoveFun := fun _ => UB; qthreatFun := fun _ => UB |}.

Definition SetState (value : QState) (q : IPathQuery) : IPathQuery := q <| qstate := value |>.

Definition IPathQuery_Init (cm th : gmap Z float) (mf tf : Z -> out float) (q : IPathQuery) : IPathQuery :=
  q <| qcanMove := cm |> <| qthreat := th |> <| qmoveFun := mf |> <| qthreatFun := tf |>.

(** ** The unit's way of moving *)

Inductive MoveType := UNDERWATER | CLOAK | AIR | SWIM | DIVE | SURF.

(** What the code asks of a [CCircuitDef]. *)
Record MoveDef := { isSonarStealth : bool; isAbleToFly : bool; isAbleToSwim : bool; isAbleToDive : bool; mobileId : Z; mainRole : Z }.

(** By the type alone. *)
Definition GetMoveTypeDef (d : MoveDef) (elevation : float) : MoveType :=
  if flt elevation f0 then UNDERWATER
  else if isAbleToFly d then AIR
  else if isAbleToSwim d then SWIM
  else if isAbleToDive d then DIVE
  else SURF.

(** By the unit, which may be cloaked. *)
Definition GetMoveType (d : MoveDef) (isInvisible : bool) (elevation : float) : MoveType :=
  if flt elevation f0 && negb (isSonarStealth d) then UNDERWATER
  else if isInvisible then CLOAK
  else if isAbleToFly d then AIR
  else if isAbleToSwim d then SWIM
  else if isAbleToDive d then DIVE
  else SURF.

Record SSector := { isWater : bool; maxSlope : float; maxElevation : float }.

(** Of [SAreaData]: the sectors, the slope limits of the mobile types, the range of elevations. *)
Record Terrain := { sectors : list SSector; mobileSlope : list float; tminElevation : float; tmaxElevation : float }.

(** 0.99f, 1e-3f. *)
Definition SPIDER_SLOPE : float := S754_finite false 16609444 (-24).
Definition C_1e3 : float := S754_finite false 8589935 (-33).
Definition two : float := float_of_Z 2.
Definition one : float := float_of_Z 1.
(** [std::max(a, b)]. *)
Definition fmax (a b : float) : float := if flt a b then b else a.

(** [sectors[index]]. *)
Definition at_sector (t : Terrain) (index : Z) (g : SSector -> float) : out float :=
  if 0 <=? index then match sectors t !! Z.to_nat index with Some s => Val (g s) | None => UB end else UB.

(** [2.f * sectors[index].maxSlope / maxSlope]. *)
Definition slope2 (ms : float) (s : SSector) : float := fdiv (fmul two (maxSlope s)) ms.
(** [2.f * (1.f - (sectors[index].maxElevation - minElev) / elevLen)]. *)
Definition depth2 (t : Terrain) (s : SSector) : float :=
  let elevLen := fmax (fsub (tmaxElevation t) (tminElevation t)) C_1e3 in
  fmul two (fsub one (fdiv (fsub (maxElevation s) (tminElevation t)) elevLen)).

Definition move_cost (t : Terrain) (ms : float) (mt : MoveType) (s : SSector) : float :=
  let spider := flt SPIDER_SLOPE ms in
  match mt with
  | UNDERWATER => fadd (if isWater s then two else f0) (slope2 ms s)
  | CLOAK => fdiv (maxSlope s) ms
  | AIR => f0
  | SWIM => if isWater s then one else if spider then depth2 t s else slope2 ms s
  | DIVE => fadd (if spider then depth2 t s else slope2 ms s) (if isWater s then two else f0)
  | SURF => if isWater s then f0 else if spider then depth2 t s else slope2 ms s
  end.

(** The array of the mobile type and the cost function; the flyers' function reads no sector. *)
Definition GetMoveFun (f : CPathFinder) (t : Terrain) (mt : MoveType) (d : MoveDef) : out (gmap Z float * (Z -> out float)) :=
  '(arr, ms) ← (if mobileId d <? 0 then Val (airMoveArray f, one)
                else match GetMoveData f !! Z.to_nat (mobileId d), mobileSlope t !! Z.to_nat (mobileId d) with
                     | Some a, Some s => Val (a, fmax s C_1e3)
                     | _, _ => UB
                     end);
  Val (arr, fun index => match mt with AIR => Val f0 | _ => at_sector t index (move_cost t ms mt) end).

(** The threat arrays, by role where they are. *)
Record ThreatMap := { airThreat : Z -> gmap Z float; surfThreat : Z -> gmap Z float; amphThreat : Z -> gmap Z float; swimThreat : Z -> gmap Z float; cloakThreat : gmap Z float }.

Definition threat_array (mt : MoveType) (d : MoveDef) (tm : ThreatMap) : gmap Z float :=
  match mt with
  | UNDERWATER => if isAbleToSwim d then swimThreat tm (mainRole d) else amphThreat tm (mainRole d)
  | CLOAK => cloakThreat tm
  | AIR => airThreat tm (mainRole d)
  | SWIM => swimThreat tm (mainRole d)
  | DIVE => amphThreat tm (mainRole d)
  | SURF => surfThreat tm (mainRole d)
  end.

(** Only a cloaked unit takes the threat at its value, the others take it twice. *)
Definition GetThreatFun (mt : MoveType) (d : MoveDef) (tm : ThreatMap) : gmap Z float * (Z -> out float) :=
  let arr := threat_array mt d tm in
  (arr, fun index => t ← deref arr index; Val (match mt with CLOAK => t | _ => fmul two t end)).

Definition FillMapData (f : CPathFinder) (t : Terrain) (d : MoveDef) (isInvisible : bool) (tm : ThreatMap) (elevation : float) (q : IPathQuery) : out IPathQuery :=
  let mt := GetMoveType d isInvisible elevation in
  '(marr, mf) ← GetMoveFun f t mt d;
  let '(tarr, tf) := GetThreatFun mt d tm in
  Val (IPathQuery_Init marr tarr mf tf q).

(** Without a threat map. *)
Definition FillMapDataDef (f : CPathFinder) (t : Terrain) (d : MoveDef) (elevation : float) (q : IPathQuery) : out IPathQuery :=
  '(marr, mf) ← GetMoveFun f t (GetMoveTypeDef d elevation) d;
  Val (IPathQuery_Init marr ∅ mf (fun _ => UB) q).

(** ** The kinds of queries *)

Definition HitFunc : Type := Z * Z -> Z * Z -> bool.
(** [hitTest == nullptr]: every point is accepted. *)
Definition hit_or_all (h : option HitFunc) : HitFunc := default (fun _ _ => true) h.

Record CQueryPathSingle := {
  s_base : IPathQuery; s_path : CPathInfo; s_cost : float;
  s_startPos : AIFloat3; s_endPos : AIFloat3; s_maxRange : float; s_hitTest : option HitFunc; s_maxThreat : float; s_endPosOnly : bool;
}.
#[export] Instance CQueryPathSingle_eta : Eta CQueryPathSingle := fun q =>
  Build_CQueryPathSingle (s_base q) (s_path q) (s_cost q) (s_startPos q) (s_endPos q) (s_maxRange q) (s_hitTest q) (s_maxThreat q) (s_endPosOnly q).

Record CQueryPathMulti := {
  m_base : IPathQuery; m_path : CPathInfo; m_cost : float;
  m_startPos : AIFloat3; m_targets : list AIFloat3; m_maxRange : float; m_hitTest : option HitFunc; m_withGoal : bool; m_maxThreat : float; m_endPosOnly : bool;
}.
#[export] Instance CQueryPathMulti_eta : Eta CQueryPathMulti := fun q =>
  Build_CQueryPathMulti (m_base q) (m_path q) (m_cost q) (m_startPos q) (m_targets q) (m_maxRange q) (m_hitTest q) (m_withGoal q) (m_maxThreat q) (m_endPosOnly q).

Record CQueryPathWide := {
  w_base : IPathQuery; w_path : CPathInfo; w_cost : float;
  w_startPos : AIFloat3; w_endPos : AIFloat3; w_targets : list Z; w_howWide : Z;
}.
#[export] Instance CQueryPathWide_eta : Eta CQueryPathWide := fun q =>
  Build_CQueryPathWide (w_base q) (w_path q) (w_cost q) (w_startPos q) (w_endPos q) (w_targets q) (w_howWide q).

Record CQueryCostMap := { c_base : IPathQuery; c_costMap : list float; c_startPos : AIFloat3; c_maxThreat : float }.
#[export] Instance CQueryCostMap_eta : Eta CQueryCostMap := fun q => Build_CQueryCostMap (c_base q) (c_costMap q) (c_startPos q) (c_maxThreat q).

Record CQueryLineMap := { l_base : IPathQuery; threatXSize : Z; lsquareSize : Z }.

(** ** Creating them; the query's number is the next one *)

Section Create.
Context (t : Terrain) (d : MoveDef) (isInvisible : bool) (tm : ThreatMap) (f : CPathFinder).

Definition CreatePathSingleQuery (startPos endPos : AIFloat3) (maxRange : float) (hitTest : option HitFunc) (maxThreat : float) (endPosOnly : bool) :
    out (CQueryPathSingle * CPathFinder) :=
  let '(id, f) := MakeQueryId f in
  base ← FillMapData f t d isInvisible tm (pos_y startPos) (IPathQuery_new id SINGLE);
  Val ({| s_base := base; s_path := CPathInfo_new false; s_cost := f0; s_startPos := startPos; s_endPos := endPos; s_maxRange := maxRange;
          s_hitTest := hitTest; s_maxThreat := maxThreat; s_endPosOnly := endPosOnly |}, f).

Definition CreatePathMultiQuery (startPos : AIFloat3) (maxRange : float) (possibleTargets : list AIFloat3) (hitTest : option HitFunc) (withGoal : bool)
    (maxThreat : float) (endPosOnly : bool) : out (CQueryPathMulti * CPathFinder) :=
  let '(id, f) := MakeQueryId f in
  base ← FillMapData f t d isInvisible tm (pos_y startPos) (IPathQuery_new id MULTI);
  Val ({| m_base := base; m_path := CPathInfo_new false; m_cost := f0; m_startPos := startPos; m_targets := possibleTargets; m_maxRange := maxRange;
          m_hitTest := hitTest; m_withGoal := withGoal; m_maxThreat := maxThreat; m_endPosOnly := endPosOnly |}, f).

(** [ceil(sideSize * SQUARE_SIZE / squareSize)], [sideSize] the longer side of the unit's footprint in squares. *)
Definition how_wide (sideSize : Z) : out Z :=
  let v := fdiv (fmul (float_of_Z sideSize) (float_of_Z 8)) (float_of_Z (squareSize f)) in
  k ← to_int v; Val (if flt (float_of_Z k) v then k + 1 else k).

Definition CreatePathWideQuery (startPos endPos : AIFloat3) (targets : list Z) (moveXSize moveZSize : Z) : out (CQueryPathWide * CPathFinder) :=
  let '(id, f) := MakeQueryId f in
  base ← FillMapDataDef f t d (pos_y startPos) (IPathQuery_new id WIDE);
  w ← how_wide (Z.max moveXSize moveZSize);
  Val ({| w_base := base; w_path := CPathInfo_new false; w_cost := f0; w_startPos := startPos; w_endPos := endPos; w_targets := targets; w_howWide := w |}, f).

Definition CreateCostMapQuery (startPos : AIFloat3) (maxThreat : float) : out (CQueryCostMap * CPathFinder) :=
  let '(id, f) := MakeQueryId f in
  base ← FillMapData f t d isInvisible tm (pos_y startPos) (IPathQuery_new id COST);
  Val ({| c_base := base; c_costMap := []; c_startPos := startPos; c_maxThreat := maxThreat |}, f).

Definition CreateLineMapQuery (startPos : AIFloat3) (threatWidth threatSquare : Z) : out (CQueryLineMap * CPathFinder) :=
  let '(id, f) := MakeQueryId f in
  base ← FillMapData f t d isInvisible tm (pos_y startPos) (IPathQuery_new id LINE);
  Val ({| l_base := base; threatXSize := threatWidth; lsquareSize := threatSquare |}, f).
End Create.

(** ** Answering them, on a worker *)

Section Answer.
Context (bound : float * float) (ar : SAreaData) (f : CPathFinder).

Definition set_data (q : IPathQuery) : CMicroPather -> CMicroPather := SetMapData (qcanMove q) (qthreat q) (qmoveFun q) (qthreatFun q).

(** [if (search(...) == SOLVED) micropather->FillPathInfo(iPath)]; an answer that is not [SOLVED] leaves the path empty. *)
Definition fill_answer (p : CMicroPather) (i : CPathInfo) (a : Answer) : out CPathInfo :=
  let i := i <| ipath := path a |> in
  if result a =? SOLVED then FillPathInfo f ar p i else Val i.

Definition SinglePrepare (q : CQueryPathSingle) : CQueryPathSingle := q <| s_path := CPathInfo_new (s_endPosOnly q) |> <| s_hitTest ::= fun h => Some (hit_or_all h) |>.

Definition MakePath (fuel : nat) (q : CQueryPathSingle) (p : CMicroPather) : out (option (CQueryPathSingle * CMicroPather)) :=
  let q := SinglePrepare q in
  radius ← to_int (fdiv (s_maxRange q) (float_of_Z (squareSize f)));
  let q := q <| s_path ::= CPathInfo_Clear |> <| s_startPos ::= CorrectPosition bound |> <| s_endPos ::= CorrectPosition bound |> in
  let p := set_data (s_base q) p in
  s ← Pos2MoveNode f (s_startPos q);
  e ← Pos2MoveNode f (s_endPos q);
  r ← FindBestPathToPointOnRadius fuel s e radius (s_maxThreat q) (hit_or_all (s_hitTest q)) (ipath (s_path q)) p;
  match r with
  | None => Val None
  | Some (a, p) => i ← fill_answer p (s_path q) a; Val (Some (q <| s_path := i |> <| s_cost := cost a |>, p))
  end.

(** *** The cells on the radius around a target *)

(** The circle's table of offsets has [radius * 2 * 5] entries; a write behind them is undefined. *)
Definition put_offset (radius : Z) (o : Z * Z) (l : list (Z * Z)) : out (list (Z * Z)) :=
  if size_of l <? radius * 2 * 5 then Val (l ++ [o]) else UB.

(** [xend[a]]. *)
Definition xend_at (xend : list Z) (a : Z) : out Z := match xend !! Z.to_nat a with Some x => Val x | None => UB end.

(** The quarter circle: row [a] from [xend[a - 1]] to [xend[a]]. *)
Definition quarter_row (radius : Z) (xend : list Z) (a : Z) (l : list (Z * Z)) : out (list (Z * Z)) :=
  e ← xend_at xend a;
  s ← xend_at xend (a - 1);
  each (fun x => put_offset radius (x, a)) (seqZ s (e - s + 1)) l.

(** [offsets]: the quarter, its mirror image below, both mirrored to the left, all moved up by [radius]. *)
Definition circle_offsets (radius : Z) : out (list (Z * Z)) :=
  match xend_table radius with
  | None => UB
  | Some xend =>
      l ← each (quarter_row radius xend) (seqZ 1 radius) [(0, 0)];
      l ← each (fun o => put_offset radius (o.1, radius * 2 - o.2)) (take (Z.to_nat (size_of l - 2)) l) l;
      l ← each (fun o => put_offset radius (- o.1, o.2)) l l;
      Val (map (fun o : Z * Z => (o.1, o.2 - radius)) l)
  end.

Definition MultiPrepare (q : CQueryPathMulti) : CQueryPathMulti := q <| m_path := CPathInfo_new (m_endPosOnly q) |> <| m_hitTest ::= fun h => Some (hit_or_all h) |>.

(** The cells around [node] that are on the map and that the hit test accepts. *)
Definition ring (hit : HitFunc) (offsets : list (Z * Z)) (x y : Z) : list Z :=
  o ← offsets;
  let sx := x + o.1 in let sy := y + o.2 in
  if (1 <=? sx) && (sx <? moveMapXSize f - 1) && (1 <=? sy) && (sy <? moveMapYSize f - 1) && hit (sx - 1, sy - 1) (x - 1, y - 1)
  then [MoveXY2MoveNode f sx sy] else [].

(** One target: its position corrected; skipped if its node is taken already.  The state is the nodes with their marks, the corrected
    targets, [endNodes] and [nodeTargets]. *)
Definition add_target (hit : HitFunc) (withGoal : bool) (offsets : list (Z * Z)) (a : AIFloat3)
    (st : gmap Z PathNode * list AIFloat3 * list Z * list Z) : out (gmap Z PathNode * list AIFloat3 * list Z * list Z) :=
  let '(m, targets, ends, nodeTargets) := st in
  let a := CorrectPosition bound a in
  node ← Pos2MoveNode f a;
  pn ← deref m node;
  if isEndNode pn then Val (m, targets ++ [a], ends, nodeTargets)
  else
    let '(x, y) := MoveNode2MoveXY f node in
    Val (<[node := pn <| isEndNode := true |>]> m, targets ++ [a],
         ends ++ ring hit offsets x y ++ (if withGoal then [MoveXY2MoveNode f x y] else []), nodeTargets ++ [node]).

(** [GetNode(node)->isEndNode = 0]. *)
Definition unmark (node : Z) (m : gmap Z PathNode) : out (gmap Z PathNode) := pn ← deref m node; Val (<[node := pn <| isEndNode := false |>]> m).

Definition FindBestPath (fuel : nat) (q : CQueryPathMulti) (p : CMicroPather) : out (option (CQueryPathMulti * CMicroPather)) :=
  let q := MultiPrepare q in
  if flt (m_maxRange q) (float_of_Z (squareSize f)) then Val (Some (q, p))
  else
    let q := q <| m_path ::= CPathInfo_Clear |> in
    radius ← to_int (fdiv (m_maxRange q) (float_of_Z (squareSize f)));
    offsets ← circle_offsets radius;
    '(m, targets, ends, nodeTargets) ← each (add_target (hit_or_all (m_hitTest q)) (m_withGoal q) offsets) (m_targets q) (pathNodeMem p, [], [], []);
    m ← each unmark nodeTargets m;
    let q := q <| m_targets := targets |> <| m_startPos ::= CorrectPosition bound |> in
    let p := set_data (m_base q) (p <| pathNodeMem := m |>) in
    s ← Pos2MoveNode f (m_startPos q);
    r ← FindBestPathToAnyGivenPoint fuel s ends nodeTargets (m_maxThreat q) (ipath (m_path q)) p;
    match r with
    | None => Val None
    | Some (a, _, _, p) => i ← fill_answer p (m_path q) a; Val (Some (q <| m_path := i |> <| m_cost := cost a |>, p))
    end.

(** *** A wide path *)

Definition WidePrepare (q : CQueryPathWide) : CQueryPathWide := q <| w_path := CPathInfo_new false |>.

(** [if (pn->isEndNode == 0) { pn->isEndNode = 1; endNodes.push_back(node); }] *)
Definition mark_new (node : Z) (st : gmap Z PathNode * list Z) : out (gmap Z PathNode * list Z) :=
  let '(m, ends) := st in
  pn ← deref m node;
  Val (if isEndNode pn then (m, ends) else (<[node := pn <| isEndNode := true |>]> m, ends ++ [node])).

Definition target_node (i : Z) : Z := let '(x, y) := PathIndex2MoveXY f i in MoveXY2MoveNode f x y.

Definition MakePathWide (fuel : nat) (q : CQueryPathWide) (p : CMicroPather) : out (option (CQueryPathWide * CMicroPather)) :=
  let q := (WidePrepare q) <| w_path ::= CPathInfo_Clear |> <| w_startPos ::= CorrectPosition bound |> <| w_endPos ::= CorrectPosition bound |> in
  st ← each (fun i => mark_new (target_node i)) (w_targets q) (pathNodeMem p, []);
  endNode ← Pos2MoveNode f (w_endPos q);
  '(m, ends) ← each (fun o => mark_new (endNode + o)) (take 4 (offsets (mapSizeX p))) st;
  let p := SetMapData (qcanMove (w_base q)) ∅ (qmoveFun (w_base q)) (fun _ => UB) (p <| pathNodeMem := m |>) in
  s ← Pos2MoveNode f (w_startPos q);
  r ← FindWidePathToBus fuel s ends (w_howWide q) (ipath (w_path q)) p;
  match r with
  | None => Val None
  | Some (a, _, p) => Val (Some (q <| w_path ::= (fun i => i <| ipath := path a |>) |> <| w_cost := cost a |>, p))
  end.

(** *** A cost map *)

(** [costMap.resize(n, -1.f)]. *)
Definition resize (n : Z) (v : float) (l : list float) : list float := take (Z.to_nat n) l ++ replicate (Z.to_nat n - length l) v.
Definition CostPrepare (q : CQueryCostMap) : CQueryCostMap := q <| c_costMap ::= resize (pathMapXSize f * pathMapYSize f) (float_of_Z (-1)) |>.

Definition MakeCostMapQuery (fuel : nat) (q : CQueryCostMap) (p : CMicroPather) : out (option (CQueryCostMap * CMicroPather)) :=
  let q := CostPrepare q in
  let p := set_data (c_base q) p in
  s ← Pos2MoveNode f (c_startPos q);
  r ← MakeCostMap fuel s (c_maxThreat q) (c_costMap q) p;
  match r with
  | None => Val None
  | Some (m, p) => Val (Some (q <| c_costMap := m |>, p))
  end.

(** 1.f / 1.4142f. *)
Definition ISQRT_2 : float := fdiv one SQRT_2.

(** The cost at one point; the first lambda reads without a test. *)
Definition min_cost (q : CQueryCostMap) (checked : bool) (c : float) (xy : Z * Z) : out float :=
  let '(x, y) := xy in
  if checked && negb (IsInPathMap f x y) then Val c
  else
    let i := PathXY2PathIndex f x y in
    costR ← (if 0 <=? i then of_option (c_costMap q !! Z.to_nat i) else UB);
    Val (if flt c f0 then costR else if flt costR f0 then c else if flt costR c then costR else c).

(** The eight points around [(xm, ym)]. *)
Definition eight (xm ym radius r2 : Z) : list (Z * Z) :=
  [(xm - radius, ym); (xm + radius, ym); (xm, ym - radius); (xm, ym + radius);
   (xm - r2, ym - r2); (xm + r2, ym - r2); (xm - r2, ym + r2); (xm + r2, ym + r2)].

Definition GetCostAt (q : CQueryCostMap) (endPos : AIFloat3) (radius : Z) : out float :=
  let radius := Z.quot radius (squareSize f) in
  '(xm, ym) ← Pos2PathXY f endPos;
  r2 ← to_int (fadd (fmul (float_of_Z radius) ISQRT_2) one);
  each (fun xy c => min_cost q (negb (IsInPathMapR f xm ym radius)) c xy) (eight xm ym radius r2) (float_of_Z (-1)).
End Answer.

(** *** A safe line *)

(** THREAT_MIN *)
Definition THREAT_MIN : float := float_of_Z 1.

(** [!canMoveArray[index] || (threatArray[index2] > THREAT_MIN)]. *)
Definition unsafe_cell (q : CQueryLineMap) (x y : Z) : out bool :=
  let index2 := y * threatXSize q + x in
  let index := (y + 1) * (threatXSize q + 2) + x + 1 in
  c ← deref (qcanMove (l_base q)) index;
  match c with
  | S754_zero _ => Val true
  | _ => t ← deref (qthreat (l_base q)) index2; Val (flt THREAT_MIN t)
  end.

Definition line_coord (q : CQueryLineMap) (v : float) : out Z := to_int (fdiv v (float_of_Z (lsquareSize q))).

Definition IsSafeLine (q : CQueryLineMap) (startPos endPos : AIFloat3) : out bool :=
  sx ← line_coord q (pos_x startPos); sy ← line_coord q (pos_z startPos);
  ex ← line_coord q (pos_x endPos); ey ← line_coord q (pos_z endPos);
  draw_line (unsafe_cell q) sx sy ex ey.
