(* ===== verification/PathPos.v ===== *)
(** From positions to cells: a corrected position lies on the map, and so does its cell. *)

From S2P Require Import Prelude Outcome Float32 FloatOrder OpenQueue MicroPather PathFinder PatherInv PatherLoop PatherRules PatherSearch PatherCorrect PathSearch PathFinderInv PathLine PathLineInv PathQuery.

(** ** Division by a power of two *)

Lemma fdiv_pow2 (m : positive) (e k : Z) : valid_binary 24 128 (S754_finite false m e) = true -> 2 ^ 23 <= Zpos m -> -149 < e - k -> 0 <= k ->
  cost_ok (fdiv (S754_finite false m e) (S754_finite false 8388608 (k - 23))) /\
  okey (fdiv (S754_finite false m e) (S754_finite false 8388608 (k - 23))) = okey (S754_finite false m e) - k * 2 ^ 23.
Proof.
  intros (He & Hm & _)%valid_finite Hn Hk H0.
  assert (fdiv (S754_finite false m e) (S754_finite false 8388608 (k - 23)) = binary_round_aux 24 128 false (Zpos (m * 2)) (e - k - 1) loc_Exact) as ->.
  { unfold fdiv, SFdiv, SFdiv_core_binary. cbn [Zdigits2]. rewrite (digits_unique m 24), (digits_unique 8388608 24), fexp32_eq by lia.
    replace (Z.min (Z.max (24 + e - (24 + (k - 23)) - 24) (-149)) (e - (k - 23))) with (e - k - 1) by lia.
    replace (e - (k - 23) - (e - k - 1)) with 24 by lia. rewrite Z.shiftl_mul_pow2 by lia.
    assert (Z.div_eucl (Zpos m * 2 ^ 24) 8388608 = (Zpos (m * 2), 0)) as ->; [|done].
    assert (Zpos m * 2 ^ 24 = Zpos (m * 2) * 8388608) as -> by lia.
    rewrite (surjective_pairing (Z.div_eucl _ _)). change ((Z.div_eucl ?a ?b).1) with (a / b). change ((Z.div_eucl ?a ?b).2) with (a `mod` b).
    by rewrite Z.div_mul, Z.mod_mul. }
  assert (Zpos (digits2_pos (m * 2)) = 25) as Ed by (apply digits_unique; lia).
  destruct (binary_round_aux_spec false (m * 2) (e - k - 1)) as [Hv Ho]; [rewrite Ed, fexp32_eq; lia|].
  rewrite Ed, fexp32_eq in Ho. replace (Z.max (25 + (e - k - 1) - 24) (-149) - (e - k - 1)) with 1 in Ho by lia.
  assert (rne (Zpos (m * 2)) 1 = Zpos m) as Er by (change (Zpos (m * 2)) with (Zpos m * 2 ^ 1); by apply rne_exact). rewrite Er in Ho. cbn [cond_Zopp okey] in *. unfold oinf in Ho.
  change (2 ^ 24) with (2 * 2 ^ 23) in Hm. split; [split; [done|]|]; rewrite Ho; nia.
Qed.

(** The sizes of a square. *)
Lemma square_float (s : Z) : s = 32 \/ s = 64 \/ s = 128 -> exists k, float_of_Z s = S754_finite false 8388608 (k - 23) /\ 5 <= k <= 7.
Proof. intros [-> | [-> | ->]]; [exists 5|exists 6|exists 7]; done. Qed.

(** A value that is at least one. *)
Lemma at_least_one (v : float) : fvalid v -> okey one <= okey v -> isinf v = false ->
  exists m e, v = S754_finite false m e /\ valid_binary 24 128 v = true /\ 2 ^ 23 <= Zpos m /\ -23 <= e.
Proof.
  intros Hv Hle Hi. change (okey one) with (127 * 2 ^ 23) in Hle. destruct (cost_cases v) as [E _ _| ->|m e -> Hb]; [split; [done|lia]|lia|done|].
  pose proof Hb as (He & Hm & Hn)%valid_finite. cbn [okey cond_Zopp] in Hle. change (2 ^ 24) with (2 * 2 ^ 23) in Hm. exists m, e. split_and!; try done; [|lia].
  destruct Hn as [->|]; [lia|done].
Qed.

Lemma fdiv_square (s : Z) (v : float) : s = 32 \/ s = 64 \/ s = 128 -> fvalid v -> okey one <= okey v -> isinf v = false ->
  cost_ok (fdiv v (float_of_Z s)) /\ okey (fdiv v (float_of_Z s)) = okey v - okey (float_of_Z s) + okey one.
Proof.
  intros Hs Hv Hle Hi. destruct (square_float s Hs) as (k & -> & Hk). destruct (at_least_one v Hv Hle Hi) as (m & e & -> & Hb & Hm & He).
  destruct (fdiv_pow2 m e k Hb Hm ltac:(lia) ltac:(lia)) as [Hc ->]. split; [done|]. change (okey one) with (127 * 2 ^ 23). cbn [okey cond_Zopp]. lia.
Qed.

(** ** Truncation *)

Lemma ftrunc_fval (a : float) : cost_ok a -> isinf a = false -> ftrunc a = Some (fval a / 2 ^ 149).
Proof.
  intros Ha Hi. destruct (cost_cases a Ha) as [_ _ [s ->]| ->|m e -> Hv]; [done|done|]. apply valid_finite in Hv as (He & _). cbn [ftrunc fval]. f_equal.
  destruct (Z.leb_spec 0 e) as [H0|H0].
  - rewrite Z.pow_add_r, Z.mul_assoc, Z.div_mul by lia. done.
  - assert (2 ^ 149 = 2 ^ (- e) * 2 ^ (e + 149)) as -> by (rewrite <-Z.pow_add_r by lia; f_equal; lia).
    rewrite Z.div_mul_cancel_r; [done| |]; apply Z.pow_nonzero; lia.
Qed.

Lemma to_int_mono (a b : float) (z : Z) : cost_ok a -> fvalid b -> okey a <= okey b -> to_int b = Val z -> exists y, to_int a = Val y /\ 0 <= y <= z.
Proof.
  intros Ha Hb Hle Ez. assert (cost_ok b) as Hb' by (split; [done|destruct Ha; lia]). unfold to_int in *.
  assert (isinf b = false) as Ib. { destruct (cost_cases b Hb') as [_ _ [s ->]| ->|m e -> _]; done. }
  assert (isinf a = false) as Ia. { destruct (isinf a) eqn:E; [|done]. apply (okey_inf a Ha) in E. destruct (okey_fval b Hb' Ib). lia. }
  rewrite (ftrunc_fval a Ha Ia). rewrite (ftrunc_fval b Hb' Ib) in Ez. pose proof (fval_mono a b Ha Hb' Ia Ib Hle) as Hf.
  destruct (okey_fval a Ha Ia) as (_ & _ & H0). assert (0 <= fval a / 2 ^ 149 <= fval b / 2 ^ 149) as Hz by (split; [apply Z.div_pos; lia|apply Z.div_le_mono; lia]).
  destruct ((- 2 ^ 31 <=? fval b / 2 ^ 149) && (fval b / 2 ^ 149 <? 2 ^ 31)) eqn:Er; [|done]. injection Ez as <-.
  assert ((- 2 ^ 31 <=? fval a / 2 ^ 149) && (fval a / 2 ^ 149 <? 2 ^ 31) = true) as -> by lia. eauto.
Qed.

(** ** The cell of a corrected position *)

(** The last position in [n] squares of size [s]. *)
Definition top (s n : Z) : float := fsub (float_of_Z (s * n)) (float_of_Z 2).

#[export] Instance out_eq_dec `{EqDecision A} : EqDecision (out A).
Proof. solve_decision. Defined.

Definition top_ok (s n : Z) : bool :=
  bool_decide (to_int (fadd (fdiv (top s n) (float_of_Z s)) one) = Val n) && bool_decide (to_int (fdiv (top s n) (float_of_Z s)) = Val (n - 1)) &&
  (okey one <=? okey (top s n)) && negb (isinf (top s n)).

(** The largest map side, in squares, that is checked. *)
Definition max_side : Z := 1024.

Lemma tops : forallb (fun s => forallb (top_ok s) (seqZ 1 max_side)) [32; 64; 128] = true.
Proof. vm_compute. reflexivity. Qed.

Lemma top_checked s n : s = 32 \/ s = 64 \/ s = 128 -> 1 <= n <= max_side -> top_ok s n = true.
Proof.
  intros Hs Hn. pose proof tops as H. rewrite forallb_forall in H. assert (In s [32; 64; 128]) as Hin by (cbn; destruct Hs as [->|[->| ->]]; auto).
  specialize (H s Hin). rewrite forallb_forall in H. apply H, list_elem_of_In, elem_of_seqZ. lia.
Qed.

Lemma square_one s v : s = 32 \/ s = 64 \/ s = 128 -> cost_ok v -> okey one <= okey (fadd v one).
Proof. intros Hs Hv. transitivity (okey (fadd f0 one)); [done|]. apply fadd_mono; try done. by destruct Hv. Qed.

Section Coord.
Context (f : CPathFinder) (n : Z) (Hs : squareSize f = 32 \/ squareSize f = 64 \/ squareSize f = 128) (Hn : 1 <= n <= max_side).

(** What is known of the last position. *)
Lemma top_facts : fvalid (top (squareSize f) n) /\ okey one <= okey (top (squareSize f) n) /\ isinf (top (squareSize f) n) = false /\
  move_coord f (top (squareSize f) n) = Val n /\ path_coord f (top (squareSize f) n) = Val (n - 1).
Proof.
  pose proof (top_checked (squareSize f) n Hs Hn) as H. unfold top_ok in H. repeat (apply andb_true_iff in H as [H ?]).
  apply bool_decide_eq_true in H. rewrite negb_true_iff, Z.leb_le in *. split_and!; try done; [|by apply bool_decide_eq_true in H2].
  apply fsub_valid; [apply float_of_Z_valid|apply float_of_Z_finite|apply float_of_Z_valid]. unfold max_side in Hn. destruct Hs as [->|[->| ->]]; lia.
Qed.

(** A coordinate between 1 and the last position has a cell on the map. *)
Lemma coord_ok v : fvalid v -> okey one <= okey v <= okey (top (squareSize f) n) ->
  (exists k, move_coord f v = Val k /\ 1 <= k <= n) /\ (exists k, path_coord f v = Val k /\ 0 <= k <= n - 1).
Proof.
  intros Hv Hle. destruct top_facts as (Ht & H1 & Hi & Em & Ep). assert (isinf v = false) as Iv.
  { destruct (isinf v) eqn:E; [|done]. apply okey_inf in E; [|split; [done|change (okey one) with (127 * 2 ^ 23) in Hle; lia]].
    destruct (okey_fval (top (squareSize f) n)) as (_ & ? & _); [split; [done|change (okey one) with (127 * 2 ^ 23) in H1; lia]|done|lia]. }
  destruct (fdiv_square (squareSize f) v Hs Hv ltac:(lia) Iv) as [Hc Ho]. destruct (fdiv_square (squareSize f) _ Hs Ht H1 Hi) as [Hc' Ho']. split.
  - assert (cost_ok one) as H1ok by done. unfold move_coord in *.
    destruct (to_int_mono (fadd (fdiv v (float_of_Z (squareSize f))) one) (fadd (fdiv (top (squareSize f) n) (float_of_Z (squareSize f))) one) n) as (k & Ek & Hk); try done.
    + by apply fadd_ok.
    + by apply fadd_ok.
    + apply fadd_mono; try done. lia.
    + exists k. split; [done|]. destruct (to_int_mono one (fadd (fdiv v (float_of_Z (squareSize f))) one) k) as (y & Ey & Hy); try done.
      * by apply fadd_ok.
      * by apply (square_one (squareSize f)).
      * change (to_int one) with (Val 1) in Ey. injection Ey as <-. lia.
  - unfold path_coord in *. destruct (to_int_mono (fdiv v (float_of_Z (squareSize f))) (fdiv (top (squareSize f) n) (float_of_Z (squareSize f))) (n - 1)) as (k & Ek & Hk); try done; [apply Hc'|lia|eauto].
Qed.

Lemma correct_range v : fvalid v -> fvalid (correct (float_of_Z (squareSize f * n)) v) /\
  okey one <= okey (correct (float_of_Z (squareSize f * n)) v) <= okey (top (squareSize f) n).
Proof.
  intros Hv. destruct top_facts as (Ht & H1 & _). unfold correct. fold (top (squareSize f) n). change (float_of_Z 1) with one.
  rewrite (flt_okey v one), (flt_okey _ v) by done. destruct (Z.ltb_spec (okey v) (okey one)); [done|]. destruct (Z.ltb_spec (okey (top (squareSize f) n)) (okey v)); [split; [done|lia]|split; [done|lia]].
Qed.
End Coord.

(** A position of the engine: its coordinates are numbers. *)
Definition pos_ok (a : AIFloat3) : Prop := fvalid (pos_x a) /\ fvalid (pos_z a).

(** The size of the map in world units, as [CTerrainData::Init] sets it. *)
Definition BoundOf (f : CPathFinder) (bound : float * float) : Prop :=
  bound = (float_of_Z (squareSize f * pathMapXSize f), float_of_Z (squareSize f * pathMapYSize f)) /\ pathMapXSize f <= max_side /\ pathMapYSize f <= max_side.

(** The node of a corrected position is inside the map. *)
Lemma Pos2MoveNode_ok f bound a : PFOk f -> BoundOf f bound -> pos_ok a ->
  exists n, Pos2MoveNode f (CorrectPosition bound a) = Val n /\ interior (moveMapXSize f) (moveMapYSize f) n.
Proof.
  intros HP (-> & HX & HY) [Hx Hz]. pose proof HP as [Hpx Hpy Hmx Hmy Hsq _ _ _ _ _]. unfold Pos2MoveNode, CorrectPosition, pos_x, pos_z in *. cbn [fst snd].
  destruct (correct_range f (pathMapXSize f) Hsq ltac:(lia) _ Hx) as [Vx Rx]. destruct (correct_range f (pathMapYSize f) Hsq ltac:(lia) _ Hz) as [Vz Rz].
  destruct (coord_ok f (pathMapYSize f) Hsq ltac:(lia) _ Vz Rz) as [(z & -> & Bz) _]. destruct (coord_ok f (pathMapXSize f) Hsq ltac:(lia) _ Vx Rx) as [(x & -> & Bx) _].
  rewrite !bind_Val. eexists. split; [done|]. apply inner_cell; lia.
Qed.

(** ** The surroundings of a query *)

(** The height map has one value per square of 8 units. *)
Definition HeightsOk (f : CPathFinder) (ar : SAreaData) : Prop :=
  heightMapXSize ar = squareSize f / 8 * pathMapXSize f /\ size_of (heightMap ar) = (squareSize f / 8 * pathMapXSize f) * (squareSize f / 8 * pathMapYSize f).

Record QueryEnv (bound : float * float) (ar : SAreaData) (f : CPathFinder) (p : CMicroPather) : Prop := {
  qe_pf : PFOk f;
  qe_bound : BoundOf f bound;
  qe_heights : HeightsOk f ar;
  qe_x : mapSizeX p = moveMapXSize f;
  qe_y : mapSizeY p = moveMapYSize f;
}.

Lemma env_graph bound ar f p : QueryEnv bound ar f p -> GraphOf f p.
Proof. intros [HP _ _ Hx _]. destruct HP. constructor; lia. Qed.

Lemma env_same bound ar f p p' : QueryEnv bound ar f p -> mapSizeX p' = mapSizeX p -> mapSizeY p' = mapSizeY p -> QueryEnv bound ar f p'.
Proof. intros [] Ex Ey. constructor; congruence. Qed.

Lemma env_node bound ar f p a : QueryEnv bound ar f p -> pos_ok a -> exists n, Pos2MoveNode f (CorrectPosition bound a) = Val n /\ inside p n.
Proof. intros [HP HB _ Hx Hy] Ha. unfold inside. rewrite Hx, Hy. by apply Pos2MoveNode_ok. Qed.

Lemma set_data_resting q p : Resting p -> Resting (set_data q p).
Proof. intros (E & [HG Hfr Hd Hn] & HE). exists E. split; [|done]. constructor; [by destruct HG|done|done|done]. Qed.
