(* ===== verification/PathDemo.v ===== *)
(** A small world the theorems on queries are tried on: a map of two squares by one, all of it in reach of a flyer. *)

From S2P Require Import Prelude Outcome Float32 FloatOrder OpenQueue MicroPather PathFinder PatherInv PatherLoop PatherRules PatherSearch PatherCorrect PathSearch PathFinderInv PathLine PathLineInv PathQuery PathPos.

Definition demo_finder : CPathFinder :=
  match CPathFinder_new 32 2 1 [[true; true]] with
  | Val f => f
  | _ => {| squareSize := 0; pathMapXSize := 0; pathMapYSize := 0; moveMapXSize := 0; moveMapYSize := 0; moveData0 := []; moveData1 := []; pMoveData := false;
            airMoveArray := ∅; isAreaUpdated := false; blockArray := []; queryId := 0 |}
  end.

Lemma demo_finder_ok : PFOk demo_finder.
Proof.
  destruct (CPathFinder_new_ok 32 2 1 [[true; true]]) as (f & E & H & _); [done|done|auto|by apply Forall_singleton|]. unfold demo_finder. by rewrite E.
Qed.

Definition demo_bound : float * float := (float_of_Z 64, float_of_Z 32).
Definition demo_area : SAreaData := {| heightMap := replicate 32 (float_of_Z 7); heightMapXSize := 8 |}.
Definition demo_pather : CMicroPather := CMicroPather_new 2 1.

(** An unarmed flyer, no threat on the map but a little in the second square. *)
Definition demo_def : MoveDef := {| isSonarStealth := false; isAbleToFly := true; isAbleToSwim := false; isAbleToDive := false; mobileId := -1; mainRole := 0 |}.
Definition demo_threat : gmap Z float := {[ 0 := f0; 1 := float_of_Z 2 ]}.
Definition demo_threats : ThreatMap :=
  {| airThreat := fun _ => demo_threat; surfThreat := fun _ => ∅; amphThreat := fun _ => ∅; swimThreat := fun _ => ∅; cloakThreat := ∅ |}.
Definition demo_terrain : Terrain := {| sectors := []; mobileSlope := []; tminElevation := f0; tmaxElevation := f0 |}.

Definition demo_base (type : QType) : IPathQuery :=
  match FillMapData demo_finder demo_terrain demo_def false demo_threats f0 (IPathQuery_new 0 type) with Val q => q | _ => IPathQuery_new 0 type end.

(** The west and the east of the map. *)
Definition demo_west : AIFloat3 := (float_of_Z 10, f0, float_of_Z 16).
Definition demo_east : AIFloat3 := (float_of_Z 50, f0, float_of_Z 16).

Lemma demo_env : QueryEnv demo_bound demo_area demo_finder demo_pather.
Proof. constructor; [exact demo_finder_ok|..]; by vm_compute. Qed.

Lemma demo_resting : Resting demo_pather.
Proof. exists no_marks. split; [by apply CMicroPather_new_ok|done]. Qed.

Lemma demo_cells n : interior 4 3 n -> n = 5 \/ n = 6.
Proof. unfold interior, cell_x, cell_y. lia. Qed.

Lemma demo_terrain_ok type : TerrainOk (set_data (demo_base type) demo_pather).
Proof. apply move_array_terrain. exact (pf_air _ demo_finder_ok). Qed.

Lemma demo_threat_ok type : ThreatOk (set_data (demo_base type) demo_pather).
Proof. intros n [-> | ->]%demo_cells; eexists; (split; [vm_compute; reflexivity|by vm_compute]). Qed.

Lemma demo_moderate r : (forall u d nc, u = 5 \/ u = 6 -> d ∈ steps8 4 -> rcost r (d.1 + u) (cell_index2 4 (d.1 + u)) = Val nc -> okey (scale d.2 nc) <= okey two100) ->
  (forall d, d ∈ rsteps r -> d ∈ steps8 4) -> moderate r 4 3.
Proof. intros H Hs u d v w Hu%demo_cells (Hd & -> & _ & _ & nc & Hc & ->). by apply (H u); [|apply Hs|]. Qed.

(** Both cells and all eight steps, one by one. *)
Ltac demo_steps :=
  let u := fresh "u" in let d := fresh "d" in let nc := fresh "nc" in let Hu := fresh "Hu" in let Hd := fresh "Hd" in let Hc := fresh "Hc" in
  intros u d nc Hu Hd Hc; unfold steps8, offsets in Hd; cbn in Hd;
  repeat (apply elem_of_cons in Hd as [-> | Hd]; [destruct Hu as [-> | ->]; vm_compute in Hc; first [discriminate Hc | injection Hc as <-; vm_compute; discriminate] |]);
  by apply not_elem_of_nil in Hd.

Lemma demo_astar type : AstarOk (set_data (demo_base type) demo_pather) FLT_MAX.
Proof.
  constructor; [apply demo_terrain_ok|apply demo_threat_ok|..].
  - intros n [-> | ->]%demo_cells; exists f0; by vm_compute.
  - intros n [-> | ->]%demo_cells; eexists; (split; [vm_compute; reflexivity|by vm_compute]).
  - apply demo_moderate; [|done]. destruct type; demo_steps.
Qed.

Lemma demo_wide type : WideOk (SetMapData (qcanMove (demo_base type)) ∅ (qmoveFun (demo_base type)) (fun _ => UB) demo_pather) 1.
Proof.
  constructor.
  - apply move_array_terrain. exact (pf_air _ demo_finder_ok).
  - intros n [-> | ->]%demo_cells; exists f0; by vm_compute.
  - apply demo_moderate; [destruct type; demo_steps|]. intros d Hd. by apply steps4_8.
Qed.

Lemma demo_costmap type : CostMapOk (set_data (demo_base type) demo_pather) FLT_MAX.
Proof.
  constructor; [apply demo_terrain_ok|apply demo_threat_ok|]. apply demo_moderate; [|done]. destruct type; demo_steps.
Qed.

(** A unit four squares wide in the top row: the test of the cells around the step up reads before the array. *)
Lemma wide4_reads_outside : FindWidePathToBus 10 5 [6] 4 [] (SetMapData (qcanMove (demo_base WIDE)) ∅ (qmoveFun (demo_base WIDE)) (fun _ => UB) demo_pather) = UB.
Proof. vm_compute. reflexivity. Qed.

(** The mark of the last end node stays when that node is on the edge. *)
Lemma edge_mark_stays :
  match each mark_new [1] (pathNodeMem demo_pather, []) with
  | Val (m, ends) =>
      match FindWidePathToBus 10 5 ends 1 [] (SetMapData (qcanMove (demo_base WIDE)) ∅ (qmoveFun (demo_base WIDE)) (fun _ => UB) (demo_pather <| pathNodeMem := m |>)) with
      | Val (Some (_, ends', p)) => ends' = [5] /\ option_map isEndNode (pathNodeMem p !! 1) = Some true
      | _ => False
      end
  | _ => False
  end.
Proof. vm_compute. done. Qed.
