(* ===== verification/PathCircle.v ===== *)
(** The offsets of [CPathFinder::FindBestPath]: the table is never overrun, and it holds the outline of the disc. *)

From S2P Require Import Prelude Outcome Float32 FloatOrder OpenQueue MicroPather PathFinder PatherInv PatherLoop PatherRules PathFinderInv PathLine PathQuery.

(** ** The table of half widths *)

(** The half width of row [a] of the disc. *)
Definition half_width (r a : Z) : Z := Z.sqrt (r * r - (a - r) * (a - r)).

(** The largest radius, in squares, that is checked. *)
Definition max_radius : Z := 128.

Lemma xend_checked : forallb (fun r => forallb (fun a => bool_decide (xend_entry r a = Some (half_width r a))) (seqZ 0 (2 * r + 1))) (seqZ 1 max_radius) = true.
Proof. vm_compute. reflexivity. Qed.

Lemma mapM_Some {A B} (f : A -> option B) (g : A -> B) (l : list A) : (forall a, a ∈ l -> f a = Some (g a)) -> mapM f l = Some (g <$> l).
Proof. intros H. apply mapM_Some_2. induction l as [|a l IH]; constructor; [apply H; set_solver|apply IH; set_solver]. Qed.

(** The float square roots are the integer ones. *)
Lemma xend_table_ok r : 1 <= r <= max_radius -> xend_table r = Some (half_width r <$> seqZ 0 (2 * r + 1)).
Proof.
  intros Hr. apply mapM_Some. intros a Ha. pose proof xend_checked as H. rewrite forallb_forall in H. assert (In r (seqZ 1 max_radius)) as Hin by (apply list_elem_of_In, elem_of_seqZ; lia).
  specialize (H r Hin). rewrite forallb_forall in H. apply list_elem_of_In in Ha. by apply H, bool_decide_eq_true in Ha.
Qed.

Section Circle.
Context (r : Z) (Hr : 1 <= r).
Abbreviation hw := (half_width r).

Lemma hw_mono a : 1 <= a <= r -> hw (a - 1) <= hw a.
Proof. intros Ha. apply Z.sqrt_le_mono. nia. Qed.

Lemma hw_ends : hw 0 = 0 /\ hw r = r.
Proof. unfold half_width. rewrite Z.sub_0_l, Z.mul_opp_opp, !Z.sub_diag, Z.sub_0_r. split; [done|]. apply Z.sqrt_square. lia. Qed.

Lemma hw_before : hw (r - 1) + 1 <= r.
Proof.
  unfold half_width. replace (r * r - (r - 1 - r) * (r - 1 - r)) with (r * r - 1) by lia. assert (Z.sqrt (r * r - 1) < r); [|lia].
  apply Z.sqrt_lt_square; nia.
Qed.

(** ** The loops *)

Definition row (a : Z) : list (Z * Z) := (fun x => (x, a)) <$> seqZ (hw (a - 1)) (hw a - hw (a - 1) + 1).

Lemma row_elem a o : o ∈ row a <-> o.2 = a /\ hw (a - 1) <= o.1 <= hw a.
Proof.
  unfold row. rewrite list_elem_of_fmap. setoid_rewrite elem_of_seqZ. split; [intros (x & -> & Hx); cbn; lia|].
  intros [E Ho]. exists o.1. split; [destruct o; cbn in *; congruence|lia].
Qed.

Lemma put_ok o l : size_of l < r * 2 * 5 -> put_offset r o l = Val (l ++ [o]).
Proof. intros H. unfold put_offset. by rewrite (proj2 (Z.ltb_lt _ _)). Qed.

Lemma put_all {A} (g : A -> Z * Z) (xs : list A) (l : list (Z * Z)) : size_of l + size_of xs <= r * 2 * 5 ->
  each (fun x => put_offset r (g x)) xs l = Val (l ++ (g <$> xs)).
Proof.
  revert l. induction xs as [|x xs IH]; intros l Hl; [by rewrite app_nil_r|]. unfold size_of in *. cbn [each length] in *.
  rewrite put_ok by (unfold size_of; lia). rewrite bind_Val, IH by (rewrite length_app; cbn; lia). by rewrite <-app_assoc.
Qed.

Definition quarter : list (Z * Z) := (0, 0) :: (seqZ 1 r ≫= row).

Lemma quarter_ok : each (quarter_row r (hw <$> seqZ 0 (2 * r + 1))) (seqZ 1 r) [(0, 0)] = Val quarter /\ size_of quarter = 2 * r + 1.
Proof.
  destruct (each_prefix (quarter_row r (hw <$> seqZ 0 (2 * r + 1)))
    (fun done l => l = (0, 0) :: (done ≫= row) /\ size_of l = 1 + hw (Z.of_nat (length done)) + Z.of_nat (length done)) (seqZ 1 r) [(0, 0)]) as (l & -> & -> & Hl).
  - split; [done|]. change (Z.of_nat (length (A := Z) [])) with 0. destruct hw_ends as [-> _]. done.
  - intros a done rest l Ea [-> Hl]. apply seqZ_prefix in Ea as [Ea Hlen]. unfold quarter_row, xend_at.
    assert (forall b, 0 <= b <= r -> (hw <$> seqZ 0 (2 * r + 1)) !! Z.to_nat b = Some (hw b)) as Hlk.
    { intros b Hb. rewrite list_lookup_fmap. assert (seqZ 0 (2 * r + 1) !! Z.to_nat b = Some b) as ->; [apply lookup_seqZ; lia|done]. }
    rewrite !Hlk, !bind_Val by lia. pose proof (hw_mono a ltac:(lia)) as Hm. replace (Z.of_nat (length done)) with (a - 1) in Hl by lia.
    assert (hw a <= r) as Hle by (pose proof (Z.sqrt_le_mono (r * r - (a - r) * (a - r)) (r * r) ltac:(nia)) as Hsq; rewrite Z.sqrt_square in Hsq by lia; exact Hsq).
    rewrite (put_all (fun x => (x, a))) by (rewrite Hl; unfold size_of; rewrite length_seqZ; lia). eexists. split; [done|]. split.
    + rewrite bind_app. cbn. by rewrite app_nil_r.
    + replace (Z.of_nat (length (done ++ [a]))) with a by (rewrite length_app; cbn [length]; lia). unfold size_of in *. rewrite length_app, length_fmap, length_seqZ. lia.
  - split; [done|]. rewrite length_seqZ in Hl. replace (Z.of_nat (Z.to_nat r)) with r in Hl by lia. destruct hw_ends as [_ E]. rewrite E in Hl. unfold quarter. lia.
Qed.

Lemma quarter_elem o : o ∈ quarter <-> o = (0, 0) \/ 1 <= o.2 <= r /\ hw (o.2 - 1) <= o.1 <= hw o.2.
Proof.
  unfold quarter. rewrite elem_of_cons, list_elem_of_bind. setoid_rewrite row_elem. setoid_rewrite elem_of_seqZ. split; (intros [?|H]; [by left|right]).
  - destruct H as (a & [<- ?] & ?). lia.
  - exists o.2. split; [split; [done|apply H]|lia].
Qed.

(** The last two entries are in the middle row. *)
Lemma quarter_split : exists pre, quarter = pre ++ row r /\ 2 <= size_of (row r).
Proof.
  exists ((0, 0) :: (seqZ 1 (r - 1) ≫= row)). split.
  - unfold quarter. cbn. f_equal. assert (seqZ 1 r = seqZ 1 (r - 1) ++ [r]) as ->; [|rewrite bind_app; cbn; by rewrite app_nil_r].
    pose proof (seqZ_app 1 (r - 1) 1 ltac:(lia) ltac:(lia)) as E. replace (r - 1 + 1) with r in E by lia. rewrite E. f_equal. change (seqZ (1 + (r - 1)) 1) with [Z.of_nat 0 + (1 + (r - 1))]. f_equal. lia.
  - unfold size_of, row. rewrite length_fmap, length_seqZ. pose proof hw_before. destruct hw_ends as [_ E]. rewrite E. lia.
Qed.

(** The outline of the disc: from the half width of the row further out to the row's own. *)
Definition outline (o : Z * Z) : Prop :=
  Z.abs o.2 <= r /\ (if decide (Z.abs o.2 = r) then 0 else hw (r - Z.abs o.2 - 1)) <= Z.abs o.1 <= hw (r - Z.abs o.2).

Lemma mirror_elem o : o ∈ quarter ++ ((fun o => (o.1, r * 2 - o.2)) <$> take (Z.to_nat (size_of quarter - 2)) quarter) <->
  o ∈ quarter \/ (o.1, r * 2 - o.2) ∈ quarter.
Proof.
  rewrite elem_of_app, list_elem_of_fmap. split.
  - intros [Ho|(q & -> & Hq)]; [by left|right]. apply elem_of_take in Hq as (i & Hi & _). cbn. replace (r * 2 - (r * 2 - q.2)) with q.2 by lia.
    apply list_elem_of_lookup. exists i. by destruct q.
  - intros [Ho|Ho]; [by left|]. destruct quarter_split as (pre & Eq & H2). rewrite Eq in Ho |- *. unfold size_of in *. rewrite length_app.
    apply elem_of_app in Ho as [Ho|Ho].
    + right. exists (o.1, r * 2 - o.2). cbn. split; [destruct o; cbn; f_equal; lia|]. rewrite take_app. apply elem_of_app. left. rewrite take_ge by lia. done.
    + left. apply elem_of_app. right. pose proof Ho as [Er _]%row_elem. cbn in Er. assert (o.2 = r) as E2 by lia. rewrite E2 in Ho. replace (r * 2 - r) with r in Ho by lia.
      by destruct o; cbn in *; subst.
Qed.

Definition circle : list (Z * Z) :=
  let l := quarter ++ ((fun o => (o.1, r * 2 - o.2)) <$> take (Z.to_nat (size_of quarter - 2)) quarter) in
  (fun o => (o.1, o.2 - r)) <$> l ++ ((fun o => (- o.1, o.2)) <$> l).

Lemma hw_nonneg a : 0 <= hw a.
Proof. apply Z.sqrt_nonneg. Qed.

Lemma quarter_at x b : (x, b) ∈ quarter <-> 0 <= b <= r /\ (if decide (b = 0) then 0 else hw (b - 1)) <= x <= hw b.
Proof.
  rewrite quarter_elem. cbn [fst snd]. destruct hw_ends as [E0 _]. case_decide as Hb.
  - subst b. rewrite E0. split; [intros [[= ->]|?]; lia|]. intros [_ ?]. left. f_equal. lia.
  - split; [intros [[= _ ->]|?]; [done|lia]|]. intros ?. right. lia.
Qed.

(** In the table exactly the outline. *)
Lemma circle_elem o : o ∈ circle <-> outline o.
Proof.
  unfold circle. cbv zeta. set (l := quarter ++ _). assert (forall x z, (x, z) ∈ l <-> 0 <= x /\ outline (x, z - r)) as Hl.
  { intros x z. unfold l. rewrite mirror_elem. cbn [fst snd]. rewrite !quarter_at. unfold outline. cbn [fst snd].
    pose proof (hw_nonneg (z - 1)). pose proof (hw_nonneg (r * 2 - z - 1)). destruct (Z.le_gt_cases z r) as [Hz|Hz].
    - replace (r - Z.abs (z - r)) with z by lia. destruct (decide (z = 0)), (decide (Z.abs (z - r) = r)); try lia;
        (split; [intros [?|[? Ho]]; [lia|]|lia]); (destruct (decide (z = r)) as [->|]; [replace (r * 2 - r) with r in Ho by lia; destruct (decide (r = 0)); lia|lia]).
    - replace (r - Z.abs (z - r)) with (r * 2 - z) by lia. destruct (decide (r * 2 - z = 0)), (decide (Z.abs (z - r) = r)); try lia; (split; [intros [?|?]; lia|lia]). }
  rewrite list_elem_of_fmap. setoid_rewrite elem_of_app. setoid_rewrite list_elem_of_fmap. split.
  - intros ([x z] & -> & [Ho|([x' z'] & [= -> ->] & Ho)]); apply Hl in Ho as [_ Ho]; [done|]. unfold outline in *. cbn in *. by rewrite Z.abs_opp.
  - destruct o as [x z]. intros Ho. destruct (Z.le_gt_cases 0 x) as [Hx|Hx].
    + exists (x, z + r). cbn. split; [f_equal; lia|]. left. apply Hl. split; [done|]. by replace (z + r - r) with z by lia.
    + exists (x, z + r). cbn. split; [f_equal; lia|]. right. exists (- x, z + r). cbn. split; [f_equal; lia|]. apply Hl. split; [lia|].
      unfold outline in *. cbn in *. rewrite Z.abs_opp. by replace (z + r - r) with z by lia.
Qed.

Lemma circle_loops : xend_table r = Some (hw <$> seqZ 0 (2 * r + 1)) -> circle_offsets r = Val circle.
Proof.
  intros Ex. unfold circle_offsets. rewrite Ex. destruct quarter_ok as [-> Hq]. rewrite bind_Val.
  rewrite (put_all (fun o : Z * Z => (o.1, r * 2 - o.2))) by (unfold size_of in *; rewrite length_take; lia). rewrite bind_Val.
  rewrite (put_all (fun o : Z * Z => (- o.1, o.2))) by (unfold size_of in *; rewrite length_app, length_fmap, length_take; lia). by rewrite bind_Val.
Qed.
End Circle.

Lemma circle_offsets_ok r : 1 <= r <= max_radius -> exists l, circle_offsets r = Val l /\ forall o, o ∈ l <-> outline r o.
Proof. intros Hr. exists (circle r). split; [apply circle_loops; [lia|by apply xend_table_ok]|]. intros o. apply circle_elem. lia. Qed.

(** C36. [FindBestPath] builds the cells on the radius around a target in a table of [10 * radius] entries, by three
    loops that copy parts of what is there already.  For every radius from 1 to 128 squares no write falls outside
    the table, and the entries are exactly the outline of the disc of that radius: in each row all cells from the half
    width of the row further out to that of the row itself, on both sides.  In particular no
    entry is further away than the radius, and the outermost cells of every row are there. *)
Theorem circle_offsets_outline r : 1 <= r <= max_radius ->
  exists l, circle_offsets r = Val l /\ (forall o, o ∈ l <-> outline r o) /\
    (forall o, o ∈ l -> o.1 * o.1 + o.2 * o.2 <= r * r) /\
    (forall z, Z.abs z <= r -> exists x, x = Z.sqrt (r * r - z * z) /\ (x, z) ∈ l /\ (- x, z) ∈ l).
Proof.
  intros Hr. assert (1 <= r) as H1 by lia. exists (circle r). split; [by apply circle_loops, xend_table_ok|]. setoid_rewrite circle_elem; [|done..]. split_and!; [done|..].
  - intros [x z] (Hz & _ & Hx). cbn in *. unfold half_width in Hx. pose proof (Z.sqrt_spec (r * r - (r - Z.abs z - r) * (r - Z.abs z - r)) ltac:(nia)) as [Hs _]. nia.
  - intros z Hz. exists (Z.sqrt (r * r - z * z)). split; [done|].
    assert (forall x, Z.abs x = Z.sqrt (r * r - z * z) -> outline r (x, z)) as Ho.
    { intros x Ex. unfold outline. cbn. rewrite Ex. assert (half_width r (r - Z.abs z) = Z.sqrt (r * r - z * z)) as Eh by (unfold half_width; f_equal; nia).
      split; [done|]. split; [|lia]. case_decide; [apply Z.sqrt_nonneg|]. rewrite <-Eh. apply hw_mono; lia. }
    pose proof (Z.sqrt_nonneg (r * r - z * z)). split; apply Ho; lia.
Qed.

Lemma circle_offsets_outline_witness : exists l, circle_offsets 3 = Val l /\ (2, 2) ∈ l /\ (-3, 0) ∈ l.
Proof.
  destruct (circle_offsets_outline 3) as (l & E & H & _); [done|]. exists l. split; [done|]. rewrite !H. split; vm_compute; (split; [done|split; done]).
Defined.
