(* ===== verification/PathQueryInv.v ===== *)
(** What the answers of the path finder are worth, from the position of a unit to the positions of its path.

    A query is answered on a pather that rests between searches ([Resting]), whatever was searched before.
    [QueryEnv] collects how the path finder, its pathers and the terrain data fit
    together; that the cost arrays of the path finder are fit for the searches is shown in the file of the
    arrays. *)

From S2P Require Import Prelude Outcome Float32 FloatOrder OpenQueue OpenQueueSpec MicroPather PatherInv PatherLoop PatherResult PatherRules PatherSearch PatherCorrect PathSearch PathFinder PathFinderInv PathLine PathLineInv PathQuery PathPos PathDemo PathCircle.

(** ** The positions of a path *)

Definition centre_checked (s k : Z) : bool := bool_decide (to_int (float_of_Z (k * s + s / 2)) = Val (k * s + s / 2)).

Lemma centres : forallb (fun s => forallb (centre_checked s) (seqZ 0 max_side)) [32; 64; 128] = true.
Proof. vm_compute. reflexivity. Qed.

Lemma centre_exact s k : s = 32 \/ s = 64 \/ s = 128 -> 0 <= k < max_side -> to_int (float_of_Z (k * s + s / 2)) = Val (k * s + s / 2).
Proof.
  intros Hs Hk. pose proof centres as H. rewrite forallb_forall in H. assert (In s [32; 64; 128]) as Hin by (cbn; destruct Hs as [->|[->| ->]]; auto).
  specialize (H s Hin). rewrite forallb_forall in H. assert (In k (seqZ 0 max_side)) as Hik by (apply list_elem_of_In, elem_of_seqZ; lia).
  apply H, bool_decide_eq_true in Hik. done.
Qed.

(** The points lie at the centres of the cells, [y] from the height map. *)
Definition at_centres (f : CPathFinder) (ar : SAreaData) (indices : list Z) (ps : list AIFloat3) : Prop :=
  Forall2 (fun i a => (pos_x a, pos_z a) = PathIndex2Pos f i /\ GetElevationAt ar (pos_x a) (pos_z a) = Val (pos_y a)) indices ps.

Lemma centre_quot s k : s = 32 \/ s = 64 \/ s = 128 -> 0 <= k -> Z.quot (k * s + s / 2) 8 = s / 8 * k + s / 16 /\ 2 <= s / 16 /\ s / 8 = 2 * (s / 16).
Proof.
  intros Hs Hk. assert (exists g, s = 16 * g /\ 2 <= g) as (g & -> & Hg) by (destruct Hs as [->|[->| ->]]; [exists 2|exists 4|exists 8]; done).
  replace (16 * g / 2) with (8 * g) by (replace (16 * g) with (8 * g * 2) by lia; by rewrite Z.div_mul).
  replace (16 * g / 8) with (2 * g) by (replace (16 * g) with (2 * g * 8) by lia; by rewrite Z.div_mul).
  replace (16 * g / 16) with g by (rewrite Z.mul_comm; by rewrite Z.div_mul). split; [|done].
  replace (k * (16 * g) + 8 * g) with ((2 * g * k + g) * 8) by lia. apply Z.quot_mul. done.
Qed.

Lemma elevation_ok bound ar f p n : QueryEnv bound ar f p -> GridOk p -> inside p n ->
  exists y, GetElevationAt ar (PathIndex2Pos f (cell_index2 (mapSizeX p) n)).1 (PathIndex2Pos f (cell_index2 (mapSizeX p) n)).2 = Val y.
Proof.
  intros [HP HB [Hw Hl] Ex Ey] [HX HY _] Hn. pose proof HP as [Hpx Hpy Hmx Hmy Hsq _ _ _ _ _]. destruct HB as (_ & Bx & By).
  unfold PathIndex2Pos. assert (pathMapXSize f = mapSizeX p - 2) as EX by lia. rewrite EX. pose proof (index2_xy _ _ n HX Hn) as [= E1 E2]. rewrite Z.mod_eq in E2 by lia.
  rewrite E1 in E2 |- *. cbn [fst snd]. destruct Hn as [Hx Hy]. replace (cell_index2 (mapSizeX p) n - (cell_y (mapSizeX p) n - 1) * (mapSizeX p - 2)) with (cell_x (mapSizeX p) n - 1) by lia.
  set (x := cell_x (mapSizeX p) n - 1) in *. set (z := cell_y (mapSizeX p) n - 1) in *. unfold GetElevationAt.
  rewrite (centre_exact _ z Hsq), (centre_exact _ x Hsq), !bind_Val by (unfold max_side in *; lia). rewrite Hw.
  destruct (centre_quot _ z Hsq ltac:(lia)) as (-> & Hg & Hg2), (centre_quot _ x Hsq ltac:(lia)) as (-> & _). rewrite EX in *. rewrite Hg2 in *. set (g := squareSize f / 16) in *.
  set (i := (2 * g * z + g) * (2 * g * (mapSizeX p - 2)) + (2 * g * x + g)).
  assert (0 <= i < size_of (heightMap ar)) as Hi.
  { rewrite Hl. unfold i. assert (0 <= 2 * g * x + g < 2 * g * (mapSizeX p - 2)) by nia. assert (0 <= 2 * g * z + g < 2 * g * pathMapYSize f) by nia. nia. }
  rewrite (proj2 (Z.leb_le _ _)) by lia. destruct (lookup_lt_is_Some_2 (heightMap ar) (Z.to_nat i)) as [h ->]; [unfold size_of in Hi; lia|]. eauto.
Qed.

Section Fill.
Context (bound : float * float) (ar : SAreaData) (f : CPathFinder) (p : CMicroPather) (E : Z -> bool).
Context (HE : QueryEnv bound ar f p) (HP : PatherOk p E).
Abbreviation i2 := (cell_index2 (mapSizeX p)).

Lemma push_pos_ok n ps : inside p n -> exists a, push_pos f ar (i2 n) ps = Val (ps ++ [a]) /\ at_centres f ar [i2 n] [a].
Proof.
  intros Hn. destruct (elevation_ok _ _ _ _ n HE (po_grid _ _ HP) Hn) as (y & Ey). unfold push_pos. destruct (PathIndex2Pos f (i2 n)) as [x z] eqn:Exz. cbn in Ey.
  rewrite Ey, bind_Val. eexists. split; [done|]. constructor; [|constructor]. cbn. by rewrite Exz.
Qed.

Lemma push_all_ok cells ps : Forall (inside p) cells -> exists qs, each (push_pos f ar) (i2 <$> cells) ps = Val (ps ++ qs) /\ at_centres f ar (i2 <$> cells) qs.
Proof.
  intros Hc. revert ps. induction Hc as [|n cells Hn _ IH]; intros ps; [exists []; rewrite app_nil_r; split; [done|constructor]|].
  destruct (push_pos_ok n ps Hn) as (a & Ea & Ha). cbn [fmap list_fmap each]. rewrite Ea, bind_Val. destruct (IH (ps ++ [a])) as (qs & -> & Hq). exists (a :: qs).
  rewrite <-app_assoc. split; [done|]. inversion Ha; subst. by constructor.
Qed.

(** What a filled [CPathInfo] holds: the last point only, or the points from a cell on that is in a straight line from the start. *)
Definition Filled (i : CPathInfo) : Prop :=
  if isEndPos i then exists e, last (ipath i) = Some e /\ at_centres f ar [e] (posPath i)
  else 0 <= istart i < size_of (ipath i) /\ at_centres f ar (drop (Z.to_nat (istart i)) (ipath i)) (posPath i) /\
    (0 < istart i -> exists a b, ipath i !! 0%nat = Some (i2 a) /\ ipath i !! Z.to_nat (istart i) = Some (i2 b) /\ straight p a b).

Lemma FillPathInfo_ok i cells : TerrainOk p -> ThreatOk p -> fun_ok p (moveFun p) -> posPath i = [] -> ipath i = i2 <$> cells -> cells <> [] -> Forall (inside p) cells ->
  exists i', FillPathInfo f ar p i = Val i' /\ ipath i' = ipath i /\ isEndPos i' = isEndPos i /\ Filled i'.
Proof.
  intros HT Hth Hmv Hps Hip Hne Hin. unfold FillPathInfo, Filled. destruct (isEndPos i) eqn:Ee.
  - rewrite Hip, Hps, fmap_last. destruct (last cells) as [n|] eqn:El; [|by apply last_None in El]. cbn [fmap option_fmap option_map].
    assert (inside p n) as Hn by (apply last_Some_elem_of in El; by eapply Forall_forall in Hin).
    destruct (push_pos_ok n [] Hn) as (a & -> & Ha). rewrite bind_Val. eexists. split; [done|]. cbn. rewrite Ee. split_and!; try done.
    exists (i2 n). by rewrite Hip, fmap_last, El.
  - destruct cells as [|a rest] eqn:Ec; [done|]. destruct (RefinePath_ok f p E cells a rest HP (env_graph _ _ _ _ HE) HT Hth Hmv Ec) as (k & Ek & Hk & Hst & _); [by rewrite Ec|].
    rewrite <-Ec in *. rewrite Hip, Ek, bind_Val, Hps. rewrite <-fmap_drop.
    destruct (push_all_ok (drop (Z.to_nat k) cells) []) as (qs & -> & Hq); [by apply Forall_drop|]. rewrite bind_Val. eexists. split; [done|]. cbn. rewrite Ee, Hip. split_and!; try done.
    + lia.
    + unfold size_of in *. rewrite length_fmap. lia.
    + by rewrite <-fmap_drop.
    + intros Hpos. destruct (Hst Hpos) as (b & Hb & Hs). exists a, b. split_and!; try done; [by rewrite Ec|]. by rewrite list_lookup_fmap, Hb.
Qed.
End Fill.

Lemma route_inside p maxThreat s l n c t : TerrainOk p -> inside p s -> route p maxThreat s l n c t -> Forall (inside p) l /\ inside p n /\ l <> [].
Proof.
  intros HT Hs Hw. induction Hw as [|l u c t d v w Hw (IHl & IHu & _) Hst]; [by split_and!; [constructor|..]|].
  destruct Hst as (Hd & -> & Hb & _). destruct (neighbour_in_map _ _ _ _ IHu Hd) as [Hm _]. destruct (CantMoveTo_ok p (d.1 + u) HT Hm) as (b & Eb & Hin).
  cbn [astar_rules rblocked] in Hb. rewrite Eb in Hb. injection Hb as ->. specialize (Hin eq_refl). split_and!; [by constructor|done|done].
Qed.

(** A solved query is filled, another one is left empty. *)
Lemma fill_answer_ok bound ar f p p' E i maxThreat s goal a : QueryEnv bound ar f p -> PatherOk p' E -> SameMap p p' -> AstarOk p maxThreat -> inside p s ->
  posPath i = [] -> Answered (route p maxThreat s) (mapSizeX p) goal [] a ->
  exists i', fill_answer ar f p' i a = Val i' /\ ipath i' = path a /\ isEndPos i' = isEndPos i /\
    (result a = SOLVED -> Filled ar f p' i') /\ (result a = NO_SOLUTION -> ipath i' = [] /\ posPath i' = []).
Proof.
  intros HE HP HS HA Hs Hps Hans. assert (QueryEnv bound ar f p') as HE' by (eapply env_same; [done|apply HS|apply HS]). unfold fill_answer.
  destruct Hans as [(Er & n & l & c & t & _ & Hw & Ep & _)|(Er & Ep & _)]; rewrite Er; cbn [Z.eqb SOLVED NO_SOLUTION].
  - destruct (route_inside p maxThreat s l n c t (ao_terrain _ _ HA) Hs Hw) as (Hl & _ & Hne). pose proof (astar_ok_same p p' maxThreat HS HA) as [HT Hth Hmv _ _].
    destruct (FillPathInfo_ok bound ar f p' E HE' HP (i <| ipath := path a |>) (rev l) HT Hth Hmv) as (i' & -> & Hip & He & Hf); cbn in *; try done.
    + rewrite Ep. by rewrite (sm_x _ _ HS).
    + intros Hrev. apply (f_equal (@length Z)) in Hrev. rewrite length_rev in Hrev. by destruct l.
    + apply Forall_rev. unfold inside in *. by rewrite (sm_x _ _ HS), (sm_y _ _ HS).
    + exists i'. split_and!; try done; by rewrite Hip.
  - eexists. split; [done|]. cbn. by rewrite Hps, Ep.
Qed.

(** ** One target: [MakePath] *)

(** How [Pos2MoveNode] sees a position that is corrected first. *)
Definition node_of (bound : float * float) (f : CPathFinder) (a : AIFloat3) (n : Z) : Prop := Pos2MoveNode f (CorrectPosition bound a) = Val n.

(** The query as [MakePath] leaves it, but for the answer. *)
Definition single_corrected (bound : float * float) (q : CQueryPathSingle) : CQueryPathSingle :=
  (SinglePrepare q) <| s_startPos ::= CorrectPosition bound |> <| s_endPos ::= CorrectPosition bound |>.

Lemma MakePath_eq bound ar f fuel q p radius s e : to_int (fdiv (s_maxRange q) (float_of_Z (squareSize f))) = Val radius ->
  node_of bound f (s_startPos q) s -> node_of bound f (s_endPos q) e ->
  MakePath bound ar f fuel q p =
    (r ← FindBestPathToPointOnRadius fuel s e radius (s_maxThreat q) (hit_or_all (s_hitTest q)) [] (set_data (s_base q) p);
     match r with
     | None => Val None
     | Some (a, p) => i ← fill_answer ar f p (CPathInfo_new (s_endPosOnly q)) a; Val (Some ((single_corrected bound q) <| s_path := i |> <| s_cost := cost a |>, p))
     end).
Proof.
  intros Er Es Ee. unfold MakePath. change (s_maxRange (SinglePrepare q)) with (s_maxRange q). rewrite Er, bind_Val. unfold node_of in Es, Ee.
  destruct q. cbv zeta. cbn -[Pos2MoveNode FindBestPathToPointOnRadius CorrectPosition fill_answer] in *. rewrite Es. cbn -[Pos2MoveNode FindBestPathToPointOnRadius CorrectPosition fill_answer]. rewrite Ee. reflexivity.
Qed.

(** C30. [MakePath], the worker's half of a single-target query, for any two positions whose coordinates are numbers: from a
    pather in whatever state earlier searches left, it ends and is defined throughout, and the query
    then holds the right answer.  If some cell within the range of the target that the hit test accepts can be
    reached over passable cells within the threat limit, the path is such a way from the cell of the start position; its
    points are the centres of its cells (only the last one if that was asked), from a cell on that
    is in a straight, free line from the start; otherwise the path is empty.  Positions off the map are moved onto it
    first, and a range below one square is answered with an empty path.  The pather rests again. *)
Theorem MakePath_correct bound ar f q p radius : QueryEnv bound ar f p -> Resting p -> pos_ok (s_startPos q) -> pos_ok (s_endPos q) ->
  AstarOk (set_data (s_base q) p) (s_maxThreat q) -> to_int (fdiv (s_maxRange q) (float_of_Z (squareSize f))) = Val radius -> radius <= max_radius ->
  exists N q' p' s e a, (forall fuel, (N <= fuel)%nat -> MakePath bound ar f fuel q p = Val (Some (q', p'))) /\
    node_of bound f (s_startPos q) s /\ node_of bound f (s_endPos q) e /\
    Answered (route (set_data (s_base q) p) (s_maxThreat q) s) (mapSizeX p)
      (fun n => (0 <? radius) && hit_at (mapSizeX p) (cell_x (mapSizeX p) e) (cell_y (mapSizeX p) e) radius (half_width radius <$> seqZ 0 (2 * radius + 1)) (hit_or_all (s_hitTest q)) n)
      [] a /\
    ipath (s_path q') = path a /\ s_cost q' = cost a /\
    (result a = SOLVED -> Filled ar f p' (s_path q')) /\ (result a = NO_SOLUTION -> posPath (s_path q') = []) /\
    Resting p' /\ isRunning p' = false.
Proof.
  intros HE HR Hs He HA Er Hmax. destruct (env_node _ _ _ _ _ HE Hs) as (s & Es & Is), (env_node _ _ _ _ _ HE He) as (e & Ee & Ie).
  set (p1 := set_data (s_base q) p) in *. pose proof (set_data_resting (s_base q) p HR) as HR1. fold p1 in HR1.
  assert (interior (mapSizeX p1) (mapSizeY p1) s /\ interior (mapSizeX p1) (mapSizeY p1) e) as [Is1 Ie1] by done.
  assert (xend_table radius = Some (half_width radius <$> seqZ 0 (2 * radius + 1)) \/ radius <= 0 /\ exists xend, xend_table radius = Some xend) as Hx.
  { destruct (Z.lt_ge_cases 0 radius); [left; apply xend_table_ok; lia|right; split; [done|]].
    destruct (decide (radius = 0)) as [->|]; [by eexists|]. unfold xend_table. rewrite seqZ_nil by lia. by exists []. }
  assert (exists N a p', (forall fuel, (N <= fuel)%nat -> FindBestPathToPointOnRadius fuel s e radius (s_maxThreat q) (hit_or_all (s_hitTest q)) [] p1 = Val (Some (a, p'))) /\
    Answered (route p1 (s_maxThreat q) s) (mapSizeX p)
      (fun n => (0 <? radius) && hit_at (mapSizeX p) (cell_x (mapSizeX p) e) (cell_y (mapSizeX p) e) radius (half_width radius <$> seqZ 0 (2 * radius + 1)) (hit_or_all (s_hitTest q)) n) [] a /\
    Resting p' /\ SameMap p1 p' /\ isRunning p' = false) as (N & a & p' & Hrun & Hans & HR' & HS & Hrn).
  { assert (forall xend, xend_table radius = Some xend -> _) as Hf by (intros xend Hxe;
      exact (FindBestPathToPointOnRadius_correct p1 s e radius xend (s_maxThreat q) (hit_or_all (s_hitTest q)) [] HR1 HA (interior_in_map _ _ _ Is1) (interior_in_map _ _ _ Ie1) Hxe)).
    cbv zeta in Hf. rewrite (FixNode_id _ _ s Is1), (FixNode_id _ _ e Ie1) in Hf.
    destruct Hx as [Hx|[Hle [xend Hx]]]; destruct (Hf _ Hx) as (N & a & p' & Hrun & Ha & HR' & HS & Hrn); exists N, a, p'; split_and!; try done.
    - destruct (Z.leb_spec radius 0) as [Hle|Hgt]; [subst a; right; split_and!; try done; intros (n & l & c & t & Hn & _); rewrite (proj2 (Z.ltb_ge _ _)) in Hn by lia; done|].
      rewrite (proj2 (Z.ltb_lt _ _)) by done. done.
    - rewrite (proj2 (Z.leb_le _ _)) in Ha by done. subst a. right. split_and!; try done. intros (n & l & c & t & Hn & _). rewrite (proj2 (Z.ltb_ge _ _)) in Hn by lia. done. }
  destruct HR' as (E' & HP' & HE'). assert (QueryEnv bound ar f p1) as HE1 by (by eapply env_same).
  destruct (fill_answer_ok bound ar f p1 p' E' (CPathInfo_new (s_endPosOnly q)) (s_maxThreat q) s _ a HE1 HP' HS HA Is1 eq_refl Hans) as (i' & Ei & Hip & _ & Hf & Hn).
  exists N. eexists. exists p', s, e, a. split_and!; try done.
  - intros fuel Hfuel. rewrite (MakePath_eq bound ar f fuel q p radius s e Er Es Ee). fold p1. rewrite (Hrun fuel Hfuel), bind_Val. cbv beta iota. rewrite Ei, bind_Val. reflexivity.
  - exact Hip.
  - reflexivity.
  - exact Hf.
  - intros Hno. by apply Hn.
  - exists E'. done.
Qed.

Definition demo_single : CQueryPathSingle :=
  {| s_base := demo_base SINGLE; s_path := CPathInfo_new false; s_cost := f0; s_startPos := demo_west; s_endPos := demo_east; s_maxRange := float_of_Z 40;
     s_hitTest := Some (fun a b => bool_decide (a = b)); s_maxThreat := FLT_MAX; s_endPosOnly := false |}.

Lemma MakePath_correct_witness :
  (exists N q' p', forall fuel, (N <= fuel)%nat -> MakePath demo_bound demo_area demo_finder fuel demo_single demo_pather = Val (Some (q', p'))) /\
  match MakePath demo_bound demo_area demo_finder 10 demo_single demo_pather with Val (Some (q', _)) => ipath (s_path q') = [0; 1] | _ => False end.
Proof.
  split; [|vm_compute; reflexivity].
  destruct (MakePath_correct demo_bound demo_area demo_finder demo_single demo_pather 1 demo_env demo_resting) as (N & q' & p' & s & e & a & Hrun & _); [done|done|apply demo_astar|by vm_compute|done|].
  exists N, q', p'. exact Hrun.
Defined.

(** ** Several targets: [FindBestPath] *)

(** Marking a node changes its mark only. *)
Lemma mark_node_ok p m E v nd b : PatherOk (p <| pathNodeMem := m |>) E -> m !! v = Some nd ->
  PatherOk (p <| pathNodeMem := <[v := nd <| isEndNode := b |>]> m |>) (mark E v b).
Proof.
  intros [HG Hfr Hd Hn] Hv. constructor; [by destruct HG|done|..]; cbn in *.
  - intros n. rewrite <-Hd. destruct (decide (n = v)) as [->|]; [rewrite lookup_insert_eq, Hv; split; by eexists|by rewrite lookup_insert_ne].
  - intros n nx. unfold mark. destruct (decide (n = v)) as [->|]; [rewrite lookup_insert_eq|rewrite lookup_insert_ne by done; apply Hn].
    intros [= <-]. destruct (Hn v nd Hv) as (Hok & Hf & _). done.
Qed.

Section Targets.
Context (bound : float * float) (ar : SAreaData) (f : CPathFinder) (p : CMicroPather) (E : Z -> bool) (r : Z) (offs : list (Z * Z)) (hit : HitFunc) (withGoal : bool).
Context (HE : QueryEnv bound ar f p) (HP : PatherOk p E) (Hrest : forall n, inside p n -> E n = false) (Hoffs : forall o, o ∈ offs <-> outline r o).
Abbreviation X := (mapSizeX p).

(** [v] counts as reaching the target at [t]: on the outline of the disc around it and accepted by the hit test, or, if that was asked, [t] itself. *)
Definition reaches (t v : Z) : Prop :=
  (inside p v /\ outline r (cell_x X v - cell_x X t, cell_y X v - cell_y X t) /\
   hit (cell_x X v - 1, cell_y X v - 1) (cell_x X t - 1, cell_y X t - 1) = true) \/ (withGoal = true /\ v = t).

Lemma ring_elem t v : inside p t -> v ∈ ring f hit offs (cell_x X t) (cell_y X t) ++ (if withGoal then [t] else []) <-> reaches t v.
Proof.
  intros Ht. destruct HE as [HPF _ _ Ex Ey]. pose proof (po_grid _ _ HP) as [HX HY _]. rewrite elem_of_app. unfold reaches.
  assert (v ∈ (if withGoal then [t] else []) <-> withGoal = true /\ v = t) as -> by (destruct withGoal; rewrite ?list_elem_of_singleton; set_solver).
  assert (v ∈ ring f hit offs (cell_x X t) (cell_y X t) <-> inside p v /\ outline r (cell_x X v - cell_x X t, cell_y X v - cell_y X t) /\
    hit (cell_x X v - 1, cell_y X v - 1) (cell_x X t - 1, cell_y X t - 1) = true) as ->; [|done].
  unfold ring. rewrite list_elem_of_bind. rewrite <-Ex, <-Ey. unfold MoveXY2MoveNode. rewrite <-Ex. split.
  - intros (o & Hv & Ho). cbv zeta in Hv. case_match eqn:Hb; [|by apply not_elem_of_nil in Hv]. apply list_elem_of_singleton in Hv as ->. bools.
    destruct (cell_eq X (cell_x X t + o.1) (cell_y X t + o.2)) as [-> ->]; [lia|]. split_and!; [|apply Hoffs|done].
    + unfold inside, interior. destruct (cell_eq X (cell_x X t + o.1) (cell_y X t + o.2)) as [-> ->]; lia.
    + replace (cell_x X t + o.1 - cell_x X t, cell_y X t + o.2 - cell_y X t) with o by (destruct o; cbn; f_equal; lia). done.
  - intros (Hv & Ho & Hh). exists (cell_x X v - cell_x X t, cell_y X v - cell_y X t). split; [|by apply Hoffs]. cbv zeta. cbn [fst snd].
    replace (cell_x X t + (cell_x X v - cell_x X t)) with (cell_x X v) by lia. replace (cell_y X t + (cell_y X v - cell_y X t)) with (cell_y X v) by lia. rewrite Hh.
    destruct Hv as [Hvx Hvy]. rewrite (proj2 (Z.leb_le _ _)), (proj2 (Z.ltb_lt _ _)), (proj2 (Z.leb_le _ _)), (proj2 (Z.ltb_lt _ _)) by lia. cbn.
    apply list_elem_of_singleton. apply cell_split.
Qed.

Definition collected (done : list AIFloat3) (st : gmap Z PathNode * list AIFloat3 * list Z * list Z) : Prop :=
  let '(m, targets, ends, nodeTargets) := st in
  targets = CorrectPosition bound <$> done /\
  (exists E', PatherOk (p <| pathNodeMem := m |>) E' /\ forall n, inside p n -> E' n = among nodeTargets n) /\
  Forall (inside p) nodeTargets /\
  (forall n, n ∈ nodeTargets <-> exists a, a ∈ done /\ node_of bound f a n) /\
  (forall v, v ∈ ends <-> exists t, t ∈ nodeTargets /\ reaches t v).

Lemma add_target_ok a done st : pos_ok a -> collected done st -> exists st', add_target bound f hit withGoal offs a st = Val st' /\ collected (done ++ [a]) st'.
Proof.
  destruct st as [[[m targets] ends] nts]. intros Ha (Hts & (E' & HP' & HE') & Hin & Hnt & Hends). destruct (env_node _ _ _ _ a HE Ha) as (n & En & Hn). unfold add_target. rewrite En, bind_Val.
  destruct (proj2 (po_dom _ _ HP' n) (interior_in_map _ _ _ Hn)) as [nd Hnd]. cbn in Hnd. rewrite (deref_Some _ _ _ Hnd), bind_Val.
  destruct (po_node _ _ HP' n nd Hnd) as (_ & _ & ->). rewrite (HE' n Hn). assert (targets ++ [CorrectPosition bound a] = CorrectPosition bound <$> done ++ [a]) as Hts' by (by rewrite fmap_app, Hts).
  assert (forall v, (exists a', a' ∈ done ++ [a] /\ node_of bound f a' v) <-> (exists a', a' ∈ done /\ node_of bound f a' v) \/ v = n) as Hiff.
  { intros v. setoid_rewrite elem_of_app. setoid_rewrite list_elem_of_singleton. split.
    - intros (a' & [Hd| ->] & Hv); [left; eauto|right]. unfold node_of in Hv. congruence.
    - intros [(a' & Hd & Hv)| ->]; [eauto|]. exists a. auto. }
  unfold among. case_bool_decide as Hold.
  - eexists. split; [done|]. split_and!; try done; [by exists E'|]. intros v. rewrite Hnt, Hiff. split; [auto|]. intros [?| ->]; [done|]. by apply Hnt.
  - assert (MoveNode2MoveXY f n = (cell_x X n, cell_y X n)) as -> by (unfold MoveNode2MoveXY; by rewrite <-(qe_x _ _ _ _ HE)).
    assert (MoveXY2MoveNode f (cell_x X n) (cell_y X n) = n) as -> by (apply MoveXY2MoveNode_cell; by eapply env_graph).
    eexists. split; [done|]. split_and!; try done.
    + exists (mark E' n true). split; [by apply mark_node_ok|]. intros v Hv. unfold mark, among. case_decide as Hvn; [subst; rewrite bool_decide_true by set_solver; done|].
      rewrite (HE' v Hv). unfold among. apply bool_decide_ext. set_solver.
    + apply Forall_app. split; [done|by constructor].
    + intros v. rewrite elem_of_app, list_elem_of_singleton, Hnt. symmetry. apply Hiff.
    + intros v. rewrite elem_of_app, Hends, (ring_elem n v Hn). setoid_rewrite elem_of_app. setoid_rewrite list_elem_of_singleton. split.
      * intros [(t & Ht & Hr)|Hr]; [exists t; auto|exists n; auto].
      * intros (t & [Ht| ->] & Hr); [left; eauto|by right].
Qed.

Lemma collect_ok targets : Forall pos_ok targets -> exists m ends nts, each (add_target bound f hit withGoal offs) targets (pathNodeMem p, [], [], []) =
    Val (m, CorrectPosition bound <$> targets, ends, nts) /\ collected targets (m, CorrectPosition bound <$> targets, ends, nts).
Proof.
  intros Hok. destruct (each_ok (add_target bound f hit withGoal offs) collected targets (pathNodeMem p, [], [], [])) as ([[[m ts] ends] nts] & Ee & Hc).
  - split_and!; try done; [|set_solver|set_solver]. exists E. split; [by destruct p|]. intros n Hn. rewrite (Hrest n Hn). done.
  - intros a done st Ha. apply add_target_ok. by eapply Forall_forall in Hok.
  - pose proof Hc as (-> & _). eauto 6.
Qed.

End Targets.

Lemma unmark_ok p m E' nts : PatherOk (p <| pathNodeMem := m |>) E' -> Forall (inside p) nts -> (forall n, inside p n -> E' n = among nts n) ->
  exists m', each unmark nts m = Val m' /\ Resting (p <| pathNodeMem := m' |>).
Proof.
  intros HP' Hin HE'. destruct (each_ok unmark (fun done m1 => exists E1, PatherOk (p <| pathNodeMem := m1 |>) E1 /\ forall n, inside p n -> E1 n = E' n && negb (among done n)) nts m)
    as (m' & Em & E1 & HP1 & HE1).
  - exists E'. split; [done|]. intros n _. by rewrite andb_true_r.
  - intros v done m1 Hv (E1 & HP1 & HE1). pose proof (proj1 (Forall_forall _ _) Hin v Hv) as Hvi. destruct (proj2 (po_dom _ _ HP1 v) (interior_in_map _ _ _ Hvi)) as [nd Hnd]. cbn in Hnd.
    unfold unmark. rewrite (deref_Some _ _ _ Hnd), bind_Val. eexists. split; [done|]. exists (mark E1 v false). split; [by apply mark_node_ok|].
    intros n Hn. unfold mark, among. case_decide as Hnv; [subst; rewrite bool_decide_true by set_solver; by rewrite andb_false_r|].
    rewrite (HE1 n Hn). unfold among. f_equal. f_equal. apply bool_decide_ext. set_solver.
  - exists m'. split; [done|]. exists E1. split; [done|]. intros n Hn. rewrite (HE1 n Hn), (HE' n Hn). by destruct (among nts n).
Qed.

Lemma fix_inside p l : Forall (inside p) l -> FixNode (mapSizeX p) (mapSizeY p) <$> l = l.
Proof. induction 1 as [|n l Hn _ IH]; [done|]. cbn. by rewrite IH, (FixNode_id _ _ _ Hn). Qed.

Lemma inside_in_map p l : Forall (inside p) l -> Forall (in_map (mapSizeX p) (mapSizeY p)) l.
Proof. intros H. eapply Forall_impl; [exact H|]. intros n. apply interior_in_map. Qed.

(** The search for any of several nodes inside the map, none of them included. *)
Lemma any_point_ok p s ends targets maxThreat : Resting p -> AstarOk p maxThreat -> inside p s -> Forall (inside p) ends -> Forall (inside p) targets ->
  exists N a e' t' p', (forall fuel, (N <= fuel)%nat -> FindBestPathToAnyGivenPoint fuel s ends targets maxThreat [] p = Val (Some (a, e', t', p'))) /\
    Answered (route p maxThreat s) (mapSizeX p) (among ends) [] a /\ Resting p' /\ SameMap p p' /\ isRunning p' = false.
Proof.
  intros HR HA Hs He Ht. destruct ends as [|e rest] eqn:Ee.
  - exists 0%nat. eexists _, _, _, _. split; [done|]. split_and!; try done.
    + right. split_and!; try done. intros (n & l & c & t & Hn & _). done.
    + destruct HR as (E & [HG Hfr Hd Hn] & HE). exists E. split; [|done]. constructor; [by destruct HG|done..].
  - rewrite <-Ee in *. destruct (FindBestPathToAnyGivenPoint_correct p s ends targets maxThreat [] HR HA (interior_in_map _ _ _ Hs) (inside_in_map _ _ He) (inside_in_map _ _ Ht)) as (N & a & p' & Hrun & Hans & HR' & HS & Hrn); [by subst|].
    rewrite (fix_inside p ends He), (FixNode_id _ _ s Hs) in *. eauto 10.
Qed.

Definition multi_corrected (bound : float * float) (q : CQueryPathMulti) : CQueryPathMulti :=
  (MultiPrepare q) <| m_targets := CorrectPosition bound <$> m_targets q |> <| m_startPos ::= CorrectPosition bound |>.

Lemma FindBestPath_eq bound ar f fuel q p radius offs m ends nts m' s : flt (m_maxRange q) (float_of_Z (squareSize f)) = false ->
  to_int (fdiv (m_maxRange q) (float_of_Z (squareSize f))) = Val radius -> circle_offsets radius = Val offs ->
  each (add_target bound f (hit_or_all (m_hitTest q)) (m_withGoal q) offs) (m_targets q) (pathNodeMem p, [], [], []) = Val (m, CorrectPosition bound <$> m_targets q, ends, nts) ->
  each unmark nts m = Val m' -> node_of bound f (m_startPos q) s ->
  FindBestPath bound ar f fuel q p =
    (r ← FindBestPathToAnyGivenPoint fuel s ends nts (m_maxThreat q) [] (set_data (m_base q) (p <| pathNodeMem := m' |>));
     match r with
     | None => Val None
     | Some (a, _, _, p) => i ← fill_answer ar f p (CPathInfo_new (m_endPosOnly q)) a; Val (Some ((multi_corrected bound q) <| m_path := i |> <| m_cost := cost a |>, p))
     end).
Proof.
  intros Hrange Er Eo Ee Eu Es. unfold FindBestPath. change (m_maxRange (MultiPrepare q)) with (m_maxRange q). rewrite Hrange. cbv zeta.
  change (m_maxRange ((MultiPrepare q) <| m_path ::= CPathInfo_Clear |>)) with (m_maxRange q). rewrite Er, bind_Val, Eo, bind_Val. unfold node_of in Es.
  destruct q. cbn -[Pos2MoveNode FindBestPathToAnyGivenPoint CorrectPosition fill_answer each add_target unmark] in *. rewrite Ee. cbn -[Pos2MoveNode FindBestPathToAnyGivenPoint CorrectPosition fill_answer each unmark].
  rewrite Eu. cbn -[Pos2MoveNode FindBestPathToAnyGivenPoint CorrectPosition fill_answer]. rewrite Es. reflexivity.
Qed.

(** C31. [FindBestPath], the worker's half of a query with several targets, with a range of 1 to 128 squares: whatever
    the positions of the targets (doubled ones and ones off the map included), it ends and is defined throughout.  The
    nodes it searches for are exactly the cells on the outline of the range around a target that the hit test
    accepts, with the targets' own cells if that was asked; if one of them can be reached the path is a
    way to one of them and its points are filled in, otherwise the path is empty.  The marks it sets to tell targets
    apart are all taken back: the pather rests. *)
Theorem FindBestPath_correct bound ar f q p radius : QueryEnv bound ar f p -> Resting p -> pos_ok (m_startPos q) -> Forall pos_ok (m_targets q) ->
  AstarOk (set_data (m_base q) p) (m_maxThreat q) -> flt (m_maxRange q) (float_of_Z (squareSize f)) = false ->
  to_int (fdiv (m_maxRange q) (float_of_Z (squareSize f))) = Val radius -> 1 <= radius <= max_radius ->
  exists N q' p' s ends a, (forall fuel, (N <= fuel)%nat -> FindBestPath bound ar f fuel q p = Val (Some (q', p'))) /\
    node_of bound f (m_startPos q) s /\
    (forall v, v ∈ ends <-> exists b t, b ∈ m_targets q /\ node_of bound f b t /\ reaches p radius (hit_or_all (m_hitTest q)) (m_withGoal q) t v) /\
    Answered (route (set_data (m_base q) p) (m_maxThreat q) s) (mapSizeX p) (among ends) [] a /\
    ipath (m_path q') = path a /\ m_cost q' = cost a /\
    (result a = SOLVED -> Filled ar f p' (m_path q')) /\ (result a = NO_SOLUTION -> posPath (m_path q') = []) /\
    Resting p' /\ isRunning p' = false.
Proof.
  intros HE (E & HP & Hrest) Hs Hts HA Hrange Er Hr. destruct (env_node _ _ _ _ _ HE Hs) as (s & Es & Is).
  destruct (circle_offsets_ok radius Hr) as (offs & Eo & Ho).
  destruct (collect_ok bound ar f p E radius offs (hit_or_all (m_hitTest q)) (m_withGoal q) HE HP Hrest Ho (m_targets q) Hts) as (m & ends & nts & Ee & _ & (E' & HP' & HE') & Hnt & Hnode & Hends).
  destruct (unmark_ok p m E' nts HP' Hnt HE') as (m' & Eu & HR').
  set (p1 := p <| pathNodeMem := m' |>) in *. set (p2 := set_data (m_base q) p1). pose proof (set_data_resting (m_base q) p1 HR') as HR2. fold p2 in HR2.
  assert (AstarOk p2 (m_maxThreat q)) as HA2 by (eapply astar_ok_same; [|exact HA]; done).
  assert (forall v, v ∈ ends -> inside p v) as Hin.
  { intros v (t & Ht & [(Hv & _)|[_ ->]])%Hends; [done|]. by eapply Forall_forall in Hnt. }
  destruct (any_point_ok p2 s ends nts (m_maxThreat q) HR2 HA2 Is) as (N & a & e' & t' & p' & Hrun & Hans & HR3 & HS & Hrn); [by apply Forall_forall|done|].
  destruct HR3 as (E3 & HP3 & HE3). assert (QueryEnv bound ar f p2) as HE2 by (by eapply env_same).
  destruct (fill_answer_ok bound ar f p2 p' E3 (CPathInfo_new (m_endPosOnly q)) (m_maxThreat q) s _ a HE2 HP3 HS HA2 Is eq_refl Hans) as (i' & Ei & Hip & _ & Hf & Hn).
  exists N. eexists. exists p', s, ends, a. split_and!; try done.
  - intros fuel Hfuel. rewrite (FindBestPath_eq bound ar f fuel q p radius offs m ends nts m' s Hrange Er Eo Ee Eu Es). fold p1 p2. rewrite (Hrun fuel Hfuel), bind_Val. cbv beta iota. rewrite Ei, bind_Val. reflexivity.
  - intros v. rewrite Hends. setoid_rewrite Hnode. naive_solver.
  - exact Hip.
  - reflexivity.
  - exact Hf.
  - intros Hno. by apply Hn.
  - exists E3. done.
Qed.

Definition demo_multi : CQueryPathMulti :=
  {| m_base := demo_base MULTI; m_path := CPathInfo_new false; m_cost := f0; m_startPos := demo_west; m_targets := [demo_east; demo_east]; m_maxRange := float_of_Z 40;
     m_hitTest := Some (fun a b => bool_decide (a = b)); m_withGoal := true; m_maxThreat := FLT_MAX; m_endPosOnly := true |}.

Lemma FindBestPath_correct_witness :
  (exists N q' p', forall fuel, (N <= fuel)%nat -> FindBestPath demo_bound demo_area demo_finder fuel demo_multi demo_pather = Val (Some (q', p'))) /\
  match FindBestPath demo_bound demo_area demo_finder 10 demo_multi demo_pather with Val (Some (q', _)) => ipath (m_path q') = [0; 1] | _ => False end.
Proof.
  split; [|vm_compute; reflexivity].
  destruct (FindBestPath_correct demo_bound demo_area demo_finder demo_multi demo_pather 1 demo_env demo_resting) as (N & q' & p' & s & ends & a & Hrun & _);
    [done|by repeat constructor|apply demo_astar|by vm_compute|by vm_compute|done|].
  exists N, q', p'. exact Hrun.
Defined.

(** ** Wide paths: [MakePathWide] *)

Lemma each_fmap {A B W} (g : A -> B) (h : B -> W -> out W) l w : each (fun a => h (g a)) l w = each h (g <$> l) w.
Proof. revert w. induction l as [|a l IH]; intros w; [done|]. cbn. destruct (h (g a) w); [apply IH|done|done]. Qed.

Lemma mark_new_eq v m ends nd : m !! v = Some nd -> mark_new v (m, ends) = Val (if isEndNode nd then (m, ends) else (<[v := nd <| isEndNode := true |>]> m, ends ++ [v])).
Proof. intros H. unfold mark_new. by rewrite (deref_Some _ _ _ H). Qed.

(** The nodes of the list that were not marked before are marked and collected. *)
Lemma mark_all_ok p m E nodes ends0 done0 : PatherOk (p <| pathNodeMem := m |>) (fun n => E n || among done0 n) -> (forall n, n ∈ ends0 <-> n ∈ done0 /\ E n = false) ->
  Forall (in_map (mapSizeX p) (mapSizeY p)) nodes ->
  exists m' ends, each mark_new nodes (m, ends0) = Val (m', ends) /\ PatherOk (p <| pathNodeMem := m' |>) (fun n => E n || among (done0 ++ nodes) n) /\
    forall n, n ∈ ends <-> n ∈ done0 ++ nodes /\ E n = false.
Proof.
  intros HP He Hin. revert m ends0 done0 HP He. induction Hin as [|v nodes Hv _ IH]; intros m ends0 done0 HP He.
  { exists m, ends0. rewrite app_nil_r. done. }
  cbn [each]. destruct (proj2 (po_dom _ _ HP v) Hv) as [nd Hnd]. cbn in Hnd. rewrite (mark_new_eq _ _ _ _ Hnd), bind_Val.
  destruct (po_node _ _ HP v nd Hnd) as (_ & _ & ->). replace (done0 ++ v :: nodes) with ((done0 ++ [v]) ++ nodes) by (by rewrite <-app_assoc).
  destruct (E v || among done0 v) eqn:Em; apply IH.
  - eapply pather_ext; [|exact HP]. intros n. cbn. destruct (decide (n = v)) as [->|Hne]; [rewrite Em; unfold among; rewrite (bool_decide_true (v ∈ done0 ++ [v])) by set_solver; by rewrite orb_true_r|].
    f_equal. unfold among. apply bool_decide_ext. set_solver.
  - intros n. rewrite He, elem_of_app, list_elem_of_singleton. split; [naive_solver|]. intros [[?| ->] ?]; [done|]. split; [|done].
    apply orb_true_iff in Em as [?|Ha]; [congruence|]. by apply bool_decide_eq_true in Ha.
  - eapply pather_ext; [|by apply mark_node_ok]. intros n. unfold mark. destruct (decide (n = v)) as [->|Hne]; [unfold among; rewrite bool_decide_true by set_solver; by rewrite orb_true_r|].
    f_equal. unfold among. apply bool_decide_ext. set_solver.
  - intros n. rewrite elem_of_app, list_elem_of_singleton, He, elem_of_app, list_elem_of_singleton. apply orb_false_iff in Em as [? _]. naive_solver.
Qed.

Lemma target_node_inside bound ar f p i : QueryEnv bound ar f p -> GridOk p -> 0 <= i < pathMapXSize f * pathMapYSize f -> inside p (target_node f i).
Proof.
  intros [HP _ _ Ex Ey] [HX HY _] Hi. destruct HP as [Hpx Hpy Hmx Hmy _ _ _ _ _ _]. unfold target_node, PathIndex2MoveXY, MoveXY2MoveNode. rewrite <-Ex.
  assert (0 <= i / pathMapXSize f < pathMapYSize f) by (split; [apply Z.div_pos; lia|apply Z.div_lt_upper_bound; lia]).
  pose proof (Z.div_mod i (pathMapXSize f) ltac:(lia)). pose proof (Z.mod_pos_bound i (pathMapXSize f) ltac:(lia)). apply inner_cell; lia.
Qed.

Lemma next_to_in_map p n o : inside p n -> o ∈ take 4 (offsets (mapSizeX p)) -> in_map (mapSizeX p) (mapSizeY p) (n + o).
Proof.
  intros Hn Ho. assert (exists b, (o, b) ∈ steps8 (mapSizeX p)) as [b Hb].
  { unfold offsets in Ho. cbn in Ho. unfold steps8, offsets. cbn. repeat (apply elem_of_cons in Ho as [->|Ho]; [exists false; set_solver|]). by apply not_elem_of_nil in Ho. }
  destruct (neighbour_in_map _ _ _ _ Hn Hb) as [H _]. cbn in H. by rewrite Z.add_comm.
Qed.

Lemma wide_inside p w s l n c t : TerrainOk p -> w = 1 \/ w = 2 \/ w = 3 -> inside p s -> wide_route p w s l n c t -> inside p n.
Proof.
  intros HT Hw Hs Hr. induction Hr as [|l u c t d v x Hr IH Hst]; [done|]. destruct Hst as (Hd & -> & Hb & _). cbn [wide_rules rsteps rblocked] in *.
  destruct (neighbour_in_map _ _ _ _ IH (steps4_8 _ _ Hd)) as [Hm _]. destruct (wide_blocked_ok p w (d.1 + u) HT Hm Hw) as (b & Eb & Hin). rewrite Eb in Hb. injection Hb as ->. by apply Hin.
Qed.

Definition wide_corrected (bound : float * float) (q : CQueryPathWide) : CQueryPathWide :=
  (WidePrepare q) <| w_startPos ::= CorrectPosition bound |> <| w_endPos ::= CorrectPosition bound |>.

(** The goals of a wide path: the cells of the targets and the four next to the end position. *)
Definition wide_goals (f : CPathFinder) (X : Z) (targets : list Z) (e : Z) : list Z := (target_node f <$> targets) ++ (Z.add e <$> take 4 (offsets X)).

Definition wide_data (q : CQueryPathWide) (p : CMicroPather) : CMicroPather := SetMapData (qcanMove (w_base q)) ∅ (qmoveFun (w_base q)) (fun _ => UB) p.

Lemma MakePathWide_eq bound f fuel q p st e m ends s :
  each mark_new (target_node f <$> w_targets q) (pathNodeMem p, []) = Val st -> node_of bound f (w_endPos q) e ->
  each mark_new (Z.add e <$> take 4 (offsets (mapSizeX p))) st = Val (m, ends) -> node_of bound f (w_startPos q) s ->
  MakePathWide bound f fuel q p =
    (r ← FindWidePathToBus fuel s ends (w_howWide q) [] (wide_data q (p <| pathNodeMem := m |>));
     match r with
     | None => Val None
     | Some (a, _, p) => Val (Some ((wide_corrected bound q) <| w_path ::= (fun i => i <| ipath := path a |>) |> <| w_cost := cost a |>, p))
     end).
Proof.
  intros E1 Ee E2 Es. unfold MakePathWide. rewrite <-each_fmap in E1, E2. unfold node_of in *. cbv zeta. destruct q.
  cbn -[Pos2MoveNode FindWidePathToBus CorrectPosition each mark_new target_node take] in *. rewrite E1. cbn -[Pos2MoveNode FindWidePathToBus CorrectPosition each mark_new take].
  rewrite Ee. cbn -[Pos2MoveNode FindWidePathToBus CorrectPosition each mark_new take]. rewrite E2. cbn -[Pos2MoveNode FindWidePathToBus CorrectPosition]. rewrite Es. reflexivity.
Qed.

(** The search for the bus, an empty list of end nodes included. *)
Lemma wide_bus_ok p M s ends w : PatherOk p M -> (forall n, inside p n -> M n = among ends n) -> WideOk p w -> w = 1 \/ w = 2 \/ w = 3 -> inside p s ->
  Forall (in_map (mapSizeX p) (mapSizeY p)) ends ->
  exists N a e' p', (forall fuel, (N <= fuel)%nat -> FindWidePathToBus fuel s ends w [] p = Val (Some (a, e', p'))) /\
    Answered (wide_route p w s) (mapSizeX p) (among ends) [] a /\ Resting p' /\ isRunning p' = false.
Proof.
  intros HP HM HW Hw Hs He. destruct ends as [|e rest] eqn:Ee.
  - exists 0%nat. eexists _, _, _. split; [done|]. split_and!; try done.
    + right. split_and!; try done. intros (n & l & c & t & Hn & _). done.
    + exists M. destruct HP as [HG Hfr Hd Hn]. split; [|done]. constructor; [by destruct HG|done..].
  - rewrite <-Ee in *. destruct (FindWidePathToBus_correct p M s ends w [] HP HM HW Hw (interior_in_map _ _ _ Hs) He) as (N & a & p' & Hrun & Hans & HP' & HM' & HS & Hrn); [by subst|].
    rewrite (FixNode_id _ _ s Hs) in Hans. exists N, a. eexists. exists p'. split_and!; try done. eexists. split; [exact HP'|]. intros n Hn. apply HM'. unfold inside in *. by rewrite <-(sm_x _ _ HS), <-(sm_y _ _ HS).
Qed.

(** C33. [MakePathWide], for units one to three squares wide: from a resting pather it ends, is defined throughout and answers
    rightly: the path is a way of axis steps over cells wide enough, from the cell of the start position to the cell of a
    target or to one next to the end position, and if the path is empty there is none.  Marks of
    an earlier query on the border of the map (its search leaves one there when the last node is on the
    edge) do not disturb it, and it leaves no mark inside the map. *)
Theorem MakePathWide_correct bound ar f q p : QueryEnv bound ar f p -> Resting p -> pos_ok (w_startPos q) -> pos_ok (w_endPos q) ->
  Forall (fun i => 0 <= i < pathMapXSize f * pathMapYSize f) (w_targets q) -> w_howWide q = 1 \/ w_howWide q = 2 \/ w_howWide q = 3 -> WideOk (wide_data q p) (w_howWide q) ->
  exists N q' p' s e a, (forall fuel, (N <= fuel)%nat -> MakePathWide bound f fuel q p = Val (Some (q', p'))) /\
    node_of bound f (w_startPos q) s /\ node_of bound f (w_endPos q) e /\
    Answered (wide_route (wide_data q p) (w_howWide q) s) (mapSizeX p) (among (wide_goals f (mapSizeX p) (w_targets q) e)) [] a /\
    ipath (w_path q') = path a /\ w_cost q' = cost a /\ Resting p' /\ isRunning p' = false.
Proof.
  intros HE (E & HP & Hrest) Hs He Hts Hw HW. destruct (env_node _ _ _ _ _ HE Hs) as (s & Es & Is), (env_node _ _ _ _ _ HE He) as (e & Ee & Ie).
  set (l1 := target_node f <$> w_targets q). set (l2 := Z.add e <$> take 4 (offsets (mapSizeX p))).
  assert (Forall (in_map (mapSizeX p) (mapSizeY p)) l1) as H1.
  { apply Forall_fmap. eapply Forall_impl; [exact Hts|]. intros i Hi. cbn. eapply interior_in_map, target_node_inside; [exact HE|apply HP|done]. }
  assert (Forall (in_map (mapSizeX p) (mapSizeY p)) l2) as H2.
  { apply Forall_fmap, Forall_forall. intros o Ho. cbn. by apply next_to_in_map. }
  destruct (mark_all_ok p (pathNodeMem p) E l1 [] []) as (m1 & ends1 & E1 & HP1 & He1); [|set_solver|done|].
  { eapply pather_ext; [|by destruct p]. intros n. by rewrite orb_false_r. }
  destruct (mark_all_ok p m1 E l2 ends1 l1 HP1 He1 H2) as (m & ends & E2 & HP2 & He2).
  set (p2 := wide_data q (p <| pathNodeMem := m |>)).
  assert (PatherOk p2 (fun n => E n || among (l1 ++ l2) n)) as HP3 by (destruct HP2 as [HG ? ? ?]; constructor; [by destruct HG|done..]).
  assert (forall n, inside p n -> among ends n = among (l1 ++ l2) n) as Hsame.
  { intros n Hn. unfold among. apply bool_decide_ext. rewrite He2, (Hrest n Hn). naive_solver. }
  assert (WideOk p2 (w_howWide q)) as HW2 by (eapply wide_ok_same; [|exact HW]; done).
  destruct (wide_bus_ok p2 _ s ends (w_howWide q) HP3) as (N & a & e' & p' & Hrun & Hans & HR' & Hrn); try done.
  { intros n Hn. cbn. rewrite (Hrest n Hn), (Hsame n Hn). done. }
  { apply Forall_forall. intros n [Hn _]%He2. apply elem_of_app in Hn as [Hn|Hn]; by eapply Forall_forall in Hn. }
  exists N. eexists. exists p', s, e, a. split_and!; try done.
  - intros fuel Hfuel. rewrite (MakePathWide_eq bound f fuel q p (m1, ends1) e m ends s E1 Ee E2 Es). fold p2. rewrite (Hrun fuel Hfuel), bind_Val. reflexivity.
  - eapply answered_ext; [| |exact Hans]; [intros l n c t; apply (wide_route_same (wide_data q p) p2); done|].
    intros l n c t Hr. unfold wide_goals. fold l1 l2. apply Hsame. by eapply (wide_inside p2); [apply HW2|exact Hw|exact Is|].
  - reflexivity.
  - reflexivity.
Qed.

Definition demo_wide_query : CQueryPathWide :=
  {| w_base := demo_base WIDE; w_path := CPathInfo_new false; w_cost := f0; w_startPos := demo_west; w_endPos := demo_west; w_targets := []; w_howWide := 1 |}.

Lemma MakePathWide_correct_witness :
  (exists N q' p', forall fuel, (N <= fuel)%nat -> MakePathWide demo_bound demo_finder fuel demo_wide_query demo_pather = Val (Some (q', p'))) /\
  match MakePathWide demo_bound demo_finder 10 demo_wide_query demo_pather with Val (Some (q', _)) => ipath (w_path q') = [0; 1] | _ => False end.
Proof.
  split; [|vm_compute; reflexivity].
  destruct (MakePathWide_correct demo_bound demo_area demo_finder demo_wide_query demo_pather demo_env demo_resting) as (N & q' & p' & s & e & a & Hrun & _);
    [done|done|by constructor|by left|apply demo_wide|].
  exists N, q', p'. exact Hrun.
Defined.
