(* ===== verification/PathQueryMap.v ===== *)
(** Cost maps and safe lines: what [CQueryCostMap] and [CQueryLineMap] answer. *)

From S2P Require Import Prelude Outcome Float32 FloatOrder OpenQueue OpenQueueSpec MicroPather PatherInv PatherLoop PatherResult PatherRules PatherSearch PatherCorrect PathSearch PathFinder PathFinderInv PathLine PathLineInv PathQuery PathPos PathDemo PathCircle PathQueryInv.

(** ** Reading the cost map *)

Definition minus_one : float := float_of_Z (-1).

(** An entry: not reached, or a cost. *)
Definition entry_ok (c : float) : Prop := c = minus_one \/ cost_ok c.

Lemma neg_entry c : entry_ok c -> flt c f0 = bool_decide (c = minus_one).
Proof.
  intros [-> | Hc]; [done|]. rewrite bool_decide_false by (intros ->; by destruct Hc). rewrite flt_okey by (done || apply Hc). change (okey f0) with 0. destruct Hc. lia.
Qed.

(** The least of the entries that were reached, -1 if none was. *)
Definition LeastOf (vals : list float) (c : float) : Prop :=
  (c = minus_one /\ Forall (eq minus_one) vals) \/ (c ∈ vals /\ cost_ok c /\ Forall (fun v => v = minus_one \/ okey c <= okey v) vals).

Lemma least_step vals c v : LeastOf vals c -> entry_ok v ->
  LeastOf (vals ++ [v]) (if flt c f0 then v else if flt v f0 then c else if flt v c then v else c).
Proof.
  intros Hl Hv. assert (entry_ok c) as Hc by (destruct Hl as [[-> _]|(_ & ? & _)]; [by left|by right]). rewrite !neg_entry by done.
  case_bool_decide as E1.
  - destruct Hl as [[_ Hall]|(_ & Hc' & _)]; [|subst; by destruct Hc']. destruct Hv as [->|Hv]; [left; split; [done|apply Forall_app; split; [done|by apply Forall_singleton]]|].
    right. split_and!; [set_solver|done|]. apply Forall_app. split; [eapply Forall_impl; [exact Hall|]; by left|]. apply Forall_singleton. right. lia.
  - destruct Hl as [[-> _]|(Hin & Hc' & Hall)]; [done|]. case_bool_decide as E2.
    + right. split_and!; [set_solver|done|]. apply Forall_app. split; [done|]. apply Forall_singleton. by left.
    + destruct Hv as [?|Hv]; [done|]. rewrite flt_okey by (apply Hv || apply Hc'). destruct (Z.ltb_spec (okey v) (okey c)).
      * right. split_and!; [set_solver|done|]. apply Forall_app. split; [|apply Forall_singleton; right; lia]. eapply Forall_impl; [exact Hall|]. cbn. intros w [?|?]; [by left|right; lia].
      * right. split_and!; [set_solver|done|]. apply Forall_app. split; [done|]. apply Forall_singleton. right. lia.
Qed.

(** The diagonal points of radius [R] squares. *)
Definition diag_checked (R : Z) : bool :=
  match to_int (fadd (fmul (float_of_Z R) ISQRT_2) one) with Val r2 => (0 <=? r2) && (r2 <=? R) | _ => false end.

Lemma diags : forallb diag_checked (seqZ 1 max_side) = true.
Proof. vm_compute. reflexivity. Qed.

Lemma diag_ok R : 1 <= R <= max_side -> exists r2, to_int (fadd (fmul (float_of_Z R) ISQRT_2) one) = Val r2 /\ 0 <= r2 <= R.
Proof.
  intros HR. pose proof diags as H. rewrite forallb_forall in H. assert (In R (seqZ 1 max_side)) as Hin by (apply list_elem_of_In, elem_of_seqZ; lia).
  specialize (H R Hin). unfold diag_checked in H. destruct (to_int _) as [r2| |]; try done. exists r2. split; [done|lia].
Qed.

(** The entries of the points that are on the map. *)
Definition entries (f : CPathFinder) (q : CQueryCostMap) (pts : list (Z * Z)) : list float :=
  xy ← pts; if IsInPathMap f xy.1 xy.2 then option_list (c_costMap q !! Z.to_nat (PathXY2PathIndex f xy.1 xy.2)) else [].

Section Cost.
Context (f : CPathFinder) (q : CQueryCostMap).
Context (Hx : 1 <= pathMapXSize f) (Hy : 1 <= pathMapYSize f) (Hsz : size_of (c_costMap q) = pathMapXSize f * pathMapYSize f) (Hok : Forall entry_ok (c_costMap q)).

Lemma entry_at x y : IsInPathMap f x y = true -> exists v, 0 <= PathXY2PathIndex f x y /\ c_costMap q !! Z.to_nat (PathXY2PathIndex f x y) = Some v /\ entry_ok v.
Proof.
  intros Hin. unfold IsInPathMap in Hin. unfold PathXY2PathIndex. bools. assert (0 <= y * pathMapXSize f + x < pathMapXSize f * pathMapYSize f) as Hi by nia.
  destruct (lookup_lt_is_Some_2 (c_costMap q) (Z.to_nat (y * pathMapXSize f + x))) as [v Hv]; [unfold size_of in Hsz; lia|]. exists v. split_and!; [lia|done|].
  by eapply Forall_lookup_1.
Qed.

Lemma min_costs checked pts : (checked = false -> Forall (fun xy => IsInPathMap f xy.1 xy.2 = true) pts) ->
  exists c, each (fun xy c => min_cost f q checked c xy) pts minus_one = Val c /\ LeastOf (entries f q pts) c.
Proof.
  intros Hin. destruct (each_ok (fun xy c => min_cost f q checked c xy) (fun done c => LeastOf (entries f q done) c) pts minus_one) as (c & Ec & Hc); [by left| |eauto].
  intros [x y] done c Hxy Hl. unfold min_cost, entries. rewrite bind_app. cbn [mbind list_bind fst snd]. rewrite app_nil_r. fold (entries f q done).
  destruct (IsInPathMap f x y) eqn:Eb.
  - rewrite andb_false_r. destruct (entry_at x y Eb) as (v & Hi & -> & Hv). rewrite (proj2 (Z.leb_le _ _)) by done. cbn [of_option]. rewrite bind_Val. eexists. split; [done|].
    by apply least_step.
  - destruct checked; [|specialize (Hin eq_refl); eapply Forall_forall in Hin; [|exact Hxy]; cbn in Hin; congruence]. cbn. rewrite app_nil_r. eauto.
Qed.

(** The cost at a position, for a range of at least a square. *)
Lemma GetCostAt_ok endPos xm ym radius : Pos2PathXY f endPos = Val (xm, ym) -> 0 < squareSize f -> squareSize f <= radius <= squareSize f * max_side ->
  exists r2 c, 0 <= r2 <= radius / squareSize f /\ GetCostAt f q endPos radius = Val c /\ LeastOf (entries f q (eight xm ym (radius / squareSize f) r2)) c.
Proof.
  intros Exy Hs Hr. unfold GetCostAt. rewrite Z.quot_div_nonneg by lia. set (R := radius / squareSize f).
  assert (1 <= R <= max_side) as HR by (unfold R; split; [apply Z.div_le_lower_bound; lia|apply Z.div_le_upper_bound; lia]).
  destruct (diag_ok R HR) as (r2 & E2 & H2). rewrite Exy, bind_Val. cbv beta iota. rewrite E2, bind_Val.
  destruct (min_costs (negb (IsInPathMapR f xm ym R)) (eight xm ym R r2)) as (c & Ec & Hc); [|by exists r2, c].
  intros Hin%negb_false_iff. unfold IsInPathMapR in Hin. unfold eight, IsInPathMap. bools. repeat (constructor; [cbn; lia|]). constructor.
Qed.
End Cost.

(** ** The whole query *)

Lemma map_walk_inside p maxThreat s l n c t : TerrainOk p -> ThreatOk p -> inside p s -> map_walk p maxThreat s l n c t -> inside p n /\ cost_ok t.
Proof.
  intros HT Hth Hs Hw. induction Hw as [|l u c t d v w Hw [IHu IHt] Hst]; [done|]. destruct Hst as (Hd & -> & Hb & _). cbn [map_rules rsteps rblocked] in *.
  destruct (neighbour_in_map _ _ _ _ IHu Hd) as [Hm _]. destruct (CantMoveTo_ok p (d.1 + u) HT Hm) as (b & Eb & Hin). rewrite Eb in Hb. injection Hb as ->. specialize (Hin eq_refl).
  split; [done|]. destruct (HT _ Hm) as (cc & Ec & Hcc & _), (Hth _ Hin) as (th & Et & Hct). unfold tr_map. rewrite Ec, Et. apply fadd_ok; [done|].
  assert (cost_ok (fadd (if fle COST_STRUCT_3_4 cc then cc else COST_BASE) th)) as Hsum by (apply fadd_ok; [by case_match|done]).
  unfold scale. destruct d.2; [|done]. by apply fmul_ok.
Qed.

(** A position on the map, which correction leaves alone. *)
Definition on_map (bound : float * float) (a : AIFloat3) : Prop := pos_ok a /\ CorrectPosition bound a = a.

Lemma Pos2PathXY_ok f bound a : PFOk f -> BoundOf f bound -> on_map bound a ->
  exists x y, Pos2PathXY f a = Val (x, y) /\ 0 <= x < pathMapXSize f /\ 0 <= y < pathMapYSize f.
Proof.
  intros HP (-> & HX & HY) [[Hx Hz] Ha]. pose proof HP as [Hpx Hpy _ _ Hsq _ _ _ _ _]. unfold Pos2PathXY.
  destruct (correct_range f (pathMapXSize f) Hsq ltac:(lia) _ Hx) as [Vx Rx]. destruct (correct_range f (pathMapYSize f) Hsq ltac:(lia) _ Hz) as [Vz Rz].
  destruct a as [[ax ay] az]. unfold CorrectPosition, pos_x, pos_z in *. cbn [fst snd] in *. injection Ha as Ex Ez. rewrite Ex in Vx, Rx. rewrite Ez in Vz, Rz.
  destruct (coord_ok f (pathMapXSize f) Hsq ltac:(lia) _ Vx Rx) as [_ (x & -> & Bx)]. destruct (coord_ok f (pathMapYSize f) Hsq ltac:(lia) _ Vz Rz) as [_ (z & -> & Bz)].
  rewrite !bind_Val. exists x, z. split; [done|lia].
Qed.

Lemma costmap_entry (X Y k : Z) : 3 <= X -> 3 <= Y -> 0 <= k < (X - 2) * (Y - 2) -> exists n, interior X Y n /\ cell_index2 X n = k.
Proof.
  intros HX HY Hk. pose proof (Z.div_mod k (X - 2) ltac:(lia)) as Hd. pose proof (Z.mod_pos_bound k (X - 2) ltac:(lia)) as Hm.
  assert (0 <= k / (X - 2) < Y - 2) by (split; [apply Z.div_pos; lia|apply Z.div_lt_upper_bound; lia]).
  destruct (inner_cell X Y HX HY (k / (X - 2) + 1) (k mod (X - 2) + 1)) as (Hi & E & _); [lia|lia|]. eexists. split; [exact Hi|]. rewrite E. lia.
Qed.

Lemma MakeCostMapQuery_eq f fuel q p s : c_costMap q = [] -> Pos2MoveNode f (c_startPos q) = Val s ->
  MakeCostMapQuery f fuel q p =
    (r ← MakeCostMap fuel s (c_maxThreat q) (replicate (Z.to_nat (pathMapXSize f * pathMapYSize f)) minus_one) (set_data (c_base q) p);
     match r with None => Val None | Some (m, p) => Val (Some (q <| c_costMap := m |>, p)) end).
Proof.
  intros Hn. unfold MakeCostMapQuery, CostPrepare, resize, minus_one. generalize (MakeCostMap fuel) as F, (Pos2MoveNode f) as G, (float_of_Z (-1)) as v. intros F G v Es.
  destruct q. cbn in *. subst. rewrite Es. cbn. by rewrite take_nil, Nat.sub_0_r.
Qed.

(** C32. A cost-map query, from the worker's [MakeCostMap] to [GetCostAt] on the main thread.  The map is filled in a search
    that ends and is defined throughout: the entry of every cell that can be reached within the threat limit is the travel distance
    of a cheapest way to it, the entry of any other cell is -1.  For a position on the map and a
    range of at least one square, [GetCostAt] then reads eight points around it, none outside the map, and returns the least entry
    of those that can be reached, -1 if there is none. *)
Theorem cost_query_correct bound ar f q p : QueryEnv bound ar f p -> Resting p -> c_costMap q = [] -> on_map bound (c_startPos q) ->
  CostMapOk (set_data (c_base q) p) (c_maxThreat q) ->
  exists N q' p' s, (forall fuel, (N <= fuel)%nat -> MakeCostMapQuery f fuel q p = Val (Some (q', p'))) /\ Pos2MoveNode f (c_startPos q) = Val s /\ Resting p' /\
    (forall n, inside p n -> let walk := map_walk (set_data (c_base q) p) (c_maxThreat q) s in
      exists v, c_costMap q' !! Z.to_nat (cell_index2 (mapSizeX p) n) = Some v /\
        ((exists l c, walk l n c v /\ forall l' c' t', walk l' n c' t' -> okey c <= okey c') \/ ((~ exists l c t, walk l n c t) /\ v = minus_one))) /\
    (forall endPos radius, on_map bound endPos -> squareSize f <= radius <= squareSize f * max_side ->
      exists xm ym r2 c, Pos2PathXY f endPos = Val (xm, ym) /\ 0 <= r2 <= radius / squareSize f /\
        GetCostAt f q' endPos radius = Val c /\ LeastOf (entries f q' (eight xm ym (radius / squareSize f) r2)) c).
Proof.
  intros HE HR Hnil [Hpos Hst] HC. destruct (env_node _ _ _ _ _ HE Hpos) as (s & Es & Is). rewrite Hst in Es. pose proof HE as [HPF HB _ Ex Ey]. pose proof HPF as [Hpx Hpy Hmx Hmy Hsq _ _ _ _ _].
  set (p1 := set_data (c_base q) p) in *. destruct (set_data_resting (c_base q) p HR) as (E & HP & Hrest). fold p1 in HP, Hrest.
  set (m0 := replicate (Z.to_nat (pathMapXSize f * pathMapYSize f)) minus_one).
  destruct (MakeCostMap_exact p1 E s (c_maxThreat q) m0 HP HC) as (N & m & p' & Hrun & Hlen & HP' & HS & Hrn & Hent).
  { by apply (interior_in_map (mapSizeX p1) (mapSizeY p1)). }
  { unfold m0, size_of. rewrite length_replicate. change (mapSizeX p1) with (mapSizeX p). change (mapSizeY p1) with (mapSizeY p). rewrite Ex, Ey. nia. }
  assert (FixNode (mapSizeX p1) (mapSizeY p1) s = s) as EF by (by apply FixNode_id). rewrite EF in Hent.
  assert (forall n, inside p n -> exists v, m !! Z.to_nat (cell_index2 (mapSizeX p) n) = Some v /\
    ((exists l c, map_walk p1 (c_maxThreat q) s l n c v /\ forall l' c' t', map_walk p1 (c_maxThreat q) s l' n c' t' -> okey c <= okey c') \/
     ((~ exists l c t, map_walk p1 (c_maxThreat q) s l n c t) /\ v = minus_one))) as Hmap.
  { intros n Hn. destruct (Hent n Hn) as [(l & c & t & Hw & Hm & Hmin)|[Hno Hm]]; [exists t; split; [exact Hm|left; eauto]|]. exists minus_one. split; [|by right].
    change (mapSizeX p) with (mapSizeX p1). rewrite Hm. unfold m0. apply lookup_replicate_2.
    pose proof (index2_bounds _ _ n Hn) as Hb. change (mapSizeX p1) with (mapSizeX p). rewrite Ex, Ey, Hmx, Hmy in Hb. rewrite Ex, Hmx. lia. }
  exists N. eexists. exists p', s. split_and!.
  - intros fuel Hfuel. rewrite (MakeCostMapQuery_eq f fuel q p s Hnil Es). fold m0 p1. rewrite (Hrun fuel Hfuel), bind_Val. reflexivity.
  - exact Es.
  - exists E. split; [done|]. intros n Hn. apply Hrest. unfold inside in *. by rewrite <-(sm_x _ _ HS), <-(sm_y _ _ HS).
  - exact Hmap.
  - intros endPos radius Hend Hr. destruct (Pos2PathXY_ok f bound endPos HPF HB Hend) as (x & y & Exy & _).
    destruct (GetCostAt_ok f (q <| c_costMap := m |>)) with (endPos := endPos) (xm := x) (ym := y) (radius := radius) as (r2 & c & H2 & Ec & Hc); try done.
    + cbn. unfold size_of. rewrite Hlen. unfold m0. rewrite length_replicate. nia.
    + cbn. apply Forall_lookup_2. intros k v Hv. destruct (costmap_entry (mapSizeX p) (mapSizeY p) (Z.of_nat k)) as (n & Hn & En); [lia|lia| |].
      { apply lookup_lt_Some in Hv. rewrite Hlen in Hv. unfold m0 in Hv. rewrite length_replicate in Hv. rewrite Ex, Ey, Hmx, Hmy. lia. }
      destruct (Hmap n Hn) as (v' & Hv' & Hcase). rewrite En, Nat2Z.id, Hv in Hv'. injection Hv' as <-. destruct Hcase as [(l & c & Hw & _)|[_ ->]]; [right|by left].
      destruct HC as [HT Hth _]. by destruct (map_walk_inside p1 (c_maxThreat q) s l n c v HT Hth Is Hw).
    + destruct Hsq as [->|[->| ->]]; lia.
    + exists x, y, r2, c. split_and!; try done; lia.
Qed.

Definition demo_cost : CQueryCostMap := {| c_base := demo_base COST; c_costMap := []; c_startPos := demo_west; c_maxThreat := FLT_MAX |}.

Lemma cost_query_correct_witness :
  (exists N q' p', forall fuel, (N <= fuel)%nat -> MakeCostMapQuery demo_finder fuel demo_cost demo_pather = Val (Some (q', p'))) /\
  match MakeCostMapQuery demo_finder 10 demo_cost demo_pather with
  | Val (Some (q', _)) => c_costMap q' = [f0; float_of_Z 3] /\ GetCostAt demo_finder q' demo_west 32 = Val (float_of_Z 3) /\ GetCostAt demo_finder q' demo_west 0 = UB
  | _ => False
  end.
Proof.
  split; [|vm_compute; done].
  destruct (cost_query_correct demo_bound demo_area demo_finder demo_cost demo_pather demo_env demo_resting) as (N & q' & p' & s & Hrun & _); [done|by split|apply demo_costmap|].
  exists N, q', p'. exact Hrun.
Defined.

(** ** Safe lines *)

(** The data of a line query: no cell costs zero to enter, as in every array of the path finder, and the threat is known on the whole map. *)
Record LineOk (f : CPathFinder) (q : CQueryLineMap) : Prop := {
  lo_size : lsquareSize q = squareSize f;
  lo_width : threatXSize q = pathMapXSize f;
  lo_cells n : in_map (moveMapXSize f) (moveMapYSize f) n -> exists c, qcanMove (l_base q) !! n = Some c /\ forall s, c <> S754_zero s;
  lo_threat k : 0 <= k < pathMapXSize f * pathMapYSize f -> is_Some (qthreat (l_base q) !! k);
}.

Definition calm (q : CQueryLineMap) (c : Z * Z) : bool :=
  match qthreat (l_base q) !! (c.2 * threatXSize q + c.1) with Some t => negb (flt THREAT_MIN t) | None => false end.


(** A line over a blocked square. *)
Definition demo_line : CQueryLineMap :=
  {| l_base := (demo_base LINE) <| qcanMove ::= <[6 := COST_BLOCK]> |> <| qthreat := {[ 0 := f0; 1 := f0 ]} |>; threatXSize := 2; lsquareSize := 32 |}.

Lemma demo_line_ok : LineOk demo_finder demo_line.
Proof.
  constructor; [done|done|..].
  - intros n Hn. assert (In n (seqZ 0 12)) as Hin by (apply list_elem_of_In, elem_of_seqZ; exact Hn).
    cbn in Hin. repeat (destruct Hin as [<-|Hin]; [eexists; split; [vm_compute; reflexivity|done]|]). done.
  - intros k Hk. assert (k = 0 \/ k = 1) as [-> | ->] by (change (0 <= k < 2) in Hk; lia); by eexists.
Qed.

