(* ===== verification/ActionList.v ===== *)
(** The list of actions a unit carries out (util/ActionList.h, util/ActionList.cpp,
    util/Action.h, util/Action.cpp, unit/action/UnitAction.h).

    Actions are objects on a heap; a list owns the ones it holds. *)

From S2P Require Import Prelude Outcome.

(** [IAction::State]. *)
Inductive ActState := A_NONE | A_WAIT | A_ACTIVE | A_FINISH | A_HALT.

#[export] Instance ActState_eq_dec : EqDecision ActState.
Proof. solve_decision. Defined.

Definition act_num (s : ActState) : Z := match s with A_NONE => 0 | A_WAIT => 1 | A_ACTIVE => 2 | A_FINISH => 3 | A_HALT => 4 end.

(** [IUnitAction::Type]. *)
Inductive ActType :=
  | T_IDLE | T_MOVE | T_PRE_BUILD | T_BUILD | T_ATTACK | T_FIGHT | T_PATROL | T_RECLAIM
  | T_TERRAFORM | T_WAIT | T_DGUN | T_CAPTURE | T_SUPPORT | T_JUMP | T_ANTI_CAP | T_REARM.

#[export] Instance ActType_eq_dec : EqDecision ActType.
Proof. solve_decision. Defined.

Definition act_type_num (t : ActType) : Z :=
  match t with
  | T_IDLE => 0 | T_MOVE => 1 | T_PRE_BUILD => 2 | T_BUILD => 3 | T_ATTACK => 4 | T_FIGHT => 5 | T_PATROL => 6 | T_RECLAIM => 7
  | T_TERRAFORM => 8 | T_WAIT => 9 | T_DGUN => 10 | T_CAPTURE => 11 | T_SUPPORT => 12 | T_JUMP => 13 | T_ANTI_CAP => 14 | T_REARM => 15
  end.

(** [IUnitAction::GetMask]. *)
Definition ActMask (t : ActType) : Z := Z.shiftl 1 (act_type_num t).

Record IAction := {
  ownerList : Z;
  isBlocking : bool;
  act_state : ActState;
  act_type : ActType;
}.

#[export] Instance IAction_eta : Eta IAction := fun a => Build_IAction (ownerList a) (isBlocking a) (act_state a) (act_type a).

Definition IAction_new (owner : Z) (t : ActType) : IAction :=
  {| ownerList := owner; isBlocking := false; act_state := A_ACTIVE; act_type := t |}.

Definition IsAny (a : IAction) (value : Z) : bool := negb (Z.land (ActMask (act_type a)) value =? 0).
Definition IsEqual (a : IAction) (value : Z) : bool := ActMask (act_type a) =? value.
Definition IsContain (a : IAction) (value : Z) : bool := Z.land (ActMask (act_type a)) value =? value.

Definition IsActive (a : IAction) : bool := bool_decide (act_state a = A_ACTIVE).
Definition IsFinishing (a : IAction) : bool := bool_decide (act_state a = A_FINISH).
Definition IsFinished (a : IAction) : bool := act_num A_FINISH <=? act_num (act_state a).
Definition StateWait (a : IAction) : IAction := a <| act_state := A_WAIT |>.
Definition StateActivate (a : IAction) : IAction := a <| act_state := A_ACTIVE |>.
Definition StateFinish (a : IAction) : IAction := a <| act_state := A_FINISH |>.
Definition StateHalt (a : IAction) : IAction := a <| act_state := A_HALT |>.

(** [OnEnd]: [IAction]'s, and [CWaitAction]'s empty override. *)
Definition OnEnd (a : IAction) : IAction :=
  match act_type a with T_WAIT => a | _ => a <| act_state := A_HALT |> end.

Abbreviation heap := (gmap Z IAction).

Record CActionList := { startFrame : Z; actions : list Z; blocker : option Z }.

#[export] Instance CActionList_eta : Eta CActionList := fun l => Build_CActionList (startFrame l) (actions l) (blocker l).

Definition CActionList_new : CActionList := {| startFrame := -1; actions := []; blocker := None |}.

(** The loop of [Update].  [upd] is the action's own [Update], which changes no more than
    the action: the actions of the source set their state, whether they block and counters. *)
Fixpoint act_loop (upd : Z -> IAction -> IAction) (acts : list Z) (h : heap) : out (heap * option Z) :=
  match acts with
  | [] => Val (h, None)
  | p :: rest =>
      a ← deref h p;
      let a := if IsActive a then upd p a else a in
      if IsFinishing a then act_loop upd rest (<[p := OnEnd a]> h)
      else if isBlocking a then Val (<[p := a]> h, Some p)
      else act_loop upd rest (<[p := a]> h)
  end.

Definition ActUpdate (upd : Z -> IAction -> IAction) (l : CActionList) (h : heap) : out (CActionList * heap) :=
  '(h', b) ← act_loop upd (actions l) h; Val (l <| blocker := b |>, h').

Definition PushFront (p : Z) (l : CActionList) : CActionList := l <| actions ::= cons p |>.
Definition PushBack (p : Z) (l : CActionList) : CActionList := l <| actions ::= fun xs => xs ++ [p] |>.

Definition find_action (p : Z) (l : CActionList) : nat := default (length (actions l)) (fst <$> list_find (eq p) (actions l)).

(** The overloads that look up the position: of the very action they insert. *)
Definition InsertBefore (p : Z) (l : CActionList) : CActionList :=
  let i := find_action p l in l <| actions ::= fun xs => take i xs ++ p :: drop i xs |>.

(** [++it] past the end is undefined. *)
Definition InsertAfter (p : Z) (l : CActionList) : out CActionList :=
  let i := find_action p l in
  if decide (i < length (actions l))%nat then Val (l <| actions ::= fun xs => take (S i) xs ++ p :: drop (S i) xs |>) else UB.

(** [delete p]. *)
Definition free_action (p : Z) (h : heap) : out heap := _ ← deref h p; Val (base.delete p h).

(** [CActionList::Clear]: the [blocker] stays. *)
Definition ActClear (l : CActionList) (h : heap) : out (CActionList * heap) :=
  h' ← each free_action (actions l) h; Val (l <| actions := [] |>, h').

(** [Remove] of the action at position [i]. *)
Definition Remove (i : nat) (l : CActionList) (h : heap) : out (CActionList * heap) :=
  match actions l !! i with
  | Some p => h' ← free_action p h; Val (l <| actions ::= base.delete i |>, h')
  | None => UB
  end.

(** * What an update does *)

(** Whether the list goes on after the action at [p], once updated. *)
Definition passes (upd : Z -> IAction -> IAction) (p : Z) (a : IAction) : bool :=
  let a := if IsActive a then upd p a else a in IsFinishing a || negb (isBlocking a).

Definition after_update (upd : Z -> IAction -> IAction) (p : Z) (a : IAction) : IAction :=
  let a := if IsActive a then upd p a else a in if IsFinishing a then OnEnd a else a.

Lemma free_each (acts : list Z) (h : heap) :
  NoDup acts -> (forall p, p ∈ acts -> is_Some (h !! p)) ->
  each free_action acts h = Val (filter (fun kv => kv.1 ∉ acts) h).
Proof.
  revert h. induction acts as [|p acts IH]; intros h Hnd Hin; cbn [each].
  { f_equal. symmetry. apply map_filter_id. intros i x _. cbn. set_solver. }
  apply NoDup_cons in Hnd as [Hp Hnd]. destruct (Hin p) as [a Ea]; [by constructor|]. assert (E : free_action p h = Val (base.delete p h)) by (unfold free_action, deref; by rewrite Ea).
  rewrite E. cbn. rewrite IH; [|done|].
  - f_equal. apply map_eq. intros q. apply option_eq. intros x. rewrite !map_lookup_filter_Some, lookup_delete_Some. cbn. set_solver.
  - intros q Hq. rewrite lookup_delete_ne by (intros ->; contradiction). apply Hin. by constructor.
Qed.

(** The actions before the blocker are updated in order and let the list go on; the
    blocker is updated and holds it; those after it are not touched. *)
Definition updated (upd : Z -> IAction -> IAction) (acts : list Z) (h : heap) (r : heap * option Z) : Prop :=
  exists pre suf, acts = pre ++ suf /\ r.2 = head suf /\
    (forall p a, p ∈ pre -> h !! p = Some a -> passes upd p a = true) /\
    (forall p a, r.2 = Some p -> h !! p = Some a -> passes upd p a = false) /\
    (forall p, r.1 !! p = if decide (p ∈ pre \/ r.2 = Some p) then after_update upd p <$> h !! p else h !! p).

Lemma updated_cons (upd : Z -> IAction -> IAction) (p : Z) (a : IAction) (acts : list Z) (h : heap) (r : heap * option Z) :
  p ∉ acts -> h !! p = Some a -> passes upd p a = true ->
  updated upd acts (<[p := after_update upd p a]> h) r -> updated upd (p :: acts) h r.
Proof.
  intros Hp Ea Hpass (pre & suf & -> & Eb & Hpre & Hblk & Hh). exists (p :: pre), suf.
  assert (Hne : forall q, q ∈ pre \/ r.2 = Some q -> q <> p).
  { intros q Hq ->. apply Hp. rewrite Eb in Hq. destruct suf; cbn in Hq; set_solver. }
  split; [done|]. split; [done|]. split; [|split].
  - intros q x [->|Hq]%elem_of_cons Ex; [congruence|]. apply (Hpre q x Hq). rewrite lookup_insert_ne; [done|]. symmetry. apply Hne; auto.
  - intros q x Eq Ex. apply (Hblk q x Eq). rewrite lookup_insert_ne; [done|]. symmetry. apply Hne; auto.
  - intros q. rewrite Hh. destruct (decide (q = p)) as [->|Hq].
    + rewrite decide_False by (intros H1; by apply (Hne p)). rewrite lookup_insert_eq, decide_True by (left; constructor). by rewrite Ea.
    + rewrite lookup_insert_ne by done. apply decide_ext. set_solver.
Qed.

Lemma act_loop_spec (upd : Z -> IAction -> IAction) (acts : list Z) (h : heap) :
  NoDup acts -> (forall p, p ∈ acts -> is_Some (h !! p)) -> wp (act_loop upd acts h) (updated upd acts h).
Proof.
  revert h. induction acts as [|p acts IH]; intros h Hnd Hin; cbn [act_loop].
  { exists [], []. split_and!; try done. intros p a Hp. by apply elem_of_nil in Hp. }
  apply NoDup_cons in Hnd as [Hp Hnd]. destruct (Hin p) as [a Ea]; [by constructor|].
  apply wp_bind, (wp_deref _ _ a); [done|]. set (a1 := if IsActive a then upd p a else a).
  assert (Hcons : passes upd p a = true -> wp (act_loop upd acts (<[p := after_update upd p a]> h)) (updated upd (p :: acts) h)).
  { intros Hpass. eapply wp_mono; [apply IH; [done|]|intros r; by apply updated_cons].
    intros q Hq. rewrite lookup_insert_ne by (intros ->; contradiction). apply Hin. by constructor. }
  unfold passes, after_update in Hcons. fold a1 in Hcons.
  destruct (IsFinishing a1) eqn:Ef; [by apply Hcons|destruct (isBlocking a1) eqn:Eb; [|by apply Hcons]].
  exists [], (p :: acts). cbn. split_and!; try done.
  - intros q x Hq. by apply elem_of_nil in Hq.
  - intros q x [= <-] Ex. rewrite Ea in Ex. simplify_eq. unfold passes. fold a1. by rewrite Ef, Eb.
  - intros q. destruct (decide (q = p)) as [->|Hq].
    + rewrite lookup_insert_eq, decide_True by (by right). rewrite Ea. cbn. unfold after_update. fold a1. by rewrite Ef.
    + rewrite lookup_insert_ne, decide_False; [done| |done]. intros [H1|[= H1]]; [by apply elem_of_nil in H1|by subst].
Qed.
