(* ===== verification/Tasks.v ===== *)
(** Units, the tasks they work on, and the module that hands tasks out
    (task/UnitTask.h, task/UnitTask.cpp, task/IdleTask.cpp, task/NilTask.cpp,
    task/PlayerTask.cpp, task/common/WaitTask.cpp, module/TaskModule.h,
    module/TaskModule.cpp, unit/CircuitUnit.h, unit/CircuitUnit.cpp, and the registry
    of units in CircuitAI.cpp).

    The world holds the units, the tasks of one task module and the actions, each by
    its address, 0 the null pointer.  An address that is not in its map is not
    allocated: following it is undefined ([UB]).  The virtual functions are those of
    the classes above; where a class further down (retreat, builder, factory and
    fighter tasks) adds work of its own, or a script is told, the call is a [hook], and
    TaskCalls.v says what a hook may do. *)

From S2P Require Import Prelude Outcome ActionList.

Inductive TaskType := NIL | PLAYER | IDLE | WAIT | RETREAT | BUILDER | FACTORY | FIGHTER.
Inductive TaskPriority := P_LOW | P_NORMAL | P_HIGH | P_NOW.
Inductive TaskState := ROAM | ENGAGE | DISENGAGE | REGROUP.
Inductive ETaskState := TS_NONE | TS_ASSIGN | TS_START | TS_TRAVEL | TS_EXECUTE | TS_STOP.

#[export] Instance TaskType_eq_dec : EqDecision TaskType.
Proof. solve_decision. Defined.

Definition ACTION_UPDATE_RATE : Z := 32.

(** [pathQueries] maps a unit to its query, null or an address. *)
Record IUnitTask := {
  units : gset Z;
  task_type : TaskType;
  priority : TaskPriority;
  task_state : TaskState;
  pathQueries : gmap Z (option Z);
  lastTouched : Z;
  timeout : Z;
  updCount : Z;
  task_dead : bool;
  refCount : Z;
}.

#[export] Instance IUnitTask_eta : Eta IUnitTask := fun t =>
  Build_IUnitTask (units t) (task_type t) (priority t) (task_state t) (pathQueries t) (lastTouched t) (timeout t) (updCount t) (task_dead t) (refCount t).

Definition IUnitTask_new (frame : Z) (p : TaskPriority) (ty : TaskType) (timeout : Z) : IUnitTask :=
  {| units := ∅; task_type := ty; priority := p; task_state := ROAM; pathQueries := ∅; lastTouched := frame; timeout := timeout;
     updCount := 0; task_dead := false; refCount := 1 |}.

(** [mobile] and [unit_def]: of its definition. *)
Record CCircuitUnit := {
  unit_id : Z;
  unit_def : Z;
  mobile : bool;
  utask : Z;
  taskFrame : Z;
  uState : ETaskState;
  acts : CActionList;
  dgunAct : option Z;
  travelAct : option Z;
  unit_dead : bool;
}.

#[export] Instance CCircuitUnit_eta : Eta CCircuitUnit := fun u =>
  Build_CCircuitUnit (unit_id u) (unit_def u) (mobile u) (utask u) (taskFrame u) (uState u) (acts u) (dgunAct u) (travelAct u) (unit_dead u).

Definition CCircuitUnit_new (id d : Z) (m : bool) : CCircuitUnit :=
  {| unit_id := id; unit_def := d; mobile := m; utask := 0; taskFrame := -1; uState := TS_NONE; acts := CActionList_new;
     dgunAct := None; travelAct := None; unit_dead := false |}.

(** [updateUnits] and [updateSlice] are the idle task's own.  [gone] is not in the code: the
    units whose destruction has begun. *)
Record World := {
  lastFrame : Z;
  isAntiCap : bool;
  tasks : gmap Z IUnitTask;
  wunits : gmap Z CCircuitUnit;
  acts_heap : gmap Z IAction;
  nilTask : Z;
  idleTask : Z;
  playerTask : Z;
  updateUnits : gset Z;
  updateSlice : Z;
  updateTasks : list Z;
  updateIterator : nat;
  teamUnits : gmap Z Z;
  defCount : gmap Z Z;
  actionUnits : list Z;
  actionIterator : nat;
  garbage : gset Z;
  gone : gset Z;
}.

#[export] Instance World_eta : Eta World := fun w =>
  Build_World (lastFrame w) (isAntiCap w) (tasks w) (wunits w) (acts_heap w) (nilTask w) (idleTask w) (playerTask w) (updateUnits w) (updateSlice w)
    (updateTasks w) (updateIterator w) (teamUnits w) (defCount w) (actionUnits w) (actionIterator w) (garbage w) (gone w).

Abbreviation hook := (World -> out World).

Definition task_at (t : Z) (w : World) : out IUnitTask := deref (tasks w) t.
Definition unit_at (u : Z) (w : World) : out CCircuitUnit := deref (wunits w) u.
Definition put_task (t : Z) (tk : IUnitTask) (w : World) : World := w <| tasks ::= <[t := tk]> |>.
Definition put_unit (u : Z) (x : CCircuitUnit) (w : World) : World := w <| wunits ::= <[u := x]> |>.

(** [t->...]: read the task, change it. *)
Definition with_task (t : Z) (f : IUnitTask -> IUnitTask) (w : World) : out World := tk ← task_at t w; Val (put_task t (f tk) w).
Definition with_unit (u : Z) (f : CCircuitUnit -> CCircuitUnit) (w : World) : out World := x ← unit_at u w; Val (put_unit u (f x) w).

(** * Units *)

Definition SetTask (u t : Z) (w : World) : out World :=
  with_unit u (fun x => x <| utask := t |> <| taskFrame := lastFrame w |> <| uState := TS_NONE |>) w.

(** [CActionList::Clear] of the unit. *)
Definition Clear (u : Z) (w : World) : out World :=
  x ← unit_at u w; '(l, h) ← ActClear (acts x) (acts_heap w);
  Val ((put_unit u (x <| acts := l |>) w) <| acts_heap := h |>).

Definition ClearAct (u : Z) (w : World) : out World :=
  w ← Clear u w; with_unit u (fun x => x <| dgunAct := None |> <| travelAct := None |>) w.

(** [unit->PushBack(new ...)], the allocator returning [p]. *)
Definition PushAct (u p : Z) (ty : ActType) (w : World) : out World :=
  w ← require (bool_decide (acts_heap w !! p = None)) w;
  with_unit u (fun x => x <| acts ::= PushBack p |>) (w <| acts_heap ::= <[p := IAction_new u ty]> |>).

Definition PushDGunAct (u p : Z) (w : World) : out World := w ← PushAct u p T_DGUN w; with_unit u (fun x => x <| dgunAct := Some p |>) w.
Definition PushTravelAct (u p : Z) (ty : ActType) (w : World) : out World := w ← PushAct u p ty w; with_unit u (fun x => x <| travelAct := Some p |>) w.

Definition Garbage (u : Z) (w : World) : World := w <| garbage ::= union {[u]} |>.

(** The end of [TRY_UNIT]: whether the engine call threw. *)
Definition try_unit (throws : bool) (u : Z) (w : World) : World := if throws then Garbage u w else w.

(** The anti-capture action of what does not move. *)
Definition push_anti_cap (u p : Z) (w : World) : out World :=
  x ← unit_at u w; if negb (mobile x) && isAntiCap w then PushAct u p T_ANTI_CAP w else Val w.

(** * Tasks *)

Definition Nil_AssignTo (u p : Z) (w : World) : out World := w ← SetTask u (nilTask w) w; push_anti_cap u p w.
Definition Nil_RemoveAssignee (u : Z) (w : World) : out World := Clear u w.

Definition Idle_AssignTo (u : Z) (w : World) : out World :=
  w ← SetTask u (idleTask w) w; with_task (idleTask w) (fun tk => tk <| units ::= union {[u]} |>) w.

Definition Idle_RemoveAssignee (u : Z) (w : World) : out World :=
  tk ← task_at (idleTask w) w;
  w ← (if decide (u ∈ units tk) then Val ((put_task (idleTask w) (tk <| units ::= fun s => s ∖ {[u]} |>) w) <| updateUnits ::= fun s => s ∖ {[u]} |>) else Val w);
  ClearAct u w.

(** [IUnitTask::AssignTo]; [throws]: whether [RemoveWait] did. *)
Definition Base_AssignTo (throws : bool) (p t u : Z) (w : World) : out World :=
  w ← with_task t (fun tk => tk <| lastTouched := -1 |>) w;
  w ← Idle_RemoveAssignee u w;
  w ← SetTask u t w;
  w ← with_task t (fun tk => tk <| units ::= union {[u]} |>) w;
  push_anti_cap u p (try_unit throws u w).

(** [IUnitTask::RemoveAssignee]. *)
Definition Base_RemoveAssignee (t u : Z) (w : World) : out World :=
  w ← with_task t (fun tk => tk <| pathQueries ::= base.delete u |> <| units ::= fun s => s ∖ {[u]} |>) w;
  w ← Clear u w;
  w ← Idle_AssignTo u w;
  with_task t (fun tk => if decide (units tk = ∅) then tk <| lastTouched := lastFrame w |> else tk) w.

(** [IUnitTask::Stop]: [fin] is [Finish] or [Cancel]. *)
Definition Stop (fin : hook) (t : Z) (w : World) : out World :=
  w ← fin w;
  tk ← task_at t w;
  w ← each (fun u w => w ← Clear u w; Idle_AssignTo u w) (elements (units tk)) w;
  with_task t (fun tk => tk <| units := ∅ |> <| pathQueries := ∅ |>) w.

Definition Dead (t : Z) (w : World) : out World := with_task t (fun tk => tk <| task_dead := true |> <| pathQueries := ∅ |>) w.

(** [ITaskModule::DequeueTask]: the script's [TaskRemoved], then [Finish] or [Cancel]. *)
Definition DequeueTask (removed finish cancel : hook) (t : Z) (done : bool) (w : World) : out World :=
  w ← Dead t w; w ← removed w; Stop (if done then finish else cancel) t w.

Definition AbortTask (removed cancel : hook) (t : Z) (w : World) : out World := DequeueTask removed cancel cancel t false w.

(** [t->RemoveAssignee(unit)]: a wait task without units is aborted; [after] is what the
    derived classes do after [IUnitTask]'s. *)
Definition RemoveAssignee (after removed cancel : hook) (t u : Z) (w : World) : out World :=
  tk ← task_at t w;
  match task_type tk with
  | NIL => Nil_RemoveAssignee u w
  | IDLE => Idle_RemoveAssignee u w
  | PLAYER => Base_RemoveAssignee t u w
  | WAIT => w ← Base_RemoveAssignee t u w; tk ← task_at t w; if decide (units tk = ∅) then AbortTask removed cancel t w else Val w
  | _ => w ← Base_RemoveAssignee t u w; after w
  end.

(** [t->AssignTo(unit)]. *)
Definition AssignTo (after : hook) (throws : bool) (p t u : Z) (w : World) : out World :=
  tk ← task_at t w;
  match task_type tk with
  | NIL => Nil_AssignTo u p w
  | IDLE => Idle_AssignTo u w
  | PLAYER => Base_AssignTo throws p t u w
  | WAIT => w ← Base_AssignTo throws p t u w; with_task t (fun tk => tk <| lastTouched := lastFrame w |>) w
  | _ => w ← Base_AssignTo throws p t u w; after w
  end.

(** [t->Start(unit)]: a wait task only gives orders. *)
Definition Start (start : hook) (throws : bool) (t u : Z) (w : World) : out World :=
  tk ← task_at t w;
  match task_type tk with
  | NIL | IDLE | PLAYER => Val w
  | WAIT => Val (try_unit throws u w)
  | _ => start w
  end.

(** [IsQueryReady]: [ready] tells whether a query is. *)
Definition IsQueryReady (ready : Z -> bool) (tk : IUnitTask) (u : Z) : bool :=
  match pathQueries tk !! u with Some (Some q) => ready q | _ => true end.

(** [Release] drops a reference and the object with the last one. *)
Definition Release_ (t : Z) (w : World) : out World :=
  tk ← task_at t w;
  let n := refCount tk - 1 in
  Val (if n =? 0 then w <| tasks ::= base.delete t |> else put_task t (tk <| refCount := n |>) w).

Definition ClearRelease (t : Z) (w : World) : out World := w ← with_task t (fun tk => tk <| pathQueries := ∅ |>) w; Release_ t w.

(** * The module *)

(** [ITaskModule::AssignTask(unit, task)]. *)
Definition AssignTask (after removed cancel after' start : hook) (throws throws' : bool) (p u t : Z) (w : World) : out World :=
  x ← unit_at u w;
  w ← RemoveAssignee after removed cancel (utask x) u w;
  w ← AssignTo after' throws p t u w;
  Start start throws' t u w.

(** A manager's enqueue: the new task joins [updateTasks], the script's [TaskAdded] is told. *)
Definition EnqueueTask (added : hook) (t : Z) (pr : TaskPriority) (ty : TaskType) (timeout : Z) (w : World) : out World :=
  added ((put_task t (IUnitTask_new (lastFrame w) pr ty timeout) w) <| updateTasks ::= fun l => l ++ [t] |>).
