(* ===== verification/TaskInv.v ===== *)
(** The invariant of the task machinery, and what the operations of [Tasks] do to it. *)

From S2P Require Import Prelude Outcome ActionList Tasks.

(** * The invariant *)

Definition is_special (ty : TaskType) : bool := match ty with NIL | IDLE | PLAYER => true | _ => false end.

(** Everything but the place of the single units. *)
Record glob (w : World) : Prop := {
  g_idle : exists tk, tasks w !! idleTask w = Some tk /\ task_type tk = IDLE /\ task_dead tk = false;
  g_nil : exists tk, tasks w !! nilTask w = Some tk /\ task_type tk = NIL /\ task_dead tk = false;
  g_types : forall t tk, tasks w !! t = Some tk -> t <> 0 /\ (task_type tk = IDLE -> t = idleTask w) /\ (task_type tk = NIL -> t = nilTask w /\ units tk = ∅);
  g_live : forall u x, wunits w !! u = Some x -> utask x <> 0 -> is_Some (tasks w !! utask x);
  g_members : forall t tk u, tasks w !! t = Some tk -> u ∈ units tk -> is_Some (wunits w !! u);
  g_update : forall tk, tasks w !! idleTask w = Some tk -> updateUnits w ⊆ units tk;
  g_queue : NoDup (updateTasks w) /\ forall t, t ∈ updateTasks w -> exists tk, tasks w !! t = Some tk /\ is_special (task_type tk) = false;
  g_acts : forall u x, wunits w !! u = Some x -> NoDup (actions (acts x)) /\
    forall p, p ∈ actions (acts x) -> exists a, acts_heap w !! p = Some a /\ ownerList a = u;
  g_garbage : forall u, u ∈ garbage w -> exists x, wunits w !! u = Some x /\ utask x <> 0;
}.

(** A unit is in the set of its task and in no other; nothing holds a nanoframe, and a
    destroyed unit may have left the idle task's set.  Its shortcuts to actions lead to actions
    it has, except while it is idle. *)
Record placed (w : World) (u : Z) : Prop := {
  p_has : forall x, wunits w !! u = Some x -> utask x <> 0 ->
    exists tk, tasks w !! utask x = Some tk /\ (u ∈ units tk \/ task_type tk = NIL \/ (task_type tk = IDLE /\ u ∈ gone w));
  p_only : forall t tk x, tasks w !! t = Some tk -> u ∈ units tk -> wunits w !! u = Some x -> utask x = t;
  p_ptrs : forall x p, wunits w !! u = Some x -> utask x <> idleTask w -> dgunAct x = Some p \/ travelAct x = Some p -> p ∈ actions (acts x);
  p_null : forall x, wunits w !! u = Some x -> utask x = nilTask w \/ utask x = 0 -> dgunAct x = None /\ travelAct x = None;
}.

(** [E]: the units that are on their way. *)
Definition wfx (E : gset Z) (w : World) : Prop := glob w /\ forall u, u ∉ E -> placed w u.
Definition wf (w : World) : Prop := wfx ∅ w.

(** What never changes below a hook. *)
Definition consts (w : World) :=
  (lastFrame w, isAntiCap w, nilTask w, idleTask w, playerTask w, updateSlice w, updateIterator w, (teamUnits w, defCount w, actionUnits w, actionIterator w, gone w)).

(** The members a dead task already had. *)
Definition had (w : World) (t : Z) : gset Z :=
  match tasks w !! t with Some tk => if task_dead tk then units tk else ∅ | None => ∅ end.

(** How the world moves on while hooks run: nothing is freed, a dead task stays dead and gets no
    unit, a new one joins the queue, a destroyed unit moves to the idle task at most, and only from a task it was at work on.  [D]: the tasks on their way out. *)
Record evo (D : gset Z) (w w' : World) : Prop := {
  e_consts : consts w' = consts w;
  e_units : forall u, match wunits w !! u, wunits w' !! u with
    | Some x, Some x' => unit_dead x' = unit_dead x /\ unit_id x' = unit_id x /\ unit_def x' = unit_def x /\ (utask x = 0 <-> utask x' = 0) /\
        (u ∈ gone w -> utask x' = utask x \/ utask x' = idleTask w)
    | None, None => True | _, _ => False end;
  e_tasks : forall t tk, tasks w !! t = Some tk -> exists tk', tasks w' !! t = Some tk' /\ task_type tk' = task_type tk /\ refCount tk' = refCount tk /\ (task_dead tk = true -> task_dead tk' = true);
  e_dead : forall t tk', t ∉ D -> tasks w' !! t = Some tk' -> task_dead tk' = true -> units tk' ⊆ had w t;
  e_new : forall t tk', tasks w !! t = None -> tasks w' !! t = Some tk' -> refCount tk' = 1;
  e_queue : exists l, updateTasks w' = updateTasks w ++ l;
  e_update : updateUnits w' ⊆ updateUnits w;
  e_gone : forall u ik', u ∈ gone w -> tasks w' !! idleTask w = Some ik' -> u ∈ units ik' ->
    (exists ik, tasks w !! idleTask w = Some ik /\ u ∈ units ik) \/ exists x, wunits w !! u = Some x /\ utask x <> idleTask w /\ utask x <> nilTask w;
  e_queued : forall t tk', tasks w !! t = None -> tasks w' !! t = Some tk' -> is_special (task_type tk') = false -> t ∈ updateTasks w';
}.

Lemma evo_refl (D : gset Z) (w : World) : evo D w w.
Proof.
  split; try done.
  - intros u. destruct (wunits w !! u); [|done]. split_and!; auto.
  - intros t tk E. eauto.
  - intros t tk' _ E Hd. unfold had. by rewrite E, Hd.
  - congruence.
  - exists []. by rewrite app_nil_r.
  - eauto.
  - congruence.
Qed.

Lemma evo_trans (D : gset Z) (w1 w2 w3 : World) : evo D w1 w2 -> evo D w2 w3 -> evo D w1 w3.
Proof.
  intros [C1 U1 T1 D1 N1 Q1 P1 X1 L1] [C2 U2 T2 D2 N2 Q2 P2 X2 L2].
  assert (K : gone w2 = gone w1 /\ idleTask w2 = idleTask w1 /\ nilTask w2 = nilTask w1) by (clear -C1; unfold consts in C1; by inversion C1).
  destruct K as (Kg & Ki & Kn). split.
  - congruence.
  - intros u. specialize (U1 u). specialize (U2 u). destruct (wunits w1 !! u), (wunits w2 !! u), (wunits w3 !! u); try done.
    destruct U1 as (A1 & B1 & F1 & G1 & H1), U2 as (A2 & B2 & F2 & G2 & H2). split_and!; try congruence; [by rewrite G1|]. intros Hg.
    assert (Hg2 : u ∈ gone w2) by congruence. destruct (H2 Hg2) as [Eu|Eu]; rewrite Eu; [auto|right; congruence].
  - intros t tk E. destruct (T1 t tk E) as (tk2 & E2 & ? & ? & ?). destruct (T2 t tk2 E2) as (tk3 & E3 & ? & ? & ?). exists tk3. split_and!; try congruence; auto.
  - intros t tk' Hn E Hd. etrans; [by apply (D2 t tk')|]. unfold had at 1. destruct (tasks w2 !! t) as [tk2|] eqn:E2; [|set_solver].
    destruct (task_dead tk2) eqn:Ed; [|set_solver]. by apply D1.
  - intros t tk' E1 E3. destruct (tasks w2 !! t) as [tk2|] eqn:E2; [|by eapply N2]. destruct (T2 t tk2 E2) as (tk3 & E3' & _ & Er & _).
    rewrite E3 in E3'. simplify_eq. rewrite Er. by eapply N1.
  - destruct Q1 as [l1 E1], Q2 as [l2 E2]. exists (l1 ++ l2). by rewrite E2, E1, app_assoc.
  - set_solver.
  - intros u ik' Hg Ei Hu. rewrite Kg, Ki, Kn in X2. destruct (X2 u ik' Hg Ei Hu) as [(ik & Ei2 & Hu2)|(x2 & Ex2 & Hx & Hx')]; [eauto|].
    right. specialize (U1 u). rewrite Ex2 in U1. destruct (wunits w1 !! u) as [x|] eqn:Ex; [|done]. exists x. split; [done|].
    destruct U1 as (_ & _ & _ & _ & U1). destruct (U1 Hg) as [Eu|Eu]; rewrite Eu in Hx, Hx'; done.
  - intros t tk' E1 E3 Hs. destruct (tasks w2 !! t) as [tk2|] eqn:E2; [|by eapply L2]. destruct (T2 t tk2 E2) as (tk3 & E3' & Ty & _).
    rewrite E3 in E3'. simplify_eq. destruct Q2 as [l ->]. apply elem_of_app. left. apply (L1 t tk2); congruence.
Qed.

(** * Steps *)

Lemma wfx_mono (E E' : gset Z) (w : World) : E ⊆ E' -> wfx E w -> wfx E' w.
Proof. intros HE [Hg Hp]. split; [done|]. intros u Hu. apply Hp. set_solver. Qed.

(** A unit that has arrived. *)
Lemma wfx_arrive (E : gset Z) (w : World) (u : Z) : wfx (E ∪ {[u]}) w -> placed w u -> wfx E w.
Proof. intros [Hg Hp] Hu. split; [done|]. intros v Hv. destruct (decide (v = u)) as [->|Hne]; [done|]. apply Hp. set_solver. Qed.

(** Change a task: its members only by units on their way. *)
Record task_change (E : gset Z) (w : World) (t : Z) (tk tk' : IUnitTask) : Prop := {
  tc_type : task_type tk' = task_type tk;
  tc_dead : task_dead tk' = true -> task_type tk <> IDLE /\ task_type tk <> NIL;
  tc_nil : task_type tk = NIL -> units tk' = ∅;
  tc_in : forall u, u ∈ units tk' -> u ∉ units tk -> u ∈ E /\ is_Some (wunits w !! u);
  tc_out : forall u, u ∈ units tk -> u ∉ units tk' -> u ∈ E;
  tc_upd : t = idleTask w -> updateUnits w ⊆ units tk';
}.

Lemma put_task_wfx (E : gset Z) (w : World) (t : Z) (tk tk' : IUnitTask) :
  wfx E w -> tasks w !! t = Some tk -> task_change E w t tk tk' -> wfx E (put_task t tk' w).
Proof.
  intros [G Hp] Et [H1 H2 H3 H4 H5 H6]. split.
  - destruct G as [Gi Gn Gt Gl Gm Gu Gq Ga Gg]. split; cbn; try done.
    + destruct Gi as (k & Ek & Tk & Dk). destruct (decide (t = idleTask w)) as [->|Hne]; [|exists k; by rewrite lookup_insert_ne].
      exists tk'. rewrite lookup_insert_eq. simplify_eq. split_and!; [done|congruence|]. destruct (task_dead tk'); [|done]. by destruct H2.
    + destruct Gn as (k & Ek & Tk & Dk). destruct (decide (t = nilTask w)) as [->|Hne]; [|exists k; by rewrite lookup_insert_ne].
      exists tk'. rewrite lookup_insert_eq. simplify_eq. split_and!; [done|congruence|]. destruct (task_dead tk'); [|done]. by destruct H2.
    + intros s k [[-> <-]|[Hne Ek]]%lookup_insert_Some; [|by apply Gt]. destruct (Gt _ _ Et) as (? & ? & ?). rewrite H1. split_and!; [done|done|].
      intros Hn. split; [by apply Gt in Et as (_ & _ & Et); apply Et|auto].
    + intros u x Eu Hn. destruct (Gl u x Eu Hn) as [k Ek]. destruct (decide (t = utask x)) as [->|Hne]; [rewrite lookup_insert_eq; eauto|rewrite lookup_insert_ne; eauto].
    + intros s k u [[-> <-]|[Hne Ek]]%lookup_insert_Some Hu; [|by eapply Gm]. destruct (decide (u ∈ units tk)); [by eapply Gm|]. by apply H4.
    + intros k [[-> <-]|[Hne Ek]]%lookup_insert_Some; [by apply H6|by apply Gu].
    + destruct Gq as [Gq1 Gq2]. split; [done|]. intros s Hs. destruct (Gq2 s Hs) as (k & Ek & Tk). destruct (decide (t = s)) as [->|Hne].
      * exists tk'. rewrite lookup_insert_eq. simplify_eq. split; [done|]. by rewrite H1.
      * exists k. by rewrite lookup_insert_ne.
  - intros u Hu. destruct (Hp u Hu) as [P1 P2 P3 P4].
    assert (Hiff : u ∈ units tk' <-> u ∈ units tk).
    { split; intros Hin; destruct (decide (u ∈ units tk)), (decide (u ∈ units tk')); try done; exfalso; apply Hu; first [by destruct (H4 u)|by apply (H5 u)]. }
    split; cbn; try done.
    + intros x Eu Hn. destruct (P1 x Eu Hn) as (k & Ek & Hk). destruct (decide (t = utask x)) as [Hte|Hne]; [subst t|].
      * exists tk'. rewrite lookup_insert_eq. simplify_eq. split; [done|]. rewrite H1, Hiff. done.
      * exists k. by rewrite lookup_insert_ne.
    + intros s k x [[-> <-]|[Hne Ek]]%lookup_insert_Some Hk Eu; [|by eapply P2]. apply (P2 _ tk); [done|by apply Hiff|done].
Qed.

(** Change a unit on its way. *)
Lemma put_unit_wfx (E : gset Z) (w : World) (u : Z) (x x' : CCircuitUnit) :
  wfx E w -> wunits w !! u = Some x -> u ∈ E -> acts x' = acts x -> (utask x <> 0 -> utask x' <> 0) -> (utask x' <> 0 -> is_Some (tasks w !! utask x')) -> wfx E (put_unit u x' w).
Proof.
  intros [G Hp] Eu Hin Ha Hz Ht. split.
  - destruct G as [Gi Gn Gt Gl Gm Gu Gq Ga Gg]. split; cbn; try done.
    + intros v y [[-> <-]|[Hne Ey]]%lookup_insert_Some; [done|by apply (Gl v)].
    + intros t tk v Et Hv. destruct (Gm t tk v Et Hv) as [y Ey]. destruct (decide (u = v)) as [->|Hne]; [rewrite lookup_insert_eq|rewrite lookup_insert_ne]; eauto.
    + intros v y [[-> <-]|[Hne Ey]]%lookup_insert_Some; [rewrite Ha|]; by eapply Ga.
    + intros v Hv. destruct (Gg v Hv) as (y & Ey & Hy). destruct (decide (u = v)) as [<-|Hne]; [|exists y; by rewrite lookup_insert_ne].
      rewrite lookup_insert_eq. eexists. split; [done|]. rewrite Eu in Ey. simplify_eq. auto.
  - intros v Hv. assert (Hne : u <> v) by (intros ->; contradiction). destruct (Hp v Hv) as [P1 P2 P3 P4].
    split; cbn; setoid_rewrite lookup_insert_ne; done.
Qed.

(** A unit without actions, and the heap without the ones it had. *)
Definition cleared (u : Z) (x : CCircuitUnit) (w : World) : World :=
  (put_unit u (x <| acts ::= fun l => l <| actions := [] |> |>) w) <| acts_heap := filter (fun kv => kv.1 ∉ actions (acts x)) (acts_heap w) |>.

Lemma cleared_wfx (E : gset Z) (w : World) (u : Z) (x : CCircuitUnit) :
  wfx E w -> wunits w !! u = Some x -> u ∈ E -> wfx E (cleared u x w).
Proof.
  intros [G Hp] Eu Hin. split.
  - destruct G as [Gi Gn Gt Gl Gm Gu Gq Ga Gg]. split; cbn; try done.
    + intros v y [[-> <-]|[Hne Ey]]%lookup_insert_Some; [exact (Gl _ x Eu)|by apply (Gl v)].
    + intros t tk v Et Hv. destruct (Gm t tk v Et Hv) as [y Ey]. destruct (decide (u = v)) as [->|Hne]; [rewrite lookup_insert_eq|rewrite lookup_insert_ne]; eauto.
    + intros v y [[-> <-]|[Hne Ey]]%lookup_insert_Some; cbn.
      * split; [constructor|]. intros p Hq. by apply elem_of_nil in Hq.
      * destruct (Ga v y Ey) as [Hnd Hv]. split; [done|]. intros p Hq. destruct (Hv p Hq) as (a & Ea & Ho). exists a. split; [|done].
        apply map_lookup_filter_Some. split; [done|]. cbn. intros Hx. destruct (Ga u x Eu) as [_ Hu]. destruct (Hu p Hx) as (a' & Ea' & Ho'). congruence.
    + intros v Hv. destruct (Gg v Hv) as (y & Ey & Hy). destruct (decide (u = v)) as [<-|Hne]; [|exists y; by rewrite lookup_insert_ne].
      rewrite lookup_insert_eq. eexists. split; [done|]. rewrite Eu in Ey. simplify_eq. auto.
  - intros v Hv. assert (Hne : u <> v) by (intros ->; contradiction). destruct (Hp v Hv) as [P1 P2 P3 P4].
    split; cbn; setoid_rewrite lookup_insert_ne; done.
Qed.

(** A unit with one more action. *)
Definition pushed (u : Z) (x : CCircuitUnit) (p : Z) (ty : ActType) (w : World) : World :=
  put_unit u (x <| acts ::= PushBack p |>) (w <| acts_heap ::= <[p := IAction_new u ty]> |>).

Lemma pushed_wfx (E : gset Z) (w : World) (u : Z) (x : CCircuitUnit) (p : Z) (ty : ActType) :
  wfx E w -> wunits w !! u = Some x -> acts_heap w !! p = None -> wfx E (pushed u x p ty w).
Proof.
  intros [G Hp] Eu Ep. split.
  - destruct G as [Gi Gn Gt Gl Gm Gu Gq Ga Gg]. split; cbn; try done.
    + intros v y [[-> <-]|[Hne Ey]]%lookup_insert_Some; [exact (Gl _ x Eu)|by apply (Gl v)].
    + intros t tk v Et Hv. destruct (Gm t tk v Et Hv) as [y Ey]. destruct (decide (u = v)) as [->|Hne]; [rewrite lookup_insert_eq|rewrite lookup_insert_ne]; eauto.
    + assert (Hfr : forall v y q, wunits w !! v = Some y -> q ∈ actions (acts y) -> q <> p).
      { intros v y q Ey Hq ->. destruct (Ga v y Ey) as [_ Hy]. destruct (Hy p Hq) as (a & Ea & _). congruence. }
      intros v y [[-> <-]|[Hne Ey]]%lookup_insert_Some; cbn.
      * destruct (Ga _ x Eu) as [Hnd Hx]. split.
        { apply NoDup_app. split; [done|]. split; [|apply NoDup_singleton]. intros q Hq ->%list_elem_of_singleton. by apply (Hfr _ x p Eu Hq). }
        intros q [Hq|Hq]%elem_of_app; [|apply list_elem_of_singleton in Hq as ->; rewrite lookup_insert_eq; eauto].
        rewrite lookup_insert_ne by (symmetry; eauto). by apply Hx.
      * destruct (Ga v y Ey) as [Hnd Hy]. split; [done|]. intros q Hq. rewrite lookup_insert_ne by (symmetry; eauto). by apply Hy.
    + intros v Hv. destruct (Gg v Hv) as (y & Ey & Hy). destruct (decide (u = v)) as [<-|Hne]; [|exists y; by rewrite lookup_insert_ne].
      rewrite lookup_insert_eq. eexists. split; [done|]. rewrite Eu in Ey. simplify_eq. auto.
  - intros v Hv. destruct (Hp v Hv) as [P1 P2 P3 P4]. destruct (decide (u = v)) as [->|Hne]; [|split; cbn; setoid_rewrite lookup_insert_ne; done].
    split; cbn; setoid_rewrite lookup_insert_eq.
    + intros y [= <-]. cbn. by apply P1.
    + intros t tk y Et Hu [= <-]. cbn. by eapply P2.
    + intros y q [= <-]. cbn. intros Hi Hq. apply elem_of_app. left. by eapply P3.
    + intros y [= <-]. cbn. by apply P4.
Qed.

Lemma update_wfx (E : gset Z) (w : World) (s : gset Z) : wfx E w -> s ⊆ updateUnits w -> wfx E (w <| updateUnits := s |>).
Proof.
  intros [[Gi Gn Gt Gl Gm Gu Gq Ga Gg] Hp] Hs. split; [split; try done|intros u Hu; destruct (Hp u Hu); by split].
  intros tk Etk. cbn in *. etrans; [exact Hs|]. by apply Gu.
Qed.

Lemma garbage_wfx (E : gset Z) (w : World) (u : Z) : wfx E w -> (exists x, wunits w !! u = Some x /\ utask x <> 0) -> wfx E (Garbage u w).
Proof.
  intros [[Gi Gn Gt Gl Gm Gu Gq Ga Gg] Hp] Hu. split; [split; try done|intros v Hv; destruct (Hp v Hv); by split].
  cbn. intros v [->%elem_of_singleton|Hv]%elem_of_union; [done|by apply Gg].
Qed.

(** ** How the steps evolve the world *)

Lemma evo_put_task (D : gset Z) (w : World) (t : Z) (tk tk' : IUnitTask) :
  tasks w !! t = Some tk -> task_type tk' = task_type tk -> refCount tk' = refCount tk -> (task_dead tk = true -> task_dead tk' = true) ->
  (t ∉ D -> task_dead tk' = true -> units tk' ⊆ had w t) ->
  (forall u, t = idleTask w -> u ∈ gone w -> u ∈ units tk' -> u ∈ units tk \/ exists x, wunits w !! u = Some x /\ utask x <> idleTask w /\ utask x <> nilTask w) ->
  evo D w (put_task t tk' w).
Proof.
  intros Et H1 H2 H3 H4 H5. destruct (evo_refl D w) as [R1 R2 R3 R4 R5 R6 R7 R8 R9]. split; cbn; try done.
  - intros s k Ek. destruct (decide (t = s)) as [->|Hne]; [|rewrite lookup_insert_ne; eauto]. rewrite lookup_insert_eq. simplify_eq. eauto.
  - intros s k Hs [[-> <-]|[Hne Ek]]%lookup_insert_Some Hd; [by apply H4|by apply R4].
  - intros s k En [[-> <-]|[Hne Ek]]%lookup_insert_Some; congruence.
  - intros u k Hg [[-> <-]|[Hne Ek]]%lookup_insert_Some Hu; [|eauto]. destruct (H5 u eq_refl Hg Hu); eauto.
  - intros s k En [[-> <-]|[Hne Ek]]%lookup_insert_Some; congruence.
Qed.

Lemma evo_put_unit (D : gset Z) (w : World) (u : Z) (x x' : CCircuitUnit) :
  wunits w !! u = Some x -> unit_dead x' = unit_dead x -> unit_id x' = unit_id x -> unit_def x' = unit_def x -> (utask x = 0 <-> utask x' = 0) ->
  (u ∈ gone w -> utask x' = utask x \/ utask x' = idleTask w) -> evo D w (put_unit u x' w).
Proof.
  intros Eu H1 H2 H3 H4 H5. destruct (evo_refl D w) as [R1 R2 R3 R4 R5 R6 R7 R8 R9]. split; cbn; try done.
  intros v. destruct (decide (u = v)) as [->|Hne]; [rewrite Eu, lookup_insert_eq; done|rewrite lookup_insert_ne by done; apply R2].
Qed.

Lemma evo_heap (D : gset Z) (w : World) (h : gmap Z IAction) : evo D w (w <| acts_heap := h |>).
Proof. destruct (evo_refl D w). by split. Qed.

Lemma evo_updateUnits (D : gset Z) (w : World) (s : gset Z) : s ⊆ updateUnits w -> evo D w (w <| updateUnits := s |>).
Proof. intros Hs. destruct (evo_refl D w). by split. Qed.

Lemma evo_garbage (D : gset Z) (w : World) (u : Z) : evo D w (Garbage u w).
Proof. destruct (evo_refl D w). by split. Qed.

Lemma evo_try (D : gset Z) (w : World) (b : bool) (u : Z) : evo D w (try_unit b u w).
Proof. destruct b; [apply evo_garbage|apply evo_refl]. Qed.

Lemma evo_cleared (D : gset Z) (w : World) (u : Z) (x : CCircuitUnit) : wunits w !! u = Some x -> evo D w (cleared u x w).
Proof. intros Eu. eapply evo_trans; [|apply evo_heap]. eapply evo_put_unit; eauto. Qed.

Lemma evo_pushed (D : gset Z) (w : World) (u : Z) (x : CCircuitUnit) (p : Z) (ty : ActType) : wunits w !! u = Some x -> evo D w (pushed u x p ty w).
Proof. intros Eu. unfold pushed. eapply evo_trans; [apply (evo_heap D w (<[p := IAction_new u ty]> (acts_heap w)))|]. eapply evo_put_unit; eauto. Qed.
