(* ===== verification/TaskOps.v ===== *)
(** The operations of [Tasks] keep the invariant of [TaskInv], whatever hooks do that keep it. *)

From S2P Require Import Prelude Outcome ActionList Tasks TaskInv.

Lemma wp_with_task (t : Z) (f : IUnitTask -> IUnitTask) (w : World) (tk : IUnitTask) (P : World -> Prop) :
  tasks w !! t = Some tk -> P (put_task t (f tk) w) -> wp (with_task t f w) P.
Proof. intros Et HP. unfold with_task, task_at. apply wp_bind, (wp_deref _ _ tk); done. Qed.

Lemma wp_with_unit (u : Z) (f : CCircuitUnit -> CCircuitUnit) (w : World) (x : CCircuitUnit) (P : World -> Prop) :
  wunits w !! u = Some x -> P (put_unit u (f x) w) -> wp (with_unit u f w) P.
Proof. intros Eu HP. unfold with_unit, unit_at. apply wp_bind, (wp_deref _ _ x); done. Qed.

Lemma wp_Clear_owned (u : Z) (w : World) (x : CCircuitUnit) (P : World -> Prop) :
  wunits w !! u = Some x -> NoDup (actions (acts x)) -> (forall p, p ∈ actions (acts x) -> is_Some (acts_heap w !! p)) -> P (cleared u x w) -> wp (Clear u w) P.
Proof.
  intros Eu Hnd Hin HP. unfold Clear, unit_at. apply wp_bind, (wp_deref _ _ x); [done|]. unfold ActClear. rewrite free_each; [cbn; done|done|].
  intros p Hp. destruct (Hin p Hp). eauto.
Qed.

Lemma wp_Clear (u : Z) (w : World) (x : CCircuitUnit) (P : World -> Prop) :
  glob w -> wunits w !! u = Some x -> P (cleared u x w) -> wp (Clear u w) P.
Proof.
  intros G Eu HP. destruct (g_acts w G u x Eu) as [Hnd Hin]. apply (wp_Clear_owned _ _ x); [done|done| |done]. intros p Hp. destruct (Hin p Hp) as (a & Ea & _). eauto.
Qed.

Lemma wp_PushAct (u p : Z) (ty : ActType) (w : World) (x : CCircuitUnit) (P : World -> Prop) :
  wunits w !! u = Some x -> (acts_heap w !! p = None -> P (pushed u x p ty w)) -> wp (PushAct u p ty w) P.
Proof.
  intros Eu HP. unfold PushAct. apply wp_bind, wp_require. intros Hb%bool_decide_eq_true_1. apply (wp_with_unit _ _ _ x); [done|]. by apply HP.
Qed.

(** What a hook must keep. *)
Definition hook_ok (k : hook) : Prop := forall w, wf w -> wp (k w) (fun w' => wf w' /\ evo ∅ w w').

Lemma evo_mono (D D' : gset Z) (w w' : World) : D ⊆ D' -> evo D w w' -> evo D' w w'.
Proof. intros HD [C U T X N Q P Y]. split; try done. intros t tk' Ht. apply X. set_solver. Qed.

Lemma evo_idle (D : gset Z) (w w' : World) : evo D w w' -> idleTask w' = idleTask w /\ nilTask w' = nilTask w /\ gone w' = gone w /\ lastFrame w' = lastFrame w.
Proof. intros [C _ _ _ _ _ _ _]. unfold consts in C. by simplify_eq. Qed.

Lemma evo_unit (D : gset Z) (w w' : World) (u : Z) (x : CCircuitUnit) : evo D w w' -> wunits w !! u = Some x -> exists x', wunits w' !! u = Some x' /\ (utask x <> 0 -> utask x' <> 0).
Proof. intros V Eu. pose proof (e_units _ _ _ V u) as U. rewrite Eu in U. destruct (wunits w' !! u) as [x'|]; [|done]. exists x'. tauto. Qed.

(** The idle task takes a unit. *)
Definition idled (u : Z) (x : CCircuitUnit) (ik : IUnitTask) (w : World) : World :=
  put_task (idleTask w) (ik <| units ::= union {[u]} |>)
    (put_unit u (x <| utask := idleTask w |> <| taskFrame := lastFrame w |> <| uState := TS_NONE |>) w).

Lemma wp_Idle_AssignTo (u : Z) (w : World) (x : CCircuitUnit) (ik : IUnitTask) (P : World -> Prop) :
  wunits w !! u = Some x -> tasks w !! idleTask w = Some ik -> P (idled u x ik w) -> wp (Idle_AssignTo u w) P.
Proof.
  intros Eu Ei HP. unfold Idle_AssignTo, SetTask. apply wp_bind, (wp_with_unit _ _ _ x); [done|]. by apply (wp_with_task _ _ _ ik).
Qed.

Lemma idle_task (w : World) (ik : IUnitTask) : glob w -> tasks w !! idleTask w = Some ik -> task_type ik = IDLE /\ task_dead ik = false /\ idleTask w <> 0 /\ idleTask w <> nilTask w.
Proof.
  intros G Ei. destruct (g_idle w G) as (k & Ek & Tk & Dk). destruct (g_nil w G) as (k' & Ek' & Tk' & _). simplify_eq. split_and!; try done.
  - by apply (g_types w G) in Ei as [? _].
  - intros E. congruence.
Qed.

Lemma idled_wfx (E : gset Z) (w : World) (u : Z) (x : CCircuitUnit) (ik : IUnitTask) :
  wfx E w -> wunits w !! u = Some x -> tasks w !! idleTask w = Some ik -> u ∈ E -> wfx E (idled u x ik w).
Proof.
  intros W Eu Ei Hin. destruct (idle_task w ik (proj1 W) Ei) as (Ti & Di & Hz & _).
  assert (W1 : wfx E (put_unit u (x <| utask := idleTask w |> <| taskFrame := lastFrame w |> <| uState := TS_NONE |>) w)).
  { eapply put_unit_wfx; [done|done|done|done|done|]. cbn. eauto. }
  apply (put_task_wfx E _ _ ik); [done|done|]. split; cbn.
  - done.
  - congruence.
  - congruence.
  - intros v [->%elem_of_singleton|Hv]%elem_of_union Hn; [|done]. split; [done|]. rewrite lookup_insert_eq. eauto.
  - intros v Hv Hn. set_solver.
  - intros _. apply (g_update _ (proj1 W)) in Ei. set_solver.
Qed.

Lemma evo_idled (D : gset Z) (w : World) (u : Z) (x : CCircuitUnit) (ik : IUnitTask) :
  glob w -> wunits w !! u = Some x -> tasks w !! idleTask w = Some ik -> utask x <> 0 -> (u ∈ gone w -> utask x <> idleTask w /\ utask x <> nilTask w) -> evo D w (idled u x ik w).
Proof.
  intros G Eu Ei Hnz Hg. destruct (idle_task w ik G Ei) as (Ti & Di & Hz & _).
  apply (evo_trans D w (put_task (idleTask w) (ik <| units ::= union {[u]} |>) w)).
  - apply (evo_put_task D _ _ ik); cbn; try done; [congruence|]. intros v _ Hv [->%elem_of_singleton|Hin]%elem_of_union; [|auto]. right. exists x. auto.
  - refine (evo_put_unit D (put_task (idleTask w) (ik <| units ::= union {[u]} |>) w) u x
      (x <| utask := idleTask w |> <| taskFrame := lastFrame w |> <| uState := TS_NONE |>) _ _ _ _ _ _); cbn; auto. by split.
Qed.

(** ** [Stop] and [DequeueTask] *)

Definition idle_member (w : World) (u : Z) : Prop :=
  exists x ik, wunits w !! u = Some x /\ utask x = idleTask w /\ tasks w !! idleTask w = Some ik /\ u ∈ units ik.

(** Between the units of a stopping task: those not in [l] are idle. *)
Record stopping (t : Z) (tk : IUnitTask) (w0 : World) (l : list Z) (w : World) : Prop := {
  s_wfx : wfx (units tk) w;
  s_evo : evo {[t]} w0 w;
  s_task : tasks w !! t = Some tk;
  s_done : forall u, u ∈ units tk -> u ∉ l -> idle_member w u;
  s_tasks : forall s, s <> idleTask w -> tasks w !! s = tasks w0 !! s;
  s_others : forall v, v ∉ units tk \/ v ∈ l -> wunits w !! v = wunits w0 !! v;
  s_idle : forall ik, tasks w !! idleTask w = Some ik -> exists ik0, tasks w0 !! idleTask w = Some ik0 /\ task_type ik = task_type ik0 /\ task_dead ik = task_dead ik0 /\ units ik ⊆ units ik0 ∪ units tk;
}.

Lemma idled_units (u : Z) (x : CCircuitUnit) (ik : IUnitTask) (w : World) (v : Z) : v <> u -> wunits (idled u x ik w) !! v = wunits w !! v.
Proof. intros Hne. cbn. by rewrite lookup_insert_ne. Qed.

Lemma stop_step (t : Z) (tk : IUnitTask) (w0 w : World) (u : Z) (l : list Z) :
  t <> idleTask w -> t <> nilTask w -> u ∈ units tk -> u ∉ l -> (forall x, wunits w0 !! u = Some x -> utask x = t) -> stopping t tk w0 (u :: l) w ->
  wp (Clear u w ≫= (fun w => Idle_AssignTo u w)) (stopping t tk w0 l).
Proof.
  intros Hti Htn Hu Hl Hx0 [W V Et Hd Hts Ho Hi]. destruct (g_members w (proj1 W) t tk u Et Hu) as [x Eu]. destruct (g_idle w (proj1 W)) as (ik & Ei & Ti & Di).
  apply wp_bind, (wp_Clear _ _ x); [apply W|done|]. set (w1 := cleared u x w). set (x1 := x <| acts ::= fun l => l <| actions := [] |> |>).
  assert (W1 : wfx (units tk) w1) by (by apply cleared_wfx). assert (Eu1 : wunits w1 !! u = Some x1) by (cbn; by rewrite lookup_insert_eq).
  apply (wp_Idle_AssignTo _ _ x1 ik); [done|done|].
  split.
  - by apply idled_wfx.
  - eapply evo_trans; [exact V|]. eapply evo_trans; [by apply evo_cleared|].
    assert (Ex : utask x = t) by (apply Hx0; rewrite <- Ho by (right; constructor); done).
    assert (t <> 0) by (by apply (g_types w (proj1 W)) in Et as [? _]). apply evo_idled; [apply W1|done|done|cbn; by rewrite Ex|]. intros _. cbn. by rewrite Ex.
  - cbn. by rewrite lookup_insert_ne.
  - intros v Hv Hn. destruct (decide (v = u)) as [->|Hne].
    + exists (x1 <| utask := idleTask w |> <| taskFrame := lastFrame w |> <| uState := TS_NONE |>), (ik <| units ::= union {[u]} |>). cbn.
      rewrite !lookup_insert_eq. cbn. split_and!; try done. set_solver.
    + destruct (Hd v Hv) as (y & jk & Ey & Ty & Ej & Hj); [set_solver|]. exists y, (ik <| units ::= union {[u]} |>). cbn.
      rewrite lookup_insert_eq, !lookup_insert_ne by done. simplify_eq. split_and!; try done. cbn. set_solver.
  - cbn. intros s Hs. rewrite lookup_insert_ne by done. by apply Hts.
  - intros v Hv. assert (Hne : v <> u) by (intros ->; tauto). rewrite idled_units by done. cbn. rewrite lookup_insert_ne by done. apply Ho. destruct Hv; [by left|right; by constructor].
  - cbn. rewrite lookup_insert_eq. intros jk [= <-]. destruct (Hi ik Ei) as (k0 & E0 & T0 & D0 & U0). exists k0. cbn. split_and!; try done. set_solver.
Qed.

(** A fact that stopping [t] does not disturb: about the units of other tasks and other tasks. *)
Definition stable (t : Z) (Q : World -> Prop) : Prop := forall w w',
  idleTask w' = idleTask w -> gone w' = gone w -> (forall v x, wunits w !! v = Some x -> utask x <> t -> wunits w' !! v = Some x) ->
  (forall s, s <> t -> s <> idleTask w -> tasks w' !! s = tasks w !! s) -> Q w -> Q w'.

(** The last step of [Stop]. *)
Lemma stopped_wf (t : Z) (tk : IUnitTask) (w0 w : World) :
  wf w0 -> tasks w0 !! t = Some tk -> is_special (task_type tk) = false -> t <> idleTask w -> stopping t tk w0 [] w ->
  wf (put_task t (tk <| units := ∅ |> <| pathQueries := ∅ |>) w).
Proof.
  intros W0 E0 Hs Hti [W V Et Hd Hts Ho Hi]. destruct (g_idle w (proj1 W)) as (ik & Ei & Ti & Di). destruct (evo_idle _ _ _ V) as (Vi & Vn & Vg & _).
  destruct (idle_task w ik (proj1 W) Ei) as (_ & _ & Hz & Hn). set (w' := put_task _ _ w).
  assert (W' : wfx (units tk) w').
  { apply (put_task_wfx _ _ _ tk); [done|done|]. split; cbn; try done. intros _. by destruct (task_type tk). }
  split; [apply W'|]. intros u _. destruct (decide (u ∈ units tk)) as [Hu|Hu]; [|by apply W'].
  destruct (Hd u Hu) as (x & jk & Eu & Tu & Ej & Hj); [by apply not_elem_of_nil|].
  split; cbn; rewrite Eu.
  - intros y [= <-] _. exists jk. rewrite Tu, lookup_insert_ne by done. auto.
  - intros s k y [[<- <-]|[Hne Ek]]%lookup_insert_Some Hk [= <-]; [cbn in Hk; set_solver|]. rewrite Tu.
    destruct (decide (s = idleTask w)) as [->|Hsi]; [done|]. exfalso. rewrite Hts in Ek by done.
    destruct (g_members _ (proj1 W0) s k u Ek Hk) as [y Ey]. destruct (proj2 W0 u ltac:(set_solver)) as [_ P2 _ _].
    pose proof (P2 s k y Ek Hk Ey). pose proof (P2 t tk y E0 Hu Ey). congruence.
  - intros y p [= <-]. congruence.
  - intros y [= <-]. rewrite Tu. intros [?|?]; congruence.
Qed.

Lemma wp_Stop (fin : hook) (Q : World -> Prop) (t : Z) (w : World) (tk : IUnitTask) :
  tasks w !! t = Some tk -> is_special (task_type tk) = false -> stable t Q ->
  wp (fin w) (fun w' => wf w' /\ evo ∅ w w' /\ Q w') ->
  wp (Stop fin t w) (fun w' => wf w' /\ evo {[t]} w w' /\ Q w' /\ exists tk', tasks w' !! t = Some tk' /\ units tk' = ∅).
Proof.
  intros Et Hs HQ Hfin. unfold Stop. apply wp_bind. eapply wp_mono; [exact Hfin|]. cbn. intros w1 (W1 & V1 & Q1).
  destruct (e_tasks _ _ _ V1 t tk Et) as (tk1 & Et1 & T1 & _). assert (Hs1 : is_special (task_type tk1) = false) by congruence.
  assert (Hti : t <> idleTask w1) by (intros ->; destruct (g_idle _ (proj1 W1)) as (k & Ek & Tk & _); simplify_eq; by rewrite Tk in Hs1).
  assert (Htn : t <> nilTask w1) by (intros ->; destruct (g_nil _ (proj1 W1)) as (k & Ek & Tk & _); simplify_eq; by rewrite Tk in Hs1).
  apply wp_bind, (wp_deref _ _ tk1); [done|]. apply wp_bind.
  eapply wp_mono; [apply (wp_each _ (fun l w' => stopping t tk1 w1 l w' /\ NoDup l /\ forall u, u ∈ l -> u ∈ units tk1))|].
  - intros u l w2 (S2 & [Hul Hnd]%NoDup_cons & Hl). destruct (evo_idle _ _ _ (s_evo _ _ _ _ _ S2)) as (I2 & N2 & _).
    assert (Hu : u ∈ units tk1) by (apply Hl; by constructor).
    eapply wp_mono; [apply (stop_step t tk1 w1); [by rewrite I2|by rewrite N2|done|done| |done]|].
    + intros x Ex. by apply (p_only w1 u (proj2 W1 u ltac:(set_solver)) t tk1 x).
    + cbn. intros w3 S3. split_and!; [done|done|]. intros v Hv. apply Hl. by constructor.
  - split; [|split; [apply NoDup_elements|intros u; by rewrite elem_of_elements]]. split; try done.
    + by apply (wfx_mono ∅).
    + apply evo_refl.
    + intros u Hu Hn. exfalso. apply Hn. by apply elem_of_elements.
    + intros ik Ei. exists ik. split_and!; try done. set_solver.
  - cbn. intros w2 [S2 _]. apply (wp_with_task _ _ _ tk1); [apply S2|]. destruct (evo_idle _ _ _ (s_evo _ _ _ _ _ S2)) as (Vi & _ & Vg & _).
    assert (Hti2 : t <> idleTask w2) by congruence. split_and!.
    + by apply (stopped_wf t tk1 w1).
    + eapply evo_trans; [eapply evo_mono; [|exact V1]; set_solver|]. eapply evo_trans; [apply S2|].
      apply (evo_put_task _ _ _ tk1); cbn; try done. apply S2.
    + apply (HQ w1); [done|done| | |done].
      * cbn. intros v x Ev Hv. rewrite (s_others _ _ _ _ _ S2); [done|]. left. intros Hin. apply Hv. by eapply (p_only w1 v (proj2 W1 v ltac:(set_solver))).
      * cbn. intros s Hst Hsi. rewrite lookup_insert_ne by done. apply (s_tasks _ _ _ _ _ S2). congruence.
    + cbn. rewrite lookup_insert_eq. eauto.
Qed.

Lemma evo_settle (t : Z) (w w' : World) (tk' : IUnitTask) : evo {[t]} w w' -> tasks w' !! t = Some tk' -> units tk' = ∅ -> evo ∅ w w'.
Proof.
  intros [C U T X N Q P Y] Et Hu. split; try done. intros s k _ Ek Hd. destruct (decide (s = t)) as [->|Hne]; [simplify_eq; set_solver|]. apply X; [set_solver|done..].
Qed.

(** A hook that also brings about [Q]. *)
Definition hook_post (Q : World -> Prop) (k : hook) : Prop := forall w, wf w -> Q w -> wp (k w) (fun w' => wf w' /\ evo ∅ w w' /\ Q w').

Lemma wp_DequeueTask (removed finish cancel : hook) (Q : World -> Prop) (t : Z) (done_ : bool) (w : World) (tk : IUnitTask) :
  wf w -> tasks w !! t = Some tk -> is_special (task_type tk) = false -> stable t Q -> Q w ->
  hook_post Q removed -> hook_post Q finish -> hook_post Q cancel ->
  wp (DequeueTask removed finish cancel t done_ w) (fun w' => wf w' /\ evo ∅ w w' /\ Q w' /\ exists tk', tasks w' !! t = Some tk' /\ units tk' = ∅).
Proof.
  intros W Et Hs HQ Qw Hr Hf Hc. unfold DequeueTask, Dead. apply wp_bind, (wp_with_task _ _ _ tk); [done|].
  set (tk1 := tk <| task_dead := true |> <| pathQueries := ∅ |>). set (w1 := put_task t tk1 w).
  assert (W1 : wf w1).
  { apply (put_task_wfx _ _ _ tk); [done|done|]. split; cbn; try done; [intros _; by destruct (task_type tk)|intros E; by rewrite E in Hs|].
    intros ->. by apply (g_update _ (proj1 W)). }
  assert (V1 : evo {[t]} w w1) by (apply (evo_put_task _ _ _ tk); cbn; try done; set_solver).
  assert (Q1 : Q w1) by (apply (HQ w); try done; cbn; intros; by rewrite lookup_insert_ne).
  apply wp_bind. eapply wp_mono; [by apply Hr|]. cbn. intros w2 (W2 & V2 & Q2).
  destruct (e_tasks _ _ _ V2 t tk1) as (tk2 & Et2 & T2 & _); [cbn; by rewrite lookup_insert_eq|].
  eapply wp_mono; [apply (wp_Stop _ Q t w2 tk2); [done|by rewrite T2|done|]|].
  - destruct done_; auto.
  - cbn. intros w3 (W3 & V3 & Q3 & tk3 & Et3 & U3). split_and!; try done; [|eauto].
    eapply evo_settle; [|done|done]. eapply evo_trans; [exact V1|]. eapply evo_trans; [eapply evo_mono; [|exact V2]; set_solver|done].
Qed.

(** ** [AssignTo] and [RemoveAssignee] *)

(** A change of a task that leaves its members alone. *)
Lemma touch_wfx (E : gset Z) (w : World) (t : Z) (tk tk' : IUnitTask) :
  wfx E w -> tasks w !! t = Some tk -> units tk' = units tk -> task_type tk' = task_type tk -> task_dead tk' = task_dead tk -> wfx E (put_task t tk' w).
Proof.
  intros W Et Hu Ht Hd. destruct (g_types _ (proj1 W) t tk Et) as (_ & Hi & Hn). apply (put_task_wfx _ _ _ tk); [done|done|]. split; rewrite ?Hu, ?Hd; try done.
  - intros Hdd. destruct (g_idle _ (proj1 W)) as (k & Ek & _ & Dk). destruct (g_nil _ (proj1 W)) as (k' & Ek' & _ & Dk').
    split; intros Hty; [specialize (Hi Hty); subst t|destruct (Hn Hty) as [-> _]]; congruence.
  - intros Hty. by apply Hn.
  - intros ->. by apply (g_update _ (proj1 W)).
Qed.

Lemma touch_evo (D : gset Z) (w : World) (t : Z) (tk tk' : IUnitTask) :
  tasks w !! t = Some tk -> units tk' = units tk -> task_type tk' = task_type tk -> task_dead tk' = task_dead tk -> refCount tk' = refCount tk -> evo D w (put_task t tk' w).
Proof. intros Et Hu Ht Hd Hr. apply (evo_put_task _ _ _ tk); try done; [congruence| |intros u _ _; rewrite Hu; auto]. intros _ Hdd. unfold had. rewrite Et, Hu. rewrite Hd in Hdd. by rewrite Hdd. Qed.

(** A task whose members are served, neither the idle nor the nil task. *)
Definition serving (tk : IUnitTask) : bool := match task_type tk with NIL | IDLE => false | _ => true end.

Lemma serving_idle (w : World) (t : Z) (tk : IUnitTask) : glob w -> tasks w !! t = Some tk -> serving tk = true -> t <> idleTask w /\ t <> nilTask w /\ t <> 0.
Proof.
  intros G Et Hs. destruct (g_idle _ G) as (k & Ek & Tk & _). destruct (g_nil _ G) as (k' & Ek' & Tk' & _). unfold serving in Hs.
  split_and!; [intros ->; simplify_eq; by rewrite Tk in Hs|intros ->; simplify_eq; by rewrite Tk' in Hs|by apply (g_types _ G) in Et as [? _]].
Qed.

(** A unit that no task but the idle one holds. *)
Lemma placed_idle (w : World) (u : Z) (x : CCircuitUnit) (ik : IUnitTask) :
  glob w -> wunits w !! u = Some x -> utask x = idleTask w -> tasks w !! idleTask w = Some ik -> (u ∈ units ik \/ u ∈ gone w) ->
  (forall s k, tasks w !! s = Some k -> u ∈ units k -> s = idleTask w) -> placed w u.
Proof.
  intros G Eu Tu Ei Hu Ho. destruct (idle_task w ik G Ei) as (Ti & _ & Hz & Hn). split; rewrite Eu.
  - intros y [= <-] _. exists ik. rewrite Tu. tauto.
  - intros s k y Ek Hk [= <-]. rewrite Tu. symmetry. by eapply Ho.
  - intros y p [= <-]. congruence.
  - intros y [= <-]. rewrite Tu. intros [?|?]; congruence.
Qed.

Lemma wp_Base_RemoveAssignee (t u : Z) (w : World) (x : CCircuitUnit) (tk : IUnitTask) :
  wf w -> wunits w !! u = Some x -> utask x = t -> tasks w !! t = Some tk -> serving tk = true ->
  wp (Base_RemoveAssignee t u w) (fun w' => wf w' /\ evo ∅ w w' /\ idle_member w' u /\ (forall s, s <> t -> s <> idleTask w -> tasks w' !! s = tasks w !! s)).
Proof.
  intros W Eu Tu Et Hs. destruct (serving_idle w t tk (proj1 W) Et Hs) as (Hti & Htn & _). destruct (g_idle w (proj1 W)) as (ik & Ei & Ti & Di).
  unfold Base_RemoveAssignee. apply wp_bind, (wp_with_task _ _ _ tk); [done|].
  set (tk1 := tk <| pathQueries ::= base.delete u |> <| units ::= fun s => s ∖ {[u]} |>). set (w1 := put_task t tk1 w).
  assert (Wu : wfx {[u]} w) by (by apply (wfx_mono ∅)).
  assert (W1 : wfx {[u]} w1).
  { apply (put_task_wfx _ _ _ tk); [done|done|]. split; cbn; try done; try set_solver.
    - intros Hd. unfold serving in Hs. by destruct (task_type tk).
    - intros Hty. unfold serving in Hs. by rewrite Hty in Hs.
    - intros v Hv Hn. destruct (decide (v = u)); set_solver. }
  assert (V1 : evo ∅ w w1).
  { apply (evo_put_task _ _ _ tk); cbn; try done. intros _ Hd. unfold had. rewrite Et, Hd. set_solver. }
  apply wp_bind, (wp_Clear _ _ x); [apply W1|done|]. set (w2 := cleared u x w1). set (x2 := x <| acts ::= fun l => l <| actions := [] |> |>).
  assert (W2 : wfx {[u]} w2) by (apply cleared_wfx; [done|done|set_solver]).
  assert (Eu2 : wunits w2 !! u = Some x2) by (cbn; by rewrite lookup_insert_eq).
  assert (Ei2 : tasks w2 !! idleTask w2 = Some ik) by (cbn; by rewrite lookup_insert_ne).
  apply wp_bind, (wp_Idle_AssignTo _ _ x2 ik); [done|done|]. set (w3 := idled u x2 ik w2).
  assert (W3 : wfx {[u]} w3) by (apply idled_wfx; [done|done|done|set_solver]).
  assert (Et3 : tasks w3 !! t = Some tk1) by (cbn; by rewrite lookup_insert_ne, lookup_insert_eq).
  set (tk4 := if decide (units tk1 = ∅) then tk1 <| lastTouched := lastFrame w3 |> else tk1).
  apply (wp_with_task _ _ _ tk1); [done|]. change (wf (put_task t tk4 w3) /\ evo ∅ w (put_task t tk4 w3) /\ idle_member (put_task t tk4 w3) u /\
    (forall s, s <> t -> s <> idleTask w -> tasks (put_task t tk4 w3) !! s = tasks w !! s)).
  assert (H4 : units tk4 = units tk1 /\ task_type tk4 = task_type tk1 /\ task_dead tk4 = task_dead tk1 /\ refCount tk4 = refCount tk1) by (unfold tk4; case_decide; done).
  destruct H4 as (A1 & A2 & A3 & A4). set (w4 := put_task t tk4 w3).
  assert (W4 : wfx {[u]} w4) by (by apply (touch_wfx _ _ _ tk1)).
  assert (M4 : idle_member w4 u).
  { eexists _, _. cbn. rewrite lookup_insert_eq, lookup_insert_ne, lookup_insert_eq by done. cbn. split_and!; try done. set_solver. }
  split_and!; [|..|done|].
  - apply (wfx_arrive ∅ w4 u); [by apply (wfx_mono {[u]}); [set_solver|]|]. destruct M4 as (y & jk & Ey & Ty & Ej & Hj).
    apply (placed_idle w4 u y jk); [apply W4|done|done|done|by left|]. intros s k Ek Hk. cbn in Ek.
    apply lookup_insert_Some in Ek as [[<- <-]|[Hne Ek]]; [rewrite A1 in Hk; cbn in Hk; set_solver|].
    apply lookup_insert_Some in Ek as [[<- <-]|[Hne' Ek]]; [done|]. rewrite lookup_insert_ne in Ek by done.
    exfalso. apply Hne. rewrite <- Tu. by apply (p_only w u (proj2 W u ltac:(set_solver)) s k x).
  - eapply evo_trans; [exact V1|]. eapply evo_trans; [by apply (evo_cleared _ _ u x)|]. eapply evo_trans; [apply (evo_idled _ w2 u x2 ik); [apply W2|done|done|cbn; rewrite Tu; by apply (g_types w (proj1 W)) in Et as [? _]|cbn; rewrite Tu; done]|].
    by apply (touch_evo _ _ _ tk1).
  - intros s Hst Hsi. cbn. rewrite !lookup_insert_ne by done. done.
Qed.

Lemma wp_RemoveAssignee (after removed cancel : hook) (Q : World -> Prop) (t u : Z) (w : World) (x : CCircuitUnit) (tk : IUnitTask) :
  wf w -> wunits w !! u = Some x -> utask x = t -> tasks w !! t = Some tk -> serving tk = true -> stable t Q ->
  (forall w', wf w' -> evo ∅ w w' -> idle_member w' u -> (forall s, s <> t -> s <> idleTask w -> tasks w' !! s = tasks w !! s) -> Q w') ->
  hook_post Q after -> hook_post Q removed -> hook_post Q cancel ->
  wp (RemoveAssignee after removed cancel t u w) (fun w' => wf w' /\ evo ∅ w w' /\ Q w').
Proof.
  intros W Eu Tu Et Hs HQ Hb Ha Hr Hc. unfold RemoveAssignee. apply wp_bind, (wp_deref _ _ tk); [done|].
  pose proof (wp_Base_RemoveAssignee t u w x tk W Eu Tu Et Hs) as B.
  assert (Hafter : wp (Base_RemoveAssignee t u w ≫= (fun w => after w)) (fun w' => wf w' /\ evo ∅ w w' /\ Q w')).
  { apply wp_bind. eapply wp_mono; [exact B|]. cbn. intros w1 (W1 & V1 & M1 & F1). eapply wp_mono; [apply Ha; auto|].
    cbn. intros w2 (W2 & V2 & Q2). split_and!; try done. by eapply evo_trans. }
  unfold serving in Hs. destruct (task_type tk) eqn:Ety; try done.
  - eapply wp_mono; [exact B|]. cbn. intros w1 (W1 & V1 & M1 & F1). auto.
  - apply wp_bind. eapply wp_mono; [exact B|]. cbn. intros w1 (W1 & V1 & M1 & F1).
    destruct (e_tasks _ _ _ V1 t tk Et) as (tk1 & Et1 & T1 & _). apply wp_bind, (wp_deref _ _ tk1); [done|].
    destruct (decide (units tk1 = ∅)); [|cbn; auto]. eapply wp_mono; [apply (wp_DequeueTask _ _ _ Q t false w1 tk1); auto; by rewrite T1, Ety|].
    cbn. intros w2 (W2 & V2 & Q2 & _). split_and!; try done. by eapply evo_trans.
Qed.

Lemma wp_Idle_RemoveAssignee (E D : gset Z) (u : Z) (w : World) (x : CCircuitUnit) (ik : IUnitTask) :
  wfx E w -> u ∈ E -> wunits w !! u = Some x -> tasks w !! idleTask w = Some ik ->
  wp (Idle_RemoveAssignee u w) (fun w' => wfx E w' /\ evo D w w' /\ tasks w' = <[idleTask w := ik <| units ::= fun s => s ∖ {[u]} |>]> (tasks w) /\
    exists x', wunits w' = <[u := x']> (wunits w) /\ utask x' = utask x /\ dgunAct x' = None /\ travelAct x' = None /\ mobile x' = mobile x /\ unit_dead x' = unit_dead x).
Proof.
  intros W Hin Eu Ei. destruct (idle_task w ik (proj1 W) Ei) as (Ti & Di & _). unfold Idle_RemoveAssignee. apply wp_bind, (wp_deref _ _ ik); [done|].
  set (w1 := (put_task (idleTask w) (ik <| units ::= fun s => s ∖ {[u]} |>) w) <| updateUnits ::= fun s => s ∖ {[u]} |>).
  assert (Hrest : forall v : World, wfx E v -> evo D w v -> wunits v = wunits w -> tasks v = <[idleTask w := ik <| units ::= fun s => s ∖ {[u]} |>]> (tasks w) ->
    wp (ClearAct u v) (fun w' => wfx E w' /\ evo D w w' /\ tasks w' = <[idleTask w := ik <| units ::= fun s => s ∖ {[u]} |>]> (tasks w) /\
      exists x', wunits w' = <[u := x']> (wunits w) /\ utask x' = utask x /\ dgunAct x' = None /\ travelAct x' = None /\ mobile x' = mobile x /\ unit_dead x' = unit_dead x)).
  { intros v Wv Vv Uv Tv. assert (Ev : wunits v !! u = Some x) by congruence. unfold ClearAct. apply wp_bind, (wp_Clear _ _ x); [apply Wv|done|].
    apply (wp_with_unit _ _ _ (x <| acts ::= fun l => l <| actions := [] |> |>)); [cbn; by rewrite lookup_insert_eq|].
    assert (Wc : wfx E (cleared u x v)) by (by apply cleared_wfx). split_and!.
    - eapply put_unit_wfx; [done|cbn; by rewrite lookup_insert_eq|done|done|done|]. cbn. intros Hz. rewrite Tv. apply lookup_insert_is_Some.
      destruct (g_live _ (proj1 W) u x Eu Hz). destruct (decide (idleTask w = utask x)); eauto.
    - eapply evo_trans; [exact Vv|]. eapply evo_trans; [by apply evo_cleared|]. eapply evo_put_unit; [cbn; by rewrite lookup_insert_eq|..]; cbn; auto.
    - done.
    - cbn. rewrite insert_insert_eq, Uv. eauto 10. }
  apply wp_bind. destruct (decide (u ∈ units ik)) as [Hu|Hu]; cbn [wp].
  - set (w0 := w <| updateUnits := updateUnits w ∖ {[u]} |>).
    assert (W0 : wfx E w0) by (apply update_wfx; [done|set_solver]).
    apply (Hrest w1); [| |done|done].
    + apply (put_task_wfx E w0 _ ik _ W0 Ei). split; cbn; try done; try congruence; [set_solver| |].
      * intros v Hv Hn. destruct (decide (v = u)); set_solver.
      * intros _. apply (g_update _ (proj1 W)) in Ei. set_solver.
    + apply (evo_trans D w w0); [apply evo_updateUnits; set_solver|]. apply (evo_put_task D w0 _ ik); cbn; try done; [congruence|]. intros v _ _ Hv. left. set_solver.
  - apply Hrest; [done|apply evo_refl|done|]. rewrite insert_id; [done|]. rewrite Ei. f_equal. destruct ik. cbn in *. f_equal. set_solver.
Qed.

Lemma wp_anti_cap (E D : gset Z) (u p : Z) (w : World) (x : CCircuitUnit) :
  wfx E w -> wunits w !! u = Some x ->
  wp (push_anti_cap u p w) (fun w' => wfx E w' /\ evo D w w' /\ tasks w' = tasks w /\ exists x', wunits w' !! u = Some x' /\ utask x' = utask x).
Proof.
  intros W Eu. unfold push_anti_cap. apply wp_bind, (wp_deref _ _ x); [done|]. destruct (negb (mobile x) && isAntiCap w).
  - apply (wp_PushAct _ _ _ _ x); [done|]. intros Hp. split_and!; [by apply pushed_wfx|by apply evo_pushed|done|]. cbn. rewrite lookup_insert_eq. eauto.
  - cbn. split_and!; [done|apply evo_refl|done|eauto].
Qed.

(** A unit that may be assigned: no task holds it but the idle one. *)
Definition unassigned (w : World) (u : Z) : Prop := forall s k, tasks w !! s = Some k -> u ∈ units k -> s = idleTask w.

Lemma wp_Base_AssignTo (throws : bool) (p t u : Z) (w : World) (x : CCircuitUnit) (tk : IUnitTask) :
  wfx {[u]} w -> wunits w !! u = Some x -> utask x <> 0 -> u ∉ gone w -> unassigned w u -> tasks w !! t = Some tk -> serving tk = true -> task_dead tk = false ->
  wp (Base_AssignTo throws p t u w) (fun w' => wf w' /\ evo ∅ w w' /\ exists tk', tasks w' !! t = Some tk' /\ units tk' = {[u]} ∪ units tk).
Proof.
  intros W Eu Hz Hg Hun Et Hs Hd. destruct (serving_idle w t tk (proj1 W) Et Hs) as (Hti & Htn & Ht0). destruct (g_idle w (proj1 W)) as (ik & Ei & Ti & Di).
  unfold Base_AssignTo. apply wp_bind, (wp_with_task _ _ _ tk); [done|]. set (tk1 := tk <| lastTouched := -1 |>). set (w1 := put_task t tk1 w).
  assert (W1 : wfx {[u]} w1) by (by apply (touch_wfx _ _ _ tk)). assert (V1 : evo ∅ w w1) by (by apply (touch_evo _ _ _ tk)).
  apply wp_bind. eapply wp_mono; [apply (wp_Idle_RemoveAssignee {[u]} ∅ u w1 x ik); [done|set_solver|done|cbn; by rewrite lookup_insert_ne]|].
  cbn. intros w2 (W2 & V2 & T2 & x2 & U2 & A1 & A2 & A3 & A4 & A5). destruct (evo_idle _ _ _ V2) as (I2 & N2 & G2 & _). cbn in I2, N2, G2.
  unfold SetTask. apply wp_bind, (wp_with_unit _ _ _ x2); [rewrite U2; cbn; by rewrite lookup_insert_eq|].
  set (x3 := x2 <| utask := t |> <| taskFrame := lastFrame w2 |> <| uState := TS_NONE |>). set (w3 := put_unit u x3 w2).
  assert (Et2 : tasks w2 !! t = Some tk1) by (rewrite T2, lookup_insert_ne, lookup_insert_eq by done; done).
  assert (Eu2 : wunits w2 !! u = Some x2) by (rewrite U2; apply lookup_insert_eq).
  assert (W3 : wfx {[u]} w3) by (apply (put_unit_wfx _ _ _ x2); [done|done|set_solver|done|done|cbn; eauto]).
  assert (V3 : evo ∅ w2 w3) by (apply (evo_put_unit _ _ _ x2); cbn; try done; [split; congruence|]; intros Hgg; exfalso; apply Hg; by rewrite <- G2).
  apply wp_bind, (wp_with_task _ _ _ tk1); [done|]. set (tk4 := tk1 <| units ::= union {[u]} |>). set (w4 := put_task t tk4 w3).
  assert (W4 : wfx {[u]} w4).
  { apply (put_task_wfx _ _ _ tk1); [done|done|]. split; cbn.
    - done.
    - by rewrite Hd.
    - intros Hty. unfold serving in Hs. by rewrite Hty in Hs.
    - intros v [->%elem_of_singleton|Hv]%elem_of_union Hn; [|done]. split; [by apply elem_of_singleton|]. rewrite lookup_insert_eq. eauto.
    - intros v Hv []. apply elem_of_union. by right.
    - intros ->. by rewrite I2 in Hti. }
  assert (V4 : evo ∅ w3 w4) by (apply (evo_put_task _ _ _ tk1); cbn; try done; [congruence|intros v ->; by rewrite I2 in Hti]).
  assert (P4 : placed w4 u).
  { split; cbn; rewrite lookup_insert_eq.
    - intros y [= <-] _. exists tk4. rewrite lookup_insert_eq. split; [done|]. left. cbn. set_solver.
    - intros s k y [[<- <-]|[Hne Ek]]%lookup_insert_Some Hk [= <-]; [done|]. exfalso. rewrite T2 in Ek. apply lookup_insert_Some in Ek as [[<- <-]|[Hne' Ek]]; [cbn in Hk; set_solver|].
      rewrite lookup_insert_ne in Ek by done. apply Hne'. symmetry. by eapply Hun.
    - intros y q [= <-] _ [Hq|Hq]; cbn in Hq; congruence.
    - intros y [= <-]. cbn. rewrite N2. intros [?|?]; congruence. }
  assert (Wf4 : wf w4) by (apply (wfx_arrive ∅ w4 u); [by apply (wfx_mono {[u]}); [set_solver|]|done]).
  assert (E4 : wunits w4 !! u = Some x3) by (cbn; by rewrite lookup_insert_eq).
  set (w5 := try_unit throws u w4). assert (W5 : wf w5) by (unfold w5, try_unit; destruct throws; [apply garbage_wfx; [done|exists x3; done]|done]).
  assert (T5 : tasks w5 = tasks w4 /\ wunits w5 = wunits w4) by (unfold w5, try_unit; by destruct throws). destruct T5 as [T5 U5].
  eapply wp_mono; [apply (wp_anti_cap ∅ ∅ u p w5 x3); [done|congruence]|]. cbn. intros w6 (W6 & V6 & T6 & _). split_and!; [done| |].
  - eapply evo_trans; [exact V1|]. eapply evo_trans; [exact V2|]. eapply evo_trans; [exact V3|]. eapply evo_trans; [exact V4|]. eapply evo_trans; [apply evo_try|exact V6].
  - exists tk4. rewrite T6, T5. split; [cbn; by rewrite lookup_insert_eq|done].
Qed.

Definition ready_task (w : World) (t : Z) : Prop := exists tk, tasks w !! t = Some tk /\ serving tk = true /\ task_dead tk = false.
Definition ready_unit (w : World) (u : Z) : Prop := exists x, wunits w !! u = Some x /\ utask x <> 0 /\ (u ∉ gone w) /\ unassigned w u.

Lemma wp_AssignTo (after : hook) (throws : bool) (p t u : Z) (w : World) :
  wfx {[u]} w -> ready_unit w u -> ready_task w t -> hook_ok after -> wp (AssignTo after throws p t u w) (fun w' => wf w' /\ evo ∅ w w').
Proof.
  intros W (x & Eu & Hz & Hg & Hun) (tk & Et & Hs & Hd) Ha. unfold AssignTo. apply wp_bind, (wp_deref _ _ tk); [done|].
  pose proof (wp_Base_AssignTo throws p t u w x tk W Eu Hz Hg Hun Et Hs Hd) as B.
  assert (Hafter : wp (Base_AssignTo throws p t u w ≫= (fun w => after w)) (fun w' => wf w' /\ evo ∅ w w')).
  { apply wp_bind. eapply wp_mono; [exact B|]. cbn. intros w1 (W1 & V1 & _). eapply wp_mono; [by apply Ha|]. cbn. intros w2 [W2 V2]. split; [done|]. by eapply evo_trans. }
  unfold serving in Hs. destruct (task_type tk) eqn:Ety; try done.
  - eapply wp_mono; [exact B|]. cbn. intros w1 (W1 & V1 & _). auto.
  - apply wp_bind. eapply wp_mono; [exact B|]. cbn. intros w1 (W1 & V1 & tk1 & Et1 & _). apply (wp_with_task _ _ _ tk1); [done|].
    split; [by apply (touch_wfx _ _ _ tk1)|]. eapply evo_trans; [done|]. by apply (touch_evo _ _ _ tk1).
Qed.

Lemma wp_Start (start : hook) (throws : bool) (t u : Z) (w : World) :
  wf w -> is_Some (tasks w !! t) -> (exists x, wunits w !! u = Some x /\ utask x <> 0) -> hook_ok start -> wp (Start start throws t u w) (fun w' => wf w' /\ evo ∅ w w').
Proof.
  intros W [tk Et] Hu Hs. unfold Start. apply wp_bind, (wp_deref _ _ tk); [done|].
  assert (Hid : wf w /\ evo ∅ w w) by (split; [done|apply evo_refl]).
  destruct (task_type tk); cbn; auto; [|by apply Hs..]. split; [|apply evo_try]. destruct throws; [by apply garbage_wfx|done].
Qed.

Lemma stable_True (t : Z) : stable t (fun _ => True).
Proof. done. Qed.

Lemma hook_ok_post (k : hook) : hook_ok k -> hook_post (fun _ => True) k.
Proof. intros Hk w W _. eapply wp_mono; [by apply Hk|]. cbn. tauto. Qed.

(** After its removal the unit is idle and the new task is still there. *)
Definition keeps (u t : Z) (w : World) : bool :=
  match wunits w !! u, tasks w !! t with
  | Some x, Some tk => (utask x =? idleTask w) && serving tk && negb (task_dead tk)
  | _, _ => false
  end.

Lemma keeps_stable (u t s : Z) : t <> s -> stable s (fun w => keeps u t w = true /\ s <> idleTask w /\ t <> idleTask w).
Proof.
  intros Hts w w' Hi _ Hu Ht (Hk & Hsi & Hti). rewrite !Hi. split; [|done]. unfold keeps in *. rewrite Hi.
  destruct (wunits w !! u) as [x|] eqn:Eu; [|done]. rewrite Ht by done. destruct (tasks w !! t) as [tk|] eqn:Et; [|done].
  rewrite (Hu u x Eu); [done|]. bools. congruence.
Qed.

(** A guarded hook: the run goes on only if the unit was left idle and the task alive. *)
Definition guarded (u t : Z) (k : hook) : hook := fun w => w' ← k w; require (keeps u t w') w'.

Lemma guarded_post (u t s : Z) (k : hook) : hook_ok k -> hook_post (fun w => keeps u t w = true /\ s <> idleTask w /\ t <> idleTask w) (guarded u t k).
Proof.
  intros Hk w W (_ & Hs & Ht). unfold guarded. apply wp_bind. eapply wp_mono; [by apply Hk|]. cbn. intros w' [W' V']. destruct (evo_idle _ _ _ V') as [Hi _].
  apply wp_require. intros Hq. rewrite Hi. done.
Qed.

Lemma wp_Nil_RemoveAssignee (u : Z) (w : World) (x : CCircuitUnit) :
  wf w -> wunits w !! u = Some x -> utask x = nilTask w \/ utask x = 0 ->
  wp (Nil_RemoveAssignee u w) (fun w' => wf w' /\ evo ∅ w w' /\ tasks w' = tasks w /\ exists x', wunits w' !! u = Some x' /\ utask x' = utask x).
Proof.
  intros W Eu Tu. unfold Nil_RemoveAssignee. apply (wp_Clear _ _ x); [apply W|done|].
  assert (Wc : wfx {[u]} (cleared u x w)) by (apply cleared_wfx; [by apply (wfx_mono ∅)|done|set_solver]).
  split_and!; [|by apply evo_cleared|done|cbn; rewrite lookup_insert_eq; eauto].
  apply (wfx_arrive ∅ _ u); [by apply (wfx_mono {[u]}); [set_solver|]|]. destruct (proj2 W u ltac:(set_solver)) as [P1 P2 P3 P4].
  destruct (P4 x Eu Tu) as [Ed Etr]. split; cbn; setoid_rewrite lookup_insert_eq.
  - intros y [= <-]. cbn. by apply P1.
  - intros s k y Ek Hk [= <-]. cbn. by eapply P2.
  - intros y q [= <-]. cbn. intros _ [Hq|Hq]; congruence.
  - intros y [= <-]. cbn. done.
Qed.

(** [unit->GetTask()->RemoveAssignee(unit)] before an assignment, whatever task the unit has. *)
Lemma wp_leave (after removed cancel : hook) (u t : Z) (w : World) (x : CCircuitUnit) :
  wf w -> wunits w !! u = Some x -> utask x <> 0 -> utask x <> t -> u ∉ gone w -> ready_task w t -> hook_ok after -> hook_ok removed -> hook_ok cancel ->
  wp (RemoveAssignee (guarded u t after) (guarded u t removed) (guarded u t cancel) (utask x) u w)
     (fun w' => wfx {[u]} w' /\ evo ∅ w w' /\ ready_unit w' u /\ ready_task w' t).
Proof.
  intros W Eu Hz Hne Hg (tk & Et & Hs & Hd) Ha Hr Hc. destruct (g_live _ (proj1 W) u x Eu Hz) as [ok Eo].
  destruct (serving_idle w t tk (proj1 W) Et Hs) as (Hti & _). pose proof (proj2 W u ltac:(set_solver)) as [P1 P2 P3 P4].
  destruct (serving ok) eqn:Hso.
  - eapply wp_mono; [apply (wp_RemoveAssignee _ _ _ (fun w' => keeps u t w' = true /\ utask x <> idleTask w' /\ t <> idleTask w') (utask x) u w x ok); try done; try by apply guarded_post|].
    + by apply keeps_stable.
    + intros w1 W1 V1 (y & jk & Ey & Ty & Ej & Hj) F1. destruct (evo_idle _ _ _ V1) as [Hi _]. rewrite Hi. split; [|split; [|done]].
      * unfold keeps. rewrite Ey, F1 by done. rewrite Et, Ty, Z.eqb_refl, Hs, Hd. done.
      * by destruct (serving_idle w (utask x) ok (proj1 W) Eo Hso) as (? & _).
    + cbn. intros w1 (W1 & V1 & Hk & _). destruct (evo_idle _ _ _ V1) as (Hi & _ & Hg1 & _). unfold keeps in Hk.
      destruct (wunits w1 !! u) as [y|] eqn:Ey; [|done]. destruct (tasks w1 !! t) as [tk1|] eqn:Et1; [|done]. bools.
      split_and!; [by apply (wfx_mono ∅)|done| |].
      * exists y. split_and!; [done| |congruence|].
        { destruct (g_idle _ (proj1 W1)) as (jk & Ej & _). destruct (idle_task _ _ (proj1 W1) Ej) as (_ & _ & ? & _). congruence. }
        intros s k Ek Hk'. rewrite <- H. symmetry. by apply (p_only w1 u (proj2 W1 u ltac:(set_solver)) s k y).
      * exists tk1. split_and!; [done|done|]. by destruct (task_dead tk1).
  - unfold RemoveAssignee. apply wp_bind, (wp_deref _ _ ok); [done|]. unfold serving in Hso. destruct (task_type ok) eqn:Ety; try done.
    + destruct (g_types _ (proj1 W) _ ok Eo) as (_ & _ & Hn). destruct (Hn Ety) as [Hn1 Hn2].
      eapply wp_mono; [apply (wp_Nil_RemoveAssignee u w x); [done|done|by left]|]. cbn. intros w1 (W1 & V1 & T1 & y & Ey & Ty).
      destruct (evo_idle _ _ _ V1) as (Hi & _ & Hg1 & _). split_and!; [by apply (wfx_mono ∅)|done| |exists tk; by rewrite T1].
      exists y. split_and!; [done|congruence|congruence|]. intros s k Ek Hk. rewrite T1 in Ek. pose proof (P2 s k x Ek Hk Eu) as <-. rewrite Eo in Ek. simplify_eq. set_solver.
    + destruct (g_types _ (proj1 W) _ ok Eo) as (_ & Hi & _). specialize (Hi Ety). rewrite Hi in Eo.
      eapply wp_mono; [apply (wp_Idle_RemoveAssignee {[u]} ∅ u w x ok); [by apply (wfx_mono ∅)|set_solver|done|done]|].
      cbn. intros w1 (W1 & V1 & T1 & y & U1 & Ty & _). destruct (evo_idle _ _ _ V1) as (Hi1 & _ & Hg1 & _). split_and!; [done|done| |].
      * exists y. rewrite U1, lookup_insert_eq. split_and!; [done|congruence|congruence|]. intros s k Ek Hk. rewrite T1 in Ek.
        apply lookup_insert_Some in Ek as [[<- <-]|[Hne' Ek]]; [done|]. rewrite Hi1, <- Hi. symmetry. by eapply P2.
      * exists tk. by rewrite T1, lookup_insert_ne.
Qed.
