(* ===== verification/TaskCalls.v ===== *)
(** What the overrides and scripts do when they are called back, and that the machinery
    stands it.

    A hook runs a finite list of calls, and each call has hooks of its own: a run of the
    program is a tree.  Before a call its contract is checked; a run that breaks one is
    [Refused].  The contracts: an assigned unit is alive and has a handler, its new task is
    not dead and not its present one, and until it has got it nothing else assigns the unit or
    kills the task; only a unit at work is taken off its task; the idle, nil and player
    tasks are not dequeued; the allocator returns fresh addresses. *)

From S2P Require Import Prelude Outcome ActionList Tasks TaskInv TaskOps.

Inductive call :=
  | CEnqueue (t : Z) (pr : TaskPriority) (ty : TaskType) (timeout : Z)
  | CNewPlayer (t : Z)
  | CAssign (u t : Z) (throws throws' : bool) (p : Z)
  | CTake (u t : Z) (throws throws' : bool) (p : Z)
  | CRemove (u : Z)
  | CDequeue (t : Z) (done : bool)
  | CPush (u p : Z) (ty : ActType)
  | CPushDGun (u p : Z)
  | CPushTravel (u p : Z) (ty : ActType)
  | CGarbage (u : Z)
  | CQuery (t u : Z) (q : option Z).

(** A call and what its hooks do. *)
Inductive op := Op (c : call) (h1 h2 h3 h4 : list op).

(** The unit has a task of a module. *)
Definition owned (u : Z) (w : World) : bool := match wunits w !! u with Some x => negb (utask x =? 0) | None => false end.

Definition live_task (t : Z) (w : World) : bool := match tasks w !! t with Some tk => serving tk && negb (task_dead tk) | None => false end.

Definition assignable (u t : Z) (w : World) : bool :=
  owned u w && bool_decide (u ∉ gone w) && live_task t w && match wunits w !! u with Some x => negb (utask x =? t) | None => false end.

Definition in_idle (u : Z) (w : World) : bool := match wunits w !! u with Some x => utask x =? idleTask w | None => false end.

(** The unit works on a task. *)
Definition at_work (u : Z) (w : World) : bool :=
  match wunits w !! u with Some x => match tasks w !! utask x with Some tk => serving tk | None => false end | None => false end.

Definition dequeuable (t : Z) (w : World) : bool := match tasks w !! t with Some tk => negb (is_special (task_type tk)) | None => false end.

Definition fresh_task (t : Z) (w : World) : bool := bool_decide (tasks w !! t = None) && negb (t =? 0).

Definition exec (c : call) (k1 k2 k3 k4 : hook) (w : World) : out World :=
  match c with
  | CEnqueue t pr ty timeout => w ← require (fresh_task t w && negb (is_special ty)) w; EnqueueTask k1 t pr ty timeout w
  | CNewPlayer t => w ← require (fresh_task t w) w; Val (put_task t (IUnitTask_new (lastFrame w) P_HIGH PLAYER (-1)) w)
  | CAssign u t b b' p => w ← require (assignable u t w) w; AssignTask (guarded u t k1) (guarded u t k1) (guarded u t k2) k3 k4 b b' p u t w
  | CTake u t b b' p => w ← require (assignable u t w && in_idle u w) w; w ← AssignTo k1 b p t u w; Start k2 b' t u w
  | CRemove u => w ← require (at_work u w) w; x ← unit_at u w; RemoveAssignee k1 k1 k2 (utask x) u w
  | CDequeue t d => w ← require (dequeuable t w) w; DequeueTask k1 k2 k2 t d w
  | CPush u p ty => w ← require (at_work u w) w; PushAct u p ty w
  | CPushDGun u p => w ← require (at_work u w) w; PushDGunAct u p w
  | CPushTravel u p ty => w ← require (at_work u w) w; PushTravelAct u p ty w
  | CGarbage u => w ← require (owned u w) w; Val (Garbage u w)
  | CQuery t u q => w ← require (live_task t w) w; with_task t (fun tk => tk <| pathQueries ::= <[u := q]> |>) w
  end.

Fixpoint run (o : op) (w : World) : out World :=
  match o with
  | Op c h1 h2 h3 h4 =>
      let fix runs (l : list op) (w : World) : out World := match l with [] => Val w | o :: l' => w ← run o w; runs l' w end in
      exec c (runs h1) (runs h2) (runs h3) (runs h4) w
  end.

Fixpoint runs (l : list op) (w : World) : out World := match l with [] => Val w | o :: l' => w ← run o w; runs l' w end.

Lemma run_unfold (c : call) (h1 h2 h3 h4 : list op) (w : World) :
  run (Op c h1 h2 h3 h4) w = exec c (runs h1) (runs h2) (runs h3) (runs h4) w.
Proof. done. Qed.

(** Induction on the tree of a run. *)
Section op_ind.
Context (P : op -> Prop) (IH : forall c h1 h2 h3 h4, Forall P h1 -> Forall P h2 -> Forall P h3 -> Forall P h4 -> P (Op c h1 h2 h3 h4)).

Fixpoint op_tree_ind (o : op) : P o :=
  match o with
  | Op c h1 h2 h3 h4 =>
      let fix all (l : list op) : Forall P l := match l with [] => List.Forall_nil P | o :: l' => @List.Forall_cons op P o l' (op_tree_ind o) (all l') end in
      IH c h1 h2 h3 h4 (all h1) (all h2) (all h3) (all h4)
  end.
End op_ind.

Lemma live_ready (t : Z) (w : World) : live_task t w = true -> ready_task w t.
Proof. unfold live_task. destruct (tasks w !! t) as [tk|] eqn:E; [|done]. intros Hl. exists tk. bools. by destruct (task_dead tk). Qed.

Lemma owned_unit (u : Z) (w : World) : owned u w = true -> exists x, wunits w !! u = Some x /\ utask x <> 0.
Proof. unfold owned. destruct (wunits w !! u) as [x|]; [|done]. intros Hl. exists x. by bools. Qed.

Lemma at_work_unit (u : Z) (w : World) : at_work u w = true -> exists x tk, wunits w !! u = Some x /\ tasks w !! utask x = Some tk /\ serving tk = true.
Proof. unfold at_work. destruct (wunits w !! u) as [x|]; [|done]. destruct (tasks w !! utask x) as [tk|] eqn:E; [|done]. eauto. Qed.

Lemma assignable_spec (u t : Z) (w : World) :
  assignable u t w = true -> (exists x, wunits w !! u = Some x /\ utask x <> 0 /\ utask x <> t) /\ (u ∉ gone w) /\ ready_task w t.
Proof.
  unfold assignable. intros Ha. bools. apply owned_unit in H as (x & Eu & Hz). rewrite Eu in H0. bools. split; [eauto|]. split; [done|]. by apply live_ready.
Qed.

(** A new task of the world. *)
Lemma new_task_wf (t : Z) (tk : IUnitTask) (w : World) :
  wf w -> fresh_task t w = true -> units tk = ∅ -> task_dead tk = false -> serving tk = true -> refCount tk = 1 ->
  wf (put_task t tk w).
Proof.
  intros [G Hp] Hf Hu Hd Hs Hr. unfold fresh_task in Hf. bools. rename H into En, H0 into Hz.
  assert (Hkeep : forall s k, tasks w !! s = Some k -> <[t := tk]> (tasks w) !! s = Some k) by (intros s k Ek; rewrite lookup_insert_ne; congruence).
  unfold serving in Hs. split.
  - destruct G as [(ik & Ei & Ti & Di) (nk & En' & Tn & Dn) Gt Gl Gm Gu Gq Ga Gg]. split; cbn; try done.
    + eauto.
    + eauto.
    + intros s k [[<- <-]|[Hne Ek]]%lookup_insert_Some; [|by apply Gt]. split; [done|]. by destruct (task_type tk).
    + intros u x Eu Hx. destruct (Gl u x Eu Hx) as [k Ek]. eauto.
    + intros s k u [[<- <-]|[Hne Ek]]%lookup_insert_Some Hk; [set_solver|by eapply Gm].
    + intros k Ek. rewrite (Hkeep _ ik Ei) in Ek. simplify_eq. by apply Gu.
    + destruct Gq as [Gq1 Gq2]. split; [done|]. intros s Hs'. destruct (Gq2 s Hs') as (k & Ek & Tk). eauto.
  - intros u Hn. destruct (Hp u Hn) as [P1 P2 P3 P4]. split; cbn; try done.
    + intros x Eu Hx. destruct (P1 x Eu Hx) as (k & Ek & Hk). eauto.
    + intros s k x [[<- <-]|[Hne Ek]]%lookup_insert_Some Hk Eu; [set_solver|by eapply P2].
Qed.

(** What is new is queued, or a player's task. *)
Lemma new_task_evo (t : Z) (tk : IUnitTask) (w : World) (l : list Z) :
  fresh_task t w = true -> units tk = ∅ -> task_dead tk = false -> refCount tk = 1 -> (is_special (task_type tk) = false -> t ∈ l) ->
  evo ∅ w ((put_task t tk w) <| updateTasks ::= fun q => q ++ l |>).
Proof.
  intros Hf Hu Hd Hr Hq. unfold fresh_task in Hf. bools. rename H into En, H0 into Hz.
  destruct (evo_refl ∅ w) as [R1 R2 R3 R4 R5 R6 R7 R8 R9]. split; cbn; eauto.
  - intros s k Ek. exists k. rewrite lookup_insert_ne by congruence. auto.
  - intros s k _ [[<- <-]|[Hne Ek]]%lookup_insert_Some Hdd; [congruence|]. apply (R4 s k); [set_solver|done|done].
  - intros s k Es [[<- <-]|[Hne Ek]]%lookup_insert_Some; [done|congruence].
  - intros u k Hg [[<- <-]|[Hne Ek]]%lookup_insert_Some Hk; [set_solver|eauto].
  - intros s k Es [[<- <-]|[Hne Ek]]%lookup_insert_Some Hs; [|congruence]. apply elem_of_app. auto.
Qed.

Lemma queue_nil (w : World) : w <| updateTasks ::= fun q => q ++ [] |> = w.
Proof. destruct w. unfold set_field. cbn. by rewrite app_nil_r. Qed.

Lemma queue_wf (t : Z) (w : World) (tk : IUnitTask) :
  wf w -> tasks w !! t = Some tk -> is_special (task_type tk) = false -> t ∉ updateTasks w ->
  wf (w <| updateTasks ::= fun l => l ++ [t] |>).
Proof.
  intros [G Hp] Et Hs Hn. split.
  - destruct G as [Gi Gn Gt Gl Gm Gu [Gq1 Gq2] Ga Gg]. split; cbn; try done. split.
    + apply NoDup_app. split; [done|]. split; [intros s Hs' ->%list_elem_of_singleton; done|apply NoDup_singleton].
    + intros s [Hs'|Hs']%elem_of_app; [by apply Gq2|apply list_elem_of_singleton in Hs' as ->; eauto].
  - intros u Hu. destruct (Hp u Hu). by split.
Qed.

Lemma idle_unassigned (w : World) (u : Z) (x : CCircuitUnit) : wf w -> wunits w !! u = Some x -> utask x = idleTask w -> unassigned w u.
Proof. intros [G Hp] Eu Tu s k Ek Hk. rewrite <- Tu. symmetry. by apply (p_only w u (Hp u ltac:(set_solver)) s k x). Qed.

Lemma shortcut_wf (w : World) (u p : Z) (x x' : CCircuitUnit) :
  wf w -> wunits w !! u = Some x -> at_work u w = true -> acts x' = acts x -> utask x' = utask x -> unit_dead x' = unit_dead x -> unit_id x' = unit_id x -> unit_def x' = unit_def x ->
  p ∈ actions (acts x) -> (dgunAct x' = Some p /\ travelAct x' = travelAct x \/ travelAct x' = Some p /\ dgunAct x' = dgunAct x) ->
  wf (put_unit u x' w) /\ evo ∅ w (put_unit u x' w).
Proof.
  intros W Eu Hw Ha Ht Hd Hi Hdf Hp Hs. apply at_work_unit in Hw as (y & tk & Ey & Et & Hsv). assert (y = x) as -> by congruence.
  destruct (serving_idle w _ tk (proj1 W) Et Hsv) as (Hti & Htn & Hz). split.
  - apply (wfx_arrive ∅ _ u).
    + apply (put_unit_wfx _ _ _ x); [by apply (wfx_mono ∅)|done|set_solver|done|congruence|]. rewrite Ht. eauto.
    + destruct (proj2 W u ltac:(set_solver)) as [P1 P2 P3 P4]. split; cbn; setoid_rewrite lookup_insert_eq.
      * intros z [= <-]. rewrite Ht. by apply P1.
      * intros s k z Ek Hk [= <-]. rewrite Ht. by eapply P2.
      * intros z q [= <-]. rewrite Ht, Ha. intros Hni Hq. destruct Hs as [[E1 E2]|[E1 E2]]; rewrite E1, E2 in Hq; destruct Hq as [Hq|Hq]; simplify_eq; try done; eapply P3; eauto.
      * intros z [= <-]. rewrite Ht. intros [?|?]; contradiction.
  - apply (evo_put_unit _ _ _ x); try done; rewrite Ht; tauto.
Qed.

(** The shortcuts to the dgun and the travel action are set to the action just pushed. *)
Lemma wp_push_shortcut (u p : Z) (ty : ActType) (f : CCircuitUnit -> CCircuitUnit) (w : World) :
  wf w -> at_work u w = true ->
  (forall x, acts (f x) = acts x /\ utask (f x) = utask x /\ unit_dead (f x) = unit_dead x /\ unit_id (f x) = unit_id x /\ unit_def (f x) = unit_def x /\
    (dgunAct (f x) = Some p /\ travelAct (f x) = travelAct x \/ travelAct (f x) = Some p /\ dgunAct (f x) = dgunAct x)) ->
  wp (w ← PushAct u p ty w; with_unit u f w) (fun w' => wf w' /\ evo ∅ w w').
Proof.
  intros W Hw Hf. pose proof (at_work_unit u w Hw) as (x & tk & Eu & Et & Hs). apply wp_bind, (wp_PushAct _ _ _ _ x); [done|]. intros Hp.
  set (x1 := x <| acts ::= PushBack p |>). assert (E1 : wunits (pushed u x p ty w) !! u = Some x1) by (cbn; by rewrite lookup_insert_eq).
  apply (wp_with_unit _ _ _ x1); [done|]. destruct (Hf x1) as (A1 & A2 & A3 & A4 & A5 & A6).
  destruct (shortcut_wf (pushed u x p ty w) u p x1 (f x1)) as [W2 V2]; try done.
  - by apply pushed_wfx.
  - unfold at_work. rewrite E1. cbn. by rewrite Et.
  - cbn. set_solver.
  - split; [done|]. eapply evo_trans; [by apply evo_pushed|done].
Qed.

(** Every call keeps the invariant, whatever hooks do that keep it. *)
Lemma exec_ok (c : call) (k1 k2 k3 k4 : hook) : hook_ok k1 -> hook_ok k2 -> hook_ok k3 -> hook_ok k4 -> hook_ok (exec c k1 k2 k3 k4).
Proof.
  intros H1 H2 H3 H4 w W. destruct c as [t pr ty tm|t|u t b b' p|u t b b' p|u|t d|u p ty|u p|u p ty|u|t u q]; cbn [exec]; apply wp_bind, wp_require; intros Hr.
  - bools. set (tk := IUnitTask_new (lastFrame w) pr ty tm). assert (W1 : wf (put_task t tk w)) by (apply new_task_wf; try done; by destruct ty).
    assert (Hn : t ∉ updateTasks w). { intros Hin. apply (g_queue _ (proj1 W)) in Hin as (k & Ek & _). unfold fresh_task in H. bools. congruence. }
    assert (W2 : wf ((put_task t tk w) <| updateTasks ::= fun l => l ++ [t] |>)) by (apply (queue_wf t (put_task t tk w) tk); [done|cbn; by rewrite lookup_insert_eq|by destruct ty|done]).
    unfold EnqueueTask. eapply wp_mono; [by apply H1|]. cbn. intros w3 [W3 V3]. split; [done|]. eapply evo_trans; [|exact V3]. apply new_task_evo; try done. set_solver.
  - split; [by apply new_task_wf|]. rewrite <- (queue_nil (put_task t (IUnitTask_new (lastFrame w) P_HIGH PLAYER (-1)) w)). by apply new_task_evo.
  - apply assignable_spec in Hr as ((x & Eu & Hz & Hne) & Hg & Ht). unfold AssignTask. apply wp_bind, (wp_deref _ _ x); [done|]. apply wp_bind.
    eapply wp_mono; [by apply (wp_leave k1 k1 k2 u t w x)|]. cbn. intros w1 (W1 & V1 & U1 & T1). apply wp_bind.
    eapply wp_mono; [by apply wp_AssignTo|]. cbn. intros w2 [W2 V2]. destruct T1 as (tk1 & Et1 & _). destruct U1 as (x1 & Eu1 & Hz1 & _).
    destruct (e_tasks _ _ _ V2 t tk1 Et1) as (tk2 & Et2 & _). destruct (evo_unit _ _ _ _ _ V2 Eu1) as (x2 & Eu2 & Hz2).
    eapply wp_mono; [apply wp_Start; eauto|]. cbn. intros w3 [W3 V3]. split; [done|]. eapply evo_trans; [exact V1|]. by eapply evo_trans.
  - apply andb_true_iff in Hr as [Hr Hi]. apply assignable_spec in Hr as ((x & Eu & Hz & Hne) & Hg & Ht). unfold in_idle in Hi. rewrite Eu in Hi. bools.
    apply wp_bind. eapply wp_mono; [apply wp_AssignTo; [by apply (wfx_mono ∅)| |done|done]|].
    { exists x. split_and!; try done. by apply (idle_unassigned w u x). }
    cbn. intros w2 [W2 V2]. destruct Ht as (tk1 & Et1 & _). destruct (e_tasks _ _ _ V2 t tk1 Et1) as (tk2 & Et2 & _). destruct (evo_unit _ _ _ _ _ V2 Eu) as (x2 & Eu2 & Hz2).
    eapply wp_mono; [apply wp_Start; eauto|]. cbn. intros w3 [W3 V3]. split; [done|]. by eapply evo_trans.
  - apply at_work_unit in Hr as (x & tk & Eu & Et & Hs). apply wp_bind, (wp_deref _ _ x); [done|].
    eapply wp_mono; [apply (wp_RemoveAssignee _ _ _ (fun _ => True) (utask x) u w x tk); try done; by apply hook_ok_post|]. cbn. tauto.
  - unfold dequeuable in Hr. destruct (tasks w !! t) as [tk|] eqn:Et; [|done]. bools.
    eapply wp_mono; [apply (wp_DequeueTask _ _ _ (fun _ => True) t d w tk); try done; by apply hook_ok_post|]. cbn. tauto.
  - apply at_work_unit in Hr as (x & tk & Eu & _). apply (wp_PushAct _ _ _ _ x); [done|]. intros Hp. split; [by apply pushed_wfx|by apply evo_pushed].
  - apply wp_push_shortcut; [done|done|]. intros x. split_and!; try done. by left.
  - apply wp_push_shortcut; [done|done|]. intros x. split_and!; try done. by right.
  - apply owned_unit in Hr as (x & Eu & Hz). split; [apply garbage_wfx; eauto|apply evo_garbage].
  - apply live_ready in Hr as (tk & Et & _). apply (wp_with_task _ _ _ tk); [done|]. split; [by apply (touch_wfx _ _ _ tk)|by apply (touch_evo _ _ _ tk)].
Qed.

Lemma runs_Forall (l : list op) : Forall (fun o => hook_ok (run o)) l -> hook_ok (runs l).
Proof.
  induction 1 as [|o l Ho _ IH]; intros w W; [split; [done|apply evo_refl]|]. cbn [runs]. apply wp_bind. eapply wp_mono; [by apply Ho|]. cbn. intros w1 [W1 V1].
  eapply wp_mono; [by apply IH|]. cbn. intros w2 [W2 V2]. split; [done|]. by eapply evo_trans.
Qed.

(** So every run does. *)
Lemma run_op_ok (o : op) : hook_ok (run o).
Proof. induction o as [c h1 h2 h3 h4 I1 I2 I3 I4] using op_tree_ind. intros w. rewrite run_unfold. by apply exec_ok; try by apply runs_Forall. Qed.

Lemma runs_ok (l : list op) : hook_ok (runs l).
Proof. apply runs_Forall, Forall_forall. intros o _. apply run_op_ok. Qed.
