(* ===== verification/TaskEvents.v ===== *)
(** The life of units and tasks: the periodic updates (module/TaskModule.cpp,
    task/IdleTask.cpp, [UpdateActions] of CircuitAI.cpp), the registry of units and the
    handlers of the engine's events (CircuitAI.cpp, and the handlers all managers share:
    [InitHandlers] of module/MilitaryManager.cpp, BuilderManager.cpp, FactoryManager.cpp).

    [rate] is the engine's [TEAM_SLOWUPDATE_RATE]. *)

From S2P Require Import Prelude Outcome ActionList Tasks TaskInv TaskOps TaskCalls.

Section Events.
Context (rate : Z).

(** * [ITaskModule::Update] *)

(** [v[i] = v.back(); v.pop_back()]. *)
Definition swap_remove {A} (i : nat) (l : list A) : list A :=
  match last l with Some b => removelast (<[i := b]> l) | None => l end.

(** The branch for dead tasks, as long as it is taken: at most as often as there are tasks. *)
Fixpoint sweep (fuel : nat) (w : World) : out World :=
  match fuel with
  | O => Val w
  | S fuel =>
      match updateTasks w !! updateIterator w with
      | None => Val w
      | Some t =>
          tk ← task_at t w;
          if task_dead tk then w ← ClearRelease t (w <| updateTasks ::= swap_remove (updateIterator w) |>); sweep fuel w
          else Val w
      end
  end.

(** What the hooks of one visit do: [Update], or on a time-out [TaskRemoved] and [Cancel]. *)
Record visit := { v_update : list op; v_removed : list op; v_cancel : list op }.
Definition no_visit : visit := {| v_update := []; v_removed := []; v_cancel := [] |}.

(** A live task is visited: aborted when nobody has touched it for too long, else updated. *)
Definition visit_task (v : visit) (t : Z) (w : World) : out World :=
  tk ← task_at t w;
  if negb (lastTouched tk =? -1) && (0 <? timeout tk) && (timeout tk <=? lastFrame w - lastTouched tk)
  then AbortTask (runs (v_removed v)) (runs (v_cancel v)) t w
  else match task_type tk with NIL | PLAYER | WAIT => Val w | _ => runs (v_update v) w end.

Fixpoint update_loop (n : nat) (vs : list visit) (w : World) : out World :=
  match n with
  | O => Val w
  | S n =>
      w ← sweep (length (updateTasks w)) w;
      match updateTasks w !! updateIterator w with
      | None => Val w
      | Some t => w ← visit_task (default no_visit (head vs)) t w; update_loop n (tail vs) (w <| updateIterator ::= S |>)
      end
  end.

Definition Update (vs : list visit) (w : World) : out World :=
  let w := if decide (length (updateTasks w) <= updateIterator w)%nat then w <| updateIterator := O |> else w in
  update_loop (Z.to_nat (size_of (updateTasks w) / rate) + 1) vs w.

(** * [CIdleTask::Update] *)

(** The next unit of a [std::set], in the order of addresses. *)
Definition next_of (s : gset Z) (u : Z) : option Z :=
  foldr (fun v acc => if u <? v then match acc with Some m => Some (Z.min v m) | None => Some v end else acc) None (elements s).

Definition first_of (s : gset Z) : option Z :=
  foldr (fun v acc => match acc with Some m => Some (Z.min v m) | None => Some v end) None (elements s).

(** What happens when an idle unit asks for work: the calls of [MakeTask] and the task it
    returns; what [AssignTo] and [Start] do. *)
Record answer := { a_make : list op; a_task : option Z; a_throws : bool; a_act : Z; a_after : list op; a_throws' : bool; a_start : list op }.
Definition no_answer : answer := {| a_make := []; a_task := None; a_throws := false; a_act := 0; a_after := []; a_throws' := false; a_start := [] |}.

(** The set that is being walked through must not change in a hook. *)
Definition steady (k : hook) : hook := fun w => w' ← k w; require (bool_decide (updateUnits w' = updateUnits w)) w'.

(** [manager->AssignTask(ass); ass->GetTask()->Start(ass)]. *)
Definition ask (a : answer) (u : Z) (w : World) : out World :=
  w ← steady (runs (a_make a)) w;
  w ← (match a_task a with
       | None => Val w
       | Some t => w ← require (assignable u t w && in_idle u w) w; AssignTo (steady (runs (a_after a))) (a_throws a) (a_act a) t u w
       end);
  x ← unit_at u w;
  Start (steady (runs (a_start a))) (a_throws' a) (utask x) u w.

(** The loop; an erased [it] is undefined. *)
Fixpoint idle_loop (fuel : nat) (it : option Z) (i : Z) (ans : list answer) (w : World) : out World :=
  match it with
  | None => Val w
  | Some u =>
      match fuel with
      | O => UB
      | S fuel =>
          if decide (u ∉ updateUnits w) then UB
          else
            x ← unit_at u w;
            let nx := next_of (updateUnits w) u in
            if lastFrame w <? taskFrame x + 20 then idle_loop fuel nx i ans w
            else
              w ← ask (default no_answer (head ans)) u (w <| updateUnits ::= fun s => s ∖ {[u]} |>);
              if updateSlice w <=? i + 1 then Val w else idle_loop fuel nx (i + 1) (tail ans) w
      end
  end.

Definition UpdateIdle (ans : list answer) (w : World) : out World :=
  ik ← task_at (idleTask w) w;
  let w := if decide (updateUnits w = ∅) then w <| updateUnits := units ik |> <| updateSlice := Z.of_nat (size (units ik)) / rate |> else w in
  idle_loop (S (size (updateUnits w))) (first_of (updateUnits w)) 0 ans w.

(** * The registry *)

Definition GetTeamUnit (w : World) (id : Z) : option Z := teamUnits w !! id.

(** [RegisterTeamUnit], the allocator returning [u]. *)
Definition RegisterTeamUnit (u id d : Z) (m : bool) (w : World) : out World :=
  w ← require (bool_decide (wunits w !! u = None)) w;
  Val ((put_unit u (CCircuitUnit_new id d m) w) <| teamUnits ::= <[id := u]> |> <| defCount ::= <[d := default 0 (defCount w !! d) + 1]> |>).

(** [GetOrRegTeamUnit]: the unit and the world. *)
Definition GetOrRegTeamUnit (u id d : Z) (m : bool) (w : World) : out (Z * World) :=
  match GetTeamUnit w id with Some v => Val (v, w) | None => w ← RegisterTeamUnit u id d m w; Val (u, w) end.

Definition UnregisterTeamUnit (u : Z) (w : World) : out World :=
  x ← unit_at u w;
  Val ((put_unit u (x <| unit_dead := true |>) w) <| teamUnits ::= base.delete (unit_id x) |>
    <| defCount ::= <[unit_def x := default 0 (defCount w !! unit_def x) - 1]> |>).

(** The destructor frees the actions. *)
Definition DeleteTeamUnit (u : Z) (w : World) : out World :=
  w ← Clear u (w <| garbage ::= fun s => s ∖ {[u]} |>);
  Val (w <| wunits ::= base.delete u |> <| gone ::= fun s => s ∖ {[u]} |>).

Definition AddActionUnit (u : Z) (w : World) : World := w <| actionUnits ::= fun l => l ++ [u] |>.

(** * Handlers *)

(** [createdHandler], and [CFactoryManager::UnitCreated] for what has no handler. *)
Definition createdHandler (u p : Z) (w : World) : out World :=
  x ← unit_at u w;
  if utask x =? 0 then w ← Nil_AssignTo u p w; Val (AddActionUnit u w) else Val w.

Definition finishedHandler (u : Z) (w : World) : out World :=
  x ← unit_at u w;
  let w := if utask x =? 0 then AddActionUnit u w else w in
  w ← Nil_RemoveAssignee u w; Idle_AssignTo u w.

(** [OnUnitDestroyed]: the unit leaves a task it works on; [abort] is what the derived classes
    do then. *)
Definition OnUnitDestroyed (after removed cancel abort : hook) (t u : Z) (w : World) : out World :=
  tk ← task_at t w;
  match task_type tk with
  | NIL | IDLE => Val w
  | PLAYER | WAIT => RemoveAssignee after removed cancel t u w
  | _ => w ← RemoveAssignee after removed cancel t u w; abort w
  end.

(** What the hooks do: before the handler ([UnitDestroyed] of the managers), in the removal, and
    after it. *)
Record farewell := { f_before : list op; f_after : list op; f_removed : list op; f_cancel : list op; f_abort : list op; f_end : list op }.
Definition no_farewell : farewell := {| f_before := []; f_after := []; f_removed := []; f_cancel := []; f_abort := []; f_end := [] |}.

(** [destroyedHandler]: the second removal takes the unit out of the idle task. *)
Definition destroyedHandler (f : farewell) (u : Z) (w : World) : out World :=
  x ← unit_at u w;
  w ← OnUnitDestroyed (runs (f_after f)) (runs (f_removed f)) (runs (f_cancel f)) (runs (f_abort f)) (utask x) u w;
  x ← unit_at u w;
  RemoveAssignee (runs (f_after f)) (runs (f_removed f)) (runs (f_cancel f)) (utask x) u w.

Definition UnitDestroyed (f : farewell) (u : Z) (w : World) : out World :=
  let w := w <| gone ::= union {[u]} |> in
  w ← runs (f_before f) w; w ← destroyedHandler f u w; runs (f_end f) w.

(** [GiveUnits]: the units go to another team; here they are destroyed. *)
Definition GiveUnits (fs : Z -> farewell) (us : list Z) (w : World) : out World :=
  each (fun u w => w ← require (owned u w) w; w ← UnitDestroyed (fs u) u w; UnregisterTeamUnit u w) us w.

(** The start of [CCircuitAI::Update]: one unit of the garbage. *)
Definition UpdateGarbage (f : farewell) (w : World) : out World :=
  match first_of (garbage w) with
  | None => Val w
  | Some u => w ← UnitDestroyed f u w; w ← UnregisterTeamUnit u w; Val (w <| garbage ::= fun s => s ∖ {[u]} |>)
  end.

(** * [UpdateActions] *)

(** What an action's [Update] does to it: whether it blocks, its state; [thr]: whether an order of the
    unit threw. *)
Definition act_upd (au : Z -> IAction -> bool * ActState) (p : Z) (a : IAction) : IAction :=
  a <| isBlocking := (au p a).1 |> <| act_state := (au p a).2 |>.

Definition update_unit (au : Z -> IAction -> bool * ActState) (thr : Z -> bool) (u : Z) (w : World) : out World :=
  x ← unit_at u w;
  '(l, h) ← ActUpdate (act_upd au) (acts x) (acts_heap w);
  Val (try_unit (thr u) u ((put_unit u (x <| acts := l |>) w) <| acts_heap := h |>)).

Fixpoint actions_loop (fuel : nat) (n : nat) (au : Z -> IAction -> bool * ActState) (thr : Z -> bool) (w : World) : out World :=
  match n, actionUnits w !! actionIterator w with
  | O, _ | _, None => Val w
  | S n', Some u =>
      match fuel with
      | O => UB
      | S fuel =>
          x ← unit_at u w;
          if unit_dead x then w ← DeleteTeamUnit u (w <| actionUnits ::= swap_remove (actionIterator w) |>); actions_loop fuel n au thr w
          else
            tk ← task_at (utask x) w;
            match task_type tk with
            | PLAYER => actions_loop fuel n au thr (w <| actionIterator ::= S |>)
            | _ => w ← update_unit au thr u w; actions_loop fuel n' au thr (w <| actionIterator ::= S |>)
            end
      end
  end.

Definition UpdateActions (au : Z -> IAction -> bool * ActState) (thr : Z -> bool) (w : World) : out World :=
  let w := if decide (length (actionUnits w) <= actionIterator w)%nat then w <| actionIterator := O |> else w in
  actions_loop (length (actionUnits w)) (Z.to_nat (size_of (actionUnits w) / ACTION_UPDATE_RATE) + 1) au thr w.

(** * The player *)

(** [AssignPlayerTask]. *)
Definition AssignPlayerTask (k1 k2 : hook) (throws : bool) (p u : Z) (w : World) : out World :=
  exec (CAssign u (playerTask w) throws false p) k1 k2 k1 k1 w.

(** [PlayerCommand]: the units the player ordered around are left to him. *)
Definition PlayerCommand (k1 k2 : hook) (throws : Z -> bool) (p : Z -> Z) (us : list Z) (w : World) : out World :=
  each (fun u w =>
    if u =? 0 then Val w
    else
      w ← require (owned u w) w; x ← unit_at u w; tk ← task_at (utask x) w;
      match task_type tk with NIL | PLAYER => Val w | _ => AssignPlayerTask k1 k2 (throws u) (p u) u w end) us w.

(** [UnitControl]: to the AI ([isEnable]) or away from it, with a player task of its own at [t]. *)
Definition UnitControl (k1 k2 : hook) (throws : bool) (p t u : Z) (isEnable : bool) (w : World) : out (bool * World) :=
  if u =? 0 then Val (false, w)
  else
    w ← require (owned u w) w; x ← unit_at u w; tk ← task_at (utask x) w;
    if isEnable then
      match task_type tk with PLAYER => w ← exec (CRemove u) k1 k2 k1 k1 w; Val (true, w) | _ => Val (false, w) end
    else w ← exec (CNewPlayer t) k1 k2 k1 k1 w; w ← exec (CAssign u t throws false p) k1 k2 k1 k1 w; Val (true, w).

(** * Events *)

Inductive event :=
  | EFrame (frame : Z)
  | ECreated (u id d : Z) (m : bool) (p : Z)
  | EFinished (id : Z)
  | EDestroyed (id : Z) (f : farewell)
  | ECall (o : op)
  | EPlayer (ids : list Z) (h1 h2 : list op) (throws : Z -> bool) (p : Z -> Z)
  | EControl (id t p : Z) (h1 h2 : list op) (throws isEnable : bool)
  | EGarbage (f : farewell)
  | EUpdate (vs : list visit)
  | EIdle (ans : list answer)
  | EActions (au : Z -> IAction -> bool * ActState) (thr : Z -> bool)
  | EGive (ids : list Z) (fs : Z -> farewell).

(** The engine finishes a unit once, and only one that was created and not destroyed. *)
Definition unfinished (u : Z) (w : World) : bool :=
  match wunits w !! u with Some x => (utask x =? nilTask w) && bool_decide (u ∉ gone w) | None => false end.

Definition event_step (e : event) (w : World) : out World :=
  match e with
  | EFrame f => Val (w <| lastFrame := f |>)
  | ECreated u id d m p => '(v, w) ← GetOrRegTeamUnit u id d m w; w ← require (negb (v =? 0)) w; createdHandler v p w
  | EFinished id => match GetTeamUnit w id with None => Val w | Some u => w ← require (unfinished u w) w; finishedHandler u w end
  | EDestroyed id f => match GetTeamUnit w id with None => Val w | Some u => w ← require (owned u w) w; w ← UnitDestroyed f u w; UnregisterTeamUnit u w end
  | ECall o => run o w
  | EPlayer ids h1 h2 throws p => PlayerCommand (runs h1) (runs h2) throws p ((fun id => default 0 (GetTeamUnit w id)) <$> ids) w
  | EControl id t p h1 h2 throws isEnable => '(_, w) ← UnitControl (runs h1) (runs h2) throws p t (default 0 (GetTeamUnit w id)) isEnable w; Val w
  | EGarbage f => UpdateGarbage f w
  | EUpdate vs => Update vs w
  | EIdle ans => UpdateIdle ans w
  | EActions au thr => UpdateActions au thr w
  | EGive ids fs => GiveUnits fs (omap (GetTeamUnit w) ids) w
  end.

Definition events (es : list event) (w : World) : out World := each event_step es w.

(** The module as constructed ([ITaskModule::Init]), its three tasks at the given addresses. *)
Definition World_new (frame : Z) (antiCap : bool) (n i p : Z) : World :=
  {| lastFrame := frame; isAntiCap := antiCap;
     tasks := <[n := IUnitTask_new frame P_LOW NIL (-1)]> (<[i := IUnitTask_new frame P_NORMAL IDLE (-1)]> {[p := IUnitTask_new frame P_HIGH PLAYER (-1)]});
     wunits := ∅; acts_heap := ∅; nilTask := n; idleTask := i; playerTask := p; updateUnits := ∅; updateSlice := 0; updateTasks := [];
     updateIterator := O; teamUnits := ∅; defCount := ∅; actionUnits := []; actionIterator := O; garbage := ∅; gone := ∅ |}.

End Events.
