(* ===== verification/TaskSafety.v ===== *)
(** The task machinery never uses freed memory, and every unit has its place.

    [settled] is the invariant between events: [wf], and what the hooks may leave open for a
    while. *)

From S2P Require Import Prelude Outcome ActionList Tasks TaskInv TaskOps TaskCalls TaskEvents.

(** Nothing is lost: the module's player task is there, a task has the one reference of its
    module, which has it in its queue unless it is a special one, and a unit with a task is in the
    list of units. *)
Record kept (w : World) : Prop := {
  k_player : exists tk, tasks w !! playerTask w = Some tk /\ task_type tk = PLAYER;
  k_ref : forall t tk, tasks w !! t = Some tk -> refCount tk = 1;
  k_queued : forall t tk, tasks w !! t = Some tk -> is_special (task_type tk) = false -> t ∈ updateTasks w;
  k_listed : forall u x, wunits w !! u = Some x -> utask x <> 0 -> u ∈ actionUnits w;
}.

Lemma kept_evo (D : gset Z) (w w' : World) : kept w -> evo D w w' -> kept w'.
Proof.
  intros [Kp Kr Kq Kl] [C U T X N [l Q] P Y L].
  assert (K : actionUnits w' = actionUnits w /\ playerTask w' = playerTask w) by (clear -C; unfold consts in C; by inversion C). destruct K as [Ka Kt].
  split; rewrite ?Ka, ?Kt.
  - destruct Kp as (tk & E & Ty). destruct (T _ tk E) as (tk' & E' & Ty' & _). exists tk'. split; congruence.
  - intros t tk' E'. destruct (tasks w !! t) as [tk|] eqn:E; [|by apply (N t)]. destruct (T t tk E) as (k & Ek & _ & Rk & _). rewrite E' in Ek. simplify_eq. rewrite Rk. by apply (Kr t).
  - intros t tk' E' Hs. destruct (tasks w !! t) as [tk|] eqn:E; [|by apply (L t tk')]. destruct (T t tk E) as (k & Ek & Tk & _). rewrite E' in Ek. simplify_eq.
    rewrite Q. apply elem_of_app. left. apply (Kq t tk E). congruence.
  - intros u x' Eu' Hz. specialize (U u). rewrite Eu' in U. destruct (wunits w !! u) as [x|] eqn:Eu; [|done]. apply (Kl u x Eu). tauto.
Qed.

(** [X]: units whose destruction is under way. *)
Record settledx (X : gset Z) (w : World) : Prop := {
  st_wf : wf w;
  st_dead : forall t tk, tasks w !! t = Some tk -> task_dead tk = true -> units tk = ∅;
  st_gone : forall u t tk, u ∈ gone w -> u ∉ X -> tasks w !! t = Some tk -> u ∉ units tk;
  st_gone_at : forall u, u ∈ gone w -> exists x, wunits w !! u = Some x /\ utask x <> 0 /\ (u ∉ X -> utask x = idleTask w \/ utask x = nilTask w);
  st_deadu : forall u x, wunits w !! u = Some x -> unit_dead x = true -> u ∈ gone w;
  st_action : NoDup (actionUnits w) /\ forall u, u ∈ actionUnits w -> exists x, wunits w !! u = Some x /\ utask x <> 0;
  st_team : forall id u, teamUnits w !! id = Some u -> exists x, wunits w !! u = Some x /\ unit_id x = id /\ unit_dead x = false;
  st_kept : kept w;
}.
Definition settled (w : World) : Prop := settledx ∅ w.

Lemma settled_evo (X : gset Z) (w w' : World) : settledx X w -> wf w' -> evo ∅ w w' -> settledx X w'.
Proof.
  intros [W Sd Sg Sa Su Sc St Sk] W' V. pose proof V as [C U T X' N Q P Y _]. destruct (evo_idle _ _ _ V) as (Hi & Hn & Hg & _).
  assert (K : actionUnits w' = actionUnits w /\ teamUnits w' = teamUnits w) by (clear -C; unfold consts in C; by inversion C). destruct K as [Ka Kt].
  assert (HU : forall u x, wunits w !! u = Some x -> exists x', wunits w' !! u = Some x' /\ unit_dead x' = unit_dead x /\ unit_id x' = unit_id x /\ (utask x <> 0 -> utask x' <> 0) /\
    (u ∈ gone w -> utask x' = utask x \/ utask x' = idleTask w)).
  { intros u x Eu. specialize (U u). rewrite Eu in U. destruct (wunits w' !! u) as [x'|]; [|done]. exists x'. tauto. }
  assert (Sa' : forall u, u ∈ gone w' -> exists x, wunits w' !! u = Some x /\ utask x <> 0 /\ (u ∉ X -> utask x = idleTask w' \/ utask x = nilTask w')).
  { intros u Hu. rewrite Hg in Hu. destruct (Sa u Hu) as (x & Eu & Hz & Ht). destruct (HU u x Eu) as (x' & Eu' & _ & _ & Hz' & Hx'). exists x'. split_and!; auto.
    intros Hx. rewrite Hi, Hn. destruct (Hx' Hu) as [E|E]; rewrite E; auto. }
  split; try done.
  - intros t tk Et Hd. specialize (X' t tk ltac:(set_solver) Et Hd). unfold had in X'. destruct (tasks w !! t) as [tk0|] eqn:E0; [|set_solver].
    destruct (task_dead tk0) eqn:Ed; [|set_solver]. rewrite (Sd t tk0 E0 Ed) in X'. set_solver.
  - intros u t tk Hu Hx Et Hin. destruct (Sa' u Hu) as (x' & Eu' & _ & Ht). specialize (Ht Hx). rewrite Hg in Hu.
    pose proof (p_only w' u (proj2 W' u ltac:(set_solver)) t tk x' Et Hin Eu') as Ex. destruct Ht as [Ht|Ht].
    + rewrite Ex, Hi in Ht. subst t. destruct (Y u tk Hu Et Hin) as [(ik & Ei & Hik)|(x & Eu & H1 & H2)]; [by apply (Sg u _ ik Hu Hx Ei)|].
      destruct (Sa u Hu) as (y & Ey & _ & Hy). assert (y = x) as -> by congruence. destruct (Hy Hx); done.
    + destruct (g_nil _ (proj1 W')) as (k & Ek & Tk & _). rewrite <- Ht, Ex, Et in Ek. simplify_eq. apply (g_types _ (proj1 W')) in Et as (_ & _ & Et). destruct (Et Tk) as [_ E]. set_solver.
  - intros u x' Eu' Hd. rewrite Hg. pose proof (U u) as Uu. rewrite Eu' in Uu. destruct (wunits w !! u) as [x|] eqn:Eu; [|done]. apply (Su u x Eu). by destruct Uu as [<- _].
  - rewrite Ka. destruct Sc as [Sc1 Sc2]. split; [done|]. intros u Hu. destruct (Sc2 u Hu) as (x & Eu & Hz). destruct (HU u x Eu) as (x' & Eu' & _ & _ & Hz' & _). eauto.
  - rewrite Kt. intros id u E. destruct (St id u E) as (x & Eu & H1 & H2). destruct (HU u x Eu) as (x' & Eu' & ? & ? & _). exists x'. split_and!; congruence.
  - by eapply kept_evo.
Qed.

Lemma settled_hook (X : gset Z) (k : hook) (w : World) : hook_ok k -> settledx X w -> wp (k w) (fun w' => settledx X w' /\ evo ∅ w w').
Proof. intros Hk S. eapply wp_mono; [apply Hk, S|]. cbn. intros w' [W' V]. split; [by eapply settled_evo|done]. Qed.

(** ** Registration and creation *)

Lemma settled_fields (X : gset Z) (w w' : World) :
  settledx X w -> wf w' -> tasks w' = tasks w -> gone w' = gone w -> idleTask w' = idleTask w -> nilTask w' = nilTask w ->
  (forall u, wunits w' !! u = wunits w !! u) -> actionUnits w' = actionUnits w -> teamUnits w' = teamUnits w ->
  playerTask w' = playerTask w -> updateTasks w' = updateTasks w -> settledx X w'.
Proof.
  intros [W Sd Sg Sa Su Sc St [Kp Kr Kq Kl]] W' Et Eg Ei En Eu Ea Em Ep Eq. split; rewrite ?Et, ?Eg, ?Ei, ?En, ?Ea, ?Em; try done.
  - intros u Hu. rewrite Eu. by apply Sa.
  - intros u x. rewrite Eu. apply Su.
  - destruct Sc as [Sc1 Sc2]. split; [done|]. intros u Hu. rewrite Eu. by apply Sc2.
  - intros id u E. rewrite Eu. by apply St.
  - split; rewrite ?Et, ?Ep, ?Eq, ?Ea; try done. intros u x. rewrite Eu. by apply Kl.
Qed.

(** A change of the fields the invariant does not speak about. *)
Lemma wfx_frame (E : gset Z) (w w' : World) :
  wfx E w -> tasks w' = tasks w -> wunits w' = wunits w -> acts_heap w' = acts_heap w -> idleTask w' = idleTask w -> nilTask w' = nilTask w ->
  updateUnits w' = updateUnits w -> updateTasks w' = updateTasks w -> garbage w' ⊆ garbage w -> gone w ⊆ gone w' -> wfx E w'.
Proof.
  intros [[Gi Gn Gt Gl Gm Gu Gq Ga Gg] Hp] E1 E2 E3 E4 E5 E6 E7 E8 E9. split.
  - split; rewrite ?E1, ?E2, ?E3, ?E4, ?E5, ?E6, ?E7; try done. intros u Hu. apply Gg. set_solver.
  - intros u Hu. destruct (Hp u Hu) as [P1 P2 P3 P4]. split; rewrite ?E1, ?E2, ?E4, ?E5; try done.
    intros x Eu Hz. destruct (P1 x Eu Hz) as (tk & Etk & Hk). exists tk. split; [done|]. set_solver.
Qed.

(** A new unit. *)
Lemma new_unit_wf (u : Z) (x : CCircuitUnit) (w : World) :
  wf w -> wunits w !! u = None -> utask x = 0 -> acts x = CActionList_new -> dgunAct x = None -> travelAct x = None -> wf (put_unit u x w).
Proof.
  intros [G Hp] En Hz Ha Hd Ht.
  assert (Hk : forall v y, wunits w !! v = Some y -> <[u := x]> (wunits w) !! v = Some y) by (intros v y Ey; rewrite lookup_insert_ne; congruence).
  destruct G as [Gi Gn Gt Gl Gm Gu Gq Ga Gg]. split; [split; cbn; try done|].
  - intros v y [[<- <-]|[Hne Ey]]%lookup_insert_Some; [done|by apply (Gl v)].
  - intros t tk v Et Hv. destruct (Gm t tk v Et Hv) as [y Ey]. eauto.
  - intros v y [[<- <-]|[Hne Ey]]%lookup_insert_Some; [|by apply (Ga v)]. rewrite Ha. cbn. split; [constructor|]. intros p Hq. by apply elem_of_nil in Hq.
  - intros v Hv. destruct (Gg v Hv) as (y & Ey & Hy). eauto.
  - intros v Hv. destruct (decide (v = u)) as [->|Hne].
    + split; cbn; setoid_rewrite lookup_insert_eq.
      * intros y [= <-]. done.
      * intros t tk y Et Hin. destruct (Gm t tk u Et Hin). congruence.
      * intros y p [= <-] _ [Hq|Hq]; congruence.
      * intros y [= <-]. done.
    + destruct (Hp v Hv) as [P1 P2 P3 P4]. split; cbn; setoid_rewrite lookup_insert_ne; done.
Qed.

Lemma register_settled (u id d : Z) (m : bool) (w : World) :
  settled w -> GetTeamUnit w id = None -> wp (RegisterTeamUnit u id d m w) (fun w' => settled w' /\ wunits w' !! u = Some (CCircuitUnit_new id d m)).
Proof.
  intros [W Sd Sg Sa Su [Sc1 Sc2] St [Kp Kr Kq Kl]] _. unfold RegisterTeamUnit. apply wp_bind, wp_require. intros En%bool_decide_eq_true_1.
  set (x := CCircuitUnit_new id d m). cbn [wp].
  assert (Hk : forall v y, wunits w !! v = Some y -> <[u := x]> (wunits w) !! v = Some y) by (intros v y Ey; rewrite lookup_insert_ne; congruence).
  split; [|cbn; by rewrite lookup_insert_eq]. split; cbn; try done.
  - apply (wfx_frame ∅ (put_unit u x w)); try done. by apply new_unit_wf.
  - intros v Hv. destruct (Sa v Hv) as (y & Ey & Hy). eauto.
  - intros v y [[<- <-]|[Hne Ey]]%lookup_insert_Some; [done|by apply (Su v)].
  - split; [done|]. intros v Hv. destruct (Sc2 v Hv) as (y & Ey & Hy). eauto.
  - intros i v [[<- <-]|[Hne Ei]]%lookup_insert_Some; [exists x; by rewrite lookup_insert_eq|]. destruct (St i v Ei) as (y & Ey & Hy). eauto.
  - split; try done. cbn. intros v y [[<- <-]|[Hne Ey]]%lookup_insert_Some; [done|by apply (Kl v)].
Qed.

Lemma GetOrReg_settled (u id d : Z) (m : bool) (w : World) :
  settled w -> wp (GetOrRegTeamUnit u id d m w) (fun r => settled r.2 /\ is_Some (wunits r.2 !! r.1)).
Proof.
  intros S. unfold GetOrRegTeamUnit. destruct (GetTeamUnit w id) as [v|] eqn:E.
  - cbn. split; [done|]. destruct (st_team _ _ S id v E) as (x & Ex & _). eauto.
  - apply wp_bind. eapply wp_mono; [by apply register_settled|]. cbn. intros w' [S' E']. eauto.
Qed.

(** The unit may be listed before it gets its action. *)
Lemma anti_cap_listed (u v p : Z) (w : World) : push_anti_cap u p (AddActionUnit v w) = (w ← push_anti_cap u p w; Val (AddActionUnit v w)).
Proof.
  unfold push_anti_cap, PushAct, with_unit, unit_at, deref, require. cbn. destruct (wunits w !! u) as [x|] eqn:E; [|done]. cbn.
  repeat (case_match; cbn; rewrite ?E in *; simplify_eq); done.
Qed.

(** A unit gets a task for the first time. *)
Lemma created_settled (u p : Z) (w : World) : settled w -> is_Some (wunits w !! u) -> wp (createdHandler u p w) settled.
Proof.
  intros S [x Eu]. unfold createdHandler. apply wp_bind, (wp_deref _ _ x); [done|]. destruct (Z.eqb_spec (utask x) 0) as [Hz|Hz]; [|done].
  pose proof S as [W Sd Sg Sa Su [Sc1 Sc2] St [Kp Kr Kq Kl]]. destruct (g_nil _ (proj1 W)) as (nk & En & Tn & Dn).
  assert (Hng : u ∉ gone w) by (intros Hg; destruct (Sa u Hg) as (y & Ey & Hy & _); congruence).
  assert (Hna : u ∉ actionUnits w) by (intros Ha; destruct (Sc2 u Ha) as (y & Ey & Hy); congruence).
  destruct (proj2 W u ltac:(set_solver)) as [P1 P2 P3 P4]. destruct (P4 x Eu (or_intror Hz)) as [Ed Et].
  assert (Hno : forall t tk, tasks w !! t = Some tk -> u ∉ units tk).
  { intros t tk Et' Hin. pose proof (P2 t tk x Et' Hin Eu) as Ht. apply (g_types _ (proj1 W)) in Et' as [Ht0 _]. congruence. }
  unfold Nil_AssignTo, SetTask. apply wp_bind, wp_bind, (wp_with_unit _ _ _ x); [done|].
  set (x1 := x <| utask := nilTask w |> <| taskFrame := lastFrame w |> <| uState := TS_NONE |>). set (w1 := put_unit u x1 w).
  assert (Hn0 : nilTask w <> 0) by (by apply (g_types _ (proj1 W)) in En as [? _]).
  assert (W1 : wf w1).
  { apply (wfx_arrive ∅ _ u).
    - apply (put_unit_wfx _ _ _ x); [by apply (wfx_mono ∅)|done|set_solver|done|done|cbn; eauto].
    - split; cbn; setoid_rewrite lookup_insert_eq.
      + intros y [= <-] _. cbn. exists nk. auto.
      + intros t tk y Et' Hin. by destruct (Hno t tk Et').
      + intros y q [= <-]. cbn. intros _ [Hq|Hq]; congruence.
      + intros y [= <-]. done. }
  set (w2 := AddActionUnit u w1). assert (S2 : settled w2).
  { split; cbn; try done.
    - by apply (wfx_frame ∅ w1).
    - intros v Hv. destruct (Sa v Hv) as (y & Ey & Hy). exists y. rewrite lookup_insert_ne; [done|]. intros ->. done.
    - intros v y [[<- <-]|[Hne Ey]]%lookup_insert_Some Hd; [by apply (Su u x)|by apply (Su v y)].
    - split; [apply NoDup_app; split; [done|]; split; [|apply NoDup_singleton]; by intros v Hv ->%list_elem_of_singleton|].
      intros v [Hv|Hv]%elem_of_app; [|apply list_elem_of_singleton in Hv as ->; exists x1; by rewrite lookup_insert_eq].
      destruct (Sc2 v Hv) as (y & Ey & Hy). exists y. rewrite lookup_insert_ne; [done|]. intros ->. done.
    - intros i v Ei. destruct (St i v Ei) as (y & Ey & Hy). destruct (decide (u = v)) as [<-|Hne]; [|exists y; by rewrite lookup_insert_ne].
      exists x1. rewrite lookup_insert_eq. assert (y = x) as -> by congruence. done.
    - split; try done. cbn. intros v y [[<- <-]|[Hne Ey]]%lookup_insert_Some Hyz; apply elem_of_app; [right; by apply list_elem_of_singleton|left; by apply (Kl v y)]. }
  apply wp_unbind. rewrite <- anti_cap_listed. eapply wp_mono; [apply (wp_anti_cap ∅ ∅ u p w2 x1); [apply S2|cbn; by rewrite lookup_insert_eq]|].
  cbn. intros w3 (W3 & V3 & _). by apply (settled_evo ∅ w2).
Qed.

(** The nanoframe is complete: the unit becomes idle. *)
Lemma finished_settled (u : Z) (w : World) : settled w -> unfinished u w = true -> wp (finishedHandler u w) settled.
Proof.
  intros S Hu. unfold unfinished in Hu. destruct (wunits w !! u) as [x|] eqn:Eu; [|done]. bools. rename H into Tu, H0 into Hng.
  pose proof (st_wf _ _ S) as W. destruct (g_nil _ (proj1 W)) as (nk & En & Tn & Dn).
  assert (Hn0 : nilTask w <> 0) by (by apply (g_types _ (proj1 W)) in En as [? _]).
  unfold finishedHandler. apply wp_bind, (wp_deref _ _ x); [done|]. destruct (Z.eqb_spec (utask x) 0); [congruence|].
  apply wp_bind. eapply wp_mono; [apply (wp_Nil_RemoveAssignee u w x); [done|done|by left]|]. cbn. intros w1 (W1 & V1 & T1 & x1 & Eu1 & Tu1).
  destruct (evo_idle _ _ _ V1) as (Hi & Hn & Hg & _). assert (S1 : settled w1) by (by apply (settled_evo ∅ w)).
  destruct (g_idle _ (proj1 W1)) as (ik & Ei & Ti & Di). apply (wp_Idle_AssignTo _ _ x1 ik); [done|done|].
  assert (Hno : forall s k, tasks w1 !! s = Some k -> u ∈ units k -> False).
  { intros s k Ek Hk. pose proof (p_only w1 u (proj2 W1 u ltac:(set_solver)) s k x1 Ek Hk Eu1) as Es. rewrite Tu1, Tu in Es. subst s.
    rewrite T1, En in Ek. simplify_eq. apply (g_types _ (proj1 W)) in En as (_ & _ & En). destruct (En Tn) as [_ E]. set_solver. }
  apply (settled_evo ∅ w1); [done| |apply evo_idled; [apply W1|done|done|congruence|congruence]].
  apply (wfx_arrive ∅ _ u); [apply (idled_wfx (∅ ∪ {[u]}) w1); [by apply (wfx_mono ∅)|done|done|apply elem_of_union_r, elem_of_singleton_2; done]|].
  eapply placed_idle; [|cbn; by rewrite lookup_insert_eq|done|cbn; by rewrite lookup_insert_eq|left; cbn; set_solver|].
  - apply (idled_wfx {[u]} w1); [by apply (wfx_mono ∅)|done|done|by apply elem_of_singleton_2].
  - cbn. intros s k [[<- <-]|[Hne Ek]]%lookup_insert_Some Hk; [done|]. exfalso. by eapply Hno.
Qed.

(** ** Destruction *)

(** The unit is idle, on its way out. *)
Definition leaving (u : Z) (w : World) : Prop := u ∈ gone w /\ exists x, wunits w !! u = Some x /\ utask x = idleTask w.

Lemma leaving_stable (u t : Z) : stable t (fun w => leaving u w /\ t <> idleTask w).
Proof. intros w w' Hi Hg Hu Ht [(Hin & x & Eu & Tu) Hti]. rewrite Hi. split; [|done]. split; [by rewrite Hg|]. exists x. split; [|congruence]. apply Hu; congruence. Qed.

Lemma leaving_hook (u t : Z) (k : hook) : hook_ok k -> hook_post (fun w => leaving u w /\ t <> idleTask w) k.
Proof.
  intros Hk w W [(Hin & x & Eu & Tu) Ht]. eapply wp_mono; [by apply Hk|]. cbn. intros w' [W' V]. split_and!; try done.
  - destruct (evo_idle _ _ _ V) as (Hi & _ & Hg & _). split; [by rewrite Hg|]. pose proof (e_units _ _ _ V u) as U. rewrite Eu in U.
    destruct (wunits w' !! u) as [x'|]; [|done]. exists x'. split; [done|]. destruct U as (_ & _ & _ & _ & U). rewrite Hi. destruct (U Hin); congruence.
  - destruct (evo_idle _ _ _ V) as (Hi & _). by rewrite Hi.
Qed.

(** After [OnUnitDestroyed] only the idle task may hold the unit. *)
Lemma wp_OnUnitDestroyed (after removed cancel abort : hook) (u : Z) (w : World) (x : CCircuitUnit) :
  settledx {[u]} w -> wunits w !! u = Some x -> u ∈ gone w -> hook_ok after -> hook_ok removed -> hook_ok cancel -> hook_ok abort ->
  wp (OnUnitDestroyed after removed cancel abort (utask x) u w) (fun w' => settledx {[u]} w' /\ evo ∅ w w' /\
    exists x', wunits w' !! u = Some x' /\ (utask x' = idleTask w' \/ utask x' = nilTask w')).
Proof.
  intros S Eu Hg Ha Hr Hc Hb. pose proof (st_wf _ _ S) as W. destruct (st_gone_at _ _ S u Hg) as (y & Ey & Hz & _). assert (y = x) as -> by congruence.
  destruct (g_live _ (proj1 W) u x Eu Hz) as [tk Et]. unfold OnUnitDestroyed. apply wp_bind, (wp_deref _ _ tk); [done|].
  destruct (serving tk) eqn:Hs.
  - destruct (serving_idle w _ tk (proj1 W) Et Hs) as (Hti & _).
    assert (R : wp (RemoveAssignee after removed cancel (utask x) u w) (fun w' => settledx {[u]} w' /\ evo ∅ w w' /\ leaving u w' /\ utask x <> idleTask w')).
    { eapply wp_mono; [apply (wp_RemoveAssignee _ _ _ (fun w' => leaving u w' /\ utask x <> idleTask w') (utask x) u w x tk); try done; try by apply leaving_hook|].
      - apply leaving_stable.
      - intros w1 W1 V1 (z & jk & Ez & Tz & _) _. destruct (evo_idle _ _ _ V1) as (Hi & _ & Hg1 & _). split; [|by rewrite Hi]. split; [by rewrite Hg1|eauto].
      - cbn. intros w1 (W1 & V1 & Q1). split; [by apply (settled_evo _ w)|done]. }
    assert (Hdone : forall w', settledx {[u]} w' /\ evo ∅ w w' /\ leaving u w' /\ utask x <> idleTask w' ->
      settledx {[u]} w' /\ evo ∅ w w' /\ exists x', wunits w' !! u = Some x' /\ (utask x' = idleTask w' \/ utask x' = nilTask w')).
    { intros w' (S' & V' & (_ & x' & Ex & Tx) & _). split_and!; try done. eauto. }
    unfold serving in Hs. destruct (task_type tk); try done; try by (eapply wp_mono; [exact R|]).
    all: apply wp_bind; (eapply wp_mono; [exact R|]); cbn; intros w1 (S1 & V1 & L1); (eapply wp_mono; [apply (leaving_hook u (utask x) abort Hb); [apply S1|done]|]);
      cbn; intros w2 (W2 & V2 & L2); apply Hdone; split_and!; [by apply (settled_evo _ w1)|by eapply evo_trans|apply L2..].
  - assert (Hd : settledx {[u]} w /\ evo ∅ w w /\ exists x', wunits w !! u = Some x' /\ (utask x' = idleTask w \/ utask x' = nilTask w)).
    { split_and!; [done|apply evo_refl|]. exists x. split; [done|]. destruct (g_types _ (proj1 W) _ tk Et) as (_ & H1 & H2). unfold serving in Hs.
      destruct (task_type tk); try done; [right; by apply H2|left; by apply H1]. }
    unfold serving in Hs. destruct (task_type tk); done.
Qed.

(** The second removal takes the unit out of the last set. *)
Lemma wp_last_removal (after removed cancel : hook) (u : Z) (w : World) (x : CCircuitUnit) :
  settledx {[u]} w -> wunits w !! u = Some x -> u ∈ gone w -> utask x = idleTask w \/ utask x = nilTask w ->
  wp (RemoveAssignee after removed cancel (utask x) u w) (fun w' => settled w' /\ evo ∅ w w').
Proof.
  intros S Eu Hg Hx. pose proof (st_wf _ _ S) as W. destruct (g_idle _ (proj1 W)) as (ik & Ei & Ti & Di). destruct (g_nil _ (proj1 W)) as (nk & En & Tn & Dn).
  assert (Hfin : forall w' x', settledx {[u]} w' -> wunits w' !! u = Some x' -> (utask x' = idleTask w' \/ utask x' = nilTask w') ->
    (forall jk, tasks w' !! idleTask w' = Some jk -> u ∉ units jk) -> settled w').
  { intros w' x' [W' Sd Sg Sa Su Sc St] Eu' Hx' Hj. split; try done.
    - intros v t tk Hv _ Et. destruct (decide (v = u)) as [->|Hne]; [|apply (Sg v t tk); set_solver]. intros Hin.
      pose proof (p_only w' u (proj2 W' u ltac:(set_solver)) t tk x' Et Hin Eu') as Ex. rewrite Ex in Hx'.
      destruct Hx' as [->| ->]; [by apply (Hj tk)|]. destruct (g_nil _ (proj1 W')) as (k & Ek & Tk & _). assert (k = tk) as -> by congruence.
      apply (g_types _ (proj1 W')) in Et as (_ & _ & Et). destruct (Et Tk) as [_ E]. set_solver.
    - intros v Hv. destruct (Sa v Hv) as (y & Ey & Hz & Hy). exists y. split_and!; try done. intros _. destruct (decide (v = u)) as [->|Hne]; [congruence|apply Hy; set_solver]. }
  unfold RemoveAssignee. destruct Hx as [Hx|Hx]; rewrite Hx.
  - apply wp_bind, (wp_deref _ _ ik); [done|]. rewrite Ti. eapply wp_mono; [apply (wp_Idle_RemoveAssignee {[u]} ∅ u w x ik); [by apply (wfx_mono ∅)|set_solver|done|done]|].
    cbn. intros w1 (W1 & V1 & T1 & x1 & U1 & Tx & _). destruct (evo_idle _ _ _ V1) as (Hi & Hn & Hgg & _).
    assert (Eu1 : wunits w1 !! u = Some x1) by (rewrite U1; apply lookup_insert_eq).
    assert (Hm : forall s k, tasks w1 !! s = Some k -> u ∈ units k -> False).
    { intros s k Ek Hk. rewrite T1 in Ek. apply lookup_insert_Some in Ek as [[<- <-]|[Hne Ek]]; [cbn in Hk; set_solver|].
      pose proof (p_only w u (proj2 W u ltac:(set_solver)) s k x Ek Hk Eu). congruence. }
    assert (Wf1 : wf w1).
    { apply (wfx_arrive ∅ _ u); [by apply (wfx_mono {[u]}); [set_solver|]|]. destruct (g_idle _ (proj1 W1)) as (jk & Ej & _).
      apply (placed_idle w1 u x1 jk); [apply W1|done|congruence|done|right; congruence|]. intros s k Ek Hk. exfalso. by eapply Hm. }
    split; [|done]. apply (Hfin w1 x1); [by apply (settled_evo _ w)|done|left; congruence|]. intros jk Ej Hin. by eapply Hm.
  - apply wp_bind, (wp_deref _ _ nk); [done|]. rewrite Tn. eapply wp_mono; [apply (wp_Nil_RemoveAssignee u w x); [done|done|by left]|].
    cbn. intros w1 (W1 & V1 & T1 & x1 & Eu1 & Tx). destruct (evo_idle _ _ _ V1) as (Hi & Hn & _). split; [|done].
    apply (Hfin w1 x1); [by apply (settled_evo _ w)|done|right; congruence|]. rewrite Hi, T1. intros jk Ej Hin.
    pose proof (p_only w u (proj2 W u ltac:(set_solver)) _ jk x Ej Hin Eu). destruct (idle_task w jk (proj1 W) Ej) as (_ & _ & _ & ?). congruence.
Qed.

Lemma destroyed_settled (f : farewell) (u : Z) (w : World) :
  settled w -> (exists x, wunits w !! u = Some x /\ utask x <> 0) -> wp (UnitDestroyed f u w) (fun w' => settled w' /\ u ∈ gone w' /\ is_Some (wunits w' !! u)).
Proof.
  intros [W Sd Sg Sa Su Sc St [Kp Kr Kq Kl]] (x & Eu & Hz). unfold UnitDestroyed. set (w0 := w <| gone ::= union {[u]} |>).
  assert (S0 : settledx {[u]} w0).
  { split; cbn; try done.
    - apply (wfx_frame ∅ w); try done. cbn. set_solver.
    - intros v t tk Hv Hx Et. apply (Sg v t tk); set_solver.
    - intros v Hv. destruct (decide (v = u)) as [->|Hne]; [exists x; split_and!; try done; set_solver|].
      destruct (Sa v ltac:(set_solver)) as (y & Ey & Hy & Hy'). exists y. split_and!; try done. intros _. apply Hy'. set_solver.
    - intros v y Ey Hd. specialize (Su v y Ey Hd). set_solver. }
  assert (G0 : u ∈ gone w0) by (cbn; set_solver).
  assert (K : forall w1 w2, evo ∅ w1 w2 -> u ∈ gone w1 -> u ∈ gone w2) by (intros w1 w2 V; destruct (evo_idle _ _ _ V) as (_ & _ & Hg & _); by rewrite Hg).
  apply wp_bind. eapply wp_mono; [apply (settled_hook _ _ w0 (runs_ok _) S0)|]. cbn. intros w1 [S1 V1]. pose proof (K _ _ V1 G0) as G1.
  destruct (st_gone_at _ _ S1 u G1) as (x1 & Eu1 & _). apply wp_bind. unfold destroyedHandler. apply wp_bind, (wp_deref _ _ x1); [done|]. apply wp_bind.
  eapply wp_mono; [apply (wp_OnUnitDestroyed _ _ _ _ u w1 x1 S1 Eu1 G1); apply runs_ok|]. cbn. intros w2 (S2 & V2 & x2 & Eu2 & Tx2). pose proof (K _ _ V2 G1) as G2.
  apply wp_bind, (wp_deref _ _ x2); [done|]. eapply wp_mono; [by apply wp_last_removal|]. cbn. intros w3 [S3 V3]. pose proof (K _ _ V3 G2) as G3.
  eapply wp_mono; [apply (settled_hook _ _ w3 (runs_ok _) S3)|]. cbn. intros w4 [S4 V4]. pose proof (K _ _ V4 G3) as G4. split_and!; try done.
  destruct (st_gone_at _ _ S4 u G4) as (x4 & Eu4 & _). eauto.
Qed.

Lemma unregister_settled (u : Z) (w : World) : settled w -> u ∈ gone w -> wp (UnregisterTeamUnit u w) settled.
Proof.
  intros [W Sd Sg Sa Su [Sc1 Sc2] St [Kp Kr Kq Kl]] Hg. destruct (Sa u Hg) as (x & Eu & Hz & _). unfold UnregisterTeamUnit. apply wp_bind, (wp_deref _ _ x); [done|].
  set (x1 := x <| unit_dead := true |>).
  assert (Hk : forall v y, wunits w !! v = Some y -> exists y', <[u := x1]> (wunits w) !! v = Some y' /\ utask y' = utask y /\ unit_id y' = unit_id y /\ (v <> u -> y' = y)).
  { intros v y Ey. destruct (decide (u = v)) as [<-|Hne]; [exists x1; rewrite lookup_insert_eq; assert (y = x) as -> by congruence; done|exists y; by rewrite lookup_insert_ne]. }
  split; cbn; try done.
  - apply (wfx_frame ∅ (put_unit u x1 w)); try done. destruct (g_live _ (proj1 W) u x Eu Hz) as [tk Et].
    apply (wfx_arrive ∅ _ u); [apply (put_unit_wfx _ _ _ x); [by apply (wfx_mono ∅)|done|set_solver|done|done|cbn; eauto]|].
    destruct (proj2 W u ltac:(set_solver)) as [P1 P2 P3 P4]. split; cbn; setoid_rewrite lookup_insert_eq.
    + intros y [= <-]. cbn. by apply P1.
    + intros s k y Ek Hk' [= <-]. cbn. by eapply P2.
    + intros y q [= <-]. cbn. by apply P3.
    + intros y [= <-]. cbn. by apply P4.
  - intros v Hv. destruct (Sa v Hv) as (y & Ey & Hy & Hy'). destruct (Hk v y Ey) as (y' & Ey' & Ty & _). exists y'. rewrite Ty. done.
  - intros v y [[<- <-]|[Hne Ey]]%lookup_insert_Some Hd; [done|by apply (Su v y)].
  - split; [done|]. intros v Hv. destruct (Sc2 v Hv) as (y & Ey & Hy). destruct (Hk v y Ey) as (y' & Ey' & Ty & _). exists y'. by rewrite Ty.
  - intros i v [Hne Ei]%lookup_delete_Some. destruct (St i v Ei) as (y & Ey & Hi & Hd). destruct (Hk v y Ey) as (y' & Ey' & _ & Iy & Hy).
    destruct (decide (v = u)) as [->|Hv]; [congruence|]. exists y'. rewrite (Hy Hv) in *. done.
  - split; try done. cbn. intros v y [[<- <-]|[Hne Ey]]%lookup_insert_Some; [by apply (Kl u x)|by apply (Kl v)].
Qed.

Lemma GiveUnits_settled (fs : Z -> farewell) (us : list Z) (w : World) : settled w -> wp (GiveUnits fs us w) settled.
Proof.
  intros S. apply (wp_each _ (fun _ => settled)); [|done]. clear. intros u _ w S. apply wp_bind, wp_require. intros Hu%owned_unit. apply wp_bind.
  eapply wp_mono; [by apply destroyed_settled|]. cbn. intros w1 (S1 & G1 & _). by apply unregister_settled.
Qed.

(** ** The garbage *)

Lemma first_of_in (s : gset Z) (u : Z) : first_of s = Some u -> u ∈ s.
Proof.
  unfold first_of. intros E. apply elem_of_elements. revert u E. induction (elements s) as [|v l IH]; intros u E; [done|]. cbn in E.
  destruct (foldr _ None l) as [m|] eqn:Em; simplify_eq; [|by constructor]. destruct (Z.min_spec v m) as [[_ ->]|[_ ->]]; [by constructor|]. constructor. by apply IH.
Qed.

Lemma garbage_settled (f : farewell) (w : World) : settled w -> wp (UpdateGarbage f w) settled.
Proof.
  intros S. unfold UpdateGarbage. destruct (first_of (garbage w)) as [u|] eqn:E; [|done]. apply first_of_in in E.
  apply wp_bind. eapply wp_mono; [apply destroyed_settled; [done|by apply (g_garbage _ (proj1 (st_wf _ _ S)))]|]. cbn. intros w1 (S1 & G1 & _).
  apply wp_bind. eapply wp_mono; [by apply unregister_settled|]. cbn. intros w2 S2. apply (settled_fields ∅ w2); try done.
  apply (wfx_frame ∅ w2); try done; [apply S2|]. cbn. set_solver.
Qed.

(** ** The module's update *)

Lemma swap_remove_perm {A} (l : list A) (i : nat) (a : A) : l !! i = Some a -> l ≡ₚ a :: swap_remove i l.
Proof.
  intros Ha. unfold swap_remove. destruct l as [|b l' _] using rev_ind; [done|]. rewrite last_snoc.
  destruct (decide (i = length l')) as [->|Hne].
  - rewrite list_lookup_middle in Ha by done. simplify_eq. rewrite insert_app_r_alt by lia. rewrite Nat.sub_diag. cbn. rewrite removelast_last. by rewrite Permutation_app_comm.
  - assert (Hi : (i < length l')%nat) by (apply lookup_lt_Some in Ha; rewrite length_app in Ha; cbn in Ha; lia). rewrite lookup_app_l in Ha by done.
    rewrite insert_app_l by done. rewrite removelast_last. rewrite <- (take_drop_middle l' i a Ha) at 1. rewrite insert_take_drop by done.
    rewrite Permutation_app_comm. cbn. rewrite <- !Permutation_middle. by apply perm_swap.
Qed.

(** A dead task leaves the queue and is freed: nobody works on it. *)
Lemma drop_task_settled (t : Z) (w : World) (tk : IUnitTask) (q : list Z) :
  settled w -> updateTasks w ≡ₚ t :: q -> tasks w !! t = Some tk -> task_dead tk = true ->
  settled (w <| updateTasks := q |> <| tasks ::= base.delete t |>).
Proof.
  intros S Hperm Et Hd. pose proof S as [W Sd Sg Sa Su Sc St [Kp Kr Kq Kl]]. pose proof (proj1 W) as [Gi Gn Gt Gl Gm Gu [Gq1 Gq2] Ga Gg].
  assert (Hsp : is_special (task_type tk) = false) by (destruct (Gq2 t) as (k & Ek & Tk); [rewrite Hperm; by constructor|congruence]).
  rewrite Hperm in Gq1. apply NoDup_cons in Gq1 as [Hq1 Hq2]. pose proof (Sd t tk Et Hd) as Hempty.
  assert (Hnobody : forall u x, wunits w !! u = Some x -> utask x <> t).
  { intros u x Eu Tu. assert (Ht0 : t <> 0) by (by apply Gt in Et as [? _]).
    destruct (p_has w u (proj2 W u ltac:(set_solver)) x Eu) as (k & Ek & Hk); [congruence|]. rewrite Tu, Et in Ek. simplify_eq.
    destruct Hk as [Hk|[Hk|[Hk _]]]; [set_solver|by rewrite Hk in Hsp..]. }
  assert (Hspec : forall s k, tasks w !! s = Some k -> is_special (task_type k) = true -> t <> s) by (intros s k Ek Hk ->; congruence).
  split; cbn [tasks wunits gone idleTask nilTask actionUnits teamUnits set_field]; try done.
  - split; [split|]; cbn; try done.
    + destruct Gi as (k & Ek & Tk & Dk). exists k. rewrite lookup_delete_ne; [done|]. apply (Hspec _ k Ek). by rewrite Tk.
    + destruct Gn as (k & Ek & Tk & Dk). exists k. rewrite lookup_delete_ne; [done|]. apply (Hspec _ k Ek). by rewrite Tk.
    + intros s k [Hne Ek]%lookup_delete_Some. exact (Gt s k Ek).
    + intros u x Eu Hz. rewrite lookup_delete_ne by (symmetry; by eapply Hnobody). by apply (Gl u x).
    + intros s k u [Hne Ek]%lookup_delete_Some. exact (Gm s k u Ek).
    + intros k [Hne Ek]%lookup_delete_Some. exact (Gu k Ek).
    + split; [done|]. intros s Hs. destruct (Gq2 s) as (k & Ek & Tk); [rewrite Hperm; by constructor|]. exists k. rewrite lookup_delete_ne by (intros ->; contradiction). done.
    + intros u Hu. destruct (proj2 W u Hu) as [P1 P2 P3 P4]. split; cbn; try done.
      * intros x Eu Hz. destruct (P1 x Eu Hz) as (k & Ek & Hk). exists k. rewrite lookup_delete_ne by (symmetry; by eapply Hnobody). done.
      * intros s k x [Hne Ek]%lookup_delete_Some. exact (P2 s k x Ek).
  - intros s k [Hne Ek]%lookup_delete_Some. exact (Sd s k Ek).
  - intros u s k Hu Hx [Hne Ek]%lookup_delete_Some. by apply (Sg u s k).
  - split; cbn; try done.
    + destruct Kp as (k & Ek & Tk). exists k. rewrite lookup_delete_ne; [done|]. apply (Hspec _ k Ek). by rewrite Tk.
    + intros s k [Hne Ek]%lookup_delete_Some. by apply (Kr s k).
    + intros s k [Hne Ek]%lookup_delete_Some Hs. specialize (Kq s k Ek Hs). rewrite Hperm in Kq. apply elem_of_cons in Kq as [->|Hq]; done.
Qed.

(** [ClearRelease] of a task with one reference. *)
Lemma ClearRelease_frees (t : Z) (w : World) (tk : IUnitTask) :
  tasks w !! t = Some tk -> refCount tk = 1 -> ClearRelease t w = Val (w <| tasks ::= base.delete t |>).
Proof.
  intros Et Hr. unfold ClearRelease, Release_, with_task, task_at, deref. rewrite Et. cbn. rewrite lookup_insert_eq. cbn. rewrite Hr. cbn. f_equal.
  unfold put_task, set_field. cbn. f_equal. apply delete_insert_eq.
Qed.

Lemma free_task_settled (t : Z) (w : World) (tk : IUnitTask) :
  settled w -> updateTasks w !! updateIterator w = Some t -> tasks w !! t = Some tk -> task_dead tk = true ->
  wp (ClearRelease t (w <| updateTasks ::= swap_remove (updateIterator w) |>)) (fun w' => settled w' /\ updateIterator w' = updateIterator w /\ updateTasks w ≡ₚ t :: updateTasks w').
Proof.
  intros S Ei Et Hd. pose proof (swap_remove_perm _ _ _ Ei) as Hperm. rewrite (ClearRelease_frees t _ tk); [|done|by apply (k_ref _ (st_kept _ _ S) t)].
  split_and!; [|done|done]. by apply (drop_task_settled t w tk).
Qed.

Lemma sweep_settled (n : nat) (w : World) : settled w -> wp (sweep n w) settled.
Proof.
  revert w. induction n as [|n IH]; intros w S; [done|]. cbn [sweep]. destruct (updateTasks w !! updateIterator w) as [t|] eqn:Ei; [|done].
  destruct (proj2 (g_queue _ (proj1 (st_wf _ _ S))) t) as (tk & Et & _); [by apply list_elem_of_lookup_2 in Ei|].
  apply wp_bind, (wp_deref _ _ tk); [done|]. destruct (task_dead tk) eqn:Hd; [|done].
  apply wp_bind. eapply wp_mono; [by apply (free_task_settled t w tk)|]. cbn. intros w1 (S1 & _). by apply IH.
Qed.

Lemma visit_ok (v : visit) (t : Z) (w : World) : settled w -> t ∈ updateTasks w -> wp (visit_task v t w) (fun w' => settled w' /\ evo ∅ w w').
Proof.
  intros S Hin. pose proof (st_wf _ _ S) as W. destruct (proj2 (g_queue _ (proj1 W)) t Hin) as (tk & Et & Hs).
  unfold visit_task. apply wp_bind, (wp_deref _ _ tk); [done|]. case_match.
  - unfold AbortTask. eapply wp_mono; [apply (wp_DequeueTask _ _ _ (fun _ => True) t false w tk); try done; apply hook_ok_post, runs_ok|].
    cbn. intros w' (W' & V' & _). split; [by apply (settled_evo ∅ w)|done].
  - assert (Hid : settled w /\ evo ∅ w w) by (split; [done|apply evo_refl]). destruct (task_type tk); try done; apply (settled_hook ∅ _ w (runs_ok _) S).
Qed.

Lemma iterator_settled (w : World) (i j : nat) : settled w -> settled (w <| updateIterator := i |>) /\ settled (w <| actionIterator := j |>).
Proof. intros S. split; apply (settled_fields ∅ w); try done; apply (wfx_frame ∅ w); try done; apply S. Qed.

Lemma update_loop_settled (n : nat) (vs : list visit) (w : World) : settled w -> wp (update_loop n vs w) settled.
Proof.
  revert vs w. induction n as [|n IH]; intros vs w S; [done|]. cbn [update_loop]. apply wp_bind. eapply wp_mono; [by apply sweep_settled|]. cbn. intros w1 S1.
  destruct (updateTasks w1 !! updateIterator w1) as [t|] eqn:Ei; [|done]. apply wp_bind.
  eapply wp_mono; [apply visit_ok; [done|by apply list_elem_of_lookup_2 in Ei]|]. cbn. intros w2 [S2 _]. apply IH. by apply (iterator_settled w2 (Datatypes.S (updateIterator w2)) O).
Qed.

Lemma Update_settled (rate : Z) (vs : list visit) (w : World) : settled w -> wp (Update rate vs w) settled.
Proof. intros S. unfold Update. apply update_loop_settled. case_decide; [by apply (iterator_settled w O O)|done]. Qed.

(** ** The idle task's update *)

Lemma next_of_spec (s : gset Z) (u v : Z) : next_of s u = Some v -> v ∈ s /\ u < v.
Proof.
  unfold next_of. intros E. rewrite <- elem_of_elements. revert v E. induction (elements s) as [|a l IH]; intros v E; [done|]. cbn in E.
  destruct (Z.ltb_spec u a).
  - destruct (foldr _ None l) as [m|] eqn:Em; simplify_eq.
    + destruct (Z.min_spec a m) as [[_ ->]|[_ ->]]; [split; [by constructor|done]|]. destruct (IH m eq_refl). split; [by constructor|done].
    + split; [by constructor|done].
  - destruct (IH v E). split; [by constructor|done].
Qed.

(** The units still to walk through. *)
Definition ahead (s : gset Z) (u : Z) : gset Z := filter (fun v => u <= v) s.

Lemma ahead_next (s s' : gset Z) (u v : Z) : u ∈ s -> s' ⊆ s -> u < v -> (size (ahead s' v) < size (ahead s u))%nat.
Proof.
  intros Hu Hs Hlt. apply subset_size. split.
  - unfold ahead. intros a. rewrite !elem_of_filter. intros [H1 H2]. split; [lia|set_solver].
  - intros Hin. assert (Ha : u ∈ ahead s u) by (apply elem_of_filter; split; [lia|done]). apply Hin in Ha. apply elem_of_filter in Ha as [? _]. lia.
Qed.

Lemma steady_ok (k : hook) : hook_ok k -> hook_ok (steady k).
Proof. intros Hk w W. unfold steady. apply wp_bind. eapply wp_mono; [by apply Hk|]. cbn. intros w' Hw'. by apply wp_require. Qed.

Lemma steady_upd (k : hook) (w w' : World) : steady k w = Val w' -> updateUnits w' = updateUnits w.
Proof. unfold steady. destruct (k w) as [v| |]; cbn; [|done|done]. unfold require. case_bool_decide; [|done]. by intros [= <-]. Qed.

(** An assignment erases no other unit from the set that is being walked through. *)
Definition erases (u : Z) (w w' : World) : Prop := updateUnits w ∖ {[u]} ⊆ updateUnits w'.

Lemma erases_refl (u : Z) (w w' : World) : updateUnits w' = updateUnits w -> erases u w w'.
Proof. unfold erases. intros ->. set_solver. Qed.

Lemma erases_trans (u : Z) (w1 w2 w3 : World) : erases u w1 w2 -> erases u w2 w3 -> erases u w1 w3.
Proof. unfold erases. set_solver. Qed.

(** Partial correctness: what holds of a value. *)
Lemma bind_Val_inv {A B} (m : out A) (f : A -> out B) (b : B) : m ≫= f = Val b -> exists a, m = Val a /\ f a = Val b.
Proof. destruct m; [|done|done]. eauto. Qed.

Ltac vals H := repeat match type of H with _ ≫= _ = Val _ => let a := fresh "v" in let E := fresh "E" in apply bind_Val_inv in H as (a & E & H) end.

Lemma with_task_upd (t : Z) (f : IUnitTask -> IUnitTask) (w w' : World) : with_task t f w = Val w' -> updateUnits w' = updateUnits w.
Proof. unfold with_task. intros H. vals H. by simplify_eq. Qed.

Lemma with_unit_upd (u : Z) (f : CCircuitUnit -> CCircuitUnit) (w w' : World) : with_unit u f w = Val w' -> updateUnits w' = updateUnits w.
Proof. unfold with_unit. intros H. vals H. by simplify_eq. Qed.

Lemma Clear_upd (u : Z) (w w' : World) : Clear u w = Val w' -> updateUnits w' = updateUnits w.
Proof. unfold Clear. intros H. vals H. destruct v0. by simplify_eq. Qed.

Lemma Idle_RemoveAssignee_erases (u : Z) (w w' : World) : Idle_RemoveAssignee u w = Val w' -> erases u w w'.
Proof.
  unfold Idle_RemoveAssignee, ClearAct. intros H. vals H. apply with_unit_upd in H. apply Clear_upd in E1. unfold erases. rewrite H, E1.
  destruct (decide (u ∈ units v)); simplify_eq; cbn; set_solver.
Qed.

Lemma anti_cap_upd (u p : Z) (w w' : World) : push_anti_cap u p w = Val w' -> updateUnits w' = updateUnits w.
Proof.
  unfold push_anti_cap. intros H. vals H. case_match; [|by simplify_eq]. unfold PushAct in H. vals H. apply with_unit_upd in H. rewrite H.
  unfold require in E0. case_match; simplify_eq. done.
Qed.

Lemma Base_AssignTo_erases (b : bool) (p t u : Z) (w w' : World) : Base_AssignTo b p t u w = Val w' -> erases u w w'.
Proof.
  unfold Base_AssignTo, SetTask. intros H. vals H. apply with_task_upd in E, E2. apply with_unit_upd in E1. apply anti_cap_upd in H. apply Idle_RemoveAssignee_erases in E0.
  unfold erases in *. rewrite H. assert (Et : updateUnits (try_unit b u v2) = updateUnits v2) by (by destruct b). rewrite Et, E2, E1. rewrite E in E0. done.
Qed.

Lemma AssignTo_erases (k : hook) (b : bool) (p t u : Z) (w w' : World) : t <> idleTask w -> AssignTo (steady k) b p t u w = Val w' -> (exists tk, tasks w !! t = Some tk /\ serving tk = true) -> erases u w w'.
Proof.
  unfold AssignTo. intros _ H (tk & Et & Hs). unfold task_at, deref in H. rewrite Et in H. cbn in H. unfold serving in Hs.
  destruct (task_type tk); try done; [by apply Base_AssignTo_erases in H|vals H..].
  { apply with_task_upd in H. eapply erases_trans; [by apply Base_AssignTo_erases in E|by apply erases_refl]. }
  all: apply steady_upd in H; eapply erases_trans; [by apply Base_AssignTo_erases in E|by apply erases_refl].
Qed.

Lemma Start_erases (k : hook) (b : bool) (t u : Z) (w w' : World) : Start (steady k) b t u w = Val w' -> updateUnits w' = updateUnits w.
Proof.
  unfold Start. intros H. vals H. destruct (task_type v); try (by simplify_eq); try by apply steady_upd in H. simplify_eq. by destruct b.
Qed.

Lemma wp_vals {A} (m : out A) (P R : A -> Prop) : wp m P -> (forall a, m = Val a -> R a) -> wp m (fun a => P a /\ R a).
Proof. destruct m; cbn; auto. Qed.

(** A unit without work asks for it. *)
Lemma ask_settled (a : answer) (u : Z) (w : World) (x : CCircuitUnit) :
  settled w -> wunits w !! u = Some x -> utask x <> 0 -> wp (ask a u w) (fun w' => settled w' /\ evo ∅ w w' /\ erases u w w').
Proof.
  intros S Eu Hz. unfold ask. apply wp_bind. eapply wp_mono; [apply wp_vals; [apply (settled_hook ∅ _ w (steady_ok _ (runs_ok _)) S)|apply steady_upd]|].
  cbn. intros w1 [[S1 V1] U1]. destruct (evo_unit _ _ _ _ _ V1 Eu) as (x1 & Eu1 & Hz1). specialize (Hz1 Hz).
  assert (Hrest : forall w2 : World, settled w2 -> evo ∅ w w2 -> erases u w w2 -> wp (x ← unit_at u w2; Start (steady (runs (a_start a))) (a_throws' a) (utask x) u w2)
    (fun w' => settled w' /\ evo ∅ w w' /\ erases u w w')).
  { intros w2 S2 V2 R2. destruct (evo_unit _ _ _ _ _ V2 Eu) as (x2 & Eu2 & Hz2). specialize (Hz2 Hz). apply wp_bind, (wp_deref _ _ x2); [done|].
    pose proof (st_wf _ _ S2) as W2. eapply wp_mono; [apply wp_vals; [apply (wp_Start (steady (runs (a_start a))) (a_throws' a) (utask x2) u w2 W2);
      [by apply (g_live _ (proj1 W2) u)|eauto|apply steady_ok, runs_ok]|apply Start_erases]|].
    cbn. intros w3 [[W3 V3] U3]. split_and!; [by apply (settled_evo ∅ w2)|by eapply evo_trans|]. eapply erases_trans; [done|by apply erases_refl]. }
  apply wp_bind. destruct (a_task a) as [t|].
  - apply wp_bind, wp_require. intros [Hr Hi]%andb_true_iff. apply assignable_spec in Hr as ((y & Ey & _ & _) & Hg & Ht). assert (y = x1) as -> by congruence.
    unfold in_idle in Hi. rewrite Eu1 in Hi. bools. destruct Ht as (tk & Et & Hs & Hd). pose proof (st_wf _ _ S1) as W1.
    destruct (serving_idle w1 t tk (proj1 W1) Et Hs) as (Hti & _).
    eapply wp_mono; [apply wp_vals; [apply (wp_AssignTo (steady (runs (a_after a))) (a_throws a) (a_act a) t u w1); [by apply (wfx_mono ∅)| |by exists tk|apply steady_ok, runs_ok]|]|].
    + exists x1. split_and!; try done. by apply (idle_unassigned w1 u x1).
    + intros w2 Hv. by apply (AssignTo_erases (runs (a_after a)) (a_throws a) (a_act a) t u w1 w2 Hti Hv (ex_intro _ tk (conj Et Hs))).
    + cbn. intros w2 [[W2 V2] U2]. apply Hrest; [by apply (settled_evo ∅ w1)|by eapply evo_trans|]. eapply erases_trans; [by apply erases_refl|done].
  - cbn. apply Hrest; [done|done|by apply erases_refl].
Qed.

Lemma walk_settled (w : World) (s : gset Z) : settled w -> s ⊆ updateUnits w -> settled (w <| updateUnits := s |>).
Proof. intros S Hs. apply (settled_fields ∅ w); try done. apply update_wfx; [apply S|done]. Qed.

Lemma idle_loop_settled (fuel : nat) (it : option Z) (i : Z) (ans : list answer) (w : World) :
  settled w -> (forall u, it = Some u -> u ∈ updateUnits w /\ (size (ahead (updateUnits w) u) <= fuel)%nat) -> wp (idle_loop fuel it i ans w) settled.
Proof.
  revert it i ans w. induction fuel as [|fuel IH]; intros it i ans w S Hit; (destruct it as [u|]; [|done]); destruct (Hit u eq_refl) as [Hu Hsz].
  { exfalso. assert (Ha : u ∈ ahead (updateUnits w) u) by (apply elem_of_filter; split; [lia|done]). apply (size_non_empty_iff (ahead (updateUnits w) u)); [set_solver|lia]. }
  cbn [idle_loop]. rewrite decide_False by (intros Hn; contradiction). pose proof (st_wf _ _ S) as W. destruct (g_idle _ (proj1 W)) as (ik & Ei & Ti & _).
  assert (Hui : u ∈ units ik) by (by apply (g_update _ (proj1 W) ik Ei)). destruct (g_members _ (proj1 W) _ ik u Ei Hui) as [x Eu].
  assert (Tu : utask x = idleTask w) by (by apply (p_only w u (proj2 W u ltac:(set_solver)) _ ik x)).
  destruct (idle_task w ik (proj1 W) Ei) as (_ & _ & Hz & _). unfold unit_at at 1. apply wp_bind, (wp_deref _ _ x); [done|].
  destruct (lastFrame w <? taskFrame x + 20).
  - apply IH; [done|]. intros v Hv. destruct (next_of_spec _ _ _ Hv) as [Hin Hlt]. split; [done|].
    pose proof (ahead_next (updateUnits w) (updateUnits w) u v Hu ltac:(done) Hlt). lia.
  - set (w1 := w <| updateUnits ::= fun s => s ∖ {[u]} |>). assert (S1 : settled w1) by (apply walk_settled; [done|set_solver]).
    apply wp_bind. eapply wp_mono; [apply (ask_settled _ u w1 x S1 Eu); congruence|]. cbn. intros w2 (S2 & V2 & R2). case_match; [done|]. apply IH; [done|].
    intros v Hv. destruct (next_of_spec _ _ _ Hv) as [Hin Hlt]. pose proof (e_update _ _ _ V2) as Hsub. cbn in Hsub. unfold erases in R2. cbn in R2. split.
    + apply R2. set_solver by lia.
    + pose proof (ahead_next (updateUnits w) (updateUnits w2) u v Hu ltac:(set_solver) Hlt). lia.
Qed.

Lemma UpdateIdle_settled (rate : Z) (ans : list answer) (w : World) : settled w -> wp (UpdateIdle rate ans w) settled.
Proof.
  intros S. pose proof (st_wf _ _ S) as W. destruct (g_idle _ (proj1 W)) as (ik & Ei & Ti & Di). unfold UpdateIdle. apply wp_bind, (wp_deref _ _ ik); [done|].
  set (w1 := if decide (updateUnits w = ∅) then _ else w). assert (S1 : settled w1).
  { unfold w1. case_decide; [|done]. apply (settled_fields ∅ w); try done. pose proof W as [[Gi Gn Gt Gl Gm Gu Gq Ga Gg] Hp].
    split; [split; cbn; try done|intros u Hu; destruct (Hp u Hu); by split]. intros k Ek. by simplify_eq. }
  apply idle_loop_settled; [done|]. intros u Hu. split; [by apply first_of_in|]. unfold ahead. apply Nat.lt_le_incl, le_n_S.
  apply subseteq_size. intros a [_ Ha]%elem_of_filter. done.
Qed.

(** ** Actions *)

(** The unit's actions move on; none is added, freed or given away. *)
Lemma acts_wf (w : World) (u : Z) (x : CCircuitUnit) (l : CActionList) (h : gmap Z IAction) :
  wf w -> wunits w !! u = Some x -> actions l = actions (acts x) ->
  (forall p a, acts_heap w !! p = Some a -> exists a', h !! p = Some a' /\ ownerList a' = ownerList a) ->
  wf ((put_unit u (x <| acts := l |>) w) <| acts_heap := h |>).
Proof.
  intros [G Hp] Eu Hl Hh. destruct G as [Gi Gn Gt Gl Gm Gu Gq Ga Gg].
  assert (Hk : forall v y, <[u := x <| acts := l |>]> (wunits w) !! v = Some y -> exists y0, wunits w !! v = Some y0 /\ utask y = utask y0 /\
    actions (acts y) = actions (acts y0) /\ dgunAct y = dgunAct y0 /\ travelAct y = travelAct y0).
  { intros v y [[<- <-]|[Hne Ey]]%lookup_insert_Some; [exists x; done|exists y; done]. }
  assert (Hk' : forall v y, wunits w !! v = Some y -> exists y', <[u := x <| acts := l |>]> (wunits w) !! v = Some y' /\ utask y' = utask y).
  { intros v y Ey. destruct (decide (u = v)) as [<-|Hne]; [rewrite lookup_insert_eq; eexists; split; [done|]; cbn; congruence|rewrite lookup_insert_ne; eauto]. }
  split; [split; cbn; try done|].
  - intros v y Ey Hz. destruct (Hk v y Ey) as (y0 & E0 & Ty & _). rewrite Ty in *. by apply (Gl v).
  - intros t tk v Et Hv. destruct (Gm t tk v Et Hv) as [y Ey]. destruct (Hk' v y Ey) as (y' & Ey' & _). eauto.
  - intros v y Ey. destruct (Hk v y Ey) as (y0 & E0 & _ & Ay & _). rewrite Ay. destruct (Ga v y0 E0) as [Hnd Hy]. split; [done|].
    intros p Hq. destruct (Hy p Hq) as (a & Ea & Ho). destruct (Hh p a Ea) as (a' & Ea' & Ho'). exists a'. split; [done|congruence].
  - intros v Hv. destruct (Gg v Hv) as (y & Ey & Hy). destruct (Hk' v y Ey) as (y' & Ey' & Ty). exists y'. split; [done|congruence].
  - intros v Hv. destruct (Hp v Hv) as [P1 P2 P3 P4]. split; cbn.
    + intros y Ey Hz. destruct (Hk v y Ey) as (y0 & E0 & Ty & _). rewrite Ty in *. by apply P1.
    + intros t tk y Et Hin Ey. destruct (Hk v y Ey) as (y0 & E0 & Ty & _). rewrite Ty. by eapply P2.
    + intros y p Ey. destruct (Hk v y Ey) as (y0 & E0 & Ty & Ay & Dy & Ry). rewrite Ty, Ay, Dy, Ry. by apply P3.
    + intros y Ey. destruct (Hk v y Ey) as (y0 & E0 & Ty & Ay & Dy & Ry). rewrite Ty, Dy, Ry. by apply P4.
Qed.

Lemma update_unit_settled (au : Z -> IAction -> bool * ActState) (thr : Z -> bool) (u : Z) (w : World) (x : CCircuitUnit) :
  settled w -> wunits w !! u = Some x -> utask x <> 0 ->
  wp (update_unit au thr u w) (fun w' => settled w' /\ actionUnits w' = actionUnits w /\ actionIterator w' = actionIterator w).
Proof.
  intros S Eu Hz. pose proof (st_wf _ _ S) as W. destruct (g_acts _ (proj1 W) u x Eu) as [Hnd Hin].
  unfold update_unit. apply wp_bind, (wp_deref _ _ x); [done|]. apply wp_bind. unfold ActUpdate. apply wp_bind.
  eapply wp_mono; [apply act_loop_spec; [done|]|]. { intros p Hp. destruct (Hin p Hp) as (a & Ea & _). eauto. }
  intros [h b] (pre & suf & _ & _ & _ & _ & Hh). cbn in Hh. cbn [wp mbind out_bind].
  set (w1 := (put_unit u (x <| acts := (acts x) <| blocker := b |> |>) w) <| acts_heap := h |>).
  assert (W1 : wf w1).
  { apply acts_wf; [done|done|done|]. intros p a Ea. rewrite Hh, Ea. case_decide; [|eauto]. cbn. eexists. split; [done|].
    unfold after_update, act_upd, OnEnd. repeat case_match; done. }
  assert (S1 : settled w1).
  { apply (settled_evo ∅ w); [done|done|]. eapply evo_trans; [|apply evo_heap]. apply (evo_put_unit _ _ _ x); cbn; auto. }
  destruct (thr u); [|done]. split_and!; try done. apply (settled_fields ∅ w1); try done. apply garbage_wfx; [apply S1|]. cbn. rewrite lookup_insert_eq. eauto.
Qed.

(** A dead unit is freed: nothing points to it any more. *)
Lemma delete_unit_settled (u : Z) (w : World) (x : CCircuitUnit) :
  settled w -> actionUnits w !! actionIterator w = Some u -> wunits w !! u = Some x -> unit_dead x = true ->
  wp (DeleteTeamUnit u (w <| actionUnits ::= swap_remove (actionIterator w) |>))
     (fun w' => settled w' /\ actionIterator w' = actionIterator w /\ actionUnits w ≡ₚ u :: actionUnits w').
Proof.
  intros S Ei Eu Hd. pose proof (swap_remove_perm _ _ _ Ei) as Hperm. set (q := swap_remove (actionIterator w) (actionUnits w)) in *.
  pose proof S as [W Sd Sg Sa Su [Sc1 Sc2] St [Kp Kr Kq Kl]]. pose proof (Su u x Eu Hd) as Hg. rewrite Hperm in Sc1. apply NoDup_cons in Sc1 as [Hnq Hnd].
  set (w0 := w <| actionUnits := q |> <| garbage ::= fun s => s ∖ {[u]} |>).
  assert (W0 : wf w0) by (apply (wfx_frame ∅ w); try done; cbn; set_solver).
  unfold DeleteTeamUnit. apply wp_bind, (wp_Clear _ _ x); [apply W0|done|]. cbn [wp]. split_and!; [|done|done].
  assert (Wc : wfx {[u]} (cleared u x w0)) by (apply cleared_wfx; [by apply (wfx_mono ∅)|done|by apply elem_of_singleton_2]).
  destruct Wc as [[Ci Cn Ct Cl Cm Cu Cq Ca Cg] Cp].
  assert (Hne : forall v y, wunits w !! v = Some y -> v <> u -> base.delete u (<[u := x <| acts ::= fun l => l <| actions := [] |> |>]> (wunits w)) !! v = Some y).
  { intros v y Ey Hv. by rewrite lookup_delete_ne, lookup_insert_ne. }
  assert (Hback : forall v y, base.delete u (<[u := x <| acts ::= fun l => l <| actions := [] |> |>]> (wunits w)) !! v = Some y -> v <> u /\ wunits w !! v = Some y).
  { intros v y [Hv Ey]%lookup_delete_Some. rewrite lookup_insert_ne in Ey by done. done. }
  split; cbn; try done.
  - split; [split|]; cbn; try done.
    + intros v y [Hv Ey]%Hback. by apply (g_live _ (proj1 W) v).
    + intros t tk v Et Hv. destruct (g_members _ (proj1 W) t tk v Et Hv) as [y Ey]. exists y. apply Hne; [done|]. intros ->. by apply (Sg u t tk Hg ltac:(set_solver) Et).
    + intros v y [Hv Ey]%Hback. specialize (Ca v y). cbn in Ca. rewrite lookup_insert_ne in Ca by done. by apply Ca.
    + intros v [Hv Hn]%elem_of_difference. destruct (g_garbage _ (proj1 W) v Hv) as (y & Ey & Hy). exists y. split; [|done]. apply Hne; [done|]. set_solver.
    + intros v _. destruct (decide (v = u)) as [->|Hv].
      * split; cbn; rewrite lookup_delete_eq; done.
      * destruct (Cp v ltac:(set_solver)) as [P1 P2 P3 P4]. cbn in P1, P2, P3, P4. split; cbn; rewrite lookup_delete_ne by done; try done.
        intros y Ey Hz. destruct (P1 y Ey Hz) as (tk & Et & Hk). exists tk. split; [done|]. set_solver.
  - intros v t tk [Hv _]%elem_of_difference. by apply (Sg v t tk).
  - intros v [Hv Hn]%elem_of_difference. destruct (Sa v Hv) as (y & Ey & Hy). exists y. split; [|done]. apply Hne; [done|]. set_solver.
  - intros v y [Hv Ey]%Hback Hdd. specialize (Su v y Ey Hdd). set_solver.
  - split; [done|]. intros v Hv. destruct (Sc2 v) as (y & Ey & Hy); [rewrite Hperm; by constructor|]. exists y. split; [|done]. apply Hne; [done|]. intros ->. contradiction.
  - intros i v Hi. destruct (St i v Hi) as (y & Ey & Hy & Hyd). exists y. split; [|done]. apply Hne; [done|]. intros ->. congruence.
  - split; try done. cbn. intros v y [Hv Ey]%Hback Hz. specialize (Kl v y Ey Hz). rewrite Hperm in Kl. apply elem_of_cons in Kl as [->|Hq]; done.
Qed.

Lemma actions_loop_settled (fuel n : nat) (au : Z -> IAction -> bool * ActState) (thr : Z -> bool) (w : World) :
  settled w -> (length (actionUnits w) <= fuel + actionIterator w)%nat -> wp (actions_loop fuel n au thr w) settled.
Proof.
  revert n w. induction fuel as [|fuel IH]; intros n w S Hf.
  { cbn [actions_loop]. rewrite lookup_ge_None_2 by lia. by destruct n. }
  cbn [actions_loop]. destruct n as [|n]; [done|]. destruct (actionUnits w !! actionIterator w) as [u|] eqn:Ei; [|done].
  destruct (proj2 (st_action _ _ S) u) as (x & Eu & Hz); [by apply list_elem_of_lookup_2 in Ei|]. pose proof (lookup_lt_Some _ _ _ Ei) as Hlt.
  apply wp_bind, (wp_deref _ _ x); [done|]. destruct (unit_dead x) eqn:Hd.
  - apply wp_bind. eapply wp_mono; [by apply (delete_unit_settled u w x)|]. cbn. intros w1 (S1 & I1 & Hp). apply Permutation_length in Hp. cbn in Hp. apply IH; [done|]. rewrite I1. lia.
  - destruct (g_live _ (proj1 (st_wf _ _ S)) u x Eu Hz) as [tk Et]. apply wp_bind, (wp_deref _ _ tk); [done|].
    assert (Hu : wp (w ← update_unit au thr u w; actions_loop fuel n au thr (w <| actionIterator ::= Datatypes.S |>)) settled).
    { apply wp_bind. eapply wp_mono; [by apply (update_unit_settled au thr u w x)|]. cbn. intros w1 (S1 & A1 & I1).
      apply IH; [by apply (iterator_settled w1 O (Datatypes.S (actionIterator w1)))|cbn; rewrite A1, I1; lia]. }
    destruct (task_type tk); try exact Hu. apply IH; [by apply (iterator_settled w O (Datatypes.S (actionIterator w)))|cbn; lia].
Qed.

Lemma UpdateActions_settled (au : Z -> IAction -> bool * ActState) (thr : Z -> bool) (w : World) : settled w -> wp (UpdateActions au thr w) settled.
Proof.
  intros S. unfold UpdateActions. case_decide; [apply actions_loop_settled; [by apply (iterator_settled w O O)|cbn; lia]|apply actions_loop_settled; [done|lia]].
Qed.

(** ** The player *)

Lemma exec_settled (c : call) (k1 k2 k3 k4 : hook) (w : World) : hook_ok k1 -> hook_ok k2 -> hook_ok k3 -> hook_ok k4 -> settled w -> wp (exec c k1 k2 k3 k4 w) settled.
Proof. intros H1 H2 H3 H4 S. eapply wp_mono; [apply (settled_hook ∅ _ w (exec_ok c _ _ _ _ H1 H2 H3 H4) S)|]. cbn. tauto. Qed.

Lemma PlayerCommand_settled (k1 k2 : hook) (throws : Z -> bool) (p : Z -> Z) (us : list Z) (w : World) :
  hook_ok k1 -> hook_ok k2 -> settled w -> wp (PlayerCommand k1 k2 throws p us w) settled.
Proof.
  intros H1 H2 S. apply (wp_each _ (fun _ => settled)); [|done]. intros u _ w1 S1. destruct (u =? 0); [done|]. apply wp_bind, wp_require. intros (x & Eu & Hz)%owned_unit.
  apply wp_bind, (wp_deref _ _ x); [done|]. destruct (g_live _ (proj1 (st_wf _ _ S1)) u x Eu Hz) as [tk Et]. apply wp_bind, (wp_deref _ _ tk); [done|].
  destruct (task_type tk); try done; by apply exec_settled.
Qed.

Lemma UnitControl_settled (k1 k2 : hook) (throws : bool) (p t u : Z) (isEnable : bool) (w : World) :
  hook_ok k1 -> hook_ok k2 -> settled w -> wp (UnitControl k1 k2 throws p t u isEnable w) (fun r => settled r.2).
Proof.
  intros H1 H2 S. unfold UnitControl. destruct (u =? 0); [done|]. apply wp_bind, wp_require. intros (x & Eu & Hz)%owned_unit.
  apply wp_bind, (wp_deref _ _ x); [done|]. destruct (g_live _ (proj1 (st_wf _ _ S)) u x Eu Hz) as [tk Et]. apply wp_bind, (wp_deref _ _ tk); [done|].
  destruct isEnable.
  - destruct (task_type tk); try done. apply wp_bind. eapply wp_mono; [by apply exec_settled|]. done.
  - apply wp_bind. eapply wp_mono; [by apply exec_settled|]. intros w1 S1. apply wp_bind. eapply wp_mono; [by apply exec_settled|]. done.
Qed.

(** * Every event *)

Lemma event_settled (rate : Z) (e : event) (w : World) : settled w -> wp (event_step rate e w) settled.
Proof.
  intros S. destruct e as [f|u id d m p|id|id f|o|us h1 h2 thr p|id t p h1 h2 thr en|f|vs|ans|au thr|ids fs]; cbn [event_step].
  - apply (settled_fields ∅ w); try done. apply (wfx_frame ∅ w); try done. apply S.
  - apply wp_bind. eapply wp_mono; [by apply GetOrReg_settled|]. intros [v w1] [S1 E1]. cbn in S1, E1. apply wp_bind, wp_require. intros _. by apply created_settled.
  - destruct (GetTeamUnit w id) as [u|]; [|done]. apply wp_bind, wp_require. intros Hu. by apply finished_settled.
  - destruct (GetTeamUnit w id) as [u|]; [|done]. apply wp_bind, wp_require. intros Hu%owned_unit. apply wp_bind.
    eapply wp_mono; [by apply destroyed_settled|]. cbn. intros w1 (S1 & G1 & _). by apply unregister_settled.
  - eapply wp_mono; [apply (settled_hook ∅ _ w (run_op_ok o) S)|]. cbn. tauto.
  - apply PlayerCommand_settled; [apply runs_ok|apply runs_ok|done].
  - apply wp_bind. eapply wp_mono; [apply UnitControl_settled; [apply runs_ok|apply runs_ok|done]|]. by intros [b w1].
  - by apply garbage_settled.
  - by apply Update_settled.
  - by apply UpdateIdle_settled.
  - by apply UpdateActions_settled.
  - by apply GiveUnits_settled.
Qed.

Lemma events_settled (rate : Z) (es : list event) (w : World) : settled w -> wp (events rate es w) settled.
Proof. intros S. apply (wp_each _ (fun _ => settled)); [|done]. intros e _ w' S'. by apply event_settled. Qed.

Lemma new_settled (frame : Z) (antiCap : bool) (n i p : Z) : NoDup [0; n; i; p] -> settled (World_new frame antiCap n i p).
Proof.
  intros Hnd. assert (Hne : n <> i /\ n <> p /\ i <> p /\ n <> 0 /\ i <> 0 /\ p <> 0).
  { rewrite !NoDup_cons in Hnd. repeat setoid_rewrite elem_of_cons in Hnd. split_and!; intros ->; tauto. }
  destruct Hne as (H1 & H2 & H3 & H4 & H5 & H6).
  assert (T : forall t tk, tasks (World_new frame antiCap n i p) !! t = Some tk -> units tk = ∅ /\ task_dead tk = false /\ t <> 0 /\ (task_type tk = IDLE -> t = i) /\ (task_type tk = NIL -> t = n) /\ refCount tk = 1 /\ is_special (task_type tk) = true).
  { intros t tk. cbn. intros [[<- <-]|[_ [[<- <-]|[_ [<- <-]%lookup_singleton_Some]]%lookup_insert_Some]]%lookup_insert_Some; cbn; done. }
  split; try done.
  - split; [split; try done|].
    + eexists. cbn. rewrite lookup_insert_ne, lookup_insert_eq by done. done.
    + eexists. cbn. rewrite lookup_insert_eq. done.
    + intros t tk Et. destruct (T t tk Et) as (Hu & _ & Hz & Hi & Hn & _). split_and!; auto.
    + intros t tk u Et Hu. destruct (T t tk Et) as (E & _). set_solver.
    + cbn. split; [constructor|]. intros t Ht. by apply elem_of_nil in Ht.
    + intros u _. by split.
  - intros t tk Et. by destruct (T t tk Et) as (_ & -> & _).
  - cbn. split; [constructor|]. intros u Hu. by apply elem_of_nil in Hu.
  - split; try done.
    + eexists. cbn. rewrite !lookup_insert_ne, lookup_singleton_eq by done. done.
    + intros t tk Et. by apply (T t tk).
    + intros t tk Et. by destruct (T t tk Et) as (_ & _ & _ & _ & _ & _ & ->).
Qed.

(** * The property *)

(** Units are placed, tasks are clean, shortcuts are sound. *)
Definition in_order (w : World) : Prop :=
  (* a unit that exists and has a task is in the set of that task and of no other, the idle task's only
     if it was not destroyed, and no set names a unit that does not exist *)
  (forall u x, wunits w !! u = Some x -> utask x <> 0 -> exists tk, tasks w !! utask x = Some tk /\
     (u ∈ units tk \/ task_type tk = NIL \/ (task_type tk = IDLE /\ u ∈ gone w))) /\
  (forall t tk u, tasks w !! t = Some tk -> u ∈ units tk -> exists x, wunits w !! u = Some x /\ utask x = t /\ u ∉ gone w) /\
  (* a task that was ended holds no unit *)
  (forall t tk, tasks w !! t = Some tk -> task_dead tk = true -> units tk = ∅) /\
  (* the shortcuts of a unit that is not idle lead to actions it has *)
  (forall u x p, wunits w !! u = Some x -> utask x <> idleTask w -> dgunAct x = Some p \/ travelAct x = Some p -> p ∈ actions (acts x)) /\
  (* an action belongs to one unit *)
  (forall u v x y p, wunits w !! u = Some x -> wunits w !! v = Some y -> p ∈ actions (acts x) -> p ∈ actions (acts y) -> u = v) /\
  (* the engine's identifiers lead to units that are alive *)
  (forall id u, teamUnits w !! id = Some u -> exists x, wunits w !! u = Some x /\ unit_id x = id /\ unit_dead x = false).

Lemma settled_order (w : World) : settled w -> in_order w.
Proof.
  intros [[G P] Sd Sg Sa Su Sc St]. assert (P' : forall u, placed w u) by (intros u; apply P; set_solver). split_and!; try done.
  - intros u x Eu Hz. by apply (p_has w u (P' u)).
  - intros t tk u Et Hu. destruct (g_members _ G t tk u Et Hu) as [x Eu]. exists x. split_and!; [done|by apply (p_only w u (P' u) t tk x)|]. intros Hg. by apply (Sg u t tk Hg ltac:(set_solver) Et).
  - intros u x p Eu. by apply (p_ptrs w u (P' u)).
  - intros u v x y p Eu Ev Hx Hy. destruct (g_acts _ G u x Eu) as [_ Hu]. destruct (g_acts _ G v y Ev) as [_ Hv].
    destruct (Hu p Hx) as (a & Ea & Ho). destruct (Hv p Hy) as (b & Eb & Ho'). congruence.
Qed.


(** A unit is created, finished, put to work by [MakeTask], given to a wait task, and destroyed; its
    first task runs out, both are freed. *)
Definition demo_life : list event :=
  [ ECreated 100 7 3 true 0; EFinished 7; EFrame 40;
    EIdle [{| a_make := [Op (CEnqueue 11 P_NORMAL BUILDER 300) [] [] [] []]; a_task := Some 11; a_throws := false; a_act := 0;
              a_after := [Op (CPushTravel 100 500 T_MOVE) [] [] [] []]; a_throws' := false; a_start := [] |}];
    ECall (Op (CEnqueue 12 P_NORMAL WAIT 60) [] [] [] []);
    ECall (Op (CAssign 100 12 false false 0) [Op (CDequeue 11 true) [] [] [] []] [] [] []);
    EUpdate []; EDestroyed 7 no_farewell; EUpdate []; EUpdate []; EUpdate []; EActions (fun _ a => (isBlocking a, act_state a)) (fun _ => false) ].


(** * What the model shows *)

(** A unit whose order failed is in the garbage; when the engine then reports its destruction, the next
    frame takes it out of the garbage and unregisters it again: its definition is counted down twice. *)
Lemma counted_twice :
  exists w, events 15 [ECreated 100 7 3 true 0; EFinished 7; ECall (Op (CGarbage 100) [] [] [] []); EDestroyed 7 no_farewell; EGarbage no_farewell] (World_new 0 false 1 2 3) = Val w /\
    teamUnits w = ∅ /\ defCount w !! 3 = Some (-1).
Proof. eexists. split; [vm_compute; reflexivity|]. vm_compute. auto. Qed.

(** [Clear] leaves the [blocker]: after the unit has left its task, it still names the freed action. *)
Lemma blocker_dangles :
  exists w x, events 15 [ECreated 100 7 3 true 0; EFinished 7; ECall (Op (CEnqueue 11 P_NORMAL FIGHTER 0) [] [] [] []); ECall (Op (CTake 100 11 false false 0) [Op (CPushDGun 100 500) [] [] [] []] [] [] []);
      EActions (fun _ a => (true, act_state a)) (fun _ => false); ECall (Op (CEnqueue 12 P_NORMAL RETREAT 0) [] [] [] []); ECall (Op (CAssign 100 12 false false 0) [] [] [] [])]
    (World_new 0 false 1 2 3) = Val w /\
    wunits w !! 100 = Some x /\ utask x = 12 /\ blocker (acts x) = Some 500 /\ acts_heap w !! 500 = None.
Proof. eexists _, _. split; [vm_compute; reflexivity|]. vm_compute. auto. Qed.

(** The player task [UnitControl] makes is in no list that would free it. *)
Lemma player_task_leaks :
  exists w, events 15 [ECreated 100 7 3 true 0; EFinished 7; EControl 7 11 0 [] [] false false; EControl 7 0 0 [] [] false true] (World_new 0 false 1 2 3) = Val w /\
    is_Some (tasks w !! 11) /\ playerTask w = 3 /\ updateTasks w = [].
Proof. eexists. split; [vm_compute; reflexivity|]. vm_compute. eauto. Qed.
