(* ===== verification/TaskFairness.v ===== *)
(** The staggered update of a module leaves no task out (module/TaskModule.cpp).

    [Update] handles only a share of the tasks each time and goes on from there, while
    dead tasks are replaced by the last of the vector.  [reached] lists, beside the run, the tasks
    the scan comes to: it updates them, aborts them when their time is out, or frees them when
    they are dead. *)

From S2P Require Import Prelude Outcome ActionList Tasks TaskInv TaskOps TaskCalls TaskEvents TaskSafety.

Fixpoint sweep_log (fuel : nat) (w : World) : list Z :=
  match fuel with
  | O => []
  | S fuel =>
      match updateTasks w !! updateIterator w with
      | None => []
      | Some t =>
          match task_at t w with
          | Val tk =>
              if task_dead tk then t :: match ClearRelease t (w <| updateTasks ::= swap_remove (updateIterator w) |>) with Val w' => sweep_log fuel w' | _ => [] end
              else []
          | _ => []
          end
      end
  end.

Fixpoint loop_log (n : nat) (vs : list visit) (w : World) : list Z :=
  match n with
  | O => []
  | S n =>
      sweep_log (length (updateTasks w)) w ++
      match sweep (length (updateTasks w)) w with
      | Val w =>
          match updateTasks w !! updateIterator w with
          | None => []
          | Some t => t :: match visit_task (default no_visit (head vs)) t w with Val w => loop_log n (tail vs) (w <| updateIterator ::= S |>) | _ => [] end
          end
      | _ => []
      end
  end.

(** [Update] starts over at the end. *)
Definition restart (w : World) : World := if decide (length (updateTasks w) <= updateIterator w)%nat then w <| updateIterator := O |> else w.
Definition share (rate : Z) (w : World) : nat := Z.to_nat (size_of (updateTasks w) / rate) + 1.

Fixpoint updates (rate : Z) (vss : list (list visit)) (w : World) : out World :=
  match vss with [] => Val w | vs :: vss => w ← Update rate vs w; updates rate vss w end.

Fixpoint reached (rate : Z) (vss : list (list visit)) (w : World) : list Z :=
  match vss with
  | [] => []
  | vs :: vss => loop_log (share rate (restart w)) vs (restart w) ++ match Update rate vs w with Val w => reached rate vss w | _ => [] end
  end.

Lemma Update_unfold (rate : Z) (vs : list visit) (w : World) : Update rate vs w = update_loop (share rate (restart w)) vs (restart w).
Proof. done. Qed.

(** What the scan has yet to come to. *)
Definition pending (w : World) : list Z := drop (updateIterator w) (updateTasks w).

Lemma swap_remove_pending (l : list Z) (i : nat) (a t : Z) : l !! i = Some a -> t ∈ drop i l -> t = a \/ t ∈ drop i (swap_remove i l).
Proof.
  intros Ha Ht. pose proof (lookup_lt_Some _ _ _ Ha) as Hlt.
  assert (Htake : take i (swap_remove i l) = take i l).
  { unfold swap_remove. destruct l as [|b l' _] using rev_ind; [done|]. rewrite last_snoc. rewrite length_app in Hlt. cbn in Hlt.
    destruct (decide (i = length l')) as [->|Hne].
    - rewrite insert_app_r_alt by lia. rewrite Nat.sub_diag. cbn. rewrite removelast_last. by rewrite take_app_length, firstn_all.
    - rewrite insert_app_l by lia. rewrite removelast_last. rewrite take_insert_ge by lia. by rewrite take_app_le by lia. }
  assert (Hp : take i l ++ drop i l ≡ₚ a :: (take i l ++ drop i (swap_remove i l))).
  { rewrite <- Htake at 2. rewrite !take_drop. by apply swap_remove_perm. }
  rewrite Permutation_middle in Hp. apply Permutation_app_inv_l in Hp. rewrite Hp in Ht. by apply elem_of_cons in Ht.
Qed.

(** One step of the scan over dead tasks loses none. *)
Lemma sweep_reach (n : nat) (w : World) :
  settled w -> wp (sweep n w) (fun w' => settled w' /\ updateIterator w' = updateIterator w /\ forall t, t ∈ pending w -> t ∈ sweep_log n w \/ t ∈ pending w').
Proof.
  revert w. induction n as [|n IH]; intros w S; cbn [sweep sweep_log]; [cbn; auto|]. destruct (updateTasks w !! updateIterator w) as [t|] eqn:Ei; [|cbn; auto].
  destruct (proj2 (g_queue _ (proj1 (st_wf _ _ S))) t) as (tk & Et & _); [by apply list_elem_of_lookup_2 in Ei|].
  unfold task_at, deref. rewrite Et. cbn [mbind out_bind]. destruct (task_dead tk) eqn:Hd; [|cbn; auto].
  pose proof (free_task_settled t w tk S Ei Et Hd) as F. destruct (ClearRelease t _) as [w1| |] eqn:Ec; cbn in F; [|done|done].
  destruct F as (S1 & I1 & _). cbn [mbind out_bind]. eapply wp_mono; [by apply IH|]. cbn. intros w2 (S2 & I2 & R2). split_and!; [done|congruence|].
  intros s Hs. destruct (swap_remove_pending _ _ _ s Ei Hs) as [->|Hs1]; [left; by constructor|].
  assert (Hq : updateTasks w1 = swap_remove (updateIterator w) (updateTasks w)).
  { unfold ClearRelease, Release_ in Ec. apply bind_Val_inv in Ec as (v & E1 & Ec). unfold with_task in E1. apply bind_Val_inv in E1 as (k & _ & E1). simplify_eq.
    apply bind_Val_inv in Ec as (k' & _ & Ec). destruct (refCount k' - 1 =? 0); by simplify_eq. }
  destruct (R2 s) as [Hl|Hl]; [unfold pending; by rewrite Hq, I1|left; by constructor|by right].
Qed.

(** One [Update]: what was ahead was reached or is still ahead; and the scan moved on by its share, or is at the end. *)
Lemma loop_reach (n : nat) (vs : list visit) (w : World) :
  settled w -> wp (update_loop n vs w) (fun w' => settled w' /\ (forall t, t ∈ pending w -> t ∈ loop_log n vs w \/ t ∈ pending w') /\
    (updateIterator w' = updateIterator w + n \/ length (updateTasks w') <= updateIterator w')%nat).
Proof.
  revert vs w. induction n as [|n IH]; intros vs w S; cbn [update_loop loop_log]; [cbn; split_and!; auto; left; lia|].
  pose proof (sweep_reach (length (updateTasks w)) w S) as W1. destruct (sweep (length (updateTasks w)) w) as [w1| |]; cbn in W1; [|done|done].
  destruct W1 as (S1 & I1 & R1). cbn [mbind out_bind]. destruct (updateTasks w1 !! updateIterator w1) as [t|] eqn:Ei.
  2: { cbn. rewrite app_nil_r. split_and!; auto. right. by apply lookup_ge_None_1 in Ei. }
  pose proof (visit_ok (default no_visit (head vs)) t w1 S1 ltac:(by apply list_elem_of_lookup_2 in Ei)) as V.
  destruct (visit_task _ t w1) as [w2| |]; cbn in V; [|done|done]. destruct V as [S2 V2]. cbn [mbind out_bind].
  set (w3 := w2 <| updateIterator ::= Datatypes.S |>). assert (S3 : settled w3) by (by apply (iterator_settled w2 (Datatypes.S (updateIterator w2)) O)).
  assert (I2 : updateIterator w2 = updateIterator w1) by (pose proof (e_consts _ _ _ V2) as C; unfold consts in C; by inversion C).
  destruct (e_queue _ _ _ V2) as [new Hq]. eapply wp_mono; [by apply IH|]. cbn. intros w4 (S4 & R4 & P4). split_and!; [done| |cbn in P4; lia].
  intros s Hs. destruct (R1 s Hs) as [Hl|Hl]; [left; set_solver|]. unfold pending in Hl. rewrite (drop_S _ _ _ Ei) in Hl. apply elem_of_cons in Hl as [->|Hl]; [left; set_solver|].
  destruct (R4 s) as [Hr|Hr]; [|left; set_solver|by right]. unfold pending, w3. cbn. rewrite I2, Hq. rewrite drop_app. set_solver.
Qed.

Lemma restart_settled (w : World) : settled w -> settled (restart w).
Proof. intros S. unfold restart. case_decide; [by apply (iterator_settled w O O)|done]. Qed.

(** What is pending is reached, or the scan has moved on by its shares. *)
Lemma reach_from (rate : Z) (vss : list (list visit)) (w w' : World) (t : Z) (c : nat) :
  settled w -> updates rate vss w = Val w' -> t ∈ pending w -> (forall j wj, updates rate (take j vss) w = Val wj -> (c <= share rate wj)%nat) ->
  t ∈ reached rate vss w \/ (t ∈ pending w' /\ updateIterator w + length vss * c <= updateIterator w')%nat.
Proof.
  revert w. induction vss as [|vs vss IH]; intros w S Hu Ht Hc; cbn in *; [simplify_eq; right; split; [done|lia]|].
  assert (Hr : restart w = w). { unfold restart. rewrite decide_False; [done|]. unfold pending in Ht. intros Hle. rewrite drop_ge in Ht by done. by apply elem_of_nil in Ht. }
  rewrite Hr in *. pose proof (loop_reach (share rate w) vs w S) as L. apply bind_Val_inv in Hu as (w1 & E1 & Hu). rewrite E1. rewrite Update_unfold, Hr in E1. rewrite E1 in L. cbn in L.
  destruct L as (S1 & R1 & P1). destruct (R1 t Ht) as [Hl|Hl]; [left; set_solver|].
  assert (Hit : (updateIterator w + c <= updateIterator w1)%nat).
  { destruct P1 as [P1|P1]; [pose proof (Hc 0%nat w eq_refl); lia|]. unfold pending in Hl. rewrite drop_ge in Hl by done. by apply elem_of_nil in Hl. }
  destruct (IH w1 S1 Hu Hl) as [Hx|[Hx Hy]]; [|left; set_solver|right; split; [done|lia]].
  intros j wj Hj. apply (Hc (Datatypes.S j) wj). cbn. rewrite Update_unfold, Hr, E1. done.
Qed.

(** C26. Every task a module has at the start of a round is reached within [rate] updates: updated,
    aborted when its time is out, or freed when it is dead, as long as the tasks do not become more;
    dead tasks that leave the vector on the way, moving others, make the scan miss none. *)
Theorem no_task_left_out (rate frame : Z) (antiCap : bool) (n i p : Z) (es : list event) (w w' : World) (vss : list (list visit)) (t : Z) :
  0 < rate -> NoDup [0; n; i; p] -> events rate es (World_new frame antiCap n i p) = Val w ->
  updateIterator w = O \/ (length (updateTasks w) <= updateIterator w)%nat ->
  length vss = Z.to_nat rate -> updates rate vss w = Val w' ->
  (forall j wj, updates rate (take j vss) w = Val wj -> (length (updateTasks w') <= length (updateTasks wj))%nat) ->
  t ∈ updateTasks w -> t ∈ reached rate vss w.
Proof.
  intros Hrate Hnd Hev Hit Hlen Hu Hsize Ht. pose proof (events_settled rate es _ (new_settled frame antiCap n i p Hnd)) as Hs. rewrite Hev in Hs. cbn in Hs.
  set (w0 := restart w). assert (S0 : settled w0) by (by apply restart_settled).
  assert (H0 : updateIterator w0 = O /\ updateTasks w0 = updateTasks w) by (unfold w0, restart; case_decide; [done|]; destruct Hit; [done|lia]).
  destruct H0 as [I0 Q0]. assert (Hw0 : forall vs vss, updates rate (vs :: vss) w0 = updates rate (vs :: vss) w /\ reached rate (vs :: vss) w0 = reached rate (vs :: vss) w).
  { intros vs vss'. assert (Hr : restart w0 = restart w). { unfold w0, restart. repeat case_decide; try done; destruct w; cbn in *; f_equal; lia. }
    cbn. rewrite !Update_unfold, Hr. done. }
  set (c := share rate w').
  assert (Hc : forall j wj, updates rate (take j vss) w0 = Val wj -> (c <= share rate wj)%nat).
  { intros j wj Hj. assert (Hle : (length (updateTasks w') <= length (updateTasks wj))%nat).
    { destruct (take j vss) as [|vs l] eqn:E; [cbn in Hj; simplify_eq; rewrite Q0; by apply (Hsize O w)|]. apply (Hsize j). rewrite E. by rewrite <- (proj1 (Hw0 vs l)). }
    unfold c, share, size_of. apply Nat.add_le_mono_r, Z2Nat.inj_le; [apply Z.div_pos; lia..|]. apply Z.div_le_mono; lia. }
  destruct vss as [|vs vss]; [cbn in Hlen; lia|]. rewrite <- (proj2 (Hw0 vs vss)). rewrite <- (proj1 (Hw0 vs vss)) in Hu.
  destruct (reach_from rate (vs :: vss) w0 w' t c S0 Hu) as [Hr|[Hp Hle]]; [unfold pending; by rewrite I0, Q0|exact Hc|done|].
  exfalso. rewrite Hlen, I0 in Hle. unfold pending in Hp. rewrite drop_ge in Hp; [by apply elem_of_nil in Hp|].
  unfold c, share, size_of in Hle. pose proof (Z.div_mod (Z.of_nat (length (updateTasks w'))) rate ltac:(lia)). pose proof (Z.mod_pos_bound (Z.of_nat (length (updateTasks w'))) rate Hrate).
  pose proof (Z.div_pos (Z.of_nat (length (updateTasks w'))) rate ltac:(lia) Hrate). nia.
Qed.

(** The value of a run that has one. *)
Definition val_of {A} (d : A) (m : out A) : A := match m with Val a => a | _ => d end.

(** Five tasks, the second dead. *)
Definition demo_queue : list event :=
  ((fun t => ECall (Op (CEnqueue t P_NORMAL BUILDER 300) [] [] [] [])) <$> [11; 12; 13; 14; 15]) ++ [ECall (Op (CDequeue 12 false) [] [] [] [])].

Lemma no_task_left_out_witness :
  let w0 := World_new 0 false 1 2 3 in
  let w := val_of w0 (events 2 demo_queue w0) in
  updateTasks w = [11; 12; 13; 14; 15] /\ 14 ∈ reached 2 [[]; []] w.
Proof.
  cbv zeta. split; [vm_compute; reflexivity|].
  refine (no_task_left_out 2 0 false 1 2 3 demo_queue _ (val_of (World_new 0 false 1 2 3) (updates 2 [[]; []] (val_of (World_new 0 false 1 2 3) (events 2 demo_queue (World_new 0 false 1 2 3)))))
    [[]; []] 14 _ _ _ _ _ _ _ _).
  - lia.
  - apply (bool_decide_unpack (NoDup [0; 1; 2; 3])). vm_compute. exact I.
  - vm_compute. reflexivity.
  - left. vm_compute. reflexivity.
  - reflexivity.
  - vm_compute. reflexivity.
  - intros j wj Hj. apply (f_equal (fun r => match r with Val v => length (updateTasks v) | _ => 0%nat end)) in Hj.
    cbv beta iota in Hj. rewrite <- Hj. destruct j as [|[|[|j]]]; vm_compute; repeat constructor.
  - apply (bool_decide_unpack (14 ∈ _)). vm_compute. exact I.
Defined.
