(* ===== verification/TaskRelease.v ===== *)
(** The end of the match ([CCircuitAI::Release], [ITaskModule::Release] and the
    destructors they run): what was allocated is freed, once.

    When the AI resigns its module aborts its tasks first.  A task that is made meanwhile
    would move the vector the loop runs over: not making one is in the contract of the
    callbacks here.  What the release does outside the tasks and units is left out. *)

From S2P Require Import Prelude Outcome ActionList Tasks TaskInv TaskOps TaskCalls TaskEvents TaskSafety.

(** [rs]: what [TaskRemoved] and [Cancel] of each task do. *)
Definition ITaskModule_Release (rs : Z -> list op * list op) (w : World) : out World :=
  let ts := updateTasks w in
  w ← each (fun t w => w ← AbortTask (runs (rs t).1) (runs (rs t).2) t w; require (bool_decide (updateTasks w = ts)) w) ts w;
  w ← each ClearRelease ts w;
  Val (w <| updateTasks := [] |>).

Definition delete_task (t : Z) (w : World) : out World := _ ← task_at t w; Val (w <| tasks ::= base.delete t |>).

(** [~ITaskModule]. *)
Definition ITaskModule_delete (w : World) : out World :=
  w ← delete_task (nilTask w) w; w ← delete_task (idleTask w) w; w ← delete_task (playerTask w) w;
  each ClearRelease (updateTasks w) w.

(** [~CCircuitUnit]: its base frees the actions. *)
Definition delete_unit (u : Z) (w : World) : out World := w ← Clear u w; Val (w <| wunits ::= base.delete u |>).

Definition delete_if_dead (u : Z) (w : World) : out World := x ← unit_at u w; if unit_dead x then delete_unit u w else Val w.

(** The units at the end of [CCircuitAI::Release]. *)
Definition release_units (w : World) : out World :=
  w ← each delete_if_dead (actionUnits w) w;
  let w := w <| actionUnits := [] |> in
  w ← each delete_unit (map_to_list (teamUnits w)).*2 w;
  Val (w <| teamUnits := ∅ |> <| garbage := ∅ |>).

(** [resign]: [reason == RELEASE_RESIGN]. *)
Definition CCircuitAI_Release (resign : bool) (rs : Z -> list op * list op) (w : World) : out World :=
  w ← (if resign then ITaskModule_Release rs w else Val w);
  w ← ITaskModule_delete w;
  release_units w.

(** * The tasks *)

(** Ending a dead task again is ending it. *)
Lemma Dequeue_idem (removed finish cancel : hook) (t : Z) (d : bool) (w : World) (tk : IUnitTask) :
  tasks w !! t = Some tk -> let tk1 := tk <| task_dead := true |> <| pathQueries := ∅ |> in
  DequeueTask removed finish cancel t d w = DequeueTask removed finish cancel t d (put_task t tk1 w).
Proof.
  intros Et tk1. unfold DequeueTask, Dead, with_task, task_at, deref. rewrite Et. cbn [tasks put_task set_field World_eta]. cbn. rewrite lookup_insert_eq. cbn.
  unfold put_task, set_field. cbn. by rewrite insert_insert_eq.
Qed.

(** An aborted task is dead. *)
Lemma abort_settled (h1 h2 : list op) (t : Z) (w : World) :
  settled w -> t ∈ updateTasks w ->
  wp (AbortTask (runs h1) (runs h2) t w) (fun w' => (settled w' /\ evo ∅ w w') /\ exists tk, tasks w' !! t = Some tk /\ task_dead tk = true).
Proof.
  intros S Hin. pose proof (st_wf _ _ S) as W. destruct (proj2 (g_queue _ (proj1 W)) t Hin) as (tk & Et & Hs).
  unfold AbortTask. apply wp_and.
  - eapply wp_mono; [apply (wp_DequeueTask _ _ _ (fun _ => True) t false w tk); try done; apply hook_ok_post, runs_ok|].
    cbn. intros w' (W' & V' & _). split; [by apply (settled_evo ∅ w)|done].
  - rewrite (Dequeue_idem _ _ _ _ _ _ tk Et). set (tk1 := tk <| task_dead := true |> <| pathQueries := ∅ |>). set (w1 := put_task t tk1 w).
    assert (W1 : wf w1).
    { apply (put_task_wfx _ _ _ tk); [done|done|]. split; cbn; try done; [intros _; by destruct (task_type tk)|intros E; by rewrite E in Hs|].
      intros ->. by apply (g_update _ (proj1 W)). }
    assert (Et1 : tasks w1 !! t = Some tk1) by (cbn; by rewrite lookup_insert_eq).
    eapply wp_mono; [apply (wp_DequeueTask _ _ _ (fun _ => True) t false w1 tk1); try done; apply hook_ok_post, runs_ok|].
    cbn. intros w' (_ & V' & _). destruct (e_tasks _ _ _ V' t tk1 Et1) as (k & Ek & _ & _ & Hd). exists k. auto.
Qed.

Definition dead_at (w : World) (t : Z) : Prop := exists tk, tasks w !! t = Some tk /\ task_dead tk = true.

Lemma abort_loop_settled (rs : Z -> list op * list op) (w : World) :
  settled w ->
  wp (each (fun t w' => w' ← AbortTask (runs (rs t).1) (runs (rs t).2) t w'; require (bool_decide (updateTasks w' = updateTasks w)) w') (updateTasks w) w)
     (fun w' => settled w' /\ evo ∅ w w' /\ updateTasks w' = updateTasks w /\ forall t, t ∈ updateTasks w -> dead_at w' t).
Proof.
  intros S. set (I (l : list Z) (w' : World) := settled w' /\ evo ∅ w w' /\ updateTasks w' = updateTasks w /\ (forall t, t ∈ l -> t ∈ updateTasks w) /\
    forall t, t ∈ updateTasks w -> t ∉ l -> dead_at w' t).
  eapply wp_mono; [apply (wp_each _ I)|]; cbn.
  - intros t l w1 (S1 & V1 & Q1 & L1 & D1). assert (Ht : t ∈ updateTasks w) by (apply L1; by constructor).
    apply wp_bind. eapply wp_mono; [apply abort_settled; [done|by rewrite Q1]|]. cbn. intros w2 ((S2 & V2) & D2). apply wp_require. intros Q2%bool_decide_eq_true_1.
    split_and!; [done|by eapply evo_trans|done|intros s Hs; apply L1; by constructor|].
    intros s Hs Hn. destruct (decide (s = t)) as [->|Hne]; [done|]. destruct (D1 s Hs) as (k & Ek & Dk); [set_solver|].
    destruct (e_tasks _ _ _ V2 s k Ek) as (k' & Ek' & _ & _ & Hd). exists k'. auto.
  - split_and!; try done. apply evo_refl.
  - intros w1 (S1 & V1 & Q1 & _ & D1). split_and!; try done. intros t Ht. apply D1; [done|apply not_elem_of_nil].
Qed.

Definition without (ts : list Z) (w : World) : World := w <| tasks ::= fun m => foldl (fun m t => base.delete t m) m ts |>.

Lemma without_lookup (ts : list Z) (w : World) (t : Z) : tasks (without ts w) !! t = if decide (t ∈ ts) then None else tasks w !! t.
Proof.
  unfold without. cbn. generalize (tasks w) as m. induction ts as [|s ts IH]; intros m; cbn; [by rewrite decide_False by apply not_elem_of_nil|].
  rewrite IH. destruct (decide (t = s)) as [->|Hne].
  - rewrite lookup_delete_eq. rewrite (decide_True (P := s ∈ s :: ts)) by constructor. by case_decide.
  - rewrite lookup_delete_ne by done. destruct (decide (t ∈ ts)); [rewrite decide_True by (by constructor)|rewrite decide_False by (rewrite elem_of_cons; tauto)]; done.
Qed.

(** The loop that releases the tasks, each with one reference, frees them. *)
Lemma release_loop (ts : list Z) (w : World) :
  NoDup ts -> (forall t, t ∈ ts -> exists tk, tasks w !! t = Some tk /\ refCount tk = 1) -> each ClearRelease ts w = Val (without ts w).
Proof.
  revert w. induction ts as [|t ts IH]; intros w Hnd Hts; [by destruct w|]. apply NoDup_cons in Hnd as [Hn Hnd]. cbn [each].
  destruct (Hts t) as (tk & Et & Hr); [by constructor|]. rewrite (ClearRelease_frees t w tk Et Hr). cbn [mbind out_bind]. rewrite IH; [done|done|].
  intros s Hs. destruct (Hts s) as (k & Ek & Hk); [by constructor|]. exists k. split; [|done]. cbn. rewrite lookup_delete_ne; [done|]. by intros ->.
Qed.

Lemma drop_all_settled (ts : list Z) (w : World) :
  settled w -> updateTasks w = ts -> (forall t, t ∈ ts -> dead_at w t) -> settled ((without ts w) <| updateTasks := [] |>).
Proof.
  revert w. induction ts as [|t ts IH]; intros w S Q D.
  - assert (E : (without [] w) <| updateTasks := [] |> = w) by (destruct w; cbn in Q; by subst). by rewrite E.
  - destruct (D t) as (tk & Et & Hd); [by constructor|]. pose proof (proj1 (g_queue _ (proj1 (st_wf _ _ S)))) as Hnd. rewrite Q in Hnd. apply NoDup_cons in Hnd as [Hn Hnd].
    assert (S1 : settled (w <| updateTasks := ts |> <| tasks ::= base.delete t |>)) by (apply (drop_task_settled t w tk); [done|by rewrite Q|done|done]).
    refine (IH _ S1 eq_refl _). intros s Hs. destruct (D s) as (k & Ek & Hk); [by constructor|]. exists k. cbn. rewrite lookup_delete_ne; [done|]. by intros ->.
Qed.

Lemma queue_refs (w : World) (t : Z) : settled w -> t ∈ updateTasks w -> exists tk, tasks w !! t = Some tk /\ refCount tk = 1 /\ is_special (task_type tk) = false.
Proof.
  intros S Ht. destruct (proj2 (g_queue _ (proj1 (st_wf _ _ S))) t Ht) as (tk & Et & Hs). exists tk. split_and!; try done. by apply (k_ref _ (st_kept _ _ S) t).
Qed.

Lemma module_release_settled (rs : Z -> list op * list op) (w : World) :
  settled w -> wp (ITaskModule_Release rs w) (fun w' => settled w' /\ updateTasks w' = [] /\ exists w1, evo ∅ w w1 /\ wunits w' = wunits w1 /\ acts_heap w' = acts_heap w1 /\ teamUnits w' = teamUnits w1).
Proof.
  intros S. unfold ITaskModule_Release. apply wp_bind. eapply wp_mono; [by apply abort_loop_settled|]. cbn. intros w1 (S1 & V1 & Q1 & D1).
  rewrite release_loop; [|apply (g_queue _ (proj1 (st_wf _ _ S)))|].
  2: { intros t Ht. rewrite <- Q1 in Ht. destruct (queue_refs w1 t S1 Ht) as (tk & Et & Hr & _). eauto. }
  cbn [mbind out_bind wp]. split_and!; [by apply drop_all_settled|done|]. by exists w1.
Qed.

(** After the module only tasks the player was given are left. *)
Lemma module_delete_frees (w : World) :
  settled w -> exists w', ITaskModule_delete w = Val w' /\ (forall t tk, tasks w' !! t = Some tk -> task_type tk = PLAYER) /\
    w' = w <| tasks := tasks w' |>.
Proof.
  intros S. pose proof (proj1 (st_wf _ _ S)) as G. destruct (g_nil _ G) as (nk & En & Tn & _). destruct (g_idle _ G) as (ik & Ei & Ti & _).
  destruct (k_player _ (st_kept _ _ S)) as (pk & Ep & Tp).
  assert (H1 : nilTask w <> idleTask w) by (intros E; rewrite E in En; congruence). assert (H2 : nilTask w <> playerTask w) by (intros E; rewrite E in En; congruence).
  assert (H3 : idleTask w <> playerTask w) by (intros E; rewrite E in Ei; congruence).
  unfold ITaskModule_delete, delete_task, task_at, deref. rewrite En. cbn. rewrite lookup_delete_ne, Ei by done. cbn. rewrite !lookup_delete_ne, Ep by done. cbn.
  rewrite release_loop; [|apply (g_queue _ G)|].
  2: { intros t Ht. destruct (queue_refs w t S Ht) as (tk & Et & Hr & Hs). exists tk. split; [|done]. cbn.
       rewrite !lookup_delete_ne; [done|intros <-; rewrite En in Et|intros <-; rewrite Ei in Et|intros <-; rewrite Ep in Et]; simplify_eq; by rewrite ?Tn, ?Ti, ?Tp in Hs. }
  eexists. split; [done|]. split; [|done]. intros t tk. rewrite without_lookup. case_decide as Hq; [done|]. cbn.
  rewrite !lookup_delete_Some. intros (Np & Ni & Nn & Et). destruct (is_special (task_type tk)) eqn:Hs; [|by destruct Hq; apply (k_queued _ (st_kept _ _ S) t tk)].
  destruct (g_types _ G t tk Et) as (_ & HI & HN). destruct (task_type tk); try done; [by destruct (HN eq_refl) as [-> _]|by rewrite (HI eq_refl) in Ni].
Qed.

(** * The units *)

(** What freeing a unit relies on: its actions are allocated and its own. *)
Definition own_acts (w : World) : Prop := forall u x, wunits w !! u = Some x -> NoDup (actions (acts x)) /\
  forall p, p ∈ actions (acts x) -> exists a, acts_heap w !! p = Some a /\ ownerList a = u.

(** All but the units and their actions. *)
Definition others (w : World) : World := w <| wunits := ∅ |> <| acts_heap := ∅ |>.

Lemma delete_unit_frees (u : Z) (w : World) (x : CCircuitUnit) (P : World -> Prop) :
  own_acts w -> wunits w !! u = Some x ->
  (forall w', own_acts w' -> wunits w' = base.delete u (wunits w) -> others w' = others w -> P w') -> wp (delete_unit u w) P.
Proof.
  intros A Eu HP. destruct (A u x Eu) as [Hnd Hin]. unfold delete_unit. apply wp_bind.
  apply (wp_Clear_owned _ _ x); [done|done|intros p Hp; destruct (Hin p Hp) as (a & Ea & _); eauto|]. cbn [wp]. apply HP; try done; [|cbn; apply delete_insert_eq].
  intros v y. cbn. rewrite delete_insert_eq. intros [Hne Ey]%lookup_delete_Some. destruct (A v y Ey) as [Hy1 Hy2]. split; [done|].
  intros p Hp. destruct (Hy2 p Hp) as (a & Ea & Ho). exists a. split; [|done]. apply map_lookup_filter_Some. split; [done|]. cbn. intros Hx.
  destruct (Hin p Hx) as (b & Eb & Hb). congruence.
Qed.

(** The first loop frees the dead units of the list. *)
Lemma dead_loop (l : list Z) (w : World) :
  own_acts w -> NoDup l -> (forall u, u ∈ l -> is_Some (wunits w !! u)) ->
  wp (each delete_if_dead l w) (fun w' => own_acts w' /\ others w' = others w /\
    forall u, wunits w' !! u = x ← wunits w !! u; if decide (unit_dead x = true /\ u ∈ l) then None else Some x).
Proof.
  revert w. induction l as [|u l IH]; intros w A Hnd Hl.
  - cbn. split_and!; try done. intros v. destruct (wunits w !! v); [|done]. cbn. rewrite decide_False; [done|]. intros [_ Hv]. by apply elem_of_nil in Hv.
  - apply NoDup_cons in Hnd as [Hn Hnd]. destruct (Hl u) as [x Eu]; [by constructor|]. cbn [each]. apply wp_bind. unfold delete_if_dead at 1. apply wp_bind, (wp_deref _ _ x); [done|].
    destruct (unit_dead x) eqn:Hd.
    + apply (delete_unit_frees u w x); [done|done|]. intros w1 A1 U1 O1. eapply wp_mono.
      { apply IH; [done|done|]. intros v Hv. rewrite U1, lookup_delete_ne by (by intros ->). apply Hl. by constructor. }
      cbn. intros w2 (A2 & O2 & U2). split_and!; [done|congruence|]. intros v. rewrite U2, U1. destruct (decide (u = v)) as [<-|Hne].
      * rewrite lookup_delete_eq, Eu. cbn. rewrite decide_True; [done|]. split; [done|constructor].
      * rewrite lookup_delete_ne by done. destruct (wunits w !! v) as [y|]; [|done]. cbn. apply decide_ext. rewrite elem_of_cons. intuition congruence.
    + cbn [wp]. eapply wp_mono; [apply IH; [done|done|intros v Hv; apply Hl; by constructor]|]. cbn. intros w2 (A2 & O2 & U2). split_and!; try done.
      intros v. rewrite U2. destruct (wunits w !! v) as [y|] eqn:Ey; [|done]. cbn. apply decide_ext. rewrite elem_of_cons.
      destruct (decide (u = v)) as [<-|Hne]; [|intuition congruence]. assert (y = x) as -> by congruence. rewrite Hd. intuition congruence.
Qed.

(** The second frees the registered ones. *)
Lemma team_loop (l : list Z) (w : World) :
  own_acts w -> NoDup l -> (forall u, u ∈ l -> is_Some (wunits w !! u)) ->
  wp (each delete_unit l w) (fun w' => others w' = others w /\ forall u, wunits w' !! u = if decide (u ∈ l) then None else wunits w !! u).
Proof.
  revert w. induction l as [|u l IH]; intros w A Hnd Hl; cbn [each].
  - done.
  - apply NoDup_cons in Hnd as [Hn Hnd]. destruct (Hl u) as [x Eu]; [by constructor|]. apply wp_bind, (delete_unit_frees u w x); [done|done|]. intros w1 A1 U1 O1.
    eapply wp_mono; [apply IH; [done|done|]|].
    { intros v Hv. rewrite U1, lookup_delete_ne by (by intros ->). apply Hl. by constructor. }
    cbn. intros w2 (O2 & U2). split; [congruence|]. intros v. rewrite U2, U1. destruct (decide (u = v)) as [<-|Hne].
    + rewrite lookup_delete_eq. rewrite (decide_True (P := u ∈ u :: l)) by constructor. by case_decide.
    + rewrite lookup_delete_ne by done. apply decide_ext. rewrite elem_of_cons. intuition congruence.
Qed.

Lemma team_distinct (w : World) : settled w -> NoDup (map_to_list (teamUnits w)).*2.
Proof.
  intros S. apply NoDup_fmap_2_strong; [|apply NoDup_map_to_list]. intros [i u] [j v] Hu%elem_of_map_to_list Hv%elem_of_map_to_list. cbn. intros ->.
  destruct (st_team _ _ S i v Hu) as (x & Ex & <- & _). destruct (st_team _ _ S j v Hv) as (y & Ey & <- & _). congruence.
Qed.

Lemma team_listed (w : World) (u : Z) : u ∈ (map_to_list (teamUnits w)).*2 <-> exists id, teamUnits w !! id = Some u.
Proof.
  rewrite list_elem_of_fmap. split; [intros ([i v] & -> & Hv%elem_of_map_to_list); eauto|intros [i Hi]; exists (i, u); split; [done|]; by apply elem_of_map_to_list].
Qed.

(** Every unit that is dead or registered is freed. *)
Lemma release_units_frees (w w0 : World) :
  settled w -> w0 = w <| tasks := tasks w0 |> ->
  wp (release_units w0) (fun w' => tasks w' = tasks w0 /\ updateTasks w' = updateTasks w /\ actionUnits w' = [] /\ teamUnits w' = ∅ /\ garbage w' = ∅ /\
    forall u x, wunits w' !! u = Some x -> wunits w !! u = Some x /\ unit_dead x = false /\ forall id, teamUnits w !! id <> Some u).
Proof.
  intros S E0. generalize dependent (tasks w0). intros ts ->. unfold release_units. destruct (st_action _ _ S) as [Hnd Hact].
  assert (A : own_acts (w <| tasks := ts |>)) by exact (g_acts _ (proj1 (st_wf _ _ S))).
  apply wp_bind. eapply wp_mono; [apply dead_loop; [done|done|]|].
  { intros u Hu. destruct (Hact u Hu) as (x & Eu & _). eauto. }
  intros w1 (A1 & O1 & U1). cbn in U1. pose proof (f_equal teamUnits O1) as M1. cbn in M1. cbv zeta. apply wp_bind.
  eapply wp_mono; [apply team_loop; [done|cbn; rewrite M1; by apply team_distinct|]|].
  { intros u Hu. cbn in Hu |- *. rewrite M1 in Hu. apply team_listed in Hu as [i Hi]. destruct (st_team _ _ S i u Hi) as (x & Ex & _ & Hx).
    rewrite U1, Ex. cbn. rewrite decide_False; [eauto|]. rewrite Hx. by intros [? _]. }
  intros w2 (O2 & U2). pose proof (f_equal tasks O1) as T1. pose proof (f_equal updateTasks O1) as Q1. pose proof (f_equal tasks O2) as T2.
  pose proof (f_equal updateTasks O2) as Q2. pose proof (f_equal actionUnits O2) as B2. cbn in T1, Q1, T2, Q2, B2, U2. cbn. split_and!; try done; [congruence|congruence|].
  intros u x. rewrite U2. case_decide as Ht; [done|]. rewrite M1, team_listed in Ht. rewrite U1. destruct (wunits w !! u) as [y|] eqn:Ey; [|done]. cbn.
  case_decide as Hd; [done|]. intros [= ->]. split_and!; [done| |intros id Hi; apply Ht; eauto]. destruct (unit_dead x) eqn:Hx; [|done]. destruct Hd. split; [done|].
  pose proof (st_deadu _ _ S u x Ey Hx) as Hg. destruct (st_gone_at _ _ S u Hg) as (z & Ez & Hz & _). by apply (k_listed _ (st_kept _ _ S) u z).
Qed.

(** * The property *)

Lemma release_frees (resign : bool) (rs : Z -> list op * list op) (w : World) :
  settled w ->
  wp (CCircuitAI_Release resign rs w) (fun w' =>
    (forall t tk, tasks w' !! t = Some tk -> task_type tk = PLAYER) /\ actionUnits w' = [] /\ teamUnits w' = ∅ /\ garbage w' = ∅ /\
    forall u, is_Some (wunits w' !! u) -> exists x, wunits w !! u = Some x /\ unit_dead x = false /\ GetTeamUnit w (unit_id x) <> Some u).
Proof.
  intros S. unfold CCircuitAI_Release. apply wp_bind.
  apply (wp_mono _ (fun w1 => settled w1 /\ exists w2, evo ∅ w w2 /\ wunits w1 = wunits w2 /\ teamUnits w1 = teamUnits w)).
  { destruct resign; [|cbn; split; [done|]; exists w; split; [apply evo_refl|done]]. eapply wp_mono; [by apply module_release_settled|].
    cbn. intros w1 (S1 & _ & w2 & V2 & U2 & _ & M2). split; [done|]. exists w2. split_and!; try done.
    rewrite M2. pose proof (e_consts _ _ _ V2) as C. unfold consts in C. by inversion C. }
  intros w1 (S1 & w2 & V2 & U2 & M1). destruct (module_delete_frees w1 S1) as (w3 & -> & T3 & E3). cbn [mbind out_bind].
  eapply wp_mono; [by apply (release_units_frees w1)|]. cbn. intros w4 (T4 & _ & A4 & M4 & G4 & U4). rewrite T4. split_and!; try done.
  intros u [x' Eu]. destruct (U4 u x' Eu) as (Eu1 & Hd & Hid). rewrite U2 in Eu1. pose proof (e_units _ _ _ V2 u) as V. rewrite Eu1 in V.
  destruct (wunits w !! u) as [x|]; [|done]. destruct V as (Vd & Vi & _). exists x. split_and!; [done|congruence|]. unfold GetTeamUnit. rewrite <- M1. apply Hid.
Qed.

(** C25. The end of the match frees what the match has allocated, each thing once: after any
    events, resigning or not, and whatever the callbacks of the aborted tasks do within their
    contracts, the release follows no pointer to freed memory; no task is left but those the
    player was given by [UnitControl], and no unit but one that is alive and that the registry
    no longer leads to. *)
Theorem match_end_frees (rate frame : Z) (antiCap : bool) (n i p : Z) (es : list event) (resign : bool) (rs : Z -> list op * list op) :
  NoDup [0; n; i; p] ->
  wp (events rate es (World_new frame antiCap n i p)) (fun w =>
    wp (CCircuitAI_Release resign rs w) (fun w' =>
      (forall t tk, tasks w' !! t = Some tk -> task_type tk = PLAYER) /\ actionUnits w' = [] /\ teamUnits w' = ∅ /\ garbage w' = ∅ /\
      forall u, is_Some (wunits w' !! u) -> exists x, wunits w !! u = Some x /\ unit_dead x = false /\ GetTeamUnit w (unit_id x) <> Some u)).
Proof.
  intros Hnd. eapply wp_mono; [by apply events_settled, new_settled|]. intros w S. by apply release_frees.
Qed.

(** A unit at work, a second one idle and a third one destroyed but not yet freed; the script hands the
    first unit to another task while its own is aborted. *)
Definition demo_match : list event :=
  [ ECreated 100 7 3 true 0; EFinished 7; ECreated 101 8 3 true 0; EFinished 8; ECreated 102 9 3 true 0; EFinished 9;
    ECall (Op (CEnqueue 11 P_NORMAL FIGHTER 0) [] [] [] []); ECall (Op (CEnqueue 12 P_NORMAL BUILDER 0) [] [] [] []);
    ECall (Op (CTake 100 11 false false 0) [Op (CPushDGun 100 500) [] [] [] []] [] [] []); EDestroyed 9 no_farewell ].

Definition demo_parting (t : Z) : list op * list op := if t =? 11 then ([Op (CAssign 100 12 false false 0) [] [] [] []], []) else ([], []).

Lemma match_end_frees_witness :
  NoDup [0; 1; 2; 3] /\
  exists w w', events 15 demo_match (World_new 0 false 1 2 3) = Val w /\ CCircuitAI_Release true demo_parting w = Val w' /\
    updateTasks w = [11; 12] /\ actionUnits w = [100; 101; 102] /\ size (wunits w) = 3%nat /\
    tasks w' = ∅ /\ wunits w' = ∅ /\ acts_heap w' = ∅ /\ actionUnits w' = [].
Proof.
  assert (Hnd : NoDup [0; 1; 2; 3]) by (apply (bool_decide_unpack (NoDup [0; 1; 2; 3])); vm_compute; exact I).
  split; [exact Hnd|]. pose proof (match_end_frees 15 0 false 1 2 3 demo_match true demo_parting Hnd) as H.
  destruct (events 15 demo_match (World_new 0 false 1 2 3)) as [w| |] eqn:E; [|vm_compute in E; discriminate E..]. cbn [wp] in H.
  destruct (CCircuitAI_Release true demo_parting w) as [w'| |] eqn:E'; [|vm_compute in E; injection E as <-; vm_compute in E'; discriminate E'..].
  exists w, w'. destruct H as (_ & HA & _). vm_compute in E. injection E as <-. vm_compute in E'. injection E' as <-. repeat split; try exact HA; vm_compute; reflexivity.
Defined.

(** An identifier that comes back: the turn of an unregistered unit in the garbage takes the registration of
    the unit that has its identifier now, which no event reaches any more and the release does not free. *)
Lemma reused_id_unregisters :
  exists w w', events 15 [ECreated 100 7 3 true 0; EFinished 7; ECall (Op (CGarbage 100) [] [] [] []); EDestroyed 7 no_farewell;
      ECreated 101 7 3 true 0; EFinished 7; EGarbage no_farewell] (World_new 0 false 1 2 3) = Val w /\
    GetTeamUnit w 7 = None /\ (exists x, wunits w !! 101 = Some x /\ unit_id x = 7 /\ unit_dead x = false) /\
    CCircuitAI_Release false (fun _ => ([], [])) w = Val w' /\ is_Some (wunits w' !! 101).
Proof.
  eexists _, _. split; [vm_compute; reflexivity|]. split; [vm_compute; reflexivity|]. split; [eexists; vm_compute; eauto|].
  split; [vm_compute; reflexivity|]. vm_compute. eauto.
Qed.
